(* ===== verification/_CoqProject ===== *)
-Q . S2P
Prelude.v
Locks.v
Content.v
Paths.v
FsState.v
FsTree.v
FsScripts.v
FsClient.v
FsInv.v
FsOps.v
FsRange.v
FsChunks.v
FsSpec.v
FsSeq.v
FsChunkSeq.v
FsListing.v
FsRemove.v
FsProps.v
SyncState.v
SyncChunks.v
SyncWorld.v
SyncPlan.v
SyncDown.v
SyncUp.v
SyncEvent.v
SyncExec.v
SyncRun.v
SyncSample.v
SyncInv.v
SyncProps.v
SyncTree.v
SyncGaps.v
SyncPending.v
SyncKeep.v
SyncPlanProps.v
SyncSave.v
SyncSaveProps.v
SyncSaveScan.v
SyncSaveRun.v
SyncWatch.v
ServerDiff.v
Glob.v
Json.v
GlobProps.v
HistoryPolicy.v
SessionGate.v
GateProps.v
Base64.v
RootNodes.v
RootBuild.v
RootTree.v
RootScan.v
RootLive.v
RootProps.v
CheckpointState.v
CheckpointJson.v
Checkpoint.v
CheckpointRely.v
CheckpointScan.v
CheckpointProps.v
CheckpointRestore.v
CheckpointRaces.v
Retention.v
RetentionProps.v
HistoryQuery.v
HistoryQueryProps.v
MountPlan.v
MountPlanProps.v
McpFiles.v
McpFilesProps.v
