(* ===== verification/Prelude.v ===== *)
(** Verification of afs: a shared, Redis-backed filesystem for agents.

    * The program

    A workspace is a POSIX-like file tree kept in Redis.  Every client (an NFS or
    FUSE mount, the sync engine of the command line tool) works through the filesystem client of mount/internal/client, which turns
    path and handle operations into Redis commands, WATCH transactions and Lua
    scripts.  Several clients work on one workspace at once, without a server of
    their own between them; what keeps the tree sound is that every visible
    change is one script, guarded by the revisions the client has read.

    The sync engine of cmd/afs keeps a local directory and a workspace the same:
    it watches the one, subscribes to the other, and keeps for every path the
    baseline both sides last agreed on.  A save is the same engine asked for a
    receipt.  The control plane keeps checkpoints of workspaces as manifests,
    writes them out as live trees and reads live trees back, and shows their
    differences.  File history keeps versions of the files a policy selects.
    The MCP file server gives an agent a folder that the sync engine keeps.

    The development models these: the client with the scripts it publishes with,
    the content store below it, the locks beside it and the gate of its sessions
    in front of it; the sync engine over the client's interface; of the control
    plane, checkpoints, the way between manifests and live trees and the difference
    of two manifests; of file history, its policy, the matching of its patterns, retention and queries.

    * The parts: the client

    - Prelude: integers of Go's widths, [result] for Go's value and error pairs,
      the contract of [sort.Slice], a few functions of package [strings], lemmas
      on lists and the tactics the files share.
    - Locks: mount/internal/client/native_locks.go, the advisory byte-range locks.
      [FileLock] is [storedFileLock], [LockDB] the lock hash of one inode;
      [applyFileLock], [trySetLock], [Setlk], [Getlk], [UnlockAll] and
      [pruneExpiredLocks] are the functions of these names.  C1 to C4; a lemma on
      [Setlk] with waiting.
    - Content: internal/rediscontent/content.go, the bytes of a file in one key, a
      string or a Redis Array of 4096-byte chunks.  [cell] is the key,
      the class [RedisArray] the contract of the array commands, the flat string
      with [pread], [pwrite] and [ftruncate] the specification, [repr] and
      [cell_repr] the refinement relation.  Sizes are int64 and wrap.  C8, for
      sizes up to [MaxArraySize], and that a full write is read back.
    - Paths: mount/internal/client/keys.go and the path helpers of
      native_helpers.go over Go's package [path]; the helpers agree with lists of
      components, and distinct keys do not collide.
    - FsState: the Redis state [db] of one workspace and the five Lua scripts of
      publication.go and history_publication.go, each a function from arguments
      and state to a reply code and a state.
    - FsTree: the namespace as a map from inode numbers to nodes and the invariant
      [fs_inv] of the state: the directory hashes are the index of the inodes,
      every inode reaches the root, the accounting hash counts what there is.
    - FsScripts: every script preserves [fs_inv] or changes nothing.
    - FsClient: the client's operations (native_core.go, native_helpers.go,
      native_parent.go, publication.go) in the state and error monad [M].
    - FsInv: rely and guarantee: [w_inv] is the invariant of the client's world,
      [ext] and [soft] what a step of this client and of another may do,
      [triple] the specification of a program under both.
    - FsOps: the operations of FsClient keep the invariant under interference.
    - FsRange: native_range.go, the operations on inode handles: the path of an
      inode, range reads, staged range writes and truncation, which leave the flat
      content in the stage; the path of a live inode is exact.
    - FsChunks: chunked writes and reads, the chunk manifest and the listing of
      directories (publication.go, native_core.go).
    - FsSpec, FsSeq, FsChunkSeq, FsListing, FsRemove: the client alone.  FsSpec gives path resolution and
      the reading operations as functions of the state; FsSeq shows what a write
      or a creation leaves and that it is read back (C21 for a write), FsChunkSeq the
      same for a chunked write (C20); FsListing that a listing is exact; FsRemove gives
      the outcome of a removal on every branch (C23).
    - FsProps: programs of operations and two clients interleaved command by
      command (C11), conditional publication (C13), retries that do not bring
      back a deleted file, rename (C15, and three lemmas on renames that
      leave no tree).
    - SessionGate, GateProps: the gate of a session (native_session.go), which every
      request passes and a barrier drains, as threads that move one critical
      section or one wait at a time: what a barrier saw (C5), that no wake-up is
      lost (C10), that no thread spins (C16).

    * The parts: the sync engine

    - SyncState: sync_state.go, sync_chunk.go, sync_identity.go, sync_ignore.go:
      the baseline ([SyncEntry], [SyncState]), the debounced writer every change
      of it goes through, chunk manifests, ignored paths.
    - SyncChunks: chunk manifests and delta downloads (C24); the two chunk
      manifests of a file are the same.
    - SyncWorld: the local tree with the calls of package os the engine makes, the
      class [RemoteClient] for the client's methods it calls, the engine's state
      [eng] (baseline, channels, pending counters, echo expectations, rename
      candidates), the configuration [SyncCfg], the monad [E].
    - SyncPlan, SyncExec, SyncRun: sync_full_reconciler.go, mount_reconcile.go,
      sync_directory_modes.go: the two scans, the plan, the execution of its
      actions, the warm and cold pass, the replay of the change stream; and the
      turns the goroutines of the daemon take ([takeTurn], [takeTurns]).
    - SyncUp: sync_uploader.go.  SyncDown: sync_downloader.go and
      sync_remote_delete.go.  SyncEvent: sync_event_reconciler.go.
    - SyncSample: a concrete mount, for the witnesses.
    - SyncInv: an invariant that survives the primitive changes of the engine
      ([Stable]) survives every function and every turn.
    - SyncProps: a read-only mount never writes (C26), the versions the counter
      draws identify baselines (C27).
    - SyncGaps: three protocols that fall short of their purpose.
    - SyncPending: scans skipped for a pending upload are not lost (C31).
    - SyncTree, SyncKeep: a download leaves bytes no baseline knows where they are or
      moves them to a conflict copy (C32); what it does to those that arrive after
      its last look ([closing_window_loses_bytes]).
    - SyncPlanProps: every planned action has its reason (C33), and the order of
      execution can be carried out.
    - MountPlan: the rest of mount_reconcile.go: the plan a mount makes before the
      daemon starts, and what sync_lifecycle.go and sync_daemon.go decide by it.
      MountPlanProps: an approved mount is safe (C7).
    - SyncSave: sync_save_engine.go, sync_save_mutations.go, sync_save_moves.go.
      SyncSaveProps: the plan of a save refuses exactly the foreign changes and
      leads to the local tree (C35, C36).  SyncSaveScan, SyncSaveRun: what a
      receipt certifies (C37).
    - SyncWatch: sync_watcher.go as a step relation with its timers and its bounded
      queue (C38, for names that do not begin with two dots).

    * The parts: the control plane

    - ServerDiff: internal/controlplane/server_diff.go and the comparison of
      manifest entries of checkpoint_commit.go.  The hunk of two texts leads from
      the one to the other (C39), the difference of two manifests from the one
      to the other (C40).
    - Base64: the standard encoding, as encoding/base64 has it.
    - RootNodes: workspace_root.go: a manifest becomes inodes in the order of depth,
      and the inodes commands in bounded pipelines.  RootBuild and RootTree: what
      is built is a tree, what is written is that tree (C25 on the pipelines).
    - RootScan: workspace_root_manifest.go: the live tree, read level by level, as a
      manifest; every read has its own moment.  RootLive gives the scan of a tree
      nobody changes as a function of it; RootProps shows that it ends and what
      it lists (C17), and that what it lists comes back (C18).
    - CheckpointState: what the control plane keeps of one workspace in Redis
      (store.go, generation.go, import_lock.go) around the live tree of FsState,
      and the monad [CM] of its operations, with WATCH and EXEC.  CheckpointJson:
      the records as their JSON gives them back.  Checkpoint:
      service.go, checkpoint_commit.go, history_restore_activity.go: taking,
      restoring and deleting a checkpoint, deleting a workspace.
    - CheckpointRely: the steps others take ([act]) and what a caller may conclude
      from two states between which only they acted ([later]).  CheckpointScan:
      a scan of a tree that stands still while it is read.  CheckpointProps: a
      checkpoint is a snapshot of one moment (C9).  CheckpointRestore: a restore
      is exact and exclusive (C22).  [act] lets clients journal what they change
      and refresh the path hints of a renamed subtree unannounced ([act_refresh]),
      which neither a scan nor a restore looks at ([settled], [same_view]); it leaves out
      clients told not to publish and servers that go on writing a tree after they
      lost their lock.  CheckpointRaces: what these do, and what becomes of
      names that are not UTF-8, at concrete runs.

    * The parts: file history

    - Glob: internal/filehistory/policy.go and glob.lua: the matcher of Go over
      [path.Match], of which this is a model too, and the one of the scripts.
      GlobProps: both find what the pattern means (C30).
    - Json: what a string becomes that is kept as JSON: bytes that are no UTF-8 are
      replaced.
    - HistoryPolicy: policy.go and policy_update.go: the policy, its validation and
      its WATCH transaction (C28, C29).
    - Retention: retention.go, the script that removes old versions page by page, and
      the batches of cmd/afs/history_command.go.  RetentionProps: planning first
      and removing afterwards is a sweep (C12), the accounting stays exact and the
      protected versions stay (C19), the cursor gets around (C34).
    - HistoryQuery: query.go, the lineages and versions of a path page by page, one
      version with its content, the current path of a file.  HistoryQueryProps:
      paging misses and repeats nothing (C6); a version is read with the content it
      was recorded with; the current path leads back to the file.

    The MCP file server (internal/mcpfiles):
    - McpFiles: files.go, server.go and the verdicts of cli.go: the four tools an agent
      may call on a mounted folder, one system call at a time, others changing the file
      system before each and any call failing.  McpFilesProps: they only create (C14).

    * How the parts interact

    FsClient calls Content for the bytes, Paths for the keys and components and
    FsState for the scripts.  A client operation reads inodes and directory hashes
    one command at a time; other clients act before every command ([interfere],
    by a function [env] of which the theorems assume only the class [Rely]).  It
    then writes new content to a private staging key and runs one script, which
    compares the revision it has read, replaces the content, rewrites the inode,
    the directory hash and the accounting hash, and records the operation's
    identity so that a retry is answered without a second effect.  FsTree's
    invariant is what the scripts keep; FsInv's [ext] is what a client may count
    on between two commands: an inode with the revision it has read has not
    moved or changed.  FsProps discharges [Rely] for an environment in which
    another client of the same kind runs arbitrary operations at every command.

    The sync engine sees the client through [RemoteClient] only: the theorems on
    the engine hold for every implementation of these methods, answers of all
    kinds and errors included; the few that need more say so.  Whoever else
    changes the local tree acts by the function [app] of the configuration: before
    every remote call ([Waiting]) and in the downloader also between its last look
    at a local path and the call that replaces or removes it ([Closing]); each
    theorem states what it needs [app] to leave alone at which moment.
    The watcher feeds the channel of local events, the subscription that of
    remote events; the event reconciler takes both and feeds the queues of the
    uploader and the downloader, whose results come back to it; a recovery pass
    stops both and compares everything.  [takeTurns] lets them act in any order.

    The control plane works on the same Redis state: [c_db] of its record is the
    [db] of FsState.  Clients see the generation it sets in the guard of every
    script and are turned away while a restore runs; it sees them in the journal
    the scripts append to.  Its programs are sequences of commands with the steps
    of others before each, as for the client, but others are a step relation of
    their own, because they include other servers and the expiry of locks.

    * Bounds and fuel

    The bounds of the source are the bounds of the model: 40 symbolic links in one
    resolution ([maxSymlinkDepth]), 16 attempts of a WATCH transaction
    ([watch_attempts]), 8 of a rename ([rename_attempts]), 4 of [Cat], 16 of a
    range read, 32 of a range write ([range_attempts]), 4096 components in the
    script that finds a path; [path_loop] runs 4098 turns, one more than the
    longest accepted path needs, and [inode_path_exact] shows that it answers.  The walk over a
    path recurses on its components and the symlink budget.  The recursion
    of [collectRefresh] over a directory tree, which the source bounds by nothing,
    gets one turn more than there are inodes, more than a tree can be deep;
    [rename_through_link_detaches_subtree] shows a reachable state that is no tree, in which no number of turns would be
    enough.  [split_loop] of Content and the loops of Paths recurse on lists or
    carry as many turns as they have input bytes.

    In the sync engine the loops over a file's chunks get one turn more than
    it has bytes, which [chunk_manifests_agree] shows is enough for any chunk size.  The walk over the remote tree
    is bounded by nothing in the source and its answers come from other clients;
    it takes one unit of fuel per level as a choice of the turn ([pc_depth],
    [sc_depth]), and ends with an error when that is used up: the theorems hold
    for any choice, and the witness of C37 runs a save to its receipt.  The same
    holds for the batches of a replay ([catchUp_loop], which never runs:
    [stream_catch_up_never_runs]).
    Versions are 64-bit and wrap; C27 states its bound.  ServerDiff recurses on
    lists and strings.  The scan of the live tree takes one unit of fuel per level;
    C17 shows that as many levels as there are inodes are enough.  [addParents]
    gets as many turns as the path has bytes, the loops of [path.Match] and of the
    scripts' matcher as many as their pattern has characters.  A page of retention
    examines at most 1000 versions, a command 100 pages of 100; C34 shows how many
    pages a history needs, C6 how many pages a reader asks for.  The gate has no
    fuel: C16 bounds its moves.

    * What is not modelled

    Of the client: the attribute cache and the invalidation stream's consumer, the
    mutation observer, file history (the scripts are those of a workspace whose
    versioning policy is off; [history_capture] then returns at once), the
    enrichment of the publication record and the trimming of the journal, expiry
    of staging keys, the 512 MB limit of a Redis string, transport failures, the
    requests a session wraps and the timer of its lease, and the warming of the path cache.

    Of the sync engine: the save service (request files, authentication, restart
    of workers), the JSON file of the state (what it holds is [sw_disk] of the writer), bulk materialisation on a cold start or a
    restore, setuid and sticky bits, times
    of directories, symbolic links among the ancestors of a local path, and the
    management of the daemon process.

    Of the control plane: the HTTP service and its views, the creation, import and
    fork of workspaces, the index of names, the audit stream, the heartbeat of the
    import lock (its loss may be noticed at any time, [cq_lost]), file history in a
    restore; of the difference of manifests the reading of the two snapshots, the
    limits on texts and the detection of binary files; of a live tree its file
    history bindings.  Of file
    history: capture, and the preparation of hashes and bodies before it.  Outside these: the NFS and FUSE adapters, the
    command line, the managed client, the start of the MCP server, the worktree scanner and the user
    interface.

    Redis and its array commands, fsnotify, go-nfs and go-fuse are libraries the
    source calls; of Redis the commands the source uses are modelled as state
    changes, of the array commands only their documented contract is assumed,
    fsnotify is the sequence of its events. *)
From Stdlib Require Export ZifyBool Sorted Ascii.
From stdpp Require Export strings gmap sorting prelude.
Export list_relations.list list_basics.list list_monad.list list_misc.list.
#[global] Open Scope Z_scope.

(** * Machine integers *)

(** [uint64] and [int64] arithmetic wraps; the two functions are the
    wrap-around of Go's fixed-width conversions. *)
Definition max_uint64 : Z := 2 ^ 64 - 1.
Definition max_int64 : Z := 2 ^ 63 - 1.
Definition u64 (z : Z) : Z := z `mod` 2 ^ 64.
Definition u32 (z : Z) : Z := z `mod` 2 ^ 32.
Definition i64 (z : Z) : Z := (z + 2 ^ 63) `mod` 2 ^ 64 - 2 ^ 63.

Lemma u64_small z : 0 ≤ z ≤ max_uint64 → u64 z = z.
Proof. intros. apply Z.mod_small. unfold max_uint64 in *. lia. Qed.

Lemma i64_small z : - 2 ^ 63 ≤ z ≤ max_int64 → i64 z = z.
Proof. intros. unfold i64. rewrite Z.mod_small; unfold max_int64 in *; lia. Qed.

Lemma u64_range z : 0 ≤ u64 z ≤ max_uint64.
Proof.
  unfold u64, max_uint64. pose proof (Z.mod_pos_bound z (2 ^ 64)). lia.
Qed.

(** * Results: Go's [(T, error)] pairs *)

Inductive result (E A : Type) : Type :=
| Ok (a : A)
| Err (e : E).
Arguments Ok {E A} a.
Arguments Err {E A} e.

Definition result_bind {E A B} (r : result E A) (f : A → result E B) : result E B :=
  match r with Ok a => f a | Err e => Err e end.

Declare Scope go_scope.
Delimit Scope go_scope with go.
Notation "'do' x <- c ; k" := (result_bind c (λ x, k))
  (at level 100, x pattern, c at next level, k at level 200, right associativity) : go_scope.
Notation "'check' c ; k" := (result_bind c (λ _, k))
  (at level 100, c at next level, k at level 200, right associativity) : go_scope.

#[export] Instance result_eq_dec {E A} `{EqDecision E, EqDecision A} :
  EqDecision (result E A).
Proof. solve_decision. Defined.

(** * Sorting: [sort.Slice]

    [sort.Slice] promises a permutation that is sorted for [less] and no
    stability.  The theorems quantify over every function with that contract;
    [insertion_sort] is an executable instance. *)

Class SliceSort {A} (less : A → A → bool) := {
  sort_slice : list A → list A;
  sort_slice_perm l : sort_slice l ≡ₚ l;
  sort_slice_sorted l : StronglySorted (λ x y, less y x = false) (sort_slice l)
}.

(** A [less] that never orders two elements both ways and whose negation is
    transitive: what Go asks of the argument of [sort.Slice]. *)
Class StrictWeak {A} (less : A → A → bool) := {
  sw_asym x y : less x y = true → less y x = false;
  sw_trans x y z : less y x = false → less z y = false → less z x = false
}.

Section insertion_sort.
Context {A : Type} (less : A → A → bool).

Fixpoint insert_sorted (x : A) (l : list A) : list A :=
  match l with
  | [] => [x]
  | y :: l' => if less x y then x :: l else y :: insert_sorted x l'
  end.

Definition insertion_sort (l : list A) : list A := foldl (λ acc x, insert_sorted x acc) [] l.

Lemma insert_sorted_perm x l : insert_sorted x l ≡ₚ x :: l.
Proof.
  induction l as [|y l IH]; simpl; [done|]. destruct (less x y); [done|].
  rewrite IH. apply Permutation_swap.
Qed.

Lemma insertion_sort_perm l : insertion_sort l ≡ₚ l.
Proof.
  unfold insertion_sort. change l with ([] ++ l) at 2. generalize (@nil A) as acc.
  induction l as [|x l IH]; intros acc; simpl; [by rewrite app_nil_r|].
  rewrite IH, insert_sorted_perm. apply Permutation_middle.
Qed.

Context `{!StrictWeak less}.

Lemma insert_sorted_sorted x l :
  StronglySorted (λ x y, less y x = false) l →
  StronglySorted (λ x y, less y x = false) (insert_sorted x l).
Proof.
  induction 1 as [|y l Hl IH Hy]; simpl; [repeat constructor|].
  destruct (less x y) eqn:E.
  - repeat constructor; auto; [by apply sw_asym|].
    eapply Forall_impl; [exact Hy|]. intros z Hz.
    eapply sw_trans; [by apply sw_asym|exact Hz].
  - constructor; [exact IH|]. rewrite insert_sorted_perm. by constructor.
Qed.

Lemma insertion_sort_sorted l :
  StronglySorted (λ x y, less y x = false) (insertion_sort l).
Proof.
  unfold insertion_sort. assert (StronglySorted (λ x y, less y x = false) (@nil A)) as Hacc
    by constructor. revert Hacc. generalize (@nil A) as acc.
  induction l as [|x l IH]; intros acc Hacc; simpl; [done|].
  apply IH. by apply insert_sorted_sorted.
Qed.

#[export] Instance insertion_SliceSort : SliceSort less := {|
  sort_slice := insertion_sort;
  sort_slice_perm := insertion_sort_perm;
  sort_slice_sorted := insertion_sort_sorted
|}.
End insertion_sort.

(** [a < b] of Go strings: byte order. *)
Definition stringLess (a b : string) : bool :=
  match String.compare a b with Lt => true | _ => false end.

Lemma leb_stringLess a b : String.leb a b = negb (stringLess b a).
Proof.
  unfold String.leb, stringLess. rewrite String.compare_antisym. by destruct (String.compare b a).
Qed.

Lemma stringLess_total a b : stringLess a b = false → stringLess b a = false → a = b.
Proof.
  unfold stringLess. rewrite (String.compare_antisym b a). destruct (String.compare a b) eqn:E; simpl; try done.
  intros _ _. by apply String.compare_eq_iff.
Qed.

#[export] Instance stringLess_order : StrictWeak stringLess.
Proof.
  split.
  - intros a b. unfold stringLess. rewrite String.compare_antisym. by destruct (String.compare b a).
  - intros a b c H1 H2. apply negb_true_iff. rewrite <- leb_stringLess.
    apply Is_true_true. transitivity b; apply Is_true_true; rewrite leb_stringLess; by apply negb_true_iff.
Qed.

(** Where [less] orders any two elements, sorting leaves no choice. *)
Lemma sorted_unique {A} (less : A → A → bool) (S1 S2 : SliceSort less) l1 l2 :
  (∀ x y, x ∈ l1 → y ∈ l1 → less x y = false → less y x = false → x = y) → l1 ≡ₚ l2 →
  @sort_slice _ _ S1 l1 = @sort_slice _ _ S2 l2.
Proof.
  intros Htot Hp. apply (StronglySorted_unique_strong (λ x y, less y x = false)).
  - intros x y Hx Hy. rewrite (@sort_slice_perm _ _ S1) in Hx. rewrite (@sort_slice_perm _ _ S2), <- Hp in Hy.
    intros ? ?. by apply Htot.
  - apply sort_slice_sorted.
  - apply sort_slice_sorted.
  - by rewrite !sort_slice_perm.
Qed.

Lemma Sorted_app_snoc {A} (R : A → A → Prop) l y x :
  Sorted R (l ++ [y]) → R y x → Sorted R ((l ++ [y]) ++ [x]).
Proof.
  induction l as [|z l IH]; simpl; intros Hs Hyx; [repeat constructor; auto|].
  apply Sorted_inv in Hs as [Hs Hz]. constructor; [by apply IH|].
  destruct l; simpl in *; constructor; by apply HdRel_inv in Hz.
Qed.

Lemma Sorted_rev {A} (R : A → A → Prop) l : Sorted (flip R) l → Sorted R (rev l).
Proof.
  induction l as [|x [|y l] IH]; simpl in *; [constructor|repeat constructor|].
  intros [Hl Hx]%Sorted_inv. apply HdRel_inv in Hx.
  apply Sorted_app_snoc; auto.
Qed.

Lemma Sorted_app_inv_l {A} (R : A → A → Prop) l k : Sorted R (l ++ k) → Sorted R l.
Proof.
  induction l as [|x l IH]; simpl; [constructor|]. intros [Hs Hx]%Sorted_inv.
  constructor; [by apply IH|]. destruct l; simpl in *; constructor. by apply HdRel_inv in Hx.
Qed.

(** * Strings *)

(** [strings.HasPrefix(s, p)]. *)
Definition HasPrefix (s p : string) : bool := String.prefix p s.

(** [strings.HasSuffix]. *)
Definition HasSuffix (s suf : string) : bool :=
  HasPrefix (String.rev s) (String.rev suf).

(** [strings.Contains]. *)
Fixpoint Contains (s sub : string) : bool :=
  HasPrefix s sub || match s with EmptyString => false | String _ s' => Contains s' sub end.

(** [strings.Cut(s, sep)] for a one-byte separator: the text before the first
    separator and the text after it, or [None] when there is none. *)
Fixpoint Cut (s : string) (sep : ascii) : option (string * string) :=
  match s with
  | EmptyString => None
  | String c s' =>
      if Ascii.eqb c sep then Some (EmptyString, s')
      else match Cut s' sep with
           | Some (before, after) => Some (String c before, after)
           | None => None
           end
  end.

(** [strings.TrimSpace] on ASCII white space. *)
Definition is_space (c : ascii) : bool :=
  let n := nat_of_ascii c in
  bool_decide (n = 9 ∨ n = 10 ∨ n = 11 ∨ n = 12 ∨ n = 13 ∨ n = 32)%nat.

Fixpoint trim_left (s : string) : string :=
  match s with
  | String c s' => if is_space c then trim_left s' else s
  | EmptyString => EmptyString
  end.

Fixpoint trim_right (s : string) : string :=
  match s with
  | EmptyString => EmptyString
  | String c s' =>
      match trim_right s' with
      | EmptyString => if is_space c then EmptyString else String c EmptyString
      | t => String c t
      end
  end.

Definition TrimSpace (s : string) : string := trim_right (trim_left s).

(** * Automation *)

Create HintDb afs discriminated.

(** Turn the boolean tests of the code into propositions. *)
Ltac bools :=
  repeat match goal with
  | H : (_ && _) = true |- _ => apply andb_true_iff in H; destruct H
  | H : (_ && _) = false |- _ => apply andb_false_iff in H
  | H : (_ || _) = true |- _ => apply orb_true_iff in H
  | H : (_ || _) = false |- _ => apply orb_false_iff in H; destruct H
  | H : negb _ = true |- _ => apply negb_true_iff in H
  | H : negb _ = false |- _ => apply negb_false_iff in H
  | H : bool_decide _ = true |- _ => apply bool_decide_eq_true in H
  | H : bool_decide _ = false |- _ => apply bool_decide_eq_false in H
  end.

(** Case analysis on the tests of the goal, with [lia] for the arithmetic. *)
Ltac cases := repeat (case_match; bools; simplify_eq/=); try done; try lia.
