(* ===== verification/Locks.v ===== *)
(** Advisory byte-range locks (mount/internal/client/native_locks.go).

    [FileLock] is an inclusive range of 64-bit byte offsets.  An owner's locks
    are kept as a normalised list; [applyFileLock] carves the requested range
    out of the owner's current locks and merges it back, [trySetLock] is the
    transaction that grants a request against the table of all owners, and
    [Getlk], [Setlk], [UnlockAll] are the operations of the client.  The
    byte-level meaning of a lock list is [holds]; the theorems give the effect
    of every operation on it and the mutual exclusion of the table. *)
From S2P Require Import Prelude.

(** Linux values of the [syscall] constants; the proofs use only that they
    differ. *)
Definition F_RDLCK : Z := 0.
Definition F_WRLCK : Z := 1.
Definition F_UNLCK : Z := 2.

Record FileLock := mkFileLock {
  lStart : Z;
  lEnd : Z;
  lType : Z;
  lPID : Z
}.

#[export] Instance FileLock_eq_dec : EqDecision FileLock.
Proof. solve_decision. Defined.

Inductive lockError :=
| ErrInvalidLock
| ErrInvalidLockType
| ErrInvalidLockRange
| ErrEmptyLockOwner
| ErrLockWouldBlock
| ErrLockNotFound
| ErrLockNotFile
| ErrLockDecode
| ErrLockGuard
| ErrLockCancelled.

#[export] Instance lockError_eq_dec : EqDecision lockError.
Proof. solve_decision. Defined.

(** * Ranges *)

Definition validateFileLock (lk : option FileLock) : result lockError FileLock :=
  match lk with
  | None => Err ErrInvalidLock
  | Some lk =>
      if (lType lk =? F_RDLCK) || (lType lk =? F_WRLCK) || (lType lk =? F_UNLCK) then
        if lEnd lk <? lStart lk then Err ErrInvalidLockRange else Ok lk
      else Err ErrInvalidLockType
  end.

Definition lockRangesOverlap (a b : FileLock) : bool :=
  (lStart a <=? lEnd b) && (lStart b <=? lEnd a).

Definition locksConflict (existing requested : FileLock) : bool :=
  if (lType existing =? F_UNLCK) || (lType requested =? F_UNLCK) then false
  else if negb (lockRangesOverlap existing requested) then false
  else (lType existing =? F_WRLCK) || (lType requested =? F_WRLCK).

Definition nextLockStart (e : Z) : Z :=
  if e =? max_uint64 then e else u64 (e + 1).

(** The comparison function of [normalizeFileLocks]. *)
Definition lock_less (a b : FileLock) : bool :=
  if lStart a =? lStart b then lEnd a <? lEnd b else lStart a <? lStart b.

#[export] Instance lock_less_weak : StrictWeak lock_less.
Proof. split; unfold lock_less; intros; repeat case_match; bools; lia. Qed.

(** One iteration of the merging loop.  [out] is kept most recent first, so
    its head is the code's [&out[len(out)-1]]. *)
Definition normalize_step (out : list FileLock) (lock : FileLock) : list FileLock :=
  if lType lock =? F_UNLCK then out
  else match out with
  | [] => [lock]
  | last :: rest =>
      if (lType last =? lType lock) && (lStart lock <=? nextLockStart (lEnd last)) then
        mkFileLock (lStart last)
          (if lEnd last <? lEnd lock then lEnd lock else lEnd last)
          (lType last)
          (if negb (lPID lock =? 0) then lPID lock else lPID last) :: rest
      else lock :: out
  end.

Section Algebra.
Context `{!SliceSort lock_less}.

Definition normalizeFileLocks (locks : list FileLock) : list FileLock :=
  match locks with
  | [] => []
  | _ => rev (foldl normalize_step [] (sort_slice locks))
  end.

(** The body of the loop of [applyFileLock]: what is left of [current]. *)
Definition carve (requested current : FileLock) : list FileLock :=
  if negb (lockRangesOverlap current requested) then [current]
  else
    (if lStart current <? lStart requested
     then [mkFileLock (lStart current) (u64 (lStart requested - 1)) (lType current) (lPID current)]
     else []) ++
    (if lEnd requested <? lEnd current
     then [mkFileLock (u64 (lEnd requested + 1)) (lEnd current) (lType current) (lPID current)]
     else []).

Definition applyFileLock (existing : list FileLock) (requested : FileLock) : list FileLock :=
  normalizeFileLocks
    ((existing ≫= carve requested) ++
     (if negb (lType requested =? F_UNLCK) then [requested] else [])).

(** * Meaning of a lock list *)

Definition covers (l : FileLock) (b : Z) : Prop := lStart l ≤ b ≤ lEnd l.

(** [holds ls t b]: some lock of type [t] in [ls] covers byte [b]. *)
Definition holds (ls : list FileLock) (t b : Z) : Prop :=
  ∃ l, l ∈ ls ∧ lType l = t ∧ covers l b.

(** What [validateFileLock] and the 64-bit fields guarantee of a lock. *)
Definition wf_lock (l : FileLock) : Prop :=
  0 ≤ lStart l ∧ lStart l ≤ lEnd l ∧ lEnd l ≤ max_uint64 ∧
  (lType l = F_RDLCK ∨ lType l = F_WRLCK ∨ lType l = F_UNLCK).

(** A normalised list: strictly ordered and disjoint, no unlock entry, and no
    two neighbours of one type that could still be merged. *)
Definition gap (a b : FileLock) : Prop :=
  lEnd a < lStart b ∧ (lType a = lType b → lEnd a + 1 < lStart b).

Definition normal (ls : list FileLock) : Prop :=
  Forall wf_lock ls ∧ Forall (λ l, lType l ≠ F_UNLCK) ls ∧ Sorted gap ls.

(** One byte is held with at most one type. *)
Definition exclusive (ls : list FileLock) : Prop :=
  ∀ t t' b, holds ls t b → holds ls t' b → t = t'.

(** ** The meaning is a function of the set of locks *)

#[export] Instance holds_proper : Proper ((≡ₚ) ==> (=) ==> (=) ==> iff) holds.
Proof.
  intros l l' H t ? <- b ? <-. unfold holds. by setoid_rewrite H.
Qed.

Lemma holds_nil t b : ¬ holds [] t b.
Proof. intros (l & Hl & _). by apply not_elem_of_nil in Hl. Qed.

Lemma holds_app l1 l2 t b : holds (l1 ++ l2) t b ↔ holds l1 t b ∨ holds l2 t b.
Proof. unfold holds. setoid_rewrite elem_of_app. naive_solver. Qed.

Lemma holds_cons x l t b :
  holds (x :: l) t b ↔ (lType x = t ∧ covers x b) ∨ holds l t b.
Proof. unfold holds. setoid_rewrite elem_of_cons. naive_solver. Qed.

Lemma holds_singleton x t b : holds [x] t b ↔ lType x = t ∧ covers x b.
Proof. rewrite holds_cons. pose proof (holds_nil t b). tauto. Qed.

Lemma nextLockStart_wf l : wf_lock l →
  nextLockStart (lEnd l) = Z.min (lEnd l + 1) max_uint64.
Proof.
  intros (? & ? & ? & _). unfold nextLockStart. case_match; [lia|].
  rewrite u64_small by lia. lia.
Qed.

(** ** The merging loop *)

Definition starts_after (out : list FileLock) (l : FileLock) : Prop :=
  ∀ last rest, out = last :: rest → lStart last ≤ lStart l.

Lemma normalize_step_wf out l :
  Forall wf_lock out → wf_lock l → Forall wf_lock (normalize_step out l).
Proof.
  unfold normalize_step. intros Hout Hl. case_match; [done|].
  destruct out as [|last rest]; [by constructor|].
  apply Forall_cons in Hout as [Hlast Hrest].
  case_match; rewrite ?Forall_cons; [split; [|done]|done].
  destruct Hl as (? & ? & ? & ?), Hlast as (? & ? & ? & ?).
  unfold wf_lock; simpl. split_and!; auto; case_match; lia.
Qed.

Lemma normalize_step_after out l l' :
  starts_after out l' → lStart l ≤ lStart l' → starts_after (normalize_step out l) l'.
Proof.
  unfold normalize_step, starts_after. intros Hout Hl last rest.
  repeat case_match; intros; simplify_eq/=; eauto.
Qed.

Lemma normalize_step_holds out l t b :
  Forall wf_lock out → wf_lock l → starts_after out l →
  holds (normalize_step out l) t b ↔
    holds out t b ∨ (t ≠ F_UNLCK ∧ lType l = t ∧ covers l b).
Proof.
  intros Hout Hl Haft. unfold normalize_step. destruct (lType l =? F_UNLCK) eqn:Eu.
  { split; [by left|]. intros [?|(? & ? & ?)]; [done|lia]. }
  destruct out as [|last rest].
  { rewrite holds_singleton. pose proof (holds_nil t b). naive_solver lia. }
  apply Forall_cons in Hout as [Hlast Hrest]. specialize (Haft _ _ eq_refl).
  case_match eqn:Em; rewrite !holds_cons; bools; [|naive_solver lia].
  rewrite nextLockStart_wf in * by done. unfold covers; simpl.
  destruct Hl as (? & ? & ? & ?). destruct Hlast as (? & ? & ? & ?).
  split.
  - intros [[Ht Hb]|Hr]; [|tauto].
    destruct (decide (b ≤ lEnd last)); [left; left; lia|].
    right. split_and!; repeat case_match; lia.
  - intros [[[Ht Hb]|Hr]|(Hu & Ht & Hb)]; [|tauto|]; left; split; repeat case_match; lia.
Qed.

Lemma normalize_step_gap out l :
  Forall wf_lock out → wf_lock l → starts_after out l →
  exclusive (l :: out) →
  Sorted (flip gap) out → Sorted (flip gap) (normalize_step out l).
Proof.
  intros Hout Hl Haft Hex Hs. unfold normalize_step. case_match; [done|].
  destruct out as [|last rest]; [by repeat constructor|].
  apply Forall_cons in Hout as [Hlast Hrest]. specialize (Haft _ _ eq_refl).
  pose proof (nextLockStart_wf last Hlast) as Hnext. rewrite Hnext.
  destruct Hl as (? & ? & ? & _), Hlast as (? & ? & ? & _).
  apply Sorted_inv in Hs as [Hs Hhd].
  destruct (_ && _) eqn:Em; bools.
  - constructor; [done|]. destruct Hhd as [|c rest' [Hc1 Hc2]]; constructor.
    split; simpl in *; lia.
  - assert (lStart l ≤ lEnd last → lType l = lType last) as Hov.
    { intros. apply (Hex _ _ (lStart l)); rewrite !holds_cons; unfold covers;
        [left|right; left]; split; lia. }
    repeat constructor; auto; lia.
Qed.

Lemma lock_less_start x y : lock_less y x = false → lStart x ≤ lStart y.
Proof. unfold lock_less. case_match; lia. Qed.

(** What the whole loop keeps: well-formedness, the meaning and the gaps. *)
Lemma normalize_loop_holds rs out :
  StronglySorted (λ x y, lock_less y x = false) rs →
  Forall wf_lock rs → Forall wf_lock out → (∀ l, l ∈ rs → starts_after out l) →
  Forall wf_lock (foldl normalize_step out rs) ∧
  ∀ t b, holds (foldl normalize_step out rs) t b ↔
           holds out t b ∨ (t ≠ F_UNLCK ∧ holds rs t b).
Proof.
  revert out. induction rs as [|l rs IH]; intros out Hs Hrs Hout Haft; simpl.
  { split; auto. intros. pose proof (holds_nil t b). tauto. }
  apply StronglySorted_inv in Hs as [Hs Hl]. apply Forall_cons in Hrs as [Hwl Hrs].
  assert (starts_after out l) as Hal by (apply Haft, list_elem_of_here).
  destruct (IH (normalize_step out l)) as (IH1 & IH2); auto using normalize_step_wf.
  { intros l' Hl'. apply normalize_step_after; [by apply Haft, list_elem_of_further|].
    rewrite Forall_forall in Hl. by apply lock_less_start, Hl. }
  split; [done|]. intros t b. rewrite IH2, normalize_step_holds, holds_cons by done. tauto.
Qed.

Lemma normalize_loop_gap rs out :
  StronglySorted (λ x y, lock_less y x = false) rs →
  Forall wf_lock rs → Forall wf_lock out → (∀ l, l ∈ rs → starts_after out l) →
  exclusive (rs ++ out) →
  Sorted (flip gap) out → Sorted (flip gap) (foldl normalize_step out rs).
Proof.
  revert out. induction rs as [|l rs IH]; intros out Hs Hrs Hout Haft Hex Hgap; simpl; [done|].
  apply StronglySorted_inv in Hs as [Hs Hl]. apply Forall_cons in Hrs as [Hwl Hrs].
  assert (starts_after out l) as Hal by (apply Haft, list_elem_of_here).
  apply IH; auto using normalize_step_wf.
  - intros l' Hl'. apply normalize_step_after; [by apply Haft, list_elem_of_further|].
    rewrite Forall_forall in Hl. by apply lock_less_start, Hl.
  - intros t t' b. rewrite !holds_app, !normalize_step_holds by done.
    intros H1 H2. apply (Hex t t' b); simpl; rewrite holds_cons, holds_app; tauto.
  - apply normalize_step_gap; auto. intros t t' b. rewrite !holds_cons.
    intros H1 H2. apply (Hex t t' b); simpl; rewrite holds_cons, holds_app; tauto.
Qed.

Lemma normalize_step_types out l :
  Forall (λ l, lType l ≠ F_UNLCK) out →
  Forall (λ l, lType l ≠ F_UNLCK) (normalize_step out l).
Proof.
  unfold normalize_step. intros Hout. case_match; [done|].
  destruct out as [|last rest]; [repeat constructor; lia|].
  apply Forall_cons in Hout as [? ?]. case_match; repeat constructor; auto; lia.
Qed.

Lemma normalize_loop_types rs out :
  Forall (λ l, lType l ≠ F_UNLCK) out →
  Forall (λ l, lType l ≠ F_UNLCK) (foldl normalize_step out rs).
Proof. revert out. induction rs; intros; simpl; auto using normalize_step_types. Qed.

(** ** [normalizeFileLocks] *)

Lemma normalizeFileLocks_unfold ls :
  normalizeFileLocks ls = rev (foldl normalize_step [] (sort_slice ls)).
Proof.
  destruct ls as [|l ls]; [|done]. simpl.
  by rewrite (proj1 (Permutation_nil_r _) (sort_slice_perm [])).
Qed.

Lemma sorted_input_ok ls :
  Forall wf_lock ls →
  StronglySorted (λ x y, lock_less y x = false) (sort_slice ls) ∧
  Forall wf_lock (sort_slice ls) ∧
  ∀ l, l ∈ sort_slice ls → starts_after [] l.
Proof.
  intros Hwf. split_and!; [apply sort_slice_sorted|by rewrite sort_slice_perm|].
  intros l _ last rest. discriminate.
Qed.

Lemma normalizeFileLocks_holds ls t b :
  Forall wf_lock ls →
  holds (normalizeFileLocks ls) t b ↔ t ≠ F_UNLCK ∧ holds ls t b.
Proof.
  intros Hwf. destruct (sorted_input_ok ls Hwf) as (H1 & H2 & H3).
  rewrite normalizeFileLocks_unfold.
  destruct (normalize_loop_holds _ [] H1 H2 (Forall_nil_2 _) H3) as [_ Hh].
  rewrite <- (Permutation_rev (foldl _ _ _)), Hh, sort_slice_perm.
  pose proof (holds_nil t b). tauto.
Qed.

Lemma normalizeFileLocks_normal ls :
  Forall wf_lock ls → exclusive ls → normal (normalizeFileLocks ls).
Proof.
  intros Hwf Hex. destruct (sorted_input_ok ls Hwf) as (H1 & H2 & H3).
  rewrite normalizeFileLocks_unfold. split_and!.
  - apply Forall_rev. by apply normalize_loop_holds.
  - apply Forall_rev. by apply normalize_loop_types.
  - apply Sorted_rev, normalize_loop_gap; auto.
    intros t t' b. rewrite app_nil_r, !sort_slice_perm. apply Hex.
Qed.

Lemma normalizeFileLocks_wf ls :
  Forall wf_lock ls → Forall wf_lock (normalizeFileLocks ls).
Proof.
  intros Hwf. destruct (sorted_input_ok ls Hwf) as (H1 & H2 & H3).
  rewrite normalizeFileLocks_unfold. apply Forall_rev. by apply normalize_loop_holds.
Qed.

(** ** [applyFileLock] *)

Lemma carve_wf req cur : wf_lock req → wf_lock cur → Forall wf_lock (carve req cur).
Proof.
  intros (? & ? & ? & _) (? & ? & ? & Ht). unfold carve, lockRangesOverlap, wf_lock.
  repeat case_match; bools; simpl; repeat apply Forall_cons_2; try apply Forall_nil_2; simpl;
    rewrite ?u64_small by lia; split_and!; auto; lia.
Qed.

Lemma carve_holds req cur t b :
  wf_lock req → wf_lock cur →
  holds (carve req cur) t b ↔ lType cur = t ∧ covers cur b ∧ ¬ covers req b.
Proof.
  intros (? & ? & ? & _) (? & ? & ? & _). unfold carve, lockRangesOverlap, covers.
  destruct (_ && _) eqn:E; simpl; bools.
  - rewrite holds_app. do 2 case_match; rewrite ?holds_singleton; unfold covers; simpl;
      rewrite ?u64_small by lia; pose proof (holds_nil t b); naive_solver lia.
  - rewrite holds_singleton. unfold covers. naive_solver lia.
Qed.

Lemma carve_all_holds req ls t b :
  wf_lock req → Forall wf_lock ls →
  holds (ls ≫= carve req) t b ↔ holds ls t b ∧ ¬ covers req b.
Proof.
  intros Hreq. induction 1 as [|l ls Hl _ IH]; csimpl.
  - pose proof (holds_nil t b). tauto.
  - rewrite holds_app, IH, holds_cons, carve_holds by done. tauto.
Qed.

Lemma apply_input_wf existing req :
  Forall wf_lock existing → wf_lock req →
  Forall wf_lock ((existing ≫= carve req) ++ (if negb (lType req =? F_UNLCK) then [req] else [])).
Proof.
  intros Hex Hreq. apply Forall_app. split; [|case_match; rewrite ?Forall_singleton; [done|apply Forall_nil_2]].
  induction Hex as [|l ls Hl _ IH]; csimpl; [constructor|].
  apply Forall_app; split; [by apply carve_wf|done].
Qed.

Lemma apply_input_holds existing req t b :
  Forall wf_lock existing → wf_lock req →
  holds ((existing ≫= carve req) ++ (if negb (lType req =? F_UNLCK) then [req] else [])) t b ↔
  (holds existing t b ∧ ¬ covers req b) ∨ (t ≠ F_UNLCK ∧ lType req = t ∧ covers req b).
Proof.
  intros Hex Hreq. rewrite holds_app, carve_all_holds by done.
  case_match; bools; rewrite ?holds_singleton; pose proof (holds_nil t b); naive_solver lia.
Qed.

(** The effect of [applyFileLock] on every byte and type: inside the requested
    range the owner holds exactly the requested type (nothing for an unlock),
    outside it exactly what it held before. *)
Lemma applyFileLock_holds existing req t b :
  Forall wf_lock existing → wf_lock req → t ≠ F_UNLCK →
  holds (applyFileLock existing req) t b ↔
    if decide (covers req b) then lType req = t else holds existing t b.
Proof.
  intros Hex Hreq Ht. unfold applyFileLock.
  rewrite normalizeFileLocks_holds, apply_input_holds by auto using apply_input_wf.
  case_decide; naive_solver.
Qed.

Lemma applyFileLock_wf existing req :
  Forall wf_lock existing → wf_lock req → Forall wf_lock (applyFileLock existing req).
Proof. intros. by apply normalizeFileLocks_wf, apply_input_wf. Qed.

(** [applyFileLock] keeps an owner's list in normal form. *)
Lemma gap_strong ls :
  Forall wf_lock ls → Sorted gap ls → StronglySorted (λ a b, lEnd a < lStart b) ls.
Proof.
  induction ls as [|x ls IH]; intros Hwf Hs; [constructor|].
  apply Forall_cons in Hwf as [_ Hwf]. apply Sorted_inv in Hs as [Hs Hx].
  specialize (IH Hwf Hs). constructor; [done|].
  destruct ls as [|y ls]; [constructor|].
  apply HdRel_inv in Hx as [Hxy _]. apply Forall_cons in Hwf as [(_ & Hy & _) _].
  apply StronglySorted_inv in IH as [_ IH]. constructor; [done|].
  eapply Forall_impl; [exact IH|]. intros z Hz. simpl in *. lia.
Qed.

Lemma normal_exclusive ls : normal ls → exclusive ls.
Proof.
  intros (Hwf & _ & Hs). apply gap_strong in Hs; [|done]. clear Hwf.
  induction Hs as [|x ls Hs IH Hx]; intros t t' b; [intros []%holds_nil|].
  assert (∀ t, covers x b → ¬ holds ls t b) as Hno.
  { intros t0 Hb (l & Hl & _ & Hb'). rewrite Forall_forall in Hx.
    specialize (Hx l Hl). unfold covers in *. lia. }
  rewrite !holds_cons. intros [[<- Hb]|H1] [[<- Hb']|H2]; naive_solver.
Qed.

Lemma applyFileLock_normal existing req :
  normal existing → wf_lock req → normal (applyFileLock existing req).
Proof.
  intros Hn Hreq. pose proof (normal_exclusive _ Hn) as Hex. destruct Hn as (Hwf & _ & _).
  apply normalizeFileLocks_normal; [by apply apply_input_wf|].
  intros t t' b. rewrite !apply_input_holds by done.
  intros [[H1 ?]|(_ & H1 & ?)] [[H2 ?]|(_ & H2 & ?)]; try done; [|congruence].
  by apply (Hex t t' b).
Qed.

(** Normalising a normal list changes nothing, so the list that
    [encodeFileLocks] stores is the list [decodeLockState] reads back. *)
Lemma normal_sorted ls : normal ls → StronglySorted (λ x y, lock_less y x = false) ls.
Proof.
  intros (Hwf & _ & Hs). apply gap_strong in Hs; [|done].
  induction Hs as [|x ls Hs IH Hx]; [constructor|].
  apply Forall_cons in Hwf as [(_ & Hw & _) Hwf]. constructor; [by apply IH|].
  eapply Forall_impl; [exact Hx|]. unfold lock_less. intros y Hy. case_match; lia.
Qed.

Lemma normal_sort_slice ls : normal ls → sort_slice ls = ls.
Proof.
  intros Hn. pose proof (sort_slice_perm ls) as Hp.
  eapply (StronglySorted_unique_strong (λ x y, lock_less y x = false)); [|..|exact Hp];
    [|apply sort_slice_sorted|by apply normal_sorted].
  intros x y Hx Hy Hxy Hyx. rewrite Hp in Hx. destruct Hn as (Hwf & _ & Hs).
  apply gap_strong in Hs; [|done]. clear Hp.
  induction Hs as [|z ls Hs IH Hz]; [by apply not_elem_of_nil in Hx|].
  apply Forall_cons in Hwf as [(_ & Hw & _) Hwf]. rewrite Forall_forall in Hz.
  apply lock_less_start in Hxy, Hyx.
  apply elem_of_cons in Hx as [->|Hx], Hy as [->|Hy]; auto;
    [specialize (Hz _ Hy)|specialize (Hz _ Hx)]; lia.
Qed.

Lemma normalize_step_normal out l :
  Forall wf_lock out → lType l ≠ F_UNLCK → Sorted gap (rev out ++ [l]) →
  normalize_step out l = l :: out.
Proof.
  intros Hwf Hl Hs. unfold normalize_step. case_match; [lia|].
  destruct out as [|last rest]; [done|].
  apply Forall_cons in Hwf as [Hlast _]. rewrite nextLockStart_wf by done.
  simpl in Hs. rewrite <- app_assoc in Hs. simpl in Hs.
  assert (gap last l) as [Hg1 Hg2].
  { clear -Hs. induction (rev rest) as [|x k IHk]; simpl in Hs;
      apply Sorted_inv in Hs as [Hs Hx]; auto. by apply HdRel_inv in Hx. }
  case_match; [bools; lia|done].
Qed.

Lemma normalize_loop_normal rs out :
  Forall wf_lock out → Forall wf_lock rs → Forall (λ l, lType l ≠ F_UNLCK) rs →
  Sorted gap (rev out ++ rs) → foldl normalize_step out rs = rev rs ++ out.
Proof.
  revert out. induction rs as [|l rs IH]; intros out Hwf Hwr Ht Hs; simpl; [done|].
  apply Forall_cons in Ht as [Hl Ht], Hwr as [Hwl Hwr].
  rewrite (cons_middle l) in Hs. 
  rewrite normalize_step_normal, <- app_assoc;
    [|done..|by eapply (Sorted_app_inv_l _ _ rs); rewrite <- app_assoc].
  apply IH; [by constructor|done..|]. simpl. by rewrite <- app_assoc.
Qed.

Lemma normalizeFileLocks_id ls : normal ls → normalizeFileLocks ls = ls.
Proof.
  intros Hn. rewrite normalizeFileLocks_unfold, normal_sort_slice by done.
  destruct Hn as (? & ? & ?). rewrite normalize_loop_normal by done.
  by rewrite app_nil_r, rev_involutive.
Qed.

End Algebra.

(** * The lock table *)

Section Table.
Context `{!SliceSort lock_less}.

(** The value of one field of the lock hash: the JSON array written by
    [encodeFileLocks], or bytes [json.Unmarshal] rejects. *)
Inductive rawLocks :=
| RawLocks (stored : list FileLock)
| RawCorrupt.

#[export] Instance rawLocks_eq_dec : EqDecision rawLocks.
Proof. solve_decision. Defined.

(** What the lock operations read and write in Redis: the [type] field of
    each inode, the lock hash of each inode, and the live session leases. *)
Record LockDB := mkLockDB {
  inodeKind : gmap Z string;
  lockHash : gmap Z (gmap string rawLocks);
  leases : gset string
}.

Definition locks_of (db : LockDB) (inode : Z) : gmap string rawLocks :=
  default ∅ (lockHash db !! inode).

Definition set_locks (db : LockDB) (inode : Z) (h : gmap string rawLocks) : LockDB :=
  mkLockDB (inodeKind db) (<[inode := h]> (lockHash db)) (leases db).

Definition decode_one (v : rawLocks) : list FileLock :=
  match v with RawLocks stored => normalizeFileLocks stored | RawCorrupt => [] end.

Definition decodeLockState (values : gmap string rawLocks) :
    result lockError (gmap string (list FileLock)) :=
  if bool_decide (map_Forall (λ _ v, v ≠ RawCorrupt) values)
  then Ok (decode_one <$> values) else Err ErrLockDecode.

Definition encodeFileLocks (locks : list FileLock) : rawLocks :=
  RawLocks (normalizeFileLocks locks).

(** An owner created by a native session is [lease|handle]; it is stale when
    the lease key is gone. [sessionPrefix] is [c.keys.session("")]. *)
Definition staleOwner (sessionPrefix : string) (live : gset string) (owner : string) : bool :=
  match Cut owner "|"%char with
  | Some (lease, _) => HasPrefix lease sessionPrefix && negb (bool_decide (lease ∈ live))
  | None => false
  end.

Definition pruneExpiredLocks (sessionPrefix : string) (live : gset string)
    (state : gmap string (list FileLock)) : list string * gmap string (list FileLock) :=
  (filter (λ o, staleOwner sessionPrefix live o = true) (map_to_list state).*1,
   filter (λ kv, staleOwner sessionPrefix live kv.1 = false) state).

Definition loadLockState (sessionPrefix : string) (db : LockDB) (inode : Z) :
    result lockError (gmap string (list FileLock)) :=
  result_bind (decodeLockState (locks_of db inode))
    (λ state, Ok (pruneExpiredLocks sessionPrefix (leases db) state).2).

(** The conflict loop: the locks of every other owner. *)
Definition others (state : gmap string (list FileLock)) (handleID : string) : list FileLock :=
  (map_to_list state) ≫= (λ kv, if bool_decide (kv.1 = handleID) then [] else kv.2).

Definition hasConflict (state : gmap string (list FileLock)) (handleID : string)
    (lk : FileLock) : bool :=
  existsb (λ existing, locksConflict existing lk) (others state handleID).

(** The transaction of [trySetLock]. [guard] is what the [retryWatch] wrapper
    found when it checked lease, generation and parents; a transaction that
    EXEC accepted saw the watched lock hash and inode unchanged, so its reads
    and its writes are one atomic step on [db]. *)
Definition trySetLock (sessionPrefix : string) (guard : option lockError) (db : LockDB)
    (inode : Z) (handleID : string) (lk : FileLock) : LockDB * result lockError () :=
  if bool_decide (handleID = EmptyString) then (db, Err ErrEmptyLockOwner)
  else match guard with
  | Some e => (db, Err e)
  | None =>
    match inodeKind db !! inode with
    | None => (db, Err ErrLockNotFound)
    | Some kind =>
      if negb (bool_decide (kind = "file"%string)) then (db, Err ErrLockNotFile)
      else match decodeLockState (locks_of db inode) with
      | Err e => (db, Err e)
      | Ok state0 =>
        let (stale, state) := pruneExpiredLocks sessionPrefix (leases db) state0 in
        let current := default [] (state !! handleID) in
        if negb (lType lk =? F_UNLCK) && hasConflict state handleID lk
        then (db, Err ErrLockWouldBlock)
        else
          let nextLocks := applyFileLock current lk in
          let h := foldr delete (locks_of db inode) stale in
          let h := match nextLocks with
                   | [] => delete handleID h
                   | _ => <[handleID := encodeFileLocks nextLocks]> h
                   end in
          (set_locks db inode h, Ok ())
      end
    end
  end.

(** [Setlk] validates, then makes one attempt, or with [wait] repeats it every
    50 ms until it is granted or the context is done.  [sched] is what the
    other clients do between two attempts; the context ends when it is empty. *)
Fixpoint Setlk_wait (sessionPrefix : string) (guard : option lockError)
    (sched : list (LockDB → LockDB)) (db : LockDB) (inode : Z) (handleID : string)
    (lk : FileLock) : LockDB * result lockError () :=
  match trySetLock sessionPrefix guard db inode handleID lk with
  | (db', Err ErrLockWouldBlock) =>
      match sched with
      | [] => (db', Err ErrLockCancelled)
      | step :: sched' => Setlk_wait sessionPrefix guard sched' (step db') inode handleID lk
      end
  | r => r
  end.

Definition Setlk (sessionPrefix : string) (guard : option lockError)
    (sched : list (LockDB → LockDB)) (db : LockDB) (inode : Z) (handleID : string)
    (lk : option FileLock) (wait : bool) : LockDB * result lockError () :=
  match validateFileLock lk with
  | Err e => (db, Err e)
  | Ok lk =>
      if negb wait then trySetLock sessionPrefix guard db inode handleID lk
      else Setlk_wait sessionPrefix guard sched db inode handleID lk
  end.

Definition UnlockAll (guard : option lockError) (db : LockDB) (inode : Z) (handleID : string) :
    LockDB * result lockError () :=
  match guard with
  | Some e => (db, Err e)
  | None => (set_locks db inode (delete handleID (locks_of db inode)), Ok ())
  end.

(** The running minimum of [Getlk]'s loop. *)
Definition better (lk : FileLock) (conflict : option FileLock) (existing : FileLock) :
    option FileLock :=
  if negb (locksConflict existing lk) then conflict
  else match conflict with
  | None => Some existing
  | Some c =>
      if (lStart existing <? lStart c) ||
         ((lStart existing =? lStart c) && (lEnd existing <? lEnd c))
      then Some existing else conflict
  end.

(** [guard] is the error of [checkGeneration], if any.  The order in which Go
    visits the owners is unspecified; [map_to_list] fixes one, and the theorems
    about the result do not depend on it. *)
Definition Getlk (sessionPrefix : string) (guard : option lockError) (db : LockDB)
    (inode : Z) (handleID : string) (lk : option FileLock) : result lockError FileLock :=
  match guard with
  | Some e => Err e
  | None =>
    match validateFileLock lk with
    | Err e => Err e
    | Ok lk =>
      match loadLockState sessionPrefix db inode with
      | Err e => Err e
      | Ok state =>
        match foldl (better lk) None (others state handleID) with
        | None => Ok (mkFileLock 0 0 F_UNLCK 0)
        | Some c => Ok c
        end
      end
    end
  end.

(** ** Invariant of one inode's lock hash *)

Definition owner_holds (h : gmap string rawLocks) (o : string) (t b : Z) : Prop :=
  ∃ ls, h !! o = Some (RawLocks ls) ∧ holds ls t b.

Definition table_wf (h : gmap string rawLocks) : Prop :=
  ∀ o v, h !! o = Some v → ∃ ls, v = RawLocks ls ∧ normal ls.

(** Mutual exclusion: two owners hold one byte only if both hold it for
    reading. *)
Definition table_excl (h : gmap string rawLocks) : Prop :=
  ∀ o1 o2 t1 t2 b, o1 ≠ o2 → owner_holds h o1 t1 b → owner_holds h o2 t2 b →
    t1 = F_RDLCK ∧ t2 = F_RDLCK.

Definition table_inv (h : gmap string rawLocks) : Prop := table_wf h ∧ table_excl h.

Lemma table_wf_decode h :
  table_wf h → decodeLockState h = Ok (decode_one <$> h).
Proof.
  intros Hwf. unfold decodeLockState. rewrite bool_decide_eq_true_2; [done|].
  intros o v Hv. by destruct (Hwf o v Hv) as (ls & -> & _).
Qed.

Lemma table_wf_lookup h o ls :
  table_wf h → (decode_one <$> h) !! o = Some ls ↔ h !! o = Some (RawLocks ls).
Proof.
  intros Hwf. rewrite lookup_fmap_Some. split.
  - intros (v & <- & Hv). destruct (Hwf o v Hv) as (ls & -> & Hn). simpl.
    by rewrite normalizeFileLocks_id.
  - intros Hv. exists (RawLocks ls). split; [|done].
    destruct (Hwf _ _ Hv) as (? & ? & Hn). simplify_eq. by apply normalizeFileLocks_id.
Qed.

Lemma prune_lookup sp live state o :
  (pruneExpiredLocks sp live state).2 !! o =
    if staleOwner sp live o then None else state !! o.
Proof.
  simpl. apply option_eq. intros ls. rewrite map_lookup_filter_Some. simpl.
  destruct (staleOwner sp live o); naive_solver.
Qed.

Lemma prune_stale sp live state o :
  o ∈ (pruneExpiredLocks sp live state).1 ↔
    is_Some (state !! o) ∧ staleOwner sp live o = true.
Proof.
  simpl. rewrite list_elem_of_filter, list_elem_of_fmap. split.
  - intros [Hs ([o' ls] & -> & Hin%elem_of_map_to_list)]. eauto.
  - intros [[ls Hls] Hs]. split; [done|]. exists (o, ls). split; [done|].
    by apply elem_of_map_to_list.
Qed.

Lemma elem_of_others state handle e :
  e ∈ others state handle ↔ ∃ o ls, o ≠ handle ∧ state !! o = Some ls ∧ e ∈ ls.
Proof.
  unfold others. rewrite list_elem_of_bind. split.
  - intros ([o ls] & Hin & Hmem%elem_of_map_to_list). simpl in *.
    case_bool_decide; [by apply not_elem_of_nil in Hin|eauto].
  - intros (o & ls & Hne & Hls & Hin). exists (o, ls). simpl.
    rewrite bool_decide_eq_false_2 by done. split; [done|by apply elem_of_map_to_list].
Qed.

Lemma hasConflict_false state handle lk :
  hasConflict state handle lk = false ↔
  ∀ o ls e, o ≠ handle → state !! o = Some ls → e ∈ ls → locksConflict e lk = false.
Proof.
  unfold hasConflict. rewrite <- not_true_iff_false, existsb_exists. split.
  - intros Hno o ls e Hne Hls He. apply not_true_iff_false. intros Hc. apply Hno.
    exists e. rewrite <- list_elem_of_In, elem_of_others. eauto 6.
  - intros Hall (e & He & Hc). apply list_elem_of_In, elem_of_others in He
      as (o & ls & ? & ? & ?). by rewrite (Hall o ls e) in Hc.
Qed.

(** Two locks that do not conflict share a byte only as readers. *)
Lemma no_conflict_bytes e lk b :
  wf_lock e → wf_lock lk → lType e ≠ F_UNLCK → lType lk ≠ F_UNLCK →
  locksConflict e lk = false → covers e b → covers lk b →
  lType e = F_RDLCK ∧ lType lk = F_RDLCK.
Proof.
  intros (_ & _ & _ & He) (_ & _ & _ & Hl) Hue Hul. unfold locksConflict, lockRangesOverlap, covers.
  unfold F_RDLCK, F_WRLCK, F_UNLCK in *. repeat case_match; bools; lia.
Qed.

(** The list [applyFileLock] starts from: what the owner's own unexpired
    record holds. *)
Definition current_locks (sp : string) (db : LockDB) (inode : Z) (handle : string) :
    list FileLock :=
  if staleOwner sp (leases db) handle then []
  else match locks_of db inode !! handle with Some (RawLocks ls) => ls | _ => [] end.

Lemma current_locks_normal sp db inode handle :
  table_wf (locks_of db inode) → normal (current_locks sp db inode handle).
Proof.
  intros Hwf. assert (normal []) by (repeat constructor). unfold current_locks.
  destruct (staleOwner _ _ _); [done|]. destruct (_ !! handle) as [v|] eqn:E; [|done].
  by destruct (Hwf _ _ E) as (ls & -> & Hn).
Qed.

Lemma current_locks_state sp db inode handle :
  table_wf (locks_of db inode) →
  default [] ((pruneExpiredLocks sp (leases db) (decode_one <$> locks_of db inode)).2 !! handle)
  = current_locks sp db inode handle.
Proof.
  intros Hwf. rewrite prune_lookup. unfold current_locks.
  destruct (staleOwner _ _ _); [done|].
  destruct (locks_of db inode !! handle) as [v|] eqn:E.
  - destruct (Hwf _ _ E) as (ls & -> & Hn).
    by rewrite (proj2 (table_wf_lookup _ _ _ Hwf) E).
  - by rewrite lookup_fmap, E.
Qed.

(** What a granted request leaves in the table. *)
Definition granted (sp : string) (db db' : LockDB) (inode : Z) (handle : string)
    (lk : FileLock) : Prop :=
  inodeKind db' = inodeKind db ∧ leases db' = leases db ∧
  (∀ i, i ≠ inode → locks_of db' i = locks_of db i) ∧
  ∀ o, locks_of db' inode !! o =
    if decide (o = handle) then
      match applyFileLock (current_locks sp db inode handle) lk with
      | [] => None
      | next => Some (RawLocks next)
      end
    else if staleOwner sp (leases db) o then None else locks_of db inode !! o.

Lemma locks_of_set db inode h i :
  locks_of (set_locks db inode h) i = if decide (i = inode) then h else locks_of db i.
Proof.
  unfold locks_of, set_locks; simpl.
  destruct (decide (i = inode)) as [->|]; [by rewrite lookup_insert_eq|by rewrite lookup_insert_ne].
Qed.

Lemma trySetLock_granted sp guard db db' inode handle lk :
  table_wf (locks_of db inode) → wf_lock lk →
  trySetLock sp guard db inode handle lk = (db', Ok ()) →
  granted sp db db' inode handle lk ∧
  (lType lk ≠ F_UNLCK → ∀ o ls e, o ≠ handle → staleOwner sp (leases db) o = false →
     locks_of db inode !! o = Some (RawLocks ls) → e ∈ ls → locksConflict e lk = false).
Proof.
  intros Hwf Hlk. unfold trySetLock. rewrite table_wf_decode by done.
  case_bool_decide; [done|]. destruct guard; [done|].
  destruct (inodeKind db !! inode); [|done]. destruct (negb _); [done|].
  pose proof (current_locks_state sp db inode handle Hwf) as Hcur.
  pose proof (prune_lookup sp (leases db) (decode_one <$> locks_of db inode)) as Hlook.
  pose proof (prune_stale sp (leases db) (decode_one <$> locks_of db inode)) as Hstale.
  destruct (pruneExpiredLocks _ _ _) as [stale state]. simpl in Hcur, Hlook, Hstale.
  rewrite Hcur. set (next := applyFileLock _ lk).
  assert (normal next) as Hnext by (apply applyFileLock_normal; auto using current_locks_normal).
  destruct (_ && _) eqn:Econf; [done|]. intros [= <-]. split.
  - split_and!; [done..| |].
    { intros i Hi. rewrite locks_of_set. by rewrite decide_False. }
    intros o. rewrite locks_of_set, decide_True by done. unfold encodeFileLocks.
    rewrite normalizeFileLocks_id by done. destruct (decide (o = handle)) as [->|Hne].
    { unfold next in *. destruct (applyFileLock _ _); by rewrite ?lookup_delete_eq, ?lookup_insert_eq. }
    assert (foldr delete (locks_of db inode) stale !! o =
            if staleOwner sp (leases db) o then None else locks_of db inode !! o) as Hd.
    { destruct (decide (o ∈ stale)) as [Hin|Hin].
      - rewrite lookup_foldr_delete by done. apply Hstale in Hin as [_ ->]. done.
      - rewrite lookup_foldr_delete_not_elem_of by done. rewrite Hstale, lookup_fmap in Hin.
        destruct (staleOwner _ _ _); [|done]. destruct (_ !! o); [|done].
        exfalso. apply Hin. eauto. }
    destruct next; by rewrite ?lookup_delete_ne, ?lookup_insert_ne.
  - intros Hu o ls e Hne Hst Hls He. apply andb_false_iff in Econf as [Ec|Ec]; [bools; lia|].
    rewrite hasConflict_false in Ec. apply (Ec o ls e); [done| |done].
    by rewrite Hlook, Hst, table_wf_lookup.
Qed.

(** A granted request keeps the table well formed and mutually exclusive. *)
Lemma granted_owner_holds sp db db' inode handle lk o t b :
  table_wf (locks_of db inode) → wf_lock lk → granted sp db db' inode handle lk →
  owner_holds (locks_of db' inode) o t b ↔
    if decide (o = handle)
    then holds (applyFileLock (current_locks sp db inode handle) lk) t b
    else staleOwner sp (leases db) o = false ∧ owner_holds (locks_of db inode) o t b.
Proof.
  intros Hwf Hlk (_ & _ & _ & Hg). unfold owner_holds. rewrite Hg. case_decide.
  - destruct (applyFileLock _ _); [|naive_solver].
    pose proof (holds_nil t b). naive_solver.
  - destruct (staleOwner _ _ _); naive_solver.
Qed.

Lemma granted_inv sp db db' inode handle lk :
  table_inv (locks_of db inode) → wf_lock lk → granted sp db db' inode handle lk →
  (lType lk ≠ F_UNLCK → ∀ o ls e, o ≠ handle → staleOwner sp (leases db) o = false →
     locks_of db inode !! o = Some (RawLocks ls) → e ∈ ls → locksConflict e lk = false) →
  table_inv (locks_of db' inode).
Proof.
  intros [Hwf Hex] Hlk Hg Hfree.
  pose proof (current_locks_normal sp db inode handle Hwf) as Hcn.
  assert (∀ o t t' b, o ≠ handle →
    owner_holds (locks_of db' inode) handle t b → owner_holds (locks_of db' inode) o t' b →
    t = F_RDLCK ∧ t' = F_RDLCK) as Hone.
  { intros o t t' b Hne. rewrite !(granted_owner_holds _ _ _ _ _ _ _ _ _ Hwf Hlk Hg).
    rewrite decide_True, decide_False by done.
    intros Ht [Hst (ls & Hls & l & Hl & <- & Hb)].
    destruct (Hwf _ _ Hls) as (? & [= <-] & Hn & Hnu & _). rewrite Forall_forall in Hn, Hnu.
    assert (t ≠ F_UNLCK) as Htu.
    { intros ->. destruct Ht as (x & Hx & Hxt & _).
      destruct (applyFileLock_normal _ lk Hcn Hlk) as (_ & Hnu' & _).
      rewrite Forall_forall in Hnu'. by apply (Hnu' x). }
    rewrite applyFileLock_holds in Ht; [|by apply Hcn|done|done]. case_decide.
    - subst t. destruct (no_conflict_bytes l lk b); auto.
      eapply Hfree; eauto.
    - assert (owner_holds (locks_of db inode) handle t b) as Hh.
      { unfold current_locks in Ht. destruct (staleOwner _ _ handle); [by apply holds_nil in Ht|].
        destruct (locks_of db inode !! handle) as [[ls'|]|] eqn:E;
          try by apply holds_nil in Ht. by exists ls'. }
      destruct (Hex handle o t (lType l) b); auto. exists ls. split; [done|]. by exists l. }
  split.
  - intros o v. destruct Hg as (_ & _ & _ & Hg). rewrite Hg. case_decide.
    + pose proof (applyFileLock_normal _ lk Hcn Hlk) as Hn.
      destruct (applyFileLock _ _); intros; simplify_eq; eauto.
    + destruct (staleOwner _ _ _); [discriminate|]. apply Hwf.
  - intros o1 o2 t1 t2 b Hne H1 H2.
    destruct (decide (o1 = handle)) as [->|N1]; [by apply (Hone o2 t1 t2 b)|].
    destruct (decide (o2 = handle)) as [->|N2].
    { destruct (Hone o1 t2 t1 b); auto. }
    rewrite (granted_owner_holds _ _ _ _ _ _ _ _ _ Hwf Hlk Hg), decide_False in H1 by done.
    rewrite (granted_owner_holds _ _ _ _ _ _ _ _ _ Hwf Hlk Hg), decide_False in H2 by done.
    destruct H1, H2. by apply (Hex o1 o2 t1 t2 b).
Qed.

(** ** Transitions of the table *)

(** Every way the lock hashes change: one attempt of [Setlk] with validated
    64-bit bounds, the removal of all locks of a handle, the expiry or creation
    of leases, the creation and removal of inodes. *)
Inductive lock_step (sp : string) : LockDB → LockDB → Prop :=
| step_attempt guard db inode handle lk l :
    0 ≤ lStart l → lEnd l ≤ max_uint64 → validateFileLock lk = Ok l →
    lock_step sp db (trySetLock sp guard db inode handle l).1
| step_UnlockAll guard db inode handle :
    lock_step sp db (UnlockAll guard db inode handle).1
| step_env db kinds live :
    lock_step sp db (mkLockDB kinds (lockHash db) live).

Definition db_inv (db : LockDB) : Prop := ∀ inode, table_inv (locks_of db inode).

Lemma validate_wf lk l :
  validateFileLock lk = Ok l → 0 ≤ lStart l → lEnd l ≤ max_uint64 → wf_lock l.
Proof.
  unfold validateFileLock, wf_lock. destruct lk as [l0|]; [|done].
  intros. repeat case_match; simplify_eq. bools. lia.
Qed.

Lemma trySetLock_cases sp guard db inode handle lk :
  (trySetLock sp guard db inode handle lk).1 = db ∨
  trySetLock sp guard db inode handle lk
    = ((trySetLock sp guard db inode handle lk).1, Ok ()).
Proof. unfold trySetLock. repeat case_match; auto. Qed.

Lemma trySetLock_db_inv sp guard db inode handle lk :
  db_inv db → wf_lock lk → db_inv (trySetLock sp guard db inode handle lk).1.
Proof.
  intros Hinv Hlk. destruct (trySetLock_cases sp guard db inode handle lk) as [->|He]; [done|].
  apply trySetLock_granted in He as [Hg Hfree]; [|apply Hinv|done].
  intros i. destruct (decide (i = inode)) as [->|Hi].
  - eapply granted_inv; eauto.
  - destruct Hg as (_ & _ & Ho & _). rewrite Ho by done. apply Hinv.
Qed.

Lemma table_inv_delete h o : table_inv h → table_inv (delete o h).
Proof.
  intros [Hwf Hex]. split.
  - intros o' v [_ Hv]%lookup_delete_Some. by apply (Hwf o').
  - intros o1 o2 t1 t2 b Hne (l1 & [_ H1]%lookup_delete_Some & Hb1)
      (l2 & [_ H2]%lookup_delete_Some & Hb2).
    apply (Hex o1 o2 t1 t2 b Hne); unfold owner_holds; eauto.
Qed.

Lemma lock_step_inv sp db db' : lock_step sp db db' → db_inv db → db_inv db'.
Proof.
  intros Hstep Hinv. destruct Hstep as [guard db inode handle lk l H1 H2 Hv|guard db inode handle|].
  - by apply trySetLock_db_inv, (validate_wf lk).
  - unfold UnlockAll. destruct guard; [done|]. intros i. simpl. rewrite locks_of_set.
    case_decide; [apply table_inv_delete|]; apply Hinv.
  - apply Hinv.
Qed.

Lemma table_inv_empty : table_inv ∅.
Proof.
  split; [by intros o v Hv; rewrite lookup_empty in Hv|].
  intros o1 o2 t1 t2 b _ (l & Hl & _). by rewrite lookup_empty in Hl.
Qed.

Lemma reachable_inv sp db0 db :
  lockHash db0 = ∅ → rtc (lock_step sp) db0 db → db_inv db.
Proof.
  intros H0 Hr. assert (db_inv db0) as Hinv.
  { intros i. unfold locks_of. rewrite H0, lookup_empty. apply table_inv_empty. }
  clear H0. induction Hr; eauto using lock_step_inv.
Qed.

(** ** The loop of [Getlk] *)

Lemma lock_less_irrefl x : lock_less x x = false.
Proof. unfold lock_less. case_match; lia. Qed.

Lemma better_conflict lk c x :
  locksConflict x lk = true →
  ∃ m, better lk c x = Some m ∧ (m = x ∨ c = Some m) ∧
       lock_less x m = false ∧ ∀ c0, c = Some c0 → lock_less c0 m = false.
Proof.
  intros Hx. unfold better. rewrite Hx. simpl. destruct c as [c|].
  - case_match; eexists; split_and!; eauto; intros; simplify_eq; auto using lock_less_irrefl;
      unfold lock_less; case_match; bools; lia.
  - exists x. split_and!; auto using lock_less_irrefl. done.
Qed.

Lemma better_fold lk ls c :
  match foldl (better lk) c ls with
  | None => c = None ∧ ∀ e, e ∈ ls → locksConflict e lk = false
  | Some m => (c = Some m ∨ (m ∈ ls ∧ locksConflict m lk = true)) ∧
      (∀ c0, c = Some c0 → lock_less c0 m = false) ∧
      ∀ e, e ∈ ls → locksConflict e lk = true → lock_less e m = false
  end.
Proof.
  revert c. induction ls as [|x ls IH]; intros c; simpl.
  { destruct c as [c|]; split_and!; auto; intros; simplify_eq;
      auto using lock_less_irrefl; set_solver. }
  specialize (IH (better lk c x)). destruct (locksConflict x lk) eqn:Ex.
  - destruct (better_conflict lk c x Ex) as (m0 & Hm0 & Hor & Hx & Hc). rewrite Hm0 in *.
    destruct (foldl _ _ _) as [m|]; [|naive_solver].
    destruct IH as (H1 & H2 & H3). specialize (H2 _ eq_refl). split_and!.
    + rewrite elem_of_cons. naive_solver.
    + intros c0 ->. eapply sw_trans; [exact H2|]. eauto.
    + intros e [->|He]%elem_of_cons ?; [by eapply sw_trans; [exact H2|]|auto].
  - assert (better lk c x = c) as Hb by (unfold better; by rewrite Ex). rewrite Hb in *.
    destruct (foldl _ _ _) as [m|].
    + destruct IH as (H1 & H2 & H3). split_and!; [|done|].
      * rewrite elem_of_cons. naive_solver.
      * intros e [->|He]%elem_of_cons ?; [congruence|auto].
    + destruct IH as (H1 & H2). split; [done|].
      intros e [->|He]%elem_of_cons; auto.
Qed.

End Table.

(** * Properties *)

Section Properties.
Context `{!SliceSort lock_less}.

(** C1: the byte-level effect of [applyFileLock], for every list of well-formed
    locks of one owner, every request and every byte: inside the requested
    range the owner afterwards holds exactly the requested type (nothing when
    the request is an unlock), and outside the range exactly what it held
    before, for every type; the result is again well formed, so no bound
    wrapped around at either end of the 64-bit range. *)
Theorem apply_file_lock_bytes (existing : list FileLock) (req : FileLock) :
  Forall wf_lock existing → wf_lock req →
  Forall wf_lock (applyFileLock existing req) ∧
  ∀ t b, t ≠ F_UNLCK →
    (holds (applyFileLock existing req) t b ↔
       if decide (covers req b) then lType req = t else holds existing t b).
Proof.
  intros Hex Hreq. split; [by apply applyFileLock_wf|].
  intros. by apply applyFileLock_holds.
Qed.

(** C2: the lists kept in the table are canonical.  Applying a request to a
    normal list (sorted, disjoint, no unlock entries, equal-type neighbours
    never adjacent) gives a normal list, and a normal list survives being
    written by [encodeFileLocks] and read by [decodeLockState] unchanged. *)
Theorem apply_file_lock_canonical (existing : list FileLock) (req : FileLock) (owner : string) :
  normal existing → wf_lock req →
  normal (applyFileLock existing req) ∧
  decodeLockState {[ owner := encodeFileLocks (applyFileLock existing req) ]}
    = Ok {[ owner := applyFileLock existing req ]}.
Proof.
  intros Hn Hreq. pose proof (applyFileLock_normal existing req Hn Hreq) as Hn'.
  split; [done|]. unfold decodeLockState, encodeFileLocks. rewrite normalizeFileLocks_id by done.
  rewrite bool_decide_eq_true_2.
  - rewrite map_fmap_singleton. unfold decode_one. by rewrite normalizeFileLocks_id.
  - by intros o v [_ <-]%lookup_singleton_Some.
Qed.

(** C3: mutual exclusion of the lock table.  In every state reached from an
    empty table by any interleaving of lock attempts of any owners, releases
    of handles, expiring or new leases and inode changes, two different owners
    hold locks on one byte of one inode only if both locks are read locks. *)
Theorem lock_table_mutual_exclusion (sp : string) (db0 db : LockDB) (inode : Z)
    (o1 o2 : string) (t1 t2 b : Z) :
  lockHash db0 = ∅ → rtc (lock_step sp) db0 db → o1 ≠ o2 →
  owner_holds (locks_of db inode) o1 t1 b → owner_holds (locks_of db inode) o2 t2 b →
  t1 = F_RDLCK ∧ t2 = F_RDLCK.
Proof.
  intros H0 Hr Hne H1 H2. destruct (reachable_inv sp db0 db H0 Hr inode) as [_ Hex].
  by apply (Hex o1 o2 t1 t2 b).
Qed.

Lemma loadLockState_wf sp db inode :
  table_wf (locks_of db inode) →
  loadLockState sp db inode =
    Ok (pruneExpiredLocks sp (leases db) (decode_one <$> locks_of db inode)).2.
Proof. intros Hwf. unfold loadLockState. by rewrite table_wf_decode. Qed.

Lemma trySetLock_decides sp db inode handle lk :
  table_wf (locks_of db inode) → handle ≠ EmptyString →
  inodeKind db !! inode = Some "file"%string → lType lk ≠ F_UNLCK →
  let state := (pruneExpiredLocks sp (leases db) (decode_one <$> locks_of db inode)).2 in
  if hasConflict state handle lk
  then trySetLock sp None db inode handle lk = (db, Err ErrLockWouldBlock)
  else (trySetLock sp None db inode handle lk).2 = Ok ().
Proof.
  intros Hwf Hh Hk Ht. unfold trySetLock. rewrite table_wf_decode, Hk by done.
  rewrite bool_decide_eq_false_2 by done. rewrite bool_decide_eq_true_2 by done. simpl.
  replace (lType lk =? F_UNLCK) with false by lia. simpl. by case_match.
Qed.

(** C4: [Getlk] predicts [Setlk].  For a valid read or write request on a file,
    [Getlk] answers "unlocked" exactly when the request would be granted now;
    otherwise the request blocks and changes nothing, and the lock reported is
    one that conflicts with the request, is held by another owner whose lease
    is live, and has the least start (then the least end) among all of those. *)
Theorem getlk_predicts_setlk (sp : string) (db : LockDB) (inode : Z) (handle : string)
    (lk : FileLock) :
  table_wf (locks_of db inode) → handle ≠ EmptyString →
  inodeKind db !! inode = Some "file"%string →
  validateFileLock (Some lk) = Ok lk → lType lk ≠ F_UNLCK →
  ∃ c, Getlk sp None db inode handle (Some lk) = Ok c ∧
    (lType c = F_UNLCK ↔ (trySetLock sp None db inode handle lk).2 = Ok ()) ∧
    (lType c ≠ F_UNLCK →
       trySetLock sp None db inode handle lk = (db, Err ErrLockWouldBlock) ∧
       locksConflict c lk = true ∧
       (∃ o ls, o ≠ handle ∧ staleOwner sp (leases db) o = false ∧
          locks_of db inode !! o = Some (RawLocks ls) ∧ c ∈ ls) ∧
       ∀ o ls e, o ≠ handle → staleOwner sp (leases db) o = false →
          locks_of db inode !! o = Some (RawLocks ls) → e ∈ ls →
          locksConflict e lk = true → lock_less e c = false).
Proof.
  intros Hwf Hh Hk Hv Ht. pose proof (trySetLock_decides sp db inode handle lk Hwf Hh Hk Ht) as Htry.
  unfold Getlk. rewrite Hv, loadLockState_wf by done.
  pose proof (better_fold lk
    (others (pruneExpiredLocks sp (leases db) (decode_one <$> locks_of db inode)).2 handle) None) as Hb.
  pose proof (λ o, prune_lookup sp (leases db) (decode_one <$> locks_of db inode) o) as Hl.
  cbv zeta in Htry. set (state := (pruneExpiredLocks _ _ _).2) in *.
  assert (∀ o ls, state !! o = Some ls ↔ staleOwner sp (leases db) o = false ∧
            locks_of db inode !! o = Some (RawLocks ls)) as Hstate.
  { intros o ls. rewrite Hl. destruct (staleOwner _ _ _); [naive_solver|].
    rewrite table_wf_lookup by done. naive_solver. }
  destruct (foldl _ None _) as [c|].
  - destruct Hb as ([?|[Hin Hc]] & _ & Hmin); [done|]. exists c. split; [done|].
    apply elem_of_others in Hin as (o & ls & Hne & Hls & Hin).
    assert (hasConflict state handle lk = true) as Hcon.
    { apply not_false_iff_true. rewrite hasConflict_false. intros Hf.
      by rewrite (Hf o ls c) in Hc. }
    rewrite Hcon in Htry. rewrite Htry. split; [split; [|done]|].
    + intros Hcu. unfold locksConflict in Hc. rewrite Hcu in Hc. done.
    + intros _. apply Hstate in Hls as [? ?]. split_and!; [done..|by exists o, ls|].
      intros o' ls' e Ho' Hst' Hls' He Hce. apply Hmin; [|done]. apply elem_of_others.
      exists o', ls'. split_and!; [done| |done]. by apply Hstate.
  - destruct Hb as [_ Hb]. eexists. split; [done|]. split; [|done].
    rewrite (proj2 (hasConflict_false state handle lk)) in Htry; [by rewrite Htry|].
    intros o ls e ???. apply Hb, elem_of_others. eauto 6.
Qed.

(** Waiting for a lock.  Whatever the other clients do between two
    attempts, [Setlk] with [wait] never reports that it would block: it ends
    granted, with an error that retrying cannot cure, or cancelled; and when it
    ends granted, the last attempt was granted in the state the others had left. *)
Theorem setlk_wait_outcome (sp : string) (guard : option lockError)
    (sched : list (LockDB → LockDB)) (db : LockDB) (inode : Z) (handle : string) (lk : FileLock) :
  let r := Setlk_wait sp guard sched db inode handle lk in
  r.2 ≠ Err ErrLockWouldBlock ∧
  (r.2 ≠ Err ErrLockCancelled →
     ∃ db', trySetLock sp guard db' inode handle lk = r).
Proof.
  revert db. induction sched as [|f sched IH]; intros db; simpl;
    destruct (trySetLock sp guard db inode handle lk) as [db1 [[]|e]] eqn:E;
    [by eauto| |by eauto|]; destruct e; simpl; try (by split; eauto); apply IH.
Qed.

End Properties.

(** ** Witnesses *)

Ltac solve_wf_lock :=
  unfold wf_lock, max_uint64, F_RDLCK, F_WRLCK, F_UNLCK; simpl; lia.

Definition demo_db : LockDB := mkLockDB {[ 7 := "file"%string ]} ∅ ∅.

Lemma apply_file_lock_bytes_witness :
  holds (applyFileLock [mkFileLock 0 9 F_WRLCK 4] (mkFileLock 5 max_uint64 F_RDLCK 5)) F_WRLCK 4 ∧
  ¬ holds (applyFileLock [mkFileLock 0 9 F_WRLCK 4] (mkFileLock 5 max_uint64 F_RDLCK 5)) F_WRLCK 5.
Proof.
  destruct (apply_file_lock_bytes [mkFileLock 0 9 F_WRLCK 4] (mkFileLock 5 max_uint64 F_RDLCK 5))
    as [_ H].
  - apply Forall_singleton. solve_wf_lock.
  - solve_wf_lock.
  - split; rewrite H by done.
    + rewrite decide_False by (unfold covers, max_uint64; simpl; lia). apply holds_singleton. unfold covers; simpl. lia.
    + rewrite decide_True by (unfold covers, max_uint64; simpl; lia). discriminate.
Defined.

Lemma apply_file_lock_canonical_witness :
  decodeLockState {[ "h"%string := encodeFileLocks (applyFileLock [mkFileLock 0 9 F_WRLCK 4] (mkFileLock 3 4 F_UNLCK 4)) ]}
  = Ok {[ "h"%string := [mkFileLock 0 2 F_WRLCK 4; mkFileLock 5 9 F_WRLCK 4] ]}.
Proof.
  destruct (apply_file_lock_canonical [mkFileLock 0 9 F_WRLCK 4] (mkFileLock 3 4 F_UNLCK 4) "h"%string)
    as [_ H]; [..|exact H].
  - split_and!; [apply Forall_singleton; solve_wf_lock|by apply Forall_singleton|].
    repeat constructor.
  - solve_wf_lock.
Defined.

Definition demo_two_readers : LockDB :=
  (trySetLock "s" None
    (trySetLock "s" None demo_db 7 "a" (mkFileLock 0 9 F_RDLCK 1)).1
    7 "b" (mkFileLock 5 20 F_RDLCK 2)).1.

Lemma lock_table_mutual_exclusion_witness :
  owner_holds (locks_of demo_two_readers 7) "a" F_RDLCK 6 ∧
  owner_holds (locks_of demo_two_readers 7) "b" F_RDLCK 6 ∧
  F_RDLCK = F_RDLCK ∧ F_RDLCK = F_RDLCK.
Proof.
  assert (owner_holds (locks_of demo_two_readers 7) "a" F_RDLCK 6) as Ha.
  { exists [mkFileLock 0 9 F_RDLCK 1]. split; [by vm_compute|].
    exists (mkFileLock 0 9 F_RDLCK 1). split; [apply list_elem_of_here|]. split; by vm_compute. }
  assert (owner_holds (locks_of demo_two_readers 7) "b" F_RDLCK 6) as Hb.
  { exists [mkFileLock 5 20 F_RDLCK 2]. split; [by vm_compute|].
    exists (mkFileLock 5 20 F_RDLCK 2). split; [apply list_elem_of_here|]. split; by vm_compute. }
  split; [exact Ha|]. split; [exact Hb|].
  apply (lock_table_mutual_exclusion "s" demo_db demo_two_readers 7 "a" "b" F_RDLCK F_RDLCK 6);
    [reflexivity| |discriminate|exact Ha|exact Hb].
  eapply rtc_l; [|eapply rtc_l; [|apply rtc_refl]].
  - apply (step_attempt "s" None demo_db 7 "a" (Some (mkFileLock 0 9 F_RDLCK 1)) (mkFileLock 0 9 F_RDLCK 1));
      [solve_wf_lock..|reflexivity].
  - apply (step_attempt "s" None _ 7 "b" (Some (mkFileLock 5 20 F_RDLCK 2)) (mkFileLock 5 20 F_RDLCK 2));
      [solve_wf_lock..|reflexivity].
Defined.

Lemma getlk_predicts_setlk_witness :
  ∃ c, Getlk "s" None demo_two_readers 7 "c" (Some (mkFileLock 6 6 F_WRLCK 3)) = Ok c ∧
    lType c ≠ F_UNLCK ∧
    trySetLock "s" None demo_two_readers 7 "c" (mkFileLock 6 6 F_WRLCK 3)
      = (demo_two_readers, Err ErrLockWouldBlock).
Proof.
  destruct (getlk_predicts_setlk "s" demo_two_readers 7 "c" (mkFileLock 6 6 F_WRLCK 3))
    as (c & Hc & _ & Hblock); [|discriminate|reflexivity|reflexivity|discriminate|].
  - apply (reachable_inv "s" demo_db); [reflexivity|].
    eapply rtc_l; [|eapply rtc_l; [|apply rtc_refl]].
    + apply (step_attempt "s" None demo_db 7 "a" (Some (mkFileLock 0 9 F_RDLCK 1)) (mkFileLock 0 9 F_RDLCK 1));
        [solve_wf_lock..|reflexivity].
    + apply (step_attempt "s" None _ 7 "b" (Some (mkFileLock 5 20 F_RDLCK 2)) (mkFileLock 5 20 F_RDLCK 2));
        [solve_wf_lock..|reflexivity].
  - assert (lType c ≠ F_UNLCK) as Hne.
    { vm_compute in Hc. by injection Hc as <-. }
    exists c. split; [exact Hc|]. split; [exact Hne|]. by apply Hblock.
Defined.
