(* ===== verification/Content.v ===== *)
(** File content in Redis (internal/rediscontent/content.go).

    A file's bytes live in one key, as a string or as a Redis Array of chunks
    of at most 4096 bytes; the exact size is kept in the inode.  [RedisArray]
    states what the code relies on of the server's array commands.  The
    abstract specification is a flat byte string with the POSIX meaning of
    reading, writing at an offset and truncating; [repr] relates an array and a
    size to it, and the theorems show that every array routine implements the
    flat operation. *)
From Stdlib Require Import Strings.Byte.
From S2P Require Import Prelude.

Notation bytes := (list byte).

#[export] Instance byte_eq_dec : EqDecision byte := Byte.byte_eq_dec.

Definition ArrayChunkBytes : Z := 4096.
Definition arrayCommandBatchChunks : Z := 512.
(** The largest size whose chunks all end inside an int64. *)
Definition MaxArraySize : Z := max_int64 - (ArrayChunkBytes - 1).
Definition RefExternal : string := "ext".
Definition RefArray : string := "array".

(** * Byte strings *)

Definition len (l : bytes) : Z := Z.of_nat (length l).

(** Byte [i], and zero outside the string. *)
Definition get (l : bytes) (i : Z) : byte := nth (Z.to_nat i) l x00.

(** [make([]byte, n)]. *)
Definition make_bytes (n : Z) : bytes := replicate (Z.to_nat n) x00.

(** [data[lo:hi]]. *)
Definition slice (l : bytes) (lo hi : Z) : bytes :=
  take (Z.to_nat (hi - lo)) (drop (Z.to_nat lo) l).

(** [copy(dst[off:off+n], src)] with [n = len(src)] in range. *)
Definition copy_into (dst : bytes) (off : Z) (src : bytes) : bytes :=
  take (Z.to_nat off) dst ++ src ++ drop (Z.to_nat (off + len src)) dst.

Lemma len_nonneg l : 0 ≤ len l.
Proof. unfold len. lia. Qed.

Lemma len_app l k : len (l ++ k) = len l + len k.
Proof. unfold len. rewrite length_app. lia. Qed.

Lemma len_make n : 0 ≤ n → len (make_bytes n) = n.
Proof. intros. unfold len, make_bytes. rewrite length_replicate. lia. Qed.

Lemma len_slice l lo hi : 0 ≤ lo → lo ≤ hi → hi ≤ len l → len (slice l lo hi) = hi - lo.
Proof. unfold len, slice. intros. rewrite length_take, length_drop. lia. Qed.

Lemma len_copy_into dst off src :
  0 ≤ off → off + len src ≤ len dst → len (copy_into dst off src) = len dst.
Proof.
  unfold len, copy_into. intros. rewrite !length_app, length_take, length_drop.
  unfold len in *. lia.
Qed.

Lemma get_lookup l i : 0 ≤ i → get l i = default x00 (l !! Z.to_nat i).
Proof.
  intros. unfold get. generalize (Z.to_nat i). clear.
  induction l as [|x l IH]; intros [|n]; simpl; auto.
Qed.

Lemma get_out l i : len l ≤ i → get l i = x00.
Proof. unfold len, get. intros. apply nth_overflow. lia. Qed.

Lemma get_make n i : get (make_bytes n) i = x00.
Proof.
  unfold get, make_bytes. generalize (Z.to_nat i) as k.
  induction (Z.to_nat n) as [|m IH]; intros [|k]; simpl; auto.
Qed.

Lemma get_app l k i : 0 ≤ i →
  get (l ++ k) i = if decide (i < len l) then get l i else get k (i - len l).
Proof.
  intros. unfold get, len. case_decide.
  - rewrite app_nth1 by lia. done.
  - rewrite app_nth2 by lia. f_equal. lia.
Qed.

Lemma get_slice l lo hi i :
  0 ≤ lo → lo ≤ hi → hi ≤ len l → 0 ≤ i →
  get (slice l lo hi) i = if decide (i < hi - lo) then get l (lo + i) else x00.
Proof.
  intros. case_decide.
  - unfold slice. rewrite !get_lookup by lia. rewrite lookup_take_lt by lia.
    rewrite lookup_drop. do 2 f_equal. lia.
  - apply get_out. rewrite len_slice; lia.
Qed.

Lemma get_copy_into dst off src i :
  0 ≤ off → off + len src ≤ len dst → 0 ≤ i →
  get (copy_into dst off src) i =
    if decide (off ≤ i < off + len src) then get src (i - off) else get dst i.
Proof.
  intros Ho Hl Hi. pose proof (len_nonneg src). unfold copy_into.
  assert (len (take (Z.to_nat off) dst) = off) as Ht.
  { unfold len in *. rewrite length_take. lia. }
  rewrite get_app, Ht by lia. destruct (decide (i < off)).
  - rewrite decide_False by lia. rewrite !get_lookup by lia. by rewrite lookup_take_lt by lia.
  - rewrite get_app by lia. repeat case_decide; try lia; try done.
    rewrite !get_lookup by lia. rewrite lookup_drop. do 2 f_equal. lia.
Qed.

Lemma bytes_ext l k : len l = len k → (∀ i, 0 ≤ i < len l → get l i = get k i) → l = k.
Proof.
  unfold len. intros Hlen Hget. apply list_eq. intros i.
  destruct (decide (i < length l)%nat) as [Hi|Hi].
  - specialize (Hget (Z.of_nat i) ltac:(lia)). rewrite !get_lookup, Nat2Z.id in Hget by lia.
    destruct (lookup_lt_is_Some_2 l i Hi) as [x Hx].
    destruct (lookup_lt_is_Some_2 k i ltac:(lia)) as [y Hy].
    rewrite Hx, Hy in *. by simpl in Hget; subst.
  - rewrite !lookup_ge_None_2 by lia. done.
Qed.

(** * The array commands of the server *)

(** [ARSET key start v ...] stores consecutive elements, [ARGETRANGE key s e]
    returns one reply per index with nil for an absent element, [ARDELRANGE]
    removes a range, [DEL] leaves no element. *)
Class RedisArray (arr : Type) := {
  ar_get : arr → Z → option bytes;
  ar_empty : arr;
  ARSET : Z → list bytes → arr → arr;
  ARGETRANGE : Z → Z → arr → list (option bytes);
  ARDELRANGE : Z → Z → arr → arr;
  ar_get_empty i : ar_get ar_empty i = None;
  ar_get_set s vs a i :
    ar_get (ARSET s vs a) i =
      if decide (s ≤ i < s + Z.of_nat (length vs)) then vs !! Z.to_nat (i - s) else ar_get a i;
  ar_getrange s e a : ARGETRANGE s e a = (λ i, ar_get a i) <$> seqZ s (e - s + 1);
  ar_get_del s e a i :
    ar_get (ARDELRANGE s e a) i = if decide (s ≤ i ≤ e) then None else ar_get a i
}.

Inductive contentError :=
| ErrNoArraySupport
| ErrUnsupportedRef
| ErrInvalidOffset
| ErrInvalidSize
| ErrWrongType.

(** A content key: absent, a string, or an array. *)
Inductive cell (arr : Type) :=
| CellNone
| CellStr (v : bytes)
| CellArr (a : arr).
Arguments CellNone {arr}.
Arguments CellStr {arr} v.
Arguments CellArr {arr} a.

(** [GETRANGE key start end] on a string value: both bounds inclusive, negative
    ones counted from the end, then clamped. *)
Definition GETRANGE (v : bytes) (start end_ : Z) : bytes :=
  let n := len v in
  let s := Z.max 0 (if start <? 0 then n + start else start) in
  let e := Z.min (n - 1) (Z.max 0 (if end_ <? 0 then n + end_ else end_)) in
  if (n =? 0) || (e <? s) || ((start <? 0) && (end_ <? 0) && (end_ <? start)) then []
  else slice v s (e + 1).

Section Routines.
Context {arr : Type} `{!RedisArray arr}.

(** The sum is an int64 and wraps for a size above [MaxArraySize]. *)
Definition chunkCountForSize (size : Z) : Z :=
  if size <=? 0 then 0 else i64 (size + ArrayChunkBytes - 1) `quot` ArrayChunkBytes.

(** [splitArrayChunks]; [fuel] bounds the number of iterations, and
    [length data] is enough because each takes at least one byte. *)
Fixpoint split_loop (fuel : nat) (data : bytes) : list bytes :=
  match fuel, data with
  | S fuel', _ :: _ =>
      take (Z.to_nat ArrayChunkBytes) data :: split_loop fuel' (drop (Z.to_nat ArrayChunkBytes) data)
  | _, _ => []
  end.

Definition splitArrayChunks (data : bytes) : list bytes := split_loop (length data) data.

Definition arrayGetRange (a : arr) (start end_ : Z) : list (option bytes) :=
  if end_ <? start then [] else ARGETRANGE start end_ a.

Definition arrayValueBytes (v : option bytes) : bytes := default [] v.

(** The starts of the batches [0, 512, 1024, ...] below [total]. *)
Definition batch_starts (total : Z) : list Z :=
  (λ k, k * arrayCommandBatchChunks) <$>
    seqZ 0 ((total + arrayCommandBatchChunks - 1) / arrayCommandBatchChunks).

(** The body of the inner loop of [loadArray], at chunk index [start + i]. *)
Definition load_chunk (size start : Z) (result : bytes) (iv : Z * option bytes) : bytes :=
  let '(i, value) := iv in
  match value with
  | None => result
  | Some raw =>
      let offset := (start + i) * ArrayChunkBytes in
      let limit := Z.min (len raw) (size - offset) in
      if limit <=? 0 then result
      else copy_into result offset (slice raw 0 limit)
  end.

Definition enumerate {A} (l : list A) : list (Z * A) :=
  zip (seqZ 0 (Z.of_nat (length l))) l.

Definition loadArray (a : arr) (size : Z) : bytes :=
  if size <=? 0 then []
  else
    let totalChunks := chunkCountForSize size in
    foldl (λ result start,
             let end_ := Z.min (start + arrayCommandBatchChunks) totalChunks - 1 in
             foldl (load_chunk size start) result (enumerate (arrayGetRange a start end_)))
          (make_bytes size) (batch_starts totalChunks).

(** The commands [queueArrayWriteFull] queues on the key, in order. *)
Definition queueArrayWriteFull (data : bytes) : arr :=
  match data with
  | [] => ar_empty
  | _ =>
      let chunks := splitArrayChunks data in
      let n := Z.of_nat (length chunks) in
      foldl (λ a start,
               let end_ := Z.min (start + arrayCommandBatchChunks) n in
               ARSET start (take (Z.to_nat (end_ - start)) (drop (Z.to_nat start) chunks)) a)
            ar_empty (batch_starts n)
  end.

Definition read_chunk (startByte endByte startChunk : Z) (result : bytes)
    (iv : Z * option bytes) : bytes :=
  let '(i, value) := iv in
  let chunkStart := (startChunk + i) * ArrayChunkBytes in
  let chunkEnd := i64 (chunkStart + ArrayChunkBytes) in
  let segmentStart := Z.max startByte chunkStart in
  let segmentEnd := Z.min endByte chunkEnd in
  match value with
  | None => result
  | Some raw =>
      if segmentEnd <=? segmentStart then result
      else
        let srcStart := segmentStart - chunkStart in
        let srcEnd := Z.min (len raw) (segmentEnd - chunkStart) in
        if srcEnd <=? srcStart then result
        else copy_into result (segmentStart - startByte) (slice raw srcStart srcEnd)
  end.

Definition readArrayRange (a : arr) (startByte endByte : Z) : bytes :=
  if endByte <=? startByte then []
  else
    let startChunk := startByte `quot` ArrayChunkBytes in
    let endChunk := (endByte - 1) `quot` ArrayChunkBytes in
    foldl (read_chunk startByte endByte startChunk) (make_bytes (endByte - startByte))
      (enumerate (arrayGetRange a startChunk endChunk)).

(** One chunk of [writeArrayRange]: the value stored for the existing element
    [value] at index [startChunk + i], and the new [payloadOffset]. *)
Definition write_chunk (off endByte startChunk : Z) (payload : bytes)
    (i : Z) (value : option bytes) (payloadOffset : Z) : bytes * Z :=
  let raw := arrayValueBytes value in
  let chunk0 := copy_into (make_bytes ArrayChunkBytes) 0 (slice raw 0 (Z.min (len raw) ArrayChunkBytes)) in
  let chunkStart := (startChunk + i) * ArrayChunkBytes in
  let chunkEnd := i64 (chunkStart + ArrayChunkBytes) in
  let writeStart := Z.max off chunkStart in
  let writeEnd := Z.min endByte chunkEnd in
  let n := writeEnd - writeStart in
  let '(chunk, payloadOffset') :=
    if writeStart <? writeEnd
    then (copy_into chunk0 (writeStart - chunkStart) (slice payload payloadOffset (payloadOffset + n)),
          payloadOffset + n)
    else (chunk0, payloadOffset) in
  let storeLen :=
    if chunkStart <? writeEnd then Z.max (len raw) (writeEnd - chunkStart) else len raw in
  (slice chunk 0 (Z.min storeLen ArrayChunkBytes), payloadOffset').

Fixpoint write_chunks (off endByte startChunk : Z) (payload : bytes) (i : Z)
    (existing : list (option bytes)) (payloadOffset : Z) : list bytes :=
  match existing with
  | [] => []
  | value :: rest =>
      let '(c, payloadOffset') := write_chunk off endByte startChunk payload i value payloadOffset in
      c :: write_chunks off endByte startChunk payload (i + 1) rest payloadOffset'
  end.

Definition writeArrayRange (a : arr) (off : Z) (payload : bytes) : arr :=
  let startChunk := off `quot` ArrayChunkBytes in
  let endByte := i64 (off + len payload) in
  let endChunk := (endByte - 1) `quot` ArrayChunkBytes in
  ARSET startChunk
    (write_chunks off endByte startChunk payload 0 (arrayGetRange a startChunk endChunk) 0) a.

Definition truncateArray (a : arr) (oldSize newSize : Z) : arr :=
  if newSize =? oldSize then a
  else if newSize =? 0 then ar_empty
  else if oldSize <? newSize then a
  else
    let oldChunks := chunkCountForSize oldSize in
    let newChunks := chunkCountForSize newSize in
    if newChunks =? 0 then ar_empty
    else
      let lastChunkSize := newSize `rem` ArrayChunkBytes in
      if lastChunkSize =? 0 then
        if newChunks <? oldChunks then ARDELRANGE newChunks (oldChunks - 1) a else a
      else
        let values := arrayGetRange a (newChunks - 1) (newChunks - 1) in
        let a1 :=
          match values with
          | Some raw :: _ =>
              ARSET (newChunks - 1) [slice raw 0 (Z.min lastChunkSize (len raw))] a
          | _ => a
          end in
        if newChunks <? oldChunks then ARDELRANGE newChunks (oldChunks - 1) a1 else a1.

(** * The entry points *)

(** [supported] is the answer of [SupportsArrays]. *)
Definition Load (supported : bool) (c : cell arr) (ref : string) (size : Z) :
    result contentError bytes :=
  let r := TrimSpace ref in
  if bool_decide (r = EmptyString ∨ r = RefExternal) then
    match c with
    | CellNone => Ok []
    | CellStr v => Ok v
    | CellArr _ => Err ErrWrongType
    end
  else if bool_decide (r = RefArray) then
    if supported then
      if size <=? 0 then Ok []
      else match c with
      | CellNone => Ok (loadArray ar_empty size)
      | CellArr a => Ok (loadArray a size)
      | CellStr _ => Err ErrWrongType
      end
    else Err ErrNoArraySupport
  else Err ErrUnsupportedRef.

Definition QueueWriteFull (ref : string) (data : bytes) : cell arr :=
  if bool_decide (TrimSpace ref = RefArray) then
    match data with [] => CellNone | _ => CellArr (queueArrayWriteFull data) end
  else CellStr data.

Definition ReadRange (supported : bool) (c : cell arr) (ref : string) (size off count : Z) :
    result contentError bytes :=
  if (count <=? 0) || (size <=? off) then Ok []
  else if off <? 0 then Err ErrInvalidOffset
  else
    let end0 := i64 (off + count) in
    let end_ := if size <? end0 then size else end0 in
    let r := TrimSpace ref in
    if bool_decide (r = EmptyString ∨ r = RefExternal) then
      match c with
      | CellNone => Ok []
      | CellStr v => Ok (GETRANGE v off (end_ - 1))
      | CellArr _ => Err ErrWrongType
      end
    else if bool_decide (r = RefArray) then
      if supported then
        match c with
        | CellNone => Ok (readArrayRange ar_empty off end_)
        | CellArr a => Ok (readArrayRange a off end_)
        | CellStr _ => Err ErrWrongType
        end
      else Err ErrNoArraySupport
    else Err ErrUnsupportedRef.

Definition WriteRange (supported : bool) (c : cell arr) (off : Z) (payload : bytes) :
    result contentError (cell arr) :=
  if off <? 0 then Err ErrInvalidOffset
  else match payload with
  | [] => Ok c
  | _ =>
    if supported then
      match c with
      | CellNone => Ok (CellArr (writeArrayRange ar_empty off payload))
      | CellArr a => Ok (CellArr (writeArrayRange a off payload))
      | CellStr _ => Err ErrWrongType
      end
    else Err ErrNoArraySupport
  end.

Definition Truncate (supported : bool) (c : cell arr) (oldSize newSize : Z) :
    result contentError (cell arr) :=
  if newSize <? 0 then Err ErrInvalidSize
  else if supported then
    if (newSize =? oldSize) then Ok c
    else if newSize =? 0 then Ok CellNone
    else match c with
    | CellNone => Ok CellNone
    | CellArr a => Ok (CellArr (truncateArray a oldSize newSize))
    | CellStr v => if oldSize <? newSize then Ok c else Err ErrWrongType
    end
  else Err ErrNoArraySupport.

End Routines.

(** * The flat view of an array *)

#[local] Ltac Zify.zify_post_hook ::= Z.to_euclidean_division_equations.

Section Facts.
Context {arr : Type} `{!RedisArray arr}.
Implicit Types (a : arr) (data payload : bytes).

(** Byte [j] of the content: absent elements and short chunks read as zero. *)
Definition byte_at a (j : Z) : byte :=
  get (default [] (ar_get a (j / ArrayChunkBytes))) (j mod ArrayChunkBytes).

(** No element is longer than a chunk. *)
Definition arr_wf a : Prop := ∀ i c, ar_get a i = Some c → len c ≤ ArrayChunkBytes.

(** [repr a size data]: the array holds exactly the bytes of [data], and
    nothing but zeros after them. *)
Definition repr a (size : Z) (data : bytes) : Prop :=
  arr_wf a ∧ size = len data ∧ ∀ j, 0 ≤ j → byte_at a j = get data j.

(** ** Loops over consecutive indices *)

Lemma foldl_enumerate {A B} (P : Z → B → Prop) (f : B → Z * A → B) (l : list A) (b : B) :
  P 0 b →
  (∀ i x b, 0 ≤ i → l !! Z.to_nat i = Some x → P i b → P (i + 1) (f b (i, x))) →
  P (Z.of_nat (length l)) (foldl f b (enumerate l)).
Proof.
  intros H0 Hstep. unfold enumerate.
  assert (∀ k b, 0 ≤ k → P k b →
    (∀ i x b, k ≤ i → l !! Z.to_nat (i - k) = Some x → P i b → P (i + 1) (f b (i, x))) →
    P (k + Z.of_nat (length l)) (foldl f b (zip (seqZ k (Z.of_nat (length l))) l))) as Hgen.
  { clear H0 Hstep b. induction l as [|x l IH]; intros k b Hk Hb Hs; simpl.
    - by rewrite Z.add_0_r.
    - rewrite seqZ_cons by lia. simpl.
      replace (Z.pred (Z.of_nat (S (length l)))) with (Z.of_nat (length l)) by lia.
      replace (k + Z.of_nat (S (length l))) with (Z.succ k + Z.of_nat (length l)) by lia.
      apply IH; [lia| |].
      + apply Hs; [lia| |done]. by rewrite Z.sub_diag.
      + intros i y b' Hi Hl. apply Hs; [lia|].
        replace (Z.to_nat (i - k)) with (S (Z.to_nat (i - Z.succ k))) by lia. done. }
  apply (Hgen 0 b); [lia|done|]. intros i x b' Hi Hl. apply Hstep; [done|]. by rewrite Z.sub_0_r in Hl.
Qed.

Lemma foldl_seqZ {B} (P : Z → B → Prop) (f : B → Z → B) (m : Z) (b : B) :
  0 ≤ m → P 0 b → (∀ k b, 0 ≤ k < m → P k b → P (k + 1) (f b k)) →
  P m (foldl f b (seqZ 0 m)).
Proof.
  intros Hm H0 Hstep. rewrite <- (Z2Nat.id m Hm) in *. revert Hstep. generalize (Z.to_nat m) as n.
  clear Hm. induction n as [|n IH]; intros Hstep; [done|].
  replace (Z.of_nat (S n)) with (Z.of_nat n + 1) by lia.
  rewrite seqZ_app by lia. rewrite foldl_app. simpl. rewrite Z.add_0_l.
  apply Hstep; [lia|]. apply IH. intros. apply Hstep; [lia|done].
Qed.

Lemma arrayGetRange_length a s e :
  s ≤ e → Z.of_nat (length (arrayGetRange a s e)) = e - s + 1.
Proof.
  intros. unfold arrayGetRange. case_match; [lia|].
  rewrite ar_getrange, length_fmap, length_seqZ. lia.
Qed.

Lemma arrayGetRange_lookup a s e i v :
  s ≤ e → 0 ≤ i → arrayGetRange a s e !! Z.to_nat i = Some v →
  i ≤ e - s ∧ v = ar_get a (s + i).
Proof.
  intros Hse Hi. unfold arrayGetRange. case_match; [lia|]. rewrite ar_getrange.
  rewrite list_lookup_fmap, fmap_Some. intros (j & [-> Hj]%lookup_seqZ & ->).
  split; [lia|]. f_equal. lia.
Qed.

(** ** Loading *)

Lemma chunkCountForSize_pos size : 0 < size ≤ MaxArraySize →
  chunkCountForSize size = (size + 4095) / 4096.
Proof.
  unfold MaxArraySize, chunkCountForSize, ArrayChunkBytes. intros. case_match; [lia|]. rewrite i64_small by lia. lia.
Qed.

(** The chunk of a byte below the limit ends inside an int64. *)
Lemma chunkEnd_small k e : 0 ≤ k → k * 4096 < e → e ≤ MaxArraySize → i64 (k * 4096 + ArrayChunkBytes) = k * 4096 + 4096.
Proof. unfold MaxArraySize, ArrayChunkBytes. intros. apply i64_small. lia. Qed.

(** Chunks below [K] are loaded, the rest of the buffer is still zero. *)
Definition loaded a (size K : Z) (res : bytes) : Prop :=
  len res = size ∧
  ∀ j, 0 ≤ j < size → get res j = if decide (j / 4096 < K) then byte_at a j else x00.

Lemma load_chunk_step a size start i res :
  arr_wf a → 0 ≤ start + i → (start + i) * 4096 < size →
  loaded a size (start + i) res →
  loaded a size (start + i + 1) (load_chunk size start res (i, ar_get a (start + i))).
Proof.
  intros Hwf Hk Hlt [Hlen Hget]. unfold load_chunk, ArrayChunkBytes.
  assert (∀ j, 0 ≤ j < size → j / 4096 = start + i → byte_at a j =
            get (default [] (ar_get a (start + i))) (j - (start + i) * 4096)) as Hbyte.
  { intros j Hj Hdiv. unfold byte_at, ArrayChunkBytes. rewrite Hdiv. f_equal. lia. }
  destruct (ar_get a (start + i)) as [raw|] eqn:Eraw; simpl in *.
  - specialize (Hwf _ _ Eraw). unfold ArrayChunkBytes in Hwf. pose proof (len_nonneg raw).
    case_match.
    + split; [done|]. intros j Hj. rewrite Hget by done. repeat case_decide; try lia; try done.
      rewrite Hbyte by lia. rewrite get_out by lia. done.
    + set (limit := Z.min (len raw) (size - (start + i) * 4096)) in *.
      assert (len (slice raw 0 limit) = limit) as Hs by (rewrite len_slice; lia).
      split; [rewrite len_copy_into; lia|]. intros j Hj.
      rewrite get_copy_into, Hs, Hget by lia.
      destruct (decide (j / 4096 = start + i)) as [Hd|Hd].
      * rewrite (decide_True (P := j / 4096 < start + i + 1)), Hbyte by lia. case_decide.
        -- rewrite get_slice by lia. rewrite decide_True by lia. f_equal; lia.
        -- rewrite decide_False by lia. rewrite get_out by lia. done.
      * rewrite decide_False by lia. by repeat case_decide; try lia.
  - split; [done|]. intros j Hj. rewrite Hget by done. repeat case_decide; try lia; try done.
    rewrite Hbyte by lia. rewrite get_out by (simpl; unfold len; simpl; lia). done.
Qed.

Lemma load_batch a size start end_ res :
  arr_wf a → 0 ≤ start → start ≤ end_ → end_ * 4096 < size →
  loaded a size start res →
  loaded a size (end_ + 1)
    (foldl (load_chunk size start) res (enumerate (arrayGetRange a start end_))).
Proof.
  intros Hwf Hs He Hlt Hl.
  pose proof (arrayGetRange_length a start end_ He) as Hlen.
  replace (end_ + 1) with (start + Z.of_nat (length (arrayGetRange a start end_))) by lia.
  apply (foldl_enumerate (λ i res, loaded a size (start + i) res)); [by rewrite Z.add_0_r|].
  intros i v b Hi [Hi' ->]%arrayGetRange_lookup Hb; [|done..].
  replace (start + (i + 1)) with (start + i + 1) by lia. apply load_chunk_step; auto; lia.
Qed.

Lemma loadArray_spec a size :
  arr_wf a → 0 ≤ size ≤ MaxArraySize →
  len (loadArray a size) = size ∧ ∀ j, 0 ≤ j < size → get (loadArray a size) j = byte_at a j.
Proof.
  intros Hwf Hsz. unfold loadArray. destruct (size <=? 0) eqn:E.
  { assert (size = 0) as -> by lia. split; [done|]. intros. lia. }
  rewrite chunkCountForSize_pos by lia. unfold batch_starts, arrayCommandBatchChunks.
  set (total := (size + 4095) / 4096). assert (1 ≤ total ∧ (total - 1) * 4096 < size ≤ total * 4096) as Ht by lia.
  rewrite foldl_fmap. set (m := (total + 512 - 1) / 512).
  assert (loaded a size (Z.min (m * 512) total)
    (foldl (λ result k, foldl (load_chunk size (k * 512)) result
        (enumerate (arrayGetRange a (k * 512) (Z.min (k * 512 + 512) total - 1))))
       (make_bytes size) (seqZ 0 m))) as [Hlen Hget].
  { apply (foldl_seqZ (λ k res, loaded a size (Z.min (k * 512) total) res)); [lia| |].
    - split; [apply len_make; lia|]. intros. rewrite get_make. rewrite decide_False by lia. done.
    - intros k b Hk Hb.
      replace (Z.min ((k + 1) * 512) total) with (Z.min (k * 512 + 512) total - 1 + 1) by lia.
      apply load_batch; try lia; auto. replace (k * 512) with (Z.min (k * 512) total) at 1 by lia. done. }
  split; [done|]. intros j Hj. rewrite Hget by done. by rewrite decide_True by lia.
Qed.

(** ** Full writes *)

Lemma split_loop_lookup fuel data i :
  (length data ≤ fuel)%nat →
  split_loop fuel data !! i =
    if decide (Z.of_nat i * 4096 < len data)
    then Some (slice data (Z.of_nat i * 4096) (Z.min (Z.of_nat i * 4096 + 4096) (len data)))
    else None.
Proof.
  unfold len, slice. revert data i. induction fuel as [|fuel IH]; intros data i Hf.
  { destruct data; [|simpl in Hf; lia]. simpl. rewrite decide_False by lia. by destruct i. }
  destruct data as [|b data]; [simpl; rewrite decide_False by lia; by destruct i|].
  set (d := b :: data) in *. assert (1 ≤ length d)%nat by (unfold d; simpl; lia).
  change (split_loop (S fuel) d) with
    (take (Z.to_nat ArrayChunkBytes) d :: split_loop fuel (drop (Z.to_nat ArrayChunkBytes) d)).
  unfold ArrayChunkBytes. destruct i as [|i]; cbn [lookup list_lookup].
  - change (Z.of_nat 0 * 4096) with 0. rewrite decide_True by lia.
    change (Z.to_nat 0) with 0%nat. rewrite drop_0. f_equal.
    destruct (decide (4096 ≤ length d)%nat).
    + f_equal. lia.
    + rewrite !take_ge by lia. done.
  - rewrite IH by (rewrite length_drop; lia). rewrite length_drop.
    repeat case_decide; try lia; [|done]. f_equal. rewrite drop_drop.
    f_equal; [lia|]. f_equal. lia.
Qed.

Definition stored_upto (chunks : list bytes) (K : Z) a : Prop :=
  ∀ i, ar_get a i = if decide (0 ≤ i < K) then chunks !! Z.to_nat i else None.

Lemma queueArrayWriteFull_get data i :
  ar_get (queueArrayWriteFull data : arr) i =
    if decide (0 ≤ i ∧ i * 4096 < len data)
    then Some (slice data (i * 4096) (Z.min (i * 4096 + 4096) (len data))) else None.
Proof.
  destruct (decide (data = [])) as [->|Hne].
  { simpl. rewrite ar_get_empty. rewrite decide_False; [done|]. unfold len. simpl. lia. }
  assert (queueArrayWriteFull data =
    (let chunks := splitArrayChunks data in
     foldl (λ a start,
               let end_ := Z.min (start + arrayCommandBatchChunks) (Z.of_nat (length chunks)) in
               ARSET start (take (Z.to_nat (end_ - start)) (drop (Z.to_nat start) chunks)) a)
            ar_empty (batch_starts (Z.of_nat (length chunks))))) as -> by by destruct data.
  unfold splitArrayChunks. pose proof (split_loop_lookup (length data) data) as Hsplit.
  set (chunks := split_loop (length data) data) in *.
  unfold batch_starts, arrayCommandBatchChunks. cbv zeta. set (n := Z.of_nat (length chunks)).
  rewrite foldl_fmap. set (m := (n + 512 - 1) / 512).
  assert (stored_upto chunks (Z.min (m * 512) n) (foldl (λ a k, ARSET (k * 512)
      (take (Z.to_nat (Z.min (k * 512 + 512) n - k * 512)) (drop (Z.to_nat (k * 512)) chunks)) a)
      (ar_empty : arr) (seqZ 0 m))) as Hfold.
  { apply (foldl_seqZ (λ k a, stored_upto chunks (Z.min (k * 512) n) a)); [lia| |].
    - intros j. rewrite ar_get_empty. rewrite decide_False by lia. done.
    - intros k b Hk Hb j. rewrite ar_get_set, Hb, length_take, length_drop.
      destruct (decide (k * 512 ≤ j < Z.min ((k + 1) * 512) n)).
      + rewrite !decide_True by lia. rewrite lookup_take_lt by lia.
        rewrite lookup_drop. f_equal. lia.
      + rewrite decide_False by lia. by repeat case_decide; try lia. }
  rewrite Hfold. replace (Z.min (m * 512) n) with n by lia.
  destruct (decide (0 ≤ i)).
  - specialize (Hsplit (Z.to_nat i) ltac:(lia)). rewrite Z2Nat.id in Hsplit by done.
    rewrite Hsplit. destruct (decide (i < n)) as [Hin|Hin].
    + rewrite (decide_True (P := 0 ≤ i < n)) by lia. by repeat case_decide; try lia.
    + rewrite decide_False by lia. rewrite lookup_ge_None_2 in Hsplit by lia.
      by repeat case_decide; try lia.
  - by rewrite !decide_False by lia.
Qed.

Lemma queueArrayWriteFull_repr data : repr (queueArrayWriteFull data : arr) (len data) data.
Proof.
  split_and!; [|done|].
  - intros i c. rewrite queueArrayWriteFull_get. case_decide; intros; simplify_eq.
    rewrite len_slice; unfold ArrayChunkBytes; lia.
  - intros j Hj. unfold byte_at, ArrayChunkBytes. rewrite queueArrayWriteFull_get.
    case_decide; simpl.
    + rewrite get_slice by lia. case_decide; [f_equal; lia|]. rewrite get_out by lia. done.
    + rewrite !get_out; [done|lia|simpl; unfold len; simpl; lia].
Qed.

(** ** Range reads *)

Definition range_done a (s e K : Z) (res : bytes) : Prop :=
  len res = e - s ∧
  ∀ j, 0 ≤ j < e - s → get res j = if decide ((s + j) / 4096 < K) then byte_at a (s + j) else x00.

Lemma read_chunk_step a s e i res :
  arr_wf a → 0 ≤ s < e → e ≤ MaxArraySize → 0 ≤ i → (s `quot` 4096 + i) * 4096 < e →
  range_done a s e (s `quot` 4096 + i) res →
  range_done a s e (s `quot` 4096 + (i + 1))
    (read_chunk s e (s `quot` 4096) res (i, ar_get a (s `quot` 4096 + i))).
Proof.
  intros Hwf Hse He Hi Hlt [Hlen Hget]. unfold read_chunk. rewrite (chunkEnd_small _ e) by (assumption || lia). unfold ArrayChunkBytes.
  set (k := s `quot` 4096 + i) in *. replace (s `quot` 4096 + (i + 1)) with (k + 1) by lia.
  assert (∀ j, 0 ≤ j < e - s → (s + j) / 4096 = k → byte_at a (s + j) =
            get (default [] (ar_get a k)) (s + j - k * 4096)) as Hbyte.
  { intros j Hj Hdiv. unfold byte_at, ArrayChunkBytes. rewrite Hdiv. f_equal. lia. }
  assert (∀ j, 0 ≤ j < e - s → (s + j) / 4096 = k →
     get (default [] (ar_get a k)) (s + j - k * 4096) = x00 → get res j = byte_at a (s + j)) as Hz.
  { intros j Hj Hd H0. rewrite Hget, decide_False, Hbyte by lia. done. }
  destruct (ar_get a k) as [raw|] eqn:Eraw; simpl default in *.
  - specialize (Hwf _ _ Eraw). unfold ArrayChunkBytes in Hwf. pose proof (len_nonneg raw).
    case_match; [lia|]. case_match.
    + split; [done|]. intros j Hj. destruct (decide ((s + j) / 4096 = k)).
      * rewrite decide_True by lia. apply Hz; [done..|]. apply get_out. lia.
      * rewrite Hget by done. by repeat case_decide; try lia.
    + set (s0 := Z.max s (k * 4096) - k * 4096) in *.
      set (e0 := Z.min (len raw) (Z.min e (k * 4096 + 4096) - k * 4096)) in *.
      assert (len (slice raw s0 e0) = e0 - s0) as Hs by (rewrite len_slice; lia).
      split; [rewrite len_copy_into; lia|]. intros j Hj. rewrite get_copy_into, Hs by lia.
      destruct (decide ((s + j) / 4096 = k)).
      * rewrite (decide_True (P := (s + j) / 4096 < k + 1)) by lia. case_decide.
        -- rewrite get_slice, decide_True, Hbyte by lia. f_equal. lia.
        -- apply Hz; [done..|]. apply get_out. lia.
      * rewrite decide_False, Hget by lia. by repeat case_decide; try lia.
  - split; [done|]. intros j Hj. destruct (decide ((s + j) / 4096 = k)).
    + rewrite decide_True by lia. apply Hz; [done..|]. apply get_out. unfold len. simpl. lia.
    + rewrite Hget by done. by repeat case_decide; try lia.
Qed.

Lemma readArrayRange_spec a s e :
  arr_wf a → 0 ≤ s < e → e ≤ MaxArraySize →
  len (readArrayRange a s e) = e - s ∧
  ∀ j, 0 ≤ j < e - s → get (readArrayRange a s e) j = byte_at a (s + j).
Proof.
  intros Hwf Hse He. unfold readArrayRange, ArrayChunkBytes. case_match; [lia|].
  set (sc := s `quot` 4096). set (ec := (e - 1) `quot` 4096).
  pose proof (arrayGetRange_length a sc ec ltac:(lia)) as Hlen.
  assert (range_done a s e (sc + Z.of_nat (length (arrayGetRange a sc ec)))
    (foldl (read_chunk s e sc) (make_bytes (e - s)) (enumerate (arrayGetRange a sc ec)))) as [H1 H2].
  { apply (foldl_enumerate (λ i res, range_done a s e (sc + i) res)).
    - split; [apply len_make; lia|]. intros. rewrite get_make, decide_False by lia. done.
    - intros i v b Hi [Hi' ->]%arrayGetRange_lookup Hb; [|lia..]. apply read_chunk_step; auto; lia. }
  split; [done|]. intros j Hj. rewrite H2, decide_True by lia. done.
Qed.

(** ** Range writes *)

Lemma write_chunk_spec off payload i value po c po' :
  let sc := off `quot` 4096 in
  let cs := (sc + i) * 4096 in
  let e := off + len payload in
  0 ≤ off → 0 < len payload → e ≤ MaxArraySize → 0 ≤ i → cs < e → len (default [] value) ≤ 4096 →
  po = Z.max 0 (cs - off) →
  write_chunk off e sc payload i value po = (c, po') →
  len c ≤ 4096 ∧ po' = Z.min e (cs + 4096) - off ∧
  ∀ j, 0 ≤ j < 4096 →
    get c j = if decide (off ≤ cs + j < e) then get payload (cs + j - off)
              else get (default [] value) j.
Proof.
  intros sc cs e Hoff Hp He Hi Hcs Hv -> Hw. unfold write_chunk, arrayValueBytes in Hw.
  rewrite (chunkEnd_small _ e) in Hw by (assumption || lia). unfold ArrayChunkBytes in Hw.
  fold cs in Hw. set (raw := default [] value) in *. pose proof (len_nonneg raw).
  rewrite (Z.min_l (len raw) 4096) in Hw by done.
  assert (slice raw 0 (len raw) = raw) as Hraw.
  { apply bytes_ext; [rewrite len_slice; lia|]. intros j. rewrite len_slice by lia. intros Hj.
    rewrite get_slice, decide_True by lia. done. }
  rewrite Hraw in Hw. set (chunk0 := copy_into (make_bytes 4096) 0 raw) in *.
  assert (len chunk0 = 4096) as Hl0.
  { unfold chunk0. rewrite len_copy_into; rewrite ?len_make; lia. }
  assert (∀ j, 0 ≤ j < 4096 → get chunk0 j = get raw j) as Hg0.
  { intros j Hj. unfold chunk0. rewrite get_copy_into by (rewrite ?len_make; lia).
    case_decide; [f_equal; lia|]. rewrite get_make, get_out by lia. done. }
  clearbody chunk0. clear Hraw.
  assert ((Z.max off cs <? Z.min e (cs + 4096)) = true) as Hlt by lia. rewrite Hlt in Hw.
  assert ((cs <? Z.min e (cs + 4096)) = true) as Hlt2 by lia. rewrite Hlt2 in Hw.
  set (n := Z.min e (cs + 4096) - Z.max off cs) in *.
  set (po := Z.max 0 (cs - off)) in *.
  assert (len (slice payload po (po + n)) = n) as Hls by (rewrite len_slice; lia).
  set (chunk := copy_into chunk0 (Z.max off cs - cs) (slice payload po (po + n))) in *.
  assert (len chunk = 4096) as Hlc by (unfold chunk; rewrite len_copy_into; lia).
  set (sl := Z.min (Z.max (len raw) (Z.min e (cs + 4096) - cs)) 4096) in *.
  injection Hw as <- <-. split; [rewrite len_slice; lia|]. split; [lia|].
  intros j Hj. rewrite get_slice by lia.
  destruct (decide (j < sl - 0)) as [Hj1|Hj1].
  - unfold chunk. rewrite get_copy_into, Hls by lia. rewrite Z.add_0_l.
    repeat case_decide; try lia.
    + rewrite get_slice, decide_True by lia. f_equal. lia.
    + apply Hg0. lia.
  - rewrite decide_False by lia. rewrite get_out by lia. done.
Qed.

Lemma write_chunks_length off e sc payload existing : ∀ i po,
  length (write_chunks off e sc payload i existing po) = length existing.
Proof.
  induction existing as [|v existing IH]; intros i po; simpl; [done|].
  destruct (write_chunk _ _ _ _ _ _ _). simpl. by rewrite IH.
Qed.

Lemma write_chunks_lookup off payload existing : ∀ i po n c,
  let sc := off `quot` 4096 in
  let e := off + len payload in
  0 ≤ off → 0 < len payload → e ≤ MaxArraySize → 0 ≤ i → po = Z.max 0 ((sc + i) * 4096 - off) →
  (sc + i + Z.of_nat (length existing) - 1) * 4096 < e →
  (∀ v, Some v ∈ existing → len v ≤ 4096) →
  write_chunks off e sc payload i existing po !! n = Some c →
  len c ≤ 4096 ∧ ∀ j, 0 ≤ j < 4096 →
    get c j = if decide (off ≤ (sc + i + Z.of_nat n) * 4096 + j < e)
              then get payload ((sc + i + Z.of_nat n) * 4096 + j - off)
              else get (default [] (default None (existing !! n))) j.
Proof.
  induction existing as [|v existing IH]; intros i po n c sc e Hoff Hp He Hi Hpo Hlast Hlen Hn; [done|].
  simpl in Hn. destruct (write_chunk off e sc payload i v po) as [c0 po'] eqn:Ew.
  simpl length in Hlast.
  assert (len (default [] v) ≤ 4096) as Hv.
  { destruct v as [v|]; simpl; [apply Hlen, list_elem_of_here|unfold len; simpl; lia]. }
  apply write_chunk_spec in Ew as (Hc0 & Hpo' & Hg0); [|fold sc; auto; lia..].
  fold sc e in Hpo', Hg0. destruct n as [|n]; simpl in Hn.
  - injection Hn as <-. split; [done|]. intros j Hj. rewrite Hg0 by done.
    replace (sc + i + Z.of_nat 0) with (sc + i) by lia. done.
  - destruct existing as [|v' existing']; [done|]. simpl length in Hlast.
    destruct (IH (i + 1) po' n c) as [H1 H2]; fold sc e; try done; try (simpl length; lia).
    { intros w Hw. apply Hlen. by apply list_elem_of_further. }
    split; [done|]. intros j Hj. rewrite H2 by done. fold sc e.
    replace (sc + (i + 1) + Z.of_nat n) with (sc + i + Z.of_nat (S n)) by lia. done.
Qed.

Lemma writeArrayRange_get a off payload k :
  arr_wf a → 0 ≤ off → 0 < len payload → off + len payload ≤ MaxArraySize →
  (∀ c, ar_get (writeArrayRange a off payload) k = Some c → len c ≤ 4096) ∧
  ∀ j, 0 ≤ j < 4096 →
    get (default [] (ar_get (writeArrayRange a off payload) k)) j =
      if decide (off ≤ k * 4096 + j < off + len payload)
      then get payload (k * 4096 + j - off) else get (default [] (ar_get a k)) j.
Proof.
  intros Hwf Hoff Hp Hmax. unfold writeArrayRange, ArrayChunkBytes.
  rewrite i64_small by (unfold MaxArraySize, ArrayChunkBytes in *; lia).
  set (sc := off `quot` 4096). set (e := off + len payload). set (ec := (e - 1) `quot` 4096).
  assert (sc ≤ ec) as Hse by lia. rewrite ar_get_set, write_chunks_length.
  pose proof (arrayGetRange_length a sc ec Hse) as Hlen.
  case_decide as Hk.
  - destruct (write_chunks off e sc payload 0 (arrayGetRange a sc ec) 0 !! Z.to_nat (k - sc))
      as [c|] eqn:Ec.
    + destruct (arrayGetRange a sc ec !! Z.to_nat (k - sc)) as [v|] eqn:Ev.
      2:{ apply lookup_ge_None in Ev. lia. }
      pose proof Ev as Ev'. apply arrayGetRange_lookup in Ev' as [_ ->]; [|lia..].
      replace (sc + (k - sc)) with k in Ev by lia.
      apply write_chunks_lookup in Ec as [H1 H2]; fold sc; try lia.
      * split; [by intros ? [= <-]|]. intros j Hj. simpl. rewrite H2 by done. fold sc e.
        replace (sc + 0 + Z.of_nat (Z.to_nat (k - sc))) with k by lia. rewrite Ev. done.
      * intros w Hw. apply list_elem_of_lookup in Hw as [n Hn].
        rewrite <- (Nat2Z.id n) in Hn. apply arrayGetRange_lookup in Hn as [_ Hn]; [|lia..].
        symmetry in Hn. by apply Hwf in Hn.
    + apply lookup_ge_None in Ec. rewrite write_chunks_length in Ec. lia.
  - split; [intros c Hc; by apply Hwf in Hc|]. intros j Hj. by rewrite decide_False by lia.
Qed.

(** ** Truncation *)

(** [a'] is [a] with the bytes from [lo] to [hi] cleared. *)
Definition cleared a a' (lo hi : Z) : Prop :=
  arr_wf a' ∧ ∀ k j, 0 ≤ j < 4096 →
    get (default [] (ar_get a' k)) j =
      if decide (lo ≤ k * 4096 + j < hi) then x00 else get (default [] (ar_get a k)) j.

Lemma cleared_del a a' lo nc oc :
  lo ≤ nc * 4096 → nc ≤ oc → cleared a a' lo (nc * 4096) →
  cleared a (if nc <? oc then ARDELRANGE nc (oc - 1) a' else a') lo (oc * 4096).
Proof.
  intros Hlo Hle [Hwf Hget]. case_match.
  - split.
    + intros i c. rewrite ar_get_del. case_decide; [done|apply Hwf].
    + intros k j Hj. rewrite ar_get_del. case_decide.
      * rewrite decide_True by lia. apply get_out. unfold len. simpl. lia.
      * rewrite Hget by done. by repeat case_decide; try lia.
  - assert (nc = oc) as -> by lia. done.
Qed.

Lemma cleared_last a n lo :
  arr_wf a → lo = n * 4096 + lo `rem` 4096 → 0 < lo `rem` 4096 →
  cleared a (match arrayGetRange a n n with
             | Some raw :: _ => ARSET n [slice raw 0 (Z.min (lo `rem` 4096) (len raw))] a
             | _ => a
             end) lo ((n + 1) * 4096).
Proof.
  intros Hwf Hlo Hpos. unfold arrayGetRange. rewrite Z.ltb_irrefl, ar_getrange.
  replace (n - n + 1) with 1 by lia. rewrite seqZ_cons by lia. cbn [fmap list_fmap].
  set (r := lo `rem` 4096) in *.
  assert (0 < r < 4096) as Hr by lia. clearbody r. subst lo.
  destruct (ar_get a n) as [raw|] eqn:Er.
  - pose proof (len_nonneg raw). pose proof (Hwf _ _ Er) as Hraw. unfold ArrayChunkBytes in Hraw.
    split.
    + intros i c. rewrite ar_get_set. simpl. case_decide; [|apply Hwf].
      replace (Z.to_nat (i - n)) with 0%nat by lia. intros [= <-].
      unfold ArrayChunkBytes. rewrite len_slice; lia.
    + intros k j Hj. rewrite ar_get_set. simpl. case_decide.
      * assert (k = n) as -> by lia. rewrite Z.sub_diag, Er. simpl. rewrite get_slice by lia.
        repeat case_decide; try lia; try done. rewrite get_out by lia. done.
      * rewrite decide_False by lia. done.
  - split; [done|]. intros k j Hj. case_decide; [|done].
    assert (k = n) as -> by lia. rewrite Er. apply get_out. unfold len. simpl. lia.
Qed.

Lemma truncateArray_cleared a oldSize newSize :
  arr_wf a → 0 < newSize < oldSize → oldSize ≤ MaxArraySize →
  cleared a (truncateArray a oldSize newSize) newSize (chunkCountForSize oldSize * 4096).
Proof.
  intros Hwf Hs Hm. unfold truncateArray, ArrayChunkBytes.
  replace (newSize =? oldSize) with false by lia. replace (newSize =? 0) with false by lia.
  replace (oldSize <? newSize) with false by lia. rewrite !chunkCountForSize_pos by lia.
  set (oc := (oldSize + 4095) / 4096). set (nc := (newSize + 4095) / 4096).
  replace (nc =? 0) with false by lia. destruct (newSize `rem` 4096 =? 0) eqn:Er.
  - apply cleared_del; [lia..|]. split; [done|]. intros k j Hj. by rewrite decide_False by lia.
  - apply cleared_del; [lia..|]. replace (nc * 4096) with ((nc - 1 + 1) * 4096) by lia.
    apply cleared_last; [done|lia..].
Qed.

(** ** The flat operations *)

(** [pread]: the bytes from [off] on, at most [count], never past the end. *)
Definition pread (data : bytes) (off count : Z) : bytes :=
  slice data off (Z.min (len data) (off + count)).

(** [pwrite] extends the file with zeros up to the end of the write. *)
Definition pwrite (data : bytes) (off : Z) (payload : bytes) : bytes :=
  copy_into (data ++ make_bytes (off + len payload - len data)) off payload.

(** [ftruncate] cuts the file or extends it with zeros. *)
Definition ftruncate (data : bytes) (n : Z) : bytes :=
  slice data 0 (Z.min n (len data)) ++ make_bytes (n - len data).

Lemma len_make_max n : len (make_bytes n) = Z.max 0 n.
Proof. unfold len, make_bytes. rewrite length_replicate. lia. Qed.

Lemma len_pwrite data off payload :
  0 ≤ off → len (pwrite data off payload) = Z.max (len data) (off + len payload).
Proof.
  intros. pose proof (len_nonneg data). pose proof (len_nonneg payload). unfold pwrite.
  rewrite len_copy_into; rewrite ?len_app, ?len_make_max; lia.
Qed.

Lemma get_pwrite data off payload j : 0 ≤ off → 0 ≤ j →
  get (pwrite data off payload) j =
    if decide (off ≤ j < off + len payload) then get payload (j - off) else get data j.
Proof.
  intros. pose proof (len_nonneg data). pose proof (len_nonneg payload). unfold pwrite.
  rewrite get_copy_into by (rewrite ?len_app, ?len_make_max; lia). case_decide; [done|].
  rewrite get_app by lia. case_decide; [done|]. by rewrite get_make, get_out by lia.
Qed.

Lemma len_ftruncate data n : 0 ≤ n → len (ftruncate data n) = n.
Proof.
  intros. pose proof (len_nonneg data). unfold ftruncate.
  rewrite len_app, len_make_max, len_slice; lia.
Qed.

Lemma get_ftruncate data n j : 0 ≤ n → 0 ≤ j →
  get (ftruncate data n) j = if decide (j < n) then get data j else x00.
Proof.
  intros. pose proof (len_nonneg data). unfold ftruncate. rewrite get_app by lia.
  rewrite len_slice, get_slice, get_make by lia.
  repeat case_decide; try lia; try done. by rewrite get_out by lia.
Qed.

(** ** Array routines against the flat operations *)

Lemma repr_loadArray a size data : size ≤ MaxArraySize → repr a size data → loadArray a size = data.
Proof.
  intros Hm (Hwf & -> & Hg). pose proof (len_nonneg data).
  destruct (loadArray_spec a (len data) Hwf) as [Hl Hget]; [done|].
  apply bytes_ext; [done|]. intros j Hj. rewrite Hl in Hj. rewrite Hget by done. apply Hg. lia.
Qed.

Lemma repr_readArrayRange a size data s e :
  size ≤ MaxArraySize → repr a size data → 0 ≤ s < e → e ≤ size → readArrayRange a s e = slice data s e.
Proof.
  intros Hm (Hwf & -> & Hg) Hs He. destruct (readArrayRange_spec a s e Hwf Hs ltac:(lia)) as [Hl Hget].
  apply bytes_ext; [rewrite len_slice; lia|]. intros j Hj. rewrite Hl in Hj.
  rewrite Hget, get_slice, decide_True by lia. apply Hg. lia.
Qed.

Lemma byte_at_get a k j : 0 ≤ j < 4096 →
  byte_at a (k * 4096 + j) = get (default [] (ar_get a k)) j.
Proof.
  intros Hj. unfold byte_at, ArrayChunkBytes.
  assert ((k * 4096 + j) / 4096 = k) as -> by lia. f_equal. lia.
Qed.

Lemma repr_writeArrayRange a size data off payload :
  repr a size data → 0 ≤ off → 0 < len payload → off + len payload ≤ MaxArraySize →
  repr (writeArrayRange a off payload) (Z.max size (off + len payload)) (pwrite data off payload).
Proof.
  intros (Hwf & -> & Hg) Ho Hp Hm.
  split_and!; [|symmetry; by apply len_pwrite|].
  - intros i c. by apply writeArrayRange_get.
  - intros j Hj. rewrite get_pwrite by done.
    replace j with (j / 4096 * 4096 + j mod 4096) at 1 by lia.
    rewrite byte_at_get by lia.
    rewrite (proj2 (writeArrayRange_get a off payload (j / 4096) Hwf Ho Hp Hm)) by lia.
    replace (j / 4096 * 4096 + j mod 4096) with j by lia. case_decide; [done|].
    rewrite <- byte_at_get by lia. replace (j / 4096 * 4096 + j mod 4096) with j by lia. by apply Hg.
Qed.

Lemma repr_empty : repr (ar_empty : arr) 0 [].
Proof.
  split_and!; [intros i c; by rewrite ar_get_empty|done|].
  intros j Hj. unfold byte_at, ArrayChunkBytes. rewrite ar_get_empty. rewrite !get_out by (unfold len; simpl; lia). done.
Qed.

Lemma repr_truncateArray a size data n :
  size ≤ MaxArraySize → repr a size data → 0 ≤ n → repr (truncateArray a size n) n (ftruncate data n).
Proof.
  intros Hm (Hwf & Hsz & Hg) Hn. pose proof (len_nonneg data).
  destruct (decide (0 < n < size)) as [Hlt|Hge].
  - destruct (truncateArray_cleared a size n Hwf Hlt Hm) as [Hwf' Hc].
    split_and!; [done|by rewrite len_ftruncate|]. intros j Hj. rewrite get_ftruncate by done.
    replace j with (j / 4096 * 4096 + j mod 4096) at 1 by lia.
    rewrite byte_at_get, Hc by lia. rewrite <- byte_at_get by lia.
    replace (j / 4096 * 4096 + j mod 4096) with j by lia. rewrite chunkCountForSize_pos by lia.
    rewrite Hg by done. repeat case_decide; try lia; try done. rewrite get_out by lia. done.
  - assert (truncateArray a size n = if (n =? 0) && negb (n =? size) then ar_empty else a) as ->.
    { unfold truncateArray. destruct (n =? size) eqn:E1; destruct (n =? 0) eqn:E2; try done.
      simpl. by replace (size <? n) with true by lia. }
    split_and!; [|by rewrite len_ftruncate|].
    + case_match; [intros i c; by rewrite ar_get_empty|done].
    + intros j Hj. rewrite get_ftruncate by done. case_match.
      * rewrite decide_False by lia. unfold byte_at, ArrayChunkBytes. rewrite ar_get_empty. apply get_out.
        unfold len. simpl. lia.
      * rewrite Hg by done. case_decide; [done|]. apply get_out. lia.
Qed.

(** ** Content keys *)

(** A content key holds [data] under the storage kind [ref]. *)
Definition cell_repr (ref : string) (c : cell arr) (size : Z) (data : bytes) : Prop :=
  if bool_decide (TrimSpace ref = RefArray) then
    match c with
    | CellNone => repr ar_empty size data
    | CellArr a => repr a size data
    | CellStr _ => False
    end
  else size = len data ∧ (c = CellStr data ∨ c = CellNone ∧ data = []).

(** The storage kinds the code knows. *)
Definition knownRef (ref : string) : bool :=
  bool_decide (TrimSpace ref ∈ [EmptyString; RefExternal; RefArray]).

Lemma knownRef_array ref : TrimSpace ref = RefArray → knownRef ref = true.
Proof. intros E. unfold knownRef. rewrite E. reflexivity. Qed.

Lemma knownRef_cases ref : knownRef ref = true →
  (TrimSpace ref = RefArray ∧ bool_decide (TrimSpace ref = EmptyString ∨ TrimSpace ref = RefExternal) = false) ∨
  (bool_decide (TrimSpace ref = RefArray) = false ∧ (TrimSpace ref = EmptyString ∨ TrimSpace ref = RefExternal)).
Proof.
  unfold knownRef. rewrite bool_decide_eq_true, !elem_of_cons.
  intros [E|[E|[E|E]]]; [right|right|left|by apply elem_of_nil in E]; rewrite E; eauto.
Qed.

Lemma Load_repr ref c size data :
  knownRef ref = true → size ≤ MaxArraySize → cell_repr ref c size data → Load true c ref size = Ok data.
Proof.
  unfold Load, cell_repr. cbv zeta. intros [[E E2]|[E E2]]%knownRef_cases Hm.
  - rewrite E2, E. rewrite !bool_decide_eq_true_2 by done.
    destruct c as [|v|a]; [|done|]; intros Hr; pose proof (proj1 (proj2 Hr)) as Hs;
      pose proof (len_nonneg data) as Hn; destruct (size <=? 0) eqn:E0.
    1,3: destruct data; [done|unfold len in *; simpl in *; lia].
    all: f_equal; by apply repr_loadArray.
  - rewrite E, (bool_decide_eq_true_2 (_ ∨ _)) by done.
    intros [-> [->|[-> ->]]]; done.
Qed.

Lemma QueueWriteFull_repr ref data : cell_repr ref (QueueWriteFull ref data) (len data) data.
Proof.
  unfold cell_repr, QueueWriteFull. case_bool_decide; [|by auto].
  destruct data; [apply repr_empty|apply queueArrayWriteFull_repr].
Qed.

(** ** Sequences of range operations on an array key *)

Inductive rangeOp :=
| OpWrite (off : Z) (payload : bytes)
| OpTruncate (size : Z).

(** The client keeps the size beside the key; a write moves it to the end of
    the write when that lies past the end of the file. *)
Definition run_op (st : cell arr * Z) (op : rangeOp) : result contentError (cell arr * Z) :=
  let '(c, size) := st in
  match op with
  | OpWrite off payload =>
      result_bind (WriteRange true c off payload) (λ c',
        Ok (c', match payload with [] => size | _ => Z.max size (off + len payload) end))
  | OpTruncate n => result_bind (Truncate true c size n) (λ c', Ok (c', n))
  end.

Fixpoint run_ops (st : cell arr * Z) (ops : list rangeOp) : result contentError (cell arr * Z) :=
  match ops with
  | [] => Ok st
  | op :: ops' => result_bind (run_op st op) (λ st', run_ops st' ops')
  end.

Definition flat_op (data : bytes) (op : rangeOp) : bytes :=
  match op with
  | OpWrite _ [] => data
  | OpWrite off payload => pwrite data off payload
  | OpTruncate n => ftruncate data n
  end.

Definition op_ok (op : rangeOp) : Prop :=
  match op with
  | OpWrite off payload => 0 ≤ off ∧ off + len payload ≤ MaxArraySize
  | OpTruncate n => 0 ≤ n ≤ MaxArraySize
  end.

Lemma WriteRange_repr c size data off payload :
  cell_repr RefArray c size data → 0 ≤ off → 0 < len payload → off + len payload ≤ MaxArraySize →
  ∃ c', WriteRange true c off payload = Ok c' ∧
        cell_repr RefArray c' (Z.max size (off + len payload)) (pwrite data off payload).
Proof.
  intros Hr Ho Hp Hm. unfold WriteRange. replace (off <? 0) with false by lia.
  destruct payload as [|b payload]; [done|]. cbn in Hr.
  destruct c as [|v|a]; [|done|]; eexists; (split; [done|]); by apply repr_writeArrayRange.
Qed.

(** An absent key stands for zeros only. *)
Lemma repr_empty_ftruncate size data n :
  repr (ar_empty : arr) size data → 0 ≤ n → repr (ar_empty : arr) n (ftruncate data n).
Proof.
  intros (Hwf & _ & Hg) Hn. split_and!; [done|by rewrite len_ftruncate|].
  intros j Hj. rewrite get_ftruncate, <- Hg by done. case_decide; [done|].
  unfold byte_at. rewrite ar_get_empty. apply get_out.
  unfold ArrayChunkBytes, len. simpl. lia.
Qed.

Lemma Truncate_repr c size data n : size ≤ MaxArraySize →
  cell_repr RefArray c size data → 0 ≤ n →
  ∃ c', Truncate true c size n = Ok c' ∧ cell_repr RefArray c' n (ftruncate data n).
Proof.
  intros Hm Hr Hn. unfold Truncate. replace (n <? 0) with false by lia.
  change (match c with CellNone => repr ar_empty size data | CellStr _ => False
                     | CellArr a => repr a size data end) in Hr.
  destruct c as [|v|a]; [|done|].
  - exists CellNone. split; [by destruct (n =? size), (n =? 0)|]. by apply (repr_empty_ftruncate size).
  - pose proof (repr_truncateArray a size data n Hm Hr Hn) as Ht. unfold truncateArray in Ht.
    destruct (n =? size) eqn:E1; [by eexists|].
    destruct (n =? 0) eqn:E2; [by eexists|].
    eexists. split; [done|]. unfold truncateArray. by rewrite E1, E2.
Qed.

Lemma run_ops_repr ops : ∀ c size data, size ≤ MaxArraySize →
  cell_repr RefArray c size data → Forall op_ok ops →
  ∃ c', run_ops (c, size) ops = Ok (c', len (foldl flat_op data ops)) ∧
        len (foldl flat_op data ops) ≤ MaxArraySize ∧
        cell_repr RefArray c' (len (foldl flat_op data ops)) (foldl flat_op data ops).
Proof.
  induction ops as [|op ops IH]; intros c size data Hm Hr; [|rewrite Forall_cons; intros [Hok Hops]].
  - intros _. assert (size = len data) as ->; [|simpl; by eauto].
    by destruct c; [destruct Hr as (_ & ? & _)| |destruct Hr as (_ & ? & _)].
  - assert (∃ c1, run_op (c, size) op = Ok (c1, len (flat_op data op)) ∧
              len (flat_op data op) ≤ MaxArraySize ∧ cell_repr RefArray c1 (len (flat_op data op)) (flat_op data op)) as (c1 & E & Hm1 & Hr1).
    { assert (size = len data) as -> by
        by destruct c; [destruct Hr as (_ & ? & _)| |destruct Hr as (_ & ? & _)].
      destruct op as [off payload|n]; simpl in *.
      - destruct Hok. destruct payload as [|b payload].
        + exists c. unfold WriteRange. by replace (off <? 0) with false by lia.
        + destruct (WriteRange_repr c (len data) data off (b :: payload)) as (c1 & -> & Hc1);
            [done..|unfold len; simpl; lia|done|].
          rewrite len_pwrite by done. exists c1. split_and!; [done|lia|done].
      - destruct (Truncate_repr c (len data) data n) as (c1 & -> & Hc1); [done|done|lia|].
        rewrite len_ftruncate by lia. exists c1. split_and!; [done|lia|done]. }
    cbn [run_ops foldl]. rewrite E. cbn [result_bind]. by apply IH.
Qed.

Lemma GETRANGE_pread data off e :
  0 ≤ off < e → e ≤ len data → GETRANGE data off (e - 1) = slice data off e.
Proof.
  intros. unfold GETRANGE. cbv zeta. replace (off <? 0) with false by lia.
  replace (e - 1 <? 0) with false by lia. rewrite (Z.max_r 0 off) by lia.
  rewrite (Z.max_r 0 (e - 1)), (Z.min_r _ (e - 1)) by lia.
  replace (len data =? 0) with false by lia. replace (e - 1 <? off) with false by lia.
  simpl. f_equal. lia.
Qed.

Lemma pread_nil data off count : (count ≤ 0 ∨ len data ≤ off) → 0 ≤ off → pread data off count = [].
Proof.
  intros H Ho. unfold pread, slice. destruct H.
  - replace (Z.to_nat (Z.min (len data) (off + count) - off)) with 0%nat by lia. done.
  - rewrite drop_ge by (unfold len in *; lia). by rewrite take_nil.
Qed.

Lemma ReadRange_repr ref c size data off count :
  knownRef ref = true → size ≤ MaxArraySize → cell_repr ref c size data → 0 ≤ off → off + count ≤ max_int64 →
  ReadRange true c ref size off count = Ok (pread data off count).
Proof.
  intros Hk Hs Hr Ho Hm. assert (size = len data) as ->.
  { unfold cell_repr in Hr. by case_bool_decide; [destruct c; [|done|]; destruct Hr as (_ & ? & _)|destruct Hr]. }
  unfold ReadRange. destruct ((count <=? 0) || (len data <=? off)) eqn:E0.
  { rewrite pread_nil; [done|lia..]. }
  replace (off <? 0) with false by lia. rewrite i64_small by (unfold max_int64 in *; lia). cbv zeta.
  replace (if len data <? off + count then len data else off + count)
    with (Z.min (len data) (off + count)) by (destruct (Z.ltb_spec (len data) (off + count)); lia).
  unfold pread. destruct (knownRef_cases ref Hk) as [[E E2]|[E E2]]; unfold cell_repr in Hr.
  - rewrite E2, E. rewrite E in Hr. rewrite !bool_decide_eq_true_2 in * by done.
    destruct c as [|v|a]; [|done|]; f_equal; (eapply repr_readArrayRange; [exact Hs|done|lia..]).
  - rewrite E in Hr. rewrite (bool_decide_eq_true_2 (_ ∨ _)) by done.
    destruct Hr as [_ [->|[-> ->]]].
    + f_equal. apply GETRANGE_pread; lia.
    + unfold len in *. simpl in *. lia.
Qed.

End Facts.

(** * A concrete server array *)

(** Finite maps satisfy the laws; the witnesses run on them. *)
Fixpoint map_set (s : Z) (vs : list bytes) (m : gmap Z bytes) : gmap Z bytes :=
  match vs with
  | [] => m
  | v :: vs' => <[s := v]> (map_set (s + 1) vs' m)
  end.

Lemma map_set_lookup vs : ∀ s (m : gmap Z bytes) i,
  map_set s vs m !! i =
    if decide (s ≤ i < s + Z.of_nat (length vs)) then vs !! Z.to_nat (i - s) else m !! i.
Proof.
  induction vs as [|v vs IH]; intros s m i; simpl.
  - by rewrite decide_False by lia.
  - rewrite lookup_insert, IH. repeat case_decide; try lia; subst; try done.
    + by rewrite Z.sub_diag.
    + by replace (Z.to_nat (i - s)) with (S (Z.to_nat (i - (s + 1)))) by lia.
Qed.

Definition map_del (s e : Z) (m : gmap Z bytes) : gmap Z bytes :=
  filter (λ kv, ¬ (s ≤ kv.1 ≤ e)) m.

Lemma map_del_lookup s e (m : gmap Z bytes) i :
  map_del s e m !! i = if decide (s ≤ i ≤ e) then None else m !! i.
Proof.
  unfold map_del. rewrite map_lookup_filter. destruct (m !! i); simpl; [|by case_decide].
  repeat case_guard; repeat case_decide; try done; simpl in *; tauto.
Qed.

#[export] Program Instance gmap_RedisArray : RedisArray (gmap Z bytes) := {
  ar_get m i := m !! i;
  ar_empty := ∅;
  ARSET := map_set;
  ARGETRANGE s e m := (λ i, m !! i) <$> seqZ s (e - s + 1);
  ARDELRANGE := map_del
}.
Next Obligation. intros. simpl. apply lookup_empty. Qed.
Next Obligation. intros. apply map_set_lookup. Qed.
Next Obligation. done. Qed.
Next Obligation. intros. apply map_del_lookup. Qed.

(** * Properties *)

(** A full write of any file, stored as a string or split into array
    chunks and sent in batches, is read back unchanged by [Load]. *)
Theorem write_full_load_roundtrip {arr} `{!RedisArray arr} (ref : string) (data : bytes) :
  knownRef ref = true → len data ≤ MaxArraySize →
  Load true (QueueWriteFull ref data : cell arr) ref (len data) = Ok data.
Proof. intros Hk Hm. apply Load_repr; [done..|apply QueueWriteFull_repr]. Qed.

Lemma write_full_load_roundtrip_witness :
  knownRef " array" = true ∧
  Load true (QueueWriteFull " array" [x01; x02] : cell (gmap Z bytes)) " array" 2 = Ok [x01; x02].
Proof.
  split; [reflexivity|].
  exact (write_full_load_roundtrip (arr := gmap Z bytes) " array" [x01; x02] eq_refl ltac:(done)).
Defined.

(** [ReadRange] on a key that holds [data] returns exactly the requested
    bytes, cut at the end of the file, for every offset and count whose sum
    fits an int64: chunk boundaries, short chunks and holes do not show. *)
Theorem read_range_is_pread {arr} `{!RedisArray arr} ref (c : cell arr) size data off count :
  knownRef ref = true → size ≤ MaxArraySize → cell_repr ref c size data → 0 ≤ off → off + count ≤ max_int64 →
  ReadRange true c ref size off count = Ok (pread data off count).
Proof. apply ReadRange_repr. Qed.

Lemma read_range_is_pread_witness :
  ReadRange true (QueueWriteFull "array" [x01; x02; x03] : cell (gmap Z bytes)) "array" 3 1 10
    = Ok [x02; x03].
Proof.
  apply (read_range_is_pread (arr := gmap Z bytes) "array" _ 3 [x01; x02; x03] 1 10).
  - reflexivity.
  - done.
  - apply (QueueWriteFull_repr "array" [x01; x02; x03]).
  - lia.
  - unfold max_int64. lia.
Defined.

(** C8: any sequence of range writes and truncations applied to an array file, with
    sizes up to [MaxArraySize], 4095 bytes below the end of int64, succeeds and leaves the key holding exactly what the same sequence of
    [pwrite] and [ftruncate] gives on a flat byte string, so that [Load] and
    [ReadRange] then return it: no stale byte survives a truncation that is
    later extended, and holes read as zeros. *)
Theorem range_ops_refine_flat_file {arr} `{!RedisArray arr} (data : bytes) (ops : list rangeOp) :
  len data ≤ MaxArraySize → Forall op_ok ops →
  ∃ c' : cell arr,
    run_ops (QueueWriteFull RefArray data, len data) ops = Ok (c', len (foldl flat_op data ops)) ∧
    Load true c' RefArray (len (foldl flat_op data ops)) = Ok (foldl flat_op data ops) ∧
    ∀ off count, 0 ≤ off → off + count ≤ max_int64 →
      ReadRange true c' RefArray (len (foldl flat_op data ops)) off count
        = Ok (pread (foldl flat_op data ops) off count).
Proof.
  intros Hm Hok. destruct (run_ops_repr ops _ _ data Hm (QueueWriteFull_repr RefArray data) Hok)
    as (c' & E & Hm' & Hr). exists c'. split_and!; [done|by apply Load_repr|].
  intros. by apply ReadRange_repr.
Qed.

Lemma range_ops_refine_flat_file_witness :
  ∃ c' : cell (gmap Z bytes),
    run_ops (QueueWriteFull RefArray [x01; x02; x03], 3) [OpTruncate 1; OpWrite 2 [x05]]
      = Ok (c', 3) ∧
    Load true c' RefArray 3 = Ok [x01; x00; x05].
Proof.
  destruct (range_ops_refine_flat_file (arr := gmap Z bytes) [x01; x02; x03]
              [OpTruncate 1; OpWrite 2 [x05]]) as (c' & H1 & H2 & _).
  - done.
  - rewrite !Forall_cons. unfold op_ok, MaxArraySize, max_int64, ArrayChunkBytes, len. simpl. split_and!; try lia. done.
  - exists c'. split; [exact H1|exact H2].
Defined.

(** Above [MaxArraySize] the chunk count wraps to a negative number: a truncation down
    from there deletes no chunk, and a byte behind the cut comes back when the file
    grows again.  The accounting of the client's publications keeps files far below. *)
Example truncate_from_above_keeps_tail :
  match run_ops (QueueWriteFull RefArray [] : cell (gmap Z bytes), 0)
          [OpWrite 8192 [x07]; OpTruncate max_int64; OpTruncate 5; OpTruncate 10000] with
  | Ok (c, size) => ReadRange true c RefArray size 8192 1 = Ok [x07]
  | Err _ => False
  end.
Proof. by vm_compute. Qed.
