(* ===== verification/Paths.v ===== *)
(** Workspace paths and Redis key names (mount/internal/client/keys.go and the
    path helpers of mount/internal/client/native_helpers.go).

    [Clean], [Join], [Dir] and [Base] are Go's package [path]; the helpers of
    the client are written on top of them as in the source.  An absolute,
    cleaned path is the image [abs] of a list of components; the lemmas show
    that every helper is the expected list operation on components, and that
    [normalizePath] always ends in such a path. *)
From S2P Require Import Prelude.
#[local] Open Scope string_scope.
#[local] Open Scope list_scope.

(** * Package [strings] *)

Definition slash : ascii := "/".

(** [strings.Split(s, sep)] for a one-byte separator. *)
Fixpoint Split (s : string) (sep : ascii) : list string :=
  match s with
  | EmptyString => [EmptyString]
  | String c s' =>
      if Ascii.eqb c sep then EmptyString :: Split s' sep
      else match Split s' sep with
           | [] => [String c EmptyString]
           | w :: ws => String c w :: ws
           end
  end.

(** [strings.Join(l, sep)]. *)
Fixpoint JoinWith (sep : string) (l : list string) : string :=
  match l with
  | [] => EmptyString
  | [w] => w
  | w :: ws => w +:+ sep +:+ JoinWith sep ws
  end.

Definition TrimPrefix (s p : string) : string :=
  if HasPrefix s p then String.substring (String.length p) (String.length s - String.length p) s else s.

Definition TrimSuffix1 (s : string) (c : ascii) : string :=
  match rev (String.list_ascii_of_string s) with
  | d :: r => if Ascii.eqb d c then String.string_of_list_ascii (rev r) else s
  | [] => s
  end.

(** [strings.Trim(s, "/")]. *)
Fixpoint trim_slashes_left (s : string) : string :=
  match s with
  | String c s' => if Ascii.eqb c slash then trim_slashes_left s' else s
  | EmptyString => EmptyString
  end.

Definition TrimSlashes (s : string) : string :=
  String.rev (trim_slashes_left (String.rev (trim_slashes_left s))).

(** [strings.Count(s, "/")]. *)
Fixpoint CountSlash (s : string) : nat :=
  match s with
  | EmptyString => O
  | String c s' => if Ascii.eqb c slash then S (CountSlash s') else CountSlash s'
  end.

Lemma CountSlash_app a b : CountSlash (a +:+ b) = (CountSlash a + CountSlash b)%nat.
Proof. induction a as [|c a IH]; simpl; [done|]. rewrite IH. by case_match. Qed.

(** * Package [path] *)

(** One component of the lexical processing of [path.Clean], on the stack of
    components kept so far (last one first). *)
Definition clean_step (rooted : bool) (stack : list string) (w : string) : list string :=
  if bool_decide (w = "" ∨ w = ".") then stack
  else if bool_decide (w = "..") then
    match stack with
    | [] => if rooted then [] else [".."]
    | top :: rest => if bool_decide (top = "..") then ".." :: stack else rest
    end
  else w :: stack.

Definition clean_components (rooted : bool) (ws : list string) : list string :=
  rev (foldl (clean_step rooted) [] ws).

(** [path.Clean]. *)
Definition Clean (p : string) : string :=
  if bool_decide (p = "") then "."
  else
    let rooted := HasPrefix p "/" in
    let out := JoinWith "/" (clean_components rooted (Split p slash)) in
    if rooted then "/" +:+ out
    else if bool_decide (out = "") then "." else out.

(** [path.Join(a, b)]: empty elements are ignored. *)
Definition PathJoin (a b : string) : string :=
  match filter (λ w, w ≠ "") [a; b] with
  | [] => ""
  | ws => Clean (JoinWith "/" ws)
  end.

(** The text up to and including the last slash, and the text after it. *)
Definition split_last (p : string) : string * string :=
  let ws := Split p slash in
  match rev ws with
  | [] => ("", "")
  | base :: before =>
      (match before with [] => "" | _ => JoinWith "/" (rev before) +:+ "/" end, base)
  end.

(** [path.Dir]. *)
Definition Dir (p : string) : string := Clean (fst (split_last p)).

(** [path.Base]: trailing slashes are removed first. *)
Definition Base (p : string) : string :=
  if bool_decide (p = "") then "."
  else
    match filter (λ w, w ≠ "") (rev (Split p slash)) with
    | [] => "/"
    | w :: _ => w
    end.

(** * The client's helpers *)

Definition normalizePath (p : string) : string :=
  if bool_decide (p = "") then "/"
  else
    let p := if HasPrefix p "/" then p else "/" +:+ p in
    let clean := Clean p in
    if bool_decide (clean = ".") then "/" else clean.

Definition splitComponents (p : string) : list string :=
  if bool_decide (p = "/") then [] else Split (TrimPrefix p "/") slash.

Definition joinPath (parent child : string) : string :=
  if bool_decide (parent = "/") then "/" +:+ child else parent +:+ "/" +:+ child.

Definition parentOf (p : string) : string :=
  if bool_decide (p = "/") then "/"
  else let parent := Dir p in if bool_decide (parent = ".") then "/" else parent.

Definition baseName (p : string) : string :=
  if bool_decide (p = "/") then "" else Base p.

(** The loop of [indexedPathAncestors]: [current] grows by one component. *)
Fixpoint ancestors_loop (current : string) (parts : list string) : list string :=
  match parts with
  | [] => []
  | part :: rest =>
      if bool_decide (part = "") then ancestors_loop current rest
      else let current' := current +:+ "/" +:+ part in current' :: ancestors_loop current' rest
  end.

Definition indexedPathAncestors (path : string) : string :=
  let trimmed := TrimSpace path in
  if bool_decide (trimmed = "" ∨ trimmed = "/") then "/"
  else
    let trimmed := TrimSuffix1 trimmed slash in
    match ancestors_loop "" (Split (TrimPrefix trimmed "/") slash) with
    | [] => "/"
    | ancestors => JoinWith "," ancestors
    end.

(** [uniqueStrings]: first occurrences, empty strings dropped. *)
Fixpoint unique_loop (seen : list string) (values : list string) : list string :=
  match values with
  | [] => []
  | v :: vs =>
      if bool_decide (v = "") then unique_loop seen vs
      else if bool_decide (v ∈ seen) then unique_loop seen vs
      else v :: unique_loop (v :: seen) vs
  end.

Definition uniqueStrings (values : list string) : list string := unique_loop [] values.

Definition encodeChunkHashes (hashes : list string) : string :=
  match hashes with [] => "" | _ => JoinWith "," hashes end.

Definition decodeChunkHashes (s : string) : list string :=
  if bool_decide (s = "") then [] else Split s ",".

(** ** Key names *)

Inductive fsKeyName :=
| KInode (id : string)
| KDirents (id : string)
| KInfo
| KNextInode
| KRootDirty
| KContent (id : string)
| KInvalidate
| KChanges
| KGeneration
| KSession (id : string)
| KLocks (id : string).

(** The methods of [keyBuilder]. *)
Definition key (fsKey : string) (k : fsKeyName) : string :=
  "afs:{" +:+ fsKey +:+ "}:" +:+
  match k with
  | KInode id => "inode:" +:+ id
  | KDirents id => "dirents:" +:+ id
  | KInfo => "info"
  | KNextInode => "next_inode"
  | KRootDirty => "root_dirty"
  | KContent id => "content:" +:+ id
  | KInvalidate => "invalidate"
  | KChanges => "changes"
  | KGeneration => "generation"
  | KSession id => "session:" +:+ id
  | KLocks id => "locks:" +:+ id
  end.

(** * Facts *)

#[local] Arguments String.append : simpl nomatch.

(** ** Strings *)

Lemma string_app_assoc (a b c : string) : (a +:+ b) +:+ c = a +:+ (b +:+ c).
Proof. induction a; simpl; congruence. Qed.

Lemma string_app_nil (a : string) : a +:+ "" = a.
Proof. induction a; simpl; congruence. Qed.

Lemma string_app_inj_l (a b c : string) : a +:+ b = a +:+ c → b = c.
Proof. induction a; simpl; [done|]. intros [= ?]. auto. Qed.

Lemma prefix_app (a b : string) : String.prefix a (a +:+ b) = true.
Proof.
  induction a as [|c a IH]; simpl; [by destruct b|]. by destruct (ascii_dec c c).
Qed.

Lemma prefix_spec (a s : string) : String.prefix a s = true → ∃ t, s = a +:+ t.
Proof.
  revert s. induction a as [|c a IH]; intros s; [by exists s|].
  destruct s as [|d s]; [done|]. cbn [String.prefix]. destruct (ascii_dec c d) as [->|]; [|done].
  intros [t ->]%IH. by exists t.
Qed.

Lemma substring_all (s : string) : String.substring 0 (String.length s) s = s.
Proof. induction s; simpl; congruence. Qed.

Lemma substring_skip (a s : string) n :
  String.substring (String.length a) n (a +:+ s) = String.substring 0 n s.
Proof. induction a; simpl; [done|]. by destruct n. Qed.

Lemma length_sapp (a b : string) :
  String.length (a +:+ b) = (String.length a + String.length b)%nat.
Proof. induction a; simpl; congruence. Qed.

Lemma TrimPrefix_app (a s : string) : TrimPrefix (a +:+ s) a = s.
Proof.
  unfold TrimPrefix, HasPrefix. rewrite prefix_app, length_sapp, substring_skip.
  replace (String.length a + String.length s - String.length a)%nat with (String.length s) by lia.
  apply substring_all.
Qed.

(** ** Splitting and joining *)

(** The byte [c] does not occur in [s]. *)
Fixpoint no_char (c : ascii) (s : string) : bool :=
  match s with
  | EmptyString => true
  | String d s' => negb (Ascii.eqb d c) && no_char c s'
  end.

Lemma no_char_app c a b : no_char c (a +:+ b) = no_char c a && no_char c b.
Proof. induction a; simpl; [done|]. rewrite IHa. by rewrite andb_assoc. Qed.

Lemma Split_no_char s c : no_char c s = true → Split s c = [s].
Proof.
  induction s as [|d s IH]; simpl; [done|]. intros [Hd Hs]%andb_true_iff.
  apply negb_true_iff in Hd. rewrite Hd, IH; done.
Qed.

Lemma Split_cons w s c : no_char c w = true → Split (w +:+ String c s) c = w :: Split s c.
Proof.
  induction w as [|d w IH]; simpl; [by rewrite Ascii.eqb_refl|].
  intros [Hd Hs]%andb_true_iff. apply negb_true_iff in Hd. rewrite Hd, IH; done.
Qed.

Lemma Split_Join ws c :
  ws ≠ [] → Forall (λ w, no_char c w = true) ws → Split (JoinWith (String c "") ws) c = ws.
Proof.
  induction ws as [|w ws IH]; [done|]. intros _ [Hw Hws]%Forall_cons.
  destruct ws as [|v ws]; [by apply Split_no_char|].
  change (JoinWith (String c "") (w :: v :: ws)) with
    (w +:+ String c (JoinWith (String c "") (v :: ws))).
  rewrite Split_cons by done. by rewrite IH.
Qed.

Lemma Split_no_char_all s c : Forall (λ w, no_char c w = true) (Split s c).
Proof.
  induction s as [|d s IH]; simpl; [by repeat constructor|].
  destruct (Ascii.eqb d c) eqn:E; [by constructor|].
  destruct (Split s c) as [|w ws]; [by repeat constructor; simpl; rewrite E|].
  apply Forall_cons in IH as [Hw Hws]. constructor; [|done]. simpl. by rewrite E, Hw.
Qed.

Lemma Join_Split s c : JoinWith (String c "") (Split s c) = s.
Proof.
  induction s as [|d s IH]; [done|]. simpl. destruct (Ascii.eqb_spec d c) as [->|].
  - destruct (Split s c) as [|w ws] eqn:E; [destruct s; simpl in E; repeat case_match; done|].
    change (JoinWith (String c "") ("" :: w :: ws)) with (String c (JoinWith (String c "") (w :: ws))).
    by rewrite IH.
  - destruct (Split s c) as [|w ws] eqn:E; [destruct s; simpl in E; repeat case_match; done|].
    destruct ws; simpl in *; by rewrite IH.
Qed.

(** ** Canonical paths *)

(** The names a directory entry may have. *)
Definition valid_name (w : string) : bool :=
  bool_decide (w ≠ "") && bool_decide (w ≠ ".") && bool_decide (w ≠ "..") && no_char slash w.

Definition valid_names (ws : list string) : Prop := Forall (λ w, valid_name w = true) ws.

(** The absolute path with the given components. *)
Definition abs (ws : list string) : string := "/" +:+ JoinWith "/" ws.

Lemma valid_no_slash ws : valid_names ws → Forall (λ w, no_char slash w = true) ws.
Proof.
  intros H. eapply Forall_impl; [exact H|]. intros w Hw. unfold valid_name in Hw. by bools.
Qed.

Lemma clean_step_valid stack w :
  no_char slash w = true → valid_names stack → valid_names (clean_step true stack w).
Proof.
  intros Hw Hs. unfold clean_step. repeat case_bool_decide.
  - done.
  - destruct stack as [|top rest]; [constructor|]. apply Forall_cons in Hs as [Ht Hr].
    case_bool_decide; [|done]. subst top. done.
  - constructor; [|done]. unfold valid_name. rewrite !bool_decide_eq_true_2 by naive_solver. done.
Qed.

Lemma clean_components_valid ws :
  Forall (λ w, no_char slash w = true) ws → valid_names (clean_components true ws).
Proof.
  unfold clean_components. intros H. unfold valid_names. apply Forall_rev.
  assert (valid_names []) as Hacc by constructor. revert Hacc. generalize (@nil string) as acc.
  induction H as [|w ws Hw _ IH]; intros acc Hacc; simpl; [done|]. by apply IH, clean_step_valid.
Qed.

Lemma clean_components_id rooted ws : valid_names ws → clean_components rooted ws = ws.
Proof.
  unfold clean_components. intros H.
  assert (∀ acc, foldl (clean_step rooted) acc ws = rev ws ++ acc) as ->.
  { induction H as [|w ws Hw _ IH]; intros acc; simpl; [done|]. rewrite IH.
    rewrite <- app_assoc. f_equal. simpl. unfold valid_name in Hw. bools.
    unfold clean_step. rewrite bool_decide_eq_false_2 by naive_solver.
    by rewrite bool_decide_eq_false_2 by naive_solver. }
  by rewrite app_nil_r, rev_involutive.
Qed.

Lemma clean_step_empty rooted ws :
  foldl (clean_step rooted) [] ("" :: ws) = foldl (clean_step rooted) [] ws.
Proof. reflexivity. Qed.

(** [Clean] of a path that starts with a slash. *)
Lemma Clean_slash p :
  Clean ("/" +:+ p) = "/" +:+ JoinWith "/" (clean_components true (Split p slash)).
Proof.
  unfold Clean. rewrite bool_decide_eq_false_2 by done.
  assert (HasPrefix ("/" +:+ p) "/" = true) as -> by apply (prefix_app "/").
  reflexivity.
Qed.

Lemma Clean_abs ws : valid_names ws → Clean (abs ws) = abs ws.
Proof.
  intros H. unfold abs. rewrite Clean_slash. do 2 f_equal.
  destruct ws as [|w ws]; [done|].
  rewrite Split_Join; [by apply clean_components_id|done|by apply valid_no_slash].
Qed.

Lemma abs_not_dot ws : abs ws ≠ ".".
Proof. done. Qed.

(** Every normalized path is canonical. *)
Lemma normalizePath_abs p : ∃ ws, valid_names ws ∧ normalizePath p = abs ws.
Proof.
  unfold normalizePath. case_bool_decide; [exists []; split; [constructor|done]|].
  assert (∃ q, (if HasPrefix p "/" then p else "/" +:+ p) = "/" +:+ q) as [q ->].
  { destruct (HasPrefix p "/") eqn:E; [|by exists p]. apply prefix_spec in E as [t ->]. by exists t. }
  cbv zeta. rewrite Clean_slash. exists (clean_components true (Split q slash)).
  split; [apply clean_components_valid, Split_no_char_all|].
  by rewrite bool_decide_eq_false_2 by done.
Qed.

Lemma normalizePath_canonical ws : valid_names ws → normalizePath (abs ws) = abs ws.
Proof.
  intros H. unfold normalizePath. rewrite bool_decide_eq_false_2 by done.
  assert (HasPrefix (abs ws) "/" = true) as -> by apply (prefix_app "/").
  rewrite Clean_abs by done. by rewrite bool_decide_eq_false_2.
Qed.

Lemma JoinWith_valid_ne ws : ws ≠ [] → valid_names ws → JoinWith "/" ws ≠ "".
Proof.
  destruct ws as [|w ws]; [done|]. intros _ [Hw _]%Forall_cons.
  unfold valid_name in Hw. bools. destruct w as [|c w]; [done|]. by destruct ws.
Qed.

Lemma abs_root ws : valid_names ws → abs ws = "/" ↔ ws = [].
Proof.
  intros Hv. split; [|by intros ->]. intros E. apply (string_app_inj_l "/" _ "") in E.
  destruct ws; [done|]. by apply JoinWith_valid_ne in E.
Qed.

Lemma splitComponents_abs ws : valid_names ws → splitComponents (abs ws) = ws.
Proof.
  intros Hv. unfold splitComponents. case_bool_decide as E.
  - apply abs_root in E; [by subst|done].
  - unfold abs. rewrite TrimPrefix_app. apply Split_Join.
    + intros ->. done.
    + by apply valid_no_slash.
Qed.

Lemma abs_inj ws vs : valid_names ws → valid_names vs → abs ws = abs vs → ws = vs.
Proof.
  intros Hw Hv E. rewrite <- (splitComponents_abs ws), <- (splitComponents_abs vs) by done.
  by rewrite E.
Qed.

Lemma JoinWith_app sep ws vs : ws ≠ [] → vs ≠ [] →
  JoinWith sep (ws ++ vs) = JoinWith sep ws +:+ sep +:+ JoinWith sep vs.
Proof.
  intros Hw Hv. induction ws as [|w ws IH]; [done|]. destruct ws as [|w' ws].
  - by destruct vs.
  - cbn [app JoinWith]. cbn [app JoinWith] in IH. rewrite IH by done.
    by rewrite !string_app_assoc.
Qed.

Lemma joinPath_abs ws w : valid_names ws → joinPath (abs ws) w = abs (ws ++ [w]).
Proof.
  intros Hv. unfold joinPath. case_bool_decide as E.
  - apply abs_root in E; [by subst|done].
  - unfold abs. rewrite JoinWith_app; [by rewrite string_app_assoc| |done].
    intros ->. done.
Qed.

Lemma Split_abs ws : ws ≠ [] → valid_names ws → Split (abs ws) slash = "" :: ws.
Proof.
  intros Hne Hv. unfold abs. simpl. by rewrite Split_Join; [|done|apply valid_no_slash].
Qed.

Lemma split_last_abs ws w : valid_names (ws ++ [w]) →
  split_last (abs (ws ++ [w])) = (JoinWith "/" ("" :: ws) +:+ "/", w).
Proof.
  intros Hv. unfold split_last. rewrite Split_abs by (done || by destruct ws).
  cbn [rev]. rewrite rev_app_distr. cbn [rev app].
  f_equal. rewrite rev_app_distr, rev_involutive. by destruct (rev ws).
Qed.

Lemma Clean_trailing ws : ws ≠ [] → valid_names ws → Clean (abs ws +:+ "/") = abs ws.
Proof.
  intros Hne Hv. unfold abs. rewrite string_app_assoc, Clean_slash. do 2 f_equal.
  assert (JoinWith "/" ws +:+ "/" = JoinWith "/" (ws ++ [""])) as ->.
  { by rewrite JoinWith_app. }
  rewrite (Split_Join _ slash).
  - unfold clean_components. rewrite foldl_app. by apply (clean_components_id true ws).
  - by destruct ws.
  - apply Forall_app. split; [by apply valid_no_slash|by repeat constructor].
Qed.

Lemma parentOf_snoc ws w : valid_names (ws ++ [w]) → parentOf (abs (ws ++ [w])) = abs ws.
Proof.
  intros Hv. unfold parentOf. rewrite bool_decide_eq_false_2.
  2:{ rewrite abs_root by done. by destruct ws. }
  unfold Dir. rewrite split_last_abs by done. cbn [fst].
  apply Forall_app in Hv as [Hv _]. destruct ws as [|v ws]; [done|].
  change (JoinWith "/" ("" :: v :: ws)) with (abs (v :: ws)).
  rewrite Clean_trailing by done. by rewrite bool_decide_eq_false_2.
Qed.

Lemma baseName_snoc ws w : valid_names (ws ++ [w]) → baseName (abs (ws ++ [w])) = w.
Proof.
  intros Hv. unfold baseName. rewrite bool_decide_eq_false_2.
  2:{ rewrite abs_root by done. by destruct ws. }
  unfold Base. rewrite bool_decide_eq_false_2 by done.
  rewrite Split_abs by (done || by destruct ws).
  apply Forall_app in Hv as [_ [Hw _]%Forall_cons]. cbn [rev]. rewrite rev_app_distr. simpl.
  rewrite filter_cons_True; [done|]. unfold valid_name in Hw. by bools.
Qed.

Lemma valid_names_app ws vs : valid_names (ws ++ vs) ↔ valid_names ws ∧ valid_names vs.
Proof. apply Forall_app. Qed.

(** The test [strings.HasPrefix(dst, src + "/")] of [Rename] is "strictly below
    [src]" on components. *)
Lemma HasPrefix_below ws vs : ws ≠ [] → valid_names ws → valid_names vs →
  HasPrefix (abs vs) (abs ws +:+ "/") = true ↔ ∃ us, us ≠ [] ∧ vs = ws ++ us.
Proof.
  intros Hne Hw Hv. unfold HasPrefix. split.
  - intros [t Ht]%prefix_spec. rewrite string_app_assoc in Ht.
    assert (vs ≠ []) as Hvs.
    { intros ->. unfold abs in Ht. apply (string_app_inj_l "/" "") in Ht.
      destruct (JoinWith "/" ws) eqn:E; [by apply JoinWith_valid_ne in E|done]. }
    apply (f_equal splitComponents) in Ht. rewrite splitComponents_abs in Ht by done.
    unfold splitComponents in Ht. rewrite bool_decide_eq_false_2 in Ht.
    2:{ unfold abs. intros E%(string_app_inj_l "/" _ ""). destruct (JoinWith "/" ws) eqn:E2; [|done].
        by apply JoinWith_valid_ne in E2. }
    unfold abs in Ht. rewrite string_app_assoc, TrimPrefix_app in Ht.
    assert (∀ us, us ≠ [] → Forall (λ w, no_char slash w = true) us →
      Split (JoinWith "/" us +:+ String slash t) slash = us ++ Split t slash) as Hsplit.
    { clear. induction us as [|u us IH]; [done|]. intros _ [Hu Hus]%Forall_cons.
      destruct us as [|u' us]; [by apply Split_cons|].
      change (JoinWith "/" (u :: u' :: us)) with (u +:+ String slash (JoinWith "/" (u' :: us))).
      rewrite string_app_assoc. cbn [String.append]. rewrite Split_cons by done. by rewrite IH. }
    change ("/" +:+ t) with (String slash t) in Ht. rewrite Hsplit in Ht by (done || by apply valid_no_slash).
    exists (Split t slash). split; [|done]. destruct t; simpl; repeat case_match; done.
  - intros (us & Hus & ->). unfold abs. rewrite JoinWith_app by done.
    rewrite <- !string_app_assoc. apply prefix_app.
Qed.

(** ** Key names *)

Lemma no_char_cut c (a b s t : string) :
  no_char c a = true → no_char c b = true → a +:+ String c s = b +:+ String c t → a = b ∧ s = t.
Proof.
  revert b. induction a as [|x a IH]; intros [|y b]; simpl.
  - by intros _ _ [= ->].
  - intros _ Hb [= -> ->]. by rewrite Ascii.eqb_refl in Hb.
  - intros Ha _ [= -> _]. by rewrite Ascii.eqb_refl in Ha.
  - intros [_ Ha]%andb_true_iff [_ Hb]%andb_true_iff [= -> E]. by apply IH in E as [-> ->].
Qed.

Lemma key_inj fs fs' k k' :
  no_char "}" fs = true → no_char "}" fs' = true → key fs k = key fs' k' → fs = fs' ∧ k = k'.
Proof.
  intros H H' E. unfold key in E. apply (string_app_inj_l "afs:{") in E.
  apply (no_char_cut "}" fs fs') in E as [-> E]; [|done..]. split; [done|].
  destruct k, k'; simpl in E; congruence.
Qed.

Lemma decode_encode_hashes hs :
  Forall (λ h, no_char "," h = true) hs → hs ≠ [""] →
  decodeChunkHashes (encodeChunkHashes hs) = hs.
Proof.
  intros Hf Hne. destruct hs as [|h hs]; [done|]. cbn [encodeChunkHashes]. unfold decodeChunkHashes.
  rewrite bool_decide_eq_false_2; [by apply Split_Join|].
  destruct hs as [|h' hs]; [simpl; congruence|]. simpl. by destruct h.
Qed.

(** * Properties *)

(** [normalizePath] sends every string to a canonical absolute path and is
    idempotent, and on its results the client's path helpers fit together:
    the parent of a normalized path is normalized, joining it with the base
    name gives the path back, and the components of the path are those of the
    parent followed by the base name. *)
Theorem path_helpers_agree (p : string) :
  let q := normalizePath p in
  normalizePath q = q ∧ valid_names (splitComponents q) ∧
  (q = "/" ∨
   normalizePath (parentOf q) = parentOf q ∧
   joinPath (parentOf q) (baseName q) = q ∧
   splitComponents q = splitComponents (parentOf q) ++ [baseName q]).
Proof.
  cbv zeta. destruct (normalizePath_abs p) as (ws & Hv & ->).
  rewrite normalizePath_canonical, splitComponents_abs by done. split_and!; [done..|].
  destruct ws as [|w ws _] using rev_ind; [by left|right].
  rewrite parentOf_snoc, baseName_snoc by done. apply valid_names_app in Hv as [Hv _].
  rewrite normalizePath_canonical, joinPath_abs, splitComponents_abs by done. done.
Qed.

(** Two Redis keys of the filesystem are equal only if they belong to the
    same workspace and have the same role and identifier, provided no
    workspace key contains a closing brace: one workspace's operations never
    touch another's inodes, entries, contents, locks or leases. *)
Theorem keys_do_not_collide fs fs' k k' :
  no_char "}" fs = true → no_char "}" fs' = true → key fs k = key fs' k' → fs = fs' ∧ k = k'.
Proof. apply key_inj. Qed.

Lemma keys_do_not_collide_witness :
  key "ws" (KContent "7") = "afs:{ws}:content:7" ∧
  ("ws" = "ws" ∧ KContent "7" = KContent "7").
Proof.
  split; [reflexivity|]. apply keys_do_not_collide; reflexivity.
Defined.
