(* ===== verification/FsState.v ===== *)
(** The filesystem's Redis state and its publication scripts
    (mount/internal/client/publication.go, history_publication.go).

    [db] is the part of the server one workspace owns: inode hashes, directory
    hashes, content and staging keys, the accounting hash, the inode counter,
    the change journal, the generation and the session leases.  Each Lua script
    is one function on [db], with its guards in the order of the source; Redis
    runs a script atomically, so an interleaving of clients is a sequence of
    such calls.  The scripts are modelled for a workspace whose versioning
    policy is off, where [history_capture] returns without effect. *)
From Stdlib Require Import Strings.Byte.
From S2P Require Import Prelude Content Paths.
#[local] Open Scope string_scope.
#[local] Open Scope list_scope.
#[local] Open Scope Z_scope.

(** * Data *)

Definition rootInodeID : string := "1".

(** An inode hash.  A field that was never written reads as the empty string
    or zero; only the presence of [type] is observed. *)
Record inodeHash := InodeHash {
  h_type : option string;
  h_mode : Z; h_uid : Z; h_gid : Z; h_size : Z;
  h_ctime : Z; h_mtime : Z; h_atime : Z;
  h_target : string; h_parent : string; h_name : string;
  h_content_ref : string; h_revision : string;
  h_path : string; h_path_ancestors : string;
  h_content : bytes; h_chunk_size : Z; h_chunk_hashes : string
}.

Definition emptyHash : inodeHash :=
  InodeHash None 0 0 0 0 0 0 0 "" "" "" "" "" "" "" [] 0 "".

(** The fields a command can set. *)
Inductive hfield :=
| FType (v : string) | FMode (v : Z) | FUid (v : Z) | FGid (v : Z) | FSize (v : Z)
| FCtime (v : Z) | FMtime (v : Z) | FAtime (v : Z)
| FTarget (v : string) | FParent (v : string) | FName (v : string)
| FContentRef (v : string) | FRevision (v : string)
| FPath (v : string) | FPathAncestors (v : string)
| FContent (v : bytes) | FChunkSize (v : Z) | FChunkHashes (v : string).

Definition hset1 (h : inodeHash) (f : hfield) : inodeHash :=
  let '(InodeHash ty mo ui gi si ct mt at_ ta pa na cr re ph pn co cs ch) := h in
  match f with
  | FType v => InodeHash (Some v) mo ui gi si ct mt at_ ta pa na cr re ph pn co cs ch
  | FMode v => InodeHash ty v ui gi si ct mt at_ ta pa na cr re ph pn co cs ch
  | FUid v => InodeHash ty mo v gi si ct mt at_ ta pa na cr re ph pn co cs ch
  | FGid v => InodeHash ty mo ui v si ct mt at_ ta pa na cr re ph pn co cs ch
  | FSize v => InodeHash ty mo ui gi v ct mt at_ ta pa na cr re ph pn co cs ch
  | FCtime v => InodeHash ty mo ui gi si v mt at_ ta pa na cr re ph pn co cs ch
  | FMtime v => InodeHash ty mo ui gi si ct v at_ ta pa na cr re ph pn co cs ch
  | FAtime v => InodeHash ty mo ui gi si ct mt v ta pa na cr re ph pn co cs ch
  | FTarget v => InodeHash ty mo ui gi si ct mt at_ v pa na cr re ph pn co cs ch
  | FParent v => InodeHash ty mo ui gi si ct mt at_ ta v na cr re ph pn co cs ch
  | FName v => InodeHash ty mo ui gi si ct mt at_ ta pa v cr re ph pn co cs ch
  | FContentRef v => InodeHash ty mo ui gi si ct mt at_ ta pa na v re ph pn co cs ch
  | FRevision v => InodeHash ty mo ui gi si ct mt at_ ta pa na cr v ph pn co cs ch
  | FPath v => InodeHash ty mo ui gi si ct mt at_ ta pa na cr re v pn co cs ch
  | FPathAncestors v => InodeHash ty mo ui gi si ct mt at_ ta pa na cr re ph v co cs ch
  | FContent v => InodeHash ty mo ui gi si ct mt at_ ta pa na cr re ph pn v cs ch
  | FChunkSize v => InodeHash ty mo ui gi si ct mt at_ ta pa na cr re ph pn co v ch
  | FChunkHashes v => InodeHash ty mo ui gi si ct mt at_ ta pa na cr re ph pn co cs v
  end.

(** [HSET] on a hash key; an absent key starts empty. *)
Definition hset (id : string) (fs : list hfield) (m : gmap string inodeHash) : gmap string inodeHash :=
  <[id := foldl hset1 (default emptyHash (m !! id)) fs]> m.

(** A journal entry: the invalidation event a publication appends. *)
Record event := Event { ev_origin : string; ev_op : string; ev_paths : list string }.

(** The accounting hash [info]. *)
Record infoHash := InfoHash {
  n_files : Z; n_directories : Z; n_symlinks : Z; n_total_data_bytes : Z
}.

Inductive counter := CFiles | CDirectories | CSymlinks | CTotalData.

Definition info_get (i : infoHash) (c : counter) : Z :=
  match c with
  | CFiles => n_files i | CDirectories => n_directories i
  | CSymlinks => n_symlinks i | CTotalData => n_total_data_bytes i
  end.

(** [HINCRBY]. *)
Definition hincrby (c : counter) (delta : Z) (i : infoHash) : infoHash :=
  let '(InfoHash f d s t) := i in
  match c with
  | CFiles => InfoHash (f + delta) d s t
  | CDirectories => InfoHash f (d + delta) s t
  | CSymlinks => InfoHash f d (s + delta) t
  | CTotalData => InfoHash f d s (t + delta)
  end.

Section State.
Context {arr : Type}.

(** [changes] is [None] when the journal key holds a value of another type. *)
Record db := Db {
  inodes : gmap string inodeHash;
  dirents : gmap string (gmap string string);
  contents : gmap string (cell arr);
  stages : gmap string (cell arr);
  info : infoHash;
  next_inode : option Z;
  root_dirty : bool;
  changes : option (list event);
  generation : option string;
  leases : gset string
}.

Definition with_inodes (f : gmap string inodeHash → gmap string inodeHash) (d : db) : db :=
  Db (f (inodes d)) (dirents d) (contents d) (stages d) (info d) (next_inode d) (root_dirty d)
     (changes d) (generation d) (leases d).
Definition with_dirents (f : gmap string (gmap string string) → gmap string (gmap string string)) (d : db) : db :=
  Db (inodes d) (f (dirents d)) (contents d) (stages d) (info d) (next_inode d) (root_dirty d)
     (changes d) (generation d) (leases d).
Definition with_contents (f : gmap string (cell arr) → gmap string (cell arr)) (d : db) : db :=
  Db (inodes d) (dirents d) (f (contents d)) (stages d) (info d) (next_inode d) (root_dirty d)
     (changes d) (generation d) (leases d).
Definition with_stages (f : gmap string (cell arr) → gmap string (cell arr)) (d : db) : db :=
  Db (inodes d) (dirents d) (contents d) (f (stages d)) (info d) (next_inode d) (root_dirty d)
     (changes d) (generation d) (leases d).
Definition with_info (f : infoHash → infoHash) (d : db) : db :=
  Db (inodes d) (dirents d) (contents d) (stages d) (f (info d)) (next_inode d) (root_dirty d)
     (changes d) (generation d) (leases d).
Definition with_next_inode (n : option Z) (d : db) : db :=
  Db (inodes d) (dirents d) (contents d) (stages d) (info d) n (root_dirty d)
     (changes d) (generation d) (leases d).
Definition set_root_dirty (d : db) : db :=
  Db (inodes d) (dirents d) (contents d) (stages d) (info d) (next_inode d) true
     (changes d) (generation d) (leases d).

(** [XADD] of a payload; an empty payload is not sent. *)
Definition xadd (payload : option event) (d : db) : db :=
  match payload with
  | None => d
  | Some ev =>
      Db (inodes d) (dirents d) (contents d) (stages d) (info d) (next_inode d) (root_dirty d)
         ((λ l, l ++ [ev]) <$> changes d) (generation d) (leases d)
  end.

(** [HGET dirents:dir name]. *)
Definition dirent (d : db) (dir name : string) : option string :=
  dirents d !! dir ≫= λ m, m !! name.

(** [HSET dirents:dir name id] and [HDEL dirents:dir name]; a hash that loses its
    last field is removed. *)
Definition link (dir name id : string) (D : gmap string (gmap string string)) :=
  <[dir := <[name := id]> (default ∅ (D !! dir))]> D.
Definition unlink (dir name : string) (D : gmap string (gmap string string)) :=
  match D !! dir with
  | None => D
  | Some m => let m' := delete name m in if decide (m' = ∅) then delete dir D else <[dir := m']> D
  end.

Definition revision_of (d : db) (id : string) : string :=
  match inodes d !! id with Some h => h_revision h | None => "" end.
Definition size_of (d : db) (id : string) : Z :=
  match inodes d !! id with Some h => h_size h | None => 0 end.
Definition type_of (d : db) (id : string) : option string := inodes d !! id ≫= h_type.

(** * Scripts *)

Inductive scriptError :=
| CounterExhausted
| WrongType.

(** The guards every publication starts with: [KEYS[7]] against the expected
    generation, and the lease when the caller has one. *)
Record guardArgs := GuardArgs { g_generation : string; g_lease : option string }.

Definition guard (g : guardArgs) (d : db) : option Z :=
  if negb (bool_decide (g_generation g = "")) && negb (bool_decide (generation d = Some (g_generation g)))
  then Some (-2)
  else match g_lease g with
       | Some l => if bool_decide (l ∈ leases d) then None else Some (-5)
       | None => None
       end.

(** [publication_counter]: the bound checked before any change. *)
Definition publication_counter (d : db) (c : counter) (delta : Z) : bool :=
  Z.abs (info_get (info d) c) + Z.abs delta <? 100000000000000.

Definition type_counter (ty : option string) : counter :=
  if bool_decide (ty = Some "dir") then CDirectories
  else if bool_decide (ty = Some "symlink") then CSymlinks else CFiles.

Record publishArgs := PublishArgs {
  p_guard : guardArgs;
  p_id : string; p_name : string; p_expected : string; p_revision : string;
  p_create : bool; p_mtime : Z; p_size : Z; p_payload : option event;
  p_fields : list hfield; p_stage : string; p_parent : string
}.

(** The effects of [publishFileScript], after its guards. *)
Definition publish_effects (a : publishArgs) (staged : cell arr) (d : db) : db :=
  let previous := size_of d (p_id a) in
  let d := with_stages (delete (p_stage a)) d in
  let d := if bool_decide (p_size a = 0) then with_contents (delete (p_id a)) d
           else with_contents (<[p_id a := staged]>) d in
  let d := with_inodes (hset (p_id a) (p_fields a ++ [FRevision (p_revision a); FContent []])) d in
  let d :=
    if p_create a then
      let d := with_dirents (link (p_parent a) (p_name a) (p_id a)) d in
      let d := with_info (hincrby CFiles 1) d in
      with_inodes (hset (p_parent a) [FMtime (p_mtime a); FCtime (p_mtime a)]) d
    else d in
  let d := with_info (hincrby CTotalData (p_size a - previous)) d in
  xadd (p_payload a) (set_root_dirty d).

Definition publishFileScript (a : publishArgs) (d : db) : result scriptError (Z * db) :=
  match guard (p_guard a) d with
  | Some code => Ok (code, d)
  | None =>
    let current := revision_of d (p_id a) in
    let linked := dirent d (p_parent a) (p_name a) in
    if bool_decide (current = p_revision a) && bool_decide (linked = Some (p_id a)) then Ok (2, d)
    else if bool_decide (changes d = None) then Ok (-4, d)
    else if bool_decide (inodes d !! p_parent a = None) then Ok (-1, d)
    else if
      (if p_create a then bool_decide (linked ≠ None)
       else bool_decide (linked ≠ Some (p_id a)) || bool_decide (current ≠ p_expected a)
            || bool_decide (inodes d !! p_id a = None))
    then Ok (-1, d)
    else match stages d !! p_stage a with
    | None => Ok (-3, d)
    | Some staged =>
      if negb (bool_decide (type_of d (p_parent a) = Some "dir")) then Ok (-1, d)
      else if negb (publication_counter d CFiles 1 &&
                    publication_counter d CTotalData (p_size a - size_of d (p_id a)))
      then Err CounterExhausted
      else Ok (1, publish_effects a staged d)
    end
  end.

Record deleteArgs := DeleteArgs {
  d_guard : guardArgs;
  d_id : string; d_name : string; d_expected : string; d_now : Z;
  d_payload : option event; d_parent : string
}.

(** The loop over the children of a directory. *)
Definition has_live_child (d : db) (id : string) : bool :=
  existsb (λ kv : string * string, bool_decide (is_Some (inodes d !! kv.2)))
    (map_to_list (default ∅ (dirents d !! id))).

Definition delete_effects (a : deleteArgs) (kind : option string) (size : Z) (d : db) : db :=
  let d := with_inodes (delete (d_id a)) d in
  let d := with_contents (delete (d_id a)) d in
  let d := with_dirents (delete (d_id a)) d in
  let d := with_dirents (unlink (d_parent a) (d_name a)) d in
  let d := with_inodes (hset (d_parent a) [FMtime (d_now a); FCtime (d_now a)]) d in
  let d := with_info (hincrby (type_counter kind) (-1)) d in
  let d := if bool_decide (kind = Some "file") && (0 <? size)
           then with_info (hincrby CTotalData (- size)) d else d in
  xadd (d_payload a) (set_root_dirty d).

Definition deleteInodeScript (a : deleteArgs) (d : db) : result scriptError (Z * db) :=
  match guard (d_guard a) d with
  | Some code => Ok (code, d)
  | None =>
    if bool_decide (changes d = None) then Ok (-4, d)
    else
      let linked := dirent d (d_parent a) (d_name a) in
      if bool_decide (linked = None) && bool_decide (inodes d !! d_id a = None) then Ok (2, d)
      else if bool_decide (linked ≠ Some (d_id a)) || bool_decide (revision_of d (d_id a) ≠ d_expected a)
      then Ok (-1, d)
      else
        let kind := type_of d (d_id a) in
        if bool_decide (kind = Some "dir") && has_live_child d (d_id a) then Ok (-3, d)
        else
          let size := size_of d (d_id a) in
          if negb (publication_counter d (type_counter kind) (-1) &&
                   publication_counter d CTotalData (- size))
          then Err CounterExhausted
          else Ok (1, delete_effects a kind size d)
  end.

Record updateArgs := UpdateArgs {
  u_guard : guardArgs;
  u_id : string; u_name : string; u_expected : string; u_revision : string;
  u_payload : option event; u_fields : list hfield; u_parent : string
}.

Definition updateInodeScript (a : updateArgs) (d : db) : result scriptError (Z * db) :=
  match guard (u_guard a) d with
  | Some code => Ok (code, d)
  | None =>
    if bool_decide (changes d = None) then Ok (-4, d)
    else
      let current := revision_of d (u_id a) in
      if bool_decide (current = u_revision a) then Ok (2, d)
      else if bool_decide (inodes d !! u_id a = None) then Ok (-1, d)
      else if negb (bool_decide (u_id a = "1")) &&
              bool_decide (dirent d (u_parent a) (u_name a) ≠ Some (u_id a)) then Ok (-1, d)
      else if bool_decide (current ≠ u_expected a) then Ok (-1, d)
      else Ok (1, xadd (u_payload a)
                    (with_inodes (hset (u_id a) (u_fields a ++ [FRevision (u_revision a)])) d))
  end.

Record createArgs := CreateArgs {
  c_id : string; c_name : string; c_type : string; c_revision : string; c_ctime : Z;
  c_fields : list hfield; c_payload : option event; c_parent : string
}.

Definition create_effects (a : createArgs) (d : db) : db :=
  let d := with_inodes (hset (c_id a) (c_fields a)) d in
  let d := with_dirents (link (c_parent a) (c_name a) (c_id a)) d in
  let d := with_inodes (hset (c_parent a) [FMtime (c_ctime a); FCtime (c_ctime a)]) d in
  let d := with_info (hincrby (if bool_decide (c_type a = "dir") then CDirectories else CSymlinks) 1) d in
  xadd (c_payload a) (set_root_dirty d).

Definition createMetadataScript (a : createArgs) (d : db) : result scriptError (Z * db) :=
  let linked := dirent d (c_parent a) (c_name a) in
  if bool_decide (linked = Some (c_id a)) && bool_decide (inodes d !! c_id a ≠ None)
     && bool_decide (revision_of d (c_id a) = c_revision a) then Ok (2, d)
  else if bool_decide (linked ≠ None) then Ok (-1, d)
  else if negb (bool_decide (type_of d (c_parent a) = Some "dir")) then Ok (-1, d)
  else if bool_decide (changes d = None) then Err WrongType
  else if negb (publication_counter d
                  (if bool_decide (c_type a = "dir") then CDirectories else CSymlinks) 1)
  then Err CounterExhausted
  else Ok (1, create_effects a d).

Record renameArgs := RenameArgs {
  r_id : string; r_oldName : string; r_newName : string; r_newParent : string;
  r_expected : string; r_revision : string; r_now : Z; r_payload : option event;
  r_replacedID : string; r_replacedRevision : string;
  r_dst : string; r_ancestors : string; r_oldParent : string
}.

Definition rename_move (a : renameArgs) (d : db) : db :=
  let d := with_dirents (unlink (r_oldParent a) (r_oldName a)) d in
  let d := with_dirents (link (r_newParent a) (r_newName a) (r_id a)) d in
  let d := with_inodes (hset (r_id a) [FParent (r_newParent a); FName (r_newName a); FCtime (r_now a);
             FPath (r_dst a); FPathAncestors (r_ancestors a); FRevision (r_revision a)]) d in
  let d := with_inodes (hset (r_oldParent a) [FCtime (r_now a); FMtime (r_now a)]) d in
  with_inodes (hset (r_newParent a) [FCtime (r_now a); FMtime (r_now a)]) d.

Definition replaced_counter (ty : option string) : counter :=
  if bool_decide (ty = Some "dir") then CDirectories
  else if bool_decide (ty = Some "file") then CFiles else CSymlinks.

(** The removal of the replaced inode; its fields are those read before the
    move. *)
Definition rename_drop (linked : string) (replaced : inodeHash) (d : db) : db :=
  let d := with_inodes (delete linked) d in
  let d := with_contents (delete linked) d in
  let d := with_dirents (delete linked) d in
  let d := with_info (hincrby (replaced_counter (h_type replaced)) (-1)) d in
  if bool_decide (h_type replaced = Some "file") && (0 <? h_size replaced)
  then with_info (hincrby CTotalData (- h_size replaced)) d else d.

Definition renameMetadataScript (a : renameArgs) (d : db) : result scriptError (Z * db) :=
  let linked := dirent d (r_newParent a) (r_newName a) in
  let revision := revision_of d (r_id a) in
  if bool_decide (linked = Some (r_id a)) && bool_decide (revision = r_revision a) then Ok (2, d)
  else if bool_decide (dirent d (r_oldParent a) (r_oldName a) ≠ Some (r_id a))
          || bool_decide (revision ≠ r_expected a) then Ok (-1, d)
  else if bool_decide (default "" linked ≠ r_replacedID a) then Ok (-1, d)
  else if negb (bool_decide (type_of d (r_oldParent a) = Some "dir"))
          || negb (bool_decide (type_of d (r_newParent a) = Some "dir")) then Ok (-1, d)
  else if bool_decide (changes d = None) then Err WrongType
  else match linked with
  | None => Ok (1, xadd (r_payload a) (set_root_dirty (rename_move a d)))
  | Some l =>
      let replaced := default emptyHash (inodes d !! l) in
      if bool_decide (h_revision replaced ≠ r_replacedRevision a) then Ok (-1, d)
      else if bool_decide (h_type replaced = None) then Ok (-1, d)
      else if negb (publication_counter d (replaced_counter (h_type replaced)) (-1)
                    && (negb (bool_decide (h_type replaced = Some "file"))
                        || publication_counter d CTotalData (- h_size replaced)))
      then Err CounterExhausted
      else Ok (1, xadd (r_payload a) (set_root_dirty (rename_drop l replaced (rename_move a d))))
  end.

End State.
Arguments db : clear implicits.
