(* ===== verification/FsTree.v ===== *)
(** The namespace invariant of the filesystem state.

    The abstract namespace is a map from inode identifiers to nodes (parent,
    name, type, size).  [tree_wf] says that the directory hashes are exactly
    the index of that map, that parents are live directories and that the root
    is a directory; [counts_ok] says that the accounting hash counts the nodes
    by type and the bytes of the files; [rooted] says that every node reaches
    the root.  The lemmas show what adding, changing, removing, moving and
    replacing a node does to them; FsScripts applies them to the scripts. *)
From S2P Require Import Prelude Content Paths FsState.
#[local] Open Scope string_scope.
#[local] Open Scope list_scope.
#[local] Open Scope Z_scope.

(** * Nodes *)

Record node := Node {
  nd_parent : string; nd_name : string; nd_type : option string; nd_size : Z
}.

Definition static (h : inodeHash) : node := Node (h_parent h) (h_name h) (h_type h) (h_size h).

Notation nodes := (gmap string node).
Definition links := string → string → option string.

(** The lookup function of a map of directory hashes. *)
Definition lk (D : gmap string (gmap string string)) : links := λ dir name, D !! dir ≫= λ m, m !! name.

Lemma lk_link D dir name id d n :
  lk (link dir name id D) d n = if decide (d = dir ∧ n = name) then Some id else lk D d n.
Proof.
  unfold lk, link. destruct (decide (d = dir)) as [->|Hd].
  - rewrite lookup_insert_eq. simpl. destruct (decide (n = name)) as [->|Hn].
    + rewrite lookup_insert_eq, decide_True; done.
    + rewrite lookup_insert_ne by done. rewrite decide_False by naive_solver.
      by destruct (D !! dir).
  - rewrite lookup_insert_ne by done. by rewrite decide_False by naive_solver.
Qed.

Lemma lk_unlink D dir name d n :
  lk (unlink dir name D) d n = if decide (d = dir ∧ n = name) then None else lk D d n.
Proof.
  unfold lk, unlink. destruct (D !! dir) as [m|] eqn:E.
  - assert (∀ n', delete name m !! n' = if decide (n' = name) then None else m !! n') as Hdel.
    { intros n'. case_decide; [subst; apply lookup_delete_eq|by rewrite lookup_delete_ne]. }
    cbv zeta. destruct (decide (delete name m = ∅)) as [He|He]; destruct (decide (d = dir)) as [->|Hd].
    + rewrite lookup_delete_eq, E. simpl. specialize (Hdel n). rewrite He, lookup_empty in Hdel.
      repeat case_decide; naive_solver.
    + rewrite lookup_delete_ne by done. by rewrite decide_False by naive_solver.
    + rewrite lookup_insert_eq, E. simpl. rewrite Hdel. repeat case_decide; naive_solver.
    + rewrite lookup_insert_ne by done. by rewrite decide_False by naive_solver.
  - case_decide as Hc; [|done]. destruct Hc as [-> ->]. by rewrite E.
Qed.

Lemma lk_delete D dir d n : lk (delete dir D) d n = if decide (d = dir) then None else lk D d n.
Proof.
  unfold lk. case_decide; [subst; by rewrite lookup_delete_eq|by rewrite lookup_delete_ne].
Qed.

(** * The invariant *)

Definition known_type (ty : option string) : Prop :=
  ty = Some "file" ∨ ty = Some "dir" ∨ ty = Some "symlink".

Record tree_wf (V : nodes) (L : links) : Prop := {
  wf_root : ∃ nd, V !! "1" = Some nd ∧ nd_type nd = Some "dir";
  wf_links dir name id :
    L dir name = Some id ↔
    id ≠ "1" ∧ ∃ nd, V !! id = Some nd ∧ nd_parent nd = dir ∧ nd_name nd = name;
  wf_parents id nd :
    V !! id = Some nd → id ≠ "1" → ∃ p, V !! nd_parent nd = Some p ∧ nd_type p = Some "dir";
  wf_types id nd : V !! id = Some nd → known_type (nd_type nd);
  wf_sizes id nd : V !! id = Some nd → 0 ≤ nd_size nd
}.

Lemma tree_wf_ext V L L' : (∀ d n, L d n = L' d n) → tree_wf V L → tree_wf V L'.
Proof. intros E [H1 H2 H3 H4 H5]. constructor; auto. intros. by rewrite <- E. Qed.

(** [id] is [top] or lies below it. *)
Inductive below (V : nodes) (top : string) : string → Prop :=
| below_refl : below V top top
| below_step id nd : V !! id = Some nd → id ≠ "1" → below V top (nd_parent nd) → below V top id.

Definition rooted (V : nodes) : Prop := ∀ id, is_Some (V !! id) → below V "1" id.

(** No node of [V] has [id] as its parent. *)
Definition childless (V : nodes) (id : string) : Prop :=
  ∀ c nd, V !! c = Some nd → c ≠ "1" → nd_parent nd ≠ id.

(** ** Adding a node *)

Section ops.
Implicit Types (V : nodes) (L : links) (nd : node).

Lemma add_wf V L id nd dirnd :
  tree_wf V L → V !! id = None → L (nd_parent nd) (nd_name nd) = None →
  V !! nd_parent nd = Some dirnd → nd_type dirnd = Some "dir" →
  known_type (nd_type nd) → 0 ≤ nd_size nd →
  tree_wf (<[id := nd]> V)
    (λ d n, if decide (d = nd_parent nd ∧ n = nd_name nd) then Some id else L d n).
Proof.
  intros [(r & Hr & Hrd) H2 H3 H4 H5] Hid Hfree Hp Hdir Hty Hsz.
  assert (id ≠ "1") as Hid1 by (intros ->; congruence).
  constructor.
  - exists r. by rewrite lookup_insert_ne.
  - intros dir name i. destruct (decide (dir = nd_parent nd ∧ name = nd_name nd)) as [[-> ->]|Hn].
    + split; [intros [= <-]; split; [done|]; exists nd; by rewrite lookup_insert_eq|].
      intros (Hi & nd' & Hl & E1 & E2). destruct (decide (i = id)) as [->|Hne]; [done|].
      rewrite lookup_insert_ne in Hl by done.
      assert (L (nd_parent nd) (nd_name nd) = Some i) as E by (apply H2; eauto). congruence.
    + rewrite H2. split; intros (Hi & nd' & Hl & E1 & E2); split; auto.
      * exists nd'. rewrite lookup_insert_ne; [done|congruence].
      * destruct (decide (id = i)) as [->|Hne].
        { rewrite lookup_insert_eq in Hl. simplify_eq. naive_solver. }
        rewrite lookup_insert_ne in Hl by done. eauto.
  - intros i nd' Hl Hi. assert (∀ q p, V !! q = Some p → (<[id := nd]> V) !! q = Some p) as Hkeep.
    { intros q p Hq. rewrite lookup_insert_ne; [done|congruence]. }
    destruct (decide (i = id)) as [->|Hne].
    + rewrite lookup_insert_eq in Hl. simplify_eq. exists dirnd. auto.
    + rewrite lookup_insert_ne in Hl by done. destruct (H3 _ _ Hl Hi) as (p & Hp' & Hd). eauto.
  - intros i nd'. rewrite lookup_insert_Some. naive_solver.
  - intros i nd'. rewrite lookup_insert_Some. naive_solver.
Qed.

Lemma below_insert_fresh V top id nd i :
  V !! id = None → below V top i → below (<[id := nd]> V) top i.
Proof.
  intros Hid H. induction H as [|i nd' Hl Hi _ IH]; [constructor|].
  econstructor; [|done|exact IH]. rewrite lookup_insert_ne; [done|congruence].
Qed.

Lemma add_rooted V id nd :
  rooted V → id ≠ "1" → V !! id = None → is_Some (V !! nd_parent nd) → rooted (<[id := nd]> V).
Proof.
  intros Hr Hid1 Hid Hp i. destruct (decide (i = id)) as [->|Hne].
  - intros _. eapply below_step; [by rewrite lookup_insert_eq|done|].
    apply below_insert_fresh; auto.
  - rewrite lookup_insert_ne by done. intros Hi. apply below_insert_fresh; auto.
Qed.

(** ** Changing a node in place *)

Lemma change_wf V L id nd nd' :
  tree_wf V L → V !! id = Some nd →
  nd_parent nd' = nd_parent nd → nd_name nd' = nd_name nd → nd_type nd' = nd_type nd →
  0 ≤ nd_size nd' → tree_wf (<[id := nd']> V) L.
Proof.
  intros [(r & Hr & Hrd) H2 H3 H4 H5] Hid Ep En Et Hs.
  assert (∀ q p, V !! q = Some p → ∃ p', (<[id := nd']> V) !! q = Some p' ∧ nd_parent p' = nd_parent p
            ∧ nd_name p' = nd_name p ∧ nd_type p' = nd_type p) as Hk.
  { intros q p Hq. destruct (decide (q = id)) as [->|Hne].
    - rewrite lookup_insert_eq. exists nd'. simplify_eq. auto.
    - rewrite lookup_insert_ne by done. eauto. }
  assert (∀ q p, (<[id := nd']> V) !! q = Some p → ∃ p', V !! q = Some p' ∧ nd_parent p' = nd_parent p
            ∧ nd_name p' = nd_name p ∧ nd_type p' = nd_type p) as Hk'.
  { intros q p. destruct (decide (q = id)) as [->|Hne].
    - rewrite lookup_insert_eq. intros [= <-]. exists nd. auto.
    - rewrite lookup_insert_ne by done. eauto. }
  constructor.
  - destruct (Hk _ _ Hr) as (p' & ? & _ & _ & E). exists p'. by rewrite E.
  - intros dir name i. rewrite H2. split; intros (Hi & p & Hl & <- & <-); split; auto.
    + destruct (Hk _ _ Hl) as (p' & ? & ? & ? & _). eauto.
    + destruct (Hk' _ _ Hl) as (p' & ? & ? & ? & _). eauto.
  - intros i p Hl Hi. destruct (Hk' _ _ Hl) as (p' & Hl' & <- & _ & _).
    destruct (H3 _ _ Hl' Hi) as (q & Hq & Hd). destruct (Hk _ _ Hq) as (q' & ? & _ & _ & E).
    exists q'. by rewrite E.
  - intros i p Hl. destruct (Hk' _ _ Hl) as (p' & Hl' & _ & _ & <-). eauto.
  - intros i p. rewrite lookup_insert_Some. naive_solver.
Qed.

Lemma change_rooted V id nd nd' :
  rooted V → V !! id = Some nd → nd_parent nd' = nd_parent nd → rooted (<[id := nd']> V).
Proof.
  intros Hr Hid Ep i Hi.
  assert (∀ top j, below V top j → below (<[id := nd']> V) top j) as Hb.
  { intros top j H. induction H as [|j p Hl Hj _ IH]; [constructor|].
    destruct (decide (j = id)) as [->|Hne].
    - econstructor; [by rewrite lookup_insert_eq|done|]. simplify_eq. by rewrite Ep.
    - econstructor; [by rewrite lookup_insert_ne|done|exact IH]. }
  apply Hb, Hr. destruct (decide (i = id)) as [->|Hne]; [by eauto|].
  by rewrite lookup_insert_ne in Hi.
Qed.

(** ** Removing a node *)

Lemma remove_wf V L id nd :
  tree_wf V L → V !! id = Some nd → id ≠ "1" → childless V id →
  tree_wf (delete id V) (λ d n, if decide (d = nd_parent nd ∧ n = nd_name nd) then None
                                 else if decide (d = id) then None else L d n).
Proof.
  intros [(r & Hr & Hrd) H2 H3 H4 H5] Hid Hid1 Hc.
  constructor.
  - exists r. by rewrite lookup_delete_ne.
  - intros dir name i. assert (L (nd_parent nd) (nd_name nd) = Some id) as Hlink by (apply H2; eauto).
    split.
    + intros E. repeat case_decide; try done. apply H2 in E as (Hi & p & Hl & <- & <-).
      split; [done|]. exists p. rewrite lookup_delete_ne; [done|]. intros ->. simplify_eq. tauto.
    + intros (Hi & p & [Hne Hl]%lookup_delete_Some & <- & <-).
      assert (L (nd_parent p) (nd_name p) = Some i) as E by (apply H2; eauto).
      rewrite decide_False.
      2:{ intros [E1 E2]. rewrite E1, E2 in E. congruence. }
      rewrite decide_False; [done|]. by eapply Hc.
  - intros i p [Hne Hl]%lookup_delete_Some Hi. destruct (H3 _ _ Hl Hi) as (q & Hq & Hd).
    exists q. rewrite lookup_delete_ne; [done|]. intros E. by apply (Hc i p Hl Hi).
  - intros i p [_ Hl]%lookup_delete_Some. eauto.
  - intros i p [_ Hl]%lookup_delete_Some. eauto.
Qed.

Lemma below_delete V top id i :
  childless V id → i ≠ id → below V top i → below (delete id V) top i.
Proof.
  intros Hc Hi H. induction H as [|i nd Hl Hi1 _ IH]; [constructor|].
  econstructor; [by rewrite lookup_delete_ne|done|]. apply IH. by eapply Hc.
Qed.

Lemma remove_rooted V id : rooted V → childless V id → rooted (delete id V).
Proof.
  intros Hr Hc i [p [Hne Hl]%lookup_delete_Some]. apply below_delete; eauto.
Qed.

(** ** Moving a node to a free name *)

Lemma move_wf V L id nd parent name dirnd :
  tree_wf V L → V !! id = Some nd → id ≠ "1" →
  V !! parent = Some dirnd → nd_type dirnd = Some "dir" →
  (L parent name = None ∨ L parent name = Some id) →
  tree_wf (<[id := Node parent name (nd_type nd) (nd_size nd)]> V)
    (λ d n, if decide (d = parent ∧ n = name) then Some id
            else if decide (d = nd_parent nd ∧ n = nd_name nd) then None else L d n).
Proof.
  intros [(r & Hr & Hrd) H2 H3 H4 H5] Hid Hid1 Hp Hdir Hfree.
  set (nd' := Node parent name (nd_type nd) (nd_size nd)).
  assert (∀ q p, V !! q = Some p → ∃ p', (<[id := nd']> V) !! q = Some p' ∧ nd_type p' = nd_type p) as Hk.
  { intros q p Hq. destruct (decide (q = id)) as [->|Hne].
    - rewrite lookup_insert_eq. exists nd'. simplify_eq. auto.
    - rewrite lookup_insert_ne by done. eauto. }
  assert (L (nd_parent nd) (nd_name nd) = Some id) as Hlink by (apply H2; eauto).
  constructor.
  - destruct (Hk _ _ Hr) as (p' & ? & E). exists p'. by rewrite E.
  - intros dir n i. destruct (decide (dir = parent ∧ n = name)) as [[-> ->]|Hn].
    + split; [intros [= <-]; split; [done|]; exists nd'; by rewrite lookup_insert_eq|].
      intros (Hi & p & Hl & E1 & E2). destruct (decide (i = id)) as [->|Hne]; [done|].
      rewrite lookup_insert_ne in Hl by done.
      assert (L parent name = Some i) as E by (apply H2; eauto). destruct Hfree; congruence.
    + split.
      * case_decide as Hold; [done|]. intros (Hi & p & Hl & <- & <-)%H2. split; [done|]. exists p.
        rewrite lookup_insert_ne; [done|]. intros ->. simplify_eq. tauto.
      * intros (Hi & p & Hl & <- & <-). destruct (decide (i = id)) as [->|Hne].
        { rewrite lookup_insert_eq in Hl. simplify_eq. by destruct Hn. }
        rewrite lookup_insert_ne in Hl by done.
        assert (L (nd_parent p) (nd_name p) = Some i) as E by (apply H2; eauto).
        rewrite decide_False; [done|]. intros [E1 E2]. rewrite E1, E2 in E. congruence.
  - intros i p Hl Hi. assert (∃ q, V !! nd_parent p = Some q ∧ nd_type q = Some "dir") as (q & Hq & Hd).
    { destruct (decide (i = id)) as [->|Hne].
      - rewrite lookup_insert_eq in Hl. simplify_eq. eauto.
      - rewrite lookup_insert_ne in Hl by done. eauto. }
    destruct (Hk _ _ Hq) as (q' & ? & E). exists q'. by rewrite E.
  - intros i p. rewrite lookup_insert_Some. intros [[_ <-]|[_ Hl]]; [|eauto]. simpl. eauto.
  - intros i p. rewrite lookup_insert_Some. intros [[_ <-]|[_ Hl]]; [|eauto]. simpl. eauto.
Qed.

Lemma below_trans V a b c : below V a b → below V b c → below V a c.
Proof. intros Hab H. induction H; [done|]. econstructor; eauto. Qed.

(** Moving a subtree elsewhere than below itself keeps it reachable. *)
Lemma move_rooted V id nd parent name :
  rooted V → V !! id = Some nd → id ≠ "1" → is_Some (V !! parent) → ¬ below V id parent →
  rooted (<[id := Node parent name (nd_type nd) (nd_size nd)]> V).
Proof.
  intros Hr Hid Hid1 Hp Hnb i Hi. set (nd' := Node parent name (nd_type nd) (nd_size nd)).
  assert (∀ j, below V "1" j → ¬ below V id j → below (<[id := nd']> V) "1" j) as Hout.
  { intros j H. induction H as [|j p Hl Hj _ IH]; intros Hn; [constructor|].
    assert (j ≠ id) by (intros ->; apply Hn; constructor).
    econstructor; [by rewrite lookup_insert_ne|done|]. apply IH. intros Hb. apply Hn.
    by econstructor. }
  assert (below (<[id := nd']> V) "1" id) as Hself.
  { eapply below_step; [by rewrite lookup_insert_eq|done|]. simpl. apply Hout; auto. }
  assert (is_Some (V !! i)) as Hi'.
  { destruct (decide (i = id)) as [->|Hne]; [by eauto|]. by rewrite lookup_insert_ne in Hi. }
  assert (∀ j, below V "1" j → below (<[id := nd']> V) "1" j) as Hall; [|auto].
  intros j H. induction H as [|j p Hl Hj _ IH]; [constructor|].
  destruct (decide (j = id)) as [->|Hne]; [done|].
  econstructor; [by rewrite lookup_insert_ne|done|exact IH].
Qed.

End ops.

(** * Accounting *)

Definition msum (w : node → Z) (V : nodes) : Z := map_fold (λ _ nd acc, w nd + acc) 0 V.

Lemma msum_insert_fresh w V id nd : V !! id = None → msum w (<[id := nd]> V) = w nd + msum w V.
Proof.
  intros H. unfold msum. rewrite map_fold_insert_L; [done| |done]. intros. lia.
Qed.

Lemma msum_delete w V id nd : V !! id = Some nd → msum w (delete id V) = msum w V - w nd.
Proof.
  intros H. rewrite <- (insert_delete_id V id nd) at 2 by done.
  rewrite msum_insert_fresh by apply lookup_delete_eq. lia.
Qed.

Lemma msum_change w V id nd nd' :
  V !! id = Some nd → msum w (<[id := nd']> V) = msum w V - w nd + w nd'.
Proof.
  intros H. rewrite <- insert_delete_eq, msum_insert_fresh by apply lookup_delete_eq.
  rewrite (msum_delete _ _ _ nd) by done. lia.
Qed.

Lemma msum_nonneg w V : (∀ id nd, V !! id = Some nd → 0 ≤ w nd) → 0 ≤ msum w V.
Proof.
  unfold msum. induction V as [|id nd V Hid _ IH] using map_first_key_ind; intros H; [by rewrite map_fold_empty|].
  fold (msum w (<[id := nd]> V)). rewrite msum_insert_fresh by done. pose proof (H id nd (lookup_insert_eq _ _ _)).
  assert (0 ≤ msum w V); [|lia]. apply IH. intros i x Hi. apply (H i). rewrite lookup_insert_ne by congruence. done.
Qed.

Lemma msum_ge w V id nd : (∀ id nd, V !! id = Some nd → 0 ≤ w nd) → V !! id = Some nd → w nd ≤ msum w V.
Proof.
  intros H Hid. pose proof (msum_delete w V id nd Hid). assert (0 ≤ msum w (delete id V)); [|lia].
  apply msum_nonneg. intros i x [_ Hx]%lookup_delete_Some. by apply (H i).
Qed.

Definition is_type (ty : string) (nd : node) : Z := if bool_decide (nd_type nd = Some ty) then 1 else 0.
Definition file_bytes (nd : node) : Z :=
  if bool_decide (nd_type nd = Some "file") then nd_size nd else 0.

Record counts_ok (V : nodes) (i : infoHash) : Prop := {
  cnt_files : n_files i = msum (is_type "file") V;
  cnt_dirs : n_directories i = msum (is_type "dir") V;
  cnt_symlinks : n_symlinks i = msum (is_type "symlink") V;
  cnt_bytes : n_total_data_bytes i = msum file_bytes V
}.

(** The invariant of the whole state. *)
Record fs_inv {arr} (d : db arr) : Prop := {
  inv_tree : tree_wf (static <$> inodes d) (lk (dirents d));
  inv_rooted : rooted (static <$> inodes d);
  inv_counts : counts_ok (static <$> inodes d) (info d)
}.
