(* ===== verification/FsScripts.v ===== *)
(** Each publication script preserves the namespace invariant.

    The lemmas hold for every state and every arguments whose written fields
    describe the node the caller means; which arguments the client builds, and
    that they have this form, is in FsClient and FsOps. *)
From S2P Require Import Prelude Content Paths FsState FsTree.
#[local] Open Scope string_scope.
#[local] Open Scope list_scope.
#[local] Open Scope Z_scope.

Lemma static_hset id fs m :
  static <$> hset id fs m =
  <[id := static (foldl hset1 (default emptyHash (m !! id)) fs)]> (static <$> m).
Proof. unfold hset. apply fmap_insert. Qed.

Lemma static_touch (id : string) (a b : Z) (m : gmap string inodeHash) :
  is_Some (m !! id) →
  static <$> hset id [FMtime a; FCtime b] m = static <$> m ∧
  static <$> hset id [FCtime a; FMtime b] m = static <$> m.
Proof.
  intros [h Hh]. rewrite !static_hset, Hh. simpl.
  split; apply insert_id; rewrite lookup_fmap, Hh; simpl; by destruct h.
Qed.

Lemma hset_is_Some id fs m j : is_Some (m !! j) → is_Some (hset id fs m !! j).
Proof.
  intros H. unfold hset. destruct (decide (j = id)) as [->|].
  - rewrite lookup_insert_eq. eauto.
  - by rewrite lookup_insert_ne.
Qed.

Lemma fmap_lookup_static (m : gmap string inodeHash) id nd :
  (static <$> m) !! id = Some nd → ∃ h, m !! id = Some h ∧ nd = static h.
Proof. rewrite lookup_fmap_Some. naive_solver. Qed.

Lemma static_lookup (m : gmap string inodeHash) id h :
  m !! id = Some h → (static <$> m) !! id = Some (static h).
Proof. intros H. by rewrite lookup_fmap, H. Qed.

Lemma is_type_eq ty nd : is_type ty nd = if bool_decide (nd_type nd = Some ty) then 1 else 0.
Proof. done. Qed.

Lemma file_bytes_eq nd :
  file_bytes nd = if bool_decide (nd_type nd = Some "file") then nd_size nd else 0.
Proof. done. Qed.

(** Accounting goals: unfold the weights and decide the type tests. *)
Ltac acct :=
  rewrite ?is_type_eq, ?file_bytes_eq; simpl;
  repeat (case_bool_decide; simplify_eq/=); try congruence; try lia.

(** Invert a script that committed: every earlier exit returns another code. *)
Ltac script_inv H := cbv zeta in H; repeat (case_match; simplify_eq); bools.

(** Read off the tests that were passed. *)
Ltac tests :=
  destruct_or?; bools;
  repeat match goal with
  | H : ¬ (_ ≠ _) |- _ => apply dec_stable in H
  | H : _ ≠ None |- is_Some _ => by apply not_eq_None_Some in H
  end; try tauto; eauto.

Section Scripts.
Context {arr : Type}.
Implicit Types d : db arr.

(** [xadd] and the dirty mark leave the namespace alone. *)
Lemma xadd_inv payload d : fs_inv d → fs_inv (xadd payload (set_root_dirty d)).
Proof. intros [H1 H2 H3]. destruct payload; by constructor. Qed.

Lemma xadd_plain_inv payload d : fs_inv d → fs_inv (xadd payload d).
Proof. intros [H1 H2 H3]. destruct payload; by constructor. Qed.

Lemma type_of_static d id ty :
  type_of d id = Some ty → ∃ h, inodes d !! id = Some h ∧ h_type h = Some ty.
Proof. unfold type_of. intros H. apply bind_Some in H as (h & ? & ?). eauto. Qed.

Lemma dirent_node d dir name id :
  fs_inv d → dirent d dir name = Some id →
  id ≠ "1" ∧ ∃ h, inodes d !! id = Some h ∧ h_parent h = dir ∧ h_name h = name.
Proof.
  intros [Hw _ _] H. apply (wf_links _ _ Hw) in H as (Hid & nd & Hl & E1 & E2).
  apply fmap_lookup_static in Hl as (h & Hh & ->). eauto.
Qed.

(** ** File publication *)

(** The node the written fields describe. *)
Definition written (a : publishArgs) d : node :=
  static (foldl hset1 (default emptyHash (inodes d !! p_id a))
            (p_fields a ++ [FRevision (p_revision a); FContent []])).

Lemma create_file_inv a staged d :
  fs_inv d → p_create a = true → inodes d !! p_id a = None →
  dirent d (p_parent a) (p_name a) = None → type_of d (p_parent a) = Some "dir" →
  written a d = Node (p_parent a) (p_name a) (Some "file") (p_size a) → 0 ≤ p_size a →
  fs_inv (publish_effects a staged d).
Proof.
  intros [Hw Hr Hc] Hcr Hid Hfree (hp & Hhp & Htp)%type_of_static Hwr Hsz.
  unfold publish_effects. rewrite Hcr. apply xadd_inv.
  assert (size_of d (p_id a) = 0) as -> by (unfold size_of; by rewrite Hid).
  set (V := static <$> inodes d) in *. set (nd := Node (p_parent a) (p_name a) (Some "file") (p_size a)) in *.
  assert (V !! p_id a = None) as HV by (unfold V; by rewrite lookup_fmap, Hid).
  assert (V !! p_parent a = Some (static hp)) as HVp by by apply static_lookup.
  match goal with |- fs_inv ?x => set (d' := x) end.
  assert (inodes d' = hset (p_parent a) [FMtime (p_mtime a); FCtime (p_mtime a)]
            (hset (p_id a) (p_fields a ++ [FRevision (p_revision a); FContent []]) (inodes d))) as HI
    by (unfold d'; case_bool_decide; done).
  assert (dirents d' = link (p_parent a) (p_name a) (p_id a) (dirents d)) as HD
    by (unfold d'; case_bool_decide; done).
  assert (info d' = hincrby CTotalData (p_size a - 0) (hincrby CFiles 1 (info d))) as HN
    by (unfold d'; case_bool_decide; done).
  clearbody d'.
  assert (static <$> inodes d' = <[p_id a := nd]> V) as HV'.
  { rewrite HI. rewrite (proj1 (static_touch _ _ _ _ (hset_is_Some _ _ _ _ (ltac:(by eauto))))).
    rewrite static_hset. f_equal. exact Hwr. }
  constructor; rewrite ?HV'.
  - eapply tree_wf_ext; [|eapply (add_wf V (lk (dirents d)) (p_id a) nd); eauto; by left].
    intros. by rewrite HD, lk_link.
  - apply add_rooted; eauto. intros E. rewrite E in HV. destruct (wf_root _ _ Hw) as (? & ? & _). congruence.
  - destruct Hc as [C1 C2 C3 C4]. rewrite HN. destruct (info d).
    constructor; simpl in *; rewrite msum_insert_fresh by done; acct.
Qed.

Lemma update_file_inv a staged d h :
  fs_inv d → p_create a = false → inodes d !! p_id a = Some h → h_type h = Some "file" →
  written a d = Node (h_parent h) (h_name h) (Some "file") (p_size a) → 0 ≤ p_size a →
  fs_inv (publish_effects a staged d).
Proof.
  intros [Hw Hr Hc] Hcr Hid Hty Hwr Hsz.
  unfold publish_effects. rewrite Hcr. apply xadd_inv.
  assert (size_of d (p_id a) = h_size h) as -> by (unfold size_of; by rewrite Hid).
  set (V := static <$> inodes d) in *. set (nd := Node (h_parent h) (h_name h) (Some "file") (p_size a)) in *.
  assert (V !! p_id a = Some (static h)) as HV by by apply static_lookup.
  match goal with |- fs_inv ?x => set (d' := x) end.
  assert (inodes d' = hset (p_id a) (p_fields a ++ [FRevision (p_revision a); FContent []]) (inodes d)) as HI
    by (unfold d'; case_bool_decide; done).
  assert (dirents d' = dirents d) as HD by (unfold d'; case_bool_decide; done).
  assert (info d' = hincrby CTotalData (p_size a - h_size h) (info d)) as HN
    by (unfold d'; case_bool_decide; done).
  clearbody d'.
  assert (static <$> inodes d' = <[p_id a := nd]> V) as HV'.
  { rewrite HI, static_hset. f_equal. exact Hwr. }
  constructor; rewrite ?HV'.
  - rewrite HD. eapply change_wf; eauto.
  - eapply change_rooted; eauto.
  - destruct Hc as [C1 C2 C3 C4]. rewrite HN. destruct (info d).
    constructor; simpl in *; rewrite (msum_change _ _ _ (static h)) by done; acct.
Qed.

Lemma guard_code g d : guard g d = Some 1 → False.
Proof. unfold guard. repeat case_match; done. Qed.

(** What the guards of [publishFileScript] have established when it commits. *)
Lemma publish_commit a d d' :
  publishFileScript a d = Ok (1, d') →
  ∃ staged, d' = publish_effects a staged d ∧ stages d !! p_stage a = Some staged ∧
  guard (p_guard a) d = None ∧ type_of d (p_parent a) = Some "dir" ∧ changes d ≠ None ∧
  (if p_create a then dirent d (p_parent a) (p_name a) = None
   else dirent d (p_parent a) (p_name a) = Some (p_id a) ∧ revision_of d (p_id a) = p_expected a ∧
        is_Some (inodes d !! p_id a)).
Proof.
  unfold publishFileScript. intros H. destruct (guard (p_guard a) d) as [code|] eqn:Hg.
  { simplify_eq. by apply guard_code in Hg. }
  script_inv H; eexists; split_and!; try done; tests.
Qed.

(** ** Metadata updates *)

Lemma update_commit a d d' :
  updateInodeScript a d = Ok (1, d') →
  d' = xadd (u_payload a)
         (with_inodes (hset (u_id a) (u_fields a ++ [FRevision (u_revision a)])) d) ∧
  guard (u_guard a) d = None ∧ revision_of d (u_id a) = u_expected a ∧
  is_Some (inodes d !! u_id a) ∧
  (u_id a = "1" ∨ dirent d (u_parent a) (u_name a) = Some (u_id a)).
Proof.
  unfold updateInodeScript. intros H. destruct (guard (u_guard a) d) as [code|] eqn:Hg.
  { simplify_eq. by apply guard_code in Hg. }
  script_inv H; split_and!; try done; tests.
Qed.

Lemma update_inv a d d' h :
  fs_inv d → updateInodeScript a d = Ok (1, d') → inodes d !! u_id a = Some h →
  static (foldl hset1 h (u_fields a ++ [FRevision (u_revision a)])) = static h →
  fs_inv d'.
Proof.
  intros [Hw Hr Hc] (-> & _)%update_commit Hh Hst. apply xadd_plain_inv.
  assert (static <$> hset (u_id a) (u_fields a ++ [FRevision (u_revision a)]) (inodes d)
          = static <$> inodes d) as E.
  { rewrite static_hset, Hh. simpl. rewrite Hst. apply insert_id. by apply static_lookup. }
  constructor; simpl; by rewrite ?E.
Qed.

(** ** Creation of directories and links *)

Lemma create_commit a d d' :
  createMetadataScript a d = Ok (1, d') →
  d' = create_effects a d ∧ dirent d (c_parent a) (c_name a) = None ∧
  type_of d (c_parent a) = Some "dir".
Proof. unfold createMetadataScript. intros H. script_inv H; split_and!; try done; tests. Qed.

Lemma create_inv a d d' sz :
  fs_inv d → createMetadataScript a d = Ok (1, d') → inodes d !! c_id a = None →
  static (foldl hset1 emptyHash (c_fields a)) = Node (c_parent a) (c_name a) (Some (c_type a)) sz →
  (c_type a = "dir" ∨ c_type a = "symlink") → 0 ≤ sz →
  fs_inv d'.
Proof.
  intros [Hw Hr Hc] (-> & Hfree & (hp & Hhp & Htp)%type_of_static)%create_commit Hid Hst Hty Hsz.
  unfold create_effects. apply xadd_inv.
  set (V := static <$> inodes d) in *. set (nd := Node (c_parent a) (c_name a) (Some (c_type a)) sz) in *.
  assert (V !! c_id a = None) as HV by (unfold V; by rewrite lookup_fmap, Hid).
  assert (V !! c_parent a = Some (static hp)) as HVp by by apply static_lookup.
  match goal with |- fs_inv ?x => set (d' := x) end.
  assert (static <$> inodes d' = <[c_id a := nd]> V) as HV'.
  { unfold d'. simpl. rewrite (proj1 (static_touch _ _ _ _ (hset_is_Some _ _ _ _ (ltac:(by eauto))))).
    rewrite static_hset, Hid. f_equal. exact Hst. }
  constructor; rewrite ?HV'; unfold d'; simpl.
  - eapply tree_wf_ext; [|eapply (add_wf V (lk (dirents d)) (c_id a) nd); eauto].
    + intros. by rewrite lk_link.
    + unfold known_type. simpl. destruct Hty as [E|E]; rewrite E; auto.
  - apply add_rooted; eauto. intros E. rewrite E in HV. destruct (wf_root _ _ Hw) as (? & ? & _). congruence.
  - destruct Hc as [C1 C2 C3 C4]. destruct (info d).
    destruct Hty as [Hty|Hty]; rewrite Hty in *; simpl;
      constructor; simpl in *; rewrite msum_insert_fresh by done; acct.
Qed.

(** ** Deletion *)

Lemma delete_commit a d d' :
  deleteInodeScript a d = Ok (1, d') →
  d' = delete_effects a (type_of d (d_id a)) (size_of d (d_id a)) d ∧
  guard (d_guard a) d = None ∧ dirent d (d_parent a) (d_name a) = Some (d_id a) ∧
  revision_of d (d_id a) = d_expected a ∧
  (type_of d (d_id a) = Some "dir" → has_live_child d (d_id a) = false).
Proof.
  unfold deleteInodeScript. intros H. destruct (guard (d_guard a) d) as [code|] eqn:Hg.
  { simplify_eq. by apply guard_code in Hg. }
  script_inv H; split_and!; try done; tests.
Qed.

Lemma no_live_child d id :
  fs_inv d → has_live_child d id = false → childless (static <$> inodes d) id.
Proof.
  intros Hinv Hno c nd Hl Hc E. pose proof (inv_tree _ Hinv) as Hw.
  assert (dirent d id (nd_name nd) = Some c) as Hd by (apply (wf_links _ _ Hw); eauto).
  unfold dirent in Hd. apply bind_Some in Hd as (m & Hm & Hn).
  apply not_true_iff_false in Hno. apply Hno. unfold has_live_child. rewrite Hm. simpl.
  apply existsb_exists. exists (nd_name nd, c). split.
  - by apply list_elem_of_In, elem_of_map_to_list.
  - simpl. apply fmap_lookup_static in Hl as (h & Hh & _). rewrite Hh. by apply bool_decide_eq_true_2.
Qed.

Lemma childless_non_dir d id h :
  fs_inv d → inodes d !! id = Some h → h_type h ≠ Some "dir" → childless (static <$> inodes d) id.
Proof.
  intros Hinv Hh Hty c nd Hl Hc E.
  destruct (wf_parents _ _ (inv_tree _ Hinv) _ _ Hl Hc) as (p & Hp & Hd).
  rewrite E in Hp. apply fmap_lookup_static in Hp as (h' & ? & ->). by simplify_eq.
Qed.

(** The counters after a node of a known type has gone. *)
Lemma counts_delete V i id h :
  counts_ok V i → V !! id = Some (static h) → known_type (h_type h) → 0 ≤ h_size h →
  ∀ c, c = type_counter (h_type h) ∨ c = replaced_counter (h_type h) →
  let i' := hincrby c (-1) i in
  counts_ok (delete id V)
    (if bool_decide (h_type h = Some "file") && (0 <? h_size h) then hincrby CTotalData (- h_size h) i' else i').
Proof.
  intros [C1 C2 C3 C4] Hl Hty Hs c Hcnt i'.
  assert (c = type_counter (h_type h)) as ->.
  { destruct Hcnt as [->| ->]; [done|]. unfold type_counter, replaced_counter.
    destruct Hty as [E|[E|E]]; rewrite E; reflexivity. }
  assert (∀ w, msum w (delete id V) = msum w V - w (static h)) as Hd by (intros; by apply msum_delete).
  unfold i'. destruct i. simpl in *. unfold type_counter.
  destruct Hty as [E|[E|E]]; rewrite E; simpl; try (destruct (0 <? h_size h) eqn:Es);
    constructor; simpl; rewrite Hd; rewrite ?is_type_eq, ?file_bytes_eq; simpl; rewrite E; simpl; lia.
Qed.

(** Moving a node does not change the accounting. *)
Lemma counts_moved V i id h parent name :
  counts_ok V i → V !! id = Some (static h) →
  counts_ok (<[id := Node parent name (h_type h) (h_size h)]> V) i.
Proof.
  intros [C1 C2 C3 C4] Hl. constructor; rewrite (msum_change _ _ _ (static h)) by done;
    rewrite ?is_type_eq, ?file_bytes_eq; simpl; lia.
Qed.

Lemma delete_inv a d d' :
  fs_inv d → deleteInodeScript a d = Ok (1, d') → fs_inv d'.
Proof.
  intros Hinv (-> & _ & Hlink & _ & Hch)%delete_commit. pose proof Hinv as [Hw Hr Hc].
  destruct (dirent_node _ _ _ _ Hinv Hlink) as (Hid & h & Hh & Ep & En).
  assert (type_of d (d_id a) = h_type h) as Et by (unfold type_of; by rewrite Hh).
  assert (size_of d (d_id a) = h_size h) as Es by (unfold size_of; by rewrite Hh).
  rewrite Et, Es in *. set (V := static <$> inodes d) in *.
  assert (V !! d_id a = Some (static h)) as HV by by apply static_lookup.
  assert (childless V (d_id a)) as Hcl.
  { destruct (decide (h_type h = Some "dir")); [by apply no_live_child; auto|by eapply childless_non_dir]. }
  destruct (wf_parents _ _ Hw _ _ HV Hid) as (p & Hp & _). simpl in Hp. rewrite Ep in Hp.
  apply fmap_lookup_static in Hp as (hp & Hhp & _).
  assert (d_parent a ≠ d_id a) as Hne by (rewrite <- Ep; by apply (Hcl _ _ HV)).
  unfold delete_effects. apply xadd_inv.
  match goal with |- fs_inv ?x => set (d' := x) end.
  assert (static <$> inodes d' = delete (d_id a) V) as HV'.
  { assert (inodes d' = hset (d_parent a) [FMtime (d_now a); FCtime (d_now a)] (delete (d_id a) (inodes d))) as ->
      by (unfold d'; case_match; done).
    assert (is_Some (delete (d_id a) (inodes d) !! d_parent a)) as Hs
      by (rewrite lookup_delete_ne by done; by eauto).
    rewrite (proj1 (static_touch _ _ _ _ Hs)). apply fmap_delete. }
  assert (dirents d' = unlink (d_parent a) (d_name a) (delete (d_id a) (dirents d))) as HD
    by (unfold d'; case_match; done).
  assert (info d' = if bool_decide (h_type h = Some "file") && (0 <? h_size h)
    then hincrby CTotalData (- h_size h) (hincrby (type_counter (h_type h)) (-1) (info d))
    else hincrby (type_counter (h_type h)) (-1) (info d)) as HN by (unfold d'; case_match; done).
  clearbody d'. constructor; rewrite ?HV'.
  - eapply tree_wf_ext; [|by eapply (remove_wf V); eauto].
    intros. rewrite HD, lk_unlink, lk_delete. simpl. by rewrite Ep, En.
  - by apply remove_rooted.
  - rewrite HN. eapply counts_delete; eauto.
    + by apply (wf_types _ _ Hw _ _ HV).
    + by apply (wf_sizes _ _ Hw _ _ HV).
Qed.

(** ** Renames *)

Lemma rename_commit a d d' :
  renameMetadataScript a d = Ok (1, d') →
  dirent d (r_oldParent a) (r_oldName a) = Some (r_id a) ∧ revision_of d (r_id a) = r_expected a ∧
  type_of d (r_oldParent a) = Some "dir" ∧ type_of d (r_newParent a) = Some "dir" ∧
  match dirent d (r_newParent a) (r_newName a) with
  | None => r_replacedID a = "" ∧ d' = xadd (r_payload a) (set_root_dirty (rename_move a d))
  | Some l => r_replacedID a = l ∧ ∃ hl, inodes d !! l = Some hl ∧ h_revision hl = r_replacedRevision a ∧
      d' = xadd (r_payload a) (set_root_dirty (rename_drop l hl (rename_move a d)))
  end.
Proof.
  unfold renameMetadataScript. intros H.
  destruct (dirent d (r_newParent a) (r_newName a)) as [l|] eqn:El.
  - destruct (inodes d !! l) as [hl|] eqn:Ehl; cbn [default] in H.
    + script_inv H; split_and!; try done; tests.
    + script_inv H; done.
  - script_inv H; split_and!; try done; tests.
Qed.

(** The nodes and links after the move itself. *)
Lemma rename_move_view a d h :
  fs_inv d → dirent d (r_oldParent a) (r_oldName a) = Some (r_id a) →
  is_Some (inodes d !! r_oldParent a) → is_Some (inodes d !! r_newParent a) →
  inodes d !! r_id a = Some h →
  static <$> inodes (rename_move a d) =
    <[r_id a := Node (r_newParent a) (r_newName a) (h_type h) (h_size h)]> (static <$> inodes d) ∧
  (∀ x n, lk (dirents (rename_move a d)) x n =
    if decide (x = r_newParent a ∧ n = r_newName a) then Some (r_id a)
    else if decide (x = r_oldParent a ∧ n = r_oldName a) then None else lk (dirents d) x n) ∧
  info (rename_move a d) = info d ∧ contents (rename_move a d) = contents d.
Proof.
  intros Hinv Hl Ho Hn Hh. split_and!; [|intros; unfold rename_move; simpl; by rewrite lk_link, lk_unlink|done..].
  simpl. match goal with |- context [hset (r_newParent a) _ (hset (r_oldParent a) _ ?m)] => set (m1 := m) end.
  assert (∀ j, is_Some (inodes d !! j) → is_Some (m1 !! j)) as Hkeep by (intros; by apply hset_is_Some).
  assert (static <$> m1 = <[r_id a := Node (r_newParent a) (r_newName a) (h_type h) (h_size h)]>
            (static <$> inodes d)) as <-.
  { unfold m1. rewrite static_hset, Hh. simpl. by destruct h. }
  rewrite (proj2 (static_touch _ _ _ _ (hset_is_Some _ _ _ _ (Hkeep _ Hn)))).
  by rewrite (proj2 (static_touch _ _ _ _ (Hkeep _ Ho))).
Qed.

Lemma rename_inv a d d' :
  fs_inv d → renameMetadataScript a d = Ok (1, d') →
  ¬ below (static <$> inodes d) (r_id a) (r_newParent a) →
  (∀ l, dirent d (r_newParent a) (r_newName a) = Some l →
     l ≠ r_id a ∧ childless (static <$> inodes d) l) →
  fs_inv d'.
Proof.
  intros Hinv (Hlink & _ & (ho & Hho & _)%type_of_static & (hn & Hhn & Htn)%type_of_static & Hcase)%rename_commit
    Hnb Hrep. pose proof Hinv as [Hw Hr Hc].
  destruct (dirent_node _ _ _ _ Hinv Hlink) as (Hid & h & Hh & Ep & En).
  destruct (rename_move_view a d h Hinv Hlink ltac:(by eauto) ltac:(by eauto) Hh) as (HV & HL & HI & _).
  set (V := static <$> inodes d) in *.
  assert (V !! r_id a = Some (static h)) as HVid by by apply static_lookup.
  assert (V !! r_newParent a = Some (static hn)) as HVn by by apply static_lookup.
  destruct (dirent d (r_newParent a) (r_newName a)) as [l|] eqn:El.
  - destruct Hcase as (_ & hl & Hhl & _ & ->). destruct (Hrep l eq_refl) as [Hlid Hcl].
    destruct (dirent_node _ _ _ _ Hinv El) as (Hl1 & hl' & Hhl' & Epl & Enl).
    rewrite Hhl in Hhl'. injection Hhl' as <-.
    assert (V !! l = Some (static hl)) as HVl by by apply static_lookup.
    assert (r_newParent a ≠ l) as Hnl by (rewrite <- Epl; by apply (Hcl _ _ HVl)).
    apply xadd_inv. unfold rename_drop.
    match goal with |- fs_inv ?x => set (d1 := x) end.
    assert (static <$> inodes d1 = <[r_id a := Node (r_newParent a) (r_newName a) (h_type h) (h_size h)]>
              (delete l V)) as HV1.
    { rewrite <- delete_insert_ne by done. rewrite <- HV, <- fmap_delete. by unfold d1; case_match. }
    assert (dirents d1 = delete l (dirents (rename_move a d))) as HD1 by by unfold d1; case_match.
    assert (info d1 = if bool_decide (h_type hl = Some "file") && (0 <? h_size hl)
      then hincrby CTotalData (- h_size hl) (hincrby (replaced_counter (h_type hl)) (-1) (info d))
      else hincrby (replaced_counter (h_type hl)) (-1) (info d)) as HI1
      by (unfold d1; case_match; done).
    clearbody d1.
    pose proof (remove_wf V _ l (static hl) Hw HVl Hl1 Hcl) as Hw1.
    assert (delete l V !! r_id a = Some (static h)) as HVid' by by rewrite lookup_delete_ne.
    constructor; rewrite ?HV1.
    + eapply tree_wf_ext; [|eapply (move_wf _ _ _ (static h) _ _ (static hn)); [exact Hw1|exact HVid'|done| |exact Htn|]].
      * intros x n. rewrite HD1, lk_delete, HL. simpl. rewrite Ep, En, Epl, Enl.
        repeat case_decide; naive_solver.
      * by rewrite lookup_delete_ne.
      * left. simpl. rewrite decide_True by done. done.
    + apply (move_rooted _ _ (static h)); [by apply remove_rooted|done..| |].
      * rewrite lookup_delete_ne by done. eauto.
      * intros Hb. apply Hnb. clear -Hb. induction Hb as [|i nd [_ Hi]%lookup_delete_Some ? _ IH];
          [constructor|by econstructor].
    + rewrite HI1. pose proof (counts_delete V (info d) l hl Hc HVl (wf_types _ _ Hw _ _ HVl)
        (wf_sizes _ _ Hw _ _ HVl) _ (or_intror eq_refl)) as Hcd.
      eapply (counts_moved (delete l V)); eauto.
  - destruct Hcase as [_ ->]. apply xadd_inv. constructor; rewrite ?HV.
    + eapply tree_wf_ext; [|eapply (move_wf V _ _ (static h) _ _ (static hn)); [exact Hw|exact HVid|done|exact HVn|exact Htn|by left]].
      intros x n. rewrite HL. simpl. by rewrite Ep, En.
    + apply (move_rooted V _ (static h)); eauto.
    + rewrite HI. eapply (counts_moved V); eauto.
Qed.

(** ** Exits without effect *)

Lemma revision_set h fs r k : h_revision (foldl hset1 h (fs ++ [FRevision r; FContent k])) = r.
Proof. rewrite foldl_app. simpl. by destruct (foldl hset1 h fs). Qed.

Lemma revision_set1 h fs r : h_revision (foldl hset1 h (fs ++ [FRevision r])) = r.
Proof. rewrite foldl_app. simpl. by destruct (foldl hset1 h fs). Qed.

(** ** What a publication leaves *)

Lemma publish_effects_at (a : publishArgs) staged d :
  p_create a = false →
  inodes (publish_effects a staged d) =
    hset (p_id a) (p_fields a ++ [FRevision (p_revision a); FContent []]) (inodes d) ∧
  dirents (publish_effects a staged d) = dirents d ∧
  stages (publish_effects a staged d) = delete (p_stage a) (stages d) ∧
  contents (publish_effects a staged d) =
    (if bool_decide (p_size a = 0) then delete (p_id a) (contents d)
     else <[p_id a := staged]> (contents d)) ∧
  generation (publish_effects a staged d) = generation d ∧ leases (publish_effects a staged d) = leases d.
Proof.
  intros Hc. unfold publish_effects, xadd. rewrite Hc.
  split_and!; by repeat case_match.
Qed.

Lemma revision_after (a : publishArgs) staged d :
  p_create a = false → revision_of (publish_effects a staged d) (p_id a) = p_revision a.
Proof.
  intros Hc. unfold revision_of. rewrite (proj1 (publish_effects_at a staged d Hc)).
  unfold hset. rewrite lookup_insert_eq. apply revision_set.
Qed.

(** The guards of a publication that commits. *)
Lemma publish_ready (a : publishArgs) staged d :
  guard (p_guard a) d = None → changes d ≠ None → revision_of d (p_id a) ≠ p_revision a →
  type_of d (p_parent a) = Some "dir" →
  (if p_create a then dirent d (p_parent a) (p_name a) = None
   else dirent d (p_parent a) (p_name a) = Some (p_id a) ∧ revision_of d (p_id a) = p_expected a) →
  stages d !! p_stage a = Some staged → (p_create a = false → inodes d !! p_id a ≠ None) →
  publication_counter d CFiles 1 = true →
  publication_counter d CTotalData (p_size a - size_of d (p_id a)) = true →
  publishFileScript a d = Ok (1, publish_effects a staged d).
Proof.
  intros Hg Hch Hrev Hty Hl Hst Hid Hc1 Hc2. unfold publishFileScript. rewrite Hg. cbv zeta.
  rewrite (bool_decide_eq_false_2 (revision_of d (p_id a) = p_revision a)) by done. cbn [andb].
  rewrite (bool_decide_eq_false_2 (changes d = None)) by done.
  rewrite (bool_decide_eq_false_2 (inodes d !! p_parent a = None)).
  2:{ unfold type_of in Hty. by destruct (inodes d !! p_parent a). }
  rewrite Hst, Hty, (bool_decide_eq_true_2 (Some "dir" = Some "dir")), Hc1, Hc2 by done. cbn [negb andb].
  destruct (p_create a).
  - by rewrite Hl, bool_decide_eq_false_2 by auto.
  - destruct Hl as [Hl He]. rewrite Hl, He.
    rewrite !bool_decide_eq_false_2 by naive_solver. reflexivity.
Qed.

(** A script that returns a code other than 1 has not changed anything. *)
Lemma publish_no_effect a d c d' : publishFileScript a d = Ok (c, d') → c ≠ 1 → d' = d.
Proof. unfold publishFileScript. intros H Hc. script_inv H; done. Qed.

Lemma delete_no_effect a d c d' : deleteInodeScript a d = Ok (c, d') → c ≠ 1 → d' = d.
Proof. unfold deleteInodeScript. intros H Hc. script_inv H; done. Qed.

Lemma update_no_effect a d c d' : updateInodeScript a d = Ok (c, d') → c ≠ 1 → d' = d.
Proof. unfold updateInodeScript. intros H Hc. script_inv H; done. Qed.

Lemma create_no_effect a d c d' : createMetadataScript a d = Ok (c, d') → c ≠ 1 → d' = d.
Proof. unfold createMetadataScript. intros H Hc. script_inv H; done. Qed.

Lemma rename_no_effect a d c d' : renameMetadataScript a d = Ok (c, d') → c ≠ 1 → d' = d.
Proof. unfold renameMetadataScript. intros H Hc. script_inv H; done. Qed.

End Scripts.
