(* ===== verification/FsClient.v ===== *)
(** The filesystem client (mount/internal/client/native_core.go,
    native_helpers.go, native_parent.go, native_range.go, publication.go).

    Operations are programs of a state monad with errors over a [world]: the
    Redis state, the supply of operation identities and the identifiers this
    client has allocated.  An error keeps the effects made before it.  Other
    clients are part of the model: before every command that this client sends,
    [interfere] lets them change the state, by a function [env] about which only
    the rely condition of FsInv is assumed.  A WATCH transaction either runs
    without interference or is retried, which [aborts] decides.

    The client is the one [New] builds: no attribute cache, no mutation
    observer; commands do not fail for transport reasons. *)
From Stdlib Require Import Strings.Byte.
From stdpp Require Import pretty.
From S2P Require Import Prelude Content Paths FsState.
#[local] Open Scope string_scope.
#[local] Open Scope list_scope.
#[local] Open Scope Z_scope.

Declare Scope fs_scope.

(** * Data *)

Inductive fsError :=
| RedisNil | TxFailedErr
| ErrNotFound | ErrNotFile | ErrNotDir | ErrNotSymlink | ErrAlreadyExists | ErrDirNotEmpty
| ErrUnsupported | ErrCannotWriteRoot | ErrCannotMoveRoot | ErrCannotRemoveRoot | ErrParentConflict
| ErrWriteConflict | ErrWorkspaceChanged | ErrNativeSessionLost
| ErrStageExpired | ErrJournalType | ErrScript (e : scriptError) | ErrContent (e : contentError)
| ErrInvalidSizeArg | ErrInvalidRange | ErrMissingInodeID
| ErrTooManyLinks | ErrInvalidTarget | ErrOwnSubtree | ErrDestinationChanged | ErrInvalidChunks | ErrOutOfFuel.

#[export] Instance scriptError_eq_dec : EqDecision scriptError.
Proof. solve_decision. Defined.
#[export] Instance contentError_eq_dec : EqDecision contentError.
Proof. solve_decision. Defined.
#[export] Instance fsError_eq_dec : EqDecision fsError.
Proof. solve_decision. Defined.

Record inodeData := InodeData {
  Revision : string; ID : string; Parent : string; Name : string; Type_ : string;
  Mode : Z; UID : Z; GID : Z; Size : Z; CtimeMs : Z; MtimeMs : Z; AtimeMs : Z;
  Target : string; Content : bytes; ContentRef : string
}.

Record StatResult := StatResult_ {
  st_revision : string; st_inode : Z; st_type : string; st_mode : Z; st_uid : Z; st_gid : Z;
  st_size : Z; st_ctime : Z; st_mtime : Z; st_atime : Z
}.

Record AttrUpdate := AttrUpdate_ {
  upd_mode : option Z; upd_uid : option Z; upd_gid : option Z;
  upd_atime : option Z; upd_mtime : option Z
}.

(** The values the client reads from its context. *)
Record Ctx := Ctx_ {
  cx_generation : option string;
  cx_lease : string;
  cx_checked : bool;
  cx_expectedStat : option (option StatResult);
  cx_expectedParents : gmap string Z;
  cx_ranged : bool
}.

Definition InvalidateOpInode : string := "inode".
Definition InvalidateOpDir : string := "dir".
Definition InvalidateOpPrefix : string := "prefix".
Definition InvalidateOpContent : string := "content".

Definition RenameNoreplace : Z := 1.
Definition RenameExchange : Z := 2.
Definition maxSymlinkDepth : nat := 40.

(** [strconv.ParseUint(id, 10, 64)] with the error dropped: zero on a syntax
    error, the largest value on overflow. *)
Definition digit (c : ascii) : option Z :=
  let n := Z.of_nat (nat_of_ascii c) in
  if (48 <=? n) && (n <=? 57) then Some (n - 48) else None.

Fixpoint parse_digits (acc : Z) (s : string) : option Z :=
  match s with
  | EmptyString => Some acc
  | String c s' => match digit c with Some v => parse_digits (acc * 10 + v) s' | None => None end
  end.

Definition inodeUint64 (id : string) : Z :=
  match id with
  | EmptyString => 0
  | _ => match parse_digits 0 id with
         | Some n => if n <=? max_uint64 then n else max_uint64
         | None => 0
         end
  end.

(** [strconv.FormatUint] and [strconv.FormatInt]. *)
Definition FormatInt (n : Z) : string := pretty n.

Definition toStat (i : inodeData) : StatResult :=
  StatResult_ (Revision i) (inodeUint64 (ID i)) (Type_ i) (Mode i) (UID i) (GID i) (Size i)
    (CtimeMs i) (MtimeMs i) (AtimeMs i).

(** [inodeFromValues]. *)
Definition inodeFromHash (id : string) (h : inodeHash) : option inodeData :=
  match h_type h with
  | None => None
  | Some ty =>
      Some (InodeData (h_revision h) id (h_parent h) (h_name h) ty
        (u32 (h_mode h)) (u32 (h_uid h)) (u32 (h_gid h)) (h_size h)
        (h_ctime h) (h_mtime h) (h_atime h) (h_target h) [] (h_content_ref h))
  end.

Definition isExternalContentRef (ref : string) : bool :=
  let r := TrimSpace ref in bool_decide (r = RefExternal ∨ r = RefArray).

Definition inodeFields (i : inodeData) (includeContent : bool) : list hfield :=
  [FType (Type_ i); FMode (Mode i); FUid (UID i); FGid (GID i); FSize (Size i);
   FCtime (CtimeMs i); FMtime (MtimeMs i); FAtime (AtimeMs i); FParent (Parent i); FName (Name i)]
  ++ (if bool_decide (Type_ i = "symlink") then [FTarget (Target i)] else [])
  ++ (if bool_decide (ContentRef i ≠ "") then [FContentRef (ContentRef i)] else [])
  ++ (if includeContent && bool_decide (Type_ i = "file") && negb (isExternalContentRef (ContentRef i))
      then [FContent (Content i)] else []).

Definition inodeFieldsAtPath (i : inodeData) (p : string) (includeContent : bool) : list hfield :=
  inodeFields i includeContent ++ [FPath p; FPathAncestors (indexedPathAncestors p)].

(** Setters for the fields the operations change on their copy. *)
Definition with_meta (i : inodeData) (mode uid gid size ctime mtime atime : Z) : inodeData :=
  InodeData (Revision i) (ID i) (Parent i) (Name i) (Type_ i) mode uid gid size ctime mtime atime
    (Target i) (Content i) (ContentRef i).
Definition with_times (i : inodeData) (mtime atime : Z) : inodeData :=
  with_meta i (Mode i) (UID i) (GID i) (Size i) (CtimeMs i) mtime atime.
Definition with_content (i : inodeData) (c : bytes) : inodeData :=
  InodeData (Revision i) (ID i) (Parent i) (Name i) (Type_ i) (Mode i) (UID i) (GID i) (len c)
    (CtimeMs i) (MtimeMs i) (AtimeMs i) (Target i) c (ContentRef i).
Definition with_ref (i : inodeData) (r : string) : inodeData :=
  InodeData (Revision i) (ID i) (Parent i) (Name i) (Type_ i) (Mode i) (UID i) (GID i) (Size i)
    (CtimeMs i) (MtimeMs i) (AtimeMs i) (Target i) (Content i) r.
Definition with_revision (i : inodeData) (r : string) : inodeData :=
  InodeData r (ID i) (Parent i) (Name i) (Type_ i) (Mode i) (UID i) (GID i) (Size i)
    (CtimeMs i) (MtimeMs i) (AtimeMs i) (Target i) (Content i) (ContentRef i).
Definition with_place (i : inodeData) (id parent name : string) : inodeData :=
  InodeData (Revision i) id parent name (Type_ i) (Mode i) (UID i) (GID i) (Size i)
    (CtimeMs i) (MtimeMs i) (AtimeMs i) (Target i) (Content i) (ContentRef i).

(** ** Conditions on the context *)

Definition checkWriteCondition (ctx : Ctx) (i : inodeData) (creating : bool) : result fsError () :=
  match cx_expectedStat ctx with
  | None => Ok ()
  | Some None => if creating then Ok () else Err ErrWriteConflict
  | Some (Some st) =>
      if creating || negb (st_inode st =? inodeUint64 (ID i))
         || negb (bool_decide (st_revision st = Revision i))
      then Err ErrWriteConflict else Ok ()
  end.

Definition checkExpectedParent (ctx : Ctx) (childPath parentID : string) : result fsError () :=
  if bool_decide (cx_expectedParents ctx = ∅) then Ok ()
  else match cx_expectedParents ctx !! parentOf (normalizePath childPath) with
       | Some expected =>
           if (expected =? 0) || negb (bool_decide (FormatInt expected = parentID))
           then Err ErrWriteConflict else Ok ()
       | None => Err ErrWriteConflict
       end.

Definition WithExpectedParent (ctx : Ctx) (parentPath : string) (inode : Z) : Ctx :=
  let p := normalizePath parentPath in
  let inode' := match cx_expectedParents ctx !! p with
                | Some prior => if prior =? inode then inode else 0
                | None => inode
                end in
  Ctx_ (cx_generation ctx) (cx_lease ctx) (cx_checked ctx) (cx_expectedStat ctx)
    (<[p := inode']> (cx_expectedParents ctx)) (cx_ranged ctx).

Definition WithRange (ctx : Ctx) : Ctx :=
  Ctx_ (cx_generation ctx) (cx_lease ctx) (cx_checked ctx) (cx_expectedStat ctx)
    (cx_expectedParents ctx) true.

Definition guardOf (ctx : Ctx) : guardArgs :=
  GuardArgs (default "" (cx_generation ctx))
    (if bool_decide (cx_lease ctx = "") then None else Some (cx_lease ctx)).

(** * The world and its monad *)

Section Client.
Context {arr : Type} `{!RedisArray arr}.

Record world := World {
  w_db : db arr;
  w_tok : Z;
  w_tick : Z;
  w_owned : gset string;
  w_resv : gset string;
  w_now : Z
}.

(** What a client is run with: [tok n] is the [n]-th identity [newOriginID]
    returns; [env] is what the other clients do before a command; [aborts] tells
    which WATCH attempts fail and [throttled] which dirty marks fall into the
    throttle window; [arrays] is the server's support for array commands;
    [origin] and [publishDisabled] are fields of the client. *)
Class Params := {
  tok : Z → string;
  env : world → world;
  aborts : Z → bool;
  throttled : Z → bool;
  arrays : bool;
  origin : string;
  publishDisabled : bool
}.
Context {params : Params}.

Definition M (A : Type) : Type := world → result fsError A * world.

Definition ret {A} (a : A) : M A := λ w, (Ok a, w).
Definition bindM {A B} (m : M A) (f : A → M B) : M B := λ w,
  match m w with
  | (Ok a, w') => f a w'
  | (Err e, w') => (Err e, w')
  end.
#[local] Notation "x ← y ; z" := (bindM y (λ x, z))
  (at level 20, y at level 100, z at level 200, only parsing) : fs_scope.
#[local] Open Scope fs_scope.

Definition fail {A} (e : fsError) : M A := λ w, (Err e, w).
Definition lift {A} (r : result fsError A) : M A := λ w, (r, w).
Definition try {A} (m : M A) : M (result fsError A) := λ w, let '(r, w') := m w in (Ok r, w').

Definition interfere : M () := λ w,
  let w' := env w in
  (Ok (), World (w_db w') (w_tok w') (w_tick w + 1) (w_owned w') (w_resv w') (w_now w')).
Definition gets {A} (f : db arr → A) : M A := λ w, (Ok (f (w_db w)), w).
Definition modify (f : db arr → db arr) : M () := λ w,
  (Ok (), World (f (w_db w)) (w_tok w) (w_tick w) (w_owned w) (w_resv w) (w_now w)).
Definition newOriginID : M string := λ w,
  (Ok (tok (w_tok w)),
   World (w_db w) (w_tok w + 1) (w_tick w) (w_owned w) ({[tok (w_tok w)]} ∪ w_resv w) (w_now w)).
Definition nowMs : M Z := λ w, (Ok (w_now w), w).

(** One command: the other clients, then the read. *)
Definition read {A} (f : db arr → A) : M A := _ ← interfere; gets f.

(** One script call on the current state; [r] is the operation identity the
    script may publish, which the caller gives up. *)
Definition script (r : string) (s : db arr → result scriptError (Z * db arr)) : M Z := λ w,
  match s (w_db w) with
  | Ok (code, d') =>
      (Ok code, World d' (w_tok w) (w_tick w) (w_owned w) (w_resv w ∖ {[r]}) (w_now w))
  | Err e => (Err (ErrScript e), w)
  end.

(** [w_owned] collects the inode identifiers this client has allocated and
    [w_resv] the operation identities it has drawn and not yet published. *)
Definition own (id : string) : M () := λ w,
  (Ok (), World (w_db w) (w_tok w) (w_tick w) ({[id]} ∪ w_owned w) (w_resv w) (w_now w)).

(** ** Generation, leases and transactions *)

Definition checkGeneration (ctx : Ctx) : M () :=
  if cx_checked ctx then ret ()
  else match cx_generation ctx with
  | None => ret ()
  | Some g =>
      d ← read (λ d, d);
      if bool_decide (cx_lease ctx ≠ "") then
        if negb (bool_decide (generation d = Some g)) || bool_decide (g = "deleted")
        then fail ErrWorkspaceChanged
        else if bool_decide (cx_lease ctx ∈ leases d) then ret () else fail ErrNativeSessionLost
      else
        if negb (bool_decide (generation d = Some g)) || bool_decide (g = "deleted")
        then fail ErrWorkspaceChanged else ret ()
  end.

(** The walk of [watchExpectedParents] from the root along one path. *)
Fixpoint walk_ids (d : db arr) (id : string) (names : list string) : option string :=
  match names with
  | [] => Some id
  | n :: rest => match dirent d id n with Some next => walk_ids d next rest | None => None end
  end.

Definition watchExpectedParents (ctx : Ctx) : M () :=
  d ← gets (λ d, d);
  if forallb (λ pe : string * Z,
       negb (pe.2 =? 0) &&
       bool_decide (walk_ids d rootInodeID (splitComponents pe.1) = Some (FormatInt pe.2)))
       (map_to_list (cx_expectedParents ctx))
  then ret () else fail ErrWriteConflict.

Definition guarded {A} (ctx : Ctx) (fn : M A) : M A :=
  d ← gets (λ d, d);
  if negb (bool_decide (cx_lease ctx = "")) && negb (bool_decide (cx_lease ctx ∈ leases d))
  then fail ErrNativeSessionLost
  else if match cx_generation ctx with Some g => negb (bool_decide (generation d = Some g)) | None => false end
  then fail ErrWorkspaceChanged
  else _ ← watchExpectedParents ctx; fn.

Definition aborted : M bool := λ w, (Ok (aborts (w_tick w)), w).

(** The attempts of [retryWatch]; [rdb.Watch] returns [TxFailedErr] when a watched
    key changed or the function asked for it. *)
Fixpoint watch_attempts {A} (ctx : Ctx) (n : nat) (fn : M A) : M A :=
  match n with
  | O => fail TxFailedErr
  | S n' =>
      _ ← interfere;
      b ← aborted;
      if b then watch_attempts ctx n' fn
      else
        r ← try (guarded ctx fn);
        match r with
        | Err TxFailedErr => watch_attempts ctx n' fn
        | r => lift r
        end
  end.

Definition retryWatch {A} (ctx : Ctx) (fn : M A) : M A := watch_attempts ctx 16 fn.

(** [runMutationScript]: without bound parents the script is one command; with
    them it runs inside a WATCH transaction that checks them. *)
Definition runMutationScript (ctx : Ctx) (r : string) (s : db arr → result scriptError (Z * db arr)) : M Z :=
  if bool_decide (cx_expectedParents ctx = ∅) then _ ← interfere; script r s
  else retryWatch ctx (script r s).

Definition mutationPayload (op : string) (paths : list string) : option event :=
  if publishDisabled then None else Some (Event origin op paths).

(** ** Publications *)

Definition scriptCode (code : Z) : result fsError () :=
  if code =? -1 then Err ErrWriteConflict
  else if code =? -2 then Err ErrWorkspaceChanged
  else if code =? -4 then Err ErrJournalType
  else if code =? -5 then Err ErrNativeSessionLost
  else Ok ().

Definition publishArgsOf (ctx : Ctx) (p : string) (i : inodeData) (stage revision : string)
    (creating : bool) (extra : list hfield) : publishArgs :=
  PublishArgs (guardOf ctx) (ID i) (Name i) (Revision i) revision creating (MtimeMs i) (Size i)
    (mutationPayload InvalidateOpInode [p])
    ((if cx_ranged ctx then inodeFields i false else inodeFieldsAtPath i p false) ++ extra)
    stage (Parent i).

Definition publishStagedFile (ctx : Ctx) (p : string) (i : inodeData) (stage : string)
    (creating : bool) (extra : list hfield) : M inodeData :=
  _ ← lift (checkExpectedParent ctx p (Parent i));
  _ ← lift (checkWriteCondition ctx i creating);
  revision ← newOriginID;
  r ← try (runMutationScript ctx revision (publishFileScript (publishArgsOf ctx p i stage revision creating extra)));
  _ ← match r with
      | Err e =>
          (* The response can be lost after the commit: the operation token decides. *)
          token ← read (λ d, revision_of d (ID i));
          if bool_decide (token = revision) then ret () else fail e
      | Ok code => lift (if code =? -3 then Err ErrStageExpired else scriptCode code)
      end;
  ret (with_revision i revision).

Definition stageKey (id token : string) : string := id +:+ ":stage:" +:+ token.

Definition stageFullFile (i : inodeData) : M string :=
  t ← newOriginID;
  let stage := stageKey (ID i) t in
  _ ← interfere;
  _ ← modify (with_stages (<[stage :=
        if Size i =? 0 then CellStr [] else QueueWriteFull (ContentRef i) (Content i)]>));
  ret stage.

Definition discardStage (stage : string) : M () :=
  _ ← interfere; modify (with_stages (delete stage)).

(** [defer c.discardStage(stage)] around a body. *)
Definition with_stage_discarded {A} (stage : string) (m : M A) : M A :=
  r ← try m; _ ← discardStage stage; lift r.

Definition deletePublishedInode (ctx : Ctx) (p : string) (i : inodeData) : M () :=
  _ ← lift (checkExpectedParent ctx p (Parent i));
  _ ← lift (checkWriteCondition ctx i false);
  operationID ← newOriginID;
  now ← nowMs;
  code ← runMutationScript ctx operationID (deleteInodeScript
    (DeleteArgs (guardOf ctx) (ID i) (Name i) (Revision i) now (mutationPayload InvalidateOpInode [p]) (Parent i)));
  lift (if code =? -3 then Err ErrDirNotEmpty else scriptCode code).

Definition updatePublishedInode (ctx : Ctx) (p : string) (i : inodeData) (fields : list hfield) :
    M inodeData :=
  _ ← lift (checkExpectedParent ctx p (Parent i));
  _ ← lift (checkWriteCondition ctx i false);
  revision ← newOriginID;
  code ← runMutationScript ctx revision (updateInodeScript
    (UpdateArgs (guardOf ctx) (ID i) (Name i) (Revision i) revision (mutationPayload InvalidateOpInode [p])
       fields (Parent i)));
  _ ← lift (scriptCode code);
  ret (with_revision i revision).

(** [publishInvalidate] for one path, with the cache part of [invalidateInode],
    [invalidateDirListing] and [invalidatePrefix] left to a client with a cache;
    a failure to append is only logged. *)
Definition publishInvalidate (op p : string) : M () :=
  if publishDisabled || bool_decide (p = "") then ret ()
  else _ ← interfere; modify (xadd (Some (Event origin op [p]))).
Definition invalidateInode (p : string) : M () := publishInvalidate InvalidateOpInode p.
Definition invalidateDirListing (p : string) : M () := publishInvalidate InvalidateOpDir p.
Definition invalidatePrefix (p : string) : M () := publishInvalidate InvalidateOpPrefix p.

Definition inThrottle : M bool := λ w, (Ok (throttled (w_tick w)), w).

Definition markRootDirty (ctx : Ctx) : M () :=
  _ ← interfere;
  b ← inThrottle;
  if (b : bool) then ret ()
  else match cx_generation ctx with
  | Some g =>
      d ← gets (λ d, d);
      if negb (bool_decide (generation d = Some g)) then fail ErrWorkspaceChanged
      else if negb (bool_decide (cx_lease ctx = "")) && negb (bool_decide (cx_lease ctx ∈ leases d))
      then fail ErrNativeSessionLost
      else modify set_root_dirty
  | None => modify set_root_dirty
  end.

(** ** Inodes and content *)

Definition inode_at (d : db arr) (id : string) : option inodeData :=
  match inodes d !! id with Some h => inodeFromHash id h | None => None end.

Definition loadInodeByID (id : string) : M (option inodeData) := read (λ d, inode_at d id).

Definition lookupChildID (dirID name : string) : M string :=
  r ← read (λ d, dirent d dirID name);
  match r with Some id => ret id | None => fail RedisNil end.

Definition preferredContentRef : string := if arrays then RefArray else RefExternal.

Definition selectContentRef (i : inodeData) : inodeData :=
  if bool_decide (Type_ i = "file") then
    if bool_decide (ContentRef i = "") then with_ref i preferredContentRef
    else if bool_decide (ContentRef i = RefExternal) && bool_decide (preferredContentRef = RefArray)
    then with_ref i preferredContentRef else i
  else i.

Definition contentCell (d : db arr) (id : string) : cell arr := default CellNone (contents d !! id).

Definition lift_content {A} (r : result contentError A) : M A :=
  match r with Ok a => ret a | Err e => fail (ErrContent e) end.

Definition loadContentExternal (id contentRef : string) : M bytes :=
  if bool_decide (contentRef = RefExternal) then
    c ← read (λ d, contentCell d id);
    match c with
    | CellNone => ret []
    | CellStr v => ret v
    | CellArr _ => fail (ErrContent ErrWrongType)
    end
  else if isExternalContentRef contentRef then
    size ← read (λ d, size_of d id);
    c ← read (λ d, contentCell d id);
    lift_content (Load arrays c contentRef size)
  else read (λ d, match inodes d !! id with Some h => h_content h | None => [] end).

(** ** The root *)

Definition rootHash (now : Z) : list hfield :=
  inodeFieldsAtPath (InodeData "" rootInodeID "" "" "dir" 493 0 0 0 now now now "" [] "") "/" false.

Definition ensureRoot (ctx : Ctx) : M () :=
  _ ← checkGeneration ctx;
  root ← loadInodeByID rootInodeID;
  match root with
  | Some _ => ret ()
  | None =>
      match cx_generation ctx with
      | Some _ => fail ErrWorkspaceChanged
      | None =>
          now ← nowMs;
          _ ← interfere;
          modify (λ d, with_next_inode (match next_inode d with Some n => Some n | None => Some 1 end)
                    (with_info (λ _, InfoHash 0 1 0 0)
                       (with_inodes (hset rootInodeID (rootHash now)) d)))
      end
  end.

Definition loadRootInode : M (option inodeData) := loadInodeByID rootInodeID.

Definition allocInodeID (ctx : Ctx) : M string :=
  _ ← ensureRoot ctx;
  _ ← interfere;
  n ← gets (λ d, default 0 (next_inode d) + 1);
  _ ← modify (with_next_inode (Some n));
  _ ← own (FormatInt n);
  ret (FormatInt n).

(** ** Path resolution *)

Inductive walkResult :=
| WFound (path : string) (i : inodeData)
| WJump (path : string).

(** The path a symbolic link is replaced by. *)
Definition rebuilt (curPath target : string) (rest : list string) : string :=
  let base := if HasPrefix target "/" then target else PathJoin curPath target in
  let remaining := JoinWith "/" rest in
  normalizePath (if bool_decide (remaining = "") then base else PathJoin base remaining).

(** The loop over the components until the end or the next link to follow. *)
Fixpoint walk (followFinal : bool) (curPath : string) (cur : inodeData) (components : list string) :
    M walkResult :=
  match components with
  | [] => ret (WFound curPath cur)
  | c :: rest =>
      let nextPath := joinPath curPath c in
      childID ← lookupChildID (ID cur) c;
      child ← loadInodeByID childID;
      match child with
      | None => fail RedisNil
      | Some i =>
          let isFinal := bool_decide (rest = []) in
          if bool_decide (Type_ i = "symlink") && (followFinal || negb isFinal) then
            if bool_decide (Target i = "") then ret (WJump "")
            else ret (WJump (rebuilt curPath (Target i) rest))
          else if isFinal then ret (WFound nextPath i)
          else if bool_decide (Type_ i = "dir") then walk followFinal nextPath i rest
          else fail ErrNotDir
      end
  end.

(** One turn per followed link: [hops] counts the links still allowed. *)
Fixpoint resolve_from (hops : nat) (followFinal : bool) (p : string) : M (string * inodeData) :=
  root ← loadRootInode;
  match root with
  | None => fail RedisNil
  | Some r =>
      res ← walk followFinal "/" r (splitComponents p);
      match res with
      | WFound path i => ret (path, i)
      | WJump q =>
          match hops with
          | O => fail ErrTooManyLinks
          | S hops' => if bool_decide (q = "") then fail ErrInvalidTarget else resolve_from hops' followFinal q
          end
      end
  end.

Definition resolvePath (ctx : Ctx) (p : string) (followFinal : bool) : M (string * inodeData) :=
  _ ← ensureRoot ctx;
  resolve_from maxSymlinkDepth followFinal (normalizePath p).

Definition loadInode (ctx : Ctx) (p : string) : M (option inodeData) :=
  r ← try (resolvePath ctx (normalizePath p) false);
  match r with
  | Ok (_, i) => ret (Some i)
  | Err RedisNil => ret None
  | Err e => fail e
  end.

(** ** Creation *)

Definition createArgsOf (i : inodeData) (childPath revision : string) : createArgs :=
  CreateArgs (ID i) (Name i) (Type_ i) revision (CtimeMs i)
    (inodeFieldsAtPath i childPath false ++ [FRevision revision])
    (mutationPayload InvalidateOpInode [childPath]) (Parent i).

(** The transaction of [createInodeUnderParent] for directories and links. *)
Definition createTx (i : inodeData) (childPath : string) : M string :=
  d ← gets (λ d, d);
  if bool_decide (inodes d !! Parent i = None) then fail ErrWriteConflict
  else if bool_decide (dirent d (Parent i) (Name i) ≠ None) then fail ErrAlreadyExists
  else
    revision ← newOriginID;
    code ← script revision (createMetadataScript (createArgsOf i childPath revision));
    if code =? -1 then fail ErrWriteConflict else ret revision.

Definition createInodeUnderParent (ctx : Ctx) (childPath : string) (parent : inodeData)
    (name : string) (inode : inodeData) : M inodeData :=
  if negb (bool_decide (Type_ parent = "dir")) then fail ErrParentConflict
  else
    _ ← lift (checkExpectedParent ctx childPath (ID parent));
    existing ← try (lookupChildID (ID parent) name);
    match existing with
    | Ok _ => fail ErrAlreadyExists
    | Err RedisNil =>
        id ← allocInodeID ctx;
        let i := with_place inode id (ID parent) name in
        if bool_decide (Type_ i = "file") then
          let i := selectContentRef i in
          stage ← stageFullFile i;
          with_stage_discarded stage (
            i' ← publishStagedFile ctx childPath i stage true [];
            _ ← invalidateDirListing (parentOf childPath);
            ret i')
        else
          revision ← retryWatch ctx (createTx i childPath);
          _ ← invalidateDirListing (parentOf childPath);
          _ ← publishInvalidate InvalidateOpInode childPath;
          ret (with_revision i revision)
    | Err e => fail e
    end.

Definition newDir (mode now : Z) : inodeData :=
  InodeData "" "" "" "" "dir" mode 0 0 0 now now now "" [] "".

(** The loop of [ensureParents] over the components of the parent path. *)
Fixpoint ensure_loop (ctx : Ctx) (curPath : string) (cur : inodeData) (parts : list string) : M () :=
  match parts with
  | [] => ret ()
  | part :: rest =>
      let nextPath := joinPath curPath part in
      r ← try (lookupChildID (ID cur) part);
      match r with
      | Ok childID =>
          child ← loadInodeByID childID;
          match child with
          | Some i => if bool_decide (Type_ i = "dir") then ensure_loop ctx nextPath i rest
                      else fail ErrParentConflict
          | None => fail ErrParentConflict
          end
      | Err RedisNil =>
          now ← nowMs;
          i ← createInodeUnderParent ctx nextPath cur part (newDir 493 now);
          ensure_loop ctx nextPath i rest
      | Err e => fail e
      end
  end.

Definition ensureParents (ctx : Ctx) (p : string) : M () :=
  if negb (bool_decide (cx_expectedParents ctx = ∅)) then
    r ← try (resolvePath ctx (parentOf (normalizePath p)) true);
    match r with
    | Ok (_, parent) => lift (checkExpectedParent ctx p (ID parent))
    | Err RedisNil => fail ErrWriteConflict
    | Err e => fail e
    end
  else
    _ ← ensureRoot ctx;
    let parentPath := parentOf p in
    if bool_decide (parentPath = "/") then ret ()
    else
      root ← loadRootInode;
      match root with
      | None => fail RedisNil
      | Some r => ensure_loop ctx "/" r (splitComponents parentPath)
      end.

Definition createInodeAtPath (ctx : Ctx) (p : string) (inode : inodeData) : M inodeData :=
  let p := normalizePath p in
  if bool_decide (p = "/") then fail ErrAlreadyExists
  else
    parent ← resolvePath ctx (parentOf p) true;
    createInodeUnderParent ctx p parent.2 (baseName p) inode.

Definition createFileIfMissing (ctx : Ctx) (p : string) (content : bytes) (mode : Z) (exclusive : bool) :
    M (inodeData * bool) :=
  let p := normalizePath p in
  if bool_decide (p = "/") then fail ErrCannotWriteRoot
  else
    pr ← resolvePath ctx (parentOf p) true;
    let parent := pr.2 in
    if negb (bool_decide (Type_ parent = "dir")) then fail ErrParentConflict
    else
      _ ← lift (checkExpectedParent ctx p (ID parent));
      id ← allocInodeID ctx;
      now ← nowMs;
      let i := selectContentRef
        (InodeData "" id (ID parent) (baseName p) "file" mode 0 0 (len content) now now now "" content "") in
      _ ← lift (checkWriteCondition ctx i true);
      stage ← stageFullFile i;
      with_stage_discarded stage (
        r ← try (publishStagedFile ctx p i stage true []);
        match r with
        | Ok i' =>
            _ ← invalidateDirListing (parentOf p);
            _ ← publishInvalidate InvalidateOpInode p;
            ret (i', true)
        | Err ErrWriteConflict =>
            if bool_decide (cx_expectedStat ctx ≠ None) || negb (bool_decide (cx_expectedParents ctx = ∅))
            then fail ErrWriteConflict
            else if exclusive then fail ErrAlreadyExists
            else
              existingID ← lookupChildID (ID parent) (baseName p);
              existing ← loadInodeByID existingID;
              match existing with
              | None => fail ErrNotFound
              | Some e => if bool_decide (Type_ e = "file") then ret (e, false) else fail ErrNotFile
              end
        | Err e => fail e
        end).

(** ** Operations *)

Definition saveInodeMeta (ctx : Ctx) (p : string) (i : inodeData) : M inodeData :=
  if bool_decide (ID i = "") then fail ErrMissingInodeID
  else updatePublishedInode ctx p i (inodeFieldsAtPath i p false).

Definition saveInode (ctx : Ctx) (p : string) (i : inodeData) : M inodeData :=
  if bool_decide (ID i = "") then fail ErrMissingInodeID
  else
    let i := selectContentRef i in
    if negb (bool_decide (Type_ i = "file")) then updatePublishedInode ctx p i (inodeFieldsAtPath i p true)
    else
      _ ← lift (checkWriteCondition ctx i false);
      stage ← stageFullFile i;
      with_stage_discarded stage (publishStagedFile ctx p i stage false []).

Definition Stat (ctx : Ctx) (p : string) : M (option StatResult) :=
  r ← try (resolvePath ctx p false);
  match r with
  | Ok (_, i) => ret (Some (toStat i))
  | Err RedisNil => ret None
  | Err e => fail e
  end.

(** The attempts of [Cat]: array content is read again when the publication
    changed under the reader. *)
Fixpoint cat_attempts (ctx : Ctx) (n : nat) (p : string) : M bytes :=
  match n with
  | O => fail ErrWriteConflict
  | S n' =>
      pi ← resolvePath ctx p true;
      let i := pi.2 in
      if negb (bool_decide (Type_ i = "file")) then fail ErrNotFile
      else
        content ← try (loadContentExternal (ID i) (ContentRef i));
        if bool_decide (ContentRef i = RefArray) then
          revision ← read (λ d, revision_of d (ID i));
          if bool_decide (revision ≠ Revision i) then cat_attempts ctx n' p else lift content
        else lift content
  end.

Definition Cat (ctx : Ctx) (p : string) : M bytes := cat_attempts ctx 4 p.

Definition CreateFile (ctx : Ctx) (p : string) (mode : Z) (exclusive : bool) : M (StatResult * bool) :=
  let p := normalizePath p in
  if bool_decide (p = "/") then fail ErrCannotWriteRoot
  else
    _ ← ensureParents ctx p;
    r ← createFileIfMissing ctx p [] mode exclusive;
    _ ← (if (r.2 : bool) then markRootDirty ctx else ret ());
    ret (toStat r.1, r.2).

Definition Touch (ctx : Ctx) (p : string) : M () :=
  let p := normalizePath p in
  if bool_decide (p = "/") then fail ErrCannotWriteRoot
  else
    _ ← ensureParents ctx p;
    r ← try (resolvePath ctx p true);
    match r with
    | Err RedisNil => _ ← CreateFile ctx p 420 false; ret ()
    | Err e => fail e
    | Ok (resolved, i) =>
        if negb (bool_decide (Type_ i = "file")) then fail ErrNotFile
        else
          now ← nowMs;
          _ ← saveInodeMeta ctx resolved (with_times i now now);
          _ ← publishInvalidate InvalidateOpInode resolved;
          markRootDirty ctx
    end.

Definition createDir (ctx : Ctx) (p : string) (mode : Z) : M inodeData :=
  _ ← ensureParents ctx p;
  now ← nowMs;
  createInodeAtPath ctx p (newDir mode now).

Definition MkdirMode (ctx : Ctx) (p : string) (mode : Z) : M () :=
  let p := normalizePath p in
  if bool_decide (p = "/") then ensureRoot ctx
  else
    _ ← ensureParents ctx p;
    existing ← loadInode ctx p;
    match existing with
    | Some i => if bool_decide (Type_ i = "dir") then ret () else fail ErrAlreadyExists
    | None => _ ← createDir ctx p mode; markRootDirty ctx
    end.

Definition Rm (ctx : Ctx) (p : string) : M () :=
  let p := normalizePath p in
  if bool_decide (p = "/") then fail ErrCannotRemoveRoot
  else
    ri ← resolvePath ctx p false;
    _ ← deletePublishedInode ctx ri.1 ri.2;
    _ ← invalidateInode (parentOf ri.1);
    invalidateInode ri.1.

Definition Ln (ctx : Ctx) (target linkpath : string) : M () :=
  let linkpath := normalizePath linkpath in
  if bool_decide (linkpath = "/") then fail ErrAlreadyExists
  else
    _ ← ensureParents ctx linkpath;
    existing ← loadInode ctx linkpath;
    match existing with
    | Some _ => fail ErrAlreadyExists
    | None =>
        now ← nowMs;
        _ ← createInodeAtPath ctx linkpath
              (InodeData "" "" "" "" "symlink" 511 0 0 (Z.of_nat (String.length target))
                 now now now target [] "");
        markRootDirty ctx
    end.

Definition Readlink (ctx : Ctx) (p : string) : M string :=
  ri ← resolvePath ctx p false;
  if bool_decide (Type_ ri.2 = "symlink") then ret (Target ri.2) else fail ErrNotSymlink.

Definition Chmod (ctx : Ctx) (p : string) (mode : Z) : M () :=
  ri ← resolvePath ctx p false;
  let i := ri.2 in
  _ ← saveInodeMeta ctx ri.1 (with_meta i mode (UID i) (GID i) (Size i) (CtimeMs i) (MtimeMs i) (AtimeMs i));
  _ ← publishInvalidate InvalidateOpInode ri.1;
  markRootDirty ctx.

Definition Chown (ctx : Ctx) (p : string) (uid gid : Z) : M () :=
  ri ← resolvePath ctx p false;
  let i := ri.2 in
  _ ← saveInodeMeta ctx ri.1 (with_meta i (Mode i) uid gid (Size i) (CtimeMs i) (MtimeMs i) (AtimeMs i));
  _ ← publishInvalidate InvalidateOpInode ri.1;
  markRootDirty ctx.

Definition Utimens (ctx : Ctx) (p : string) (atimeMs mtimeMs : Z) : M () :=
  ri ← resolvePath ctx p false;
  let i := ri.2 in
  let i := with_times i (if 0 <=? mtimeMs then mtimeMs else MtimeMs i)
                        (if 0 <=? atimeMs then atimeMs else AtimeMs i) in
  _ ← saveInodeMeta ctx ri.1 i;
  _ ← publishInvalidate InvalidateOpInode ri.1;
  markRootDirty ctx.

Definition optField {A} (o : option A) (f : A → hfield) : list hfield :=
  match o with Some v => [f v] | None => [] end.

Definition SetAttrs (ctx : Ctx) (p : string) (upd : AttrUpdate) : M () :=
  let fields := optField (upd_mode upd) FMode ++ optField (upd_uid upd) FUid
                ++ optField (upd_gid upd) FGid ++ optField (upd_atime upd) FAtime
                ++ optField (upd_mtime upd) FMtime in
  match fields with
  | [] => ret ()
  | _ =>
      ri ← resolvePath ctx p false;
      let i := ri.2 in
      let i := with_meta i (default (Mode i) (upd_mode upd)) (default (UID i) (upd_uid upd))
                 (default (GID i) (upd_gid upd)) (Size i) (CtimeMs i)
                 (default (MtimeMs i) (upd_mtime upd)) (default (AtimeMs i) (upd_atime upd)) in
      _ ← updatePublishedInode ctx ri.1 i fields;
      _ ← publishInvalidate InvalidateOpInode ri.1;
      markRootDirty ctx
  end.

Definition createFile (ctx : Ctx) (p : string) (content : bytes) (mode : Z) : M () :=
  r ← createFileIfMissing ctx p content mode false;
  let i := r.1 in
  _ ← (if negb (r.2 : bool) && negb (bool_decide (content = [])) then
         published ← loadContentExternal (ID i) (ContentRef i);
         if bool_decide (published ≠ content) then fail ErrWriteConflict else ret ()
       else ret ());
  markRootDirty ctx.

Definition writeFile (ctx : Ctx) (p : string) (data : bytes) (appendMode : bool) : M () :=
  let p := normalizePath p in
  if bool_decide (p = "/") then fail ErrCannotWriteRoot
  else
    r ← try (resolvePath ctx p true);
    match r with
    | Err RedisNil => _ ← ensureParents ctx p; createFile ctx p data 420
    | Err e => fail e
    | Ok (resolved, i) =>
        if negb (bool_decide (Type_ i = "file")) then fail ErrNotFile
        else
          content ← (if appendMode then
                       existing ← loadContentExternal (ID i) (ContentRef i); ret (existing ++ data)
                     else ret data);
          now ← nowMs;
          _ ← saveInode ctx resolved (with_times (with_content i content) now now);
          _ ← publishInvalidate InvalidateOpContent resolved;
          markRootDirty ctx
    end.

Definition writeFileWithMode (ctx : Ctx) (p : string) (data : bytes) (mode : Z) : M () :=
  let p := normalizePath p in
  if bool_decide (p = "/") then fail ErrCannotWriteRoot
  else
    _ ← ensureParents ctx p;
    r ← try (resolvePath ctx p true);
    match r with
    | Err RedisNil => createFile ctx p data mode
    | Err e => fail e
    | Ok (resolved, i) =>
        if negb (bool_decide (Type_ i = "file")) then fail ErrNotFile
        else
          now ← nowMs;
          let i := with_times (with_content i data) now now in
          _ ← saveInode ctx resolved
                (with_meta i mode (UID i) (GID i) (Size i) (CtimeMs i) (MtimeMs i) (AtimeMs i));
          _ ← publishInvalidate InvalidateOpContent resolved;
          markRootDirty ctx
    end.

Definition Truncate (ctx : Ctx) (p : string) (size : Z) : M () :=
  if size <? 0 then fail ErrInvalidSizeArg
  else
    ri ← resolvePath ctx p true;
    let i := ri.2 in
    if negb (bool_decide (Type_ i = "file")) then fail ErrNotFile
    else
      raw ← (if 0 <? size then loadContentExternal (ID i) (ContentRef i) else ret []);
      let content := if size <? len raw then slice raw 0 size
                     else if len raw <? size then copy_into (make_bytes size) 0 raw else raw in
      now ← nowMs;
      _ ← saveInode ctx ri.1 (with_times (with_content i content) now now);
      _ ← publishInvalidate InvalidateOpContent ri.1;
      markRootDirty ctx.

(** ** Rename *)

Definition renameArgsOf (src : inodeData) (resolvedSrc dst : string) (newParent : inodeData)
    (newName revision : string) (now : Z) (replaced : option inodeData) : renameArgs :=
  RenameArgs (ID src) (Name src) newName (ID newParent) (Revision src) revision now
    (mutationPayload InvalidateOpPrefix [resolvedSrc; dst])
    (match replaced with Some r => ID r | None => "" end)
    (match replaced with Some r => Revision r | None => "" end)
    dst (indexedPathAncestors dst) (Parent src).

(** The transaction of [renamePath] once the replaced entry is known. *)
Definition renameScriptTx (src : inodeData) (resolvedSrc dst : string) (newParent : inodeData)
    (newName : string) (operationID : string) (replaced : option inodeData) : M () :=
  now ← nowMs;
  code ← script operationID (renameMetadataScript
           (renameArgsOf src resolvedSrc dst newParent newName operationID now replaced));
  if code =? -1 then fail ErrWriteConflict else ret ().

(** The function of one attempt; [Ok (Some id)] asks for the directory [id] to be
    watched too. *)
Definition renameTx (src : inodeData) (resolvedSrc dst : string) (newParent : inodeData) (flags : Z)
    (operationID watchDst : string) : M (option string) :=
  let newName := baseName dst in
  d ← gets (λ d, d);
  if bool_decide (inodes d !! Parent src = None) || bool_decide (inodes d !! ID newParent = None)
  then fail ErrWriteConflict
  else match dirent d (Parent src) (Name src) with
  | None => fail ErrNotFound
  | Some cur =>
    if bool_decide (cur ≠ ID src) then fail TxFailedErr
    else match inode_at d cur with
    | None => fail ErrNotFound
    | Some currentSrc =>
      if bool_decide (Revision currentSrc ≠ Revision src) then fail ErrWriteConflict
      else match dirent d (ID newParent) newName with
      | None => _ ← renameScriptTx currentSrc resolvedSrc dst newParent newName operationID None; ret None
      | Some replacedID =>
        match inode_at d replacedID with
        | None => fail TxFailedErr
        | Some replaced =>
          if negb (Z.land flags RenameNoreplace =? 0) then fail ErrAlreadyExists
          else if bool_decide (Type_ currentSrc = "dir") && negb (bool_decide (Type_ replaced = "dir"))
          then fail ErrNotDir
          else if negb (bool_decide (Type_ currentSrc = "dir")) && bool_decide (Type_ replaced = "dir")
          then fail ErrNotFile
          else if bool_decide (Type_ replaced = "dir") && negb (bool_decide (watchDst = ID replaced))
          then ret (Some (ID replaced))
          else if bool_decide (Type_ replaced = "dir") &&
                  negb (bool_decide (default ∅ (dirents d !! ID replaced) = ∅))
          then fail ErrDirNotEmpty
          else _ ← renameScriptTx currentSrc resolvedSrc dst newParent newName operationID (Some replaced);
               ret None
        end
      end
    end
  end.

Fixpoint rename_attempts (ctx : Ctx) (n : nat) (src : inodeData) (resolvedSrc dst : string)
    (newParent : inodeData) (flags : Z) (watchDst : string) : M string :=
  match n with
  | O => fail ErrDestinationChanged
  | S n' =>
      operationID ← newOriginID;
      r ← retryWatch ctx (renameTx src resolvedSrc dst newParent flags operationID watchDst);
      match r with
      | None => ret operationID
      | Some next => rename_attempts ctx n' src resolvedSrc dst newParent flags next
      end
  end.

(** [queueRefreshIndexedSubtree]: the path hints to write for an inode and what
    lies below it.  The recursion follows the directory tree; [fuel] bounds its
    depth, and running out of it stands for a recursion that does not end. *)
Fixpoint collectRefresh (fuel : nat) (currentPath id ty : string) : M (list (string * string)) :=
  match fuel with
  | O => fail ErrOutOfFuel
  | S fuel' =>
      if negb (bool_decide (ty = "dir")) then ret [(id, currentPath)]
      else
        entries ← read (λ d, map_to_list (default ∅ (dirents d !! id)));
        below ← (fix children (es : list (string * string)) : M (list (string * string)) :=
           match es with
           | [] => ret []
           | (name, childID) :: rest =>
               child ← loadInodeByID childID;
               sub ← match child with
                     | None => ret []
                     | Some c => collectRefresh fuel' (joinPath currentPath name) childID (Type_ c)
                     end;
               others ← children rest;
               ret (sub ++ others)
           end) entries;
        ret ((id, currentPath) :: below)
  end.

Definition refreshIndexedSubtree (ctx : Ctx) (rootPath id ty : string) : M () :=
  if bool_decide (id = "") then ret ()
  else retryWatch ctx (
    fuel ← gets (λ d, S (size (inodes d)));
    updates ← collectRefresh fuel rootPath id ty;
    modify (with_inodes (λ m,
      foldl (λ m u, hset u.1 [FPath u.2; FPathAncestors (indexedPathAncestors u.2)] m) m updates))).

Definition renamePath (ctx : Ctx) (resolvedSrc : string) (src : inodeData) (dst : string)
    (newParent : inodeData) (flags : Z) : M () :=
  _ ← lift (checkExpectedParent ctx resolvedSrc (Parent src));
  _ ← lift (checkExpectedParent ctx dst (ID newParent));
  _ ← lift (checkWriteCondition ctx src false);
  if bool_decide (Parent src = "") then fail ErrNotFound
  else
    revision ← rename_attempts ctx 8 src resolvedSrc dst newParent flags "";
    _ ← invalidateInode (parentOf resolvedSrc);
    _ ← invalidateInode (parentOf dst);
    _ ← invalidatePrefix resolvedSrc;
    _ ← invalidatePrefix dst;
    refreshIndexedSubtree ctx dst (ID src) (Type_ src).

Definition Rename (ctx : Ctx) (src dst : string) (flags : Z) : M () :=
  let src := normalizePath src in
  let dst := normalizePath dst in
  if bool_decide (src = "/") then fail ErrCannotMoveRoot
  else if bool_decide (src = dst) then ret ()
  else if negb (Z.land flags RenameExchange =? 0) then fail ErrUnsupported
  else if negb (Z.ldiff flags RenameNoreplace =? 0) then fail ErrUnsupported
  else
    ri ← resolvePath ctx src false;
    let '(resolvedSrc, srcInode) := (ri.1, ri.2) in
    if bool_decide (Type_ srcInode = "dir") &&
       (bool_decide (dst = resolvedSrc) || HasPrefix dst (resolvedSrc +:+ "/"))
    then fail ErrOwnSubtree
    else
      pi ← resolvePath ctx (parentOf dst) true;
      if negb (bool_decide (Type_ pi.2 = "dir")) then fail ErrParentConflict
      else
        _ ← renamePath ctx resolvedSrc srcInode dst pi.2 flags;
        markRootDirty ctx.

End Client.
Arguments world : clear implicits.
Arguments Params : clear implicits.
Arguments M : clear implicits.
