(* ===== verification/FsInv.v ===== *)
(** The namespace invariant holds for every client operation, whatever other
    clients do in between.

    [w_inv] is the invariant of the world, [ext] what every step of every client
    guarantees (an inode whose revision is an old one has not moved or changed
    since), and [soft] what the other clients guarantee in addition (they leave
    alone the identifiers and identities this client has drawn).  The triples
    are proved for the primitives and composed along the code. *)
From Stdlib Require Import Strings.Byte.
From stdpp Require Import pretty.
From S2P Require Import Prelude Content Paths FsState FsTree FsScripts FsClient.
#[local] Open Scope string_scope.
#[local] Open Scope list_scope.
#[local] Open Scope Z_scope.

(** * Interfaces *)

(** [newOriginID] draws identities that never repeat and are not empty. *)
Class FreshTokens {arr} (P : Params arr) := {
  tok_inj n m : tok n = tok m → n = m;
  tok_nonempty n : tok n ≠ ""
}.

Section Inv.
Context {arr : Type} {RA : RedisArray arr} {P : Params arr} {FT : FreshTokens P}.
Implicit Types w : world arr.

Definition used w (r : string) : Prop :=
  (r = "" ∨ ∃ k, k < w_tok w ∧ r = tok k) ∧ r ∉ w_resv w.

(** The identifiers handed out so far. *)
Definition numbered w (id : string) : Prop :=
  ∃ k n, id = FormatInt k ∧ 1 ≤ k ≤ n ∧ next_inode (w_db w) = Some n.

Record w_inv w : Prop := {
  wi_fs : fs_inv (w_db w);
  wi_next : ∃ n, next_inode (w_db w) = Some n ∧
    ∀ id, is_Some (inodes (w_db w) !! id) → ∃ k, id = FormatInt k ∧ 1 ≤ k ≤ n;
  wi_revs id h : inodes (w_db w) !! id = Some h → used w (h_revision h);
  wi_resv r : r ∈ w_resv w → r ≠ "" ∧ ∃ k, k < w_tok w ∧ r = tok k;
  wi_owned id : id ∈ w_owned w → numbered w id
}.

(** No other client runs. *)
Definition solo : Prop := ∀ w, env w = w.

(** What this client guarantees to the others about identifiers: it never takes
    or creates one that was handed out before and is not its own. *)
Record polite w w' : Prop := {
  pol_next n : next_inode (w_db w) = Some n → ∃ n', next_inode (w_db w') = Some n' ∧ n ≤ n';
  pol_owned id : numbered w id → id ∉ w_owned w → id ∉ w_owned w';
  pol_absent id : numbered w id → id ∉ w_owned w →
    inodes (w_db w) !! id = None → inodes (w_db w') !! id = None
}.

(** What every step guarantees. *)
Record ext w w' : Prop := {
  ext_used r : used w r → used w' r;
  ext_static id h' : inodes (w_db w') !! id = Some h' → used w (h_revision h') →
    ∃ h, inodes (w_db w) !! id = Some h ∧ h_revision h = h_revision h' ∧ static h = static h';
  ext_solo : solo → polite w w'
}.

(** What the steps of other clients guarantee. *)
Record soft w w' : Prop := {
  soft_ext : ext w w';
  soft_resv : w_resv w ⊆ w_resv w';
  soft_owned : w_owned w ⊆ w_owned w';
  soft_next n : next_inode (w_db w) = Some n → ∃ n', next_inode (w_db w') = Some n' ∧ n ≤ n';
  soft_absent id : id ∈ w_owned w → inodes (w_db w) !! id = None → inodes (w_db w') !! id = None
}.

#[export] Instance polite_preorder : PreOrder polite.
Proof.
  split.
  - intros w. constructor; try done. intros n Hn. exists n. split; [done|lia].
  - intros w1 w2 w3 [N12 O12 A12] [N23 O23 A23].
    assert (∀ id, numbered w1 id → numbered w2 id) as Hnum.
    { intros id (k & n & -> & Hk & Hn). destruct (N12 n Hn) as (n2 & Hn2 & ?).
      exists k, n2. split_and!; [done|lia|lia|done]. }
    constructor; [|by eauto|by eauto].
    intros n Hn. destruct (N12 n Hn) as (n2 & Hn2 & ?). destruct (N23 n2 Hn2) as (n3 & ? & ?).
    exists n3. split; [done|lia].
Qed.

#[export] Instance ext_preorder : PreOrder ext.
Proof.
  split.
  - intros w. constructor; eauto. done.
  - intros w1 w2 w3 [U12 S12 P12] [U23 S23 P23].
    constructor; [eauto| |intros Hs; etrans; [by apply P12|by apply P23]].
    intros id h3 H3 Hu. destruct (S23 id h3 H3) as (h2 & H2 & E & Es); [by apply U12|].
    rewrite <- E in Hu. destruct (S12 id h2 H2 Hu) as (h1 & H1 & E1 & Es1).
    exists h1. split_and!; congruence.
Qed.

#[export] Instance soft_preorder : PreOrder soft.
Proof.
  split.
  - intros w. constructor; try done; eauto. intros n Hn. exists n. split; [done|lia].
  - intros w1 w2 w3 [E12 R12 O12 N12 A12] [E23 R23 O23 N23 A23].
    constructor; [by etrans|set_solver|set_solver| |auto].
    intros n Hn. destruct (N12 n Hn) as (n2 & Hn2 & ?). destruct (N23 n2 Hn2) as (n3 & ? & ?).
    exists n3. split; [done|lia].
Qed.

(** The other clients keep the invariant and their promise: a hypothesis on the
    environment, which the theorems below discharge for this client's own
    operations. *)
Class Rely := env_ok w : w_inv w → w_inv (env w) ∧ soft w (env w).
Context {RL : Rely}.

(** ** Observations *)

(** What a client knows of an inode it has read: while the revision is the one it
    saw, place, type and size are the ones it saw. *)
Definition static_of (o : inodeData) : node := Node (Parent o) (Name o) (Some (Type_ o)) (Size o).

Definition obs (o : inodeData) w : Prop :=
  used w (Revision o) ∧ 0 ≤ Size o ∧
  ∀ h, inodes (w_db w) !! ID o = Some h → h_revision h = Revision o → static h = static_of o.

(** An identifier this client has allocated and that no inode has. *)
Definition absent (id : string) w : Prop :=
  id ∈ w_owned w ∧ inodes (w_db w) !! id = None ∧
  ∃ k n, id = FormatInt k ∧ 1 ≤ k ≤ n ∧ next_inode (w_db w) = Some n.

Definition reserved (r : string) w : Prop := r ∈ w_resv w.

Lemma obs_ext o w w' : ext w w' → obs o w → obs o w'.
Proof.
  intros [U S _] (Hu & Hsz & Ho). split_and!; [by apply U|done|]. intros h' H' E.
  destruct (S _ _ H') as (h & Hh & Er & Es); [by rewrite E|]. rewrite <- Es.
  apply Ho; [done|congruence].
Qed.

Lemma obs_inode_at id o w : w_inv w → inode_at (w_db w) id = Some o → obs o w.
Proof.
  unfold inode_at. intros Hw H. destruct (inodes (w_db w) !! id) as [h|] eqn:Eh; [|done].
  unfold inodeFromHash in H. destruct (h_type h) as [ty|] eqn:Et; [|done]. injection H as <-.
  split_and!; simpl.
  - by eapply wi_revs.
  - apply (wf_sizes _ _ (inv_tree _ (wi_fs _ Hw)) id (static h)). by apply static_lookup.
  - intros h' Hh' _. rewrite Eh in Hh'. injection Hh' as <-. unfold static, static_of. simpl. by rewrite Et.
Qed.

Lemma absent_soft id w w' : soft w w' → absent id w → absent id w'.
Proof.
  intros [E R O N A] (Ho & Hi & k & n & -> & Hk & Hn). destruct (N n Hn) as (n' & Hn' & ?).
  split_and!; [set_solver|auto|]. exists k, n'. split_and!; auto; lia.
Qed.

(** ** Triples *)

(** [m] keeps the invariant and makes [R]-steps only; a successful result satisfies
    [Q]. *)
Definition triple {A} (R : world arr → world arr → Prop) (Pre : world arr → Prop) (m : M arr A)
    (Q : A → world arr → Prop) : Prop :=
  ∀ w, w_inv w → Pre w →
  match m w with (r, w') => w_inv w' ∧ R w w' ∧ ∀ a, r = Ok a → Q a w' end.

Definition stable (R : world arr → world arr → Prop) (Pre : world arr → Prop) : Prop :=
  ∀ w w', R w w' → Pre w → Pre w'.

Lemma triple_bind {A B} R `{!PreOrder R} Pre (m : M arr A) (f : A → M arr B) Q S :
  triple R Pre m Q → (∀ a, triple R (Q a) (f a) S) → triple R Pre (bindM m f) S.
Proof.
  intros Hm Hf w Hw Hp. unfold bindM. specialize (Hm w Hw Hp). destruct (m w) as [[a|e] w'].
  - destruct Hm as (Hw' & HR & HQ). specialize (Hf a w' Hw' (HQ a eq_refl)).
    destruct (f a w') as [r w'']. destruct Hf as (? & ? & ?). split_and!; [done|by etrans|done].
  - destruct Hm as (? & ? & _). split_and!; done.
Qed.

Lemma triple_frame {A} (R : world arr → world arr → Prop) Pre F (m : M arr A) Q :
  stable R F → triple R Pre m Q → triple R (λ w, Pre w ∧ F w) m (λ a w, Q a w ∧ F w).
Proof.
  intros HF Hm w Hw [Hp Hf]. specialize (Hm w Hw Hp). destruct (m w) as [r w'].
  destruct Hm as (? & ? & HQ). split_and!; [done..|]. intros a Ha. split; eauto.
Qed.

Lemma triple_conseq {A} (R R' : world arr → world arr → Prop) Pre Pre' (m : M arr A) Q Q' :
  triple R Pre m Q → (∀ w w', R w w' → R' w w') → (∀ w, w_inv w → Pre' w → Pre w) →
  (∀ a w, w_inv w → Q a w → Q' a w) → triple R' Pre' m Q'.
Proof.
  intros Hm HR HP HQ w Hw Hp. specialize (Hm w Hw (HP w Hw Hp)). destruct (m w) as [r w'].
  destruct Hm as (? & ? & ?). split_and!; eauto.
Qed.

Lemma triple_soft_ext {A} Pre (m : M arr A) Q : triple soft Pre m Q → triple ext Pre m Q.
Proof. intros H. eapply triple_conseq; eauto. by intros w w' []. Qed.

Lemma triple_ret {A} R `{!PreOrder R} (a : A) Q : triple R (Q a) (ret a) Q.
Proof. intros w Hw Hp. unfold ret. split_and!; [done|done|]. by intros ? [= <-]. Qed.

Lemma triple_fail {A} R `{!PreOrder R} e Pre Q : triple R Pre (fail (A := A) e) Q.
Proof. intros w Hw Hp. by unfold fail. Qed.

Lemma triple_lift {A} R `{!PreOrder R} (r : result fsError A) Pre Q :
  (∀ a, r = Ok a → ∀ w, Pre w → Q a w) → triple R Pre (lift r) Q.
Proof. intros H w Hw Hp. unfold lift. split_and!; eauto. done. Qed.

Lemma triple_try {A} (R : world arr → world arr → Prop) Pre (m : M arr A) Q :
  triple R Pre m Q →
  triple R Pre (try m) (λ r w, ∀ a, r = Ok a → Q a w).
Proof.
  intros Hm w Hw Hp. unfold try. specialize (Hm w Hw Hp). destruct (m w) as [r w'].
  destruct Hm as (? & ? & ?). split_and!; [done..|]. by intros ? [= <-].
Qed.

Lemma triple_if {A} R Pre (b : bool) (m1 m2 : M arr A) Q :
  triple R Pre m1 Q → triple R Pre m2 Q → triple R Pre (if b then m1 else m2) Q.
Proof. by destruct b. Qed.

(** ** Primitives *)

Lemma soft_same w w' :
  inodes (w_db w') = inodes (w_db w) → next_inode (w_db w') = next_inode (w_db w) →
  w_owned w = w_owned w' → w_resv w ⊆ w_resv w' → (∀ r, used w r → used w' r) → soft w w'.
Proof.
  intros EI EN EO ER EU.
  constructor; [|done|by rewrite EO|rewrite EN; intros n Hn; exists n; split; [done|lia]|by rewrite EI].
  constructor; [done|rewrite EI; eauto|]. intros _. constructor; rewrite ?EI, ?EN, <-?EO; try done.
  intros n Hn. exists n. split; [done|lia].
Qed.

Lemma t_interfere Pre : stable soft Pre → triple soft Pre interfere (λ _, Pre).
Proof.
  intros HS w Hw Hp. unfold interfere. destruct (env_ok w Hw) as [Hw' Hs].
  set (w' := env w) in *.
  assert (soft w' (World (w_db w') (w_tok w') (w_tick w + 1) (w_owned w') (w_resv w') (w_now w'))) as Hs'.
  { by apply soft_same. }
  split_and!.
  - destruct Hw' as [H1 H2 H3 H4 H5]. by constructor.
  - by etrans.
  - intros _ _. eapply HS; [|exact Hp]. by etrans.
Qed.

Lemma t_gets {A} (f : db arr → A) Pre :
  triple soft Pre (gets f) (λ a w, a = f (w_db w) ∧ Pre w).
Proof. intros w Hw Hp. unfold gets. split_and!; [done|done|]. intros a [= <-]. done. Qed.

Lemma t_read {A} (f : db arr → A) Pre :
  stable soft Pre → triple soft Pre (read f) (λ a w, a = f (w_db w) ∧ Pre w).
Proof.
  intros HS. unfold read. eapply triple_bind; [apply _|by apply t_interfere|].
  intros []. apply t_gets.
Qed.

(** Changes that leave the namespace and its accounting alone. *)
Definition outside (f : db arr → db arr) : Prop :=
  ∀ d, inodes (f d) = inodes d ∧ dirents (f d) = dirents d ∧ info (f d) = info d ∧
       next_inode (f d) = next_inode d.

Lemma t_modify (f : db arr → db arr) Pre :
  outside f → stable soft Pre → triple soft Pre (modify f) (λ _, Pre).
Proof.
  intros Hf HS w Hw Hp. unfold modify. destruct (Hf (w_db w)) as (E1 & E2 & E3 & E4).
  match goal with |- w_inv ?x ∧ _ => set (w' := x) end.
  assert (soft w w') as Hs by by apply soft_same.
  split_and!; [|done|by intros; eapply HS].
  destruct Hw as [[T1 T2 T3] H2 H3 H4 H5]. constructor; unfold numbered; simpl; rewrite ?E1, ?E4; try done.
  constructor; by rewrite ?E1, ?E2, ?E3.
Qed.

Lemma outside_stages f : outside (with_stages f).
Proof. by intros d. Qed.
Lemma outside_dirty : outside set_root_dirty.
Proof. by intros d. Qed.
Lemma outside_xadd ev : outside (xadd ev).
Proof. by intros d; destruct ev. Qed.

Lemma t_newOriginID Pre :
  stable soft Pre → triple soft Pre newOriginID (λ r w, reserved r w ∧ Pre w).
Proof.
  intros HS w Hw Hp. unfold newOriginID.
  match goal with |- w_inv ?x ∧ _ => set (w' := x) end.
  assert (∀ r, used w r → used w' r) as Hu.
  { intros r [[->|(k & Hk & ->)] Hn]; split; simpl.
    - by left.
    - rewrite elem_of_union, elem_of_singleton. intros [E|E]; [by apply (tok_nonempty (w_tok w))|done].
    - right. exists k. split; [lia|done].
    - rewrite elem_of_union, elem_of_singleton. intros [E%tok_inj|E]; [lia|done]. }
  assert (soft w w') as Hs by (apply soft_same; simpl; [done..|set_solver|done]).
  split_and!; [|done|intros r [= <-]; split; [unfold reserved; simpl; set_solver|by eapply HS]].
  destruct Hw as [H1 H2 H3 H4 H5]. constructor; simpl; [done|done|eauto| |done].
  intros r. rewrite elem_of_union, elem_of_singleton. intros [->|Hr].
  - split; [apply tok_nonempty|]. exists (w_tok w). split; [lia|done].
  - destruct (H4 r Hr) as (? & k & ? & ->). split; [done|]. exists k. split; [lia|done].
Qed.

Lemma stable_reserved r : stable soft (reserved r).
Proof. intros w w' [_ HR _ _ _] H. unfold reserved in *. set_solver. Qed.

Lemma stable_obs o : stable soft (obs o).
Proof. intros w w' [E _ _ _ _]. by apply obs_ext. Qed.

Lemma stable_obs_ext o : stable ext (obs o).
Proof. intros w w' E. by apply obs_ext. Qed.

Lemma stable_absent id : stable soft (absent id).
Proof. intros w w'. apply absent_soft. Qed.

Lemma stable_pure R (Φ : Prop) : stable R (λ _, Φ).
Proof. by intros w w' _. Qed.

Lemma stable_and R Φ Ψ : stable R Φ → stable R Ψ → stable R (λ w, Φ w ∧ Ψ w).
Proof. intros H1 H2 w w' HR [? ?]. split; [by eapply H1|by eapply H2]. Qed.

(** ** Scripts *)

(** How a commit of the identity [r] changes the inodes: every inode either carries
    [r] and has a valid identifier, or is statically what it was. *)
Definition evolves (r : string) (idok : string → Prop) (d d' : db arr) : Prop :=
  next_inode d' = next_inode d ∧
  ∀ id h', inodes d' !! id = Some h' →
    (h_revision h' = r ∧ (is_Some (inodes d !! id) ∨ idok id)) ∨
    ∃ h, inodes d !! id = Some h ∧ h_revision h = h_revision h' ∧ static h = static h'.

Lemma t_script r s Pre :
  (∀ w, Pre w → reserved r w) →
  (∀ w code d', w_inv w → Pre w → s (w_db w) = Ok (code, d') →
     d' = w_db w ∨ fs_inv d' ∧ evolves r (λ id, numbered w id ∧ id ∈ w_owned w) (w_db w) d') →
  triple ext Pre (script r s) (λ _ _, True).
Proof.
  intros Hres Hs w Hw Hp. unfold script. destruct (s (w_db w)) as [[code d']|e] eqn:E; [|done].
  specialize (Hres w Hp). specialize (Hs w code d' Hw Hp E).
  match goal with |- w_inv ?x ∧ _ => set (w' := x) end.
  assert (∀ x, used w x → used w' x) as Hu by (intros x [Hx Hn]; split; simpl; [done|set_solver]).
  assert (used w' r) as Hr.
  { destruct (wi_resv _ Hw r Hres) as (_ & k & Hk & ->). split; simpl; [right; eauto|set_solver]. }
  assert (∀ x, x ∈ w_resv w' → x ≠ "" ∧ ∃ k, k < w_tok w' ∧ x = tok k) as Hrv.
  { intros x Hx. apply (wi_resv _ Hw). simpl in Hx. set_solver. }
  destruct Hs as [->|[Hfs [En Hev]]].
  - assert (polite w w') as Hpol.
    { constructor; simpl; try done. intros n Hn. exists n. split; [done|lia]. }
    split_and!; [|constructor; simpl; eauto|done].
    destruct Hw as [H1 H2 H3 H4 H5]. constructor; simpl; eauto.
  - assert (polite w w') as Hpol.
    { constructor; simpl; [rewrite En; intros n Hn; exists n; split; [done|lia]|done|].
      intros id _ Hno Hnone. destruct (inodes d' !! id) as [h'|] eqn:Eh; [|done]. exfalso.
      destruct (Hev id h' Eh) as [[_ [[? Hi]|[_ Hi]]]|(h & Hh & _)]; congruence. }
    split_and!; [|constructor; simpl; [done| |done]|done].
    + constructor; simpl; [done| | |done|].
      * destruct (wi_next _ Hw) as (n & Hn & Hids). exists n. rewrite En. split; [done|].
        intros id [h' Hh']. destruct (Hev id h' Hh') as [[_ [Hi|[(k & m & -> & Hk & Hm) _]]]|(h & Hh & _)]; eauto.
        exists k. split; [done|]. rewrite Hn in Hm. injection Hm as <-. lia.
      * intros id h' Hh'. destruct (Hev id h' Hh') as [[-> _]|(h & Hh & <- & _)]; [done|].
        apply Hu. by eapply wi_revs.
      * intros id Hid. unfold numbered. simpl. rewrite En. by apply (wi_owned _ Hw).
    + intros id h' Hh' Hused. destruct (Hev id h' Hh') as [[E' _]|?]; [|done].
      rewrite E' in Hused. destruct Hused as [_ Hn]. by destruct Hn.
Qed.

Lemma touch_lookup p a b m id h' :
  is_Some (m !! p) → hset p [FMtime a; FCtime b] m !! id = Some h' →
  ∃ h, m !! id = Some h ∧ h_revision h = h_revision h' ∧ static h = static h'.
Proof.
  intros [hp Hp]. unfold hset. rewrite Hp. simpl. rewrite !lookup_insert_Some.
  intros [[<- <-]|[_ ?]]; eauto; exists hp; by destruct hp.
Qed.

(** The static part of an inode written with all its fields. *)
Lemma static_fields h i p inc extra :
  (∀ x, static (foldl hset1 x extra) = static x) →
  static (foldl hset1 h (inodeFieldsAtPath i p inc ++ extra)) = static_of i ∧
  static (foldl hset1 h (inodeFields i inc ++ extra)) = static_of i.
Proof.
  intros Hex. unfold inodeFieldsAtPath. rewrite !foldl_app, !Hex. unfold inodeFields.
  split; rewrite !foldl_app; repeat case_match; simpl; by destruct h.
Qed.

Definition keeps_static (fs : list hfield) : Prop := ∀ x, static (foldl hset1 x fs) = static x.

Lemma keeps_static_app fs gs : keeps_static fs → keeps_static gs → keeps_static (fs ++ gs).
Proof. intros H1 H2 x. by rewrite foldl_app, H2, H1. Qed.

Lemma keeps_static_rev r : keeps_static [FRevision r].
Proof. by intros []. Qed.

Lemma keeps_static_pub r : keeps_static [FRevision r; FContent []].
Proof. by intros []. Qed.

(** Metadata update of an observed inode: either all the fields of a copy that
    agrees with the observation, or fields that are not part of the place. *)
Lemma t_update o i p r payload g fields :
  ID i = ID o → Revision i = Revision o →
  ((∃ inc, static_of i = static_of o ∧ fields = inodeFieldsAtPath i p inc) ∨ keeps_static fields) →
  triple ext (λ w, obs o w ∧ reserved r w)
    (script r (updateInodeScript (UpdateArgs g (ID i) (Name i) (Revision i) r payload fields (Parent i))))
    (λ _ _, True).
Proof.
  intros EID ERev Hf. apply t_script; [by intros w []|].
  intros w code d' Hw [(_ & _ & Ho) Hres] Hs.
  destruct (decide (code = 1)) as [->|Hc]; [|left; by eapply update_no_effect]. right.
  pose proof Hs as (Hd & _ & Hrev & [h Hh] & _)%update_commit. simpl in *.
  assert (h_revision h = Revision i) as Hhr by (unfold revision_of in Hrev; by rewrite Hh in Hrev).
  rewrite EID in *. specialize (Ho h Hh ltac:(congruence)).
  assert (static (foldl hset1 h (fields ++ [FRevision r])) = static h) as Hst.
  { destruct Hf as [(inc & Es & ->)|Hk].
    - rewrite (proj1 (static_fields h i p inc _ (keeps_static_rev r))). congruence.
    - by apply keeps_static_app; [|apply keeps_static_rev]. }
  split; [by eapply update_inv; [apply Hw|exact Hs|simpl; exact Hh|simpl; exact Hst]|].
  rewrite Hd. split; [by destruct payload|]. intros id h' Hh'.
  assert (hset (ID o) (fields ++ [FRevision r]) (inodes (w_db w)) !! id = Some h') as Hl by by destruct payload.
  unfold hset in Hl. rewrite Hh in Hl. simpl in Hl. apply lookup_insert_Some in Hl as [[<- <-]|[_ ?]]; [|eauto].
  left. split; [apply revision_set1|eauto].
Qed.

(** Publication over an observed file. *)
Lemma t_publish_update ctx o i p stage r extra :
  ID i = ID o → Revision i = Revision o → Parent i = Parent o → Name i = Name o →
  Type_ i = Type_ o → Type_ i = "file" → 0 ≤ Size i → keeps_static extra →
  triple ext (λ w, obs o w ∧ reserved r w)
    (script r (publishFileScript (publishArgsOf ctx p i stage r false extra))) (λ _ _, True).
Proof.
  intros EID ERev EP EN ET Hty Hsz Hex. apply t_script; [by intros w []|].
  intros w code d' Hw [(_ & _ & Ho) Hres] Hs.
  destruct (decide (code = 1)) as [->|Hc]; [|left; by eapply publish_no_effect]. right.
  pose proof Hs as (staged & Hd & _ & _ & _ & _ & _ & Hrev & [h Hh])%publish_commit. simpl in *.
  assert (h_revision h = Revision i) as Hhr by (unfold revision_of in Hrev; by rewrite Hh in Hrev).
  pose proof (Ho h ltac:(by rewrite <- EID) ltac:(congruence)) as Hst. unfold static, static_of in Hst.
  injection Hst as HP HN HT HS. rewrite <- ET, Hty in HT.
  set (a := publishArgsOf ctx p i stage r false extra) in *.
  assert (written a (w_db w) = Node (h_parent h) (h_name h) (Some "file") (p_size a)) as Hwr.
  { unfold written. simpl. rewrite Hh. simpl.
    assert (keeps_static (extra ++ [FRevision r; FContent []])) as Hk
      by (apply keeps_static_app; [done|apply keeps_static_pub]).
    destruct (static_fields h i p false _ Hk) as [E1 E2]. unfold static_of in *.
    case_match; rewrite <- app_assoc; rewrite ?E1, ?E2; congruence. }
  split; [rewrite Hd; eapply update_file_inv; eauto; apply Hw|].
  rewrite Hd. split; [unfold publish_effects, xadd; simpl; by repeat case_match|]. intros id h' Hh'.
  assert (hset (ID i) (p_fields a ++ [FRevision r; FContent []]) (inodes (w_db w)) !! id = Some h') as Hl.
  { revert Hh'. unfold publish_effects, xadd. simpl. by repeat case_match. }
  unfold hset in Hl. rewrite Hh in Hl. apply lookup_insert_Some in Hl as [[<- <-]|[_ ?]]; [|eauto].
  left. split; [apply revision_set|eauto].
Qed.

(** Publication of a new file under an identifier of our own. *)
Lemma t_publish_create ctx i p stage r extra :
  Type_ i = "file" → 0 ≤ Size i → keeps_static extra →
  triple ext (λ w, absent (ID i) w ∧ reserved r w)
    (script r (publishFileScript (publishArgsOf ctx p i stage r true extra))) (λ _ _, True).
Proof.
  intros Hty Hsz Hex. apply t_script; [by intros w []|].
  intros w code d' Hw [(Hown & Hab & Hnum) Hres] Hs.
  destruct (decide (code = 1)) as [->|Hc]; [|left; by eapply publish_no_effect]. right.
  pose proof Hs as (staged & Hd & _ & _ & Htp & _ & Hfree)%publish_commit. simpl in *.
  set (a := publishArgsOf ctx p i stage r true extra) in *.
  assert (written a (w_db w) = Node (p_parent a) (p_name a) (Some "file") (p_size a)) as Hwr.
  { unfold written. simpl. rewrite Hab. simpl.
    assert (keeps_static (extra ++ [FRevision r; FContent []])) as Hk
      by (apply keeps_static_app; [done|apply keeps_static_pub]).
    destruct (static_fields emptyHash i p false _ Hk) as [E1 E2]. unfold static_of in *.
    rewrite Hty in *. case_match; rewrite <- app_assoc; rewrite ?E1, ?E2; done. }
  split; [rewrite Hd; eapply create_file_inv; eauto; apply Hw|].
  rewrite Hd. split; [unfold publish_effects, xadd; simpl; by repeat case_match|]. intros id h' Hh'.
  apply type_of_static in Htp as (hp & Hhp & _).
  assert (hset (Parent i) [FMtime (MtimeMs i); FCtime (MtimeMs i)]
    (hset (ID i) (p_fields a ++ [FRevision r; FContent []]) (inodes (w_db w))) !! id = Some h') as Hl.
  { revert Hh'. unfold publish_effects, xadd. simpl. by repeat case_match. }
  apply (touch_lookup _ _ _ _ _ _ (hset_is_Some _ _ _ _ (mk_is_Some _ _ Hhp))) in Hl
    as (h1 & Hl & Er & Es).
  unfold hset in Hl. apply lookup_insert_Some in Hl as [[<- E]|[_ ?]]; [|eauto].
  left. split; [|right; done]. rewrite <- Er, <- E. apply revision_set.
Qed.

(** Creation of a directory or a link. *)
Lemma t_create i p r :
  Type_ i = "dir" ∨ Type_ i = "symlink" → 0 ≤ Size i →
  triple ext (λ w, absent (ID i) w ∧ reserved r w)
    (script r (createMetadataScript (createArgsOf i p r))) (λ _ _, True).
Proof.
  intros Hty Hsz. apply t_script; [by intros w []|].
  intros w code d' Hw [(Hown & Hab & Hnum) Hres] Hs.
  destruct (decide (code = 1)) as [->|Hc]; [|left; by eapply create_no_effect]. right.
  pose proof Hs as (Hd & Hfree & Htp)%create_commit. simpl in *.
  split.
  - eapply (create_inv _ _ _ (Size i)); [apply Hw|exact Hs|done| |done|done].
    cbn [createArgsOf c_fields c_parent c_name c_type]. by rewrite (proj1 (static_fields emptyHash i p false _ (keeps_static_rev r))).
  - rewrite Hd. split; [unfold create_effects, xadd; simpl; by repeat case_match|]. intros id h' Hh'.
    apply type_of_static in Htp as (hp & Hhp & _).
    assert (hset (Parent i) [FMtime (CtimeMs i); FCtime (CtimeMs i)]
      (hset (ID i) (inodeFieldsAtPath i p false ++ [FRevision r]) (inodes (w_db w))) !! id = Some h') as Hl.
    { revert Hh'. unfold create_effects, xadd. simpl. by repeat case_match. }
    apply (touch_lookup _ _ _ _ _ _ (hset_is_Some _ _ _ _ (mk_is_Some _ _ Hhp))) in Hl
      as (h1 & Hl & Er & Es).
    unfold hset in Hl. apply lookup_insert_Some in Hl as [[<- E]|[_ ?]]; [|eauto].
    left. split; [|right; done]. rewrite <- Er, <- E. apply revision_set1.
Qed.

(** Deletion needs no knowledge of the inode: the script checks everything. *)
Lemma t_delete r a :
  triple ext (reserved r) (script r (deleteInodeScript a)) (λ _ _, True).
Proof.
  apply t_script; [done|]. intros w code d' Hw Hres Hs.
  destruct (decide (code = 1)) as [->|Hc]; [|left; by eapply delete_no_effect]. right.
  split; [by eapply delete_inv; [apply Hw|]|].
  pose proof Hs as (Hd & _ & Hlink & _ & Hch)%delete_commit.
  rewrite Hd. split; [unfold delete_effects, xadd; by repeat case_match|]. intros id h' Hh'. right.
  destruct (dirent_node _ _ _ _ (wi_fs _ Hw) Hlink) as (Hid & h & Hh & Ep & En).
  destruct (wf_parents _ _ (inv_tree _ (wi_fs _ Hw)) _ _ (static_lookup _ _ _ Hh) Hid) as (nd & Hnd & _).
  apply fmap_lookup_static in Hnd as (hp & Hhp & _). simpl in Hhp. rewrite Ep in Hhp.
  assert (hset (d_parent a) [FMtime (d_now a); FCtime (d_now a)] (delete (d_id a) (inodes (w_db w))) !! id
          = Some h') as Hl.
  { revert Hh'. unfold delete_effects, xadd. by repeat case_match. }
  assert (d_parent a ≠ d_id a) as Hne.
  { rewrite <- Ep. assert (type_of (w_db w) (d_id a) = h_type h) as Et by (unfold type_of; by rewrite Hh).
    rewrite Et in Hch. assert (childless (static <$> inodes (w_db w)) (d_id a)) as Hcl.
    { destruct (decide (h_type h = Some "dir"));
        [apply no_live_child; [apply Hw|by auto]|eapply childless_non_dir; [apply Hw|done..]]. }
    by apply (Hcl _ _ (static_lookup _ _ _ Hh)). }
  apply touch_lookup in Hl as (h1 & [_ Hl]%lookup_delete_Some & Er & Es); [eauto|].
  rewrite lookup_delete_ne by done. eauto.
Qed.

End Inv.

#[export] Hint Resolve stable_reserved stable_obs stable_obs_ext stable_absent stable_pure stable_and
  outside_stages outside_dirty outside_xadd : afs.
