(* ===== verification/FsOps.v ===== *)
(** The client operations under interference: resolution, creation, deletion,
    metadata updates and content publication keep the namespace invariant and
    the guarantee of FsInv. *)
From Stdlib Require Import Strings.Byte.
From stdpp Require Import pretty.
From S2P Require Import Prelude Content Paths FsState FsTree FsScripts FsClient FsInv.
#[local] Open Scope string_scope.
#[local] Open Scope list_scope.
#[local] Open Scope Z_scope.

#[export] Hint Extern 1 (PreOrder _) => apply _ : afs.

(** Compose a triple along a bind. *)
Ltac tb := eapply triple_bind; [apply _| |cbv beta].
Section Ops.
Context {arr : Type} {RA : RedisArray arr} {P : Params arr} {FT : FreshTokens P} {RL : Rely}.
Implicit Types (w : world arr) (ctx : Ctx) (F : world arr → Prop).

Lemma triple_absurd {A} R Pre (m : M arr A) Q : (∀ w, w_inv w → Pre w → False) → triple R Pre m Q.
Proof. intros H w Hw Hp. destruct (H w Hw Hp). Qed.

Lemma triple_pre {A} R Pre Pre' (m : M arr A) Q :
  triple R Pre m Q → (∀ w, w_inv w → Pre' w → Pre w) → triple R Pre' m Q.
Proof. intros H HP. eapply triple_conseq; eauto. Qed.

Lemma triple_post {A} R Pre (m : M arr A) Q Q' :
  triple R Pre m Q → (∀ a w, w_inv w → Q a w → Q' a w) → triple R Pre m Q'.
Proof. intros H HQ. eapply triple_conseq; eauto. Qed.

Lemma triple_pull {A} R (Φ : Prop) Pre (m : M arr A) Q :
  (Φ → triple R Pre m Q) → triple R (λ w, Φ ∧ Pre w) m Q.
Proof. intros H w Hw [Hphi Hp]. by apply H. Qed.

(** After a caught error the frame still holds. *)
Lemma triple_try_keep {A} R F (m : M arr A) Q :
  stable R F → triple R F m Q → triple R F (try m) (λ r w, (∀ a, r = Ok a → Q a w) ∧ F w).
Proof.
  intros HF Hm w Hw Hp. unfold try. specialize (Hm w Hw Hp). destruct (m w) as [r w'].
  destruct Hm as (? & ? & ?). split_and!; [done..|]. intros ? [= <-]. split; [done|by eapply HF].
Qed.

Lemma triple_lift_keep {A} R `{!PreOrder R} (r : result fsError A) F :
  triple R F (lift r) (λ _, F).
Proof. apply triple_lift; [apply _|done]. Qed.

Lemma triple_done {A} R `{!PreOrder R} (a : A) Pre (Q : A → world arr → Prop) :
  (∀ w, w_inv w → Pre w → Q a w) → triple R Pre (ret a) Q.
Proof. intros H w Hw Hp. unfold ret. split_and!; [done|done|]. intros ? [= <-]. auto. Qed.

(** Failures and results end a triple. *)
Ltac tdone :=
  first [ apply triple_fail; apply _
        | apply triple_done; [apply _|]; intros ? ? ?; cbv beta in *; destruct_and?;
          split_and?; solve [done | eauto with afs] ].

Lemma t_nowMs R `{!PreOrder R} F : triple R F nowMs (λ _, F).
Proof. intros w Hw Hp. by unfold nowMs. Qed.

(** ** Reads *)

Lemma t_checkGeneration ctx F : stable soft F → triple soft F (checkGeneration ctx) (λ _, F).
Proof.
  intros HF. unfold checkGeneration. destruct (cx_checked ctx); [tdone|].
  destruct (cx_generation ctx) as [g|]; [|tdone]. tb; [by apply t_read|]. intros d.
  repeat case_match; tdone.
Qed.

Lemma t_loadInodeByID id F : stable soft F →
  triple soft F (loadInodeByID id)
    (λ oi w, (oi = inode_at (w_db w) id ∧ ∀ o, oi = Some o → obs o w) ∧ F w).
Proof.
  intros HF. eapply triple_post; [by apply t_read|]. intros oi w Hw [-> HFw].
  split; [|done]. split; [done|]. intros o Ho. by eapply obs_inode_at.
Qed.

Lemma t_lookupChildID dir name F : stable soft F → triple soft F (lookupChildID dir name) (λ _, F).
Proof.
  intros HF. unfold lookupChildID. tb; [by apply t_read|]. intros [id|].
  - tdone.
  - tdone.
Qed.

Lemma root_present w : w_inv w → inode_at (w_db w) "1" ≠ None.
Proof.
  intros Hw. destruct (wf_root _ _ (inv_tree _ (wi_fs _ Hw))) as (nd & Hnd & Hty).
  apply fmap_lookup_static in Hnd as (h & Hh & ->). unfold inode_at, inodeFromHash. rewrite Hh.
  simpl in Hty. by rewrite Hty.
Qed.

(** The root exists, so [ensureRoot] only reads. *)
Lemma t_ensureRoot ctx F : stable soft F → triple soft F (ensureRoot ctx) (λ _, F).
Proof.
  intros HF. unfold ensureRoot. tb; [by apply t_checkGeneration|]. intros [].
  tb; [by apply t_loadInodeByID|]. intros [o|].
  - tdone.
  - apply triple_absurd. intros w Hw [[E _] _]. by apply (root_present w Hw).
Qed.

Lemma t_allocInodeID ctx F : stable soft F →
  triple soft F (allocInodeID ctx) (λ id w, absent id w ∧ F w).
Proof.
  intros HF. unfold allocInodeID. tb; [by apply t_ensureRoot|]. intros [].
  tb; [by apply t_interfere|]. intros [] w Hw HFw.
  destruct (wi_next _ Hw) as (n & Hn & Hids). unfold bindM, gets, modify, own, ret. rewrite Hn.
  cbn [default]. match goal with |- w_inv ?x ∧ _ => set (w' := x) end.
  assert (inodes (w_db w) !! FormatInt (n + 1) = None) as Hfresh.
  { destruct (inodes (w_db w) !! FormatInt (n + 1)) eqn:E; [|done]. exfalso.
    destruct (Hids (FormatInt (n + 1))) as (k & Hk & Hle); [by eauto|].
    unfold FormatInt in Hk. apply (inj pretty) in Hk. lia. }
  assert (1 ≤ n) as Hn1.
  { destruct (wf_root _ _ (inv_tree _ (wi_fs _ Hw))) as (nd & Hnd & _).
    apply fmap_lookup_static in Hnd as (h & Hh & _). destruct (Hids "1") as (k & _ & ?); [by eauto|lia]. }
  assert (soft w w') as Hs.
  { assert (∀ m, next_inode (w_db w) = Some m → ∃ m', Some (n + 1) = Some m' ∧ m ≤ m') as Hnext.
    { intros m Hm. rewrite Hn in Hm. injection Hm as <-. eexists. split; [done|]. lia. }
    constructor; simpl; [constructor; simpl; eauto|done|set_solver|exact Hnext|done].
    intros _. constructor; simpl; [exact Hnext| |done].
    intros id (k & m & -> & Hk & Hm) Hno. rewrite elem_of_union, elem_of_singleton.
    intros [E|?]; [|done]. unfold FormatInt in E. apply (inj pretty) in E.
    rewrite Hn in Hm. injection Hm as <-. lia. }
  split_and!; [|done|].
  - destruct Hw as [H1 H2 H3 H4 H5]. constructor; simpl; [by destruct H1| |done|done|].
    2:{ intros id. rewrite elem_of_union, elem_of_singleton. unfold numbered. simpl. intros [->|Hid].
        - exists (n + 1), (n + 1). split_and!; [done|lia|lia|done].
        - destruct (H5 id Hid) as (k & m & -> & Hk & Hm). rewrite Hn in Hm. injection Hm as <-.
          exists k, (n + 1). split_and!; [done|lia|lia|done]. }
    exists (n + 1). split; [done|]. intros id Hid. destruct (Hids id Hid) as (k & ? & ?).
    exists k. split; [done|lia].
  - intros id [= <-]. split; [|by eapply HF]. split_and!; [simpl; set_solver|done|].
    exists (n + 1), (n + 1). split_and!; [done|lia|lia|done].
Qed.

(** ** Resolution *)

Lemma t_walk followFinal components F : stable soft F → ∀ curPath cur,
  triple soft (λ w, obs cur w ∧ F w) (walk followFinal curPath cur components)
    (λ r w, match r with WFound _ i => obs i w | WJump _ => True end ∧ F w).
Proof.
  intros HF. induction components as [|c rest IH]; intros curPath cur; simpl.
  - tdone.
  - tb; [apply t_lookupChildID; auto with afs|]. intros childID.
    tb; [apply t_loadInodeByID; auto with afs|]. intros [i|]; [|tdone].
    eapply (triple_pre _ (λ w, obs i w ∧ F w)); [|intros w Hw [[_ Hi] [_ HFw]]; auto].
    repeat case_match; try tdone. apply IH.
Qed.

Lemma t_resolve_from followFinal F : stable soft F → ∀ hops p,
  triple soft F (resolve_from hops followFinal p) (λ r w, obs r.2 w ∧ F w).
Proof.
  intros HF. induction hops as [|hops IH]; intros p; cbn [resolve_from];
    (tb; [by apply t_loadInodeByID|]; intros [r|]; [|tdone]);
    (tb; [eapply triple_pre; [by apply t_walk|intros w Hw [[_ Hr] HFw]; auto]|]; intros [q i|q]).
  1,3: tdone.
  - tdone.
  - apply triple_if; [tdone|]. eapply triple_pre; [apply IH|tauto].
Qed.

Lemma t_resolvePath ctx p followFinal F : stable soft F →
  triple soft F (resolvePath ctx p followFinal) (λ r w, obs r.2 w ∧ F w).
Proof.
  intros HF. unfold resolvePath. tb; [by apply t_ensureRoot|]. intros []. by apply t_resolve_from.
Qed.

Lemma t_loadInode ctx p F : stable soft F → triple soft F (loadInode ctx p) (λ _, F).
Proof.
  intros HF. unfold loadInode. tb; [by apply triple_try_keep; [|apply t_resolvePath]|].
  intros [[q i]|[]]; tdone.
Qed.

(** ** Transactions *)

Lemma t_gets_any {A} R `{!PreOrder R} (f : db arr → A) Pre :
  triple R Pre (gets f) (λ a w, a = f (w_db w) ∧ Pre w).
Proof. intros w Hw Hp. unfold gets. split_and!; [done|done|]. by intros a [= <-]. Qed.

Lemma t_guarded {A} ctx R `{!PreOrder R} Pre (fn : M arr A) Q :
  triple R Pre fn Q → triple R Pre (guarded ctx fn) Q.
Proof.
  intros Hfn. unfold guarded. tb; [apply t_gets_any; apply _|]. intros d.
  apply triple_if; [tdone|]. apply triple_if; [tdone|].
  tb; [|by intros []; exact Hfn]. unfold watchExpectedParents.
  tb; [apply t_gets_any; apply _|]. intros d'. apply triple_if; tdone.
Qed.

Definition no_txfail {A} (m : M arr A) : Prop := ∀ w, (m w).1 ≠ Err TxFailedErr.

Lemma no_txfail_guarded {A} ctx (fn : M arr A) : no_txfail fn → no_txfail (guarded ctx fn).
Proof.
  intros H w. unfold guarded, watchExpectedParents, bindM, gets, fail. repeat case_match; simplify_eq/=; try done; apply H.
Qed.

Lemma t_retryWatch {A} ctx Pre (fn : M arr A) Q :
  no_txfail fn → stable soft Pre → triple ext Pre fn Q → triple ext Pre (retryWatch ctx fn) Q.
Proof.
  intros Hno HS Hfn. unfold retryWatch. generalize 16%nat as n. induction n as [|n IH]; simpl; [tdone|].
  tb; [by apply triple_soft_ext, t_interfere|]. intros [].
  tb; [by intros w Hw Hp; unfold aborted; split_and!; [done|done|]; intros b _; exact Hp|].
  intros []; [done|]. intros w Hw Hp. unfold bindM, try, lift.
  pose proof (t_guarded ctx ext Pre fn Q Hfn w Hw Hp) as Hg.
  pose proof (no_txfail_guarded ctx fn Hno w) as Hn. destruct (guarded ctx fn w) as [r w'].
  simpl in Hn. destruct Hg as (? & ? & ?). destruct r as [a|[]]; try done; split_and!; eauto.
Qed.

Lemma no_txfail_script r s : no_txfail (script (arr := arr) r s).
Proof. intros w. unfold script. by repeat case_match. Qed.

Lemma t_runMutationScript ctx r s Pre :
  stable soft Pre → triple ext Pre (script r s) (λ _ _, True) →
  triple ext Pre (runMutationScript ctx r s) (λ _ _, True).
Proof.
  intros HS Hs. unfold runMutationScript. apply triple_if.
  - tb; [by apply triple_soft_ext, t_interfere|]. by intros [].
  - apply t_retryWatch; [apply no_txfail_script|done|done].
Qed.

(** ** Publications *)

Definition anything : world arr → Prop := λ _, True.

Lemma stable_anything R : stable R anything.
Proof. done. Qed.

(** The part of [publishStagedFile] that follows its checks. *)
Lemma t_publish_tail ctx p i stage creating extra Pre :
  stable soft Pre →
  (∀ r, triple ext (λ w, reserved r w ∧ Pre w)
     (script r (publishFileScript (publishArgsOf ctx p i stage r creating extra))) (λ _ _, True)) →
  triple ext Pre (publishStagedFile ctx p i stage creating extra) (λ _ _, True).
Proof.
  intros HS Hsc. unfold publishStagedFile.
  tb; [apply triple_lift_keep; apply _|]. intros []. tb; [apply triple_lift_keep; apply _|]. intros [].
  tb; [by apply triple_soft_ext, t_newOriginID|]. intros r.
  tb; [apply triple_try; by apply t_runMutationScript; [auto with afs|apply Hsc]|]. intros res.
  eapply (triple_bind _ _ _ _ (λ _ _, True)); [|intros []; tdone]. destruct res as [code|e].
  - apply triple_lift; [apply _|done].
  - eapply (triple_pre _ anything); [|done].
    tb; [by apply triple_soft_ext, t_read, stable_anything|]. intros t. apply triple_if; tdone.
Qed.

Lemma t_stageFullFile i F : stable soft F → triple soft F (stageFullFile i) (λ _, F).
Proof.
  intros HF. unfold stageFullFile. tb; [by apply t_newOriginID|]. intros t.
  eapply (triple_pre _ F); [|tauto].
  tb; [by apply t_interfere|]. intros []. tb; [apply t_modify; auto with afs|]. intros []. tdone.
Qed.

Lemma t_discardStage stage F : stable soft F → triple soft F (discardStage stage) (λ _, F).
Proof.
  intros HF. unfold discardStage. tb; [by apply t_interfere|]. intros []. apply t_modify; auto with afs.
Qed.

Lemma t_with_stage {A} stage Pre (m : M arr A) :
  triple ext Pre m (λ _ _, True) → triple ext Pre (with_stage_discarded stage m) (λ _ _, True).
Proof.
  intros Hm. unfold with_stage_discarded. tb; [by apply triple_try|]. intros r.
  eapply (triple_pre _ anything); [|done].
  tb; [by apply triple_soft_ext, t_discardStage, stable_anything|]. intros []. apply triple_lift; [apply _|done].
Qed.

Lemma t_publishInvalidate op p F : stable soft F → triple soft F (publishInvalidate op p) (λ _, F).
Proof.
  intros HF. unfold publishInvalidate. apply triple_if; [tdone|].
  tb; [by apply t_interfere|]. intros []. apply t_modify; auto with afs.
Qed.

Lemma t_markRootDirty ctx F : stable soft F → triple soft F (markRootDirty ctx) (λ _, F).
Proof.
  intros HF. unfold markRootDirty. tb; [by apply t_interfere|]. intros [].
  tb; [by intros w Hw Hp; unfold inThrottle; split_and!; [done|done|]; intros b _; exact Hp|].
  intros b. apply triple_if; [tdone|]. destruct (cx_generation ctx).
  - tb; [apply t_gets|]. intros d. eapply (triple_pre _ F); [|tauto].
    repeat (apply triple_if; [tdone|]). apply t_modify; auto with afs.
  - apply t_modify; auto with afs.
Qed.

Lemma t_loadContentExternal id ref F : stable soft F → triple soft F (loadContentExternal id ref) (λ _, F).
Proof.
  intros HF. unfold loadContentExternal. apply triple_if; [|apply triple_if].
  - tb; [by apply t_read|]. intros []; tdone.
  - tb; [by apply t_read|]. intros size. eapply (triple_pre _ F); [|tauto].
    tb; [by apply t_read|]. intros c. unfold lift_content. case_match; tdone.
  - eapply triple_post; [by apply t_read|]. by intros a w _ [_ HFw].
Qed.

(** ** Operations *)

(** The operations keep the invariant and the guarantee, from any state. *)
Definition preserves {A} (m : M arr A) : Prop := triple ext anything m (λ _ _, True).

Lemma preserves_soft {A} (m : M arr A) Q : triple soft anything m Q → preserves m.
Proof. intros H. eapply triple_post; [by apply triple_soft_ext|done]. Qed.

Lemma preserves_then {A B} (m : M arr A) (f : A → M arr B) :
  preserves m → (∀ a, preserves (f a)) → preserves (bindM m f).
Proof. intros Hm Hf. unfold preserves. tb; [exact Hm|]. intros a. by eapply triple_pre; [apply Hf|]. Qed.

Lemma preserves_try {A B} (m : M arr A) (f : result fsError A → M arr B) :
  preserves m → (∀ r, preserves (f r)) → preserves (bindM (try m) f).
Proof.
  intros Hm Hf. unfold preserves. tb; [apply triple_try, Hm|]. intros a. by eapply triple_pre; [apply Hf|].
Qed.

(** Resolve a path, then act on the inode found. *)
Lemma preserves_resolve {A} ctx p ff (f : string * inodeData → M arr A) :
  (∀ ri, triple ext (obs ri.2) (f ri) (λ _ _, True)) → preserves (bindM (resolvePath ctx p ff) f).
Proof.
  intros Hf. unfold preserves. tb; [by apply triple_soft_ext, t_resolvePath, stable_anything|].
  intros ri. eapply triple_pre; [apply Hf|]. by intros w _ [].
Qed.

Lemma preserves_resolve_try {A} ctx p ff (f : result fsError (string * inodeData) → M arr A) :
  (∀ ri, triple ext (obs ri.2) (f (Ok ri)) (λ _ _, True)) → (∀ e, preserves (f (Err e))) →
  preserves (bindM (try (resolvePath ctx p ff)) f).
Proof.
  intros Hf He. unfold preserves.
  tb; [by apply triple_soft_ext, triple_try_keep; [apply stable_anything|apply t_resolvePath, stable_anything]|].
  intros [ri|e].
  - eapply triple_pre; [apply Hf|]. intros w _ [H _]. by destruct (H ri eq_refl).
  - by eapply triple_pre; [apply He|].
Qed.

Lemma preserves_tail {A B} Pre (m : M arr A) (f : A → M arr B) :
  triple ext Pre m (λ _ _, True) → (∀ a, preserves (f a)) → triple ext Pre (bindM m f) (λ _ _, True).
Proof. intros Hm Hf. tb; [exact Hm|]. intros a. by eapply triple_pre; [apply Hf|]. Qed.

Lemma preserves_ret {A} (a : A) : preserves (ret a).
Proof. unfold preserves. tdone. Qed.

Lemma preserves_fail {A} e : preserves (fail (A := A) e).
Proof. unfold preserves. tdone. Qed.

Lemma preserves_lift {A} (r : result fsError A) : preserves (lift r).
Proof. unfold preserves. apply triple_lift; [apply _|done]. Qed.

Lemma preserves_if {A} (b : bool) (m1 m2 : M arr A) :
  preserves m1 → preserves m2 → preserves (if b then m1 else m2).
Proof. by destruct b. Qed.

Lemma p_markRootDirty ctx : preserves (markRootDirty ctx).
Proof. eapply preserves_soft, t_markRootDirty, stable_anything. Qed.

Lemma p_publishInvalidate op p : preserves (publishInvalidate op p).
Proof. eapply preserves_soft, t_publishInvalidate, stable_anything. Qed.

Lemma p_invalidateDirListing p : preserves (invalidateDirListing p).
Proof. apply p_publishInvalidate. Qed.

Lemma p_invalidateInode p : preserves (invalidateInode p).
Proof. apply p_publishInvalidate. Qed.

Lemma p_ensureRoot ctx : preserves (ensureRoot ctx).
Proof. eapply preserves_soft, t_ensureRoot, stable_anything. Qed.

Lemma p_nowMs : preserves nowMs.
Proof. apply t_nowMs. apply _. Qed.

Lemma p_resolvePath ctx p ff : preserves (resolvePath ctx p ff).
Proof. eapply preserves_soft, t_resolvePath, stable_anything. Qed.

Lemma p_loadInode ctx p : preserves (loadInode ctx p).
Proof. eapply preserves_soft, t_loadInode, stable_anything. Qed.

Lemma p_loadInodeByID id : preserves (loadInodeByID id).
Proof. eapply preserves_soft, t_loadInodeByID, stable_anything. Qed.

Lemma p_loadRootInode : preserves loadRootInode.
Proof. apply p_loadInodeByID. Qed.

Lemma p_lookupChildID d n : preserves (lookupChildID d n).
Proof. eapply preserves_soft, t_lookupChildID, stable_anything. Qed.

Lemma p_loadContentExternal id ref : preserves (loadContentExternal id ref).
Proof. eapply preserves_soft, t_loadContentExternal, stable_anything. Qed.

Lemma p_read {A} (f : db arr → A) : preserves (read f).
Proof. eapply preserves_soft, t_read, stable_anything. Qed.

Create HintDb pres.
#[local] Hint Resolve preserves_ret preserves_fail preserves_lift p_markRootDirty p_publishInvalidate
  p_invalidateDirListing p_invalidateInode p_ensureRoot p_nowMs p_resolvePath p_loadInode p_loadInodeByID p_loadRootInode p_lookupChildID
  p_loadContentExternal p_read : pres.

(** Walk through a program made of operations that preserve the invariant, up to
    the allocation of an identifier or an identity. *)
Ltac pres :=
  repeat match goal with
  | |- preserves (bindM (allocInodeID _) _) => fail 1
  | |- preserves (bindM newOriginID _) => fail 1
  | |- preserves (bindM (try _) _) => apply preserves_try; [|intros]
  | |- preserves (bindM _ _) => apply preserves_then; [|intros]
  | |- preserves (if _ then _ else _) => apply preserves_if
  | |- preserves (match ?x with _ => _ end) => destruct x
  | |- preserves _ => solve [auto with pres]
  end.

Lemma no_txfail_createTx i p : no_txfail (createTx (arr := arr) i p).
Proof.
  intros w. unfold createTx, bindM, gets, newOriginID, fail, ret, script.
  repeat case_match; simplify_eq/=; done.
Qed.

Lemma t_createTx i p :
  Type_ i = "dir" ∨ Type_ i = "symlink" → 0 ≤ Size i →
  triple ext (absent (ID i)) (createTx i p) (λ _ _, True).
Proof.
  intros Hty Hsz. unfold createTx. tb; [apply t_gets_any; apply _|]. intros d.
  eapply (triple_pre _ (absent (ID i))); [|by intros w _ []].
  apply triple_if; [tdone|]. apply triple_if; [tdone|].
  tb; [by apply triple_soft_ext, t_newOriginID, stable_absent|]. intros r.
  tb; [eapply triple_pre; [by apply t_create|by intros w _ []]|]. intros code.
  apply triple_if; tdone.
Qed.

Lemma selectContentRef_same i :
  ID (selectContentRef i) = ID i ∧ Type_ (selectContentRef i) = Type_ i ∧
  Size (selectContentRef i) = Size i ∧ Parent (selectContentRef i) = Parent i ∧
  Name (selectContentRef i) = Name i ∧ Revision (selectContentRef i) = Revision i.
Proof. unfold selectContentRef. by repeat case_match. Qed.

(** Staging and publishing a new file under an identifier of our own. *)
Lemma t_publish_new {A} ctx p i stage extra (k : inodeData → M arr A) :
  Type_ i = "file" → 0 ≤ Size i → keeps_static extra → (∀ i', preserves (k i')) →
  triple ext (absent (ID i)) (bindM (publishStagedFile ctx p i stage true extra) k) (λ _ _, True).
Proof.
  intros Hty Hsz Hex Hk. apply preserves_tail; [|done].
  apply t_publish_tail; [apply stable_absent|]. intros r.
  eapply triple_pre; [by apply t_publish_create|]. by intros w _ [].
Qed.

Lemma p_createInodeUnderParent ctx p parent name i :
  Type_ i = "dir" ∨ Type_ i = "symlink" ∨ Type_ i = "file" → 0 ≤ Size i →
  preserves (createInodeUnderParent ctx p parent name i).
Proof.
  intros Hty Hsz. unfold createInodeUnderParent. pres. unfold preserves.
  tb; [by apply triple_soft_ext, t_allocInodeID, stable_anything|]. intros id.
  eapply (triple_pre _ (absent id)); [|by intros w _ []].
  set (i1 := with_place i id (ID parent) name). case_bool_decide as Ef; cbn in Ef.
  - destruct (selectContentRef_same i1) as (E1 & E2 & E3 & _). set (i2 := selectContentRef i1) in *.
    tb; [by apply triple_soft_ext, t_stageFullFile, (stable_absent id)|]. intros stage.
    apply t_with_stage. replace id with (ID i2) by done. apply t_publish_new; [by rewrite E2|by rewrite E3|by intros []|].
    intros i'. pres.
  - apply preserves_tail; [|intros; pres].
    apply t_retryWatch; [apply no_txfail_createTx|apply (stable_absent id)|].
    apply (t_createTx i1 p); [|done]. simpl. tauto.
Qed.

Lemma p_ensure_loop ctx parts : ∀ curPath cur, preserves (ensure_loop ctx curPath cur parts).
Proof.
  induction parts as [|part rest IH]; intros curPath cur; simpl; pres; try done.
  apply p_createInodeUnderParent; simpl; [auto|lia].
Qed.

Lemma p_ensureParents ctx p : preserves (ensureParents ctx p).
Proof. unfold ensureParents. pres. apply p_ensure_loop. Qed.

#[local] Hint Resolve p_ensureParents : pres.

Lemma p_createInodeAtPath ctx p i :
  Type_ i = "dir" ∨ Type_ i = "symlink" ∨ Type_ i = "file" → 0 ≤ Size i →
  preserves (createInodeAtPath ctx p i).
Proof. intros. unfold createInodeAtPath. pres. by apply p_createInodeUnderParent. Qed.

Lemma p_createFileIfMissing ctx p content mode exclusive :
  preserves (createFileIfMissing ctx p content mode exclusive).
Proof.
  unfold createFileIfMissing. pres. unfold preserves.
  tb; [by apply triple_soft_ext, t_allocInodeID, stable_anything|]. intros id.
  eapply (triple_pre _ (absent id)); [|by intros w _ []].
  tb; [apply t_nowMs; apply _|]. intros now.
  match goal with |- context [selectContentRef ?x] => set (i1 := x) end.
  destruct (selectContentRef_same i1) as (E1 & E2 & E3 & _). set (i2 := selectContentRef i1) in *.
  tb; [apply triple_lift_keep; apply _|]. intros [].
  tb; [by apply triple_soft_ext, t_stageFullFile, (stable_absent id)|]. intros stage.
  apply t_with_stage.
  tb; [apply triple_try, t_publish_tail; [apply (stable_absent id)|]|].
  { intros r. eapply triple_pre; [apply t_publish_create; [done|rewrite E3; apply len_nonneg|by intros []]|].
    intros w _ [? ?]. by rewrite E1. }
  intros r. eapply (triple_pre _ anything); [|done]. match goal with |- triple _ _ ?m _ => change (preserves m) end. pres.
Qed.

#[local] Hint Resolve p_createFileIfMissing : pres.

(** ** Metadata *)

Lemma t_updatePublishedInode ctx p o i fields :
  ID i = ID o → Revision i = Revision o →
  ((∃ inc, static_of i = static_of o ∧ fields = inodeFieldsAtPath i p inc) ∨ keeps_static fields) →
  triple ext (obs o) (updatePublishedInode ctx p i fields) (λ _ _, True).
Proof.
  intros E1 E2 Hf. unfold updatePublishedInode.
  tb; [apply triple_lift_keep; apply _|]. intros []. tb; [apply triple_lift_keep; apply _|]. intros [].
  tb; [by apply triple_soft_ext, t_newOriginID, stable_obs|]. intros r.
  tb; [apply t_runMutationScript; [auto with afs|]; eapply triple_pre; [by apply (t_update o i p)|]; by intros w _ []|].
  intros code. tb; [by apply (triple_lift _ _ _ (λ _ _, True))|]. intros []. tdone.
Qed.

Lemma t_saveInodeMeta ctx p o i :
  ID i = ID o → Revision i = Revision o → static_of i = static_of o →
  triple ext (obs o) (saveInodeMeta ctx p i) (λ _ _, True).
Proof.
  intros E1 E2 Es. unfold saveInodeMeta. apply triple_if; [tdone|].
  apply t_updatePublishedInode; eauto.
Qed.

(** Publication of new content over an observed file. *)
Lemma t_saveInode ctx p o i :
  ID i = ID o → Revision i = Revision o → Parent i = Parent o → Name i = Name o →
  Type_ i = Type_ o → Type_ i = "file" → 0 ≤ Size i →
  triple ext (obs o) (saveInode ctx p i) (λ _ _, True).
Proof.
  intros. unfold saveInode. apply triple_if; [tdone|].
  destruct (selectContentRef_same i) as (E1 & E2 & E3 & E4 & E5 & E6).
  rewrite bool_decide_eq_true_2 by congruence. cbn [negb].
  tb; [apply triple_lift_keep; apply _|]. intros [].
  tb; [by apply triple_soft_ext, t_stageFullFile, (stable_obs o)|]. intros stage. apply t_with_stage.
  apply t_publish_tail; [apply stable_obs|]. intros r.
  eapply triple_pre; [eapply (t_publish_update ctx o); try congruence; by intros []|].
  by intros w _ [].
Qed.

(** ** The operations of the client interface *)

Lemma p_CreateFile ctx p mode excl : preserves (CreateFile ctx p mode excl).
Proof. unfold CreateFile. pres. Qed.

#[local] Hint Resolve p_CreateFile : pres.

Lemma p_Touch ctx p : preserves (Touch ctx p).
Proof.
  unfold Touch. cbv zeta. apply preserves_if; [pres|]. apply preserves_then; [pres|intros []].
  apply preserves_resolve_try; [intros [q i]|intros e; pres]. cbn.
  apply triple_if; [tdone|]. tb; [apply t_nowMs; apply _|]. intros now.
  apply preserves_tail; [by apply t_saveInodeMeta|intros; pres].
Qed.

Lemma p_MkdirMode ctx p mode : preserves (MkdirMode ctx p mode).
Proof.
  unfold MkdirMode, createDir. pres. apply p_createInodeAtPath; simpl; [auto|lia].
Qed.

Lemma p_Ln ctx target p : preserves (Ln ctx target p).
Proof. unfold Ln. pres. apply p_createInodeAtPath; simpl; [auto|lia]. Qed.

Lemma p_deletePublishedInode ctx p i : preserves (deletePublishedInode ctx p i).
Proof.
  unfold deletePublishedInode. pres. unfold preserves.
  tb; [by apply triple_soft_ext, t_newOriginID, stable_anything|]. intros r.
  tb; [apply t_nowMs; apply _|]. intros now.
  apply preserves_tail; [|intros; pres].
  apply t_runMutationScript; [auto using stable_anything with afs|].
  eapply triple_pre; [apply t_delete|by intros w _ []].
Qed.

Lemma p_Rm ctx p : preserves (Rm ctx p).
Proof. unfold Rm. pres. apply p_deletePublishedInode. Qed.

Lemma p_setMeta ctx p (f : inodeData → inodeData) :
  (∀ i, ID (f i) = ID i ∧ Revision (f i) = Revision i ∧ static_of (f i) = static_of i) →
  preserves (bindM (resolvePath ctx p false) (λ ri,
    bindM (saveInodeMeta ctx ri.1 (f ri.2)) (λ _,
      bindM (publishInvalidate InvalidateOpInode ri.1) (λ _, markRootDirty ctx)))).
Proof.
  intros Hf. apply preserves_resolve. intros [q i]. cbn. destruct (Hf i) as (? & ? & ?).
  apply preserves_tail; [by apply t_saveInodeMeta|intros; pres].
Qed.

Lemma p_Chmod ctx p mode : preserves (Chmod ctx p mode).
Proof. by apply (p_setMeta ctx p (λ i, with_meta i mode (UID i) (GID i) (Size i) (CtimeMs i) (MtimeMs i) (AtimeMs i))). Qed.

Lemma p_Chown ctx p uid gid : preserves (Chown ctx p uid gid).
Proof. by apply (p_setMeta ctx p (λ i, with_meta i (Mode i) uid gid (Size i) (CtimeMs i) (MtimeMs i) (AtimeMs i))). Qed.

Lemma p_Utimens ctx p at_ mt : preserves (Utimens ctx p at_ mt).
Proof.
  by apply (p_setMeta ctx p (λ i, with_times i (if 0 <=? mt then mt else MtimeMs i)
                                               (if 0 <=? at_ then at_ else AtimeMs i))).
Qed.

Lemma p_SetAttrs ctx p upd : preserves (SetAttrs ctx p upd).
Proof.
  unfold SetAttrs. cbv zeta. match goal with |- context [match ?l with _ => _ end] => set (fields := l) end.
  assert (keeps_static fields) as Hk.
  { unfold fields, optField. repeat apply keeps_static_app; case_match; by intros []. }
  clearbody fields. destruct fields as [|f fs]; [pres|].
  apply preserves_resolve. intros [q i]. cbn.
  apply preserves_tail; [by apply t_updatePublishedInode; eauto|intros; pres].
Qed.

Lemma p_createFile ctx p content mode : preserves (createFile ctx p content mode).
Proof. unfold createFile. pres. Qed.

#[local] Hint Resolve p_createFile : pres.

Lemma p_writeFile ctx p data app : preserves (writeFile ctx p data app).
Proof.
  unfold writeFile. cbv zeta. apply preserves_if; [pres|].
  apply preserves_resolve_try; [intros [q i]|intros e; pres]. cbn.
  destruct (negb (bool_decide (Type_ i = "file"))) eqn:E; [tdone|]. bools.
  eapply (triple_bind _ _ _ _ (λ _, obs i)).
  { apply triple_if; [|tdone]. tb; [by apply triple_soft_ext, t_loadContentExternal, (stable_obs i)|].
    intros existing. tdone. }
  intros content. tb; [apply t_nowMs; apply _|]. intros now.
  apply preserves_tail; [apply t_saveInode; try done; apply len_nonneg|intros; pres].
Qed.

Lemma p_writeFileWithMode ctx p data mode : preserves (writeFileWithMode ctx p data mode).
Proof.
  unfold writeFileWithMode. cbv zeta. apply preserves_if; [pres|]. apply preserves_then; [pres|intros []].
  apply preserves_resolve_try; [intros [q i]|intros e; pres]. cbn.
  destruct (negb (bool_decide (Type_ i = "file"))) eqn:E; [tdone|]. bools.
  tb; [apply t_nowMs; apply _|]. intros now.
  apply preserves_tail; [apply t_saveInode; try done; apply len_nonneg|intros; pres].
Qed.

Lemma p_Truncate ctx p size : preserves (Truncate ctx p size).
Proof.
  unfold Truncate. apply preserves_if; [pres|]. apply preserves_resolve. intros [q i]. cbn.
  destruct (negb (bool_decide (Type_ i = "file"))) eqn:E; [tdone|]. bools.
  eapply (triple_bind _ _ _ _ (λ _, obs i)).
  { apply triple_if; [by apply triple_soft_ext, t_loadContentExternal, (stable_obs i)|tdone]. }
  intros raw. tb; [apply t_nowMs; apply _|]. intros now.
  apply preserves_tail; [apply t_saveInode; try done; apply len_nonneg|intros; pres].
Qed.

Lemma p_Cat ctx p : preserves (Cat ctx p).
Proof.
  unfold Cat. generalize 4%nat as n. induction n as [|n IH]; simpl; pres.
Qed.

End Ops.
