(* ===== verification/FsRange.v ===== *)
(** Operations on inode handles (mount/internal/client/native_range.go): the live
    path of an inode, range reads, range writes and truncation.

    A range change copies the content to a private stage, edits the stage and
    publishes it with the revision-checked script; a rejected publication is
    repeated on the new content. *)
From Stdlib Require Import Strings.Byte.
From stdpp Require Import pretty.
From S2P Require Import Prelude Content Paths FsState FsTree FsScripts FsClient FsInv FsOps.
#[local] Open Scope string_scope.
#[local] Open Scope list_scope.
#[local] Open Scope Z_scope.

#[local] Notation "x ← y ; z" := (bindM y (λ x, z))
  (at level 20, y at level 100, z at level 200, only parsing) : fs_scope.
#[local] Open Scope fs_scope.

(** * The live path of an inode *)

(** The loop of [inodePathScript]; [parts] are the names found so far, the last
    component last, and [seen] the inodes passed. *)
Fixpoint path_loop {arr} (fuel : nat) (d : db arr) (id : string) (parts seen : list string) :
    option (list string) :=
  match fuel with
  | O => None
  | S fuel' =>
      if bool_decide (id = "1") then
        if bool_decide (inodes d !! "1" = None) then None else Some parts
      else if bool_decide (id ∈ seen) || (4096 <=? Z.of_nat (length parts)) then None
      else match inodes d !! id with
      | None => None
      | Some h =>
          if bool_decide (dirent d (h_parent h) (h_name h) = Some id)
          then path_loop fuel' d (h_parent h) (h_name h :: parts) (id :: seen)
          else None
      end
  end.

Inductive pathReply :=
| PathCode (code : Z)
| PathText (path : string).

(** 4098 turns are enough: each adds a component and there are at most 4096. *)
Definition inodePathScript {arr} (g : guardArgs) (id : string) (d : db arr) : pathReply :=
  match guard g d with
  | Some code => PathCode code
  | None =>
      match path_loop (Z.to_nat 4098) d id [] [] with
      | Some parts => PathText ("/" +:+ JoinWith "/" parts)
      | None => PathCode (-1)
      end
  end.

Section Range.
Context {arr : Type} {RA : RedisArray arr} {params : Params arr}.

Definition InodePath (ctx : Ctx) (inode : Z) : M arr string :=
  r ← read (inodePathScript (guardOf ctx) (FormatInt inode));
  match r with
  | PathText p => ret p
  | PathCode code =>
      if code =? -2 then fail ErrWorkspaceChanged
      else if code =? -5 then fail ErrNativeSessionLost
      else fail ErrNotFound
  end.

Definition StatInode (ctx : Ctx) (inode : Z) : M arr (option StatResult) :=
  _ ← checkGeneration ctx;
  data ← loadInodeByID (FormatInt inode);
  ret (toStat <$> data).

(** * Range reads *)

(** The bytes read for one observation of the inode. *)
Definition read_content (i : inodeData) (off size : Z) : M arr bytes :=
  if (off <? Size i) && negb (size =? 0) then
    if isExternalContentRef (ContentRef i) then
      c ← read (λ d, contentCell d (ID i));
      lift_content (ReadRange arrays c (ContentRef i) (Size i) off size)
    else
      raw ← loadContentExternal (ID i) (ContentRef i);
      if off <? len raw then ret (slice raw off (Z.min (len raw) (off + size))) else ret []
  else ret [].

Fixpoint read_attempts (n : nat) (ctx : Ctx) (id : string) (off size : Z) : M arr bytes :=
  match n with
  | O => fail ErrWriteConflict
  | S n' =>
      _ ← checkGeneration ctx;
      data ← loadInodeByID id;
      match data with
      | None => fail ErrNotFound
      | Some i =>
          if negb (bool_decide (Type_ i = "file")) then fail ErrNotFile
          else
            result ← try (read_content i off size);
            current ← loadInodeByID id;
            match current with
            | None => fail ErrNotFound
            | Some c =>
                if negb (bool_decide (Revision c = Revision i)) then read_attempts n' ctx id off size
                else
                  bytes ← lift result;
                  _ ← checkGeneration ctx;
                  ret bytes
            end
      end
  end.

Definition ReadInodeAt (ctx : Ctx) (inode off size : Z) : M arr bytes :=
  if (off <? 0) || (size <? 0) || (max_int64 - off <? size) then fail ErrInvalidRange
  else read_attempts 16 ctx (FormatInt inode) off size.

(** * Range writes *)

Definition rangeStageError {A} (i : inodeData) (cause : fsError) : M arr A :=
  if bool_decide (cause = ErrContent ErrWrongType) then
    current ← loadInodeByID (ID i);
    match current with
    | Some c => if bool_decide (Revision c = Revision i) then fail cause else fail ErrWriteConflict
    | None => fail ErrWriteConflict
    end
  else fail cause.

(** Run a content operation and map its failure through [rangeStageError]. *)
Definition orStageError {A} (i : inodeData) (m : M arr A) : M arr A :=
  r ← try m;
  match r with Ok a => ret a | Err e => rangeStageError i e end.

Definition stageCell (d : db arr) (stage : string) : cell arr := default CellNone (stages d !! stage).
Definition setStage (stage : string) (c : cell arr) : M arr () :=
  _ ← interfere;
  modify (with_stages (match c with CellNone => delete stage | _ => <[stage := c]> end)).

(** [SETRANGE] pads with zero bytes. *)
Definition SETRANGE (off : Z) (payload : bytes) (c : cell arr) : result contentError (cell arr) :=
  match c with
  | CellNone => Ok (CellStr (pwrite [] off payload))
  | CellStr v => Ok (CellStr (pwrite v off payload))
  | CellArr _ => Err ErrWrongType
  end.

(** The script [shrinkStringStage]. *)
Definition shrinkStringStage (size : Z) (c : cell arr) : result contentError (cell arr) :=
  if 0 <? size then
    match c with
    | CellNone => Ok (CellStr [])
    | CellStr v => Ok (CellStr (GETRANGE v 0 (size - 1)))
    | CellArr _ => Err ErrWrongType
    end
  else Ok (CellStr []).

(** One content operation on the stage. *)
Definition editStage (stage : string) (f : cell arr → result contentError (cell arr)) : M arr () :=
  c ← read (λ d, stageCell d stage);
  c' ← lift_content (f c);
  setStage stage c'.

(** Fill the stage with the current content. *)
Definition seedStage (stage : string) (i i' : inodeData) : M arr () :=
  if isExternalContentRef (ContentRef i) && bool_decide (ContentRef i = ContentRef i') && (0 <? Size i) then
    c ← read (λ d, contentCell d (ID i));
    match c with
    | CellNone => fail ErrWriteConflict
    | _ => modify (with_stages (<[stage := c]>))
    end
  else
    content ← (if 0 <? Size i then orStageError i (loadContentExternal (ID i) (ContentRef i)) else ret []);
    setStage stage
      (if bool_decide (ContentRef i' = RefArray) && bool_decide (content = [])
       then CellArr (ARSET 0 [[]] ar_empty)
       else QueueWriteFull (ContentRef i') content).

(** Apply the change to an array stage. *)
Definition changeArrayStage (stage : string) (i : inodeData) (payload : bytes) (off newSize : Z) : M arr () :=
  _ ← (if bool_decide (payload ≠ [])
       then orStageError i (editStage stage (λ c, WriteRange arrays c off payload)) else ret ());
  if newSize <? Size i
  then editStage stage (λ c, Content.Truncate arrays c (Size i) newSize) else ret ().

(** Apply the change to a string stage. *)
Definition changeStringStage (stage : string) (i : inodeData) (payload : bytes) (off newSize : Z) : M arr () :=
  _ ← (if bool_decide (payload ≠ [])
       then orStageError i (editStage stage (SETRANGE off payload)) else ret ());
  if newSize <? Size i then editStage stage (shrinkStringStage newSize)
  else if (Size i <? newSize) && bool_decide (payload = [])
  then editStage stage (SETRANGE (newSize - 1) [x00]) else ret ().

Definition changeStage (stage : string) (i : inodeData) (ref : string) (payload : bytes) (off newSize : Z) :
    M arr () :=
  _ ← (if bool_decide (ref = RefArray) then changeArrayStage stage i payload off newSize
       else changeStringStage stage i payload off newSize);
  if newSize =? 0 then setStage stage (CellStr []) else ret ().

(** The stage key is returned also when staging failed, so that it is discarded. *)
Definition stageInodeRange (i : inodeData) (payload : bytes) (off newSize : Z) :
    M arr (string * result fsError inodeData) :=
  t ← newOriginID;
  let stage := stageKey (ID i) t in
  let i' := selectContentRef i in
  r ← try (_ ← seedStage stage i i'; changeStage stage i (ContentRef i') payload off newSize);
  ret (stage, match r with Ok _ => Ok i' | Err e => Err e end).

(** The new size and offset of one attempt; [None] when there is nothing to do. *)
Definition rangePlan (oldSize : Z) (payload : bytes) (off truncate : Z) : result fsError (option (Z * Z)) :=
  let writeOffset := if off =? -1 then oldSize else off in
  if max_int64 - writeOffset <? len payload then Err ErrInvalidRange
  else
    let newSize := if 0 <=? truncate then truncate
                   else if 0 <? len payload then Z.max oldSize (writeOffset + len payload) else oldSize in
    if ((0 <=? truncate) && (newSize =? oldSize)) || ((truncate <? 0) && (len payload =? 0))
    then Ok None else Ok (Some (writeOffset, newSize)).

Definition rangeExtra : list hfield := [FChunkSize 0; FChunkHashes ""].

Fixpoint range_attempts (n : nat) (ctx : Ctx) (inode : Z) (payload : bytes) (off truncate : Z) : M arr () :=
  match n with
  | O => fail ErrWriteConflict
  | S n' =>
      _ ← checkGeneration ctx;
      data ← loadInodeByID (FormatInt inode);
      match data with
      | None => fail ErrNotFound
      | Some i =>
          if negb (bool_decide (Type_ i = "file")) then fail ErrNotFile
          else
            _ ← lift (checkWriteCondition ctx i false);
            p ← InodePath ctx inode;
            plan ← lift (rangePlan (Size i) payload off truncate);
            match plan with
            | None => ret ()
            | Some (writeOffset, newSize) =>
                staged ← stageInodeRange i payload writeOffset newSize;
                r ← try (match staged.2 with
                         | Err e => fail e
                         | Ok i' =>
                             now ← nowMs;
                             publishStagedFile ctx p
                               (with_meta i' (Mode i') (UID i') (GID i') newSize now now now)
                               staged.1 false rangeExtra
                         end);
                _ ← discardStage staged.1;
                match r with
                | Ok _ => ret ()
                | Err ErrWriteConflict =>
                    if bool_decide (cx_expectedStat ctx ≠ None) then fail ErrWriteConflict
                    else range_attempts n' ctx inode payload off truncate
                | Err e => fail e
                end
            end
      end
  end.

Definition changeInodeRange (ctx : Ctx) (inode : Z) (payload : bytes) (off truncate : Z) : M arr () :=
  range_attempts 32 (WithRange ctx) inode payload off truncate.

Definition WriteInodeAtPath (ctx : Ctx) (inode : Z) (payload : bytes) (off : Z) : M arr () :=
  if (off <? -1) || ((0 <=? off) && (max_int64 - off <? len payload)) then fail ErrInvalidRange
  else changeInodeRange ctx inode payload off (-1).

Definition TruncateInodeAtPath (ctx : Ctx) (inode size : Z) : M arr () :=
  if size <? 0 then fail ErrInvalidSizeArg else changeInodeRange ctx inode [] 0 size.

End Range.

(** * Range operations under interference *)

Section RangeInv.
Context {arr : Type} {RA : RedisArray arr} {P : Params arr} {FT : FreshTokens P} {RL : Rely}.
Implicit Types (w : world arr) (F : world arr → Prop).

Lemma triple_soft_try {A} F (m : M arr A) : stable soft F →
  triple soft F m (λ _, F) → triple soft F (try m) (λ _, F).
Proof.
  intros HF Hm. eapply triple_post; [by apply triple_try_keep|]. by intros a w _ [].
Qed.

Lemma t_setStage stage c F : stable soft F → triple soft F (setStage stage c) (λ _, F).
Proof.
  intros HF. unfold setStage. tb; [by apply t_interfere|]. intros []. apply t_modify; auto with afs.
Qed.

Lemma t_lift_content {A} (r : result contentError A) F : triple soft F (lift_content r) (λ _, F).
Proof. unfold lift_content. destruct r; [apply triple_done; [apply _|by intros]|apply triple_fail; apply _]. Qed.

Lemma t_editStage stage f F : stable soft F → triple soft F (editStage stage f) (λ _, F).
Proof.
  intros HF. unfold editStage. tb; [by apply t_read|]. intros c. eapply (triple_pre _ F); [|by intros w _ []].
  tb; [apply t_lift_content|]. intros c'. by apply t_setStage.
Qed.

Lemma t_orStageError {A} i (m : M arr A) F :
  stable soft F → triple soft F m (λ _, F) → triple soft F (orStageError i m) (λ _, F).
Proof.
  intros HF Hm. unfold orStageError. tb; [by apply triple_soft_try|]. intros [a|e].
  - apply triple_done; [apply _|by intros].
  - unfold rangeStageError. apply triple_if; [|apply triple_fail; apply _].
    tb; [by apply t_loadInodeByID|]. intros [c|]; [apply triple_if|]; apply triple_fail; apply _.
Qed.

Lemma t_ret_keep {A} (a : A) F : triple soft F (ret a) (λ _, F).
Proof. apply triple_done; [apply _|by intros]. Qed.

Lemma t_stageInodeRange i payload off newSize F : stable soft F →
  triple soft F (stageInodeRange i payload off newSize)
    (λ r w, (∀ i', r.2 = Ok i' → i' = selectContentRef i) ∧ F w).
Proof.
  intros HF. unfold stageInodeRange. tb; [by apply t_newOriginID|]. intros t.
  eapply (triple_pre _ F); [|by intros w _ []]. set (stage := stageKey (ID i) t).
  set (i' := selectContentRef i).
  tb; [apply triple_soft_try; [done|]|].
  - tb; [|intros []].
    + unfold seedStage. apply triple_if.
      * tb; [by apply t_read|]. intros [| |]; [apply triple_fail; apply _| |];
          (eapply (triple_pre _ F); [apply t_modify; auto with afs|by intros w _ []]).
      * eapply (triple_bind _ _ _ _ (λ _, F)).
        { apply triple_if; [by apply t_orStageError, t_loadContentExternal|apply t_ret_keep]. }
        intros content. by apply t_setStage.
    + unfold changeStage, changeArrayStage, changeStringStage. eapply (triple_bind _ _ _ _ (λ _, F)).
      2:{ intros []. apply triple_if; [by apply t_setStage|apply t_ret_keep]. }
      apply triple_if; eapply (triple_bind _ _ _ _ (λ _, F));
        try (apply triple_if; [by apply t_orStageError, t_editStage|apply t_ret_keep]);
        intros []; repeat (apply triple_if; [by apply t_editStage|]); apply t_ret_keep.
  - intros r. apply triple_done; [apply _|]. intros w _ HFw. split; [|done].
    intros x. simpl. by destruct r as [[]|]; intros [= <-].
Qed.

Lemma p_checkGeneration ctx : preserves (checkGeneration ctx).
Proof. eapply preserves_soft, t_checkGeneration, stable_anything. Qed.

Lemma t_InodePath ctx inode F : stable soft F → triple soft F (InodePath ctx inode) (λ _, F).
Proof.
  intros HF. unfold InodePath. tb; [by apply t_read|]. intros reply.
  eapply (triple_pre _ F); [|by intros w _ []]. destruct reply; [|apply t_ret_keep].
  repeat apply triple_if; apply triple_fail; apply _.
Qed.

Lemma rangePlan_size old payload off truncate wo ns :
  0 ≤ old → rangePlan old payload off truncate = Ok (Some (wo, ns)) → 0 ≤ ns.
Proof.
  unfold rangePlan. intros Ho H. pose proof (len_nonneg payload).
  destruct (0 <=? truncate) eqn:Et; destruct (0 <? len payload) eqn:Ep;
    repeat (case_match; simplify_eq); lia.
Qed.

(** One attempt, once the inode has been observed and the change planned. *)
Lemma t_range_publish ctx p i stage newSize (i' : inodeData) :
  i' = selectContentRef i → Type_ i = "file" → 0 ≤ newSize →
  triple ext (obs i)
    (bindM nowMs (λ now, publishStagedFile ctx p
       (with_meta i' (Mode i') (UID i') (GID i') newSize now now now) stage false rangeExtra))
    (λ _ _, True).
Proof.
  intros -> Hty Hns. destruct (selectContentRef_same i) as (E1 & E2 & E3 & E4 & E5 & E6).
  tb; [apply t_nowMs; apply _|]. intros now. apply t_publish_tail; [apply stable_obs|]. intros r.
  eapply triple_pre; [eapply (t_publish_update ctx i); try done; try (simpl; congruence); by intros []|].
  by intros w _ [].
Qed.

Lemma p_range_attempts n ctx inode payload off truncate :
  preserves (range_attempts n ctx inode payload off truncate).
Proof.
  induction n as [|n IH]; [apply preserves_fail|]. cbn [range_attempts].
  apply preserves_then; [apply p_checkGeneration|intros []]. unfold preserves.
  tb; [by apply triple_soft_ext, t_loadInodeByID, stable_anything|]. intros [i|]; [|apply triple_fail; apply _].
  destruct (negb (bool_decide (Type_ i = "file"))) eqn:Ety; [apply triple_fail; apply _|]. bools.
  eapply (triple_pre _ (λ w, 0 ≤ Size i ∧ obs i w)).
  2:{ intros w _ [[_ H] _]. specialize (H i eq_refl). split; [apply H|done]. }
  apply triple_pull. intros Hsz.
  tb; [apply triple_lift_keep; apply _|]. intros [].
  tb; [by apply triple_soft_ext, t_InodePath, stable_obs|]. intros p.
  eapply (triple_bind _ _ _ _ (λ pl w, rangePlan (Size i) payload off truncate = Ok pl ∧ obs i w)).
  { apply triple_lift; [apply _|]. by intros pl ->. }
  intros pl. apply triple_pull. intros Epl. destruct pl as [[wo ns]|]; [|apply triple_done; [apply _|done]].
  pose proof (rangePlan_size _ _ _ _ _ _ Hsz Epl) as Hns.
  tb; [by apply triple_soft_ext, t_stageInodeRange, stable_obs|]. intros [stage staged]. cbn [fst snd].
  eapply (triple_bind _ _ _ _ (λ _ _, True)).
  { apply triple_pull. intros Hst. eapply triple_post; [apply triple_try|done].
    destruct staged as [i'|e]; [|apply triple_fail; apply _].
    by apply t_range_publish; [apply Hst| |]. }
  intros r. eapply (triple_pre _ anything); [|done].
  tb; [by apply triple_soft_ext, t_discardStage, stable_anything|]. intros [].
  destruct r as [?|[]]; try apply preserves_fail; try apply preserves_ret.
  apply preserves_if; [apply preserves_fail|apply IH].
Qed.

Lemma p_WriteInodeAtPath ctx inode payload off : preserves (WriteInodeAtPath ctx inode payload off).
Proof. unfold WriteInodeAtPath. apply preserves_if; [apply preserves_fail|apply p_range_attempts]. Qed.

Lemma p_TruncateInodeAtPath ctx inode size : preserves (TruncateInodeAtPath ctx inode size).
Proof. unfold TruncateInodeAtPath. apply preserves_if; [apply preserves_fail|apply p_range_attempts]. Qed.

End RangeInv.

(** * The path of an inode *)

Section PathFacts.
Context {arr : Type}.
Implicit Types d : db arr.

(** [id] hangs [n] links below the root. *)
Inductive depth d : string → nat → Prop :=
| depth_root : depth d "1" 0
| depth_child id n h :
    id ≠ "1" → inodes d !! id = Some h → depth d (h_parent h) n → depth d id (S n).

Lemma depth_fun d id n m : depth d id n → depth d id m → n = m.
Proof.
  intros H. revert m. induction H as [|id n h Hid Hh _ IH]; intros m Hm; inversion Hm; subst; try done.
  f_equal. apply IH. by simplify_eq.
Qed.

Lemma rooted_depth d id : fs_inv d → is_Some (inodes d !! id) → ∃ n, depth d id n.
Proof.
  intros Hinv [h Hh]. assert (below (static <$> inodes d) "1" id) as Hb.
  { apply (inv_rooted _ Hinv). rewrite lookup_fmap, Hh. by eexists. }
  clear Hh. induction Hb as [|id nd Hl Hid _ [n Hn]]; [exists 0%nat; constructor|].
  apply fmap_lookup_static in Hl as (h' & Hh' & ->). exists (S n). by econstructor.
Qed.

Lemma path_loop_sound fuel d id0 : ∀ id parts seen res,
  path_loop fuel d id parts seen = Some res →
  walk_ids d id parts = Some id0 → walk_ids d "1" res = Some id0.
Proof.
  induction fuel as [|fuel IH]; intros id parts seen res H Hw; [done|].
  cbn [path_loop] in H. repeat (case_match; simplify_eq); bools; subst; [done|].
  eapply IH; [exact H|]. simpl.
  match goal with H : dirent _ _ _ = _ |- _ => by rewrite H end.
Qed.

(** Going up from depth [n], the loop meets only inodes it has not seen. *)
Lemma path_loop_complete d : fs_inv d → ∀ n fuel id parts seen,
  depth d id n → (n < fuel)%nat → Z.of_nat (length parts + n) ≤ 4096 →
  (∀ s m, s ∈ seen → depth d s m → (n < m)%nat) →
  ∃ up, path_loop fuel d id parts seen = Some (up ++ parts) ∧ length up = n.
Proof.
  intros Hinv. induction n as [|n IH]; intros fuel id parts seen Hd Hf Hlen Hseen;
    (destruct fuel as [|fuel]; [lia|]); cbn [path_loop].
  - inversion Hd. rewrite bool_decide_eq_true_2 by done.
    destruct (wf_root _ _ (inv_tree _ Hinv)) as (nd & Hnd & _).
    apply fmap_lookup_static in Hnd as (h & Hh & _). rewrite Hh. by exists [].
  - inversion Hd as [|id' n' h Hid Hh Hp]; subst. rewrite (bool_decide_eq_false_2 (id = "1")) by done.
    rewrite (bool_decide_eq_false_2 (id ∈ seen)).
    2:{ intros Hin. specialize (Hseen id (S n) Hin Hd). lia. }
    replace (4096 <=? Z.of_nat (length parts)) with false by lia. cbn [orb]. rewrite Hh.
    assert (dirent d (h_parent h) (h_name h) = Some id) as ->.
    { apply (wf_links _ _ (inv_tree _ Hinv)). split; [done|]. exists (static h).
      split; [by apply static_lookup|done]. }
    rewrite bool_decide_eq_true_2 by done.
    destruct (IH fuel (h_parent h) (h_name h :: parts) (id :: seen)) as (up & Hup & Hl); try done.
    + lia.
    + simpl. lia.
    + intros s m [->|Hs]%elem_of_cons Hm; [by rewrite (depth_fun _ _ _ _ Hm Hd); lia|].
      specialize (Hseen s m Hs Hm). lia.
    + exists (up ++ [h_name h]). rewrite Hup, <- app_assoc. split; [done|]. rewrite length_app. simpl. lia.
Qed.

(** The path script of a live handle is exact.  In a sound workspace every
    inode at most 4096 levels deep gets a path whose components lead from the
    root to that very inode; and whatever the state, a path the script returns
    leads to the inode it was asked for. *)
Theorem inode_path_exact (g : guardArgs) (id : string) d :
  guard g d = None → fs_inv d → is_Some (inodes d !! id) →
  (∀ n, depth d id n → Z.of_nat n ≤ 4096) →
  ∃ parts, inodePathScript g id d = PathText (abs parts) ∧ walk_ids d "1" parts = Some id ∧
           depth d id (length parts).
Proof.
  intros Hg Hinv Hid Hdeep. destruct (rooted_depth d id Hinv Hid) as [n Hn]. specialize (Hdeep n Hn).
  destruct (path_loop_complete d Hinv n (Z.to_nat 4098) id [] []) as (up & Hup & Hl); [done|lia|simpl; lia| |].
  { intros s m Hs. by apply elem_of_nil in Hs. }
  rewrite app_nil_r in Hup. exists up. unfold inodePathScript. rewrite Hg, Hup.
  split_and!; [done| |by rewrite Hl]. by eapply path_loop_sound.
Qed.

End PathFacts.

(** * The content a range change stages *)

Section Staging.
Context {arr : Type} {RA : RedisArray arr} {P : Params arr}.
Implicit Types (w : world arr) (d : db arr).

(** [m], run with no other client, turns the state [d] into [d'] and returns [a]; it
    draws no identity and takes no time. *)
Definition exec {A} (m : M arr A) d (a : A) d' : Prop :=
  ∀ w, w_db w = d → (m w).1 = Ok a ∧ w_db (m w).2 = d' ∧ w_tok (m w).2 = w_tok w ∧ w_now (m w).2 = w_now w.

Lemma exec_bind {A B} (m : M arr A) (f : A → M arr B) d a d1 b d2 :
  exec m d a d1 → exec (f a) d1 b d2 → exec (bindM m f) d b d2.
Proof.
  intros Hm Hf w Hw. unfold bindM. destruct (Hm w Hw) as (E1 & E2 & E3 & E4). destruct (m w) as [r w1].
  simpl in *. subst r. destruct (Hf w1 E2) as (F1 & F2 & F3 & F4). split_and!; congruence.
Qed.

Lemma exec_ret {A} (a : A) d : exec (ret a) d a d.
Proof. by intros w Hw. Qed.

Lemma exec_read {A} (f : db arr → A) d : @solo arr P → exec (read f) d (f d) d.
Proof. intros Hs w Hw. unfold read, bindM, interfere, gets. rewrite Hs. by subst. Qed.

Lemma exec_modify f d : exec (modify f) d () (f d).
Proof. intros w Hw. unfold modify. by subst. Qed.

Lemma exec_try {A} (m : M arr A) d a d' : exec m d a d' → exec (try m) d (Ok a) d'.
Proof.
  intros Hm w Hw. unfold try. destruct (Hm w Hw) as (E1 & E2 & E3 & E4). destruct (m w). simpl in *. by subst.
Qed.

Lemma exec_lift_content {A} (r : result contentError A) d a : r = Ok a → exec (lift_content r) d a d.
Proof. intros -> w Hw. done. Qed.

Lemma exec_orStageError {A} i (m : M arr A) d a d' : exec m d a d' → exec (orStageError i m) d a d'.
Proof. intros Hm. unfold orStageError. eapply exec_bind; [by apply exec_try|apply exec_ret]. Qed.

Definition put (stage : string) (c : cell arr) d : db arr :=
  with_stages (match c with CellNone => delete stage | _ => <[stage := c]> end) d.

Lemma exec_setStage stage c d : @solo arr P → exec (setStage stage c) d () (put stage c d).
Proof. intros Hs w Hw. unfold setStage, bindM, interfere, modify. rewrite Hs. by subst. Qed.

Lemma stageCell_put stage c d : stageCell (put stage c d) stage = c.
Proof.
  unfold stageCell, put. destruct c; simpl; [by rewrite lookup_delete_eq|by rewrite lookup_insert_eq..].
Qed.

Lemma put_put stage c c' d : put stage c' (put stage c d) = put stage c' d.
Proof.
  unfold put, with_stages. simpl. f_equal. destruct c, c';
    rewrite ?insert_insert_eq, ?insert_delete_eq, ?delete_insert_eq, ?delete_delete_eq; done.
Qed.

Lemma exec_editStage stage f c c' d : @solo arr P → f c = Ok c' →
  exec (editStage stage f) (put stage c d) () (put stage c' d).
Proof.
  intros Hs Hf. unfold editStage. eapply exec_bind; [by apply exec_read|].
  eapply exec_bind; [apply exec_lift_content; rewrite stageCell_put; exact Hf|].
  rewrite <- (put_put stage c c'). by apply exec_setStage.
Qed.

(** The file [i] holds [data]: in its hash, as a string or as an array. *)
Definition holds_data d (i : inodeData) (data : bytes) : Prop :=
  Size i = len data ∧ size_of d (ID i) = Size i ∧
  if bool_decide (ContentRef i = "") then
    match inodes d !! ID i with Some h => h_content h = data | None => False end
  else (ContentRef i = RefExternal ∨ ContentRef i = RefArray ∧ arrays = true) ∧
       cell_repr (ContentRef i) (contentCell d (ID i)) (Size i) data ∧
       (0 < Size i → contentCell d (ID i) ≠ CellNone).

Lemma exec_loadContentExternal d i data : @solo arr P → Size i ≤ MaxArraySize → holds_data d i data →
  exec (loadContentExternal (ID i) (ContentRef i)) d data d.
Proof.
  intros Hs Hmax (Hsz & Hso & Hc). unfold loadContentExternal. case_bool_decide as Href.
  - rewrite Href in *. rewrite bool_decide_eq_false_2 by done.
    replace (isExternalContentRef "") with false by reflexivity. intros w Hw.
    destruct (exec_read (λ d0 : db arr, match inodes d0 !! ID i with Some h => h_content h | None => [] end) d Hs w Hw)
      as (E1 & E2 & E3 & E4). destruct (inodes d !! ID i) as [h|]; [|done]. subst data. done.
  - destruct Hc as ([Er|[Er Ha]] & Hrep & _); rewrite Er in *.
    + rewrite bool_decide_eq_true_2 by done. eapply exec_bind; [by apply exec_read|].
      cbn in Hrep. destruct Hrep as [_ [->|[-> ->]]]; apply exec_ret.
    + rewrite bool_decide_eq_false_2 by done.
      replace (isExternalContentRef RefArray) with true by reflexivity.
      eapply exec_bind; [by apply exec_read|]. eapply exec_bind; [by apply exec_read|].
      apply exec_lift_content. rewrite Ha, Hso. by apply Load_repr.
Qed.

Lemma ARSET_empty_repr : repr (ARSET 0 [[]] (ar_empty : arr)) 0 [].
Proof.
  split_and!; [|done|].
  - intros j c. rewrite ar_get_set. simpl. case_decide; [|by rewrite ar_get_empty].
    replace (Z.to_nat (j - 0)) with 0%nat by lia. intros [= <-]. done.
  - intros j Hj. unfold byte_at. rewrite ar_get_set. simpl.
    assert (∀ x, get [] x = x00) as Hnil by (intros x; unfold get; by destruct (Z.to_nat x)).
    case_decide; [|by rewrite ar_get_empty, !Hnil].
    replace (Z.to_nat (j / ArrayChunkBytes - 0)) with 0%nat by lia. simpl. by rewrite !Hnil.
Qed.

Lemma selected_ref d i data : holds_data d i data → Type_ i = "file" →
  ContentRef (selectContentRef i) = RefArray ∧ arrays = true ∨ ContentRef (selectContentRef i) = RefExternal.
Proof.
  intros (_ & _ & Hc) Hty. unfold selectContentRef, preferredContentRef.
  rewrite (bool_decide_eq_true_2 (Type_ i = "file")) by done.
  case_bool_decide as E0; [destruct arrays; simpl; auto|].
  destruct Hc as ([Er|[Er Ha]] & _); rewrite Er.
  - rewrite (bool_decide_eq_true_2 (RefExternal = RefExternal)) by done. destruct arrays; simpl; [auto|].
    rewrite ?Er. auto.
  - rewrite (bool_decide_eq_false_2 (RefArray = RefExternal)) by done. simpl. rewrite Er. auto.
Qed.

(** The seeded stage holds the file's data in the representation of [i']. *)
Lemma exec_seedStage d i data stage : @solo arr P → Size i ≤ MaxArraySize → holds_data d i data → Type_ i = "file" →
  ∃ c, exec (seedStage stage i (selectContentRef i)) d () (put stage c d) ∧
       cell_repr (ContentRef (selectContentRef i)) c (Size i) data ∧ c ≠ CellNone.
Proof.
  intros Hs Hmax Hd Hty. pose proof Hd as (Hsz & Hso & Hc). unfold seedStage. set (i' := selectContentRef i).
  destruct (isExternalContentRef (ContentRef i) && bool_decide (ContentRef i = ContentRef i') && (0 <? Size i)) eqn:E.
  - bools. rewrite bool_decide_eq_false_2 in Hc by (intros E0; rewrite E0 in *; done).
    destruct Hc as (_ & Hrep & Hne). exists (contentCell d (ID i)).
    assert (contentCell d (ID i) ≠ CellNone) as Hcn by (apply Hne; lia).
    split_and!; [|congruence|done].
    eapply exec_bind; [by apply exec_read|]. unfold put.
    destruct (contentCell d (ID i)); [done|apply exec_modify..].
  - eexists. split; [eapply exec_bind; [instantiate (1 := d); instantiate (1 := data)|by apply exec_setStage]|].
    + destruct (0 <? Size i) eqn:E0; [by apply exec_orStageError, exec_loadContentExternal|].
      assert (data = []) as ->; [|apply exec_ret]. destruct data; [done|]. unfold len in Hsz. simpl in Hsz. lia.
    + rewrite Hsz. destruct (selected_ref d i data Hd Hty) as [[Er _]|Er]; fold i' in Er; rewrite Er.
      * rewrite (bool_decide_eq_true_2 (RefArray = RefArray)) by done. cbn [andb].
        destruct (decide (data = [])) as [Ed|Ed];
          [rewrite (bool_decide_eq_true_2 (data = [])) by done; subst data; split; [apply ARSET_empty_repr|done]|].
        rewrite (bool_decide_eq_false_2 (data = [])) by done.
        split; [apply QueueWriteFull_repr|]. unfold QueueWriteFull.
        rewrite bool_decide_eq_true_2 by done. by destruct data.
      * rewrite (bool_decide_eq_false_2 (RefExternal = RefArray)) by done. cbn [andb].
        split; [apply QueueWriteFull_repr|done].
Qed.

(** What a range change means on the flat content. *)
Definition flat_change (data payload : bytes) (off newSize : Z) : bytes :=
  match payload with [] => ftruncate data newSize | _ => pwrite data off payload end.

(** A change as [rangePlan] hands it on: a write that ends at [newSize] or inside
    the file, or a resize. *)
Definition planned (size : Z) (payload : bytes) (off newSize : Z) : Prop :=
  match payload with
  | [] => 0 ≤ newSize
  | _ => 0 ≤ off ∧ off + len payload ≤ MaxArraySize ∧ newSize = Z.max size (off + len payload)
  end.

Lemma cell_repr_ext c size data :
  cell_repr RefExternal c size data → c ≠ CellNone → c = CellStr data ∧ size = len data.
Proof. cbn. intros [-> [->|[-> _]]]; done. Qed.

Lemma ftruncate_grow data n : len data < n → pwrite data (n - 1) [x00] = ftruncate data n.
Proof.
  intros H. pose proof (len_nonneg data). assert (len [x00] = 1) as H1 by reflexivity.
  apply bytes_ext; [rewrite len_pwrite, len_ftruncate by lia; lia|].
  intros j Hj. rewrite len_pwrite in Hj by lia. rewrite get_pwrite, get_ftruncate by lia.
  repeat case_decide; try lia; try done. assert (j = n - 1) as -> by lia.
  rewrite (get_out data) by lia. by rewrite Z.sub_diag.
Qed.

Lemma shrink_ftruncate data n : 0 < n < len data → GETRANGE data 0 (n - 1) = ftruncate data n.
Proof.
  intros H. rewrite GETRANGE_pread by lia. unfold ftruncate. rewrite Z.min_l by lia.
  unfold make_bytes. replace (Z.to_nat (n - len data)) with 0%nat by lia. simpl. by rewrite app_nil_r.
Qed.

Lemma repr_same_size a size data n : size ≤ MaxArraySize → repr (a : arr) size data → size ≤ n → repr a n (ftruncate data n).
Proof.
  intros Hm Hr Hn. pose proof Hr as (_ & Hs & _). pose proof (len_nonneg data).
  pose proof (repr_truncateArray a size data n Hm Hr ltac:(lia)) as Ht.
  unfold truncateArray in Ht. destruct (n =? size) eqn:E1; [done|].
  replace (n =? 0) with false in Ht by lia. by replace (size <? n) with true in Ht by lia.
Qed.

Lemma ftruncate_same data : ftruncate data (len data) = data.
Proof.
  pose proof (len_nonneg data). apply bytes_ext; [by rewrite len_ftruncate by lia|]. intros j Hj.
  rewrite len_ftruncate in Hj by lia. rewrite get_ftruncate by lia. by rewrite decide_True by lia.
Qed.

(** Applying the change to an array stage that holds [data]. *)
Lemma exec_changeArrayStage d i stage c data payload off newSize :
  @solo arr P → arrays = true → Size i ≤ MaxArraySize → cell_repr RefArray c (Size i) data → c ≠ CellNone →
  planned (Size i) payload off newSize →
  ∃ c', exec (changeArrayStage stage i payload off newSize) (put stage c d) () (put stage c' d) ∧
        cell_repr RefArray c' newSize (flat_change data payload off newSize).
Proof.
  intros Hs Ha Hmax Hrep Hne Hpl. unfold changeArrayStage. rewrite Ha. destruct payload as [|b payload].
  - rewrite bool_decide_eq_false_2 by naive_solver. simpl in Hpl.
    destruct (newSize <? Size i) eqn:El.
    + destruct (Truncate_repr c (Size i) data newSize Hmax Hrep Hpl) as (c1 & Ht & Hc1). exists c1.
      split; [|done]. eapply exec_bind; [apply exec_ret|]. by apply exec_editStage.
    + exists c. split; [eapply exec_bind; apply exec_ret|].
      cbn in Hrep |- *. destruct c as [|v|a]; [done|done|]. apply (repr_same_size _ (Size i)); [done|done|lia].
  - rewrite bool_decide_eq_true_2 by done. destruct Hpl as (Ho & Hm & ->).
    destruct (WriteRange_repr c (Size i) data off (b :: payload)) as (c1 & Hw & Hc1); [done|done| |done|].
    { unfold len. simpl. lia. }
    exists c1. split; [|done]. eapply exec_bind; [by apply exec_orStageError, exec_editStage|].
    replace (Z.max (Size i) (off + len (b :: payload)) <? Size i) with false by lia. apply exec_ret.
Qed.

(** Applying the change to a string stage that holds [data]; a shrink to zero is
    finished by [changeStage]. *)
Lemma exec_changeStringStage d i stage data payload off newSize :
  @solo arr P → Size i = len data → planned (Size i) payload off newSize →
  ∃ v, exec (changeStringStage stage i payload off newSize) (put stage (CellStr data) d) ()
         (put stage (CellStr v) d) ∧
       (newSize ≠ 0 → len v = newSize ∧ v = flat_change data payload off newSize).
Proof.
  intros Hs Hsz Hpl. unfold changeStringStage. pose proof (len_nonneg data). destruct payload as [|b payload].
  - rewrite (bool_decide_eq_false_2 ([] ≠ [])) by naive_solver. simpl in Hpl.
    rewrite (bool_decide_eq_true_2 ([] = [])) by done. rewrite andb_true_r. cbn [flat_change].
    destruct (newSize <? Size i) eqn:El; [|destruct (Size i <? newSize) eqn:Eg].
    + exists (if 0 <? newSize then GETRANGE data 0 (newSize - 1) else []). split.
      { eapply exec_bind; [apply exec_ret|]. apply exec_editStage; [done|].
        unfold shrinkStringStage. by case_match. }
      intros Hn0. replace (0 <? newSize) with true by lia. rewrite shrink_ftruncate by lia.
      by rewrite len_ftruncate by lia.
    + exists (pwrite data (newSize - 1) [x00]).
      split; [eapply exec_bind; [apply exec_ret|]; by apply exec_editStage|].
      intros _. rewrite ftruncate_grow by lia. by rewrite len_ftruncate by lia.
    + exists data. split; [eapply exec_bind; apply exec_ret|]. intros _.
      assert (newSize = len data) as -> by lia. by rewrite ftruncate_same.
  - rewrite bool_decide_eq_true_2 by done. destruct Hpl as (Ho & Hm & ->).
    exists (pwrite data off (b :: payload)).
    split; [|intros _; by rewrite len_pwrite, Hsz by done].
    eapply exec_bind; [apply exec_orStageError; by apply exec_editStage|].
    replace (Z.max (Size i) (off + len (b :: payload)) <? Size i) with false by lia.
    rewrite (bool_decide_eq_false_2 (b :: payload = [])) by done. rewrite andb_false_r. apply exec_ret.
Qed.

(** Applying the change to a stage that holds [data]. *)
Lemma exec_changeStage d i stage ref c data payload off newSize :
  @solo arr P → (ref = RefArray ∧ arrays = true ∨ ref = RefExternal) → Size i ≤ MaxArraySize →
  cell_repr ref c (Size i) data → c ≠ CellNone → planned (Size i) payload off newSize →
  ∃ c', exec (changeStage stage i ref payload off newSize) (put stage c d) () (put stage c' d) ∧
        (if bool_decide (newSize = 0) then c' = CellStr []
         else cell_repr ref c' newSize (flat_change data payload off newSize)).
Proof.
  intros Hs Href Hmax Hrep Hne Hpl. unfold changeStage.
  assert (∃ c1, exec (if bool_decide (ref = RefArray) then changeArrayStage stage i payload off newSize
                      else changeStringStage stage i payload off newSize) (put stage c d) () (put stage c1 d) ∧
      (newSize ≠ 0 → cell_repr ref c1 newSize (flat_change data payload off newSize))) as (c1 & Hex & Hr1).
  - destruct Href as [[-> Ha]| ->].
    + rewrite bool_decide_eq_true_2 by done.
      destruct (exec_changeArrayStage d i stage c data payload off newSize) as (c1 & ? & ?); eauto.
    + rewrite bool_decide_eq_false_2 by done. destruct (cell_repr_ext _ _ _ Hrep Hne) as [-> Hsz].
      destruct (exec_changeStringStage d i stage data payload off newSize) as (v & ? & Hv); try done.
      exists (CellStr v). split; [done|]. intros Hn. destruct (Hv Hn) as [Hl Hf]. rewrite <- Hf. cbn. split; [done|by left].
  - destruct (newSize =? 0) eqn:E0.
    + exists (CellStr []). rewrite (bool_decide_eq_true_2 (newSize = 0)) by lia. split; [|done].
      eapply exec_bind; [exact Hex|]. rewrite <- (put_put stage c1 (CellStr []) d). by apply exec_setStage.
    + exists c1. rewrite (bool_decide_eq_false_2 (newSize = 0)) by lia. split; [|apply Hr1; lia].
      eapply exec_bind; [exact Hex|apply exec_ret].
Qed.

(** Staging a range change.  For a file in any of the three
    representations, the private stage ends up holding exactly the flat content
    after the write or the resize, in the representation the client then
    publishes (legacy inline content and strings move to an array when the
    server has arrays), and nothing but the stage changes. *)
Theorem range_stage_is_flat_change d i data payload off newSize w :
  @solo arr P → w_db w = d → Size i ≤ MaxArraySize → holds_data d i data → Type_ i = "file" →
  planned (Size i) payload off newSize →
  ∃ c, (stageInodeRange i payload off newSize w).1 =
         Ok (stageKey (ID i) (tok (w_tok w)), Ok (selectContentRef i)) ∧
       w_db (stageInodeRange i payload off newSize w).2 = put (stageKey (ID i) (tok (w_tok w))) c d ∧
       (if bool_decide (newSize = 0) then c = CellStr []
        else cell_repr (ContentRef (selectContentRef i)) c newSize (flat_change data payload off newSize)).
Proof.
  intros Hs Hw Hmax Hd Hty Hpl. set (stage := stageKey (ID i) (tok (w_tok w))).
  destruct (exec_seedStage d i data stage Hs Hmax Hd Hty) as (c0 & Hseed & Hrep & Hne).
  destruct (exec_changeStage d i stage (ContentRef (selectContentRef i)) c0 data payload off newSize Hs
              (selected_ref d i data Hd Hty) Hmax Hrep Hne Hpl) as (c & Hch & Hfin).
  exists c. unfold stageInodeRange. unfold bindM at 1 4. unfold newOriginID. fold stage.
  match goal with |- (?m ?x).1 = _ ∧ _ => assert (exec m d
    (stage, Ok (selectContentRef i)) (put stage c d)) as Hx end.
  { eapply exec_bind; [apply exec_try; eapply exec_bind; [exact Hseed|exact Hch]|]. apply exec_ret. }
  match goal with |- (?m ?x).1 = _ ∧ _ => destruct (Hx x) as (E1 & E2 & _); [by simpl|] end.
  split_and!; done.
Qed.

End Staging.
