(* ===== verification/FsChunks.v ===== *)
(** Files written and read by chunks, and directories listed: WriteChunks,
    ReadChunks, ChunkMeta, Ls, LsLong and Info of mount/internal/client/native_core.go,
    [publishChunks] of publication.go, [listDirChildren] of native_helpers.go.

    A chunked write copies the content to a private stage, writes the chunks at
    their offsets there, cuts it and publishes it as any other write.  The stage
    belongs to this client alone, so a pipeline on it is one command after the other. *)
From Stdlib Require Import Strings.Byte.
From S2P Require Import Prelude Content Paths FsState FsTree FsScripts FsClient FsInv FsOps FsRange.
#[local] Open Scope string_scope.
#[local] Open Scope list_scope.
#[local] Open Scope Z_scope.

#[local] Notation "x ← y ; z" := (bindM y (λ x, z))
  (at level 20, y at level 100, z at level 200, only parsing) : fs_scope.
#[local] Open Scope fs_scope.

(** * Data *)

Record LsEntry := {
  ls_inode : Z; ls_name : string; ls_type : string; ls_mode : Z; ls_uid : Z; ls_gid : Z; ls_size : Z; ls_mtime : Z
}.
Record namedInode := { nm_Name : string; nm_Path : string; nm_Inode : inodeData }.
Record InfoResult := { in_Files : Z; in_Directories : Z; in_Symlinks : Z; in_TotalDataBytes : Z; in_TotalInodes : Z }.

(** The indices of the chunks in increasing order ([sort.Ints]). *)
Definition chunkIndices (chunks : gmap Z bytes) : list Z := insertion_sort Z.ltb (map fst (map_to_list chunks)).

(** Every chunk of a new file is there and full, the last one up to the size. *)
Definition chunksComplete (chunks : gmap Z bytes) (chunkSize newSize : Z) : bool :=
  forallb (λ idx, match chunks !! idx with
                  | Some data => len data =? Z.min chunkSize (newSize - idx * chunkSize)
                  | None => false
                  end) (seqZ 0 ((newSize + chunkSize - 1) / chunkSize)).

Section Chunks.
Context {arr : Type} {RA : RedisArray arr} {params : Params arr}.

(** * Staging *)

(** [SETRANGE] refuses a negative offset, and of nothing it writes nothing. *)
Definition setChunk (off : Z) (data : bytes) (c : cell arr) : result contentError (cell arr) :=
  if off <? 0 then Err ErrInvalidOffset
  else match data, c with
  | [], CellArr _ => Err ErrWrongType
  | [], _ => Ok c
  | _, _ => SETRANGE off data c
  end.

(** The stage gets the content: a copy of the key, which copies nothing when there is
    none, or the loaded content in the representation of [i']. *)
Definition seedChunks (creating : bool) (stage : string) (i i' : inodeData) : M arr () :=
  _ ← (if negb creating && isExternalContentRef (ContentRef i) && bool_decide (ContentRef i = ContentRef i') then
         c ← read (λ d, contentCell d (ID i));
         match c with
         | CellNone => ret ()
         | _ => modify (with_stages (<[stage := c]>))
         end
       else
         content ← (if creating then ret [] else loadContentExternal (ID i) (ContentRef i));
         setStage stage (QueueWriteFull (ContentRef i') content));
  if bool_decide (ContentRef i' = RefArray) && (Size i =? 0) then
    editStage stage (λ c, match c with
                          | CellNone => Ok (CellArr (ARSET 0 [[]] ar_empty))
                          | CellArr a => Ok (CellArr (ARSET 0 [[]] a))
                          | CellStr _ => Err ErrWrongType
                          end)
  else ret ().

Fixpoint writeArrayChunks (stage : string) (chunks : gmap Z bytes) (chunkSize : Z) (indices : list Z) : M arr () :=
  match indices with
  | [] => ret ()
  | idx :: indices =>
      if idx <? 0 then fail ErrInvalidChunks
      else
        _ ← editStage stage (λ c, WriteRange arrays c (i64 (idx * chunkSize)) (default [] (chunks !! idx)));
        writeArrayChunks stage chunks chunkSize indices
  end.

Fixpoint writeStringChunks (stage : string) (chunks : gmap Z bytes) (chunkSize : Z) (indices : list Z) : M arr () :=
  match indices with
  | [] => ret ()
  | idx :: indices =>
      _ ← editStage stage (setChunk (i64 (idx * chunkSize)) (default [] (chunks !! idx)));
      writeStringChunks stage chunks chunkSize indices
  end.

Definition stageChunks (stage : string) (i : inodeData) (ref : string) (chunks : gmap Z bytes) (chunkSize newSize : Z) : M arr () :=
  let indices := chunkIndices chunks in
  _ ← (if bool_decide (ref = RefArray) then
         _ ← writeArrayChunks stage chunks chunkSize indices;
         if newSize <? Size i then editStage stage (λ c, Content.Truncate arrays c (Size i) newSize) else ret ()
       else
         _ ← (if existsb (λ idx, idx <? 0) indices then fail ErrInvalidChunks else ret ());
         _ ← writeStringChunks stage chunks chunkSize indices;
         if newSize <? Size i then editStage stage (shrinkStringStage newSize) else ret ());
  if newSize =? 0 then setStage stage (CellStr []) else ret ().

(** * Chunked writes *)

(** The inode of a file that does not exist yet. *)
Definition newChunkFile (ctx : Ctx) (p : string) (chunks : gmap Z bytes) (chunkSize newSize : Z) : M arr (string * inodeData) :=
  if (chunkSize =? 0) && (0 <? newSize) then fail ErrInvalidChunks
  else
    let p := normalizePath p in
    _ ← ensureParents ctx p;
    parent ← resolvePath ctx (parentOf p) true;
    id ← allocInodeID ctx;
    now ← nowMs;
    if chunksComplete chunks chunkSize newSize
    then ret (p, InodeData "" id (ID parent.2) (baseName p) "file" 420 0 0 0 now now now "" [] "")
    else fail ErrInvalidChunks.

Definition publishChunksTo (ctx : Ctx) (resolved : string) (i : inodeData) (creating : bool)
    (chunks : gmap Z bytes) (chunkSize newSize : Z) (hashes : list string) : M arr () :=
  if negb (bool_decide (Type_ i = "file")) then fail ErrNotFile
  else
    _ ← lift (checkWriteCondition ctx i creating);
    let i' := selectContentRef i in
    t ← newOriginID;
    let stage := stageKey (ID i) t in
    with_stage_discarded stage (
      _ ← seedChunks creating stage i i';
      _ ← stageChunks stage i (ContentRef i') chunks chunkSize newSize;
      now ← nowMs;
      _ ← publishStagedFile ctx resolved (with_meta i' (Mode i') (UID i') (GID i') newSize (CtimeMs i') now now)
            stage creating [FChunkSize chunkSize; FChunkHashes (encodeChunkHashes hashes)];
      _ ← invalidateInode resolved;
      if creating then invalidateDirListing (parentOf resolved) else ret ()).

Definition publishChunks (ctx : Ctx) (p : string) (chunks : gmap Z bytes) (chunkSize newSize : Z) (hashes : list string) : M arr () :=
  if (chunkSize <? 0) || (newSize <? 0) || ((chunkSize =? 0) && negb (bool_decide (chunks = ∅))) then fail ErrInvalidChunks
  else
    r ← try (resolvePath ctx p true);
    match r with
    | Ok (resolved, i) => publishChunksTo ctx resolved i false chunks chunkSize newSize hashes
    | Err RedisNil =>
        pi ← newChunkFile ctx p chunks chunkSize newSize;
        publishChunksTo ctx pi.1 pi.2 true chunks chunkSize newSize hashes
    | Err e => fail e
    end.

Definition WriteChunks (ctx : Ctx) (p : string) (chunks : gmap Z bytes) (chunkSize newSize : Z) (hashes : list string) : M arr () :=
  publishChunks ctx p chunks chunkSize newSize hashes.

(** * Chunked reads *)

(** The reads of the indices, each of its own moment. *)
Fixpoint readEach (get : Z → M arr bytes) (indices : list Z) (out : gmap Z bytes) : M arr (gmap Z bytes) :=
  match indices with
  | [] => ret out
  | idx :: indices => chunk ← get idx; readEach get indices (<[idx := chunk]> out)
  end.

Definition ReadChunks (ctx : Ctx) (p : string) (indices : list Z) (chunkSize : Z) : M arr (gmap Z bytes) :=
  pi ← resolvePath ctx p true;
  let i := pi.2 in
  if negb (bool_decide (Type_ i = "file")) then fail ErrNotFile
  else if bool_decide (ContentRef i = RefArray) then
    readEach (λ idx,
      c ← read (λ d, contentCell d (ID i));
      lift_content (ReadRange arrays c RefArray (Size i) (i64 (idx * chunkSize)) chunkSize)) indices ∅
  else
    readEach (λ idx,
      c ← read (λ d, contentCell d (ID i));
      match c with
      | CellNone => ret []
      | CellStr v => ret (GETRANGE v (i64 (idx * chunkSize)) (i64 (i64 (idx * chunkSize) + chunkSize - 1)))
      | CellArr _ => fail (ErrContent ErrWrongType)
      end) indices ∅.

Definition ChunkMeta (ctx : Ctx) (p : string) : M arr (Z * list string) :=
  pi ← resolvePath ctx p true;
  let i := pi.2 in
  if negb (bool_decide (Type_ i = "file")) then fail ErrNotFile
  else read (λ d, match inodes d !! ID i with
                  | Some h => (h_chunk_size h, decodeChunkHashes (h_chunk_hashes h))
                  | None => (0, [])
                  end).

(** * Listing *)

Definition loadDirEntries (dirID : string) : M arr (gmap string string) := read (λ d, default ∅ (dirents d !! dirID)).

Definition sortNames (values : gmap string string) : list string := insertion_sort stringLess (map fst (map_to_list values)).

Fixpoint loadInodesByID (ids : list string) (out : gmap string inodeData) : M arr (gmap string inodeData) :=
  match ids with
  | [] => ret out
  | id :: ids =>
      i ← loadInodeByID id;
      loadInodesByID ids (match i with Some i => <[id := i]> out | None => delete id out end)
  end.

Definition listDirChildren (dirPath : string) (dir : inodeData) : M arr (list namedInode) :=
  if negb (bool_decide (Type_ dir = "dir")) then fail ErrNotDir
  else
    entries ← loadDirEntries (ID dir);
    let names := sortNames entries in
    byID ← loadInodesByID (omap (λ n, entries !! n) names) ∅;
    ret (omap (λ n, match entries !! n with
                    | Some id => match byID !! id with
                                 | Some i => Some {| nm_Name := n; nm_Path := joinPath dirPath n; nm_Inode := i |}
                                 | None => None
                                 end
                    | None => None
                    end) names).

Definition lsEntry (c : namedInode) : LsEntry :=
  let i := nm_Inode c in
  {| ls_inode := inodeUint64 (ID i); ls_name := nm_Name c; ls_type := Type_ i; ls_mode := Mode i; ls_uid := UID i; ls_gid := GID i;
     ls_size := Size i; ls_mtime := MtimeMs i |}.

Definition LsLong (ctx : Ctx) (p : string) : M arr (list LsEntry) :=
  pi ← resolvePath ctx p true;
  if negb (bool_decide (Type_ pi.2 = "dir")) then fail ErrNotDir
  else
    children ← listDirChildren pi.1 pi.2;
    ret (map lsEntry children).

Definition Ls (ctx : Ctx) (p : string) : M arr (list string) :=
  entries ← LsLong ctx p; ret (map ls_name entries).

Definition Info : M arr InfoResult :=
  i ← read info;
  ret {| in_Files := n_files i; in_Directories := n_directories i; in_Symlinks := n_symlinks i; in_TotalDataBytes := n_total_data_bytes i;
         in_TotalInodes := n_files i + n_directories i + n_symlinks i |}.
End Chunks.

(** * Under interference *)

Section ChunksInv.
Context {arr : Type} {RA : RedisArray arr} {P : Params arr} {FT : FreshTokens P} {RL : Rely}.
Implicit Types (w : world arr) (F : world arr → Prop).

Lemma t_seedChunks creating stage i i' F : stable soft F → triple soft F (seedChunks creating stage i i') (λ _, F).
Proof.
  intros HF. unfold seedChunks. eapply (triple_bind _ _ _ _ (λ _, F)).
  - apply triple_if.
    + tb; [by apply t_read|]. intros c. eapply (triple_pre _ F); [|by intros w _ []].
      destruct c; [apply t_ret_keep|apply t_modify; auto with afs..].
    + eapply (triple_bind _ _ _ _ (λ _, F)); [apply triple_if; [apply t_ret_keep|by apply t_loadContentExternal]|].
      intros content. by apply t_setStage.
  - intros []. apply triple_if; [by apply t_editStage|apply t_ret_keep].
Qed.

Lemma t_writeArrayChunks stage chunks cs l F : stable soft F → triple soft F (writeArrayChunks stage chunks cs l) (λ _, F).
Proof.
  intros HF. induction l as [|idx l IH]; [apply t_ret_keep|]. simpl. apply triple_if; [apply triple_fail; apply _|].
  tb; [by apply t_editStage|]. intros []. exact IH.
Qed.

Lemma t_writeStringChunks stage chunks cs l F : stable soft F → triple soft F (writeStringChunks stage chunks cs l) (λ _, F).
Proof.
  intros HF. induction l as [|idx l IH]; [apply t_ret_keep|]. simpl. tb; [by apply t_editStage|]. intros []. exact IH.
Qed.

Lemma t_stageChunks stage i ref chunks cs n F : stable soft F → triple soft F (stageChunks stage i ref chunks cs n) (λ _, F).
Proof.
  intros HF. unfold stageChunks. eapply (triple_bind _ _ _ _ (λ _, F)).
  - apply triple_if.
    + eapply (triple_bind _ _ _ _ (λ _, F)); [by apply t_writeArrayChunks|]. intros []. apply triple_if; [by apply t_editStage|apply t_ret_keep].
    + eapply (triple_bind _ _ _ _ (λ _, F)); [apply triple_if; [apply triple_fail; apply _|apply t_ret_keep]|]. intros [].
      eapply (triple_bind _ _ _ _ (λ _, F)); [by apply t_writeStringChunks|]. intros []. apply triple_if; [by apply t_editStage|apply t_ret_keep].
  - intros []. apply triple_if; [by apply t_setStage|apply t_ret_keep].
Qed.

(** Staging and publishing, over a file observed or for an inode nobody has. *)
Lemma t_publishChunksTo ctx q i (creating : bool) chunks cs n hashes : 0 ≤ n →
  triple ext (if creating then absent (ID i) else obs i) (publishChunksTo ctx q i creating chunks cs n hashes) (λ _ _, True).
Proof.
  intros Hn. unfold publishChunksTo. destruct (negb (bool_decide (Type_ i = "file"))) eqn:Ety; [apply triple_fail; apply _|]. bools.
  assert (stable soft (if creating then absent (ID i) else obs i)) as HS by (destruct creating; [apply stable_absent|apply stable_obs]).
  destruct (selectContentRef_same i) as (E1 & E2 & E3 & E4 & E5 & E6). set (i' := selectContentRef i) in *.
  tb; [apply triple_lift_keep; apply _|]. intros [].
  tb; [by apply triple_soft_ext, t_newOriginID|]. intros t.
  eapply (triple_pre _ (if creating then absent (ID i) else obs i)); [|by intros w _ []]. apply t_with_stage.
  tb; [by apply triple_soft_ext, t_seedChunks|]. intros [].
  tb; [by apply triple_soft_ext, t_stageChunks|]. intros []. tb; [apply t_nowMs; apply _|]. intros now.
  eapply (triple_bind _ _ _ _ (λ _ _, True)).
  - apply t_publish_tail; [exact HS|]. intros r. destruct creating.
    + eapply triple_pre; [eapply (t_publish_create ctx); try done; try (simpl; congruence); by intros []|]. intros w _ []. simpl. by rewrite E1.
    + eapply triple_pre; [eapply (t_publish_update ctx i); try done; try (simpl; congruence); by intros []|]. by intros w _ [].
  - intros i''. eapply (triple_pre _ anything); [|done]. apply preserves_then; [apply p_publishInvalidate|]. intros [].
    apply preserves_if; [apply p_publishInvalidate|apply preserves_ret].
Qed.

Lemma t_newChunkFile ctx p chunks cs n :
  triple ext anything (newChunkFile ctx p chunks cs n) (λ pi, absent (ID pi.2)).
Proof.
  unfold newChunkFile. apply triple_if; [apply triple_fail; apply _|]. cbv zeta.
  tb; [apply p_ensureParents|]. intros [].
  eapply (triple_bind _ _ _ _ (λ _, anything)); [eapply triple_post; [by apply triple_soft_ext, t_resolvePath, stable_anything|done]|]. intros parent.
  tb; [by apply triple_soft_ext, t_allocInodeID, stable_anything|]. intros id. eapply (triple_pre _ (absent id)); [|by intros w _ []].
  tb; [apply t_nowMs; apply _|]. intros now. apply triple_if; [|apply triple_fail; apply _]. by apply triple_done; [apply _|].
Qed.

Lemma p_WriteChunks ctx p chunks cs n hashes : preserves (WriteChunks ctx p chunks cs n hashes).
Proof.
  unfold WriteChunks, publishChunks. destruct ((cs <? 0) || (n <? 0) || _) eqn:Ec; [apply preserves_fail|]. assert (0 ≤ n) as Hn by lia. clear Ec.
  apply preserves_resolve_try; [intros [q i]; by apply (t_publishChunksTo ctx q i false)|intros e; destruct e; try apply preserves_fail].
  unfold preserves. tb; [apply t_newChunkFile|]. intros [q i]. by apply (t_publishChunksTo ctx q i true).
Qed.

Lemma t_readEach (get : Z → M arr bytes) l out : (∀ idx, preserves (get idx)) → preserves (readEach get l out).
Proof.
  intros Hg. revert out. induction l as [|idx l IH]; intros out; [apply preserves_ret|]. simpl. apply preserves_then; [apply Hg|]. intros. apply IH.
Qed.

Lemma p_ReadChunks ctx p l cs : preserves (ReadChunks ctx p l cs).
Proof.
  unfold ReadChunks. apply preserves_resolve. intros [q i]. eapply (triple_pre _ anything); [|done]. apply preserves_if; [apply preserves_fail|].
  apply preserves_if; apply t_readEach; intros idx; (apply preserves_then; [apply p_read|intros c]).
  - unfold lift_content. case_match; [apply preserves_ret|apply preserves_fail].
  - destruct c; [apply preserves_ret..|apply preserves_fail].
Qed.

Lemma p_ChunkMeta ctx p : preserves (ChunkMeta ctx p).
Proof.
  unfold ChunkMeta. apply preserves_resolve. intros [q i]. eapply (triple_pre _ anything); [|done]. apply preserves_if; [apply preserves_fail|]. apply p_read.
Qed.

Lemma p_LsLong ctx p : preserves (LsLong ctx p).
Proof.
  unfold LsLong, listDirChildren. apply preserves_resolve. intros [q i]. eapply (triple_pre _ anything); [|done]. apply preserves_if; [apply preserves_fail|].
  apply preserves_then; [|intros; apply preserves_ret]. apply preserves_if; [apply preserves_fail|].
  apply preserves_then; [apply p_read|]. intros entries. apply preserves_then; [|intros; apply preserves_ret].
  generalize (∅ : gmap string inodeData). induction (omap _ _) as [|id l IH]; intros out; [apply preserves_ret|].
  simpl. apply preserves_then; [apply p_read|]. intros x. apply IH.
Qed.
End ChunksInv.
