(* ===== verification/FsSpec.v ===== *)
(** The client alone on a workspace: what its operations do to the file tree.

    With no other client running every operation is a function of the state.
    [presolve] is path resolution as a function of the directory index and the
    types and targets of the inodes; the operations are then described by the
    path they are given, the inode it resolves to and the state they leave. *)
From Stdlib Require Import Strings.Byte.
From stdpp Require Import pretty.
From S2P Require Import Prelude Content Paths FsState FsTree FsScripts FsClient FsInv FsOps.
#[local] Open Scope string_scope.
#[local] Open Scope list_scope.
#[local] Open Scope Z_scope.
#[local] Arguments String.append : simpl nomatch.

(** * Resolution as a function *)

(** ** Links *)

Lemma clean_components_app us ws :
  valid_names ws → clean_components true (us ++ ws) = clean_components true us ++ ws.
Proof.
  intros Hw. unfold clean_components. rewrite foldl_app.
  generalize (foldl (clean_step true) [] us) as acc.
  induction Hw as [|w ws Hv _ IH]; intros acc; simpl; [by rewrite app_nil_r|].
  rewrite IH. assert (clean_step true acc w = w :: acc) as ->.
  { unfold valid_name in Hv. bools. unfold clean_step. rewrite bool_decide_eq_false_2 by naive_solver.
    by rewrite bool_decide_eq_false_2 by naive_solver. }
  simpl. by rewrite <- app_assoc.
Qed.

Lemma Split_app_slash t s : Split (t +:+ "/" +:+ s) slash = Split t slash ++ Split s slash.
Proof.
  change ("/" +:+ s) with (String slash s).
  induction t as [|c t IH]; [done|]. simpl. destruct (Ascii.eqb c slash); [by rewrite IH|].
  rewrite IH. destruct (Split t slash) as [|v vs] eqn:E; [|done].
  destruct t; simpl in E; repeat case_match; done.
Qed.

Lemma normalizePath_slash t : normalizePath ("/" +:+ t) = abs (clean_components true (Split t slash)).
Proof.
  unfold normalizePath. rewrite bool_decide_eq_false_2 by done.
  assert (HasPrefix ("/" +:+ t) "/" = true) as -> by apply (prefix_app "/").
  cbv zeta. rewrite Clean_slash. by rewrite bool_decide_eq_false_2.
Qed.

Lemma normalizePath_idem p : normalizePath (normalizePath p) = normalizePath p.
Proof. destruct (normalizePath_abs p) as (ws & Hv & ->). by apply normalizePath_canonical. Qed.

Lemma PathJoin_slash t s : s ≠ "" →
  PathJoin ("/" +:+ t) s = abs (clean_components true (Split t slash ++ Split s slash)).
Proof.
  intros Hs. unfold PathJoin. rewrite !filter_cons_True by done.
  change (Clean ("/" +:+ (t +:+ "/" +:+ s)) = abs (clean_components true (Split t slash ++ Split s slash))).
  rewrite Clean_slash. unfold abs. by rewrite Split_app_slash.
Qed.

(** The components a link in the directory [cur] leads to. *)
Definition link_base (cur : list string) (target : string) : list string :=
  splitComponents (rebuilt (abs cur) target []).

Lemma rebuilt_base cur target : target ≠ "" → valid_names cur →
  ∃ t, ∀ rest, valid_names rest →
    rebuilt (abs cur) target rest = abs (clean_components true (Split t slash) ++ rest).
Proof.
  intros Hne Hcur.
  assert (∃ t, (if HasPrefix target "/" then target else PathJoin (abs cur) target) = "/" +:+ t) as [t Ht].
  { destruct (HasPrefix target "/") eqn:E; [by apply prefix_spec in E as [t ->]; exists t|].
    unfold abs at 1. rewrite PathJoin_slash by done. by eexists. }
  exists t. intros rest Hr. unfold rebuilt. rewrite Ht. cbv zeta.
  destruct rest as [|r rest].
  - rewrite bool_decide_eq_true_2 by done. by rewrite normalizePath_slash, app_nil_r.
  - rewrite bool_decide_eq_false_2 by (by apply JoinWith_valid_ne).
    rewrite PathJoin_slash by (by apply JoinWith_valid_ne).
    rewrite (Split_Join _ slash) by (done || by apply valid_no_slash).
    rewrite clean_components_app by done. apply normalizePath_canonical, valid_names_app.
    split; [apply clean_components_valid, Split_no_char_all|done].
Qed.

Lemma rebuilt_abs cur target rest : target ≠ "" → valid_names cur → valid_names rest →
  rebuilt (abs cur) target rest = abs (link_base cur target ++ rest) ∧ valid_names (link_base cur target).
Proof.
  intros Hne Hcur Hr. destruct (rebuilt_base cur target Hne Hcur) as [t Ht].
  assert (valid_names (clean_components true (Split t slash))) as Hv
    by apply clean_components_valid, Split_no_char_all.
  unfold link_base. rewrite (Ht [] (Forall_nil_2 _)), app_nil_r, splitComponents_abs by done.
  split; [by apply Ht|done].
Qed.

(** ** The resolver *)

Section Resolver.
Variable D : string → string → option string.
Variable V : string → option (string * string).

Inductive walked :=
| PFound (ws : list string) (id : string)
| PJump (ws : list string)
| PEmpty.

Fixpoint pwalk (follow : bool) (cur : list string) (id : string) (comps : list string) :
    result fsError walked :=
  match comps with
  | [] => Ok (PFound cur id)
  | c :: rest =>
      match D id c with
      | None => Err RedisNil
      | Some child =>
          match V child with
          | None => Err RedisNil
          | Some (ty, target) =>
              if bool_decide (ty = "symlink") && (follow || negb (bool_decide (rest = [])))
              then Ok (if bool_decide (target = "") then PEmpty else PJump (link_base cur target ++ rest))
              else if bool_decide (rest = []) then Ok (PFound (cur ++ [c]) child)
              else if bool_decide (ty = "dir") then pwalk follow (cur ++ [c]) child rest
              else Err ErrNotDir
          end
      end
  end.

Fixpoint presolve (hops : nat) (follow : bool) (comps : list string) :
    result fsError (list string * string) :=
  match V "1" with
  | None => Err RedisNil
  | Some _ =>
      match pwalk follow [] "1" comps with
      | Err e => Err e
      | Ok (PFound ws id) => Ok (ws, id)
      | Ok (PJump ws) => match hops with O => Err ErrTooManyLinks | S hops' => presolve hops' follow ws end
      | Ok PEmpty => match hops with O => Err ErrTooManyLinks | S _ => Err ErrInvalidTarget end
      end
  end.

Lemma pwalk_valid follow comps : ∀ cur id r,
  valid_names cur → valid_names comps → pwalk follow cur id comps = Ok r →
  match r with PFound ws _ => valid_names ws | PJump ws => valid_names ws | PEmpty => True end.
Proof.
  induction comps as [|c rest IH]; intros cur id r Hc Hv H; simpl in H; [by simplify_eq|].
  apply Forall_cons in Hv as [Hv Hr].
  assert (valid_names (cur ++ [c])) as Hn by (apply valid_names_app; split; [done|by repeat constructor]).
  destruct (D id c) as [child|]; [|done]. destruct (V child) as [[ty target]|]; [|done].
  repeat (case_match; simplify_eq); try done; try exact (IH _ _ _ Hn Hr H).
  bools. apply valid_names_app. split; [|done].
  by destruct (rebuilt_abs cur target []) as [_ ?]; [|done|constructor|].
Qed.

(** The end of a walk is an existing inode, and no link when links are followed. *)
Lemma pwalk_exists comps : ∀ follow cur id ws i,
  is_Some (V id) → pwalk follow cur id comps = Ok (PFound ws i) → is_Some (V i).
Proof.
  induction comps as [|c rest IH]; intros follow cur id ws i Hid H; simpl in H; [by simplify_eq|].
  destruct (D id c) as [child|]; [|done]. destruct (V child) as [[ty target]|] eqn:E; [|done].
  repeat (case_match; simplify_eq); eauto.
Qed.

Lemma presolve_exists hops : ∀ follow comps ws i,
  presolve hops follow comps = Ok (ws, i) → is_Some (V i).
Proof.
  induction hops as [|hops IH]; intros follow comps ws i H; simpl in H;
    destruct (V "1") eqn:E1; try done; destruct (pwalk _ _ _ _) as [[]|] eqn:Ew; simplify_eq; eauto;
    by eapply pwalk_exists.
Qed.

(** The entry [name] of what a path resolves to is what the longer path
    resolves to. *)
Lemma pwalk_snoc follow name comps : ∀ cur at_ r,
  pwalk true cur at_ comps = Ok r →
  match r with
  | PFound ws i => (∃ t, V i = Some ("dir", t)) →
      pwalk follow cur at_ (comps ++ [name]) = pwalk follow ws i [name]
  | PJump ws => pwalk follow cur at_ (comps ++ [name]) = Ok (PJump (ws ++ [name]))
  | PEmpty => pwalk follow cur at_ (comps ++ [name]) = Ok PEmpty
  end.
Proof.
  induction comps as [|c rest IH]; intros cur at_ r H; [simpl in H; by simplify_eq|].
  cbn [pwalk app] in H |- *. destruct (D at_ c) as [child|]; [|done].
  destruct (V child) as [[ty target]|] eqn:E; [|done].
  rewrite (bool_decide_eq_false_2 (rest ++ [name] = [])) by (by destruct rest).
  cbn [negb orb] in H |- *. rewrite orb_true_r, andb_true_r. rewrite andb_true_r in H.
  case_bool_decide; [|case_bool_decide; [|case_bool_decide]]; simplify_eq.
  - case_bool_decide; simplify_eq; [done|]. by rewrite <- app_assoc.
  - intros [t Ht]. rewrite bool_decide_eq_true_2 by congruence. reflexivity.
  - by apply IH.
Qed.

Lemma presolve_snoc follow name hops : ∀ comps ws i,
  presolve hops true comps = Ok (ws, i) → (∃ t, V i = Some ("dir", t)) →
  presolve hops follow (comps ++ [name]) =
    match pwalk follow ws i [name] with
    | Ok (PFound us j) => Ok (us, j)
    | Err e => Err e
    | Ok _ => presolve hops follow (comps ++ [name])
    end.
Proof.
  induction hops as [|hops IH]; intros comps ws i H Hd; cbn [presolve] in H |- *; destruct (V "1"); try done;
    destruct (pwalk true [] "1" comps) as [[us j|us|]|e] eqn:Ew; simplify_eq;
    pose proof (pwalk_snoc follow name _ _ _ _ Ew) as Hs; cbn beta iota in Hs.
  - rewrite (Hs Hd). by destruct (pwalk follow ws i [name]) as [[]|].
  - rewrite (Hs Hd). by destruct (pwalk follow ws i [name]) as [[]|].
  - rewrite Hs. by apply IH.
Qed.

End Resolver.

(** Adding entries and inodes does not change what resolves. *)
Section Extension.
Context (D D' : string → string → option string) (V V' : string → option (string * string)).
Hypothesis HD : ∀ d n i, D d n = Some i → D' d n = Some i.
Hypothesis HV : ∀ i x, V i = Some x → V' i = Some x.

Lemma pwalk_mono follow comps : ∀ cur id r,
  pwalk D V follow cur id comps = Ok r → pwalk D' V' follow cur id comps = Ok r.
Proof.
  induction comps as [|c rest IH]; intros cur id r H; simpl in H |- *; [done|].
  destruct (D id c) as [child|] eqn:E; [|done]. rewrite (HD _ _ _ E).
  destruct (V child) as [[ty target]|] eqn:E2; [|done]. rewrite (HV _ _ E2).
  repeat case_match; simplify_eq; auto.
Qed.

Lemma presolve_mono hops : ∀ follow comps r,
  presolve D V hops follow comps = Ok r → presolve D' V' hops follow comps = Ok r.
Proof.
  induction hops as [|hops IH]; intros follow comps r H; simpl in H |- *;
    destruct (V "1") eqn:E1; try done; rewrite (HV _ _ E1);
    destruct (pwalk D V follow [] "1" comps) as [x|] eqn:Ew; try done;
    rewrite (pwalk_mono _ _ _ _ _ Ew); repeat case_match; simplify_eq; eauto.
Qed.
End Extension.

Lemma pwalk_ext (D D' : string → string → option string) (V V' : string → option (string * string))
    follow comps : (∀ d n, D d n = D' d n) → (∀ i, V i = V' i) → ∀ cur id,
  pwalk D V follow cur id comps = pwalk D' V' follow cur id comps.
Proof.
  intros HD HV. induction comps as [|c rest IH]; intros cur id; simpl; [done|].
  rewrite HD. destruct (D' id c); [|done]. rewrite HV. repeat case_match; auto.
Qed.

Lemma presolve_ext (D D' : string → string → option string) (V V' : string → option (string * string))
    follow hops : (∀ d n, D d n = D' d n) → (∀ i, V i = V' i) → ∀ comps,
  presolve D V hops follow comps = presolve D' V' hops follow comps.
Proof.
  intros HD HV. induction hops as [|hops IH]; intros comps; simpl; rewrite HV;
    rewrite (pwalk_ext D D' V V') by done; repeat case_match; auto.
Qed.

(** * Reading programs of a client alone *)

Section Seq.
Context {arr : Type} {RA : RedisArray arr} {P : Params arr}.
Hypothesis Hsolo : @solo arr P.
Implicit Types (w : world arr) (d : db arr).

(** [w] after some reads. *)
Definition later (t : Z) w : world arr := World (w_db w) (w_tok w) t (w_owned w) (w_resv w) (w_now w).

(** On the state [d] the program [m] answers [r] and changes nothing. *)
Definition reads {A} d (m : M arr A) (r : result fsError A) : Prop :=
  ∀ w, w_db w = d → ∃ t, m w = (r, later t w).

Lemma later_here w : later (w_tick w) w = w.
Proof. by destruct w. Qed.

Lemma reads_ret {A} d (a : A) : reads d (ret a) (Ok a).
Proof. intros w _. exists (w_tick w). by rewrite later_here. Qed.

Lemma reads_lift {A} d (r : result fsError A) : reads d (lift r) r.
Proof. intros w _. exists (w_tick w). by rewrite later_here. Qed.

Lemma reads_fail {A} d e : reads d (fail (A := A) e) (Err e).
Proof. intros w _. exists (w_tick w). by rewrite later_here. Qed.

Lemma interfere_solo w : interfere w = (Ok (), later (w_tick w + 1) w).
Proof. unfold interfere. by rewrite Hsolo. Qed.

Lemma reads_read {A} d (f : db arr → A) : reads d (read f) (Ok (f d)).
Proof. intros w <-. unfold read, bindM. rewrite interfere_solo. by eexists. Qed.

Lemma reads_bind {A B} d (m : M arr A) (f : A → M arr B) r s :
  reads d m r → match r with Ok a => reads d (f a) s | Err e => s = Err e end → reads d (bindM m f) s.
Proof.
  intros Hm Hf w Hw. unfold bindM. destruct (Hm w Hw) as [t ->]. destruct r as [a|e].
  - destruct (Hf (later t w) Hw) as [u ->]. by exists u.
  - subst s. by exists t.
Qed.

Lemma reads_try {A} d (m : M arr A) r : reads d m r → reads d (try m) (Ok r).
Proof. intros Hm w Hw. unfold try. destruct (Hm w Hw) as [t ->]. by exists t. Qed.

(** ** Resolution *)

Lemma inode_at_ID d id i : inode_at d id = Some i → ID i = id.
Proof. unfold inode_at, inodeFromHash. intros H. repeat (case_match; simplify_eq). done. Qed.

Definition view d (id : string) : option (string * string) := (λ i, (Type_ i, Target i)) <$> inode_at d id.

Lemma reads_lookup d dir name :
  reads d (lookupChildID dir name) (match dirent d dir name with Some id => Ok id | None => Err RedisNil end).
Proof.
  unfold lookupChildID. eapply reads_bind; [apply reads_read|]. cbn beta iota.
  destruct (dirent d dir name); [apply reads_ret|apply reads_fail].
Qed.

Definition walk_result d (r : result fsError walked) : result fsError walkResult :=
  match r with
  | Ok (PFound ws id) => match inode_at d id with Some i => Ok (WFound (abs ws) i) | None => Err RedisNil end
  | Ok (PJump ws) => Ok (WJump (abs ws))
  | Ok PEmpty => Ok (WJump "")
  | Err e => Err e
  end.

Lemma reads_walk d follow comps : ∀ cur i,
  valid_names cur → valid_names comps → inode_at d (ID i) = Some i →
  reads d (walk follow (abs cur) i comps) (walk_result d (pwalk (dirent d) (view d) follow cur (ID i) comps)).
Proof.
  induction comps as [|c rest IH]; intros cur i Hcur Hv Hi; cbn [walk pwalk walk_result].
  - rewrite Hi. apply reads_ret.
  - apply Forall_cons in Hv as [Hc Hr].
    eapply reads_bind; [apply reads_lookup|]. destruct (dirent d (ID i) c) as [child|]; [|done].
    eapply reads_bind; [apply reads_read|]. cbn beta iota. unfold view at 1.
    destruct (inode_at d child) as [j|] eqn:Ej; [|apply reads_fail]. cbn [fmap option_fmap option_map].
    pose proof (inode_at_ID _ _ _ Ej) as EID. rewrite joinPath_abs by done.
    destruct (bool_decide (Type_ j = "symlink") && (follow || negb (bool_decide (rest = [])))).
    + case_bool_decide as Et; [apply reads_ret|].
      rewrite (proj1 (rebuilt_abs cur (Target j) rest Et Hcur Hr)). apply reads_ret.
    + case_bool_decide; [cbn [walk_result]; rewrite Ej; apply reads_ret|].
      case_bool_decide; [|apply reads_fail]. rewrite <- EID in Ej |- *. apply IH; [|done|done].
      apply valid_names_app. split; [done|by repeat constructor].
Qed.

(** What [resolvePath] answers. *)
Definition resolved_at d (r : result fsError (list string * string)) : result fsError (string * inodeData) :=
  match r with
  | Ok (ws, id) => match inode_at d id with Some i => Ok (abs ws, i) | None => Err RedisNil end
  | Err e => Err e
  end.

Lemma reads_resolve_from d follow hops : ∀ comps,
  valid_names comps →
  reads d (resolve_from hops follow (abs comps))
    (resolved_at d (presolve (dirent d) (view d) hops follow comps)).
Proof.
  induction hops as [|hops IH]; intros comps Hv; cbn [resolve_from presolve];
    (eapply reads_bind; [apply reads_read|]); cbn beta iota; unfold view at 1; fold rootInodeID;
    (destruct (inode_at d rootInodeID) as [i|] eqn:Ei; [|apply reads_fail]);
    cbn [fmap option_fmap option_map]; rewrite splitComponents_abs by done;
    pose proof (inode_at_ID _ _ _ Ei) as EID; rewrite <- EID in Ei |- *;
    (eapply reads_bind; [apply (reads_walk d follow comps [] i); [constructor|done|done]|]);
    destruct (pwalk (dirent d) (view d) follow [] (ID i) comps) as [[ws id|ws|]|e] eqn:Ew; cbn [walk_result resolved_at];
    try done; try (destruct (inode_at d id); [apply reads_ret|done]); try apply reads_fail.
  rewrite bool_decide_eq_false_2 by done. apply IH.
  by apply (pwalk_valid _ _ _ _ _ _ _ (Forall_nil_2 _) Hv Ew).
Qed.

(** The generation and the lease of the context are those of the workspace. *)
Definition admitted (ctx : Ctx) d : Prop :=
  match cx_generation ctx with
  | Some g => generation d = Some g ∧ g ≠ "deleted"
  | None => True
  end ∧ (cx_lease ctx = "" ∨ cx_lease ctx ∈ leases d).

Lemma reads_checkGeneration ctx d : admitted ctx d → reads d (checkGeneration ctx) (Ok ()).
Proof.
  intros [Hg Hl]. unfold checkGeneration. destruct (cx_checked ctx); [apply reads_ret|].
  destruct (cx_generation ctx) as [g|]; [|apply reads_ret]. destruct Hg as [Hg Hd].
  eapply reads_bind; [apply reads_read|]. cbn beta iota.
  rewrite (bool_decide_eq_true_2 (generation d = Some g)) by done.
  rewrite (bool_decide_eq_false_2 (g = "deleted")) by done. cbn [negb orb].
  case_bool_decide as El; [|apply reads_ret].
  rewrite bool_decide_eq_true_2 by naive_solver. apply reads_ret.
Qed.

Lemma reads_ensureRoot ctx d : admitted ctx d → inode_at d "1" ≠ None → reads d (ensureRoot ctx) (Ok ()).
Proof.
  intros Ha Hr. unfold ensureRoot. eapply reads_bind; [by apply reads_checkGeneration|]. cbn beta iota.
  eapply reads_bind; [apply reads_read|]. cbn beta iota. change rootInodeID with "1".
  destruct (inode_at d "1"); [apply reads_ret|done].
Qed.

(** [p] in [d], as [resolvePath] finds it. *)
Definition lookup_path d (follow : bool) (p : string) : result fsError (string * inodeData) :=
  resolved_at d (presolve (dirent d) (view d) maxSymlinkDepth follow (splitComponents (normalizePath p))).

Lemma reads_resolvePath ctx d p follow : admitted ctx d → inode_at d "1" ≠ None →
  reads d (resolvePath ctx p follow) (lookup_path d follow p).
Proof.
  intros Ha Hr. unfold resolvePath. eapply reads_bind; [by apply reads_ensureRoot|]. cbn beta iota.
  unfold lookup_path. destruct (normalizePath_abs p) as (ws & Hv & ->).
  rewrite splitComponents_abs by done. by apply reads_resolve_from.
Qed.

(** ** Content *)

Definition content_at d (id ref : string) : result fsError bytes :=
  let lifted r := match r with Ok b => Ok b | Err e => Err (ErrContent e) end in
  if bool_decide (ref = RefExternal) then
    match contentCell d id with
    | CellNone => Ok []
    | CellStr v => Ok v
    | CellArr _ => Err (ErrContent ErrWrongType)
    end
  else if isExternalContentRef ref then lifted (Load arrays (contentCell d id) ref (size_of d id))
  else Ok (match inodes d !! id with Some h => h_content h | None => [] end).

Lemma reads_loadContentExternal d id ref : reads d (loadContentExternal id ref) (content_at d id ref).
Proof.
  unfold loadContentExternal, content_at. case_bool_decide.
  - eapply reads_bind; [apply reads_read|]. cbn beta iota.
    destruct (contentCell d id); [apply reads_ret|apply reads_ret|apply reads_fail].
  - destruct (isExternalContentRef ref); [|apply reads_read].
    eapply reads_bind; [apply reads_read|]. eapply reads_bind; [apply reads_read|]. cbn beta iota zeta.
    unfold lift_content. destruct (Load arrays _ _ _); [apply reads_ret|apply reads_fail].
Qed.

(** What [Cat] answers. *)
Definition cat_at d (p : string) : result fsError bytes :=
  match lookup_path d true p with
  | Err e => Err e
  | Ok (_, i) => if negb (bool_decide (Type_ i = "file")) then Err ErrNotFile
                 else content_at d (ID i) (ContentRef i)
  end.

Lemma lookup_path_inode d follow p q i : lookup_path d follow p = Ok (q, i) → inode_at d (ID i) = Some i.
Proof.
  unfold lookup_path, resolved_at. intros H. destruct (presolve _ _ _ _ _) as [[ws id]|]; [|done].
  destruct (inode_at d id) as [j|] eqn:E; [|done]. simplify_eq. by rewrite (inode_at_ID _ _ _ E).
Qed.

Lemma inode_at_revision d id i : inode_at d id = Some i → revision_of d id = Revision i.
Proof.
  unfold inode_at, revision_of, inodeFromHash. intros H. repeat (case_match; simplify_eq). done.
Qed.

Lemma reads_Cat ctx d p : admitted ctx d → inode_at d "1" ≠ None → reads d (Cat ctx p) (cat_at d p).
Proof.
  intros Ha Hr. unfold Cat, cat_at. cbn [cat_attempts].
  eapply reads_bind; [by apply reads_resolvePath|].
  destruct (lookup_path d true p) as [[q i]|e] eqn:E; [|done]. cbn beta iota zeta. cbn [snd].
  destruct (negb (bool_decide (Type_ i = "file"))); [apply reads_fail|].
  eapply reads_bind; [apply reads_try, reads_loadContentExternal|]. cbn beta iota.
  case_bool_decide; [|apply reads_lift].
  eapply reads_bind; [apply reads_read|]. cbn beta iota.
  rewrite (inode_at_revision _ _ _ (lookup_path_inode _ _ _ _ _ E)).
  rewrite bool_decide_eq_false_2 by auto. apply reads_lift.
Qed.

End Seq.
