(* ===== verification/FsSeq.v ===== *)
(** What the operations of a client alone do: full writes, creation, deletion and
    directories, as changes of the state followed by what later reads see. *)
From Stdlib Require Import Strings.Byte.
From stdpp Require Import pretty.
From S2P Require Import Prelude Content Paths FsState FsTree FsScripts FsClient FsInv FsOps FsSpec.
#[local] Open Scope string_scope.
#[local] Open Scope list_scope.
#[local] Open Scope Z_scope.

(** * States that read the same *)

(** Staging keys, the journal's entries and the dirty mark are not read by the
    operations; [agrees] is equality up to them. *)
Section Agrees.
Context {arr : Type}.
Implicit Types d : db arr.

Record agrees d d' : Prop := {
  ag_inodes : inodes d' = inodes d;
  ag_dirents : dirents d' = dirents d;
  ag_contents : contents d' = contents d;
  ag_info : info d' = info d;
  ag_next : next_inode d' = next_inode d;
  ag_gen : generation d' = generation d;
  ag_leases : leases d' = leases d;
  ag_journal : changes d = None ↔ changes d' = None
}.

#[export] Instance agrees_equivalence : Equivalence agrees.
Proof.
  split.
  - by intros d.
  - intros d d' [? ? ? ? ? ? ? ?]. by constructor.
  - intros d1 d2 d3 [? ? ? ? ? ? ? E] [? ? ? ? ? ? ? E']. constructor; try congruence. by rewrite E.
Qed.

Lemma agrees_stages f d : agrees d (with_stages f d).
Proof. done. Qed.

Lemma agrees_xadd ev d : agrees d (xadd ev d).
Proof. destruct ev; [|done]. constructor; try done. simpl. by destruct (changes d). Qed.

Lemma agrees_dirty d : agrees d (set_root_dirty d).
Proof. done. Qed.

#[export] Instance dirent_proper : Proper (agrees ==> eq ==> eq ==> eq) (dirent (arr := arr)).
Proof. intros d d' H ? dir -> ? name ->. unfold dirent. by rewrite (ag_dirents _ _ H). Qed.

#[export] Instance inode_at_proper : Proper (agrees ==> eq ==> eq) (inode_at (arr := arr)).
Proof. intros d d' H ? id ->. unfold inode_at. by rewrite (ag_inodes _ _ H). Qed.

#[export] Instance view_proper : Proper (agrees ==> eq ==> eq) (view (arr := arr)).
Proof. intros d d' H ? id ->. unfold view. by rewrite H. Qed.

#[export] Instance size_of_proper : Proper (agrees ==> eq ==> eq) (size_of (arr := arr)).
Proof. intros d d' H ? id ->. unfold size_of. by rewrite (ag_inodes _ _ H). Qed.

#[export] Instance contentCell_proper : Proper (agrees ==> eq ==> eq) (contentCell (arr := arr)).
Proof. intros d d' H ? id ->. unfold contentCell. by rewrite (ag_contents _ _ H). Qed.

#[export] Instance guard_proper : Proper (eq ==> agrees ==> eq) (guard (arr := arr)).
Proof. intros ? g -> d d' H. unfold guard. by rewrite (ag_gen _ _ H), (ag_leases _ _ H). Qed.

#[export] Instance admitted_proper : Proper (eq ==> agrees ==> iff) (admitted (arr := arr)).
Proof. intros ? ctx -> d d' H. unfold admitted. by rewrite (ag_gen _ _ H), (ag_leases _ _ H). Qed.

#[export] Instance fs_inv_proper : Proper (agrees ==> iff) (fs_inv (arr := arr)).
Proof.
  intros d d' H. pose proof (ag_inodes _ _ H) as EI. pose proof (ag_dirents _ _ H) as ED.
  pose proof (ag_info _ _ H) as EN.
  split; intros [H1 H2 H3]; constructor; rewrite ?EI, ?ED, ?EN in *; done.
Qed.

#[export] Instance lookup_path_proper : Proper (agrees ==> eq ==> eq ==> eq) (lookup_path (arr := arr)).
Proof.
  intros d d' H ? follow -> ? p ->. unfold lookup_path.
  rewrite (presolve_ext (dirent d) (dirent d') (view d) (view d')); [|by intros; rewrite H..].
  unfold resolved_at. destruct (presolve _ _ _ _ _) as [[ws id]|]; [|done]. by rewrite H.
Qed.

#[export] Instance content_at_proper {RA : RedisArray arr} {P : Params arr} :
  Proper (agrees ==> eq ==> eq ==> eq) content_at.
Proof.
  intros d d' H ? id -> ? ref ->. unfold content_at.
  rewrite (contentCell_proper _ _ H _ _ eq_refl), (size_of_proper _ _ H _ _ eq_refl).
  by rewrite (ag_inodes _ _ H).
Qed.

#[export] Instance cat_at_proper {RA : RedisArray arr} {P : Params arr} : Proper (agrees ==> eq ==> eq) cat_at.
Proof.
  intros d d' H ? p ->. unfold cat_at.
  rewrite (lookup_path_proper _ _ H _ _ eq_refl _ _ eq_refl). destruct (lookup_path d' true p) as [[q i]|]; [|done].
  by rewrite (content_at_proper _ _ H _ _ eq_refl _ _ eq_refl).
Qed.

(** A publication reads the stage and nothing else that [agrees] forgets. *)
Lemma publish_effects_agrees a staged d d' :
  agrees d d' → agrees (publish_effects a staged d) (publish_effects a staged d').
Proof.
  intros H. pose proof H as [E1 E2 E3 E4 E5 E6 E7 E8]. unfold publish_effects. rewrite (size_of_proper _ _ H _ _ eq_refl).
  rewrite <- !agrees_xadd.
  repeat case_match; constructor; simpl; rewrite ?E1, ?E2, ?E3, ?E4, ?E5, ?E6, ?E7; done.
Qed.

End Agrees.

(** * Running the steps that write *)

Section Run.
Context {arr : Type} {RA : RedisArray arr} {P : Params arr} {FT : FreshTokens P}.
Hypothesis Hsolo : @solo arr P.
Implicit Types (w : world arr) (d : db arr).

(** [m] succeeds with [a], in a state that reads like [d'], after drawing [k]
    identities. *)
Definition does {A} (m : M arr A) w (a : A) d' (k : Z) : Prop :=
  ∃ w', m w = (Ok a, w') ∧ agrees d' (w_db w') ∧ w_tok w' = w_tok w + k ∧ w_now w' = w_now w.

Lemma does_reads {A} (m : M arr A) w a : reads (w_db w) m (Ok a) → does m w a (w_db w) 0.
Proof. intros Hm. destruct (Hm w eq_refl) as [t E]. exists (later t w). split_and!; [done|done|simpl; lia|done]. Qed.

(** One step after another; the second one is run on a world of which the state,
    the clock and the identities drawn are known. *)
Lemma does_bind {A B} (m : M arr A) (f : A → M arr B) w a d1 k1 b d2 k2 :
  does m w a d1 k1 →
  (∀ w1, agrees d1 (w_db w1) → w_tok w1 = w_tok w + k1 → w_now w1 = w_now w → does (f a) w1 b d2 k2) →
  does (bindM m f) w b d2 (k1 + k2).
Proof.
  intros (w1 & E & Hd & Ht & Hn) Hf. unfold does, bindM. rewrite E.
  destruct (Hf w1 Hd Ht Hn) as (w2 & -> & Hd2 & Ht2 & Hn2). exists w2. split_and!; [done|done|lia|congruence].
Qed.

Lemma does_after {A B} (m : M arr A) (f : A → M arr B) w x w1 j a d' k :
  m w = (Ok x, w1) → w_tok w1 = w_tok w + j → w_now w1 = w_now w → does (f x) w1 a d' k →
  does (bindM m f) w a d' (j + k).
Proof.
  intros E Ht Hn (w2 & E2 & Hd & Ht2 & Hn2). unfold does, bindM. rewrite E, E2.
  exists w2. split_and!; [done|done|lia|congruence].
Qed.

Lemma w_inv_later t w : w_inv w → w_inv (later t w).
Proof. intros [? ? ? ? ?]. by constructor. Qed.

Lemma does_try {A} (m : M arr A) w a d' k : does m w a d' k → does (try m) w (Ok a) d' k.
Proof. intros (w' & E & ?). unfold does, try. rewrite E. by exists w'. Qed.

Lemma does_ret {A} (a : A) w d : agrees d (w_db w) → does (ret a) w a d 0.
Proof. intros H. exists w. split_and!; [done|done|lia|done]. Qed.

Lemma does_agrees {A} (m : M arr A) w a d d' k : agrees d' d → does m w a d k → does m w a d' k.
Proof. intros H (w' & E & Hd & ?). exists w'. split_and!; [done|by etrans|tauto..]. Qed.

Lemma does_newOriginID w : does newOriginID w (tok (w_tok w)) (w_db w) 1.
Proof. by eexists. Qed.

Lemma does_nowMs w : does nowMs w (w_now w) (w_db w) 0.
Proof. exists w. split_and!; [done|done|lia|done]. Qed.

Lemma does_discardStage stage w : does (discardStage stage) w () (w_db w) 0.
Proof.
  unfold does, discardStage, bindM. rewrite (interfere_solo Hsolo). eexists.
  split_and!; [done|done|simpl; lia|done].
Qed.

Lemma does_publishInvalidate op p w : does (publishInvalidate op p) w () (w_db w) 0.
Proof.
  unfold publishInvalidate. destruct (publishDisabled || _); [by apply does_ret|].
  unfold does, bindM. rewrite (interfere_solo Hsolo). eexists.
  split_and!; [done|apply agrees_xadd|simpl; lia|done].
Qed.

Lemma does_markRootDirty ctx w : admitted ctx (w_db w) → does (markRootDirty ctx) w () (w_db w) 0.
Proof.
  intros [Hg Hl]. unfold does, markRootDirty, bindM, inThrottle. rewrite (interfere_solo Hsolo). cbn [w_tick later].
  destruct (throttled _); [eexists; split_and!; [done|done|simpl; lia|done]|].
  unfold gets, modify. simpl. destruct (cx_generation ctx) as [g|].
  - destruct Hg as [Hg _]. rewrite bool_decide_eq_true_2 by done. simpl.
    assert (negb (bool_decide (cx_lease ctx = "")) && negb (bool_decide (cx_lease ctx ∈ leases (w_db w))) = false) as ->.
    { destruct Hl as [->|Hl]; [done|]. rewrite (bool_decide_eq_true_2 (_ ∈ _)) by done. apply andb_false_r. }
    eexists. split_and!; [done|done|simpl; lia|done].
  - eexists. split_and!; [done|done|simpl; lia|done].
Qed.

(** A stage holds the full content. *)
Definition staged_content (i : inodeData) : cell arr :=
  if Size i =? 0 then CellStr [] else QueueWriteFull (ContentRef i) (Content i).

Lemma run_stageFullFile i w :
  ∃ w', stageFullFile i w = (Ok (stageKey (ID i) (tok (w_tok w))), w') ∧
    w_db w' = with_stages (<[stageKey (ID i) (tok (w_tok w)) := staged_content i]>) (w_db w) ∧
    w_tok w' = w_tok w + 1 ∧ w_now w' = w_now w.
Proof.
  unfold stageFullFile, bindM, newOriginID. rewrite (interfere_solo Hsolo). eexists. split_and!; done.
Qed.

Lemma does_stage_discarded {A} stage (m : M arr A) w a d k :
  does m w a d k → does (with_stage_discarded stage m) w a d k.
Proof.
  intros Hm. unfold with_stage_discarded. replace k with (k + (0 + 0)) by lia.
  eapply does_bind; [by apply does_try|]. intros w1 H1 _ _.
  eapply does_bind; [apply does_discardStage|]. intros w2 H2 _ _. cbn beta iota.
  exists w2. split_and!; [done|by etrans|lia|done].
Qed.

(** A context without conditions on the files. *)
Record unconditional (ctx : Ctx) : Prop := {
  uc_stat : cx_expectedStat ctx = None;
  uc_parents : cx_expectedParents ctx = ∅
}.

Lemma admitted_guard ctx d : admitted ctx d → guard (guardOf ctx) d = None.
Proof.
  intros [Hg Hl]. unfold guard, guardOf. simpl.
  assert (negb (bool_decide (default "" (cx_generation ctx) = "")) &&
          negb (bool_decide (generation d = Some (default "" (cx_generation ctx)))) = false) as ->.
  { destruct (cx_generation ctx) as [g|]; [|done]. destruct Hg as [Hg _]. simpl.
    rewrite (bool_decide_eq_true_2 (generation d = Some g)) by done. apply andb_false_r. }
  case_bool_decide; [done|]. rewrite bool_decide_eq_true_2; [done|]. by destruct Hl.
Qed.

(** The script of a publication that commits. *)
Lemma run_script r s w d' :
  s (w_db w) = Ok (1, d') → does (bindM interfere (λ _, script r s)) w 1 d' 0.
Proof.
  intros Hs. unfold does, bindM, script. rewrite (interfere_solo Hsolo). simpl. rewrite Hs.
  eexists. split_and!; [done|done|simpl; lia|done].
Qed.

Lemma does_publish ctx p i stage creating extra w d' :
  unconditional ctx →
  publishFileScript (publishArgsOf ctx p i stage (tok (w_tok w)) creating extra) (w_db w) = Ok (1, d') →
  does (publishStagedFile ctx p i stage creating extra) w (with_revision i (tok (w_tok w))) d' 1.
Proof.
  intros [Hs Hp] Hscript. unfold publishStagedFile, checkExpectedParent, checkWriteCondition, runMutationScript.
  rewrite Hs, Hp. rewrite bool_decide_eq_true_2 by done.
  unfold lift at 1 2, bindM at 1 2. replace 1 with (1 + (0 + 0)) at 1 by done.
  destruct (run_script (tok (w_tok w)) (publishFileScript (publishArgsOf ctx p i stage (tok (w_tok w)) creating extra))
    (World (w_db w) (w_tok w + 1) (w_tick w) (w_owned w) ({[tok (w_tok w)]} ∪ w_resv w) (w_now w)) d' Hscript)
    as (w1 & E1 & Hd & Ht & Hn).
  unfold does, newOriginID, bindM at 1, try at 1, bindM at 1. rewrite E1. exists w1.
  split_and!; [done|done|simpl in *; lia|done].
Qed.

(** ** A full write of an existing file *)

(** How a file's content is stored by this client. *)
Definition stored_ref (ref : string) : Prop := ref = RefExternal ∨ ref = RefArray ∧ arrays = true.

Lemma selected_stored i :
  Type_ i = "file" → ContentRef i = "" ∨ stored_ref (ContentRef i) → stored_ref (ContentRef (selectContentRef i)).
Proof.
  intros Hty Href. unfold selectContentRef, preferredContentRef, stored_ref in *.
  rewrite (bool_decide_eq_true_2 (Type_ i = "file")) by done.
  destruct Href as [E|[E|[E Ha]]]; rewrite E; destruct arrays; simpl; rewrite ?E; auto.
Qed.

(** The key of the file [id] holds [data] in the representation [ref]. *)
Definition stored d (id ref : string) (data : bytes) : Prop :=
  stored_ref ref ∧ len data ≤ MaxArraySize ∧ size_of d id = len data ∧ cell_repr ref (contentCell d id) (len data) data.

Lemma stored_content d id ref data : stored d id ref data → content_at d id ref = Ok data.
Proof.
  intros (Href & Hm & Hsz & Hc). unfold content_at. destruct Href as [->|[-> Ha]].
  - rewrite bool_decide_eq_true_2 by done. cbn in Hc. by destruct Hc as [_ [->|[-> ->]]].
  - rewrite bool_decide_eq_false_2 by done. replace (isExternalContentRef RefArray) with true by reflexivity.
    rewrite Ha, Hsz. by rewrite (Load_repr RefArray _ (len data) data eq_refl Hm Hc).
Qed.

(** No key, or a full write: what a publication of the whole content leaves. *)
Lemma cell_repr_full ref data : stored_ref ref →
  cell_repr ref (if bool_decide (len data = 0) then CellNone else QueueWriteFull ref data : cell arr) (len data) data.
Proof.
  intros Href. case_bool_decide as E; [|apply QueueWriteFull_repr].
  assert (data = []) as -> by (destruct data; [done|unfold len in E; simpl in E; lia]).
  destruct Href as [->|[-> _]]; [split; [done|by right]|]. apply (QueueWriteFull_repr RefArray []).
Qed.

(** What a publication may set besides the fields of the inode. *)
Definition chunk_fields (extra : list hfield) : Prop := extra = [] ∨ ∃ size hashes, extra = [FChunkSize size; FChunkHashes hashes].

(** The inode after all the fields of [i] have been written over [h]. *)
Lemma fields_inode h i p r (ranged : bool) extra : Type_ i = "file" → ContentRef i ≠ "" → chunk_fields extra →
  inodeFromHash (ID i) (foldl hset1 h ((((if ranged then inodeFields i false else inodeFieldsAtPath i p false) ++ extra))
                           ++ [FRevision r; FContent []])) =
    Some (InodeData r (ID i) (Parent i) (Name i) "file" (u32 (Mode i)) (u32 (UID i)) (u32 (GID i)) (Size i)
            (CtimeMs i) (MtimeMs i) (AtimeMs i) (h_target h) [] (ContentRef i)).
Proof.
  intros Hty Href Hex. unfold inodeFieldsAtPath, inodeFields. rewrite Hty.
  rewrite (bool_decide_eq_false_2 ("file" = "symlink")) by done.
  rewrite (bool_decide_eq_true_2 (ContentRef i ≠ "")) by done. destruct Hex as [->|(a & b & ->)]; destruct ranged, h; reflexivity.
Qed.

Lemma inodeFromHash_size id h i : inodeFromHash id h = Some i → h_size h = Size i.
Proof. unfold inodeFromHash. destruct (h_type h); [|done]. by intros [= <-]. Qed.

Lemma inodeFromHash_target id h i : inodeFromHash id h = Some i → h_target h = Target i.
Proof. unfold inodeFromHash. destruct (h_type h); [|done]. by intros [= <-]. Qed.

(** What a publication over the file [i] leaves. *)
Record overwritten d d' (i : inodeData) (r : string) : Prop := {
  ov_dirents : dirents d' = dirents d;
  ov_view id : view d' id = view d id;
  ov_inode : inode_at d' (ID i) =
    Some (InodeData r (ID i) (Parent i) (Name i) "file" (u32 (Mode i)) (u32 (UID i)) (u32 (GID i)) (Size i)
            (CtimeMs i) (MtimeMs i) (AtimeMs i) (Target i) [] (ContentRef i));
  ov_stored : stored d' (ID i) (ContentRef i) (Content i);
  ov_others id : id ≠ ID i → inode_at d' id = inode_at d id ∧ contents d' !! id = contents d !! id ∧
                             inodes d' !! id = inodes d !! id;
  ov_gen : generation d' = generation d;
  ov_leases : leases d' = leases d
}.

Lemma overwritten_stages f d d' i r : overwritten (with_stages f d) d' i r → overwritten d d' i r.
Proof. intros [? ? ? ? ? ? ?]. by constructor. Qed.

Lemma publish_over ctx p o i stage r d extra staged :
  inode_at d (ID i) = Some o → Type_ o = "file" → Type_ i = "file" → Target i = Target o →
  stored_ref (ContentRef i) → Size i = len (Content i) → Size i ≤ MaxArraySize → chunk_fields extra →
  cell_repr (ContentRef i) (if bool_decide (len (Content i) = 0) then CellNone else staged) (len (Content i)) (Content i) →
  overwritten d (publish_effects (publishArgsOf ctx p i stage r false extra) staged d) i r.
Proof.
  intros Ho Hto Hti Htg Href Hsz Hmax Hex Hcell. set (a := publishArgsOf ctx p i stage r false extra).
  assert (ContentRef i ≠ "") as Hne by (destruct Href as [->|[-> _]]; done).
  destruct (publish_effects_at a staged d eq_refl) as (EI & ED & _ & EC & EG & EL).
  pose proof Ho as Ho'. unfold inode_at in Ho'. destruct (inodes d !! ID i) as [h|] eqn:Eh; [|done].
  assert (h_target h = Target i) as Et.
  { by rewrite (inodeFromHash_target _ _ _ Ho'), Htg. }
  pose proof (fields_inode h i p r (cx_ranged ctx) extra Hti Hne Hex) as Hf. rewrite Et in Hf.
  set (d' := publish_effects a staged d) in *.
  assert (inodes d' !! ID i = Some (foldl hset1 h (p_fields a ++ [FRevision (p_revision a); FContent []]))) as Ehs.
  { rewrite EI. unfold hset. simpl. by rewrite lookup_insert_eq, Eh. }
  assert (inode_at d' (ID i) = Some (InodeData r (ID i) (Parent i) (Name i) "file" (u32 (Mode i)) (u32 (UID i))
    (u32 (GID i)) (Size i) (CtimeMs i) (MtimeMs i) (AtimeMs i) (Target i) [] (ContentRef i))) as Hi'.
  { unfold inode_at. rewrite Ehs. exact Hf. }
  assert (∀ id, id ≠ ID i → inodes d' !! id = inodes d !! id) as Hoth.
  { intros id Hid. rewrite EI. unfold hset. simpl. by rewrite lookup_insert_ne. }
  constructor; try done.
  - intros id. unfold view. destruct (decide (id = ID i)) as [->|Hid].
    + rewrite Hi', Ho. simpl. by rewrite Hto, Htg.
    + unfold inode_at. by rewrite Hoth.
  - split_and!; [done|lia| |].
    + unfold size_of. rewrite Ehs. etrans; [exact (inodeFromHash_size _ _ _ Hf)|exact Hsz].
    + unfold contentCell. rewrite EC. change (p_size a) with (Size i). change (p_id a) with (ID i). rewrite Hsz.
      destruct (bool_decide (len (Content i) = 0)); [by rewrite lookup_delete_eq|by rewrite lookup_insert_eq].
  - intros id Hid. split_and!; [unfold inode_at; by rewrite Hoth| |by apply Hoth].
    rewrite EC. clear EC Hcell. simpl. case_bool_decide; [by rewrite lookup_delete_ne|by rewrite lookup_insert_ne].
Qed.

(** The cell a full write stages is the one a publication leaves. *)
Lemma staged_full i : stored_ref (ContentRef i) → Size i = len (Content i) →
  cell_repr (ContentRef i) (if bool_decide (len (Content i) = 0) then CellNone else staged_content i : cell arr) (len (Content i)) (Content i).
Proof.
  intros Href Hsz. pose proof (cell_repr_full (ContentRef i) (Content i) Href) as Hc. unfold staged_content. rewrite Hsz.
  case_bool_decide as E; [done|]. by replace (len (Content i) =? 0) with false by lia.
Qed.

Lemma FormatInt_nonempty k : 1 ≤ k → FormatInt k ≠ "".
Proof.
  assert (∀ x s, s ≠ "" → pretty_N_go x s ≠ "") as H.
  { intros x. induction (N.lt_wf_0 x) as [x _ IH]; intros s Hs.
    destruct (decide (x = 0%N)) as [->|Hx]; [by rewrite pretty_N_go_0|].
    rewrite pretty_N_go_step by lia. apply IH; [apply N.div_lt; lia|done]. }
  intros Hk. destruct k as [|k|k]; [lia| |lia]. change (pretty_N_go (Npos k) "" ≠ "").
  rewrite pretty_N_go_step by done. by apply H.
Qed.

(** Identities not yet drawn are no revisions. *)
Lemma fresh_revision w id k : w_inv w → 0 ≤ k → revision_of (w_db w) id ≠ tok (w_tok w + k).
Proof.
  intros Hw Hk. unfold revision_of. destruct (inodes (w_db w) !! id) as [h|] eqn:Eh.
  - destruct (wi_revs _ Hw _ _ Eh) as [[->|(j & Hj & ->)] _].
    + intros E. by apply (tok_nonempty (w_tok w + k)).
    + intros E%tok_inj. lia.
  - intros E. by apply (tok_nonempty (w_tok w + k)).
Qed.

(** A live inode other than the root hangs from a directory. *)
Lemma live_entry d id o : fs_inv d → id ≠ "1" → inode_at d id = Some o →
  dirent d (Parent o) (Name o) = Some id ∧ type_of d (Parent o) = Some "dir".
Proof.
  intros Hinv Hid Ho. unfold inode_at in Ho. destruct (inodes d !! id) as [h|] eqn:Eh; [|done].
  unfold inodeFromHash in Ho. destruct (h_type h) as [ty|] eqn:Et; [|done]. injection Ho as <-. simpl.
  pose proof (static_lookup _ _ _ Eh) as Hs. destruct Hinv as [Hw _ _]. split.
  - apply (wf_links _ _ Hw). split; [done|]. by exists (static h).
  - destruct (wf_parents _ _ Hw _ _ Hs Hid) as (p & Hp & Hd).
    apply fmap_lookup_static in Hp as (hp & Hhp & ->). unfold type_of. simpl in Hhp. by rewrite Hhp.
Qed.

Lemma root_is_dir d o : fs_inv d → inode_at d "1" = Some o → Type_ o = "dir".
Proof.
  intros [Hw _ _] Ho. destruct (wf_root _ _ Hw) as (nd & Hnd & Ht).
  apply fmap_lookup_static in Hnd as (h & Hh & ->). unfold inode_at in Ho. rewrite Hh in Ho.
  unfold inodeFromHash in Ho. simpl in Ht. rewrite Ht in Ho. by injection Ho as <-.
Qed.

(** [i] is a new version of the file [o]. *)
Record version_of (o i : inodeData) : Prop := {
  vo_id : ID i = ID o; vo_parent : Parent i = Parent o; vo_name : Name i = Name o;
  vo_revision : Revision i = Revision o; vo_type : Type_ i = "file"; vo_type_o : Type_ o = "file";
  vo_target : Target i = Target o; vo_size : Size i = len (Content i)
}.

Lemma selectContentRef_version o i : version_of o i →
  version_of o (selectContentRef i) ∧ Content (selectContentRef i) = Content i ∧
  Size (selectContentRef i) = Size i ∧ Mode (selectContentRef i) = Mode i ∧
  UID (selectContentRef i) = UID i ∧ GID (selectContentRef i) = GID i ∧
  CtimeMs (selectContentRef i) = CtimeMs i ∧ MtimeMs (selectContentRef i) = MtimeMs i ∧
  AtimeMs (selectContentRef i) = AtimeMs i.
Proof.
  intros [? ? ? ? ? ? ? ?]. unfold selectContentRef.
  repeat case_match; (split; [by constructor|done]).
Qed.

(** The commands a full write needs are in bounds. *)
Definition has_room d (growth : Z) : Prop :=
  changes d ≠ None ∧ publication_counter d CFiles 1 = true ∧ publication_counter d CTotalData growth = true.

(** The accounting bound keeps every file far below the limit of an array. *)
Lemma room_size d o growth : fs_inv d → inode_at d (ID o) = Some o → Type_ o = "file" → has_room d growth →
  0 ≤ Size o ∧ Size o + Z.abs growth ≤ MaxArraySize.
Proof.
  intros [Hwf _ Hc] Ho Hty (_ & _ & Hroom). unfold inode_at in Ho. destruct (inodes d !! ID o) as [h|] eqn:Eh; [|done].
  assert ((static <$> inodes d) !! ID o = Some (static h)) as Hs by (by rewrite lookup_fmap, Eh).
  assert (∀ id nd, (static <$> inodes d) !! id = Some nd → 0 ≤ file_bytes nd) as Hpos.
  { intros id nd Hnd. unfold file_bytes. case_bool_decide; [by eapply wf_sizes|done]. }
  pose proof (msum_ge file_bytes _ _ _ Hpos Hs) as Hge. rewrite <- (cnt_bytes _ _ Hc) in Hge.
  assert (h_type h = Some (Type_ o)) as Et by (unfold inodeFromHash in Ho; destruct (h_type h); [by injection Ho as <-|done]).
  assert (h_size h = Size o) as Ez by (eapply inodeFromHash_size; exact Ho).
  unfold file_bytes in Hge. simpl in Hge. rewrite Et, Hty, Ez, bool_decide_eq_true_2 in Hge by done.
  pose proof (wf_sizes _ _ Hwf _ _ Hs) as H0. simpl in H0. rewrite Ez in H0.
  unfold publication_counter, info_get in Hroom. unfold MaxArraySize, max_int64, ArrayChunkBytes. lia.
Qed.

(** A staged new version of a live file is published. *)
Lemma publish_live ctx p o i w w1 f stage staged extra :
  w_inv w → admitted ctx (w_db w) → inode_at (w_db w) (ID o) = Some o → version_of o i →
  has_room (w_db w) (Size i - Size o) →
  w_db w1 = with_stages f (w_db w) → stages (w_db w1) !! stage = Some staged → w_tok w1 = w_tok w + 1 →
  let a := publishArgsOf ctx p i stage (tok (w_tok w1)) false extra in
  publishFileScript a (w_db w1) = Ok (1, publish_effects a staged (w_db w1)).
Proof.
  intros Hw Ha Ho Hv (Hch & Hc1 & Hc2) Hd1 Hst Ht1 a. pose proof Hv as [Vid Vpar Vname Vrev Vty Vto Vtg Vsz].
  assert (ID o ≠ "1") as Hid1.
  { intros E. rewrite E in Ho. pose proof (root_is_dir _ _ (wi_fs _ Hw) Ho). congruence. }
  destruct (live_entry _ _ _ (wi_fs _ Hw) Hid1 Ho) as [Hlink Hdir].
  rewrite Hd1 in Hst |- *. apply publish_ready; simpl; rewrite ?Vid, ?Vpar, ?Vname, ?Vrev.
  - by apply admitted_guard.
  - done.
  - rewrite Ht1. by apply (fresh_revision w).
  - exact Hdir.
  - split; [exact Hlink|by apply inode_at_revision].
  - exact Hst.
  - intros _ E. unfold inode_at in Ho. by rewrite E in Ho.
  - exact Hc1.
  - assert (size_of (w_db w) (ID o) = Size o) as Eo.
    { unfold size_of. unfold inode_at in Ho. destruct (inodes (w_db w) !! ID o) as [h|]; [|done].
      by apply (inodeFromHash_size (ID o)). }
    unfold size_of in *. simpl. rewrite Eo. exact Hc2.
Qed.

Lemma live_id w o : w_inv w → inode_at (w_db w) (ID o) = Some o → ID o ≠ "".
Proof.
  intros Hw Ho E. destruct (wi_next _ Hw) as (n & _ & Hn).
  destruct (Hn (ID o)) as (k & Ek & Hk & _); [unfold inode_at in Ho; by destruct (inodes (w_db w) !! ID o)|].
  by apply (FormatInt_nonempty k); [|congruence].
Qed.

Lemma does_saveInode ctx p o i w :
  unconditional ctx → w_inv w → admitted ctx (w_db w) → inode_at (w_db w) (ID o) = Some o →
  version_of o i → ContentRef i = "" ∨ stored_ref (ContentRef i) → has_room (w_db w) (Size i - Size o) →
  ∃ d', does (saveInode ctx p i) w (with_revision (selectContentRef i) (tok (w_tok w + 1))) d' 2 ∧
        overwritten (w_db w) d' (selectContentRef i) (tok (w_tok w + 1)).
Proof.
  intros Huc Hw Ha Ho Hv Href Hroom.
  destruct (selectContentRef_version o i Hv) as (Hv' & EC & ES & _).
  pose proof (selected_stored i (vo_type _ _ Hv) Href) as Hst. set (i' := selectContentRef i) in *.
  assert (ID i ≠ "") as Hne by (rewrite (vo_id _ _ Hv); by apply (live_id w)).
  destruct (run_stageFullFile i' w) as (w1 & E1 & Hd1 & Ht1 & Hn1).
  set (a := publishArgsOf ctx p i' (stageKey (ID i') (tok (w_tok w))) (tok (w_tok w1)) false []).
  assert (publishFileScript a (w_db w1) = Ok (1, publish_effects a (staged_content i') (w_db w1))) as Hs.
  { eapply (publish_live ctx p o i' w); try done; [by rewrite ES|]. rewrite Hd1. apply lookup_insert_eq. }
  pose proof Hv' as [Vid _ _ _ _ _ _ _].
  exists (publish_effects a (staged_content i') (w_db w1)). split.
  - unfold saveInode. rewrite (bool_decide_eq_false_2 (ID i = "")) by done. fold i'.
    rewrite (bool_decide_eq_true_2 (Type_ i' = "file")) by apply Hv'. cbn [negb].
    unfold checkWriteCondition. rewrite (uc_stat _ Huc). replace 2 with (0 + (1 + 1)) by done.
    eapply does_after; [reflexivity|lia|done|]. eapply does_after; [exact E1|done|done|].
    rewrite <- Ht1. apply does_stage_discarded, does_publish; done.
  - rewrite <- Ht1. unfold a. rewrite Hd1.
    eapply overwritten_stages, (publish_over ctx p o i'); try apply Hv'; try done; [|rewrite ES; pose proof (room_size _ _ _ (wi_fs _ Hw) Ho (vo_type_o _ _ Hv) Hroom); lia|by left|by apply staged_full; [|apply Hv']].
    change (inode_at (w_db w) (ID i') = Some o). by rewrite Vid.
Qed.

(** ** Reading after a write *)

Definition new_inode (i : inodeData) (r : string) : inodeData :=
  InodeData r (ID i) (Parent i) (Name i) "file" (u32 (Mode i)) (u32 (UID i)) (u32 (GID i)) (Size i)
    (CtimeMs i) (MtimeMs i) (AtimeMs i) (Target i) [] (ContentRef i).

Lemma lookup_path_view d d' follow p : dirents d' = dirents d → (∀ id, view d' id = view d id) →
  lookup_path d' follow p =
    match presolve (dirent d) (view d) maxSymlinkDepth follow (splitComponents (normalizePath p)) with
    | Ok (ws, id) => match inode_at d' id with Some i => Ok (abs ws, i) | None => Err RedisNil end
    | Err e => Err e
    end.
Proof.
  intros ED EV. unfold lookup_path, resolved_at.
  rewrite (presolve_ext (dirent d') (dirent d) (view d') (view d)); [done| |done].
  intros. unfold dirent. by rewrite ED.
Qed.

Lemma overwritten_lookup d d' i r follow p : overwritten d d' i r →
  lookup_path d' follow p =
    match lookup_path d follow p with
    | Ok (q, j) => Ok (q, if decide (ID j = ID i) then new_inode i r else j)
    | Err e => Err e
    end.
Proof.
  intros Hov. rewrite (lookup_path_view d d') by apply Hov. unfold lookup_path, resolved_at.
  destruct (presolve _ _ _ _ _) as [[ws id]|]; [|done].
  destruct (inode_at d id) as [j|] eqn:Ej.
  - pose proof (inode_at_ID _ _ _ Ej) as Eid. case_decide as Hd.
    + rewrite Eid in Hd. subst id. by rewrite Hd, (ov_inode _ _ _ _ Hov).
    + rewrite Eid in Hd. by rewrite (proj1 (ov_others _ _ _ _ Hov id Hd)), Ej.
  - pose proof (ov_view _ _ _ _ Hov id) as Hv. unfold view in Hv. rewrite Ej in Hv.
    by destruct (inode_at d' id).
Qed.

Lemma content_at_other d d' id ref :
  contents d' !! id = contents d !! id → inodes d' !! id = inodes d !! id →
  content_at d' id ref = content_at d id ref.
Proof. intros E1 E2. unfold content_at, contentCell, size_of. by rewrite E1, E2. Qed.

Lemma overwritten_cat d d' i r p : overwritten d d' i r →
  cat_at d' p =
    match lookup_path d true p with
    | Ok (_, j) => if decide (ID j = ID i) then Ok (Content i) else cat_at d p
    | Err e => Err e
    end.
Proof.
  intros Hov. unfold cat_at. rewrite (overwritten_lookup _ _ _ _ _ _ Hov).
  destruct (lookup_path d true p) as [[q j]|]; [|done]. case_decide as Hd.
  - rewrite bool_decide_eq_true_2 by done. apply stored_content, Hov.
  - destruct (ov_others _ _ _ _ Hov _ Hd) as (_ & Hc & Hi). by rewrite (content_at_other d d').
Qed.

(** Results of reading operations, from those of the state. *)
Lemma run_reads {A} d (m : M arr A) r w : reads d m r → w_db w = d → (m w).1 = r.
Proof. intros Hm Hw. by destruct (Hm w Hw) as [t ->]. Qed.

Lemma does_writeFile ctx p data (append : bool) w q i old :
  unconditional ctx → w_inv w → admitted ctx (w_db w) →
  lookup_path (w_db w) true p = Ok (q, i) → Type_ i = "file" → ContentRef i = "" ∨ stored_ref (ContentRef i) →
  (if append then content_at (w_db w) (ID i) (ContentRef i) = Ok old else old = []) →
  has_room (w_db w) (len (old ++ data) - Size i) →
  ∃ d' i', does (writeFile ctx p data append) w () d' 2 ∧
        overwritten (w_db w) d' i' (tok (w_tok w + 1)) ∧ ID i' = ID i ∧
        Content i' = old ++ data ∧ Size i' = len (old ++ data) ∧ Mode i' = Mode i ∧ MtimeMs i' = w_now w.
Proof.
  intros Huc Hw Ha Hl Hty Href Hold Hroom. pose proof (lookup_path_inode _ _ _ _ _ Hl) as Hi.
  assert (normalizePath p ≠ "/") as Hroot.
  { intros E. unfold lookup_path, resolved_at in Hl. rewrite E in Hl. simpl in Hl.
    destruct (view (w_db w) "1") eqn:Ev; [|done].
    destruct (inode_at (w_db w) "1") as [o|] eqn:Eo; [|done]. injection Hl as _ <-.
    pose proof (root_is_dir _ _ (wi_fs _ Hw) Eo). congruence. }
  pose proof (reads_resolvePath Hsolo ctx (w_db w) (normalizePath p) true Ha (root_present _ Hw)) as Hres.
  assert (lookup_path (w_db w) true (normalizePath p) = Ok (q, i)) as Hl'.
  { rewrite <- Hl. unfold lookup_path. by rewrite normalizePath_idem. }
  rewrite Hl' in Hres.
  assert (reads (w_db w) (if append then bindM (loadContentExternal (ID i) (ContentRef i)) (λ e, ret (e ++ data))
                          else ret data) (Ok (old ++ data))) as Hc.
  { destruct append; [|subst old; apply reads_ret].
    eapply reads_bind; [apply (reads_loadContentExternal Hsolo)|]. rewrite Hold. apply reads_ret. }
  destruct (reads_try _ _ _ Hres w eq_refl) as [t1 E1].
  destruct (Hc (later t1 w) eq_refl) as [t2 E2]. set (w2 := later t2 (later t1 w)) in *.
  assert (w_inv w2) as Hw2 by by apply w_inv_later, w_inv_later.
  set (i1 := with_times (with_content i (old ++ data)) (w_now w) (w_now w)).
  assert (version_of i i1) as Hv by by constructor.
  destruct (does_saveInode ctx q i i1 w2 Huc Hw2 Ha Hi Hv Href Hroom) as (d' & Hsave & Hov).
  destruct (selectContentRef_version i i1 Hv) as ([Vid _ _ _ _ _ _ _] & EC & ES & EM & _ & _ & _ & Emt & _).
  exists d', (selectContentRef i1). split; [|by rewrite EC, ES, EM, Emt, Vid].
  unfold writeFile. cbv zeta. rewrite (bool_decide_eq_false_2 (normalizePath p = "/")) by done.
  replace 2 with (0 + (0 + (0 + (2 + (0 + 0))))) by done.
  eapply does_after; [exact E1|simpl; lia|done|]. cbn beta iota.
  rewrite (bool_decide_eq_true_2 (Type_ i = "file")) by done. cbn [negb].
  eapply does_after; [exact E2|simpl; lia|done|]. cbn beta iota.
  eapply does_after; [reflexivity|lia|done|]. cbn beta.
  eapply does_bind; [exact Hsave|]. intros w3 H3 _ _.
  eapply does_bind; [apply does_publishInvalidate|]. intros w4 H4 _ _.
  eapply does_agrees; [etrans; [exact H3|exact H4]|]. apply does_markRootDirty.
  assert (agrees d' (w_db w4)) as <- by (by etrans).
  unfold admitted. by rewrite (ov_gen _ _ _ _ Hov), (ov_leases _ _ _ _ Hov).
Qed.

(** ** Creating a file *)

(** The inode of a new file. *)
Definition new_file (id parent name : string) (mode now : Z) (content : bytes) : inodeData :=
  selectContentRef (InodeData "" id parent name "file" mode 0 0 (len content) now now now "" content "").

(** What the publication of the new file [i] leaves. *)
Record created d d' (i : inodeData) (r : string) : Prop := {
  cr_dirent dir name : dirent d' dir name =
    if decide (dir = Parent i ∧ name = Name i) then Some (ID i) else dirent d dir name;
  cr_view id : view d' id = if decide (id = ID i) then Some (Type_ i, Target i) else view d id;
  cr_inode : inode_at d' (ID i) = Some (new_inode i r);
  cr_stored : stored d' (ID i) (ContentRef i) (Content i);
  cr_others id : id ≠ ID i → contents d' !! id = contents d !! id ∧ size_of d' id = size_of d id ∧
    (id ≠ Parent i → inodes d' !! id = inodes d !! id);
  cr_gen : generation d' = generation d;
  cr_leases : leases d' = leases d
}.

Lemma publish_create_at (a : publishArgs) staged d :
  p_create a = true →
  inodes (publish_effects a staged d) =
    hset (p_parent a) [FMtime (p_mtime a); FCtime (p_mtime a)]
      (hset (p_id a) (p_fields a ++ [FRevision (p_revision a); FContent []]) (inodes d)) ∧
  dirents (publish_effects a staged d) = link (p_parent a) (p_name a) (p_id a) (dirents d) ∧
  contents (publish_effects a staged d) =
    (if bool_decide (p_size a = 0) then delete (p_id a) (contents d)
     else <[p_id a := staged]> (contents d)) ∧
  generation (publish_effects a staged d) = generation d ∧ leases (publish_effects a staged d) = leases d.
Proof.
  intros Hc. unfold publish_effects, xadd. rewrite Hc.
  split_and!; by repeat case_match.
Qed.

(** Touching the times of an inode is not seen by the other reads. *)
Lemma touch_inode (id : string) (a b : Z) (m : gmap string inodeHash) h :
  m !! id = Some h →
  ∃ h', hset id [FMtime a; FCtime b] m !! id = Some h' ∧ h_type h' = h_type h ∧ h_target h' = h_target h ∧
        h_size h' = h_size h ∧ h_content h' = h_content h ∧ h_content_ref h' = h_content_ref h ∧
        h_revision h' = h_revision h.
Proof.
  intros Hh. unfold hset. rewrite lookup_insert_eq, Hh. eexists. split; [done|]. by destruct h.
Qed.

Lemma publish_new ctx p i stage r d hp extra staged :
  inodes d !! ID i = None → inodes d !! Parent i = Some hp → Type_ i = "file" → Target i = "" →
  stored_ref (ContentRef i) → Size i = len (Content i) → Size i ≤ MaxArraySize → chunk_fields extra →
  cell_repr (ContentRef i) (if bool_decide (len (Content i) = 0) then CellNone else staged) (len (Content i)) (Content i) →
  created d (publish_effects (publishArgsOf ctx p i stage r true extra) staged d) i r.
Proof.
  intros Hnone Hp Hti Htg Href Hsz Hmax Hex Hcell. set (a := publishArgsOf ctx p i stage r true extra).
  assert (ContentRef i ≠ "") as Hne by (destruct Href as [->|[-> _]]; done).
  assert (Parent i ≠ ID i) as Hpi by congruence.
  destruct (publish_create_at a staged d eq_refl) as (EI & ED & EC & EG & EL).
  pose proof (fields_inode emptyHash i p r (cx_ranged ctx) extra Hti Hne Hex) as Hf.
  set (d' := publish_effects a staged d) in *.
  assert (inodes d' !! ID i = Some (foldl hset1 emptyHash (p_fields a ++ [FRevision (p_revision a); FContent []]))) as Ehs.
  { rewrite EI. unfold hset at 1. simpl. rewrite lookup_insert_ne by done. unfold hset.
    by rewrite lookup_insert_eq, Hnone. }
  assert (inodes (with_inodes (hset (ID i) (p_fields a ++ [FRevision (p_revision a); FContent []])) d) !! Parent i = Some hp) as Hp1.
  { simpl. unfold hset. by rewrite lookup_insert_ne. }
  destruct (touch_inode _ (p_mtime a) (p_mtime a) _ _ Hp1) as (hp' & Hp' & T1 & T2 & T3 & T4 & T5 & T6).
  assert (inodes d' !! Parent i = Some hp') as Ehp by (rewrite EI; exact Hp').
  assert (∀ id, id ≠ ID i → id ≠ Parent i → inodes d' !! id = inodes d !! id) as Hoth.
  { intros id H1 H2. rewrite EI. unfold hset at 1. simpl. rewrite lookup_insert_ne by done. unfold hset.
    by rewrite lookup_insert_ne. }
  assert (inode_at d' (ID i) = Some (new_inode i r)) as Hi'.
  { unfold inode_at. rewrite Ehs. unfold new_inode. rewrite Htg. exact Hf. }
  constructor; try done.
  - intros dir name. unfold dirent. rewrite ED. change (lk (link (Parent i) (Name i) (ID i) (dirents d)) dir name =
      if decide (dir = Parent i ∧ name = Name i) then Some (ID i) else lk (dirents d) dir name). apply lk_link.
  - intros id. destruct (decide (id = ID i)) as [->|Hd]; [unfold view; by rewrite Hi', Hti|].
    destruct (decide (id = Parent i)) as [->|Hd2]; [|unfold view, inode_at; by rewrite Hoth].
    unfold view, inode_at, inodeFromHash. rewrite Ehp, Hp, T1, T2. by destruct (h_type hp).
  - split_and!; [done|lia| |].
    + unfold size_of. rewrite Ehs. etrans; [exact (inodeFromHash_size _ _ _ Hf)|exact Hsz].
    + unfold contentCell. rewrite EC. change (p_size a) with (Size i). change (p_id a) with (ID i). rewrite Hsz.
      destruct (bool_decide (len (Content i) = 0)); [by rewrite lookup_delete_eq|by rewrite lookup_insert_eq].
  - intros id Hid. split_and!; [| |by intros; apply Hoth].
    + rewrite EC. clear EC Hcell. simpl. case_bool_decide; [by rewrite lookup_delete_ne|by rewrite lookup_insert_ne].
    + unfold size_of. destruct (decide (id = Parent i)) as [->|Hd2]; [by rewrite Ehp, Hp|by rewrite Hoth].
Qed.

Lemma created_next n d d' i r : created (with_next_inode n d) d' i r → created d d' i r.
Proof. intros [? ? ? ? ? ? ?]. by constructor. Qed.

Lemma created_stages f d d' i r : created (with_stages f d) d' i r → created d d' i r.
Proof. intros [? ? ? ? ? ? ?]. by constructor. Qed.

(** What resolved before the creation resolves as before. *)
Lemma created_lookup d d' i r follow p q j :
  view d (ID i) = None → dirent d (Parent i) (Name i) = None → created d d' i r →
  lookup_path d follow p = Ok (q, j) →
  ∃ j', lookup_path d' follow p = Ok (q, j') ∧ ID j' = ID j ∧ ID j ≠ ID i ∧ Type_ j' = Type_ j ∧
        (ID j ≠ Parent i → j' = j).
Proof.
  intros Hv Hd Hcr. unfold lookup_path, resolved_at.
  destruct (presolve _ _ _ _ _) as [[ws id]|] eqn:E; [|done].
  pose proof (presolve_exists _ _ _ _ _ _ _ E) as [v Ev].
  apply (presolve_mono (dirent d) (dirent d') (view d) (view d')) in E.
  2:{ intros dir n x Hx. rewrite (cr_dirent _ _ _ _ Hcr). case_decide as Hc; [|done]. destruct Hc as [-> ->]. congruence. }
  2:{ intros x y Hx. rewrite (cr_view _ _ _ _ Hcr). case_decide; [congruence|done]. }
  rewrite E. destruct (inode_at d id) as [k|] eqn:Ek; [|done]. intros [= <- <-].
  pose proof (inode_at_ID _ _ _ Ek) as Eid. assert (id ≠ ID i) as Hne by congruence.
  pose proof (cr_view _ _ _ _ Hcr id) as Hvw. rewrite decide_False in Hvw by done.
  unfold view in Hvw. rewrite Ek in Hvw. destruct (inode_at d' id) as [k'|] eqn:Ek'; [|done].
  injection Hvw as Ety Etg. exists k'. pose proof (inode_at_ID _ _ _ Ek'). split_and!; [done|congruence|congruence|done|].
  intros Hnp. rewrite Eid in Hnp. destruct (cr_others _ _ _ _ Hcr id Hne) as (_ & _ & Ho).
  unfold inode_at in Ek, Ek'. rewrite (Ho Hnp) in Ek'. congruence.
Qed.

Lemma created_cat d d' i r p b :
  view d (ID i) = None → dirent d (Parent i) (Name i) = None → (∃ t, view d (Parent i) = Some ("dir", t)) →
  created d d' i r → cat_at d p = Ok b → cat_at d' p = Ok b.
Proof.
  intros Hv Hd [t Hpt] Hcr. unfold cat_at. destruct (lookup_path d true p) as [[q j]|] eqn:E; [|done].
  destruct (created_lookup _ _ _ _ _ _ _ _ Hv Hd Hcr E) as (j' & -> & Eid & Hne & Ety & Hsame).
  rewrite Ety. case_bool_decide as Hf; [|done]. cbn [negb].
  assert (ID j ≠ Parent i) as Hnp.
  { intros E2. pose proof (lookup_path_inode _ _ _ _ _ E) as Hj. rewrite E2 in Hj. unfold view in Hpt.
    rewrite Hj in Hpt. simpl in Hpt. congruence. }
  rewrite (Hsame Hnp). destruct (cr_others _ _ _ _ Hcr _ Hne) as (Hc & _ & Hi).
  by rewrite (content_at_other d d' _ _ Hc (Hi Hnp)).
Qed.

Lemma dir_view d id : type_of d id = Some "dir" → ∃ t, view d id = Some ("dir", t).
Proof.
  intros (h & Hh & Ht)%type_of_static. unfold view, inode_at, inodeFromHash. rewrite Hh, Ht. by eexists.
Qed.

(** In a sound tree an inode with an entry is a directory, and the entry is live. *)
Lemma entry_dir d id name child : fs_inv d → dirent d id name = Some child →
  type_of d id = Some "dir" ∧ is_Some (view d child).
Proof.
  intros Hinv Hd. destruct (dirent_node _ _ _ _ Hinv Hd) as (Hne & h & Hh & <- & _).
  destruct Hinv as [Hw _ _]. pose proof (static_lookup _ _ _ Hh) as Hs. split.
  - destruct (wf_parents _ _ Hw _ _ Hs Hne) as (nd & Hnd & Ht).
    apply fmap_lookup_static in Hnd as (hp & Hhp & ->). unfold type_of. simpl in Hhp. by rewrite Hhp.
  - unfold view, inode_at, inodeFromHash. rewrite Hh.
    destruct (wf_types _ _ Hw _ _ Hs) as [E|[E|E]]; simpl in E; rewrite E; by eexists.
Qed.

(** A chain of entries that ends in a directory is walked without a jump. *)
Lemma walk_ids_pwalk d follow dir ws : fs_inv d → type_of d dir = Some "dir" → ∀ cur id,
  walk_ids d id ws = Some dir → pwalk (dirent d) (view d) follow cur id ws = Ok (PFound (cur ++ ws) dir).
Proof.
  intros Hinv Hdir. induction ws as [|c rest IH]; intros cur id Hw; simpl in Hw |- *.
  - injection Hw as ->. by rewrite app_nil_r.
  - destruct (dirent d id c) as [child|] eqn:Ec; [|done].
    assert (type_of d child = Some "dir") as Ht.
    { destruct rest as [|c2 rest]; [simpl in Hw; congruence|]. simpl in Hw.
      destruct (dirent d child c2) eqn:E2; [|done]. by apply (entry_dir _ _ _ _ Hinv E2). }
    destruct (dir_view _ _ Ht) as [t ->]. cbn [andb].
    rewrite (bool_decide_eq_false_2 ("dir" = "symlink")) by done. cbn [andb].
    case_bool_decide as Er; [subst rest; simpl in Hw; congruence|].
    rewrite bool_decide_eq_true_2 by done. rewrite IH by done. by rewrite <- app_assoc.
Qed.

Lemma reads_ensure_loop ctx d dir parts : fs_inv d → type_of d dir = Some "dir" → ∀ cur i,
  inode_at d (ID i) = Some i → walk_ids d (ID i) parts = Some dir →
  reads d (ensure_loop ctx cur i parts) (Ok ()).
Proof.
  intros Hinv Hdir. induction parts as [|c rest IH]; intros cur i Hi Hw; cbn [ensure_loop]; [apply reads_ret|].
  cbn [walk_ids] in Hw. destruct (dirent d (ID i) c) as [child|] eqn:Ec; [|done].
  eapply reads_bind; [apply reads_try, (reads_lookup Hsolo)|]. rewrite Ec. cbn beta iota.
  eapply reads_bind; [apply (reads_read Hsolo)|]. cbn beta iota.
  assert (type_of d child = Some "dir") as Ht.
  { destruct rest as [|c2 rest]; [simpl in Hw; congruence|]. simpl in Hw.
    destruct (dirent d child c2) eqn:E2; [|done]. by apply (entry_dir _ _ _ _ Hinv E2). }
  destruct (dir_view _ _ Ht) as [t Hv]. unfold view in Hv.
  destruct (inode_at d child) as [j|] eqn:Ej; [|done]. injection Hv as Hty _.
  rewrite bool_decide_eq_true_2 by done. pose proof (inode_at_ID _ _ _ Ej) as Eid.
  apply IH; rewrite Eid; done.
Qed.

(** [dir] is the directory that the parent of [p] names without links. *)
Definition parent_dir d (p dir : string) : Prop :=
  walk_ids d "1" (splitComponents (parentOf (normalizePath p))) = Some dir ∧ type_of d dir = Some "dir".

Lemma reads_ensureParents ctx d p dir : unconditional ctx → admitted ctx d → fs_inv d → inode_at d "1" ≠ None →
  parent_dir d p dir → reads d (ensureParents ctx (normalizePath p)) (Ok ()).
Proof.
  intros Huc Ha Hinv Hr [Hw Hd]. unfold ensureParents. rewrite (uc_parents _ Huc), bool_decide_eq_true_2 by done.
  cbn [negb]. eapply reads_bind; [by apply (reads_ensureRoot Hsolo)|]. cbn beta iota zeta.
  case_bool_decide; [apply reads_ret|]. eapply reads_bind; [apply (reads_read Hsolo)|]. cbn beta iota.
  change rootInodeID with "1". destruct (inode_at d "1") as [o|] eqn:Eo; [|done].
  pose proof (inode_at_ID _ _ _ Eo) as Eid. eapply reads_ensure_loop; try done; by rewrite Eid.
Qed.

Lemma path_split p : normalizePath p ≠ "/" →
  ∃ ws name, valid_names (ws ++ [name]) ∧ splitComponents (normalizePath p) = ws ++ [name] ∧
    splitComponents (parentOf (normalizePath p)) = ws ∧ baseName (normalizePath p) = name ∧
    parentOf (normalizePath p) = abs ws.
Proof.
  intros Hne. destruct (normalizePath_abs p) as (us & Hv & E). rewrite E in *.
  destruct us as [|name ws _] using rev_ind; [done|]. exists ws, name.
  pose proof Hv as [Hws _]%valid_names_app.
  rewrite parentOf_snoc, baseName_snoc, !splitComponents_abs by done. done.
Qed.

Lemma parent_lookup d p dir follow : fs_inv d → normalizePath p ≠ "/" → parent_dir d p dir →
  presolve (dirent d) (view d) maxSymlinkDepth follow (splitComponents (parentOf (normalizePath p))) =
    Ok (splitComponents (parentOf (normalizePath p)), dir).
Proof.
  intros Hinv Hne [Hw Hd]. pose proof (walk_ids_pwalk d follow dir _ Hinv Hd [] "1" Hw) as Hp.
  unfold maxSymlinkDepth. cbn [presolve]. rewrite Hp.
  destruct (wf_root _ _ (inv_tree _ Hinv)) as (nd & Hnd & Ht). apply fmap_lookup_static in Hnd as (h & Hh & ->).
  unfold view at 1, inode_at, inodeFromHash. rewrite Hh. simpl in Ht. by rewrite Ht.
Qed.

(** Where the parent is [dir], the path leads to its entry. *)
Lemma entry_lookup d p dir : fs_inv d → normalizePath p ≠ "/" → parent_dir d p dir →
  presolve (dirent d) (view d) maxSymlinkDepth true (splitComponents (normalizePath p)) =
    match pwalk (dirent d) (view d) true (splitComponents (parentOf (normalizePath p))) dir
            [baseName (normalizePath p)] with
    | Ok (PFound us j) => Ok (us, j)
    | Err e => Err e
    | Ok _ => presolve (dirent d) (view d) maxSymlinkDepth true (splitComponents (normalizePath p))
    end.
Proof.
  intros Hinv Hne Hp. destruct (path_split p Hne) as (ws & name & Hv & E1 & E2 & E3 & _).
  pose proof (parent_lookup d p dir true Hinv Hne Hp) as Hl. rewrite E1, E2, E3 in *.
  apply presolve_snoc; [exact Hl|]. by apply dir_view, Hp.
Qed.

Lemma run_allocInodeID ctx w : w_inv w → admitted ctx (w_db w) →
  ∃ w' id n, allocInodeID ctx w = (Ok id, w') ∧ w_db w' = with_next_inode n (w_db w) ∧
    inodes (w_db w) !! id = None ∧ w_tok w' = w_tok w + 0 ∧ w_now w' = w_now w.
Proof.
  intros Hw Ha. destruct (wi_next _ Hw) as (n & Hn & Hids).
  destruct (reads_ensureRoot Hsolo ctx _ Ha (root_present _ Hw) w eq_refl) as [t Et].
  unfold allocInodeID, bindM. rewrite Et, (interfere_solo Hsolo). unfold gets, modify, own, ret. simpl. rewrite Hn.
  eexists _, _, _. split_and!; [done|done| |simpl; lia|done]. simpl.
  destruct (inodes (w_db w) !! FormatInt (n + 1)) eqn:E; [|done]. exfalso.
  destruct (Hids (FormatInt (n + 1))) as (k & Hk & Hle); [by eauto|].
  unfold FormatInt in Hk. apply (inj pretty) in Hk. lia.
Qed.

Lemma new_file_stored id parent name mode now content :
  stored_ref (ContentRef (new_file id parent name mode now content)).
Proof. apply selected_stored; [done|by left]. Qed.

Lemma new_file_fields id parent name mode now content :
  let i := new_file id parent name mode now content in
  ID i = id ∧ Parent i = parent ∧ Name i = name ∧ Revision i = "" ∧ Type_ i = "file" ∧ Target i = "" ∧
  Content i = content ∧ Size i = len content ∧ Mode i = mode ∧ MtimeMs i = now.
Proof. unfold new_file, selectContentRef. simpl. by repeat case_match. Qed.

Lemma parent_resolves d p dir : fs_inv d → normalizePath p ≠ "/" → parent_dir d p dir →
  ∃ q o, lookup_path d true (parentOf (normalizePath p)) = Ok (q, o) ∧ ID o = dir ∧ Type_ o = "dir".
Proof.
  intros Hinv Hne Hpar. destruct (path_split p Hne) as (ws & name & Hv & _ & E2 & _ & Epar).
  pose proof (parent_lookup _ p dir true Hinv Hne Hpar) as Hpl.
  destruct (dir_view _ _ (proj2 Hpar)) as [tg Hview]. unfold view in Hview.
  destruct (inode_at d dir) as [o|] eqn:Eo; [|done]. injection Hview as Hto _.
  exists (abs ws), o. pose proof Hv as [Hws _]%valid_names_app. split_and!; [|by eapply inode_at_ID|done].
  unfold lookup_path. rewrite Epar, normalizePath_canonical by done. rewrite <- Epar, Hpl.
  unfold resolved_at. by rewrite Eo, E2, Epar.
Qed.

(** The publication of a new file commits. *)
Lemma new_file_commits ctx w w3 q id n dir name mode content stage :
  w_inv w → admitted ctx (w_db w) → type_of (w_db w) dir = Some "dir" → dirent (w_db w) dir name = None →
  has_room (w_db w) (len content) → inodes (w_db w) !! id = None → w_tok w3 = w_tok w + 1 →
  let i := new_file id dir name mode (w_now w) content in
  w_db w3 = with_stages (<[stage := staged_content i]>) (with_next_inode n (w_db w)) →
  ∃ d', publishFileScript (publishArgsOf ctx q i stage (tok (w_tok w3)) true []) (w_db w3) = Ok (1, d') ∧
        created (w_db w) d' i (tok (w_tok w + 1)).
Proof.
  intros Hw Ha Hdir Hfree (Hch & Hc1 & Hc2) Hfresh Ht3 i Hd3.
  destruct (new_file_fields id dir name mode (w_now w) content) as (N1 & N2 & N3 & N4 & N5 & N6 & N7 & N8 & N9 & N10).
  pose proof (new_file_stored id dir name mode (w_now w) content) as Hst. fold i in N1, N2, N3, N4, N5, N6, N7, N8, N9, N10, Hst.
  eexists. split.
  - rewrite Hd3. apply publish_ready; simpl; rewrite ?N1, ?N2, ?N3, ?N4, ?N8.
    + by apply admitted_guard.
    + done.
    + rewrite Ht3. by apply (fresh_revision w).
    + exact Hdir.
    + exact Hfree.
    + apply lookup_insert_eq.
    + done.
    + exact Hc1.
    + unfold size_of. simpl. rewrite Hfresh. by rewrite Z.sub_0_r.
  - rewrite Ht3. eapply created_next, created_stages.
    destruct (type_of_static _ _ _ Hdir) as (hp & Hhp & _).
    eapply (publish_new _ _ i _ _ _ hp); [..| |by left|apply staged_full; congruence]; simpl; rewrite ?N1, ?N2; try (done || congruence).
    unfold publication_counter, MaxArraySize, max_int64, ArrayChunkBytes in *. lia.
Qed.

Lemma does_createFileIfMissing ctx p content mode excl w dir :
  unconditional ctx → w_inv w → admitted ctx (w_db w) → normalizePath p ≠ "/" → parent_dir (w_db w) p dir →
  dirent (w_db w) dir (baseName (normalizePath p)) = None → has_room (w_db w) (len content) →
  ∃ d' id, let i := new_file id dir (baseName (normalizePath p)) mode (w_now w) content in
    let r := tok (w_tok w + 1) in
    does (createFileIfMissing ctx p content mode excl) w (with_revision i r, true) d' 2 ∧
    created (w_db w) d' i r ∧ view (w_db w) id = None.
Proof.
  intros Huc Hw Ha Hne Hpar Hfree Hroom.
  pose proof (reads_resolvePath Hsolo ctx (w_db w) (parentOf (normalizePath p)) true Ha (root_present _ Hw)) as Hres.
  destruct (parent_resolves _ p dir (wi_fs _ Hw) Hne Hpar) as (q & o & Hlp & Eid & Hto).
  rewrite Hlp in Hres. destruct (Hres w eq_refl) as [t1 E1].
  destruct (run_allocInodeID ctx (later t1 w) (w_inv_later _ _ Hw) Ha) as (w2 & id & n & Ealloc & Hd2 & Hfresh & Ht2 & Hn2).
  change (inodes (w_db w) !! id = None) in Hfresh.
  destruct (run_stageFullFile (new_file id dir (baseName (normalizePath p)) mode (w_now w) content) w2)
    as (w3 & E3 & Hd3 & Ht3 & Hn3).
  assert (w_tok w3 = w_tok w + 1) as Etok by (simpl in *; lia). rewrite Hd2 in Hd3.
  destruct (new_file_commits ctx w w3 (normalizePath p) id n dir _ mode content _ Hw Ha (proj2 Hpar) Hfree Hroom
              Hfresh Etok Hd3) as (d' & Hs & Hcr).
  exists d', id. cbv zeta. set (i := new_file id dir (baseName (normalizePath p)) mode (w_now w) content) in *.
  split_and!; [|done|unfold view, inode_at; by rewrite Hfresh].
  unfold createFileIfMissing. cbv zeta. rewrite (bool_decide_eq_false_2 (normalizePath p = "/")) by done.
  replace 2 with (0 + (0 + (0 + (0 + (0 + (1 + (1 + (0 + (0 + 0))))))))) by done.
  eapply does_after; [exact E1|simpl; lia|done|]. cbn [snd].
  rewrite Hto, bool_decide_eq_true_2 by done. cbn [negb].
  unfold checkExpectedParent, checkWriteCondition. rewrite (uc_parents _ Huc), (uc_stat _ Huc).
  rewrite bool_decide_eq_true_2 by done. eapply does_after; [reflexivity|lia|done|].
  eapply does_after; [exact Ealloc|simpl in *; lia|simpl in *; done|].
  eapply does_after; [reflexivity|lia|done|]. cbn beta. rewrite Hn2. cbn [w_now later]. rewrite Eid.
  fold (new_file id dir (baseName (normalizePath p)) mode (w_now w) content). fold i.
  eapply does_after; [reflexivity|lia|done|]. eapply does_after; [exact E3|done|done|].
  apply does_stage_discarded. eapply does_bind; [apply does_try, does_publish; [done|exact Hs]|].
  intros w4 H4 _ _. cbn beta iota. rewrite Etok.
  eapply does_bind; [apply does_publishInvalidate|]. intros w5 H5 _ _.
  eapply does_bind; [apply does_publishInvalidate|]. intros w6 H6 _ _. apply does_ret.
  etrans; [exact H4|]. by etrans.
Qed.

Lemma does_writeFile_new ctx p data append w dir :
  unconditional ctx → w_inv w → admitted ctx (w_db w) → normalizePath p ≠ "/" → parent_dir (w_db w) p dir →
  dirent (w_db w) dir (baseName (normalizePath p)) = None → has_room (w_db w) (len data) →
  ∃ d' id, let i := new_file id dir (baseName (normalizePath p)) 420 (w_now w) data in
    does (writeFile ctx p data append) w () d' 2 ∧ created (w_db w) d' i (tok (w_tok w + 1)) ∧
    view (w_db w) id = None.
Proof.
  intros Huc Hw Ha Hne Hpar Hfree Hroom.
  pose proof (reads_resolvePath Hsolo ctx (w_db w) (normalizePath p) true Ha (root_present _ Hw)) as Hres.
  assert (lookup_path (w_db w) true (normalizePath p) = Err RedisNil) as Hl.
  { unfold lookup_path. rewrite normalizePath_idem, (entry_lookup _ p dir (wi_fs _ Hw) Hne Hpar).
    cbn [pwalk]. by rewrite Hfree. }
  rewrite Hl in Hres. destruct (reads_try _ _ _ Hres w eq_refl) as [t1 E1].
  destruct (reads_ensureParents ctx (w_db w) p dir Huc Ha (wi_fs _ Hw) (root_present _ Hw) Hpar (later t1 w) eq_refl)
    as [t2 E2].
  destruct (does_createFileIfMissing ctx (normalizePath p) data 420 false (later t2 (later t1 w)) dir)
    as (d' & id & Hdo & Hcr & Hv); rewrite ?normalizePath_idem; try done.
  { by apply w_inv_later, w_inv_later. }
  { unfold parent_dir. by rewrite normalizePath_idem. }
  rewrite normalizePath_idem in Hdo, Hcr. exists d', id. cbv zeta. split_and!; [|done|done].
  unfold writeFile. cbv zeta. rewrite (bool_decide_eq_false_2 (normalizePath p = "/")) by done.
  replace 2 with (0 + (0 + (2 + (0 + 0)))) by done.
  eapply does_after; [exact E1|simpl; lia|done|]. cbn beta iota.
  eapply does_after; [exact E2|simpl; lia|done|]. unfold createFile.
  eapply does_bind; [exact Hdo|]. intros w3 H3 _ _. cbn [fst snd negb andb].
  eapply does_bind; [by apply does_ret|]. intros w4 H4 _ _.
  eapply does_agrees; [exact H4|]. apply does_markRootDirty. rewrite <- H4.
  unfold admitted. by rewrite (cr_gen _ _ _ _ Hcr), (cr_leases _ _ _ _ Hcr).
Qed.

(** The new file is found at its path. *)
Lemma created_here d d' p dir i r : fs_inv d → normalizePath p ≠ "/" → parent_dir d p dir →
  view d (ID i) = None → dirent d dir (baseName (normalizePath p)) = None →
  Parent i = dir → Name i = baseName (normalizePath p) → Type_ i = "file" → created d d' i r →
  ∃ q, lookup_path d' true p = Ok (q, new_inode i r).
Proof.
  intros Hinv Hne Hpar Hv Hfree Ep En Hty Hcr.
  destruct (path_split p Hne) as (ws & name & Hvn & E1 & E2 & E3 & _).
  pose proof (parent_lookup d p dir true Hinv Hne Hpar) as Hl. rewrite E2 in Hl.
  destruct (dir_view _ _ (proj2 Hpar)) as [tg Hdv].
  apply (presolve_mono (dirent d) (dirent d') (view d) (view d')) in Hl.
  2:{ intros x n y Hx. rewrite (cr_dirent _ _ _ _ Hcr). case_decide as Hc; [|done]. destruct Hc as [-> ->].
      rewrite Ep, En in Hx. congruence. }
  2:{ intros x y Hx. rewrite (cr_view _ _ _ _ Hcr). case_decide; [congruence|done]. }
  assert (∃ t, view d' dir = Some ("dir", t)) as Hdv'.
  { exists tg. rewrite (cr_view _ _ _ _ Hcr). case_decide; [congruence|done]. }
  exists (abs (ws ++ [name])). unfold lookup_path. rewrite E1.
  rewrite (presolve_snoc _ _ true name _ _ _ _ Hl Hdv'). cbn [pwalk].
  rewrite (cr_dirent _ _ _ _ Hcr), decide_True by (rewrite En; done).
  rewrite (cr_view _ _ _ _ Hcr), decide_True, Hty by done.
  rewrite (bool_decide_eq_false_2 ("file" = "symlink")) by done. cbn [andb].
  rewrite (bool_decide_eq_true_2 ([] = [])) by done. cbn [resolved_at].
  by rewrite (cr_inode _ _ _ _ Hcr).
Qed.

End Run.

(** * Properties: what is written is read *)

(** What is read in a world: the operations that only read answer what their
    functions of the state say. *)
Definition reads_as {arr} {RA : RedisArray arr} {P : Params arr} ctx (w : world arr) (d : db arr) : Prop :=
  (∀ p follow, (resolvePath ctx p follow w).1 = lookup_path d follow p) ∧
  (∀ p, (Cat ctx p w).1 = cat_at d p) ∧
  (∀ p, (Stat ctx p w).1 = match lookup_path d false p with
                           | Ok (_, i) => Ok (Some (toStat i))
                           | Err RedisNil => Ok None
                           | Err e => Err e
                           end).

Lemma reads_world {arr} {RA : RedisArray arr} {P : Params arr} ctx (w : world arr) d :
  solo → admitted ctx d → inode_at d "1" ≠ None → agrees d (w_db w) → reads_as ctx w d.
Proof.
  intros Hsolo Ha Hr Hag. assert (admitted ctx (w_db w)) as Ha' by by rewrite <- Hag.
  assert (inode_at (w_db w) "1" ≠ None) as Hr' by by rewrite <- Hag.
  assert (∀ p f, (resolvePath ctx p f w).1 = lookup_path d f p) as Hres.
  { intros p f. rewrite (run_reads _ _ _ _ (reads_resolvePath Hsolo ctx _ p f Ha' Hr') eq_refl). by rewrite <- Hag. }
  split_and!; [done| |].
  - intros p. rewrite (run_reads _ _ _ _ (reads_Cat Hsolo ctx _ p Ha' Hr') eq_refl). by rewrite <- Hag.
  - intros p. rewrite <- Hres. unfold Stat, bindM, try.
    destruct (resolvePath ctx p false w) as [[[q i]|e] w']; [done|]. by destruct e.
Qed.

Lemma reads_here {arr} {RA : RedisArray arr} {P : Params arr} {FT : FreshTokens P} ctx (w : world arr) :
  solo → w_inv w → admitted ctx (w_db w) → reads_as ctx w (w_db w).
Proof. intros Hs Hw Ha. apply reads_world; try done. by apply root_present. Qed.

(** After a run that [does] something. *)
Lemma reads_after {arr} {RA : RedisArray arr} {P : Params arr} {A} (m : M arr A) ctx w a d' k :
  solo → does m w a d' k → admitted ctx d' → inode_at d' "1" ≠ None →
  (m w).1 = Ok a ∧ reads_as ctx (m w).2 d'.
Proof. intros Hs (w' & E & Hd & _) Ha Hr. rewrite E. split; [done|by apply reads_world]. Qed.

Lemma overwritten_admitted {arr} {RA : RedisArray arr} {P : Params arr} ctx (d d' : db arr) i r :
  overwritten d d' i r → admitted ctx d → inode_at d "1" ≠ None → admitted ctx d' ∧ inode_at d' "1" ≠ None.
Proof.
  intros Hov Ha Hr. split; [unfold admitted; by rewrite (ov_gen _ _ _ _ Hov), (ov_leases _ _ _ _ Hov)|].
  pose proof (ov_view _ _ _ _ Hov "1") as Hv. unfold view in Hv.
  by destruct (inode_at d "1"), (inode_at d' "1").
Qed.

Lemma created_admitted {arr} {RA : RedisArray arr} {P : Params arr} ctx (d d' : db arr) i r :
  created d d' i r → admitted ctx d → inode_at d "1" ≠ None → admitted ctx d' ∧ inode_at d' "1" ≠ None.
Proof.
  intros Hcr Ha Hr. split; [unfold admitted; by rewrite (cr_gen _ _ _ _ Hcr), (cr_leases _ _ _ _ Hcr)|].
  pose proof (cr_view _ _ _ _ Hcr "1") as Hv. unfold view in Hv.
  destruct (inode_at d "1"), (inode_at d' "1"); try done. by case_decide.
Qed.

(** C21: writing over or appending to a file.  When the path resolves, possibly
    through links, to a file this client can store and the counters have room,
    the write succeeds; afterwards [Cat] returns exactly the old content (for an
    append) followed by the new data, the path resolves to the same inode with
    the new size, a new revision and the old permissions, every other file's
    content is what it was and every path that failed still fails alike. *)
Theorem write_file_then_cat {arr} {RA : RedisArray arr} {P : Params arr} {FT : FreshTokens P} ctx p data
    (append : bool) (w : world arr) q i old :
  solo → unconditional ctx → w_inv w → admitted ctx (w_db w) →
  (resolvePath ctx p true w).1 = Ok (q, i) → Type_ i = "file" → ContentRef i = "" ∨ stored_ref (ContentRef i) →
  (if append then (Cat ctx p w).1 = Ok old else old = []) →
  has_room (w_db w) (len (old ++ data) - Size i) →
  let r := writeFile ctx p data append w in
  r.1 = Ok () ∧
  (Cat ctx p r.2).1 = Ok (old ++ data) ∧
  (∃ i', (resolvePath ctx p true r.2).1 = Ok (q, i') ∧ ID i' = ID i ∧ Size i' = len (old ++ data) ∧
         MtimeMs i' = w_now w ∧ Mode i' = u32 (Mode i) ∧ Revision i' ≠ Revision i) ∧
  (∀ p', match (resolvePath ctx p' true w).1 with
         | Ok (_, j) => ID j ≠ ID i → (Cat ctx p' r.2).1 = (Cat ctx p' w).1
         | Err e => (Cat ctx p' r.2).1 = Err e
         end).
Proof.
  intros Hsolo Huc Hw Ha Hres Hty Href Hold Hroom r.
  destruct (reads_here ctx w Hsolo Hw Ha) as (Hrd & Hcd & _).
  rewrite Hrd in Hres. assert (if append then content_at (w_db w) (ID i) (ContentRef i) = Ok old else old = []) as Hold'.
  { destruct append; [|done]. rewrite Hcd in Hold. unfold cat_at in Hold. rewrite Hres in Hold.
    by rewrite bool_decide_eq_true_2 in Hold. }
  destruct (does_writeFile Hsolo ctx p data append w q i old Huc Hw Ha Hres Hty Href Hold' Hroom)
    as (d' & i' & Hdo & Hov & Eid & EC & ES & EM & Et).
  destruct (overwritten_admitted ctx _ _ _ _ Hov Ha (root_present _ Hw)) as [Ha' Hr'].
  destruct (reads_after _ ctx w () d' 2 Hsolo Hdo Ha' Hr') as (H1 & Hrd' & Hcd' & _). fold r in H1, Hrd', Hcd'.
  split_and!; [done| | |].
  - rewrite Hcd', (overwritten_cat _ _ _ _ _ Hov), Hres, decide_True by done. by rewrite EC.
  - exists (new_inode i' (tok (w_tok w + 1))). rewrite Hrd', (overwritten_lookup _ _ _ _ _ _ Hov), Hres, decide_True by done.
    split_and!; try done; simpl; try congruence.
    rewrite <- (inode_at_revision _ _ _ (lookup_path_inode _ _ _ _ _ Hres)). by apply not_eq_sym, fresh_revision.
  - intros p'. rewrite Hrd, Hcd', Hcd, (overwritten_cat _ _ _ _ _ Hov).
    destruct (lookup_path (w_db w) true p') as [[q' j]|e]; [|done]. intros Hj. by rewrite decide_False by congruence.
Qed.

(** Writing to a path that does not exist yet creates the file.  When the
    parent is a directory named without links, the entry is free and the
    counters have room, the write succeeds; afterwards the path resolves to a
    new inode of the right type, size and mode, [Cat] returns the data, and
    every file that could be read is still read with the same content. *)
Theorem create_file_then_cat {arr} {RA : RedisArray arr} {P : Params arr} {FT : FreshTokens P} ctx p data
    (append : bool) (w : world arr) dir :
  solo → unconditional ctx → w_inv w → admitted ctx (w_db w) →
  normalizePath p ≠ "/" → parent_dir (w_db w) p dir →
  dirent (w_db w) dir (baseName (normalizePath p)) = None → has_room (w_db w) (len data) →
  let r := writeFile ctx p data append w in
  r.1 = Ok () ∧
  (Cat ctx p r.2).1 = Ok data ∧
  (∃ q i, (resolvePath ctx p true r.2).1 = Ok (q, i) ∧ inodes (w_db w) !! ID i = None ∧ Type_ i = "file" ∧
          Parent i = dir ∧ Name i = baseName (normalizePath p) ∧ Size i = len data ∧ Mode i = 420) ∧
  (∀ p' b, (Cat ctx p' w).1 = Ok b → (Cat ctx p' r.2).1 = Ok b).
Proof.
  intros Hsolo Huc Hw Ha Hne Hpar Hfree Hroom r. destruct (reads_here ctx w Hsolo Hw Ha) as (_ & Hcd & _).
  destruct (does_writeFile_new Hsolo ctx p data append w dir Huc Hw Ha Hne Hpar Hfree Hroom)
    as (d' & id & Hdo & Hcr & Hv). cbv zeta in Hdo, Hcr, Hv.
  destruct (new_file_fields id dir (baseName (normalizePath p)) 420 (w_now w) data)
    as (N1 & N2 & N3 & _ & N5 & _ & N7 & N8 & N9 & _).
  set (i := new_file id dir (baseName (normalizePath p)) 420 (w_now w) data) in *. clearbody i.
  destruct (created_admitted ctx _ _ _ _ Hcr Ha (root_present _ Hw)) as [Ha' Hr'].
  destruct (reads_after _ ctx w () d' 2 Hsolo Hdo Ha' Hr') as (H1 & Hrd' & Hcd' & _). fold r in H1, Hrd', Hcd'.
  assert (view (w_db w) (ID i) = None) as Hvi by by rewrite N1.
  destruct (created_here (w_db w) d' p dir i _ (wi_fs _ Hw) Hne Hpar Hvi Hfree N2 N3 N5 Hcr) as [q Hq].
  split_and!; [done| | |].
  - rewrite Hcd'. unfold cat_at. rewrite Hq. cbn. rewrite <- N7. apply stored_content, Hcr.
  - exists q, (new_inode i (tok (w_tok w + 1))). rewrite Hrd', Hq. simpl. rewrite N1, N2, N3, N8, N9.
    split_and!; try done. unfold view, inode_at in Hv.
    destruct (inodes (w_db w) !! id) as [h|] eqn:E; [|done]. exfalso.
    pose proof (wf_types _ _ (inv_tree _ (wi_fs _ Hw)) _ _ (static_lookup _ _ _ E)) as Ht. unfold inodeFromHash in Hv.
    destruct Ht as [Ht|[Ht|Ht]]; simpl in Ht; by rewrite Ht in Hv.
  - intros p' b Hb. rewrite Hcd in Hb. rewrite Hcd'. eapply created_cat; try done; [by rewrite N2, N3|]. rewrite N2. by apply dir_view, Hpar.
Qed.
