(* ===== verification/FsChunkSeq.v ===== *)
(** What a chunked write of a client alone does: the flat content the chunks
    stand for ([patched]), the stage that receives them, and the publication,
    after which the file reads as the patched content and its chunk manifest is
    the one that was given. *)
From Stdlib Require Import Strings.Byte.
From S2P Require Import Prelude Content Paths FsState FsTree FsScripts FsClient FsInv FsOps FsRange FsChunks FsSpec FsSeq.
#[local] Open Scope string_scope.
#[local] Open Scope list_scope.
#[local] Open Scope Z_scope.

(** * The content chunks stand for *)

(** The chunks of [l] written at their offsets, in the order of [l]. *)
Definition patched (chunks : gmap Z bytes) (cs : Z) (l : list Z) (data : bytes) : bytes :=
  foldl (λ b idx, pwrite b (idx * cs) (default [] (chunks !! idx))) data l.

(** Byte [j] of the file after the write: of its chunk when there is one that
    reaches it, else the old one. *)
Definition chunkByte (chunks : gmap Z bytes) (cs : Z) (data : bytes) (j : Z) : byte :=
  match chunks !! (j / cs) with
  | Some c => if j mod cs <? len c then get c (j mod cs) else get data j
  | None => get data j
  end.

(** The chunks a caller may give for a file of [size] bytes that shall have
    [newSize]: whole or final pieces inside the new file, the end among them when
    the file grows. *)
Record chunks_fit (chunks : gmap Z bytes) (cs size newSize : Z) : Prop := {
  cf_cs : 0 ≤ cs;
  cf_size : 0 ≤ newSize ≤ max_int64;
  cf_none : cs = 0 → chunks = ∅;
  cf_chunk idx c : chunks !! idx = Some c → 0 ≤ idx ∧ 0 < len c ≤ cs ∧ idx * cs + len c ≤ newSize;
  cf_grow : size < newSize → ∃ idx c, chunks !! idx = Some c ∧ idx * cs + len c = newSize
}.

Lemma elem_chunkIndices chunks idx : idx ∈ chunkIndices chunks ↔ is_Some (chunks !! idx).
Proof.
  unfold chunkIndices. rewrite insertion_sort_perm, list_elem_of_fmap. split.
  - intros ([k c] & -> & H%elem_of_map_to_list). by eexists.
  - intros [c H]. exists (idx, c). split; [done|by apply elem_of_map_to_list].
Qed.

Section Patch.
Context (chunks : gmap Z bytes) (cs size newSize : Z) (Hfit : chunks_fit chunks cs size newSize).

Definition listed (l : list Z) : Prop := ∀ idx, idx ∈ l → is_Some (chunks !! idx).

Lemma listed_cons idx l : listed (idx :: l) → (∃ c, chunks !! idx = Some c) ∧ listed l.
Proof.
  intros H. split; [apply (H idx); by left|]. intros x Hx. apply H. by right.
Qed.

Lemma patch_len l : listed l → ∀ data,
  len data ≤ len (patched chunks cs l data) ≤ Z.max (len data) newSize ∧
  ∀ idx c, idx ∈ l → chunks !! idx = Some c → idx * cs + len c ≤ len (patched chunks cs l data).
Proof.
  unfold patched. induction l as [|idx l IH]; intros Hl data; simpl.
  - split; [lia|]. by intros idx c H%elem_of_nil.
  - apply listed_cons in Hl as [[c Hc] Hl]. rewrite Hc. simpl.
    destruct (cf_chunk _ _ _ _ Hfit _ _ Hc) as (Hi & Hlc & He). pose proof (cf_cs _ _ _ _ Hfit).
    assert (0 ≤ idx * cs) as Hoff by nia.
    destruct (IH Hl (pwrite data (idx * cs) c)) as [Hb Hc2]. rewrite len_pwrite in Hb by done.
    split; [lia|]. intros k c' [->|Hk]%elem_of_cons Hc'; [|by apply Hc2]. simplify_eq. lia.
Qed.

Lemma patch_get l : listed l → ∀ data j, 0 ≤ j →
  get (patched chunks cs l data) j = if decide (j / cs ∈ l) then chunkByte chunks cs data j else get data j.
Proof.
  unfold patched. induction l as [|idx l IH]; intros Hl data j Hj; simpl; [done|].
  apply listed_cons in Hl as [[c Hc] Hl]. rewrite IH by done. rewrite Hc. simpl.
  destruct (cf_chunk _ _ _ _ Hfit _ _ Hc) as (Hi & Hlc & He).
  assert (0 < cs) as Hcs by lia. assert (0 ≤ idx * cs) as Hoff by nia.
  pose proof (Z.div_mod j cs ltac:(lia)) as Hdm. pose proof (Z.mod_pos_bound j cs Hcs) as Hm.
  assert (idx * cs ≤ j < idx * cs + len c ↔ j / cs = idx ∧ j mod cs < len c) as Hin.
  { split; [|intros [<- ?]; lia]. intros Hj2. assert (j / cs = idx) by nia. split; [done|]. subst idx. lia. }
  destruct (decide (j / cs = idx)) as [E|E].
  - subst idx. rewrite (decide_True (P := j / cs ∈ j / cs :: l)) by (by left).
    unfold chunkByte. rewrite Hc, get_pwrite by done. destruct (j mod cs <? len c) eqn:El.
    + rewrite (decide_True (P := _ ≤ _ < _)) by (apply Hin; lia). replace (j - j / cs * cs) with (j mod cs) by lia.
      by destruct (decide _).
    + rewrite (decide_False (P := _ ≤ _ < _)) by (rewrite Hin; lia). by destruct (decide _).
  - assert (get (pwrite data (idx * cs) c) j = get data j) as Eg.
    { rewrite get_pwrite by done. rewrite decide_False; [done|]. rewrite Hin. tauto. }
    assert (chunkByte chunks cs (pwrite data (idx * cs) c) j = chunkByte chunks cs data j) as ->.
    { unfold chunkByte. by rewrite Eg. }
    rewrite Eg. destruct (decide (j / cs ∈ l)); [rewrite decide_True by (by right)|rewrite decide_False]; try done.
    intros [?|?]%elem_of_cons; done.
Qed.
End Patch.

(** The whole write on the flat content. *)
Definition chunked (chunks : gmap Z bytes) (cs newSize : Z) (data : bytes) : bytes :=
  ftruncate (patched chunks cs (chunkIndices chunks) data) newSize.

Lemma listed_all chunks : listed chunks (chunkIndices chunks).
Proof. intros idx. by rewrite elem_chunkIndices. Qed.

Lemma chunked_spec chunks cs newSize data : chunks_fit chunks cs (len data) newSize →
  len (chunked chunks cs newSize data) = newSize ∧
  ∀ j, 0 ≤ j < newSize → get (chunked chunks cs newSize data) j = chunkByte chunks cs data j.
Proof.
  intros Hf. pose proof (cf_size _ _ _ _ Hf). unfold chunked. split; [apply len_ftruncate; lia|]. intros j Hj.
  rewrite get_ftruncate, decide_True by lia. rewrite (patch_get _ _ _ _ Hf _ (listed_all chunks)) by lia.
  case_decide as E; [done|]. rewrite elem_chunkIndices in E. unfold chunkByte. destruct (chunks !! _); [|done].
  destruct E. by eexists.
Qed.

(** Without a cut the patched content is the file. *)
Lemma patch_whole chunks cs size newSize data : chunks_fit chunks cs size newSize → size = len data → size ≤ newSize →
  len (patched chunks cs (chunkIndices chunks) data) = newSize.
Proof.
  intros Hf -> Hle. destruct (patch_len _ _ _ _ Hf _ (listed_all chunks) data) as [Hb Hc].
  destruct (decide (len data < newSize)) as [Hlt|]; [|lia].
  destruct (cf_grow _ _ _ _ Hf Hlt) as (idx & c & Hl & He).
  specialize (Hc idx c ltac:(rewrite elem_chunkIndices; by eexists) Hl). lia.
Qed.

Lemma patch_cut chunks cs size newSize data : chunks_fit chunks cs size newSize → size = len data → newSize ≤ size →
  len (patched chunks cs (chunkIndices chunks) data) = size.
Proof. intros Hf -> Hle. destruct (patch_len _ _ _ _ Hf _ (listed_all chunks) data) as [Hb _]. lia. Qed.

(** * The stage of a chunked write *)

Section Stage.
Context {arr : Type} {RA : RedisArray arr} {P : Params arr}.
Hypothesis Hsolo : @solo arr P.
Implicit Types (w : world arr) (d : db arr).

Lemma put_none stage d : stages d !! stage = None → put stage CellNone d = d.
Proof. intros H. unfold put, with_stages. rewrite delete_id by done. by destruct d. Qed.

(** An empty element at index 0 changes nothing of an empty array. *)
Lemma ARSET_seed_repr a : repr a 0 [] → repr (ARSET 0 [[]] a) 0 [].
Proof.
  intros (Hwf & _ & Hg). split_and!; [|done|].
  - intros j c. rewrite ar_get_set. simpl. case_decide; [|apply Hwf].
    replace (Z.to_nat (j - 0)) with 0%nat by lia. by intros [= <-].
  - intros j Hj. specialize (Hg j Hj). unfold byte_at in *. rewrite ar_get_set. simpl.
    case_decide; [|done]. replace (Z.to_nat (j / ArrayChunkBytes - 0)) with 0%nat by lia. simpl.
    assert (∀ x, get [] x = x00) as Hnil by (intros x; unfold get; by destruct (Z.to_nat x)). by rewrite !Hnil.
Qed.

Lemma full_not_none ref data : 0 < len data → (QueueWriteFull ref data : cell arr) ≠ CellNone.
Proof. intros H. unfold QueueWriteFull. case_bool_decide; [|done]. by destruct data. Qed.

(** The seeded stage holds the file's data in the representation to publish. *)
Lemma exec_seedChunks d i data stage : Size i ≤ MaxArraySize → holds_data d i data → Type_ i = "file" → stages d !! stage = None →
  ∃ c, exec (seedChunks false stage i (selectContentRef i)) d () (put stage c d) ∧
       cell_repr (ContentRef (selectContentRef i)) c (Size i) data ∧ (0 < Size i → c ≠ CellNone).
Proof.
  intros Hmax Hd Hty Hst. pose proof (selected_ref d i data Hd Hty) as Href. pose proof Hd as (Hsz & Hso & Hc).
  unfold seedChunks. set (i' := selectContentRef i) in *.
  assert (∃ c, exec (if negb false && isExternalContentRef (ContentRef i) && bool_decide (ContentRef i = ContentRef i') then
         bindM (read (λ d, contentCell d (ID i))) (λ c,
         match c with
         | CellNone => ret ()
         | _ => modify (with_stages (<[stage := c]>))
         end)
       else
         bindM (loadContentExternal (ID i) (ContentRef i)) (λ content,
         setStage stage (QueueWriteFull (ContentRef i') content))) d () (put stage c d) ∧
       cell_repr (ContentRef i') c (Size i) data ∧ (0 < Size i → c ≠ CellNone)) as (c & Hex & Hrep & Hne).
  { destruct (negb false && isExternalContentRef (ContentRef i) && bool_decide (ContentRef i = ContentRef i')) eqn:E.
    - bools. rewrite bool_decide_eq_false_2 in Hc by (intros E0; rewrite E0 in *; done).
      destruct Hc as (_ & Hrep & Hne). exists (contentCell d (ID i)). split_and!; [|congruence|done].
      eapply exec_bind; [by apply exec_read|]. unfold put.
      destruct (contentCell d (ID i)) eqn:Ec; [|apply exec_modify..].
      change (exec (ret ()) d () (put stage CellNone d)). rewrite put_none by done. apply exec_ret.
    - eexists. split_and!; [eapply exec_bind; [by apply exec_loadContentExternal|by apply exec_setStage]| |].
      + rewrite Hsz. apply QueueWriteFull_repr.
      + rewrite Hsz. apply full_not_none. }
  destruct (bool_decide (ContentRef i' = RefArray) && (Size i =? 0)) eqn:Ez.
  - bools. replace (Size i) with 0 in * by lia. rewrite H in Hrep.
    assert (data = []) as -> by (destruct data; [done|unfold len in Hsz; simpl in Hsz; lia]).
    destruct c as [|v|a]; cbn in Hrep; [|done|].
    + exists (CellArr (ARSET 0 [[]] ar_empty)). split_and!; [|rewrite H; by apply ARSET_seed_repr|done].
      eapply exec_bind; [exact Hex|]. by apply exec_editStage.
    + exists (CellArr (ARSET 0 [[]] a)). split_and!; [|rewrite H; by apply ARSET_seed_repr|done].
      eapply exec_bind; [exact Hex|]. by apply exec_editStage.
  - exists c. split_and!; [|done|done]. eapply exec_bind; [exact Hex|apply exec_ret].
Qed.

Lemma WriteRange_some (c : cell arr) off payload c' : 0 < len payload → WriteRange true c off payload = Ok c' → c' ≠ CellNone.
Proof. unfold WriteRange. intros Hp. destruct payload; [done|]. destruct (off <? 0); [done|]. destruct c; by intros [= <-]. Qed.

Lemma exec_writeArrayChunks d stage chunks cs size newSize l : arrays = true → newSize ≤ MaxArraySize → chunks_fit chunks cs size newSize →
  listed chunks l → ∀ c data, cell_repr RefArray c (len data) data →
  ∃ c', exec (writeArrayChunks stage chunks cs l) (put stage c d) () (put stage c' d) ∧
        cell_repr RefArray c' (len (patched chunks cs l data)) (patched chunks cs l data) ∧
        (c' = CellNone → c = CellNone ∧ l = []).
Proof.
  intros Ha Hmax Hf. unfold patched. induction l as [|idx l IH]; intros Hl c data Hrep; simpl.
  - exists c. split_and!; [apply exec_ret|done|done].
  - apply listed_cons in Hl as [[x Hx] Hl]. rewrite Hx. simpl.
    destruct (cf_chunk _ _ _ _ Hf _ _ Hx) as (Hi & Hlx & He). pose proof (cf_size _ _ _ _ Hf) as Hn.
    assert (0 ≤ idx * cs) as Hoff by nia.
    destruct (WriteRange_repr c (len data) data (idx * cs) x Hrep Hoff) as (c1 & Hw & Hr1); [lia..|].
    rewrite <- len_pwrite in Hr1 by done.
    destruct (IH Hl c1 _ Hr1) as (c' & Hex & Hr & Hne). exists c'. split_and!; [|done|].
    + replace (idx <? 0) with false by lia. eapply exec_bind; [|exact Hex]. rewrite Ha, i64_small by lia. by apply exec_editStage.
    + intros E. destruct (Hne E) as [E1 _]. by destruct (WriteRange_some _ _ _ _ (proj1 Hlx) Hw).
Qed.

Lemma exec_writeStringChunks d stage chunks cs size newSize l : chunks_fit chunks cs size newSize →
  listed chunks l → ∀ c data, cell_repr RefExternal c (len data) data →
  ∃ c', exec (writeStringChunks stage chunks cs l) (put stage c d) () (put stage c' d) ∧
        cell_repr RefExternal c' (len (patched chunks cs l data)) (patched chunks cs l data) ∧
        (c' = CellNone → c = CellNone ∧ l = []).
Proof.
  intros Hf. unfold patched. induction l as [|idx l IH]; intros Hl c data Hrep; simpl.
  - exists c. split_and!; [apply exec_ret|done|done].
  - apply listed_cons in Hl as [[x Hx] Hl]. rewrite Hx. simpl.
    destruct (cf_chunk _ _ _ _ Hf _ _ Hx) as (Hi & Hlx & He). pose proof (cf_size _ _ _ _ Hf) as Hn.
    assert (0 ≤ idx * cs) as Hoff by nia.
    assert (setChunk (idx * cs) x c = Ok (CellStr (pwrite data (idx * cs) x))) as Hs.
    { unfold setChunk. replace (idx * cs <? 0) with false by lia. cbn in Hrep. destruct x; [unfold len in Hlx; simpl in Hlx; lia|]. by destruct Hrep as [_ [->|[-> ->]]]. }
    destruct (IH Hl (CellStr (pwrite data (idx * cs) x)) (pwrite data (idx * cs) x)) as (c' & Hex & Hr & Hne); [by split; [|left]|].
    exists c'. split_and!; [|done|intros E; by destruct (Hne E)].
    eapply exec_bind; [|exact Hex]. rewrite i64_small by lia. by apply exec_editStage.
Qed.
(** The cut that ends the staging when the file shrinks. *)
Definition cutChunks (stage : string) (size newSize : Z) (ref : string) : M arr () :=
  if newSize <? size then
    if bool_decide (ref = RefArray) then editStage stage (λ c, Content.Truncate arrays c size newSize)
    else editStage stage (shrinkStringStage newSize)
  else ret ().

Lemma exec_cutChunks d stage ref chunks cs size newSize c data :
  (ref = RefArray ∧ arrays = true ∨ ref = RefExternal) → size ≤ MaxArraySize → chunks_fit chunks cs size newSize → size = len data →
  let b := patched chunks cs (chunkIndices chunks) data in
  cell_repr ref c (len b) b → (newSize ≠ 0 → c ≠ CellNone) →
  ∃ c', exec (cutChunks stage size newSize ref) (put stage c d) () (put stage c' d) ∧
        (newSize ≠ 0 → c' ≠ CellNone ∧ cell_repr ref c' newSize (chunked chunks cs newSize data)).
Proof.
  intros Href Hmax Hf Hsz b Hrep Hne. pose proof (cf_size _ _ _ _ Hf) as Hnn. unfold chunked, cutChunks. fold b.
  destruct (newSize <? size) eqn:E.
  - pose proof (patch_cut _ _ _ _ data Hf Hsz ltac:(lia)) as Hb. fold b in Hb.
    destruct Href as [[-> Ha]| ->].
    + rewrite bool_decide_eq_true_2 by done. rewrite Hb in Hrep.
      destruct (Truncate_repr c size b newSize Hmax Hrep ltac:(lia)) as (c' & Ht & Hr). exists c'. split.
      * apply exec_editStage; [done|]. by rewrite Ha.
      * intros Hn. split; [|done]. specialize (Hne Hn).
        unfold Content.Truncate in Ht. replace (newSize <? 0) with false in Ht by lia.
        replace (newSize =? size) with false in Ht by lia. replace (newSize =? 0) with false in Ht by lia.
        destruct c; [done|by replace (size <? newSize) with false in Ht by lia|by injection Ht as <-].
    + rewrite bool_decide_eq_false_2 by done.
      exists (CellStr (if 0 <? newSize then GETRANGE b 0 (newSize - 1) else [])). split.
      * apply exec_editStage; [done|]. unfold shrinkStringStage. destruct (0 <? newSize) eqn:E0; [|done].
        by destruct (cell_repr_ext _ _ _ Hrep ltac:(apply Hne; lia)) as [-> _].
      * intros Hn. replace (0 <? newSize) with true by lia. rewrite shrink_ftruncate by lia. split; [done|].
        split; [by rewrite len_ftruncate by lia|by left].
  - pose proof (patch_whole _ _ _ _ data Hf Hsz ltac:(lia)) as Hb. fold b in Hb.
    exists c. split; [apply exec_ret|]. intros Hn. split; [by apply Hne|]. rewrite <- Hb at 2. rewrite ftruncate_same. by rewrite <- Hb.
Qed.

(** The loop over the chunks, in either representation. *)
Lemma exec_writeChunks d stage ref chunks cs size newSize c data :
  (ref = RefArray ∧ arrays = true ∨ ref = RefExternal) → newSize ≤ MaxArraySize → chunks_fit chunks cs size newSize → size = len data →
  cell_repr ref c size data → (0 < size → c ≠ CellNone) →
  let l := chunkIndices chunks in let b := patched chunks cs l data in
  ∃ c1, exec (if bool_decide (ref = RefArray) then writeArrayChunks stage chunks cs l
              else bindM (if existsb (λ idx, idx <? 0) l then fail ErrInvalidChunks else ret ())
                         (λ _, writeStringChunks stage chunks cs l)) (put stage c d) () (put stage c1 d) ∧
        cell_repr ref c1 (len b) b ∧ (newSize ≠ 0 → c1 ≠ CellNone).
Proof.
  intros Href Hmax Hf -> Hrep Hne l b. assert (listed chunks l) as Hl by apply listed_all.
  assert (existsb (λ idx, idx <? 0) l = false) as Hneg.
  { apply not_true_is_false. rewrite existsb_exists. intros (idx & Hin & Hlt). apply list_elem_of_In in Hin.
    destruct (Hl _ Hin) as [x Hx]. pose proof (cf_chunk _ _ _ _ Hf _ _ Hx). lia. }
  assert (∀ c1 : cell arr, (c1 = CellNone → c = CellNone ∧ l = []) → newSize ≠ 0 → c1 ≠ CellNone) as Hsome.
  { intros c1 Hn1 Hn E. destruct (Hn1 E) as [E1 E2]. pose proof (cf_size _ _ _ _ Hf).
    assert (¬ 0 < len data) by (intros Hp; by apply Hne). pose proof (len_nonneg data).
    destruct (cf_grow _ _ _ _ Hf) as (idx & x & Hx & _); [lia|].
    assert (idx ∈ l) as Hin by (apply elem_chunkIndices; by eexists). rewrite E2 in Hin. by apply elem_of_nil in Hin. }
  destruct Href as [[-> Ha]| ->].
  - rewrite bool_decide_eq_true_2 by done.
    destruct (exec_writeArrayChunks d stage chunks cs _ _ l Ha Hmax Hf Hl c data Hrep) as (c1 & ? & ? & ?). exists c1. eauto.
  - rewrite bool_decide_eq_false_2 by done.
    destruct (exec_writeStringChunks d stage chunks cs _ _ l Hf Hl c data Hrep) as (c1 & ? & ? & ?). exists c1.
    split_and!; [|done|by apply Hsome]. rewrite Hneg. eapply exec_bind; [apply exec_ret|done].
Qed.

Lemma exec_stageChunks d i stage ref chunks cs newSize c data :
  (ref = RefArray ∧ arrays = true ∨ ref = RefExternal) → Size i ≤ MaxArraySize → newSize ≤ MaxArraySize →
  chunks_fit chunks cs (Size i) newSize → Size i = len data →
  cell_repr ref c (Size i) data → (0 < Size i → c ≠ CellNone) →
  ∃ c', exec (stageChunks stage i ref chunks cs newSize) (put stage c d) () (put stage c' d) ∧ c' ≠ CellNone ∧
        cell_repr ref (if bool_decide (newSize = 0) then CellNone else c') newSize (chunked chunks cs newSize data).
Proof.
  intros Href Hm1 Hm2 Hf Hsz Hrep Hne. pose proof (cf_size _ _ _ _ Hf) as Hnn.
  destruct (exec_writeChunks d stage ref chunks cs _ newSize c data Href Hm2 Hf Hsz Hrep Hne) as (c1 & Hw & Hr1 & Hn1).
  destruct (exec_cutChunks d stage ref chunks cs _ newSize c1 data Href Hm1 Hf Hsz Hr1 Hn1) as (c2 & Hcut & Hr2).
  assert (∀ k, exec (if newSize =? 0 then setStage stage (CellStr []) else ret ()) (put stage c2 d) () k →
      exec (stageChunks stage i ref chunks cs newSize) (put stage c d) () k) as Hrun.
  { intros k H3. unfold stageChunks. cbv zeta. eapply exec_bind; [|exact H3]. unfold cutChunks in Hcut. revert Hw Hcut.
    case_bool_decide; intros Hw Hcut w Hww.
    - by apply (exec_bind _ _ _ _ _ _ _ Hw).
    - destruct (existsb _ _); [by destruct (Hw w Hww)|]. revert w Hww. eapply exec_bind; [apply exec_ret|].
      eapply exec_bind; [|exact Hcut]. intros w Hww. exact (Hw w Hww). }
  destruct (newSize =? 0) eqn:E0.
  - exists (CellStr []). rewrite bool_decide_eq_true_2 by lia. split_and!; [|done|].
    + rewrite <- (put_put stage c2 (CellStr []) d). apply Hrun. by apply exec_setStage.
    + assert (newSize = 0) as -> by lia. pose proof (len_ftruncate (patched chunks cs (chunkIndices chunks) data) 0 ltac:(lia)) as Hl.
      unfold chunked. destruct (ftruncate _ 0); [|unfold len in Hl; simpl in Hl; lia].
      apply (cell_repr_full (arr := arr) ref []). destruct Href as [[-> ?]| ->]; [by right|by left].
  - exists c2. rewrite bool_decide_eq_false_2 by lia. destruct Hr2; [lia|]. split_and!; [|done|done]. apply Hrun, exec_ret.
Qed.
End Stage.

(** * A chunked write *)

Section Write.
Context {arr : Type} {RA : RedisArray arr} {P : Params arr} {FT : FreshTokens P}.
Hypothesis Hsolo : @solo arr P.
Implicit Types (w : world arr) (d : db arr).

Lemma exec_run {A} (m : M arr A) d a d' w : exec m d a d' → w_db w = d →
  ∃ w', m w = (Ok a, w') ∧ w_db w' = d' ∧ w_tok w' = w_tok w ∧ w_now w' = w_now w.
Proof. intros Hm Hw. destruct (Hm w Hw) as (E1 & E2 & E3 & E4). exists (m w).2. destruct (m w). simpl in *. by subst. Qed.

(** The chunk manifest an inode carries. *)
Definition chunk_manifest d (id : string) : Z * list string :=
  match inodes d !! id with Some h => (h_chunk_size h, decodeChunkHashes (h_chunk_hashes h)) | None => (0, []) end.

Lemma publish_manifest ctx p i stage r d cs s staged :
  chunk_manifest (publish_effects (publishArgsOf ctx p i stage r false [FChunkSize cs; FChunkHashes s]) staged d) (ID i) =
    (cs, decodeChunkHashes s).
Proof.
  unfold chunk_manifest. rewrite (proj1 (publish_effects_at (publishArgsOf ctx p i stage r false [FChunkSize cs; FChunkHashes s]) staged d eq_refl)).
  unfold hset. cbn [p_id publishArgsOf p_fields p_revision]. rewrite lookup_insert_eq, <- app_assoc, !foldl_app. cbn.
  set (h := foldl _ _ (if cx_ranged ctx then _ else _)). by destruct h.
Qed.

(** What the publication of a chunked write leaves. *)
Definition chunk_version (i : inodeData) (b : bytes) (now : Z) : inodeData := with_times (with_content (selectContentRef i) b) now now.

Lemma chunk_version_of i b now : Type_ i = "file" → version_of i (chunk_version i b now).
Proof.
  intros Hty. unfold chunk_version, selectContentRef. rewrite (bool_decide_eq_true_2 (Type_ i = "file")) by done.
  repeat case_match; by constructor.
Qed.

Lemma stageKey_fresh w id : (∀ n, 0 ≤ n → stages (w_db w) !! stageKey id (tok (w_tok w + n)) = None) → stages (w_db w) !! stageKey id (tok (w_tok w)) = None.
Proof. intros H. specialize (H 0 ltac:(lia)). by rewrite Z.add_0_r in H. Qed.

Lemma does_publishChunksTo ctx q i data chunks cs newSize hashes w :
  unconditional ctx → w_inv w → admitted ctx (w_db w) → inode_at (w_db w) (ID i) = Some i → Type_ i = "file" →
  holds_data (w_db w) i data → chunks_fit chunks cs (Size i) newSize → has_room (w_db w) (newSize - Size i) →
  stages (w_db w) !! stageKey (ID i) (tok (w_tok w)) = None →
  let i' := chunk_version i (chunked chunks cs newSize data) (w_now w) in
  ∃ d', does (publishChunksTo ctx q i false chunks cs newSize hashes) w () d' 2 ∧
        overwritten (w_db w) d' i' (tok (w_tok w + 1)) ∧
        chunk_manifest d' (ID i) = (cs, decodeChunkHashes (encodeChunkHashes hashes)).
Proof.
  intros Huc Hw Ha Hi Hty Hd Hf Hroom Hst i'. pose proof Hd as (Hsz & _ & _).
  pose proof Hf as Hf'. rewrite Hsz in Hf'. destruct (chunked_spec _ _ _ _ Hf') as [Hlen _]. clear Hf'.
  set (b := chunked chunks cs newSize data) in *. set (stage := stageKey (ID i) (tok (w_tok w))) in *.
  pose proof (chunk_version_of i b (w_now w) Hty) as Hv. fold i' in Hv.
  pose proof (selected_ref _ i data Hd Hty) as Href. set (i0 := selectContentRef i) in *.
  destruct (room_size _ _ _ (wi_fs _ Hw) Hi Hty Hroom) as [Hs0 Hs1].
  destruct (exec_seedChunks Hsolo _ i data stage ltac:(lia) Hd Hty Hst) as (c0 & Hseed & Hr0 & Hn0).
  destruct (exec_stageChunks Hsolo (w_db w) i stage (ContentRef i0) chunks cs newSize c0 data Href ltac:(lia) ltac:(lia) Hf Hsz Hr0 Hn0)
    as (c1 & Hstage & Hn1 & Hr1). fold b in Hr1.
  destruct (exec_run _ _ _ _ (newOriginID w).2 Hseed eq_refl) as (w1 & E1 & Hd1 & Ht1 & Hnow1).
  destruct (exec_run _ _ _ _ w1 Hstage Hd1) as (w2 & E2 & Hd2 & Ht2 & Hnow2). cbn [newOriginID snd w_tok w_now] in Ht1, Hnow1.
  assert (w_tok w2 = w_tok w + 1) as Htok by lia.
  set (extra := [FChunkSize cs; FChunkHashes (encodeChunkHashes hashes)]).
  set (a := publishArgsOf ctx q i' stage (tok (w_tok w2)) false extra).
  assert (publishArgsOf ctx q (with_meta i0 (Mode i0) (UID i0) (GID i0) newSize (CtimeMs i0) (w_now w) (w_now w))
            stage (tok (w_tok w2)) false extra = a) as Ea.
  { unfold a, i', chunk_version. fold i0. by rewrite <- Hlen. }
  assert (publishFileScript a (w_db w2) = Ok (1, publish_effects a c1 (w_db w2))) as Hs.
  { eapply (publish_live ctx q i i' w w2); try done.
    - change (Size i') with (len b). by rewrite Hlen.
    - rewrite Hd2. unfold put. destruct c1; [done|apply lookup_insert_eq..]. }
  exists (publish_effects a c1 (w_db w2)). split_and!.
  - unfold publishChunksTo. rewrite (bool_decide_eq_true_2 (Type_ i = "file")) by done. cbn [negb].
    unfold checkWriteCondition. rewrite (uc_stat _ Huc). replace 2 with (0 + (1 + 1)) by done.
    eapply does_after; [reflexivity|lia|done|]. eapply does_after; [reflexivity|done|done|]. cbv zeta. fold stage i0.
    apply (does_stage_discarded Hsolo). replace 1 with (0 + (0 + (0 + (1 + (0 + 0))))) by done.
    eapply does_after; [exact E1|simpl; lia|done|]. eapply does_after; [exact E2|lia|done|].
    eapply does_after; [reflexivity|lia|done|]. cbn beta. replace (w_now w2) with (w_now w) by congruence.
    eapply does_bind; [apply (does_publish Hsolo); [done|]; etrans; [|exact Hs]; rewrite <- Ea; f_equal|]. intros w3 H3 _ _.
    eapply does_bind; [apply (does_publishInvalidate Hsolo)|]. intros w4 H4 _ _. apply does_ret. by etrans.
  - rewrite <- Htok. unfold a. rewrite Hd2. eapply overwritten_stages, (publish_over ctx q i i'); try apply Hv; try done.
    + change (inode_at (w_db w) (ID i') = Some i). by rewrite (vo_id _ _ Hv).
    + change (stored_ref (ContentRef i0)). destruct Href as [H|H]; [by right|by left].
    + change (len b ≤ MaxArraySize). lia.
    + right. by eexists _, _.
    + change (Content i') with b. rewrite Hlen. exact Hr1.
  - unfold a. rewrite <- (vo_id _ _ Hv). apply publish_manifest.
Qed.
End Write.

(** * Reading by chunks *)

Lemma GETRANGE_chunk data off n : 0 ≤ off → 0 < n → GETRANGE data off (off + n - 1) = pread data off n.
Proof.
  intros Ho Hn. pose proof (len_nonneg data). destruct (decide (len data ≤ off)) as [Hle|Hgt].
  - rewrite pread_nil by lia. unfold GETRANGE. cbv zeta. replace (off <? 0) with false by lia.
    replace (off + n - 1 <? 0) with false by lia.
    replace ((len data =? 0) || (Z.min (len data - 1) (Z.max 0 (off + n - 1)) <? Z.max 0 off)) with true by lia. done.
  - unfold pread. destruct (decide (off + n ≤ len data)) as [Hin|Hout].
    + rewrite Z.min_r by lia. apply GETRANGE_pread; lia.
    + rewrite Z.min_l by lia. rewrite <- (GETRANGE_pread data off (len data)) by lia.
      unfold GETRANGE. cbv zeta. replace (off <? 0) with false by lia.
      replace (off + n - 1 <? 0) with false by lia. replace (len data - 1 <? 0) with false by lia.
      by replace (Z.min (len data - 1) (Z.max 0 (off + n - 1))) with (Z.min (len data - 1) (Z.max 0 (len data - 1))) by lia.
Qed.

Section Read.
Context {arr : Type} {RA : RedisArray arr} {P : Params arr}.
Hypothesis Hsolo : @solo arr P.
Implicit Types (d : db arr).

(** The chunks of [data]. *)
Definition chunks_of (l : list Z) (n : Z) (data : bytes) (out : gmap Z bytes) : gmap Z bytes :=
  foldl (λ m idx, <[idx := pread data (idx * n) n]> m) out l.

Lemma chunks_of_lookup l n data out idx : idx ∈ l → chunks_of l n data out !! idx = Some (pread data (idx * n) n).
Proof.
  assert (∀ k out, out !! idx = Some (pread data (idx * n) n) → chunks_of k n data out !! idx = Some (pread data (idx * n) n)) as Hkeep.
  { unfold chunks_of. induction k as [|x k IH]; intros o H; [done|]. simpl. apply IH.
    destruct (decide (x = idx)) as [->|]; [by rewrite lookup_insert_eq|by rewrite lookup_insert_ne]. }
  revert out. induction l as [|k l IH]; intros out H; [by apply elem_of_nil in H|].
  apply elem_of_cons in H as [<-|H]; [|by apply (IH (<[k := pread data (k * n) n]> out))].
  apply (Hkeep l). by rewrite lookup_insert_eq.
Qed.

Lemma reads_readEach d get l n data : (∀ idx, idx ∈ l → reads d (get idx) (Ok (pread data (idx * n) n))) →
  ∀ out, reads d (readEach get l out) (Ok (chunks_of l n data out)).
Proof.
  induction l as [|idx l IH]; intros Hg out; [apply reads_ret|]. simpl.
  eapply reads_bind; [apply Hg; by left|]. cbn beta iota. apply IH. intros k Hk. apply Hg. by right.
Qed.

Lemma reads_ReadChunks ctx d p q i l n data : admitted ctx d → inode_at d "1" ≠ None →
  lookup_path d true p = Ok (q, i) → Type_ i = "file" → stored d (ID i) (ContentRef i) data → Size i = len data →
  0 < n → (∀ idx, idx ∈ l → 0 ≤ idx ∧ idx * n + n ≤ max_int64) →
  reads d (ReadChunks ctx p l n) (Ok (chunks_of l n data ∅)).
Proof.
  intros Ha Hr Hl Hty (Href & Hmax & _ & Hc) Hsz Hn Hidx. unfold ReadChunks.
  eapply reads_bind; [by apply (reads_resolvePath Hsolo)|]. rewrite Hl. cbn beta iota zeta. cbn [snd].
  rewrite (bool_decide_eq_true_2 (Type_ i = "file")) by done. cbn [negb]. destruct Href as [E|[E Har]]; rewrite E in *.
  - rewrite bool_decide_eq_false_2 by done. apply reads_readEach. intros idx Hin. destruct (Hidx idx Hin).
    eapply reads_bind; [apply (reads_read Hsolo)|]. cbn beta iota. cbn in Hc. destruct Hc as [_ [->|[-> ->]]].
    + rewrite !i64_small by (rewrite ?i64_small by nia; nia). rewrite GETRANGE_chunk by nia. apply reads_ret.
    + rewrite pread_nil; [apply reads_ret|unfold len; simpl; nia|nia].
  - rewrite bool_decide_eq_true_2 by done. apply reads_readEach. intros idx Hin. destruct (Hidx idx Hin).
    eapply reads_bind; [apply (reads_read Hsolo)|]. cbn beta iota. rewrite Har, Hsz, i64_small by nia.
    rewrite (ReadRange_repr RefArray _ (len data) data) by (done || nia). apply reads_ret.
Qed.

Lemma reads_ChunkMeta ctx d p q i : admitted ctx d → inode_at d "1" ≠ None →
  lookup_path d true p = Ok (q, i) → Type_ i = "file" →
  reads d (ChunkMeta ctx p) (Ok (chunk_manifest d (ID i))).
Proof.
  intros Ha Hr Hl Hty. unfold ChunkMeta. eapply reads_bind; [by apply (reads_resolvePath Hsolo)|]. rewrite Hl.
  cbn beta iota. cbn [snd]. rewrite (bool_decide_eq_true_2 (Type_ i = "file")) by done. cbn [negb].
  exact (reads_read Hsolo d (λ d, chunk_manifest d (ID i))).
Qed.
End Read.

(** A file of the oldest storage kind keeps its content in the inode's hash.  [Cat]
    returns it; ReadChunks looks for it in the content key and answers empty
    chunks without an error. *)
Lemma read_chunks_misses_inline {arr} {RA : RedisArray arr} {P : Params arr} {FT : FreshTokens P} ctx p (w : world arr) q i h l n :
  solo → w_inv w → admitted ctx (w_db w) → (resolvePath ctx p true w).1 = Ok (q, i) → Type_ i = "file" → ContentRef i = "" →
  inodes (w_db w) !! ID i = Some h → contentCell (w_db w) (ID i) = CellNone →
  (Cat ctx p w).1 = Ok (h_content h) ∧ (ReadChunks ctx p l n w).1 = Ok (foldl (λ m idx, <[idx := []]> m) ∅ l).
Proof.
  intros Hsolo Hw Ha Hres Hty Href Hh Hc. destruct (reads_here ctx w Hsolo Hw Ha) as (Hrd & Hcd & _). rewrite Hrd in Hres. split.
  - rewrite Hcd. unfold cat_at. rewrite Hres, bool_decide_eq_true_2 by done. cbn [negb]. unfold content_at.
    by rewrite Href, Hh.
  - eapply run_reads; [|done]. unfold ReadChunks. eapply reads_bind; [by apply (reads_resolvePath Hsolo); [|apply root_present]|].
    rewrite Hres. cbn beta iota zeta. cbn [snd]. rewrite (bool_decide_eq_true_2 (Type_ i = "file")), Href by done. cbn [negb].
    rewrite bool_decide_eq_false_2 by done. generalize (∅ : gmap Z bytes). induction l as [|idx l IH]; intros out; [apply reads_ret|].
    simpl. apply (reads_bind _ _ _ (Ok [])); [|apply IH].
    eapply reads_bind; [apply (reads_read Hsolo)|]. cbn beta iota. rewrite Hc. apply reads_ret.
Qed.

(** * Property: a chunked write is read back *)

Lemma manifest_agrees {arr} (d d' : db arr) id : agrees d d' → chunk_manifest d' id = chunk_manifest d id.
Proof. intros H. unfold chunk_manifest. by rewrite (ag_inodes _ _ H). Qed.

Lemma agrees_stored {arr} {RA : RedisArray arr} {P : Params arr} (d d' : db arr) id ref data :
  agrees d d' → stored d id ref data → stored d' id ref data.
Proof. intros H. unfold stored, size_of, contentCell. by rewrite (ag_inodes _ _ H), (ag_contents _ _ H). Qed.

Lemma does_WriteChunks {arr} {RA : RedisArray arr} {P : Params arr} {FT : FreshTokens P} ctx p chunks cs newSize hashes
    (w : world arr) q i data :
  solo → unconditional ctx → w_inv w → admitted ctx (w_db w) →
  lookup_path (w_db w) true p = Ok (q, i) → Type_ i = "file" → holds_data (w_db w) i data →
  chunks_fit chunks cs (Size i) newSize → has_room (w_db w) (newSize - Size i) →
  stages (w_db w) !! stageKey (ID i) (tok (w_tok w)) = None →
  ∃ d', does (WriteChunks ctx p chunks cs newSize hashes) w () d' 2 ∧
        overwritten (w_db w) d' (chunk_version i (chunked chunks cs newSize data) (w_now w)) (tok (w_tok w + 1)) ∧
        chunk_manifest d' (ID i) = (cs, decodeChunkHashes (encodeChunkHashes hashes)).
Proof.
  intros Hsolo Huc Hw Ha Hl Hty Hd Hf Hroom Hst. pose proof (lookup_path_inode _ _ _ _ _ Hl) as Hi.
  pose proof (reads_resolvePath Hsolo ctx (w_db w) p true Ha (root_present _ Hw)) as Hres. rewrite Hl in Hres.
  destruct (reads_try _ _ _ Hres w eq_refl) as [t E]. set (w1 := later t w) in *.
  destruct (does_publishChunksTo Hsolo ctx q i data chunks cs newSize hashes w1 Huc (w_inv_later _ _ Hw) Ha Hi Hty Hd Hf Hroom Hst)
    as (d' & Hdo & Hov & Hm).
  exists d'. split_and!; [|done|done]. unfold WriteChunks, publishChunks.
  assert ((cs <? 0) || (newSize <? 0) || ((cs =? 0) && negb (bool_decide (chunks = ∅))) = false) as ->.
  { destruct Hf as [H1 H2 H3 _ _]. replace (cs <? 0) with false by lia. replace (newSize <? 0) with false by lia. simpl.
    destruct (cs =? 0) eqn:E0; [|done]. rewrite bool_decide_eq_true_2; [done|]. apply H3. lia. }
  replace 2 with (0 + 2) by done. eapply does_after; [exact E|simpl; lia|done|]. cbn beta iota. exact Hdo.
Qed.

(** C20: writing a file by chunks.  When the path resolves to a file that holds
    [data] and the chunks fit the new size, the write succeeds; afterwards every
    byte of the file is the one of its chunk where a chunk reaches it and the old
    one elsewhere, whatever the order and the storage; reading by chunks of any
    size gives the pieces of that content; the chunk manifest is the one given; the
    path resolves to the same inode with the new size; and every other file reads
    as before. *)
Theorem write_chunks_then_read {arr} {RA : RedisArray arr} {P : Params arr} {FT : FreshTokens P} ctx p chunks cs newSize hashes
    (w : world arr) q i data :
  solo → unconditional ctx → w_inv w → admitted ctx (w_db w) →
  (resolvePath ctx p true w).1 = Ok (q, i) → Type_ i = "file" → holds_data (w_db w) i data →
  chunks_fit chunks cs (Size i) newSize → has_room (w_db w) (newSize - Size i) →
  stages (w_db w) !! stageKey (ID i) (tok (w_tok w)) = None →
  let r := WriteChunks ctx p chunks cs newSize hashes w in
  r.1 = Ok () ∧
  (∃ b, (Cat ctx p r.2).1 = Ok b ∧ len b = newSize ∧
     (∀ j, 0 ≤ j < newSize → get b j = chunkByte chunks cs data j) ∧
     (∀ l n, 0 < n → (∀ idx, idx ∈ l → 0 ≤ idx ∧ idx * n + n ≤ max_int64) →
        ∃ out, (ReadChunks ctx p l n r.2).1 = Ok out ∧ ∀ idx, idx ∈ l → out !! idx = Some (pread b (idx * n) n))) ∧
  (Forall (λ h, no_char "," h = true) hashes → hashes ≠ [""] → (ChunkMeta ctx p r.2).1 = Ok (cs, hashes)) ∧
  (∃ i', (resolvePath ctx p true r.2).1 = Ok (q, i') ∧ ID i' = ID i ∧ Size i' = newSize ∧ MtimeMs i' = w_now w ∧
         Mode i' = u32 (Mode i) ∧ Revision i' ≠ Revision i) ∧
  (∀ p', match (resolvePath ctx p' true w).1 with
         | Ok (_, j) => ID j ≠ ID i → (Cat ctx p' r.2).1 = (Cat ctx p' w).1
         | Err e => (Cat ctx p' r.2).1 = Err e
         end).
Proof.
  intros Hsolo Huc Hw Ha Hres Hty Hd Hf Hroom Hst r. destruct (reads_here ctx w Hsolo Hw Ha) as (Hrd & Hcd & _).
  rewrite Hrd in Hres. pose proof (lookup_path_inode _ _ _ _ _ Hres) as Hi.
  destruct (does_WriteChunks ctx p chunks cs newSize hashes w q i data Hsolo Huc Hw Ha Hres Hty Hd Hf Hroom Hst)
    as (d' & Hdo & Hov & Hm). pose proof Hd as (Hsz & _). rewrite Hsz in Hf. destruct (chunked_spec _ _ _ _ Hf) as [Hlen Hget].
  set (b := chunked chunks cs newSize data) in *. set (i' := chunk_version i b (w_now w)) in *.
  pose proof (chunk_version_of i b (w_now w) Hty) as [Vid _ _ _ _ _ _ _]. fold i' in Vid.
  destruct (overwritten_admitted ctx _ _ _ _ Hov Ha (root_present _ Hw)) as [Ha' Hr'].
  destruct (reads_after _ ctx w () d' 2 Hsolo Hdo Ha' Hr') as (H1 & Hrd' & Hcd' & _). fold r in H1, Hrd', Hcd'.
  destruct Hdo as (w' & Ew & Hag & _). assert (r.2 = w') as Er by (unfold r; by rewrite Ew).
  assert (lookup_path d' true p = Ok (q, new_inode i' (tok (w_tok w + 1)))) as Hl'.
  { by rewrite (overwritten_lookup _ _ _ _ _ _ Hov), Hres, decide_True. }
  assert (lookup_path (w_db r.2) true p = Ok (q, new_inode i' (tok (w_tok w + 1)))) as Hlw by (by rewrite Er, <- Hag).
  assert (admitted ctx (w_db r.2) ∧ inode_at (w_db r.2) "1" ≠ None) as [Haw Hrw] by (by rewrite Er, <- Hag).
  split_and!; [done| | | |].
  - exists b. split_and!; [by rewrite Hcd', (overwritten_cat _ _ _ _ _ Hov), Hres, decide_True|done|done|].
    intros l n Hn Hidx. eexists. split; [|intros idx Hin; by apply (chunks_of_lookup l n b ∅)].
    eapply run_reads; [eapply (reads_ReadChunks Hsolo); try done|done].
    change (stored (w_db r.2) (ID i') (ContentRef i') (Content i')). rewrite Er. by eapply agrees_stored, Hov.
  - intros Hh Hh'. rewrite <- (decode_encode_hashes hashes Hh Hh'), <- Hm at 1.
    erewrite run_reads; [|by eapply (reads_ChunkMeta Hsolo)|done]. change (ID (new_inode i' _)) with (ID i').
    by rewrite Er, (manifest_agrees d'), Vid by done.
  - exists (new_inode i' (tok (w_tok w + 1))). rewrite Hrd', Hl'. split_and!; try done.
    + simpl. unfold i', chunk_version, selectContentRef. by repeat case_match.
    + rewrite <- (inode_at_revision _ _ _ Hi). by apply not_eq_sym, fresh_revision.
  - intros p'. rewrite Hrd, Hcd', Hcd, (overwritten_cat _ _ _ _ _ Hov).
    destruct (lookup_path (w_db w) true p') as [[q' j]|e]; [|done]. intros Hj. by rewrite decide_False by congruence.
Qed.
