(* ===== verification/FsListing.v ===== *)
(** Listings of a client alone: [Ls] and [LsLong] answer exactly what the
    directory holds, every entry once and in the order of the names. *)
From Stdlib Require Import Strings.Byte.
From S2P Require Import Prelude Content Paths FsState FsTree FsScripts FsClient FsInv FsOps FsRange FsChunks FsSpec FsSeq.
#[local] Open Scope string_scope.
#[local] Open Scope list_scope.
#[local] Open Scope Z_scope.

Section Listing.
Context {arr : Type} {RA : RedisArray arr} {P : Params arr}.
Hypothesis Hsolo : @solo arr P.
Implicit Types (w : world arr) (d : db arr).

Lemma elem_sortNames values name : name ∈ sortNames values ↔ is_Some (values !! name).
Proof.
  unfold sortNames. rewrite insertion_sort_perm, list_elem_of_fmap. split.
  - intros ([k c] & -> & H%elem_of_map_to_list). by eexists.
  - intros [c H]. exists (name, c). split; [done|by apply elem_of_map_to_list].
Qed.

Lemma sortNames_nodup values : NoDup (sortNames values).
Proof. unfold sortNames. rewrite insertion_sort_perm. apply NoDup_fst_map_to_list. Qed.

(** The inodes of [ids] as they are, over those in [out]. *)
Fixpoint loaded d (ids : list string) (out : gmap string inodeData) : gmap string inodeData :=
  match ids with
  | [] => out
  | id :: ids => loaded d ids (match inode_at d id with Some i => <[id := i]> out | None => delete id out end)
  end.

Lemma reads_loadInodesByID d ids : ∀ out, reads d (loadInodesByID ids out) (Ok (loaded d ids out)).
Proof.
  induction ids as [|id ids IH]; intros out; simpl; [apply reads_ret|].
  eapply reads_bind; [apply (reads_read Hsolo)|]. cbn beta iota. apply IH.
Qed.

Lemma loaded_step d id k (out : gmap string inodeData) :
  (match inode_at d id with Some i => <[id := i]> out | None => delete id out end) !! k =
    if decide (k = id) then inode_at d id else out !! k.
Proof.
  destruct (inode_at d id); case_decide as E; subst; by rewrite ?lookup_insert_eq, ?lookup_delete_eq, ?lookup_insert_ne, ?lookup_delete_ne by done.
Qed.

Lemma loaded_lookup d ids k : ∀ out, loaded d ids out !! k = if decide (k ∈ ids) then inode_at d k else out !! k.
Proof.
  induction ids as [|id ids IH]; intros out; cbn [loaded]; [by rewrite decide_False by apply not_elem_of_nil|].
  rewrite IH, loaded_step. destruct (decide (k ∈ ids)); [by rewrite decide_True by (by right)|].
  destruct (decide (k = id)) as [->|]; [by rewrite decide_True by (by left)|]. rewrite decide_False; [done|].
  by intros [?|?]%elem_of_cons.
Qed.

(** The entries of the directory with their inodes, in the order of the names. *)
Definition children_at d (dirPath dirID : string) : list namedInode :=
  omap (λ n, match dirent d dirID n with
             | Some id => match inode_at d id with
                          | Some i => Some {| nm_Name := n; nm_Path := joinPath dirPath n; nm_Inode := i |}
                          | None => None
                          end
             | None => None
             end) (sortNames (default ∅ (dirents d !! dirID))).

Lemma dirent_entries d dirID n : dirent d dirID n = (default ∅ (dirents d !! dirID) : gmap string string) !! n.
Proof. unfold dirent. destruct (dirents d !! dirID); simpl; [done|by rewrite lookup_empty]. Qed.

Lemma omap_ext_in {A B} (f g : A → option B) (l : list A) : (∀ x, x ∈ l → f x = g x) → omap f l = omap g l.
Proof.
  induction l as [|x l IH]; intros H; csimpl; [done|]. rewrite (H x), IH; [done| |by left]. intros y Hy. apply H. by right.
Qed.

Lemma reads_listDirChildren d dirPath dir : Type_ dir = "dir" →
  reads d (listDirChildren dirPath dir) (Ok (children_at d dirPath (ID dir))).
Proof.
  intros Hty. unfold listDirChildren, loadDirEntries. rewrite (bool_decide_eq_true_2 (Type_ dir = "dir")) by done. cbn [negb].
  eapply reads_bind; [apply (reads_read Hsolo)|]. cbn beta iota zeta. set (entries := default ∅ (dirents d !! ID dir)).
  eapply reads_bind; [apply reads_loadInodesByID|]. cbn beta iota.
  assert (children_at d dirPath (ID dir) = omap (λ n, match entries !! n with
      | Some id => match loaded d (omap (λ n, entries !! n) (sortNames entries)) ∅ !! id with
                   | Some i => Some {| nm_Name := n; nm_Path := joinPath dirPath n; nm_Inode := i |}
                   | None => None
                   end
      | None => None
      end) (sortNames entries)) as ->; [|apply reads_ret].
  unfold children_at. apply omap_ext_in. intros n Hn. rewrite dirent_entries. fold entries.
  destruct (entries !! n) as [id|] eqn:E; [|done]. rewrite loaded_lookup, decide_True; [done|].
  apply list_elem_of_omap. by exists n.
Qed.

Lemma reads_LsLong ctx d p : admitted ctx d → inode_at d "1" ≠ None →
  reads d (LsLong ctx p)
    match lookup_path d true p with
    | Ok (q, i) => if bool_decide (Type_ i = "dir") then Ok (map lsEntry (children_at d q (ID i))) else Err ErrNotDir
    | Err e => Err e
    end.
Proof.
  intros Ha Hr. unfold LsLong. eapply reads_bind; [by apply (reads_resolvePath Hsolo)|].
  destruct (lookup_path d true p) as [[q i]|e]; [|done]. cbn beta iota. cbn [fst snd].
  case_bool_decide as Hty; cbn [negb]; [|apply reads_fail].
  eapply reads_bind; [by apply reads_listDirChildren|]. apply reads_ret.
Qed.

(** In a sound workspace every entry of a directory has an inode. *)
Lemma entry_has_inode d dir name id : fs_inv d → dirent d dir name = Some id → ∃ i, inode_at d id = Some i.
Proof.
  intros [Hw _ _] Hd. apply (wf_links _ _ Hw) in Hd as (_ & nd & Hn & _). pose proof (wf_types _ _ Hw _ _ Hn) as Ht.
  apply fmap_lookup_static in Hn as (h & Hh & ->). unfold inode_at, inodeFromHash. rewrite Hh. simpl in Ht.
  destruct Ht as [Ht|[Ht|Ht]]; rewrite Ht; by eexists.
Qed.

Lemma children_names d q dirID : fs_inv d → map nm_Name (children_at d q dirID) = sortNames (default ∅ (dirents d !! dirID)).
Proof.
  intros Hinv. unfold children_at. assert (∀ n, n ∈ sortNames (default ∅ (dirents d !! dirID)) → is_Some (dirent d dirID n)) as H.
  { intros n Hn. rewrite dirent_entries. by apply elem_sortNames. }
  induction (sortNames _) as [|n l IH]; [done|]. destruct (H n) as [id E]; [by left|]. csimpl. rewrite E.
  destruct (entry_has_inode _ _ _ _ Hinv E) as [i ->]. csimpl. f_equal. apply IH. intros k Hk. apply H. by right.
Qed.

Lemma elem_children d q dirID c :
  c ∈ children_at d q dirID ↔ dirent d dirID (nm_Name c) = Some (ID (nm_Inode c)) ∧
                              inode_at d (ID (nm_Inode c)) = Some (nm_Inode c) ∧ nm_Path c = joinPath q (nm_Name c).
Proof.
  unfold children_at. rewrite list_elem_of_omap. split.
  - intros (n & _ & H). destruct (dirent d dirID n) as [id|] eqn:E; [|done]. destruct (inode_at d id) as [i|] eqn:Ei; [|done].
    injection H as <-. simpl. by rewrite (inode_at_ID _ _ _ Ei).
  - intros (E & Ei & Ep). exists (nm_Name c). split.
    + apply elem_sortNames. rewrite <- dirent_entries, E. by eexists.
    + rewrite E, Ei, <- Ep. by destruct c.
Qed.
End Listing.

(** Listing a directory of a sound workspace: on a path that leads to one, [Ls]
    answers the names of its entries, each once and in order, and [LsLong] the
    entry of each name with the attributes of its inode and nothing else; on
    other paths both fail, over a file with ErrNotDir. *)
Theorem ls_is_exact {arr} {RA : RedisArray arr} {P : Params arr} {FT : FreshTokens P} ctx p (w : world arr) :
  solo → w_inv w → admitted ctx (w_db w) →
  match (resolvePath ctx p true w).1 with
  | Err e => (Ls ctx p w).1 = Err e
  | Ok (q, i) =>
      if bool_decide (Type_ i = "dir") then
        ∃ names entries, (Ls ctx p w).1 = Ok names ∧ (LsLong ctx p w).1 = Ok entries ∧ map ls_name entries = names ∧
          NoDup names ∧ StronglySorted (λ x y, stringLess y x = false) names ∧
          (∀ name, name ∈ names ↔ is_Some (dirent (w_db w) (ID i) name)) ∧
          (∀ e, e ∈ entries ↔ ∃ j, dirent (w_db w) (ID i) (ls_name e) = Some (ID j) ∧ inode_at (w_db w) (ID j) = Some j ∧
                                   e = lsEntry {| nm_Name := ls_name e; nm_Path := joinPath q (ls_name e); nm_Inode := j |})
      else (Ls ctx p w).1 = Err ErrNotDir
  end.
Proof.
  intros Hsolo Hw Ha. destruct (reads_here ctx w Hsolo Hw Ha) as (Hrd & _). rewrite Hrd.
  pose proof (reads_LsLong Hsolo ctx (w_db w) p Ha (root_present _ Hw)) as Hls.
  destruct (lookup_path (w_db w) true p) as [[q i]|e].
  - case_bool_decide as Hty.
    + exists (sortNames (default ∅ (dirents (w_db w) !! ID i))), (map lsEntry (children_at (w_db w) q (ID i))).
      pose proof (run_reads _ _ _ _ Hls eq_refl) as El. pose proof (children_names _ q (ID i) (wi_fs _ Hw)) as En.
      assert (map ls_name (map lsEntry (children_at (w_db w) q (ID i))) = sortNames (default ∅ (dirents (w_db w) !! ID i))) as Em.
      { by rewrite map_map, <- En. }
      split_and!; [|done|done|apply sortNames_nodup|apply insertion_sort_sorted; apply _| |].
      * unfold Ls, bindM. destruct (LsLong ctx p w) as [r w']. simpl in El. subst r. simpl. by rewrite Em.
      * intros name. by rewrite elem_sortNames, dirent_entries.
      * intros e. rewrite list_elem_of_fmap. split.
        -- intros (c & -> & Hc). apply elem_children in Hc as (H1 & H2 & H3). exists (nm_Inode c). split_and!; [done..|].
           simpl. rewrite <- H3. by destruct c.
        -- intros (j & H1 & H2 & ->). eexists. split; [done|]. by apply elem_children.
    + pose proof (run_reads _ _ _ _ Hls eq_refl) as El. unfold Ls, bindM. destruct (LsLong ctx p w). simpl in *. by subst.
  - pose proof (run_reads _ _ _ _ Hls eq_refl) as El. unfold Ls, bindM. destruct (LsLong ctx p w). simpl in *. by subst.
Qed.
