(* ===== verification/FsRemove.v ===== *)
(** Removal by a client alone: what [Rm] answers and what it leaves. *)
From Stdlib Require Import Strings.Byte.
From stdpp Require Import pretty.
From S2P Require Import Prelude Content Paths FsState FsTree FsScripts FsClient FsInv FsOps FsSpec FsSeq.
#[local] Open Scope string_scope.
#[local] Open Scope list_scope.
#[local] Open Scope Z_scope.

(** * Resolution without one inode *)

Section Without.
Context (D D' : string → string → option string) (V V' : string → option (string * string)) (x : string).
Hypothesis HD : ∀ d n, D' d n = if decide (D d n = Some x) then None else D d n.
Hypothesis HV : ∀ i, V' i = if decide (i = x) then None else V i.
Hypothesis Hroot : x ≠ "1".

Lemma pwalk_without follow comps : ∀ cur id, id ≠ x →
  pwalk D' V' follow cur id comps = Err RedisNil ∨
  pwalk D' V' follow cur id comps = pwalk D V follow cur id comps ∧
  ∀ ws, pwalk D V follow cur id comps ≠ Ok (PFound ws x).
Proof.
  induction comps as [|c rest IH]; intros cur id Hid; cbn [pwalk]; [right; split; [done|congruence]|].
  rewrite HD. destruct (D id c) as [child|] eqn:E; [|by left].
  case_decide as Hx; [by left|]. rewrite HV, decide_False by congruence.
  destruct (V child) as [[ty target]|]; [|by left].
  repeat case_match; try (right; split; [done|congruence]). apply IH. congruence.
Qed.

(** The path of the missing inode leads nowhere. *)
Lemma presolve_without hops : ∀ follow comps ws,
  presolve D V hops follow comps = Ok (ws, x) → presolve D' V' hops follow comps = Err RedisNil.
Proof.
  induction hops as [|hops IH]; intros follow comps ws H; cbn [presolve] in H |- *;
    rewrite HV, decide_False by done; destruct (V "1"); try done;
    destruct (pwalk_without follow comps [] "1" ltac:(done)) as [-> |[-> Hne]]; try done;
    destruct (pwalk D V follow [] "1" comps) as [[us i|us|]|]; simplify_eq;
    try (exfalso; by eapply Hne).
  by eapply IH.
Qed.

(** Other paths are not affected when nothing lies below the missing inode and it
    is no link. *)
Hypothesis Hleaf : ∀ n, D x n = None.
Hypothesis Hnolink : ∀ t, V x ≠ Some ("symlink", t).

Lemma pwalk_other follow comps : ∀ cur id r, id ≠ x →
  pwalk D V follow cur id comps = Ok r → (∀ ws, r ≠ PFound ws x) →
  pwalk D' V' follow cur id comps = Ok r.
Proof.
  induction comps as [|c rest IH]; intros cur id r Hid H Hr; cbn [pwalk] in H |- *; [done|].
  rewrite HD. destruct (D id c) as [child|] eqn:E; [|done].
  destruct (V child) as [[ty target]|] eqn:Ev; [|done].
  destruct (decide (child = x)) as [->|Hx].
  - exfalso. destruct (bool_decide (ty = "symlink")) eqn:El; [bools; subst ty; by destruct (Hnolink target)|].
    cbn [andb] in H. case_bool_decide; [injection H as <-; by destruct (Hr (cur ++ [c]))|].
    case_bool_decide; [|done]. destruct rest as [|c2 rest]; [done|]. cbn [pwalk] in H. by rewrite Hleaf in H.
  - rewrite decide_False by congruence. rewrite HV, decide_False, Ev by done.
    repeat case_match; try done. by apply IH.
Qed.

Lemma presolve_other hops : ∀ follow comps ws i,
  presolve D V hops follow comps = Ok (ws, i) → i ≠ x → presolve D' V' hops follow comps = Ok (ws, i).
Proof.
  induction hops as [|hops IH]; intros follow comps ws i H Hi; cbn [presolve] in H |- *;
    rewrite HV, decide_False by done; destruct (V "1"); try done;
    destruct (pwalk D V follow [] "1" comps) as [r|] eqn:Ew; try done;
    (rewrite (pwalk_other follow comps [] "1" r); [|done|done|intros us ->; simplify_eq]);
    destruct r; simplify_eq; eauto.
Qed.
End Without.

(** What a path with components leads to, without following a final link, is an
    entry. *)
Lemma presolve_entry (D : string → string → option string) V hops : ∀ comps ws i,
  comps ≠ [] → presolve D V hops false comps = Ok (ws, i) → ∃ dir name, D dir name = Some i.
Proof.
  assert (∀ comps cur id r, comps ≠ [] → pwalk D V false cur id comps = Ok r →
            match r with PFound _ i => ∃ dir name, D dir name = Some i | PJump us => us ≠ [] | PEmpty => True end) as Hw.
  { induction comps as [|c rest IH]; intros cur id r Hne H; [done|]. cbn [pwalk] in H.
    destruct (D id c) as [child|] eqn:E; [|done]. destruct (V child) as [[ty target]|]; [|done].
    destruct (bool_decide (ty = "symlink") && (false || negb (bool_decide (rest = [])))) eqn:El.
    - injection H as <-. destruct (bool_decide (target = "")); [done|]. apply andb_true_iff in El as [_ El]. simpl in El. bools.
      intros En. by apply app_eq_nil in En as [_ ->].
    - case_bool_decide as Er; [injection H as <-; eauto|]. case_bool_decide; [|done]. by eapply IH. }
  induction hops as [|hops IH]; intros comps ws i Hne H; cbn [presolve] in H; destruct (V "1"); try done;
    destruct (pwalk D V false [] "1" comps) as [[us j|us|]|] eqn:E; simplify_eq; apply (Hw _ _ _ _ Hne) in E; eauto.
Qed.

Section Remove.
Context {arr : Type} {RA : RedisArray arr} {P : Params arr} {FT : FreshTokens P}.
Hypothesis Hsolo : @solo arr P.
Implicit Types (w : world arr) (d : db arr).

(** What the removal of the inode [i] leaves. *)
Record removed d d' (i : inodeData) : Prop := {
  rm_dirent dir name : dirent d' dir name = if decide (dirent d dir name = Some (ID i)) then None else dirent d dir name;
  rm_view id : view d' id = if decide (id = ID i) then None else view d id;
  rm_others id : id ≠ ID i → contents d' !! id = contents d !! id ∧
    (id ≠ Parent i → inodes d' !! id = inodes d !! id);
  rm_gen : generation d' = generation d;
  rm_leases : leases d' = leases d
}.

Lemma delete_at (a : deleteArgs) kind size d :
  inodes (delete_effects a kind size d) =
    hset (d_parent a) [FMtime (d_now a); FCtime (d_now a)] (delete (d_id a) (inodes d)) ∧
  dirents (delete_effects a kind size d) = unlink (d_parent a) (d_name a) (delete (d_id a) (dirents d)) ∧
  contents (delete_effects a kind size d) = delete (d_id a) (contents d) ∧
  generation (delete_effects a kind size d) = generation d ∧ leases (delete_effects a kind size d) = leases d.
Proof. unfold delete_effects, xadd. split_and!; by repeat case_match. Qed.

Lemma delete_removes d i kind size g now payload r :
  fs_inv d → inode_at d (ID i) = Some i → ID i ≠ "1" →
  (Type_ i = "dir" → has_live_child d (ID i) = false) →
  removed d (delete_effects (DeleteArgs g (ID i) (Name i) r now payload (Parent i)) kind size d) i.
Proof.
  intros Hinv Hi Hid Hch. set (a := DeleteArgs _ _ _ _ _ _ _).
  destruct (delete_at a kind size d) as (EI & ED & EC & EG & EL). set (d' := delete_effects a kind size d) in *.
  destruct (live_entry _ _ _ Hinv Hid Hi) as [Hlink Hdir].
  assert (∀ name c, dirent d (ID i) name ≠ Some c) as Hleaf.
  { intros name c Hc. destruct (entry_dir _ _ _ _ Hinv Hc) as [Ht _].
    unfold type_of, inode_at in Ht, Hi. destruct (inodes d !! ID i) as [h|] eqn:Eh; [|done]. simpl in Ht.
    unfold inodeFromHash in Hi. rewrite Ht in Hi. injection Hi as Hi. 
    assert (childless (static <$> inodes d) (ID i)) as Hcl by (apply no_live_child; [done|apply Hch; by rewrite <- Hi]).
    destruct (dirent_node _ _ _ _ Hinv Hc) as (Hc1 & hc & Hhc & Ep & _).
    by destruct (Hcl _ _ (static_lookup _ _ _ Hhc) Hc1). }
  assert (Parent i ≠ ID i) as Hpi by (intros E; rewrite E in Hlink; by destruct (Hleaf (Name i) (ID i))).
  destruct (type_of_static _ _ _ Hdir) as (hp & Hhp & _).
  assert (delete (ID i) (inodes d) !! Parent i = Some hp) as Hp1 by by rewrite lookup_delete_ne.
  destruct (touch_inode _ now now _ _ Hp1) as (hp' & Hp' & T1 & T2 & _).
  constructor; try done.
  - intros dir name. unfold dirent at 1. rewrite ED. change (lk (unlink (Parent i) (Name i) (delete (ID i) (dirents d))) dir name = 
      if decide (dirent d dir name = Some (ID i)) then None else dirent d dir name).
    rewrite lk_unlink, lk_delete. change (lk (dirents d) dir name) with (dirent d dir name).
    destruct (decide (dir = Parent i ∧ name = Name i)) as [[-> ->]|Hn].
    { by rewrite Hlink, decide_True. }
    destruct (decide (dir = ID i)) as [->|Hd].
    + destruct (dirent d (ID i) name) as [c|] eqn:E; [by destruct (Hleaf name c)|]. by case_decide.
    + case_decide as Hx; [|done]. exfalso. apply Hn.
      destruct (dirent_node _ _ _ _ Hinv Hlink) as (_ & h1 & Hh1 & <- & <-).
      destruct (dirent_node _ _ _ _ Hinv Hx) as (_ & h2 & Hh2 & <- & <-). by simplify_eq.
  - intros id. unfold view, inode_at. rewrite EI. simpl. case_decide as Hd.
    + subst id. unfold hset. by rewrite lookup_insert_ne, lookup_delete_eq.
    + destruct (decide (id = Parent i)) as [->|Hnp].
      * rewrite Hp', Hhp. unfold inodeFromHash. rewrite T1, T2. by destruct (h_type hp).
      * unfold hset. by rewrite lookup_insert_ne, lookup_delete_ne.
  - intros id Hd. split; [rewrite EC; simpl; by rewrite lookup_delete_ne|].
    intros Hnp. rewrite EI. unfold hset. simpl. by rewrite lookup_insert_ne, lookup_delete_ne.
Qed.

(** The counters allow the removal. *)
Definition removable d (i : inodeData) : Prop :=
  changes d ≠ None ∧ publication_counter d (type_counter (Some (Type_ i))) (-1) = true ∧
  publication_counter d CTotalData (- Size i) = true.

Lemma inode_at_fields d id i : inode_at d id = Some i → type_of d id = Some (Type_ i) ∧ size_of d id = Size i.
Proof.
  unfold inode_at, type_of, size_of, inodeFromHash. intros H. destruct (inodes d !! id) as [h|]; [|done].
  simpl. destruct (h_type h); [|done]. by injection H as <-.
Qed.

(** The removal script on a live entry: refused when something lies below the
    inode, carried out otherwise. *)
Lemma delete_script d i g now payload :
  fs_inv d → inode_at d (ID i) = Some i → ID i ≠ "1" → guard g d = None → removable d i →
  let a := DeleteArgs g (ID i) (Name i) (Revision i) now payload (Parent i) in
  deleteInodeScript a d =
    if bool_decide (Type_ i = "dir") && has_live_child d (ID i) then Ok (-3, d)
    else Ok (1, delete_effects a (Some (Type_ i)) (Size i) d).
Proof.
  intros Hinv Hi Hid Hg (Hch & Hc1 & Hc2) a. destruct (live_entry _ _ _ Hinv Hid Hi) as [Hlink _].
  destruct (inode_at_fields _ _ _ Hi) as [Et Es]. unfold deleteInodeScript. simpl. rewrite Hg, Hlink, Et, Es.
  rewrite (bool_decide_eq_false_2 (changes d = None)) by done.
  rewrite (bool_decide_eq_false_2 (Some (ID i) = None)) by done. cbn [andb].
  rewrite (bool_decide_eq_false_2 (Some (ID i) ≠ Some (ID i))) by naive_solver.
  rewrite (inode_at_revision _ _ _ Hi), (bool_decide_eq_false_2 (Revision i ≠ Revision i)) by naive_solver.
  cbn [orb]. rewrite Hc1, Hc2. cbn [andb negb].
  assert (bool_decide (Some (Type_ i) = Some "dir") = bool_decide (Type_ i = "dir")) as ->
    by (apply bool_decide_ext; split; congruence). done.
Qed.

Lemma run_delete ctx q i w : unconditional ctx → admitted ctx (w_db w) → w_inv w →
  inode_at (w_db w) (ID i) = Some i → ID i ≠ "1" → removable (w_db w) i →
  if bool_decide (Type_ i = "dir") && has_live_child (w_db w) (ID i)
  then ∃ w', deletePublishedInode ctx q i w = (Err ErrDirNotEmpty, w') ∧ w_db w' = w_db w
  else ∃ d', does (deletePublishedInode ctx q i) w () d' 1 ∧ removed (w_db w) d' i.
Proof.
  intros Huc Ha Hw Hi Hid Hrm.
  pose proof (delete_script (w_db w) i (guardOf ctx) (w_now w) (mutationPayload InvalidateOpInode [q])
                (wi_fs _ Hw) Hi Hid (admitted_guard _ _ Ha) Hrm) as Hs. cbv zeta in Hs.
  set (a := DeleteArgs _ _ _ _ _ _ _) in Hs.
  unfold does, deletePublishedInode, checkExpectedParent, checkWriteCondition, runMutationScript.
  rewrite (uc_stat _ Huc), (uc_parents _ Huc).
  rewrite !(bool_decide_eq_true_2 ((∅ : gmap string Z) = ∅)) by done.
  unfold bindM, lift, newOriginID, nowMs, script. rewrite !(interfere_solo Hsolo).
  cbn [w_db w_now w_tok w_tick w_owned w_resv later]. fold a. rewrite Hs.
  destruct (bool_decide (Type_ i = "dir") && has_live_child (w_db w) (ID i)) eqn:E.
  - eexists. split; [reflexivity|done].
  - eexists. split; [eexists; split_and!; [reflexivity|done|done|done]|].
    apply delete_removes; [apply Hw|done|done|]. intros Hd. rewrite bool_decide_eq_true_2 in E by done. exact E.
Qed.

Lemma removed_lookup d d' i follow p q j : removed d d' i → ID i ≠ "1" →
  lookup_path d follow p = Ok (q, j) → ID j = ID i → lookup_path d' follow p = Err RedisNil.
Proof.
  intros Hrm Hid Hl Hj. unfold lookup_path in *. unfold resolved_at in Hl.
  destruct (presolve (dirent d) _ _ _ _) as [[ws id]|] eqn:E; [|done].
  destruct (inode_at d id) as [k|] eqn:Ek; [|done]. injection Hl as _ ->.
  rewrite <- (inode_at_ID _ _ _ Ek), Hj in E.
  by rewrite (presolve_without _ _ _ _ _ (rm_dirent _ _ _ Hrm) (rm_view _ _ _ Hrm) Hid _ _ _ _ E).
Qed.

Lemma removed_other d d' i p q j b : fs_inv d → removed d d' i → ID i ≠ "1" → inode_at d (ID i) = Some i →
  Type_ i ≠ "symlink" → (Type_ i = "dir" → has_live_child d (ID i) = false) →
  lookup_path d true p = Ok (q, j) → ID j ≠ ID i → cat_at d p = Ok b → cat_at d' p = Ok b.
Proof.
  intros Hinv Hrm Hid Hi Hns Hch Hl Hj. unfold cat_at. rewrite Hl.
  pose proof (lookup_path_inode _ _ _ _ _ Hl) as Hjd. unfold lookup_path, resolved_at in Hl |- *.
  destruct (presolve (dirent d) _ _ _ _) as [[ws id]|] eqn:E; [|done].
  destruct (inode_at d id) as [k|] eqn:Ek; [|done]. injection Hl as <- ->.
  pose proof (inode_at_ID _ _ _ Ek) as Eid. rewrite Eid in *.
  rewrite (presolve_other _ _ _ _ _ (rm_dirent _ _ _ Hrm) (rm_view _ _ _ Hrm) Hid) with (ws := ws) (i := id); try done.
  - case_bool_decide as Hty; [|done]. cbn [negb].
    assert (id ≠ Parent i) as Hnp.
    { intros E2. destruct (live_entry _ _ _ Hinv Hid Hi) as [_ Hd]. rewrite <- E2 in Hd.
      rewrite (proj1 (inode_at_fields _ _ _ Hjd)) in Hd. congruence. }
    destruct (rm_others _ _ _ Hrm id Hj) as [Hc Hio]. specialize (Hio Hnp).
    assert (inode_at d' id = Some j) as -> by (unfold inode_at; rewrite Hio; exact Hjd).
    rewrite bool_decide_eq_true_2 by done. cbn [negb]. rewrite Eid. by rewrite (content_at_other d d').
  - intros n. destruct (dirent d (ID i) n) as [c|] eqn:Ec; [|done]. exfalso.
    destruct (entry_dir _ _ _ _ Hinv Ec) as [Ht _]. rewrite (proj1 (inode_at_fields _ _ _ Hi)) in Ht. injection Ht as Ht.
    destruct (dirent_node _ _ _ _ Hinv Ec) as (Hc1 & hc & Hhc & Ep & _).
    by destruct (no_live_child _ _ Hinv (Hch Ht) _ _ (static_lookup _ _ _ Hhc) Hc1).
  - intros t. unfold view. rewrite Hi. simpl. congruence.
Qed.

Lemma found_is_entry d p q i : fs_inv d → normalizePath p ≠ "/" → lookup_path d false p = Ok (q, i) → ID i ≠ "1".
Proof.
  intros Hinv Hne H. unfold lookup_path, resolved_at in H.
  destruct (presolve (dirent d) _ _ _ _) as [[ws id]|] eqn:E; [|done].
  destruct (inode_at d id) as [k|] eqn:Ek; [|done]. injection H as _ <-. rewrite (inode_at_ID _ _ _ Ek).
  apply presolve_entry in E as (dir & name & Hd); [by apply (dirent_node _ _ _ _ Hinv Hd)|].
  intros En. destruct (normalizePath_abs p) as (ws' & Hv & Ew). rewrite Ew, splitComponents_abs in En by done.
  by rewrite Ew, En in Hne.
Qed.

Lemma run_Rm ctx p w q i : unconditional ctx → admitted ctx (w_db w) → w_inv w → normalizePath p ≠ "/" →
  lookup_path (w_db w) false p = Ok (q, i) → removable (w_db w) i →
  if bool_decide (Type_ i = "dir") && has_live_child (w_db w) (ID i)
  then ∃ w', Rm ctx p w = (Err ErrDirNotEmpty, w') ∧ w_db w' = w_db w
  else ∃ d', does (Rm ctx p) w () d' 1 ∧ removed (w_db w) d' i.
Proof.
  intros Huc Ha Hw Hne Hl Hrm.
  pose proof (reads_resolvePath Hsolo ctx (w_db w) (normalizePath p) false Ha (root_present _ Hw)) as Hres.
  assert (lookup_path (w_db w) false (normalizePath p) = Ok (q, i)) as Hl'.
  { rewrite <- Hl. unfold lookup_path. by rewrite normalizePath_idem. }
  rewrite Hl' in Hres. destruct (Hres w eq_refl) as [t Et].
  pose proof (run_delete ctx q i (later t w) Huc Ha (w_inv_later _ _ Hw) (lookup_path_inode _ _ _ _ _ Hl)
                (found_is_entry _ _ _ _ (wi_fs _ Hw) Hne Hl) Hrm) as Hd.
  unfold Rm. cbv zeta. rewrite (bool_decide_eq_false_2 (normalizePath p = "/")) by done.
  cbn [w_db later] in Hd. destruct (bool_decide (Type_ i = "dir") && has_live_child (w_db w) (ID i)).
  - destruct Hd as (w' & Ed & Hw'). exists w'. unfold bindM at 1 2. rewrite Et. cbn [fst snd]. by rewrite Ed.
  - destruct Hd as (d' & Hd & Hr). exists d'. split; [|done]. replace 1 with (0 + (1 + (0 + 0))) by done.
    eapply does_after; [exact Et|simpl; lia|done|]. cbn [fst snd].
    eapply does_bind; [exact Hd|]. intros w2 H2 _ _.
    eapply does_bind; [apply (does_publishInvalidate Hsolo)|]. intros w3 H3 _ _.
    eapply does_agrees; [etrans; [exact H2|exact H3]|]. apply (does_publishInvalidate Hsolo).
Qed.

End Remove.

(** * Property: removal *)

Lemma removed_admitted {arr} ctx (d d' : db arr) i :
  removed d d' i → ID i ≠ "1" → admitted ctx d → inode_at d "1" ≠ None → admitted ctx d' ∧ inode_at d' "1" ≠ None.
Proof.
  intros Hrm Hid Ha Hr. split; [unfold admitted; by rewrite (rm_gen _ _ _ Hrm), (rm_leases _ _ _ Hrm)|].
  pose proof (rm_view _ _ _ Hrm "1") as Hv. rewrite decide_False in Hv by done. unfold view in Hv.
  by destruct (inode_at d "1"), (inode_at d' "1").
Qed.

(** C23: removal, on every branch.  The root is refused; a path that does not
    resolve gives the error of the resolution; a directory with an entry is
    refused and the state stays as it is; everything else is removed: [Rm]
    succeeds, the path no longer exists, and unless it was a link every file
    under another inode is read as before. *)
Theorem rm_outcomes {arr} {RA : RedisArray arr} {P : Params arr} {FT : FreshTokens P} ctx p (w : world arr) :
  solo → unconditional ctx → w_inv w → admitted ctx (w_db w) →
  let r := Rm ctx p w in
  (normalizePath p = "/" → r.1 = Err ErrCannotRemoveRoot ∧ w_db r.2 = w_db w) ∧
  (normalizePath p ≠ "/" →
   match (resolvePath ctx p false w).1 with
   | Err e => r.1 = Err e ∧ w_db r.2 = w_db w
   | Ok (q, i) =>
       removable (w_db w) i →
       if bool_decide (Type_ i = "dir") && has_live_child (w_db w) (ID i)
       then r.1 = Err ErrDirNotEmpty ∧ w_db r.2 = w_db w
       else r.1 = Ok () ∧ (Stat ctx p r.2).1 = Ok None ∧
            (Type_ i ≠ "symlink" → ∀ p' q' j b, (resolvePath ctx p' true w).1 = Ok (q', j) → ID j ≠ ID i →
               (Cat ctx p' w).1 = Ok b → (Cat ctx p' r.2).1 = Ok b)
   end).
Proof.
  intros Hsolo Huc Hw Ha r. destruct (reads_here ctx w Hsolo Hw Ha) as (Hrd & Hcd & _). split.
  { intros E. unfold r, Rm. cbv zeta. by rewrite bool_decide_eq_true_2. }
  intros Hne. rewrite Hrd. destruct (lookup_path (w_db w) false p) as [[q i]|e] eqn:El.
  - intros Hrm. pose proof (run_Rm Hsolo ctx p w q i Huc Ha Hw Hne El Hrm) as H.
    pose proof (found_is_entry _ _ _ _ (wi_fs _ Hw) Hne El) as Hid.
    destruct (bool_decide (Type_ i = "dir") && has_live_child (w_db w) (ID i)) eqn:Ed.
    + destruct H as (w' & E & Hw'). unfold r. by rewrite E.
    + destruct H as (d' & Hdo & Hr).
      destruct (removed_admitted ctx _ _ _ Hr Hid Ha (root_present _ Hw)) as [Ha' Hr1].
      destruct (reads_after _ ctx w () d' 1 Hsolo Hdo Ha' Hr1) as (H1 & _ & Hcd' & Hst'). fold r in H1, Hcd', Hst'.
      split_and!; [done| |].
      * by rewrite Hst', (removed_lookup _ _ _ _ _ _ _ Hr Hid El eq_refl).
      * intros Hns p' q' j b. rewrite Hrd, Hcd, Hcd'. intros Hl' Hj Hb.
        eapply removed_other; try done; [apply Hw|by eapply lookup_path_inode|].
        intros Hd. by rewrite bool_decide_eq_true_2 in Ed.
  - destruct (reads_resolvePath Hsolo ctx (w_db w) (normalizePath p) false Ha (root_present _ Hw) w eq_refl) as [t Et].
    unfold lookup_path in Et, El. rewrite normalizePath_idem, El in Et.
    unfold r, Rm. cbv zeta. rewrite (bool_decide_eq_false_2 (normalizePath p = "/")) by done.
    unfold bindM. by rewrite Et.
Qed.
