(* ===== verification/FsProps.v ===== *)
(** Properties of the filesystem client and its publication scripts.

    The first group quantifies over every program of client operations, every
    state and every behaviour of the other clients that FsInv allows; the class
    [Rely] of FsInv is discharged here for an environment in which another
    client runs arbitrary operations between any two commands.  The second
    group is about single scripts: conditional publication, retries.  The last
    group evaluates concrete runs of [Rename]. *)
From Stdlib Require Import Strings.Byte.
From stdpp Require Import pretty.
From S2P Require Import Prelude Content Paths FsState FsTree FsScripts FsClient FsInv FsOps FsRange FsChunks FsSpec FsSeq FsChunkSeq FsRemove.
#[local] Open Scope string_scope.
#[local] Open Scope list_scope.
#[local] Open Scope Z_scope.

(** * Programs of operations *)

Inductive clientOp :=
| CCreateFile (p : string) (mode : Z) (exclusive : bool)
| CTouch (p : string)
| CMkdirMode (p : string) (mode : Z)
| CRm (p : string)
| CLn (target p : string)
| CChmod (p : string) (mode : Z)
| CChown (p : string) (uid gid : Z)
| CUtimens (p : string) (atime mtime : Z)
| CSetAttrs (p : string) (upd : AttrUpdate)
| CEcho (p : string) (data : bytes)
| CEchoAppend (p : string) (data : bytes)
| CEchoCreate (p : string) (data : bytes) (mode : Z)
| CTruncate (p : string) (size : Z)
| CCat (p : string)
| CStat (p : string)
| CWriteInodeAt (inode : Z) (data : bytes) (off : Z)
| CTruncateInode (inode size : Z)
| CWriteChunks (p : string) (chunks : gmap Z bytes) (chunkSize newSize : Z) (hashes : list string)
| CReadChunks (p : string) (indices : list Z) (chunkSize : Z)
| CChunkMeta (p : string)
| CLsLong (p : string).

Section Runs.
Context {arr : Type} {RA : RedisArray arr}.

Definition ignore {A} (m : M arr A) : M arr () := bindM m (λ _, ret ()).

Definition run_op {P : Params arr} (ctx : Ctx) (op : clientOp) : M arr () :=
  match op with
  | CCreateFile p mode excl => ignore (CreateFile ctx p mode excl)
  | CTouch p => Touch ctx p
  | CMkdirMode p mode => MkdirMode ctx p mode
  | CRm p => Rm ctx p
  | CLn target p => Ln ctx target p
  | CChmod p mode => Chmod ctx p mode
  | CChown p uid gid => Chown ctx p uid gid
  | CUtimens p a m => Utimens ctx p a m
  | CSetAttrs p upd => SetAttrs ctx p upd
  | CEcho p data => writeFile ctx p data false
  | CEchoAppend p data => writeFile ctx p data true
  | CEchoCreate p data mode => writeFileWithMode ctx p data mode
  | CTruncate p size => Truncate ctx p size
  | CCat p => ignore (Cat ctx p)
  | CStat p => ignore (Stat ctx p)
  | CWriteInodeAt inode data off => WriteInodeAtPath ctx inode data off
  | CTruncateInode inode size => TruncateInodeAtPath ctx inode size
  | CWriteChunks p chunks cs n hashes => WriteChunks ctx p chunks cs n hashes
  | CReadChunks p l cs => ignore (ReadChunks ctx p l cs)
  | CChunkMeta p => ignore (ChunkMeta ctx p)
  | CLsLong p => ignore (LsLong ctx p)
  end.

(** A client issues one operation after the other; an error does not stop it. *)
Definition run_ops {P : Params arr} (ops : list (Ctx * clientOp)) (w : world arr) : world arr :=
  foldl (λ w co, (run_op co.1 co.2 w).2) w ops.

Section WithRely.
Context {P : Params arr} {FT : FreshTokens P} {RL : Rely}.

Lemma p_ignore {A} (m : M arr A) : preserves m → preserves (ignore m).
Proof. intros H. apply preserves_then; [done|]. intros a. apply preserves_ret. Qed.

Lemma p_run_op ctx op : preserves (run_op ctx op).
Proof.
  destruct op; simpl; try apply p_ignore.
  - apply p_CreateFile.
  - apply p_Touch.
  - apply p_MkdirMode.
  - apply p_Rm.
  - apply p_Ln.
  - apply p_Chmod.
  - apply p_Chown.
  - apply p_Utimens.
  - apply p_SetAttrs.
  - apply p_writeFile.
  - apply p_writeFile.
  - apply p_writeFileWithMode.
  - apply p_Truncate.
  - apply p_Cat.
  - unfold Stat. apply preserves_try; [apply p_resolvePath|]. intros [[q i]|[]];
      (apply preserves_ret || apply preserves_fail).
  - apply p_WriteInodeAtPath.
  - apply p_TruncateInodeAtPath.
  - apply p_WriteChunks.
  - apply p_ReadChunks.
  - apply p_ChunkMeta.
  - apply p_LsLong.
Qed.

Lemma run_op_step ctx op (w : world arr) :
  w_inv w → w_inv (run_op ctx op w).2 ∧ ext w (run_op ctx op w).2.
Proof.
  intros Hw. pose proof (p_run_op ctx op w Hw I) as H. destruct (run_op ctx op w) as [r w'].
  destruct H as (? & ? & _). done.
Qed.

Lemma run_ops_steps ops : ∀ w : world arr, w_inv w → w_inv (run_ops ops w) ∧ ext w (run_ops ops w).
Proof.
  unfold run_ops. induction ops as [|[ctx op] ops IH]; intros w Hw; simpl; [done|].
  destruct (run_op_step ctx op w Hw) as [Hw' He]. destruct (IH _ Hw') as [? ?].
  split; [done|by etrans].
Qed.

End WithRely.

(** * A second client as the environment *)

(** The view of another client on the same server: it owns nothing yet. *)
Definition as_other (w : world arr) : world arr := World (w_db w) (w_tok w) (w_tick w) ∅ ∅ (w_now w).

(** After the other client has run, this client's own bookkeeping is restored. *)
Definition back (w w' : world arr) : world arr :=
  World (w_db w') (w_tok w') (w_tick w) (w_owned w) (w_resv w) (w_now w').

(** Before each command of this client the other one, with parameters [P0], runs
    the operations its schedule has for that moment. *)
Definition other_client (P0 : Params arr) (schedule : Z → list (Ctx * clientOp)) (w : world arr) : world arr :=
  back w (run_ops (P := P0) (schedule (w_tick w)) (as_other w)).

Lemma solo_rely (P0 : Params arr) {FT0 : FreshTokens P0} : solo → @Rely arr P0.
Proof. intros Hs w Hw. by rewrite Hs. Qed.

(** What a solo run of another client means for us. *)
Lemma other_step (P0 : Params arr) {FT0 : FreshTokens P0} (w w1 : world arr) :
  @solo arr P0 → @w_inv arr P0 w → @w_inv arr P0 w1 → @ext arr P0 (as_other w) w1 →
  @w_inv arr P0 (back w w1) ∧
  ∀ (P : Params arr), @tok arr P = @tok arr P0 → (@solo arr P → back w w1 = w) →
    @soft arr P w (back w w1).
Proof.
  intros Hsolo Hw Hw1 [EU ES EP]. specialize (EP Hsolo). destruct EP as [PN PO PA].
  assert (∀ r, used (P := P0) w r → used (P := P0) (as_other w) r) as Hu0.
  { intros r [Hr _]. split; [done|]. simpl. set_solver. }
  assert (∀ id h, inodes (w_db w1) !! id = Some h → h_revision h ∉ w_resv w) as Hnr.
  { intros id h Hh Hr. destruct (wi_resv _ Hw _ Hr) as (Hne & k & Hk & Ek).
    destruct (ES id h Hh) as (h0 & Hh0 & E & _).
    { split; [right; eauto|simpl; set_solver]. }
    destruct (wi_revs _ Hw id h0 Hh0) as [_ Hn]. rewrite E in Hn. done. }
  assert (∀ k, k < w_tok w → ∃ k', k' < w_tok w1 ∧ @tok arr P0 k = @tok arr P0 k') as Htok.
  { intros k Hk. destruct (EU (@tok arr P0 k)) as [[E|(k' & ? & ?)] _]; [|by destruct (tok_nonempty k)|eauto].
    split; [right; eauto|simpl; set_solver]. }
  assert (∀ r, used (P := P0) w r → used (P := P0) (back w w1) r) as Hu.
  { intros r [Hr Hn]. split; [|done]. destruct Hr as [->|(k & Hk & ->)]; [by left|right].
    destruct (Htok k Hk) as (k' & ? & ?). eauto. }
  split.
  - destruct Hw1 as [H1 H2 H3 H4 H5]. constructor; simpl; [done|done| | |].
    + intros id h Hh. destruct (H3 id h Hh) as [Hr _]. split; [done|]. by eapply Hnr.
    + intros r Hr. destruct (wi_resv _ Hw r Hr) as (? & k & Hk & ->). split; [done|].
      destruct (Htok k Hk) as (k' & ? & ?). eauto.
    + intros id Hid. destruct (wi_owned _ Hw id Hid) as (k & n & -> & Hk & Hn).
      destruct (PN n Hn) as (n' & Hn' & ?). exists k, n'. split_and!; [done|lia|lia|done].
  - intros P Et HP. assert (∀ x r, @used arr P x r ↔ @used arr P0 x r) as Heq
      by (intros x r; unfold used; by rewrite Et).
    constructor; simpl; [|done|done|done|].
    + constructor; [intros r; rewrite !Heq; auto| |].
      * intros id h' Hh' Hus. rewrite Heq in Hus. by apply (ES id h' Hh'), Hu0.
      * intros Hs. by rewrite (HP Hs).
    + intros id Hid Hno. apply PA; [by apply (wi_owned _ Hw)|set_solver|done].
Qed.

Lemma as_other_inv (P0 : Params arr) (w : world arr) : @w_inv arr P0 w → @w_inv arr P0 (as_other w).
Proof.
  intros [H1 H2 H3 H4 H5]. constructor; simpl; [done|done| |set_solver|set_solver].
  intros id h Hh. destruct (H3 id h Hh). split; [done|]. simpl. set_solver.
Qed.

(** The parameters of a client whose environment is [e]; identities come from the
    same supply. *)
Definition with_env (P0 : Params arr) (e : world arr → world arr) (name : string) : Params arr :=
  {| tok := @tok arr P0; env := e; aborts := @aborts arr P0; throttled := @throttled arr P0;
     arrays := @arrays arr P0; origin := name; publishDisabled := @publishDisabled arr P0 |}.

#[export] Instance with_env_tokens P0 e name {FT0 : FreshTokens P0} : FreshTokens (with_env P0 e name).
Proof. destruct FT0. by constructor. Qed.

Lemma with_env_inv (P0 : Params arr) e name (w : world arr) :
  @w_inv arr P0 w → @w_inv arr (with_env P0 e name) w.
Proof. by intros []. Qed.

(** A client that does not know of others, as the environment of this one. *)
Lemma other_client_rely (P0 : Params arr) {FT0 : FreshTokens P0} schedule name :
  @solo arr P0 → @Rely arr (with_env P0 (other_client P0 schedule) name).
Proof.
  intros Hsolo w Hw. simpl.
  assert (@w_inv arr P0 w) as Hw0 by by destruct Hw.
  pose proof (solo_rely P0 Hsolo) as RL0.
  destruct (run_ops_steps (P := P0) (RL := RL0) (schedule (w_tick w)) _ (as_other_inv P0 w Hw0)) as [Hw1 He].
  destruct (other_step P0 w _ Hsolo Hw0 Hw1 He) as [Hb Hs]. split; [by destruct Hb|].
  apply (Hs (with_env P0 (other_client P0 schedule) name)); [done|].
  intros Hs'. apply (Hs' w).
Qed.

End Runs.

(** * A concrete server *)

Definition root_inode : inodeHash := foldl hset1 emptyHash (rootHash 0).

(** A workspace that holds nothing but its root. *)
Definition root_db {arr} : db arr :=
  Db {[ "1" := root_inode ]} ∅ ∅ ∅ (InfoHash 0 1 0 0) (Some 1) false (Some []) (Some "g1") ∅.

Definition root_world {arr} : world arr := World root_db 0 0 ∅ ∅ 1000.

(** A client alone, over finite maps as arrays. *)
Definition solo_params : Params (gmap Z bytes) := {|
  tok n := "t" +:+ pretty n; env w := w; aborts _ := false; throttled _ := false;
  arrays := true; origin := "solo"; publishDisabled := false
|}.

Lemma solo_tok_inj n m : @tok _ solo_params n = @tok _ solo_params m → n = m.
Proof. simpl. intros E. apply (string_app_inj_l "t") in E. by apply (inj pretty) in E. Qed.

#[export] Instance solo_tokens : FreshTokens solo_params.
Proof. split; [apply solo_tok_inj|done]. Qed.

Lemma solo_is_solo : @solo _ solo_params.
Proof. by intros w. Qed.

Lemma root_fs_inv {arr} : fs_inv (root_db : db arr).
Proof.
  assert (∀ id nd, (static <$> inodes (root_db : db arr)) !! id = Some nd →
            id = "1" ∧ nd = Node "" "" (Some "dir") 0) as Hone.
  { intros id nd. simpl. rewrite map_fmap_singleton, lookup_singleton_Some. by intros [<- <-]. }
  assert ((static <$> inodes (root_db : db arr)) !! "1" = Some (Node "" "" (Some "dir") 0)) as Hroot
    by (simpl; by rewrite map_fmap_singleton, lookup_singleton_eq).
  constructor.
  - constructor.
    + eauto.
    + intros dir name id. split; [done|]. intros (Hid & nd & [-> _]%Hone & _). done.
    + by intros id nd [-> _]%Hone.
    + intros id nd [_ ->]%Hone. unfold known_type. simpl. auto.
    + by intros id nd [_ ->]%Hone.
  - intros id [nd [-> _]%Hone]. constructor.
  - simpl. rewrite map_fmap_singleton. constructor; reflexivity.
Qed.

Lemma root_world_inv : @w_inv _ solo_params root_world.
Proof.
  constructor; simpl.
  - apply root_fs_inv.
  - exists 1. split; [done|]. intros id [h Hh]. apply lookup_singleton_Some in Hh as [<- _].
    exists 1. split; [done|lia].
  - intros id h Hh. apply lookup_singleton_Some in Hh as [_ <-]. split; [by left|set_solver].
  - set_solver.
  - set_solver.
Qed.

(** The context of an unmanaged client without conditions. *)
Definition plain : Ctx := Ctx_ None "" false None ∅ false.

(** * Properties: programs under interference *)

(** C11: whatever the other clients do between its commands, as long as they keep
    the invariant and the promise of FsInv, a client that runs any sequence of
    its operations other than Rename (with any contexts, failing or not; for Rename see
    [rename_through_link_destroys_file]) keeps the workspace sound: the directory hashes are exactly the index of the inodes,
    every inode hangs from a live directory and reaches the root, the
    accounting hash counts the inodes by type and the bytes of all files; and
    whatever a reader knew of an inode stays true while its revision does. *)
Theorem client_programs_keep_workspace {arr} {RA : RedisArray arr} {P : Params arr}
    {FT : FreshTokens P} {RL : Rely} (ops : list (Ctx * clientOp)) (w : world arr) :
  w_inv w →
  w_inv (run_ops ops w) ∧ fs_inv (w_db (run_ops ops w)) ∧ ∀ o, obs o w → obs o (run_ops ops w).
Proof.
  intros Hw. destruct (run_ops_steps ops w Hw) as [Hw' He].
  split_and!; [done|apply Hw'|]. intros o. by apply obs_ext.
Qed.

Definition demo_ops : list (Ctx * clientOp) :=
  [(plain, CMkdirMode "/a/b" 493); (plain, CEcho "/a/f" [x01; x02]); (plain, CLn "/a" "/l");
   (plain, CTruncate "/l/f" 1);
   (plain, CWriteInodeAt 5 [x05] (-1)); (plain, CRm "/a/b")].

Definition demo_other (tick : Z) : list (Ctx * clientOp) :=
  if tick =? 20 then [(plain, CEchoCreate "/o" [x03] 420)] else [].

Lemma client_programs_keep_workspace_witness :
  let P := with_env solo_params (other_client solo_params demo_other) "me" in
  info (w_db (run_ops (P := P) demo_ops root_world)) = InfoHash 2 2 1 3 ∧
  fs_inv (w_db (run_ops (P := P) demo_ops root_world)).
Proof.
  intros P. split; [vm_compute; reflexivity|].
  apply (client_programs_keep_workspace (P := P)
           (RL := other_client_rely solo_params demo_other "me" solo_is_solo) demo_ops root_world).
  apply with_env_inv, root_world_inv.
Defined.

(** Two clients of one workspace interleaved command by command: between any
    two commands of the first one the second one runs any operations, and the
    workspace stays sound throughout, starting from a new workspace. *)
Theorem two_clients_keep_workspace (schedule : Z → list (Ctx * clientOp)) (ops : list (Ctx * clientOp)) :
  fs_inv (w_db (run_ops (P := with_env solo_params (other_client solo_params schedule) "me")
                 ops root_world)).
Proof.
  pose proof (other_client_rely solo_params schedule "me" solo_is_solo) as RL.
  eapply wi_fs, (run_ops_steps (RL := RL)).
  apply with_env_inv, root_world_inv.
Qed.

(** * Properties: publications *)

Section Publications.
Context {arr : Type}.
Implicit Types d : db arr.

Lemma guard_codes g d c : guard g d = Some c → c = -2 ∨ c = -5.
Proof. unfold guard. intros. repeat case_match; simplify_eq; auto. Qed.

Lemma guard_same g d d' : generation d' = generation d → leases d' = leases d → guard g d' = guard g d.
Proof. intros E1 E2. unfold guard. by rewrite E1, E2. Qed.

(** What a publication over a file finds when it may replace it. *)
Record publishable (a : publishArgs) d : Prop := {
  pb_guard : guard (p_guard a) d = None;
  pb_revision : revision_of d (p_id a) = p_expected a;
  pb_linked : dirent d (p_parent a) (p_name a) = Some (p_id a);
  pb_inode : inodes d !! p_id a ≠ None;
  pb_new : p_expected a ≠ p_revision a;
  pb_parent : type_of d (p_parent a) = Some "dir";
  pb_journal : changes d ≠ None;
  pb_staged : is_Some (stages d !! p_stage a)
}.

Lemma publish_exactly (a : publishArgs) d code d' :
  p_create a = false → publishFileScript a d = Ok (code, d') → code = 1 ↔ publishable a d.
Proof.
  intros Hc Hs. unfold publishFileScript in Hs. rewrite Hc in Hs. split.
  - intros ->. destruct (guard (p_guard a) d) as [c|] eqn:Hg; [simplify_eq; by destruct (guard_codes _ _ _ Hg)|].
    cbv zeta in Hs. destruct (_ && _) eqn:E1 in Hs; [done|]. case_bool_decide as Hj; [done|]. case_bool_decide as Hp; [done|].
    destruct (_ || _) eqn:E2 in Hs; [done|]. rewrite !orb_false_iff, !bool_decide_eq_false in E2. destruct E2 as ((E2 & E3) & E4).
    destruct (stages d !! p_stage a) eqn:Es; [|done]. destruct (bool_decide_reflect (type_of d (p_parent a) = Some "dir")); [|done].
    apply dec_stable in E2, E3. rewrite andb_false_iff, !bool_decide_eq_false in E1.
    split; try done. destruct E1; congruence.
  - intros [Hg Hr Hl Hi Hn Hp Hj [staged Hst]]. rewrite Hg, Hr, Hl, Hst, Hp in Hs. cbv zeta in Hs.
    rewrite (bool_decide_eq_false_2 (_ = p_revision a)), (bool_decide_eq_false_2 (changes d = None)) in Hs by done.
    rewrite (bool_decide_eq_false_2 (inodes d !! p_parent a = None)) in Hs
      by (unfold type_of in Hp; by destruct (inodes d !! p_parent a)).
    rewrite (bool_decide_eq_false_2 (Some (p_id a) ≠ _)), (bool_decide_eq_false_2 (p_expected a ≠ _)),
      (bool_decide_eq_false_2 (inodes d !! p_id a = None)), (bool_decide_eq_true_2 (Some "dir" = _)) in Hs
      by (done || (intros Hne; apply Hne; reflexivity)).
    cbn [andb orb negb] in Hs. by destruct (negb _) in Hs; simplify_eq.
Qed.

(** C13: publishing new content over a file is an atomic compare and swap.  A command
    that does not fail over a counter out of its bounds commits exactly when the
    generation and the lease are the writer's, the entry still names the inode, in a
    directory, the inode still has the revision the writer saw, which is not the new
    one, the content is staged and there is a journal; then the file has exactly the
    staged content and the new revision, nothing of any other inode's content changes,
    and a transport retry of the same command reports success and changes nothing.
    When another publication came first the command changes nothing at all. *)
Theorem publication_is_compare_and_swap (a : publishArgs) d code d' :
  p_create a = false → publishFileScript a d = Ok (code, d') →
  (code = 1 ↔ publishable a d) ∧
  (code = 1 →
    revision_of d (p_id a) = p_expected a ∧ dirent d (p_parent a) (p_name a) = Some (p_id a) ∧
    revision_of d' (p_id a) = p_revision a ∧
    (∃ staged, stages d !! p_stage a = Some staged ∧
       contents d' !! p_id a = if bool_decide (p_size a = 0) then None else Some staged) ∧
    (∀ id, id ≠ p_id a → contents d' !! id = contents d !! id ∧ inodes d' !! id = inodes d !! id) ∧
    publishFileScript a d' = Ok (2, d')) ∧
  (code ≠ 1 → d' = d) ∧
  (revision_of d (p_id a) ≠ p_expected a → revision_of d (p_id a) ≠ p_revision a → code ≠ 1 ∧ code ≠ 2).
Proof.
  intros Hc Hs. split; [by apply (publish_exactly a d code d')|]. split_and!.
  - intros ->. destruct (publish_commit _ _ _ Hs) as (staged & -> & Hst & Hg & Htp & Hch & Hcase).
    rewrite Hc in Hcase. destruct Hcase as (Hl & Hr & Hex).
    destruct (publish_effects_at a staged d Hc) as (E1 & E2 & E3 & E4 & E5 & E6).
    split_and!; [done|done|by apply revision_after| | |].
    + exists staged. split; [done|]. rewrite E4. case_bool_decide; [apply lookup_delete_eq|apply lookup_insert_eq].
    + intros id Hid. rewrite E1, E4. split.
      * case_bool_decide; [by rewrite lookup_delete_ne|by rewrite lookup_insert_ne].
      * unfold hset. by rewrite lookup_insert_ne.
    + unfold publishFileScript. rewrite (guard_same _ d) by done. rewrite Hg. cbv zeta.
      rewrite revision_after by done.
      assert (dirent (publish_effects a staged d) (p_parent a) (p_name a) = Some (p_id a)) as ->
        by (unfold dirent; by rewrite E2).
      rewrite !bool_decide_eq_true_2 by done. reflexivity.
  - intros Hne. by eapply publish_no_effect.
  - intros H1 H2. split; intros ->.
    + destruct (publish_commit _ _ _ Hs) as (staged & _ & _ & _ & _ & _ & Hcase).
      rewrite Hc in Hcase. by destruct Hcase as (_ & ? & _).
    + unfold publishFileScript in Hs. rewrite Hc in Hs. destruct (guard (p_guard a) d) eqn:Hg.
      * simplify_eq. apply guard_codes in Hg. lia.
      * cbv zeta in Hs. rewrite (bool_decide_eq_false_2 (_ = p_revision a)) in Hs by done.
        cbn [andb] in Hs. repeat (case_match; simplify_eq).
Qed.

(** A retry of a committed creation never brings a deleted file back: once
    the new file has been deleted, the same publication command, sent again,
    changes nothing, because creation consumed its staged content. *)
Theorem deleted_file_not_resurrected (a : publishArgs) (b : deleteArgs) d d1 d2 code d3 :
  p_create a = true → p_revision a ≠ "" → d_id b = p_id a →
  publishFileScript a d = Ok (1, d1) → deleteInodeScript b d1 = Ok (1, d2) →
  d_parent b ≠ p_id a →
  publishFileScript a d2 = Ok (code, d3) → d3 = d2 ∧ code ≠ 1 ∧ code ≠ 2.
Proof.
  intros Hc Hrev Hid H1 H2 Hpar H3.
  destruct (publish_commit _ _ _ H1) as (staged & -> & _).
  apply delete_commit in H2 as (-> & _).
  assert (stages (delete_effects b (type_of (publish_effects a staged d) (d_id b))
    (size_of (publish_effects a staged d) (d_id b)) (publish_effects a staged d)) !! p_stage a = None) as Hst.
  { unfold delete_effects, publish_effects, xadd. rewrite Hc.
    repeat case_match; simpl; apply lookup_delete_eq. }
  assert (revision_of (delete_effects b (type_of (publish_effects a staged d) (d_id b))
    (size_of (publish_effects a staged d) (d_id b)) (publish_effects a staged d)) (p_id a) = "") as Hr.
  { unfold revision_of. assert (∀ m : db arr, inodes m !! p_id a = None → match inodes m !! p_id a with
      Some h => h_revision h | None => "" end = "") as Hn by (intros m E; by rewrite E).
    apply Hn. unfold delete_effects, xadd. rewrite Hid.
    repeat case_match; simpl; unfold hset; rewrite lookup_insert_ne by done; apply lookup_delete_eq. }
  set (d' := delete_effects _ _ _ _) in *. clearbody d'.
  assert (code ≠ 1) as Hc1.
  { intros ->. apply publish_commit in H3 as (s & _ & Hs & _). congruence. }
  split_and!; [by eapply publish_no_effect|done|]. intros ->.
  unfold publishFileScript in H3. destruct (guard (p_guard a) d') eqn:Hg.
  - simplify_eq. apply guard_codes in Hg. lia.
  - cbv zeta in H3. rewrite Hr, (bool_decide_eq_false_2 ("" = p_revision a)) in H3 by done.
    cbn [andb] in H3. repeat (case_match; simplify_eq).
Qed.

(** C15: the rename script keeps the workspace sound when the destination
    directory does not lie below the moved inode and the entry it replaces, if
    any, is another inode without children. *)
Theorem rename_script_keeps_workspace (a : renameArgs) d d' :
  fs_inv d → renameMetadataScript a d = Ok (1, d') →
  ¬ below (static <$> inodes d) (r_id a) (r_newParent a) →
  (∀ l, dirent d (r_newParent a) (r_newName a) = Some l →
     l ≠ r_id a ∧ childless (static <$> inodes d) l) →
  fs_inv d' ∧ dirent d' (r_newParent a) (r_newName a) = Some (r_id a).
Proof.
  intros Hinv Hs Hnb Hrep. split; [by eapply rename_inv|].
  assert (fs_inv d') as Hinv' by by eapply rename_inv.
  destruct (rename_commit _ _ _ Hs) as (Hlink & _ & (ho & Hho & _)%type_of_static &
    (hn & Hhn & _)%type_of_static & Hcase).
  destruct (dirent_node _ _ _ _ Hinv Hlink) as (Hid & h & Hh & _).
  destruct (rename_move_view a d h Hinv Hlink ltac:(by eauto) ltac:(by eauto) Hh) as (_ & HL & _).
  assert (dirent (rename_move a d) (r_newParent a) (r_newName a) = Some (r_id a)) as Hm.
  { change (lk (dirents (rename_move a d)) (r_newParent a) (r_newName a) = Some (r_id a)).
    rewrite HL. by rewrite decide_True. }
  destruct (dirent d (r_newParent a) (r_newName a)) as [l|] eqn:El.
  - destruct Hcase as (_ & hl & Hhl & _ & ->). destruct (Hrep l eq_refl) as [Hlid Hcl].
    destruct (dirent_node _ _ _ _ Hinv El) as (_ & hl' & Hhl' & Epl & _). rewrite Hhl in Hhl'. injection Hhl' as <-.
    assert (r_newParent a ≠ l) as Hne.
    { rewrite <- Epl. apply (Hcl _ _ (static_lookup _ _ _ Hhl)). by destruct (dirent_node _ _ _ _ Hinv El). }
    assert (∀ x : db arr, dirents x = delete l (dirents (rename_move a d)) →
      dirent x (r_newParent a) (r_newName a) = Some (r_id a)) as Hdel.
    { intros x Hx. unfold dirent in *. rewrite Hx, lookup_delete_ne; done. }
    apply Hdel. unfold rename_drop, xadd. by repeat case_match.
  - destruct Hcase as [_ ->]. unfold dirent, xadd in *. by case_match.
Qed.

End Publications.

(** ** Witnesses *)

Definition demo_world : world (gmap Z bytes) :=
  run_ops (P := solo_params) [(plain, CEcho "/f" [x01; x02])] root_world.

Definition demo_inode : inodeData :=
  InodeData (revision_of (w_db demo_world) "2") "2" "1" "f" "file" 420 0 0 1 0 0 0 "" [x07] "array".

Definition demo_db : db (gmap Z bytes) :=
  with_stages (<["st" := QueueWriteFull "array" [x07]]>) (w_db demo_world).

Definition demo_publish (creating : bool) : publishArgs :=
  publishArgsOf (params := solo_params) plain "/f" demo_inode "st" "r9" creating [].

Definition result_db (r : result scriptError (Z * db (gmap Z bytes))) : db (gmap Z bytes) :=
  match r with Ok (_, d) => d | Err _ => root_db end.

Definition demo_published := result_db (publishFileScript (demo_publish false) demo_db).

Lemma publication_is_compare_and_swap_witness :
  publishFileScript (demo_publish false) demo_db = Ok (1, demo_published) ∧
  revision_of demo_published "2" = "r9" ∧
  publishFileScript (demo_publish false) demo_published = Ok (2, demo_published).
Proof.
  assert (publishFileScript (demo_publish false) demo_db = Ok (1, demo_published)) as H
    by (vm_compute; reflexivity).
  destruct (proj1 (proj2 (publication_is_compare_and_swap (demo_publish false) demo_db 1 demo_published
                     eq_refl H)) eq_refl) as (_ & _ & Hr & _ & _ & Hagain).
  split; [exact H|split; [exact Hr|exact Hagain]].
Defined.

Definition demo_new : publishArgs :=
  publishArgsOf (params := solo_params) plain "/g"
    (InodeData "" "3" "1" "g" "file" 420 0 0 1 0 0 0 "" [x07] "array") "st" "r9" true [].
Definition demo_created := result_db (publishFileScript demo_new demo_db).
Definition demo_delete : deleteArgs := DeleteArgs (guardOf plain) "3" "g" "r9" 5 None "1".
Definition demo_deleted := result_db (deleteInodeScript demo_delete demo_created).

Lemma deleted_file_not_resurrected_witness :
  publishFileScript demo_new demo_deleted = Ok (-3, demo_deleted) ∧ demo_deleted = demo_deleted.
Proof.
  assert (publishFileScript demo_new demo_deleted = Ok (-3, demo_deleted)) as H by (vm_compute; reflexivity).
  split; [exact H|].
  refine (proj1 (deleted_file_not_resurrected demo_new demo_delete demo_db demo_created demo_deleted
                   (-3) demo_deleted eq_refl _ eq_refl _ _ _ H)).
  - discriminate.
  - vm_compute. reflexivity.
  - vm_compute. reflexivity.
  - discriminate.
Defined.

Definition demo_rename : renameArgs :=
  RenameArgs "2" "f" "g" "1" (revision_of (w_db demo_world) "2") "r9" 5 None "" "" "/g" "/g" "1".
Definition demo_renamed := result_db (renameMetadataScript demo_rename (w_db demo_world)).

Lemma rename_script_keeps_workspace_witness :
  fs_inv demo_renamed ∧ dirent demo_renamed "1" "g" = Some "2".
Proof.
  apply (rename_script_keeps_workspace demo_rename (w_db demo_world) demo_renamed).
  - eapply wi_fs, (run_ops_steps (P := solo_params) (RL := solo_rely solo_params solo_is_solo)).
    apply root_world_inv.
  - vm_compute. reflexivity.
  - intros Hb. inversion Hb as [|id nd Hl Hne Hb']; by apply Hne.
  - intros l Hl. vm_compute in Hl. discriminate.
Defined.

(** ** Witnesses for the handle operations of FsRange *)

Lemma inode_path_exact_witness :
  inodePathScript (guardOf plain) "2" (w_db demo_world) = PathText "/f" ∧
  walk_ids (w_db demo_world) "1" ["f"] = Some "2".
Proof.
  destruct (inode_path_exact (guardOf plain) "2" (w_db demo_world)) as (parts & H1 & H2 & H3).
  - vm_compute. reflexivity.
  - eapply wi_fs, (run_ops_steps (P := solo_params) (RL := solo_rely solo_params solo_is_solo)).
    apply root_world_inv.
  - vm_compute. by eexists.
  - intros n Hn. inversion Hn as [|id m h Hid Hh Hm]; subst. vm_compute in Hh. injection Hh as <-.
    inversion Hm as [|id m' h Hid' _ _]; subst; [lia|]. by destruct Hid'.
  - split; vm_compute; reflexivity.
Defined.

Definition demo_file : inodeData :=
  match (loadInodeByID (params := solo_params) "2" demo_world).1 with Ok (Some i) => i | _ => demo_inode end.

Lemma demo_holds_data : holds_data (P := solo_params) (w_db demo_world) demo_file [x01; x02].
Proof.
  split; [vm_compute; reflexivity|split; [vm_compute; reflexivity|]].
  replace (ContentRef demo_file) with RefArray by (vm_compute; reflexivity). simpl.
  replace (contentCell (w_db demo_world) (ID demo_file))
    with (QueueWriteFull RefArray [x01; x02] : cell (gmap Z bytes)) by (vm_compute; reflexivity).
  split; [by right|]. split; [apply QueueWriteFull_repr; reflexivity|by vm_compute].
Qed.

(** Writing two bytes at offset 4 of the two-byte file leaves a gap of zeros. *)
Lemma range_stage_is_flat_change_witness :
  Load true (stageCell (w_db (stageInodeRange (params := solo_params) demo_file [x07; x08] 4 6 demo_world).2)
               (stageKey (ID demo_file) (@tok _ solo_params (w_tok demo_world)))) RefArray 6 =
    Ok [x01; x02; x00; x00; x07; x08].
Proof.
  destruct (range_stage_is_flat_change (P := solo_params) (w_db demo_world) demo_file [x01; x02] [x07; x08]
              4 6 demo_world) as (c & _ & Hd & Hc).
  - apply solo_is_solo.
  - reflexivity.
  - vm_compute. discriminate.
  - apply demo_holds_data.
  - vm_compute. reflexivity.
  - vm_compute. repeat split; discriminate.
  - rewrite Hd, stageCell_put. eapply Load_repr; [reflexivity|unfold MaxArraySize, max_int64, ArrayChunkBytes; lia|].
    replace (ContentRef (selectContentRef demo_file)) with RefArray in Hc by (vm_compute; reflexivity).
    exact Hc.
Defined.

(** ** Witnesses for the sequential properties of FsSeq, FsChunkSeq and FsRemove *)

Lemma demo_world_inv : w_inv (P := solo_params) demo_world.
Proof. eapply (run_ops_steps (P := solo_params) (RL := solo_rely solo_params solo_is_solo)), root_world_inv. Qed.

Lemma plain_unconditional : unconditional plain.
Proof. done. Qed.

Lemma plain_admitted {arr} (d : db arr) : admitted plain d.
Proof. split; [done|by left]. Qed.

Lemma demo_room growth : 0 ≤ growth < 1000 → has_room (w_db demo_world) growth.
Proof.
  intros H. split; [by vm_compute|]. split; [by vm_compute|].
  assert (info (w_db demo_world) = InfoHash 1 1 0 2) as E by (vm_compute; reflexivity).
  unfold publication_counter, info_get. rewrite E. simpl. lia.
Qed.

(** A second chunk of one byte appended to the two-byte file. *)
Lemma write_chunks_then_read_witness :
  let w := (WriteChunks (params := solo_params) plain "/f" {[1 := [x05]]} 2 3 ["a"; "b"] demo_world).2 in
  (Cat (params := solo_params) plain "/f" w).1 = Ok [x01; x02; x05] ∧
  (ChunkMeta (params := solo_params) plain "/f" w).1 = Ok (2, ["a"; "b"]).
Proof.
  destruct (write_chunks_then_read (P := solo_params) plain "/f" {[1 := [x05]]} 2 3 ["a"; "b"] demo_world "/f" demo_file [x01; x02])
    as (_ & (b & Hc & Hlen & Hget & _) & Hm & _).
  - apply solo_is_solo.
  - apply plain_unconditional.
  - apply demo_world_inv.
  - apply plain_admitted.
  - vm_compute. reflexivity.
  - vm_compute. reflexivity.
  - apply demo_holds_data.
  - constructor; [lia|unfold max_int64; lia|lia| |].
    + intros idx c [<- <-]%lookup_singleton_Some. unfold len. simpl. lia.
    + intros _. exists 1, [x05]. split; [by vm_compute|reflexivity].
  - apply demo_room. vm_compute. done.
  - vm_compute. reflexivity.
  - split; [|apply Hm; [by repeat constructor|done]]. rewrite Hc. f_equal. apply bytes_ext; [by rewrite Hlen|].
    intros j Hj. rewrite Hlen in Hj. rewrite Hget by done.
    assert (j = 0 ∨ j = 1 ∨ j = 2) as [->|[->| ->]] by lia; vm_compute; reflexivity.
Defined.

(** Appending a byte to the two-byte file. *)
Lemma write_file_then_cat_witness :
  (Cat (params := solo_params) plain "/f" (writeFile (params := solo_params) plain "f" [x03] true demo_world).2).1 =
    Ok [x01; x02; x03].
Proof.
  destruct (write_file_then_cat (P := solo_params) plain "f" [x03] true demo_world "/f" demo_file [x01; x02])
    as (_ & Hc & _).
  - apply solo_is_solo.
  - apply plain_unconditional.
  - apply demo_world_inv.
  - apply plain_admitted.
  - vm_compute. reflexivity.
  - vm_compute. reflexivity.
  - right. right. vm_compute. done.
  - vm_compute. reflexivity.
  - apply demo_room. vm_compute. done.
  - exact Hc.
Defined.

(** Creating a second file. *)
Lemma create_file_then_cat_witness :
  (Cat (params := solo_params) plain "/g" (writeFile (params := solo_params) plain "/g" [x03] false demo_world).2).1 =
    Ok [x03] ∧
  (Cat (params := solo_params) plain "/f" (writeFile (params := solo_params) plain "/g" [x03] false demo_world).2).1 =
    Ok [x01; x02].
Proof.
  destruct (create_file_then_cat (P := solo_params) plain "/g" [x03] false demo_world "1") as (_ & Hc & _ & Hf).
  - apply solo_is_solo.
  - apply plain_unconditional.
  - apply demo_world_inv.
  - apply plain_admitted.
  - vm_compute. done.
  - vm_compute. done.
  - vm_compute. reflexivity.
  - apply demo_room. vm_compute. done.
  - split; [exact Hc|]. apply Hf. vm_compute. reflexivity.
Defined.

(** Removing the file, and removing the root. *)
Lemma rm_outcomes_witness :
  (Rm (params := solo_params) plain "/f" demo_world).1 = Ok () ∧
  (Stat (params := solo_params) plain "/f" (Rm (params := solo_params) plain "/f" demo_world).2).1 = Ok None ∧
  (Rm (params := solo_params) plain "/" demo_world).1 = Err ErrCannotRemoveRoot.
Proof.
  destruct (rm_outcomes (P := solo_params) plain "/f" demo_world solo_is_solo
    plain_unconditional demo_world_inv (plain_admitted _)) as [_ Hf].
  destruct (rm_outcomes (P := solo_params) plain "/" demo_world solo_is_solo
    plain_unconditional demo_world_inv (plain_admitted _)) as [Hroot _].
  assert ((resolvePath (params := solo_params) plain "/f" false demo_world).1 = Ok ("/f", demo_file)) as E
    by (vm_compute; reflexivity).
  rewrite E in Hf.
  assert (bool_decide (Type_ demo_file = "dir") && has_live_child (w_db demo_world) (ID demo_file) = false) as E2
    by (vm_compute; reflexivity).
  rewrite E2 in Hf.
  assert (normalizePath "/f" ≠ "/") as Hne by (vm_compute; discriminate).
  assert (removable (w_db demo_world) demo_file) as Hrm by (split; [by vm_compute|split; vm_compute; reflexivity]).
  destruct (Hf Hne Hrm) as (H1 & H2 & _). destruct (Hroot eq_refl) as [H3 _].
  split; [exact H1|split; [exact H2|exact H3]].
Defined.

(** * Findings on [Rename] *)

(** The nodes of [S] hang from each other only. *)
Lemma detached_not_rooted (V : gmap string node) (S : gset string) id :
  "1" ∉ S → id ∈ S → is_Some (V !! id) →
  (∀ i nd, i ∈ S → V !! i = Some nd → nd_parent nd ∈ S) → ¬ rooted V.
Proof.
  intros H1 Hid Hex Hcl Hr. specialize (Hr id Hex). revert Hid. clear Hex.
  induction Hr as [|i nd Hl Hi _ IH]; [done|]. intros HiS. by eapply IH, Hcl.
Qed.

Definition after_rename (P : Params (gmap Z bytes)) (w : world (gmap Z bytes)) (src dst : string) :=
  (Rename (params := P) plain src dst 0 w).2.

(** Renaming a file to itself through a linked directory destroys it: with
    [/l -> /a], [Rename("/a/f", "/l/f")] reports success, after which the file
    exists under neither name, its content is gone, the counter says there are
    no files, and an entry remains that names a hash without a type. *)
Theorem rename_through_link_destroys_file :
  let w := run_ops (P := solo_params)
             [(plain, CMkdirMode "/a" 493); (plain, CEcho "/a/f" [x01; x02]); (plain, CLn "/a" "/l")]
             root_world in
  let w' := after_rename solo_params w "/a/f" "/l/f" in
  (Cat (params := solo_params) plain "/a/f" w).1 = Ok [x01; x02] ∧
  (Rename (params := solo_params) plain "/a/f" "/l/f" 0 w).1 = Ok () ∧
  (Cat (params := solo_params) plain "/a/f" w').1 = Err RedisNil ∧
  (Cat (params := solo_params) plain "/l/f" w').1 = Err RedisNil ∧
  n_files (info (w_db w')) = 0 ∧ dirent (w_db w') "2" "f" = Some "3" ∧ ¬ fs_inv (w_db w').
Proof.
  cbv zeta. match goal with |- context [after_rename _ ?x _ _] => set (w := x) end.
  split_and!; try (vm_compute; reflexivity).
  intros Hinv. destruct (dirent_node _ "2" "f" "3" Hinv) as (_ & h & Hh & _).
  { vm_compute. reflexivity. }
  pose proof (wf_types _ _ (inv_tree _ Hinv) "3" (static h) (static_lookup _ _ _ Hh)) as Hty.
  vm_compute in Hh. injection Hh as <-. destruct Hty as [E|[E|E]]; discriminate E.
Qed.

(** The test that a directory is not moved below itself looks at the text of
    the destination only: with [/l -> /a/b], [Rename("/a", "/l/x")] moves [/a]
    into its own subtree, the two directories become unreachable from the root,
    and the walk that refreshes their path hints does not end. *)
Theorem rename_through_link_detaches_subtree :
  let w := run_ops (P := solo_params) [(plain, CMkdirMode "/a/b" 493); (plain, CLn "/a/b" "/l")] root_world in
  let w' := after_rename solo_params w "/a" "/l/x" in
  (Rename (params := solo_params) plain "/a" "/l/x" 0 w).1 = Err ErrOutOfFuel ∧
  (h_parent <$> inodes (w_db w') !! "2") = Some "3" ∧ (h_parent <$> inodes (w_db w') !! "3") = Some "2" ∧
  ¬ fs_inv (w_db w').
Proof.
  cbv zeta. match goal with |- context [after_rename _ ?x _ _] => set (w := x) end.
  split_and!; try (vm_compute; reflexivity).
  intros Hinv. eapply (detached_not_rooted _ {[ "2"; "3" ]} "2"); [..|apply (inv_rooted _ Hinv)].
  - set_solver.
  - set_solver.
  - vm_compute. eauto.
  - intros i nd Hi Hl. apply elem_of_union in Hi as [->%elem_of_singleton| ->%elem_of_singleton];
      vm_compute in Hl; injection Hl as <-; set_solver.
Qed.

(** Another client moves [/b] below [/a] just before the [k]-th command. *)
Definition race (k : Z) : Params (gmap Z bytes) :=
  with_env solo_params
    (λ w, if w_tick w =? k
          then back w (Rename (params := solo_params) plain "/b" "/a/y" 0 (as_other w)).2 else w) "me".

(** Two clients that move two directories into each other at the same time
    both pass the subtree test, and both moves commit: the watched keys of the
    second one do not cover the ancestors of its destination. *)
Theorem concurrent_renames_detach_subtree :
  let w := run_ops (P := solo_params) [(plain, CMkdirMode "/a" 493); (plain, CMkdirMode "/b" 493)] root_world in
  let w' := after_rename (race 35) w "/a" "/b/x" in
  (h_parent <$> inodes (w_db w') !! "2") = Some "3" ∧ (h_parent <$> inodes (w_db w') !! "3") = Some "2" ∧
  ¬ fs_inv (w_db w').
Proof.
  cbv zeta. match goal with |- context [after_rename _ ?x _ _] => set (w := x) end.
  split_and!; try (vm_compute; reflexivity).
  intros Hinv. eapply (detached_not_rooted _ {[ "2"; "3" ]} "2"); [..|apply (inv_rooted _ Hinv)].
  - set_solver.
  - set_solver.
  - vm_compute. eauto.
  - intros i nd Hi Hl. apply elem_of_union in Hi as [->%elem_of_singleton| ->%elem_of_singleton];
      vm_compute in Hl; injection Hl as <-; set_solver.
Qed.
