(* ===== verification/SyncState.v ===== *)
(** cmd/afs/sync_state.go, sync_chunk.go, sync_identity.go, sync_ignore.go and
    the path helpers of the sync engine: the baseline the engine keeps of both
    sides ([SyncEntry], [SyncState]), the writer every mutation goes through
    ([stateWriter]), chunk manifests with the patch a delta download applies, and
    the paths the engine leaves alone.  SHA-256 is the function of the class
    [Hashing]; paths are relative to the workspace as in the source. *)
From S2P Require Import Prelude Content Paths.

(** * Package strings *)

(** [indexOfFold]: the first offset at which [sub] occurs in [s] up to ASCII
    letter case, and -1 when there is none. *)
Definition lower (c : ascii) : ascii :=
  let n := nat_of_ascii c in
  if bool_decide (65 ≤ n ∧ n ≤ 90)%nat then ascii_of_nat (n + 32) else c.

Fixpoint matchFold (s sub : string) : bool :=
  match sub, s with
  | EmptyString, _ => true
  | String c2 sub', String c1 s' => Ascii.eqb (lower c1) (lower c2) && matchFold s' sub'
  | String _ _, EmptyString => false
  end.

Fixpoint indexOfFold_loop (i : Z) (s sub : string) : Z :=
  if (String.length s <? String.length sub)%nat then -1
  else if matchFold s sub then i
  else match s with
       | EmptyString => -1
       | String _ s' => indexOfFold_loop (i + 1) s' sub
       end.

Definition indexOfFold (s sub : string) : Z :=
  if bool_decide (sub = EmptyString) then 0 else indexOfFold_loop 0 s sub.

Definition containsAny (s : string) (subs : list string) : bool :=
  existsb (λ sub, negb (bool_decide (sub = EmptyString)) && (0 <=? indexOfFold s sub)) subs.

(** [defaultString]. *)
Definition defaultString (value fallback : string) : string :=
  if bool_decide (TrimSpace value = EmptyString) then fallback else value.

(** * Paths of the engine *)

Definition absoluteRemotePath (rel : string) : string :=
  match rel with
  | EmptyString => "/"
  | String c _ =>
      if bool_decide (rel = ".") then "/"
      else if Ascii.eqb c slash then rel else "/" +:+ rel
  end.

Definition joinRemote (dir name : string) : string :=
  if bool_decide (dir = "" ∨ dir = "/") then "/" +:+ name
  else if HasSuffix dir "/" then dir +:+ name
  else dir +:+ "/" +:+ name.

(** [pathBase]: the text after the last slash. *)
Definition pathBase (rel : string) : string := snd (split_last rel).

Definition afsIgnoreFilename : string := ".afsignore".
Definition syncControlDirName : string := ".afs-lite-sync".

Definition isSyncControlPath (rel : string) : bool :=
  let rel := TrimSlashes (TrimSpace rel) in
  if bool_decide (rel = "") then false
  else bool_decide (rel = syncControlDirName) || HasPrefix rel (syncControlDirName +:+ "/").

Definition isBaselineIgnored (rel : string) : bool :=
  if bool_decide (rel = "") then false
  else
    let base := pathBase rel in
    bool_decide (base = ".DS_Store")
    || HasPrefix base "._"
    || HasPrefix base ".afs-sync.tmp."
    || Contains base ".afssync.tmp."
    || bool_decide (base = afsIgnoreFilename)
    || HasSuffix base ".afssync.lock".

(** [syncIgnore]: the compiled .afsignore rules come from a library; [None] is
    a workspace without such a file. *)
Record syncIgnore := { si_matcher : option (string → bool) }.

Definition shouldIgnore (s : option syncIgnore) (rel : string) (isDir : bool) : bool :=
  match s with
  | None => false
  | Some s =>
      if bool_decide (rel = "" ∨ rel = ".") then false
      else if isBaselineIgnored rel then true
      else match si_matcher s with
           | None => false
           | Some matches =>
               matches (if isDir && negb (HasSuffix rel "/") then rel +:+ "/" else rel)
           end
  end.

Definition shouldIgnoreEntry (s : option syncIgnore) (rel : string) (isDir : bool) : bool :=
  match s with
  | None => false
  | Some _ => isSyncControlPath rel || shouldIgnore s rel isDir
  end.

(** [sanitizeConflictHost]; bytes outside ASCII stand for the runes they are
    part of. *)
Definition host_char (c : ascii) : bool :=
  let n := nat_of_ascii c in
  bool_decide ((97 ≤ n ∧ n ≤ 122) ∨ (65 ≤ n ∧ n ≤ 90) ∨ (48 ≤ n ∧ n ≤ 57)
               ∨ n = 46 ∨ n = 45 ∨ n = 95)%nat.

Fixpoint sanitize_loop (s : string) : string :=
  match s with
  | EmptyString => EmptyString
  | String c s' => String (if host_char c then c else "-"%char) (sanitize_loop s')
  end.

Definition sanitizeConflictHost (s : string) : string :=
  let out := sanitize_loop s in
  if bool_decide (out = "") then "unknown" else out.

(** * The baseline *)

(** [SyncEntry]: what the engine last knew of a path on both sides.  The zero
    value of Go is [zeroEntry]. *)
Record SyncEntry := {
  e_Type : string;
  e_Mode : Z;
  e_Size : Z;
  e_LocalHash : string;
  e_LocalIdentity : string;
  e_LocalMtimeMs : Z;
  e_RemoteHash : string;
  e_RemoteMtimeMs : Z;
  e_Target : string;
  e_LastSyncedAt : Z;
  e_ChunkSize : Z;
  e_ChunkHashes : list string;
  e_Version : Z;
  e_Deleted : bool
}.

#[export] Instance SyncEntry_eq_dec : EqDecision SyncEntry.
Proof. solve_decision. Defined.

Definition zeroEntry : SyncEntry :=
  {| e_Type := ""; e_Mode := 0; e_Size := 0; e_LocalHash := ""; e_LocalIdentity := "";
     e_LocalMtimeMs := 0; e_RemoteHash := ""; e_RemoteMtimeMs := 0; e_Target := "";
     e_LastSyncedAt := 0; e_ChunkSize := 0; e_ChunkHashes := []; e_Version := 0;
     e_Deleted := false |}.

(** Assignments to fields. *)
Definition setVersion (v : Z) (e : SyncEntry) : SyncEntry :=
  {| e_Type := e_Type e; e_Mode := e_Mode e; e_Size := e_Size e; e_LocalHash := e_LocalHash e;
     e_LocalIdentity := e_LocalIdentity e; e_LocalMtimeMs := e_LocalMtimeMs e;
     e_RemoteHash := e_RemoteHash e; e_RemoteMtimeMs := e_RemoteMtimeMs e; e_Target := e_Target e;
     e_LastSyncedAt := e_LastSyncedAt e; e_ChunkSize := e_ChunkSize e;
     e_ChunkHashes := e_ChunkHashes e; e_Version := v; e_Deleted := e_Deleted e |}.

Definition setDeleted (b : bool) (e : SyncEntry) : SyncEntry :=
  {| e_Type := e_Type e; e_Mode := e_Mode e; e_Size := e_Size e; e_LocalHash := e_LocalHash e;
     e_LocalIdentity := e_LocalIdentity e; e_LocalMtimeMs := e_LocalMtimeMs e;
     e_RemoteHash := e_RemoteHash e; e_RemoteMtimeMs := e_RemoteMtimeMs e; e_Target := e_Target e;
     e_LastSyncedAt := e_LastSyncedAt e; e_ChunkSize := e_ChunkSize e;
     e_ChunkHashes := e_ChunkHashes e; e_Version := e_Version e; e_Deleted := b |}.

Definition setSyncedAt (t : Z) (e : SyncEntry) : SyncEntry :=
  {| e_Type := e_Type e; e_Mode := e_Mode e; e_Size := e_Size e; e_LocalHash := e_LocalHash e;
     e_LocalIdentity := e_LocalIdentity e; e_LocalMtimeMs := e_LocalMtimeMs e;
     e_RemoteHash := e_RemoteHash e; e_RemoteMtimeMs := e_RemoteMtimeMs e; e_Target := e_Target e;
     e_LastSyncedAt := t; e_ChunkSize := e_ChunkSize e;
     e_ChunkHashes := e_ChunkHashes e; e_Version := e_Version e; e_Deleted := e_Deleted e |}.

Definition setMode (m : Z) (e : SyncEntry) : SyncEntry :=
  {| e_Type := e_Type e; e_Mode := m; e_Size := e_Size e; e_LocalHash := e_LocalHash e;
     e_LocalIdentity := e_LocalIdentity e; e_LocalMtimeMs := e_LocalMtimeMs e;
     e_RemoteHash := e_RemoteHash e; e_RemoteMtimeMs := e_RemoteMtimeMs e; e_Target := e_Target e;
     e_LastSyncedAt := e_LastSyncedAt e; e_ChunkSize := e_ChunkSize e;
     e_ChunkHashes := e_ChunkHashes e; e_Version := e_Version e; e_Deleted := e_Deleted e |}.

Definition setIdentity (i : string) (e : SyncEntry) : SyncEntry :=
  {| e_Type := e_Type e; e_Mode := e_Mode e; e_Size := e_Size e; e_LocalHash := e_LocalHash e;
     e_LocalIdentity := i; e_LocalMtimeMs := e_LocalMtimeMs e;
     e_RemoteHash := e_RemoteHash e; e_RemoteMtimeMs := e_RemoteMtimeMs e; e_Target := e_Target e;
     e_LastSyncedAt := e_LastSyncedAt e; e_ChunkSize := e_ChunkSize e;
     e_ChunkHashes := e_ChunkHashes e; e_Version := e_Version e; e_Deleted := e_Deleted e |}.

Definition setMtimes (lm rm : Z) (e : SyncEntry) : SyncEntry :=
  {| e_Type := e_Type e; e_Mode := e_Mode e; e_Size := e_Size e; e_LocalHash := e_LocalHash e;
     e_LocalIdentity := e_LocalIdentity e; e_LocalMtimeMs := lm;
     e_RemoteHash := e_RemoteHash e; e_RemoteMtimeMs := rm; e_Target := e_Target e;
     e_LastSyncedAt := e_LastSyncedAt e; e_ChunkSize := e_ChunkSize e;
     e_ChunkHashes := e_ChunkHashes e; e_Version := e_Version e; e_Deleted := e_Deleted e |}.

(** The assignments of [refreshStateMeta]. *)
Definition setObserved (kind : string) (mode size lm rm : Z) (target : string) (e : SyncEntry) :
    SyncEntry :=
  {| e_Type := kind; e_Mode := mode; e_Size := size; e_LocalHash := e_LocalHash e;
     e_LocalIdentity := e_LocalIdentity e; e_LocalMtimeMs := lm;
     e_RemoteHash := e_RemoteHash e; e_RemoteMtimeMs := rm; e_Target := target;
     e_LastSyncedAt := e_LastSyncedAt e; e_ChunkSize := e_ChunkSize e;
     e_ChunkHashes := e_ChunkHashes e; e_Version := e_Version e; e_Deleted := e_Deleted e |}.

Definition storedLocalIdentity (e : SyncEntry) : string := TrimSpace (e_LocalIdentity e).

(** Keys are workspace-relative paths without a leading slash. *)
Definition entries := gmap string SyncEntry.

(** Go's [entry, exists := Entries[path]]. *)
Definition lookupEntry (m : entries) (p : string) : SyncEntry * bool :=
  match m !! p with Some e => (e, true) | None => (zeroEntry, false) end.

Record SyncState := {
  s_Version : Z;
  s_Workspace : string;
  s_LocalPath : string;
  s_LastStreamID : string;
  s_Entries : entries;
  s_UpdatedAt : Z;
  s_NextVersion : Z
}.

Definition syncStateVersion : Z := 3.

Definition newSyncState (workspace localPath : string) : SyncState :=
  {| s_Version := syncStateVersion; s_Workspace := workspace; s_LocalPath := localPath;
     s_LastStreamID := ""; s_Entries := ∅; s_UpdatedAt := 0; s_NextVersion := 0 |}.

Definition withEntries (f : entries → entries) (s : SyncState) : SyncState :=
  {| s_Version := s_Version s; s_Workspace := s_Workspace s; s_LocalPath := s_LocalPath s;
     s_LastStreamID := s_LastStreamID s; s_Entries := f (s_Entries s); s_UpdatedAt := s_UpdatedAt s;
     s_NextVersion := s_NextVersion s |}.

Definition withNextVersion (v : Z) (s : SyncState) : SyncState :=
  {| s_Version := s_Version s; s_Workspace := s_Workspace s; s_LocalPath := s_LocalPath s;
     s_LastStreamID := s_LastStreamID s; s_Entries := s_Entries s; s_UpdatedAt := s_UpdatedAt s;
     s_NextVersion := v |}.

Definition withStreamID (id : string) (s : SyncState) : SyncState :=
  {| s_Version := s_Version s; s_Workspace := s_Workspace s; s_LocalPath := s_LocalPath s;
     s_LastStreamID := id; s_Entries := s_Entries s; s_UpdatedAt := s_UpdatedAt s;
     s_NextVersion := s_NextVersion s |}.

Definition withUpdatedAt (t : Z) (s : SyncState) : SyncState :=
  {| s_Version := s_Version s; s_Workspace := s_Workspace s; s_LocalPath := s_LocalPath s;
     s_LastStreamID := s_LastStreamID s; s_Entries := s_Entries s; s_UpdatedAt := t;
     s_NextVersion := s_NextVersion s |}.

(** [syncStateEntryCounts]: live entries and tombstones. *)
Definition syncStateEntryCounts (st : SyncState) : Z * Z :=
  map_fold (λ _ e '(live, deleted),
    if e_Deleted e then (live, deleted + 1) else (live + 1, deleted)) (0, 0) (s_Entries st).

(** * The writer *)

(** [stateWriter]: the state, whether it must be saved, whether the flush
    channel (capacity one) holds a token, and the file on disk. *)
Record stateWriter := {
  sw_state : SyncState;
  sw_dirty : bool;
  sw_flush : bool;
  sw_disk : option SyncState
}.

Definition newStateWriter (st : SyncState) (disk : option SyncState) : stateWriter :=
  {| sw_state := st; sw_dirty := false; sw_flush := false; sw_disk := disk |}.

Definition onState (f : SyncState → SyncState) (w : stateWriter) : stateWriter :=
  {| sw_state := f (sw_state w); sw_dirty := sw_dirty w; sw_flush := sw_flush w;
     sw_disk := sw_disk w |}.

Definition setDirty (w : stateWriter) : stateWriter :=
  {| sw_state := sw_state w; sw_dirty := true; sw_flush := sw_flush w; sw_disk := sw_disk w |}.

Definition nextVersion (w : stateWriter) : Z * stateWriter :=
  let v := s_NextVersion (sw_state w) in
  (v, onState (withNextVersion (u64 (v + 1))) w).

Definition markDirty (w : stateWriter) : stateWriter :=
  {| sw_state := sw_state w; sw_dirty := true; sw_flush := true; sw_disk := sw_disk w |}.

(** [flushNow]: [saved] is whether [saveSyncState], which replaces the file by
    a rename, has succeeded. *)
Definition flushNow (saved : bool) (now : Z) (w : stateWriter) : stateWriter :=
  if negb (sw_dirty w) then w
  else {| sw_state := sw_state w; sw_dirty := false; sw_flush := sw_flush w;
          sw_disk := if saved then Some (withUpdatedAt now (sw_state w)) else sw_disk w |}.

(** One turn of [run]: a token is taken, and after the debounce window, during
    which others may run, the state is flushed. *)
Definition takeToken (w : stateWriter) : option stateWriter :=
  if sw_flush w
  then Some {| sw_state := sw_state w; sw_dirty := sw_dirty w; sw_flush := false;
               sw_disk := sw_disk w |}
  else None.

Definition updateStreamID (id : string) (w : stateWriter) : stateWriter :=
  markDirty (setDirty (onState (withStreamID id) w)).

Definition lastStreamID (w : stateWriter) : string := s_LastStreamID (sw_state w).

(** The assignment to [Entries[path]] in a critical section that takes a
    version: [entry.Version = nextVersion(); Entries[path] = entry; dirty = true]. *)
Definition putVersioned (path : string) (e : SyncEntry) (w : stateWriter) : Z * stateWriter :=
  let '(v, w) := nextVersion w in
  (v, setDirty (onState (withEntries (insert path (setVersion v e))) w)).

Definition dropEntry (path : string) (w : stateWriter) : stateWriter :=
  setDirty (onState (withEntries (delete path)) w).

Definition updateState (path : string) (e : SyncEntry) (w : stateWriter) : stateWriter :=
  snd (putVersioned path e w).

(** * Chunk manifests *)

Definition defaultChunkSize : Z := 256 * 1024.
Definition defaultChunkThreshold : Z := 1024 * 1024.

(** SHA-256 in hexadecimal: package crypto/sha256 of Go. *)
Class Hashing := { sha256Hex : bytes → string }.

Section chunks.
Context {H : Hashing}.

Definition string_bytes (s : string) : bytes := String.list_byte_of_string s.

Definition effectiveChunkSize (chunkSize : Z) : Z :=
  if chunkSize <=? 0 then defaultChunkSize else chunkSize.

(** [streamChunkHashes]: [io.ReadFull] reads [chunkSize] bytes or what is left;
    the loop ends on the read that is short, empty or not. *)
Fixpoint stream_loop (fuel : nat) (rest : bytes) (chunkSize : Z) (hashes : list string) (total : Z) :
    list string * Z :=
  match fuel with
  | O => (hashes, total)
  | S fuel =>
      let buf := take (Z.to_nat chunkSize) rest in
      let n := len buf in
      let '(hashes, total) :=
        if 0 <? n then (hashes ++ [sha256Hex buf], total + n) else (hashes, total) in
      if n <? chunkSize then (hashes, total)
      else stream_loop fuel (drop (Z.to_nat chunkSize) rest) chunkSize hashes total
  end.

Definition streamChunkHashes (data : bytes) (chunkSize : Z) : list string * Z :=
  stream_loop (S (length data)) data (effectiveChunkSize chunkSize) [] 0.

(** [uploadChunkHashes]: the offsets of the loop are the multiples of the chunk
    size below the length. *)
Fixpoint upload_loop (fuel : nat) (data : bytes) (chunkSize offset : Z) : list string :=
  match fuel with
  | O => []
  | S fuel =>
      if offset <? len data
      then sha256Hex (slice data offset (Z.min (offset + chunkSize) (len data)))
             :: upload_loop fuel data chunkSize (offset + chunkSize)
      else []
  end.

Definition uploadChunkHashes (data : bytes) (chunkSize : Z) : list string :=
  upload_loop (S (length data)) data (effectiveChunkSize chunkSize) 0.

(** [diffChunkManifests]. *)
Fixpoint diff_loop (i : Z) (oldHashes newHashes : list string) : list Z :=
  match newHashes with
  | [] => []
  | n :: news =>
      match oldHashes with
      | [] => i :: diff_loop (i + 1) [] news
      | o :: olds =>
          if bool_decide (o = n) then diff_loop (i + 1) olds news
          else i :: diff_loop (i + 1) olds news
      end
  end.

Definition diffChunkManifests (oldHashes newHashes : list string) : list Z * bool :=
  (diff_loop 0 oldHashes newHashes, (length newHashes <? length oldHashes)%nat).

(** [readChunkFromDisk]. *)
Definition readChunkFromDisk (data : bytes) (chunkIndex chunkSize : Z) : bytes :=
  let chunkSize := effectiveChunkSize chunkSize in
  take (Z.to_nat chunkSize) (drop (Z.to_nat (chunkIndex * chunkSize)) data).

Definition compositeHash (chunkHashes : list string) : string :=
  match chunkHashes with
  | [] => sha256Hex []
  | _ => sha256Hex (string_bytes (JoinWith "," chunkHashes))
  end.

(** The patch a delta download applies to a copy of the local file: every
    fetched chunk at its place, then the length of the new file. *)
Definition patchChunks (base : bytes) (chunkData : list (Z * bytes)) (chunkSize fileSize : Z) : bytes :=
  ftruncate (foldl (λ file '(idx, data), pwrite file (idx * chunkSize) data) base chunkData) fileSize.

End chunks.
