(* ===== verification/SyncChunks.v ===== *)
(** Chunk manifests (cmd/afs/sync_chunk.go and the chunked parts of
    sync_uploader.go and sync_downloader.go): the two ways the source hashes a
    file by chunks agree, and a delta download, which patches only the chunks
    whose hashes differ, leaves the same file as a full one (C24). *)
From S2P Require Import Prelude Content SyncState.

Section chunks.
Context {H : Hashing}.

(** Chunk [i] of a file. *)
Definition chunk_at (data : bytes) (cs i : Z) : bytes :=
  slice data (i * cs) (Z.min (i * cs + cs) (len data)).

Lemma effectiveChunkSize_pos cs : 0 < effectiveChunkSize cs.
Proof. unfold effectiveChunkSize, defaultChunkSize. case_match; lia. Qed.

Lemma take_drop_slice data off cs : 0 ≤ off ≤ len data → 0 ≤ cs →
  take (Z.to_nat cs) (drop (Z.to_nat off) data) = slice data off (Z.min (off + cs) (len data)).
Proof.
  unfold slice, len. intros Ho Hc.
  destruct (decide (off + cs ≤ Z.of_nat (length data))).
  - rewrite Z.min_l by lia. do 2 f_equal. lia.
  - rewrite Z.min_r by lia. rewrite !take_ge; [done|rewrite length_drop; lia..].
Qed.

Lemma len_drop_off data off : 0 ≤ off ≤ len data → len (drop (Z.to_nat off) data) = len data - off.
Proof. unfold len. intros. rewrite length_drop. lia. Qed.

Lemma upload_loop_done fuel data cs off : len data ≤ off → upload_loop fuel data cs off = [].
Proof. intros. destruct fuel; simpl; [done|]. by replace (off <? len data) with false by lia. Qed.

Lemma stream_loop_upload fuel data cs off acc tot :
  0 < cs → 0 ≤ off ≤ len data → len data - off < Z.of_nat fuel →
  stream_loop fuel (drop (Z.to_nat off) data) cs acc tot =
    (acc ++ upload_loop fuel data cs off, tot + (len data - off)).
Proof.
  revert off acc tot. induction fuel as [|fuel IH]; intros off acc tot Hcs Ho Hf; [lia|].
  cbn [stream_loop upload_loop]. rewrite take_drop_slice by lia.
  set (buf := slice _ _ _).
  assert (len buf = Z.min cs (len data - off)) as Hn by (unfold buf; rewrite len_slice; lia).
  destruct (decide (off = len data)) as [->|Hne].
  { replace (len data <? len data) with false by lia. replace (0 <? len buf) with false by lia.
    replace (len buf <? cs) with true by lia. rewrite app_nil_r. f_equal. lia. }
  replace (0 <? len buf) with true by lia. replace (off <? len data) with true by lia.
  destruct (len buf <? cs) eqn:Hs.
  - rewrite upload_loop_done by lia. f_equal. lia.
  - rewrite drop_drop. replace (Z.to_nat off + Z.to_nat cs)%nat with (Z.to_nat (off + cs)) by lia.
    rewrite IH by lia. rewrite <- app_assoc. simpl. f_equal. lia.
Qed.

Lemma stream_upload data cs :
  streamChunkHashes data cs = (uploadChunkHashes data cs, len data).
Proof.
  unfold streamChunkHashes, uploadChunkHashes. change data with (drop (Z.to_nat 0) data) at 2.
  pose proof (len_nonneg data). rewrite stream_loop_upload; [|apply effectiveChunkSize_pos|..];
    [|unfold len in *; lia..]. simpl. f_equal. lia.
Qed.

Lemma upload_loop_lookup fuel data cs k i :
  0 < cs → 0 ≤ k → len data - k * cs < Z.of_nat fuel →
  upload_loop fuel data cs (k * cs) !! i =
    if bool_decide ((k + Z.of_nat i) * cs < len data)
    then Some (sha256Hex (chunk_at data cs (k + Z.of_nat i))) else None.
Proof.
  intros Hcs. revert k i. induction fuel as [|fuel IH]; intros k i Hk Hf.
  { rewrite bool_decide_false by nia. done. }
  cbn [upload_loop]. destruct (k * cs <? len data) eqn:E.
  - destruct i as [|i]; cbn [lookup list_lookup].
    + rewrite Z.add_0_r, bool_decide_true by lia. done.
    + replace (k * cs + cs) with ((k + 1) * cs) by lia. rewrite IH by nia.
      replace (k + 1 + Z.of_nat i) with (k + Z.of_nat (S i)) by lia. done.
  - rewrite bool_decide_false by nia. done.
Qed.

(** The manifest lists the hash of every chunk that begins inside the file. *)
Lemma manifest_lookup data cs i :
  0 < cs →
  uploadChunkHashes data cs !! i =
    if bool_decide (Z.of_nat i * cs < len data)
    then Some (sha256Hex (chunk_at data cs (Z.of_nat i))) else None.
Proof.
  intros Hcs. unfold uploadChunkHashes.
  assert (effectiveChunkSize cs = cs) as -> by (unfold effectiveChunkSize; case_match; lia).
  apply (upload_loop_lookup _ _ _ 0); [done|done|unfold len; lia].
Qed.

Lemma readChunk_chunk_at data cs i :
  0 < cs → 0 ≤ i → i * cs ≤ len data → readChunkFromDisk data i cs = chunk_at data cs i.
Proof.
  intros Hcs Hi Hl. unfold readChunkFromDisk, chunk_at.
  assert (effectiveChunkSize cs = cs) as -> by (unfold effectiveChunkSize; case_match; lia).
  apply take_drop_slice; nia.
Qed.

Lemma elem_of_diff_loop k olds news i :
  i ∈ diff_loop k olds news ↔
    ∃ n : nat, i = k + Z.of_nat n ∧ is_Some (news !! n) ∧ news !! n ≠ olds !! n.
Proof.
  revert k olds. induction news as [|h news IH]; intros k olds; simpl.
  { split; [by intros ?%not_elem_of_nil|]. by intros (n & _ & [? [=]] & _). }
  assert (∀ olds', i ∈ diff_loop (k + 1) olds' news ↔ ∃ n : nat,
    i = k + Z.of_nat (S n) ∧ is_Some (news !! n) ∧ news !! n ≠ olds' !! n) as Hrec.
  { intros olds'. rewrite IH. split; intros (n & -> & Hx); exists n; (split; [lia|done]). }
  destruct olds as [|o olds]; [|case_bool_decide as Ho].
  - rewrite elem_of_cons, Hrec. split.
    + intros [->|(n & -> & Hs & Hn)]; [exists O|exists (S n)]; (split; [lia|]); simpl; [|done].
      by split; [eauto|].
    + intros ([|n] & -> & Hs & Hn); simpl in *; [left; lia|right; eauto].
  - subst o. rewrite Hrec. split.
    + intros (n & -> & Hx). by exists (S n).
    + intros ([|n] & -> & Hs & Hn); simpl in *; [done|eauto].
  - rewrite elem_of_cons, Hrec. split.
    + intros [->|(n & -> & Hs & Hn)]; [exists O|exists (S n)]; (split; [lia|]); simpl; [|done].
      split; [eauto|congruence].
    + intros ([|n] & -> & Hs & Hn); simpl in *; [left; lia|right; eauto].
Qed.

(** [diffChunkManifests] names exactly the chunks of the new file that the old
    one does not have at the same place, and tells whether it is shorter. *)
Lemma diff_spec olds news :
  (∀ i, i ∈ (diffChunkManifests olds news).1 ↔
    ∃ n : nat, i = Z.of_nat n ∧ is_Some (news !! n) ∧ news !! n ≠ olds !! n) ∧
  ((diffChunkManifests olds news).2 = true ↔ (length news < length olds)%nat).
Proof.
  split; [|apply Nat.ltb_lt]. intros i. simpl. rewrite elem_of_diff_loop. done.
Qed.

(** ** Patching *)

Lemma len_chunk_at data cs i : 0 < cs → 0 ≤ i → i * cs ≤ len data →
  len (chunk_at data cs i) = Z.min cs (len data - i * cs).
Proof. intros. unfold chunk_at. rewrite len_slice; nia. Qed.

Lemma get_chunk_at data cs i j : 0 < cs → 0 ≤ i → i * cs ≤ len data → 0 ≤ j < cs →
  get (chunk_at data cs i) j = get data (i * cs + j).
Proof.
  intros. unfold chunk_at. rewrite get_slice by nia. case_decide; [done|].
  rewrite get_out; [done|nia].
Qed.

Lemma patch_fold_get cs (new : bytes) (l : list (Z * bytes)) base :
  0 < cs →
  (∀ i d, (i, d) ∈ l → 0 ≤ i ∧ i * cs < len new ∧ d = chunk_at new cs i) →
  (∀ j, 0 ≤ j < len new → get base j = get new j ∨ j / cs ∈ l.*1) →
  ∀ j, 0 ≤ j < len new →
    get (foldl (λ file '(idx, data), pwrite file (idx * cs) data) base l) j = get new j.
Proof.
  intros Hcs. revert base. induction l as [|[i d] l IH]; intros base Hd Hb j Hj; simpl.
  { destruct (Hb j Hj) as [?|?%not_elem_of_nil]; done. }
  destruct (Hd i d) as (Hi & Hin & ->); [by left|].
  apply IH; [intros; apply Hd; by right| |done].
  clear j Hj. intros j Hj. rewrite get_pwrite by nia. rewrite len_chunk_at by lia.
  case_decide as Hr.
  - left. rewrite get_chunk_at by lia. f_equal. lia.
  - destruct (Hb j Hj) as [?|Hin2]; [by left|]. right. simpl in Hin2.
    apply elem_of_cons in Hin2 as [Heq|?]; [|done]. exfalso. apply Hr.
    pose proof (Z.div_mod j cs ltac:(lia)). pose proof (Z.mod_pos_bound j cs Hcs). nia.
Qed.

Lemma patch_complete cs (old new : bytes) (l : list (Z * bytes)) :
  0 < cs →
  (∀ i d, (i, d) ∈ l → 0 ≤ i ∧ i * cs < len new ∧ d = chunk_at new cs i) →
  (∀ i, 0 ≤ i → i * cs < len new → i ∉ l.*1 → chunk_at old cs i = chunk_at new cs i) →
  patchChunks old l cs (len new) = new.
Proof.
  intros Hcs Hd Hsame. pose proof (len_nonneg new). unfold patchChunks.
  apply bytes_ext; [by rewrite len_ftruncate|]. intros j. rewrite len_ftruncate by done.
  intros Hj. rewrite get_ftruncate, decide_True by lia.
  apply patch_fold_get; [done|done| |done]. clear j Hj. intros j Hj.
  destruct (decide (j / cs ∈ l.*1)) as [|Hni]; [by right|left].
  pose proof (Z.div_mod j cs ltac:(lia)) as Hdm. pose proof (Z.mod_pos_bound j cs Hcs).
  assert (0 ≤ j / cs) by (apply Z.div_pos; lia).
  specialize (Hsame (j / cs) ltac:(done) ltac:(nia) Hni).
  destruct (decide (j / cs * cs ≤ len old)) as [Ho|Ho].
  - pose proof (get_chunk_at old cs (j / cs) (j mod cs)) as G1.
    pose proof (get_chunk_at new cs (j / cs) (j mod cs)) as G2.
    rewrite Hsame in G1. rewrite G1 in G2 by lia.
    replace (j / cs * cs + j mod cs) with j in G2 by lia. apply G2; lia.
  - exfalso. assert (len (chunk_at old cs (j / cs)) = 0) as Hz.
    { unfold chunk_at, slice, len in *. rewrite length_take, length_drop. lia. }
    rewrite Hsame, len_chunk_at in Hz by nia. nia.
Qed.

Context {Hinj : Inj (=) (=) sha256Hex}.

(** C24: a delta download is a full download.  Let the base be a file whose
    manifest is the recorded one, and let every fetched chunk have passed the
    comparison with the remote manifest; when the chunks fetched are those
    [diffChunkManifests] names, in any order, the patched file is the remote
    file, whether it has grown, shrunk or changed inside. *)
Theorem delta_download_is_full (old new : bytes) (cs : Z) (fetched : list (Z * bytes))
    (Hcs : 0 < cs)
    (Hdirty : ∀ i, i ∈ fetched.*1 ↔
       i ∈ (diffChunkManifests (uploadChunkHashes old cs) (uploadChunkHashes new cs)).1)
    (Hchecked : ∀ i d, (i, d) ∈ fetched →
       uploadChunkHashes new cs !! Z.to_nat i = Some (sha256Hex d)) :
  patchChunks old fetched cs (len new) = new.
Proof.
  pose proof (diff_spec (uploadChunkHashes old cs) (uploadChunkHashes new cs)) as [Hdiff _].
  apply patch_complete; [done| |].
  - intros i d Hin. assert (i ∈ fetched.*1) as Hi by (apply list_elem_of_fmap; by exists (i, d)).
    apply Hdirty, Hdiff in Hi as (n & -> & [h Hh] & _).
    specialize (Hchecked _ _ Hin). rewrite Nat2Z.id, manifest_lookup in Hchecked by done.
    case_bool_decide; [|done]. injection Hchecked as Heq. apply Hinj in Heq as <-.
    split_and!; [lia|done|done].
  - intros i Hi Hlt Hni. rewrite Hdirty, Hdiff in Hni.
    assert (uploadChunkHashes new cs !! Z.to_nat i = uploadChunkHashes old cs !! Z.to_nat i) as Heq.
    { apply dec_stable. intros Hne. apply Hni. exists (Z.to_nat i). split_and!; [lia| |done].
      rewrite manifest_lookup, bool_decide_true by (try done; rewrite Z2Nat.id; lia). eauto. }
    rewrite !manifest_lookup, Z2Nat.id in Heq by lia. rewrite bool_decide_true in Heq by done.
    case_bool_decide; [|done]. injection Heq as Heq. symmetry. by apply Hinj.
Qed.

End chunks.

(** The two ways the source hashes a file by chunks agree: the loop over
    [io.ReadFull] of the event side and the loop over offsets of the uploader
    and of recovery give one manifest, which lists the hash of every chunk that
    begins inside the file; the streaming loop also counts the file's bytes. *)
Theorem chunk_manifests_agree {H : Hashing} (data : bytes) (chunkSize : Z) :
  streamChunkHashes data chunkSize = (uploadChunkHashes data chunkSize, len data) ∧
  ∀ i : nat, uploadChunkHashes data chunkSize !! i =
    let cs := effectiveChunkSize chunkSize in
    if bool_decide (Z.of_nat i * cs < len data)
    then Some (sha256Hex (readChunkFromDisk data (Z.of_nat i) chunkSize)) else None.
Proof.
  split; [apply stream_upload|]. intros i. cbv zeta. unfold uploadChunkHashes.
  pose proof (effectiveChunkSize_pos chunkSize) as Hp.
  pose proof (upload_loop_lookup (S (length data)) data (effectiveChunkSize chunkSize) 0 i Hp) as E.
  rewrite Z.mul_0_l, Z.add_0_l in E. rewrite E by (unfold len; lia).
  case_bool_decide; [|done]. do 2 f_equal. unfold readChunkFromDisk, chunk_at.
  symmetry. apply take_drop_slice; lia.
Qed.

(** ** Concrete inputs *)

(** A hash without collisions. *)
#[export] Instance plain_hash : Hashing := {| sha256Hex := String.string_of_list_byte |}.

#[export] Instance plain_hash_inj : Inj (=) (=) sha256Hex.
Proof.
  intros x y E. simpl in E. apply (f_equal String.list_byte_of_string) in E.
  by rewrite !String.list_byte_of_string_of_list_byte in E.
Qed.

Lemma delta_download_is_full_witness :
  let old := string_bytes "abcdefgh" in
  let new := string_bytes "abcXefghij" in
  patchChunks old [(2, string_bytes "ij"); (0, string_bytes "abcX")] 4 (len new) = new.
Proof.
  apply (delta_download_is_full (string_bytes "abcdefgh") (string_bytes "abcXefghij") 4).
  - done.
  - intros i. change (diffChunkManifests _ _).1 with [0; 2]. simpl. set_solver.
  - intros i d Hin. repeat (apply elem_of_cons in Hin as [[= -> ->]|Hin]; [reflexivity|]).
    by apply not_elem_of_nil in Hin.
Defined.
