(* ===== verification/SyncWorld.v ===== *)
(** What the sync engine of cmd/afs runs in: the local tree with the calls of
    package os the engine makes, the interface of the remote client, the engine's
    own state (baseline, queues, pending uploads, echo expectations, rename
    candidates) and the helpers every part of it uses: the echo suppressor
    (sync_downloader.go), conflict copies (sync_conflict.go), the check of the
    mount root (sync_root_safety.go), the snapshot of a local path
    (sync_downloader.go) and the pending counters (sync_recovery_plan.go).

    A function of the source that touches any of this is a function of the state
    monad [E]; where the source answers by sending one result, the model returns
    it.  Whoever else changes the local tree, the application above all, acts by
    the function [app]: before every remote call and wherever else the engine waits or
    works for long, and, in the downloader, also between the last look at a path and the
    change made on its strength. *)
From stdpp Require Import pretty.
From S2P Require Import Prelude Content Paths FsClient SyncState.
#[local] Open Scope string_scope.
#[local] Open Scope list_scope.
#[local] Open Scope Z_scope.

Declare Scope sync_scope.

(** * Errors *)

(** What [errors.Is] can tell apart, and the text the string tests read. *)
Inductive errorKind :=
| ENOENT | ENOTDIR | EISDIR | ENOTEMPTY | EINVAL | EPERM
| KRedisNil | KWriteConflict | KWorkspaceChanged | KStreamTrimmed | KCanceled
| KLocalChanged | KPlain.

#[export] Instance errorKind_eq_dec : EqDecision errorKind.
Proof. solve_decision. Defined.

Record error := Error { err_kind : errorKind; err_text : string }.

Definition is_kind (k : errorKind) (e : error) : bool := bool_decide (err_kind e = k).

(** [fmt.Errorf("<prefix>: %w", err)]. *)
Definition Errorf (prefix : string) (e : error) : error :=
  Error (err_kind e) (prefix +:+ ": " +:+ err_text e).

Definition plain (text : string) : error := Error KPlain text.
Definition canceled : error := Error KCanceled "context canceled".
Definition errSyncDownloadLocalChanged : error :=
  Error KLocalChanged "local destination changed while staging download".

Definition IsNotExist (e : error) : bool := is_kind ENOENT e.

Definition isClientNotFound (e : error) : bool :=
  containsAny (err_text e) ["no such file"; "not found"; "ENOENT"; "does not exist"].

Definition isClientAlreadyExists (e : error) : bool :=
  containsAny (err_text e) ["exists"; "EEXIST"].

Definition isSyncRemoteMissingError (e : error) : bool :=
  is_kind KRedisNil e || isClientNotFound e.

(** * The local tree *)

Inductive lnode :=
| NFile (data : bytes)
| NDir
| NLink (target : string).

#[export] Instance lnode_eq_dec : EqDecision lnode.
Proof. solve_decision. Defined.

(** A file with its permission bits, its modification time in nanoseconds and
    its inode; keys of the tree are paths below the mount root. *)
Record linode := Linode { i_node : lnode; i_perm : Z; i_mtimeNs : Z; i_ino : Z }.

#[export] Instance linode_eq_dec : EqDecision linode.
Proof. solve_decision. Defined.

Definition ltree := gmap string linode.

Inductive fkind := KFile | KDir | KLink.

#[export] Instance fkind_eq_dec : EqDecision fkind.
Proof. solve_decision. Defined.

(** [fs.FileInfo]; [Mode()] is the kind with the permission bits. *)
Record fileInfo := FileInfo {
  fi_kind : fkind; fi_perm : Z; fi_size : Z; fi_mtimeNs : Z; fi_ino : Z
}.

#[export] Instance fileInfo_eq_dec : EqDecision fileInfo.
Proof. solve_decision. Defined.

Definition kind_of (n : lnode) : fkind :=
  match n with NFile _ => KFile | NDir => KDir | NLink _ => KLink end.

Definition node_size (n : lnode) : Z :=
  match n with NFile d => len d | NDir => 0 | NLink t => Z.of_nat (String.length t) end.

Definition info_of (i : linode) : fileInfo :=
  FileInfo (kind_of (i_node i)) (i_perm i) (node_size (i_node i)) (i_mtimeNs i) (i_ino i).

Definition is_regular (i : fileInfo) : bool := bool_decide (fi_kind i = KFile).
Definition is_dir (i : fileInfo) : bool := bool_decide (fi_kind i = KDir).
Definition is_symlink (i : fileInfo) : bool := bool_decide (fi_kind i = KLink).

(** [info.ModTime().UnixMilli()]. *)
Definition UnixMilli (i : fileInfo) : Z := fi_mtimeNs i / 1000000.

(** [os.SameFile]. *)
Definition SameFile (a b : fileInfo) : bool := fi_ino a =? fi_ino b.

(** [localFileIdentity]: device and inode. *)
Definition localFileIdentity (i : fileInfo) : string := "1:" +:+ pretty (fi_ino i).

(** The proper ancestors of a path, from the top. *)
Fixpoint ancestors_from (acc p : string) : list string :=
  match p with
  | EmptyString => []
  | String c p' =>
      if Ascii.eqb c slash then acc :: ancestors_from (acc +:+ "/") p'
      else ancestors_from (acc +:+ String c EmptyString) p'
  end.
Definition ancestors (p : string) : list string := ancestors_from "" p.

Definition under (p q : string) : bool := HasPrefix q (p +:+ "/").

Definition is_dir_at (t : ltree) (p : string) : bool :=
  match t !! p with Some i => bool_decide (i_node i = NDir) | None => false end.

(** What [lstat] reports for a path that is not there. *)
Definition missing_error (t : ltree) (p : string) : error :=
  if existsb (λ a, match t !! a with Some i => negb (bool_decide (i_node i = NDir)) | None => false end)
       (ancestors p)
  then Error ENOTDIR "not a directory" else Error ENOENT "no such file or directory".

Definition t_lstat (t : ltree) (p : string) : result error fileInfo :=
  match t !! p with Some i => Ok (info_of i) | None => Err (missing_error t p) end.

Definition t_readfile (t : ltree) (p : string) : result error bytes :=
  match t !! p with
  | Some (Linode (NFile d) _ _ _) => Ok d
  | Some (Linode NDir _ _ _) => Err (Error EISDIR "is a directory")
  | Some (Linode (NLink _) _ _ _) => Err (Error EINVAL "symbolic link")
  | None => Err (missing_error t p)
  end.

Definition t_readlink (t : ltree) (p : string) : result error string :=
  match t !! p with
  | Some (Linode (NLink target) _ _ _) => Ok target
  | Some _ => Err (Error EINVAL "invalid argument")
  | None => Err (missing_error t p)
  end.

Definition has_children (t : ltree) (p : string) : bool :=
  existsb (under p) (map fst (map_to_list t)).

(** [os.Remove], [os.RemoveAll]. *)
Definition t_remove (t : ltree) (p : string) : result error ltree :=
  match t !! p with
  | None => Err (missing_error t p)
  | Some i =>
      if bool_decide (i_node i = NDir) && has_children t p
      then Err (Error ENOTEMPTY "directory not empty") else Ok (delete p t)
  end.

Definition t_remove_all (t : ltree) (p : string) : ltree :=
  filter (λ '(q, _), negb (bool_decide (q = p) || under p q) = true) t.

(** [os.MkdirAll] of [dirs], the directory after its ancestors. *)
Fixpoint t_mkdirs (t : ltree) (now ino : Z) (dirs : list string) : result error (ltree * Z) :=
  match dirs with
  | [] => Ok (t, ino)
  | d :: dirs =>
      match t !! d with
      | Some i =>
          if bool_decide (i_node i = NDir) then t_mkdirs t now ino dirs
          else Err (Error ENOTDIR "not a directory")
      | None => t_mkdirs (<[d := Linode NDir 493 now ino]> t) now (ino + 1) dirs
      end
  end.

(** [os.Rename] of a new file or link, made under a temporary name in the
    directory of [p], to [p]. *)
Definition t_commit (t : ltree) (p : string) (i : linode) : result error ltree :=
  match t !! p with
  | Some (Linode NDir _ _ _) => Err (Error EISDIR "file exists")
  | _ => Ok (<[p := i]> t)
  end.

(** [os.Rename] of [p], with everything below it, to the new name [q]. *)
Definition move_key (p q k : string) : string :=
  if bool_decide (k = p) then q
  else if under p k then q +:+ String.substring (String.length p) (String.length k - String.length p) k
  else k.

Definition t_move (t : ltree) (p q : string) : result error ltree :=
  match t !! p with
  | None => Err (missing_error t p)
  | Some _ => Ok (list_to_map (map (λ '(k, i), (move_key p q k, i)) (map_to_list t)))
  end.

(** * The remote client *)

Record LsEntry := { ls_Name : string; ls_Type : string; ls_Mode : Z; ls_Size : Z; ls_Mtime : Z }.

Record InvalidateEvent := { ev_Origin : string; ev_Op : string; ev_Paths : list string }.

Record ChangeStreamEntry := { cs_ID : string; cs_Event : InvalidateEvent }.

Definition WithExpectedStat (ctx : Ctx) (st : option StatResult) : Ctx :=
  Ctx_ (cx_generation ctx) (cx_lease ctx) (cx_checked ctx) (Some st)
    (cx_expectedParents ctx) (cx_ranged ctx).

(** The part of the interface [Client] of mount/internal/client the engine
    uses, over the state [R] of the client and of Redis behind it. *)
Class RemoteClient (R : Type) := {
  rStat : Ctx → string → R → result error (option StatResult) * R;
  rCat : Ctx → string → R → result error bytes * R;
  rReadlink : Ctx → string → R → result error string * R;
  rLsLong : Ctx → string → R → result error (list LsEntry) * R;
  rEcho : Ctx → string → bytes → R → result error () * R;
  rEchoCreate : Ctx → string → bytes → Z → R → result error () * R;
  rMkdirMode : Ctx → string → Z → R → result error () * R;
  rRm : Ctx → string → R → result error () * R;
  rLn : Ctx → string → string → R → result error () * R;
  rRename : Ctx → string → string → Z → R → result error () * R;
  rChmod : Ctx → string → Z → R → result error () * R;
  rWriteChunks : Ctx → string → gmap Z bytes → Z → Z → list string → R → result error () * R;
  rReadChunks : Ctx → string → list Z → Z → R → result error (gmap Z bytes) * R;
  rChunkMeta : Ctx → string → R → result error (Z * list string) * R;
  rReadChangeStream : Ctx → string → Z → R → result error (list ChangeStreamEntry) * R;
  rInvalidateCache : R → R;
  rOriginID : R → string
}.

(** * The engine *)

Inductive uploadOpKind :=
| opUploadFile | opUploadSymlink | opUploadMkdir | opUploadDelete | opUploadChmod | opUploadRename.

#[export] Instance uploadOpKind_eq_dec : EqDecision uploadOpKind.
Proof. solve_decision. Defined.

(** [AbsPath] is always the mount root joined with [Path] and left out. *)
Record uploadOp := {
  uo_Kind : uploadOpKind;
  uo_Path : string;
  uo_PrevPath : string;
  uo_Content : bytes;
  uo_Mode : Z;
  uo_Symlink : string;
  uo_LocalHash : string;
  uo_LocalIdentity : string;
  uo_LocalMtimeMs : Z;
  uo_StoredEntry : SyncEntry;
  uo_HasStored : bool;
  uo_Tracked : bool;
  uo_RenameVersion : Z;
  uo_DeleteVersion : Z;
  uo_Chunked : bool;
  uo_FileSize : Z;
  uo_ChunkSize : Z;
  uo_ChunkHashes : list string;
  uo_DirtyChunks : list Z
}.

Record uploadResult := {
  ur_Op : uploadOp;
  ur_Err : option error;
  ur_Conflict : bool;
  ur_Skipped : bool;
  ur_RemoteHashSeen : string;
  ur_RemoteStat : option StatResult
}.

Inductive downloadOpKind :=
| opDownloadFile | opDownloadSymlink | opDownloadMkdir | opDownloadDelete | opDownloadChmod.

#[export] Instance downloadOpKind_eq_dec : EqDecision downloadOpKind.
Proof. solve_decision. Defined.

Record downloadOp := {
  do_Kind : downloadOpKind;
  do_Path : string;
  do_Mode : Z;
  do_Symlink : string;
  do_StoredEntry : SyncEntry;
  do_HasStored : bool;
  do_Conflict : bool;
  do_Chunked : bool;
  do_FileSize : Z;
  do_ChunkSize : Z;
  do_ChunkHashes : list string;
  do_DirtyChunks : list Z
}.

Record downloadResult := {
  dr_Op : downloadOp;
  dr_Err : option error;
  dr_Skipped : bool;
  dr_RemoteHash : string;
  dr_RemoteStat : option StatResult;
  dr_ConflictPath : string;
  dr_Mode : Z;
  dr_Size : Z;
  dr_MtimeMs : Z;
  dr_LocalMtimeMs : Z;
  dr_LocalInfo : option fileInfo;
  dr_Target : string
}.

Record pendingSyncUpload := { p_count : Z; p_rescan : bool }.

Record renameCandidate := { rc_path : string; rc_entry : SyncEntry; rc_recordedAt : Z }.

(** [ex_kind]: "file", "symlink", "dir" or "delete". *)
Record echoExpectation := {
  ex_kind : string; ex_hash : string; ex_mode : Z; ex_identity : string
}.

(** [temporaryDirectoryMode]: a directory whose owner bits are lent. *)
Record temporaryDirectoryMode := { td_before : fileInfo; td_mode : Z; td_retry : bool }.

(** A delete or rename candidate whose upload is delayed by [enqueueUploadOpAsync]. *)
Record delayedUpload := { du_op : uploadOp; du_key : string; du_path : string }.

Record LocalEvent := { le_Path : string; le_KindHint : string }.

Record remoteEvent := {
  re_Path : string; re_NeedsContent : bool; re_FullSweep : bool; re_RootReplace : bool
}.

(** The reconciler with its workers, the local tree and the remote side.  The
    channels hold at most 256 items; a request channel of capacity one is a
    Boolean. *)
Record eng (R : Type) := Eng {
  g_sw : stateWriter;
  g_tree : ltree;
  g_root : option string;
  g_remote : R;
  g_now : Z;
  g_nextino : Z;
  g_counter : Z;
  g_stop : bool;
  g_suppress : bool;
  g_sweep : bool;
  g_rootReplace : bool;
  g_pending : gmap string pendingSyncUpload;
  g_rename : gmap string renameCandidate;
  g_echo : gmap string echoExpectation;
  g_tempdirs : gmap string temporaryDirectoryMode;
  g_uploads : list uploadOp;
  g_downloads : list downloadOp;
  g_uploadRes : list uploadResult;
  g_downloadRes : list downloadResult;
  g_delayed : list delayedUpload;
  g_localEvents : list LocalEvent;
  g_remoteEvents : list remoteEvent
}.
Arguments Eng {R}.
Arguments g_sw {R}. Arguments g_tree {R}. Arguments g_root {R}. Arguments g_remote {R}.
Arguments g_now {R}. Arguments g_nextino {R}. Arguments g_counter {R}. Arguments g_stop {R}.
Arguments g_suppress {R}. Arguments g_sweep {R}. Arguments g_rootReplace {R}.
Arguments g_pending {R}. Arguments g_rename {R}. Arguments g_echo {R}. Arguments g_tempdirs {R}.
Arguments g_uploads {R}. Arguments g_downloads {R}. Arguments g_uploadRes {R}.
Arguments g_downloadRes {R}. Arguments g_delayed {R}. Arguments g_localEvents {R}.
Arguments g_remoteEvents {R}.

(** Assignments to one field. *)
Section setters.
Context {R : Type}.
Implicit Types g : eng R.

Definition set_sw (x : stateWriter) g : eng R :=
  Eng x (g_tree g) (g_root g) (g_remote g) (g_now g) (g_nextino g) (g_counter g) (g_stop g)
    (g_suppress g) (g_sweep g) (g_rootReplace g) (g_pending g) (g_rename g) (g_echo g)
    (g_tempdirs g) (g_uploads g) (g_downloads g) (g_uploadRes g) (g_downloadRes g) (g_delayed g) (g_localEvents g)
    (g_remoteEvents g).
Definition set_tree (x : ltree) g : eng R :=
  Eng (g_sw g) x (g_root g) (g_remote g) (g_now g) (g_nextino g) (g_counter g) (g_stop g)
    (g_suppress g) (g_sweep g) (g_rootReplace g) (g_pending g) (g_rename g) (g_echo g)
    (g_tempdirs g) (g_uploads g) (g_downloads g) (g_uploadRes g) (g_downloadRes g) (g_delayed g) (g_localEvents g)
    (g_remoteEvents g).
Definition set_root (x : option string) g : eng R :=
  Eng (g_sw g) (g_tree g) x (g_remote g) (g_now g) (g_nextino g) (g_counter g) (g_stop g)
    (g_suppress g) (g_sweep g) (g_rootReplace g) (g_pending g) (g_rename g) (g_echo g)
    (g_tempdirs g) (g_uploads g) (g_downloads g) (g_uploadRes g) (g_downloadRes g) (g_delayed g) (g_localEvents g)
    (g_remoteEvents g).
Definition set_remote (x : R) g : eng R :=
  Eng (g_sw g) (g_tree g) (g_root g) x (g_now g) (g_nextino g) (g_counter g) (g_stop g)
    (g_suppress g) (g_sweep g) (g_rootReplace g) (g_pending g) (g_rename g) (g_echo g)
    (g_tempdirs g) (g_uploads g) (g_downloads g) (g_uploadRes g) (g_downloadRes g) (g_delayed g) (g_localEvents g)
    (g_remoteEvents g).
Definition set_now (x : Z) g : eng R :=
  Eng (g_sw g) (g_tree g) (g_root g) (g_remote g) x (g_nextino g) (g_counter g) (g_stop g)
    (g_suppress g) (g_sweep g) (g_rootReplace g) (g_pending g) (g_rename g) (g_echo g)
    (g_tempdirs g) (g_uploads g) (g_downloads g) (g_uploadRes g) (g_downloadRes g) (g_delayed g) (g_localEvents g)
    (g_remoteEvents g).
Definition set_nextino (x : Z) g : eng R :=
  Eng (g_sw g) (g_tree g) (g_root g) (g_remote g) (g_now g) x (g_counter g) (g_stop g)
    (g_suppress g) (g_sweep g) (g_rootReplace g) (g_pending g) (g_rename g) (g_echo g)
    (g_tempdirs g) (g_uploads g) (g_downloads g) (g_uploadRes g) (g_downloadRes g) (g_delayed g) (g_localEvents g)
    (g_remoteEvents g).
Definition set_counter (x : Z) g : eng R :=
  Eng (g_sw g) (g_tree g) (g_root g) (g_remote g) (g_now g) (g_nextino g) x (g_stop g)
    (g_suppress g) (g_sweep g) (g_rootReplace g) (g_pending g) (g_rename g) (g_echo g)
    (g_tempdirs g) (g_uploads g) (g_downloads g) (g_uploadRes g) (g_downloadRes g) (g_delayed g) (g_localEvents g)
    (g_remoteEvents g).
Definition set_stop (x : bool) g : eng R :=
  Eng (g_sw g) (g_tree g) (g_root g) (g_remote g) (g_now g) (g_nextino g) (g_counter g) x
    (g_suppress g) (g_sweep g) (g_rootReplace g) (g_pending g) (g_rename g) (g_echo g)
    (g_tempdirs g) (g_uploads g) (g_downloads g) (g_uploadRes g) (g_downloadRes g) (g_delayed g) (g_localEvents g)
    (g_remoteEvents g).
Definition set_suppress (x : bool) g : eng R :=
  Eng (g_sw g) (g_tree g) (g_root g) (g_remote g) (g_now g) (g_nextino g) (g_counter g) (g_stop g) x
    (g_sweep g) (g_rootReplace g) (g_pending g) (g_rename g) (g_echo g) (g_tempdirs g) (g_uploads g)
    (g_downloads g) (g_uploadRes g) (g_downloadRes g) (g_delayed g) (g_localEvents g)
    (g_remoteEvents g).
Definition set_sweep (x : bool) g : eng R :=
  Eng (g_sw g) (g_tree g) (g_root g) (g_remote g) (g_now g) (g_nextino g) (g_counter g) (g_stop g)
    (g_suppress g) x (g_rootReplace g) (g_pending g) (g_rename g) (g_echo g) (g_tempdirs g)
    (g_uploads g) (g_downloads g) (g_uploadRes g) (g_downloadRes g) (g_delayed g) (g_localEvents g)
    (g_remoteEvents g).
Definition set_rootReplace (x : bool) g : eng R :=
  Eng (g_sw g) (g_tree g) (g_root g) (g_remote g) (g_now g) (g_nextino g) (g_counter g) (g_stop g)
    (g_suppress g) (g_sweep g) x (g_pending g) (g_rename g) (g_echo g) (g_tempdirs g) (g_uploads g)
    (g_downloads g) (g_uploadRes g) (g_downloadRes g) (g_delayed g) (g_localEvents g)
    (g_remoteEvents g).
Definition set_pending (x : gmap string pendingSyncUpload) g : eng R :=
  Eng (g_sw g) (g_tree g) (g_root g) (g_remote g) (g_now g) (g_nextino g) (g_counter g) (g_stop g)
    (g_suppress g) (g_sweep g) (g_rootReplace g) x (g_rename g) (g_echo g) (g_tempdirs g)
    (g_uploads g) (g_downloads g) (g_uploadRes g) (g_downloadRes g) (g_delayed g) (g_localEvents g)
    (g_remoteEvents g).
Definition set_rename (x : gmap string renameCandidate) g : eng R :=
  Eng (g_sw g) (g_tree g) (g_root g) (g_remote g) (g_now g) (g_nextino g) (g_counter g) (g_stop g)
    (g_suppress g) (g_sweep g) (g_rootReplace g) (g_pending g) x (g_echo g) (g_tempdirs g)
    (g_uploads g) (g_downloads g) (g_uploadRes g) (g_downloadRes g) (g_delayed g) (g_localEvents g)
    (g_remoteEvents g).
Definition set_echo (x : gmap string echoExpectation) g : eng R :=
  Eng (g_sw g) (g_tree g) (g_root g) (g_remote g) (g_now g) (g_nextino g) (g_counter g) (g_stop g)
    (g_suppress g) (g_sweep g) (g_rootReplace g) (g_pending g) (g_rename g) x (g_tempdirs g)
    (g_uploads g) (g_downloads g) (g_uploadRes g) (g_downloadRes g) (g_delayed g) (g_localEvents g)
    (g_remoteEvents g).
Definition set_tempdirs (x : gmap string temporaryDirectoryMode) g : eng R :=
  Eng (g_sw g) (g_tree g) (g_root g) (g_remote g) (g_now g) (g_nextino g) (g_counter g) (g_stop g)
    (g_suppress g) (g_sweep g) (g_rootReplace g) (g_pending g) (g_rename g) (g_echo g) x
    (g_uploads g) (g_downloads g) (g_uploadRes g) (g_downloadRes g) (g_delayed g) (g_localEvents g)
    (g_remoteEvents g).
Definition set_uploads (x : list uploadOp) g : eng R :=
  Eng (g_sw g) (g_tree g) (g_root g) (g_remote g) (g_now g) (g_nextino g) (g_counter g) (g_stop g)
    (g_suppress g) (g_sweep g) (g_rootReplace g) (g_pending g) (g_rename g) (g_echo g)
    (g_tempdirs g) x (g_downloads g) (g_uploadRes g) (g_downloadRes g) (g_delayed g) (g_localEvents g)
    (g_remoteEvents g).
Definition set_downloads (x : list downloadOp) g : eng R :=
  Eng (g_sw g) (g_tree g) (g_root g) (g_remote g) (g_now g) (g_nextino g) (g_counter g) (g_stop g)
    (g_suppress g) (g_sweep g) (g_rootReplace g) (g_pending g) (g_rename g) (g_echo g)
    (g_tempdirs g) (g_uploads g) x (g_uploadRes g) (g_downloadRes g) (g_delayed g) (g_localEvents g)
    (g_remoteEvents g).
Definition set_uploadRes (x : list uploadResult) g : eng R :=
  Eng (g_sw g) (g_tree g) (g_root g) (g_remote g) (g_now g) (g_nextino g) (g_counter g) (g_stop g)
    (g_suppress g) (g_sweep g) (g_rootReplace g) (g_pending g) (g_rename g) (g_echo g)
    (g_tempdirs g) (g_uploads g) (g_downloads g) x (g_downloadRes g) (g_delayed g) (g_localEvents g)
    (g_remoteEvents g).
Definition set_downloadRes (x : list downloadResult) g : eng R :=
  Eng (g_sw g) (g_tree g) (g_root g) (g_remote g) (g_now g) (g_nextino g) (g_counter g) (g_stop g)
    (g_suppress g) (g_sweep g) (g_rootReplace g) (g_pending g) (g_rename g) (g_echo g)
    (g_tempdirs g) (g_uploads g) (g_downloads g) (g_uploadRes g) x (g_delayed g) (g_localEvents g)
    (g_remoteEvents g).
Definition set_delayed (x : list delayedUpload) g : eng R :=
  Eng (g_sw g) (g_tree g) (g_root g) (g_remote g) (g_now g) (g_nextino g) (g_counter g) (g_stop g)
    (g_suppress g) (g_sweep g) (g_rootReplace g) (g_pending g) (g_rename g) (g_echo g)
    (g_tempdirs g) (g_uploads g) (g_downloads g) (g_uploadRes g) (g_downloadRes g) x (g_localEvents g)
    (g_remoteEvents g).
Definition set_localEvents (x : list LocalEvent) g : eng R :=
  Eng (g_sw g) (g_tree g) (g_root g) (g_remote g) (g_now g) (g_nextino g) (g_counter g) (g_stop g)
    (g_suppress g) (g_sweep g) (g_rootReplace g) (g_pending g) (g_rename g) (g_echo g)
    (g_tempdirs g) (g_uploads g) (g_downloads g) (g_uploadRes g) (g_downloadRes g) (g_delayed g) x
    (g_remoteEvents g).
Definition set_remoteEvents (x : list remoteEvent) g : eng R :=
  Eng (g_sw g) (g_tree g) (g_root g) (g_remote g) (g_now g) (g_nextino g) (g_counter g) (g_stop g)
    (g_suppress g) (g_sweep g) (g_rootReplace g) (g_pending g) (g_rename g) (g_echo g)
    (g_tempdirs g) (g_uploads g) (g_downloads g) (g_uploadRes g) (g_downloadRes g) (g_delayed g)
    (g_localEvents g) x.

End setters.

(** * Running *)

Section World.
Context {H : Hashing} {R : Type} {RC : RemoteClient R}.

(** When others act: while the engine waits or works, or after its last look at a
    path, before it changes it. *)
Inductive moment := Waiting | Closing.

(** How the engine is configured, and [app], what the application and other
    goroutines do to the engine's world at such a moment.  [fmtTime] is the
    time stamp in the name of a conflict copy. *)
Class SyncCfg := {
  app : moment → eng R → eng R;
  fmtTime : Z → string;
  hostname : string;
  rootIdentity : string;
  rootPerm : Z;
  readonly : bool;
  ignore : option syncIgnore;
  maxFileBytes : Z;
  cfgChunkSize : Z;
  cfgChunkThreshold : Z;
  baseCtx : Ctx
}.
Context {cfg : SyncCfg}.

Definition E (A : Type) : Type := eng R → A * eng R.
Definition retE {A} (a : A) : E A := λ g, (a, g).
Definition bindE {A B} (m : E A) (f : A → E B) : E B := λ g, let '(a, g) := m g in f a g.
Definition getE {A} (f : eng R → A) : E A := λ g, (f g, g).
Definition modE (f : eng R → eng R) : E () := λ g, ((), f g).

#[local] Notation "x ← y ; z" := (bindE y (λ x, z))
  (at level 20, y at level 100, z at level 200, only parsing) : sync_scope.
#[local] Open Scope sync_scope.

(** Early returns: an [Err] is what the function returns at once. *)
Definition bindR {Er A B} (m : E (result Er A)) (f : A → E (result Er B)) : E (result Er B) :=
  bindE m (λ r, match r with Ok a => f a | Err e => retE (Err e) end).
Definition okE {Er A} (a : A) : E (result Er A) := retE (Ok a).
Definition errE {Er A} (e : Er) : E (result Er A) := retE (Err e).
(** [if b { return e }]. *)
Definition returnIf {Er} (b : bool) (e : Er) : E (result Er ()) := retE (if b then Err e else Ok ()).
(** [if err != nil { return f(err) }]. *)
Definition orReturn {Er A} (f : error → Er) (m : E (result error A)) : E (result Er A) :=
  bindE m (λ r, retE (match r with Ok a => Ok a | Err e => Err (f e) end)).
(** A computation whose value is not an error. *)
Definition liftE {Er A} (m : E A) : E (result Er A) := bindE m okE.
(** The value a function with early returns ends with. *)
Definition runR {A} (m : E (result A A)) : E A :=
  bindE m (λ r, retE (match r with Ok a => a | Err a => a end)).

(** A remote call: the others act, then the client does. *)
Definition remote {A} (f : R → result error A * R) : E (result error A) := λ g,
  let g := app Waiting g in
  let '(r, s) := f (g_remote g) in (r, set_remote s g).

Definition invalidateCache : E () := modE (λ g, set_remote (rInvalidateCache (g_remote g)) g).

(** ** Package os *)

Definition on_tree {A} (f : ltree → result error A) : E (result error A) :=
  getE (λ g, match g_root g with Some _ => f (g_tree g) | None => Err (Error ENOENT "no such file or directory") end).

Definition Lstat (p : string) : E (result error fileInfo) := on_tree (λ t, t_lstat t p).
Definition ReadFile (p : string) : E (result error bytes) := on_tree (λ t, t_readfile t p).
Definition ReadLink (p : string) : E (result error string) := on_tree (λ t, t_readlink t p).

(** [os.Lstat] where only an error other than absence counts. *)
Definition LstatOpt (p : string) : E (result error (option fileInfo)) :=
  r ← Lstat p;
  retE (match r with
        | Ok i => Ok (Some i)
        | Err e => if IsNotExist e then Ok None else Err e
        end).

Definition edit_tree (f : ltree → result error ltree) : E (result error ()) :=
  r ← on_tree f;
  match r with
  | Ok t => _ ← modE (set_tree t); retE (Ok ())
  | Err e => retE (Err e)
  end.

Definition Remove (p : string) : E (result error ()) := edit_tree (λ t, t_remove t p).
Definition RemoveAll (p : string) : E (result error ()) := edit_tree (λ t, Ok (t_remove_all t p)).
Definition RenameLocal (p q : string) : E (result error ()) := edit_tree (λ t, t_move t p q).

Definition MkdirAll (dirs : list string) : E (result error ()) := λ g,
  match g_root g with
  | None => (Err (Error ENOENT "no such file or directory"), g)
  | Some _ =>
      match t_mkdirs (g_tree g) (g_now g * 1000000) (g_nextino g) dirs with
      | Ok (t, ino) => (Ok (), set_nextino ino (set_tree t g))
      | Err e => (Err e, g)
      end
  end.

(** [os.MkdirAll(p, 0o755)] and the same for the directory of [p]. *)
Definition MkdirAllPath (p : string) : E (result error ()) := MkdirAll (ancestors p ++ [p]).
Definition MkdirAllDir (p : string) : E (result error ()) := MkdirAll (ancestors p).

(** [os.Chmod(p, fs.FileMode(mode))]: of a [fs.FileMode] made from a number only
    the nine permission bits reach the system call. *)
Definition ChmodLocal (p : string) (mode : Z) : E (result error ()) :=
  edit_tree (λ t, match t !! p with
    | Some i => Ok (<[p := Linode (i_node i) (Z.land mode 511) (i_mtimeNs i) (i_ino i)]> t)
    | None => Err (missing_error t p)
    end).

(** Rename of a staged file or link over [p]; the staged inode is new. *)
Definition commitStaged (p : string) (n : lnode) (perm : Z) : E (result error ()) := λ g,
  let ino := g_nextino g in
  edit_tree (λ t, t_commit t p (Linode n perm (g_now g * 1000000) ino)) (set_nextino (ino + 1) g).

(** ** The mount root *)

Definition checkLocalRoot : E (result error ()) := getE (λ g,
  match g_root g with
  | None => Err (plain "local sync root")
  | Some identity =>
      if bool_decide (rootIdentity ≠ "") && negb (bool_decide (identity = rootIdentity))
      then Err (plain "local sync root was replaced; preserve local files and remount")
      else Ok ()
  end).

(** [ctx.Err()] and [stopCh]: one flag, since both are set by the daemon when a
    generation ends. *)
Definition ctxErr : E (result error ()) := getE (λ g, if g_stop g then Err canceled else Ok ()).

Definition checkRunning : E (result error ()) :=
  c ← ctxErr;
  match c with Err e => retE (Err e) | Ok _ => checkLocalRoot end.

(** ** Requests and the baseline *)

Definition requestFullSweep : E () := modE (set_sweep true).
Definition requestRootReplace : E () := modE (set_rootReplace true).

Definition onSw (f : stateWriter → stateWriter) : E () := modE (λ g, set_sw (f (g_sw g)) g).
Definition storedAt (p : string) : E (SyncEntry * bool) :=
  getE (λ g, lookupEntry (s_Entries (sw_state (g_sw g))) p).
Definition now : E Z := getE g_now.

(** A critical section that stores an entry under a new version. *)
Definition putEntry (p : string) (e : SyncEntry) : E Z := λ g,
  let '(v, sw) := putVersioned p e (g_sw g) in (v, set_sw sw g).

(** ** Echo suppression *)

Definition echoSet (p : string) (x : echoExpectation) : E () :=
  modE (λ g, set_echo (<[p := x]> (g_echo g)) g).
Definition markFile (p hash : string) : E () :=
  echoSet p {| ex_kind := "file"; ex_hash := hash; ex_mode := 0; ex_identity := "" |}.
Definition markSymlink (p target : string) : E () :=
  echoSet p {| ex_kind := "symlink"; ex_hash := target; ex_mode := 0; ex_identity := "" |}.
Definition markDir (p : string) (mode : Z) (info : fileInfo) : E () :=
  echoSet p {| ex_kind := "dir"; ex_hash := ""; ex_mode := Z.land mode 511;
               ex_identity := localFileIdentity info |}.
Definition markDelete (p : string) : E () :=
  echoSet p {| ex_kind := "delete"; ex_hash := ""; ex_mode := 0; ex_identity := "" |}.

Definition echoConsume (p : string) : E (option echoExpectation) := λ g,
  (g_echo g !! p, set_echo (delete p (g_echo g)) g).

Definition matchesTemporaryDirectory (p : string) (info : fileInfo) : E bool :=
  getE (λ g, match g_tempdirs g !! p with
    | Some m => is_dir info && SameFile (td_before m) info && (fi_perm info =? td_mode m)
    | None => false
    end).

(** ** Conflict copies *)

(** [conflictPath]: the counter makes the name unique. *)
Definition conflictName (p : string) (ts : Z) (seq : Z) : string :=
  p +:+ ".conflict-" +:+ hostname +:+ "-" +:+ fmtTime ts +:+ "-" +:+ pretty seq.

Definition conflictPath (p : string) : E string := λ g,
  let seq := u64 (g_counter g + 1) in
  (conflictName p (g_now g) seq, set_counter seq g).

(** [moveLocalToConflict]: the empty string when there was nothing to move. *)
Definition moveLocalToConflict (p : string) : E (result error string) :=
  info ← Lstat p;
  match info with
  | Err e => retE (if IsNotExist e then Ok "" else Err e)
  | Ok _ =>
      target ← conflictPath p;
      r ← MkdirAllDir target;
      match r with
      | Err e => retE (Err e)
      | Ok _ =>
          r ← RenameLocal p target;
          match r with Err e => retE (Err e) | Ok _ => retE (Ok target) end
      end
  end.

(** ** Snapshots of a local path *)

Record downloadLocalSnapshot := {
  sn_info : option fileInfo;
  sn_hash : string;
  sn_baselineHash : string;
  sn_target : string
}.

Definition snapshotDownloadLocal (p : string) (stored : SyncEntry) :
    E (result error downloadLocalSnapshot) :=
  info ← Lstat p;
  match info with
  | Err e =>
      retE (if IsNotExist e
            then Ok {| sn_info := None; sn_hash := ""; sn_baselineHash := ""; sn_target := "" |}
            else Err e)
  | Ok info =>
      if is_symlink info then
        r ← ReadLink p;
        match r with
        | Err e => retE (Err e)
        | Ok target => retE (Ok {| sn_info := Some info; sn_hash := ""; sn_baselineHash := "";
                                   sn_target := target |})
        end
      else if is_regular info then
        r ← ReadFile p;
        match r with
        | Err e => retE (Err e)
        | Ok data =>
            let hash := sha256Hex data in
            let baseline :=
              if 0 <? e_ChunkSize stored
              then compositeHash (fst (streamChunkHashes data (e_ChunkSize stored))) else hash in
            retE (Ok {| sn_info := Some info; sn_hash := hash; sn_baselineHash := baseline;
                        sn_target := "" |})
        end
      else retE (Ok {| sn_info := Some info; sn_hash := ""; sn_baselineHash := ""; sn_target := "" |})
  end.

Definition sameInfo (a b : fileInfo) : bool :=
  SameFile a b && bool_decide (fi_kind a = fi_kind b) && (fi_perm a =? fi_perm b)
  && (fi_size a =? fi_size b) && (fi_mtimeNs a =? fi_mtimeNs b).

(** [unchanged]. *)
Definition unchanged (s : option fileInfo) (p : string) : E bool :=
  r ← Lstat p;
  retE (match s, r with
        | None, Err e => IsNotExist e
        | None, Ok _ => false
        | Some i, Ok j => sameInfo i j
        | Some _, Err _ => false
        end).

Definition matchesStored (s : downloadLocalSnapshot) (stored : SyncEntry) (hasStored : bool) : bool :=
  match sn_info s with
  | None => negb hasStored || e_Deleted stored
  | Some info =>
      if negb hasStored || e_Deleted stored then false
      else if is_regular info then
        bool_decide (e_Type stored = "file") && (fi_perm info =? Z.land (e_Mode stored) 511)
        && (fi_size info =? e_Size stored) && negb (bool_decide (e_LocalHash stored = ""))
        && (bool_decide (sn_hash s = e_LocalHash stored)
            || bool_decide (sn_baselineHash s = e_LocalHash stored))
      else if is_symlink info then
        bool_decide (e_Type stored = "symlink") && bool_decide (sn_target s = e_Target stored)
      else bool_decide (e_Type stored = "dir") && (fi_perm info =? Z.land (e_Mode stored) 511)
  end.

(** ** Queues *)

Definition channelCapacity : nat := 256.

(** [queueUpload]: never waits; a full queue becomes recovery work. *)
Definition queueUpload (op : uploadOp) : E bool := λ g,
  if g_stop g then (false, g)
  else if (length (g_uploads g) <? channelCapacity)%nat
  then (true, set_uploads (g_uploads g ++ [op]) g)
  else (false, set_sweep true g).

Definition queueDownload (op : downloadOp) : E () := λ g,
  if g_stop g then ((), g)
  else if (length (g_downloads g) <? channelCapacity)%nat
  then ((), set_downloads (g_downloads g ++ [op]) g)
  else ((), set_sweep true g).

(** ** Pending uploads *)

Definition bumpPending (p : string) : E () := modE (λ g,
  let m := g_pending g in
  let x := default {| p_count := 0; p_rescan := false |} (m !! p) in
  set_pending (<[p := {| p_count := p_count x + 1; p_rescan := p_rescan x |}]> m) g).

Definition deferScanForPendingUpload (p : string) : E bool := λ g,
  match g_pending g !! p with
  | Some x => (true, set_pending (<[p := {| p_count := p_count x; p_rescan := true |}]> (g_pending g)) g)
  | None => (false, g)
  end.

Definition finishPendingUpload (p : string) : E () := λ g,
  match g_pending g !! p with
  | None => ((), g)
  | Some x =>
      let c := p_count x - 1 in
      if c =? 0 then
        let g := set_pending (delete p (g_pending g)) g in
        if p_rescan x then requestFullSweep g else ((), g)
      else ((), set_pending (<[p := {| p_count := c; p_rescan := p_rescan x |}]> (g_pending g)) g)
  end.

(** A rename that was skipped has not created its destination: only the
    provisional baseline of this rename is forgotten. *)
Definition discardPendingRename (op : uploadOp) : E () :=
  if negb (bool_decide (uo_Kind op = opUploadRename)) then retE ()
  else
    e ← storedAt (uo_Path op);
    _ ← (if (e.2 : bool) && negb (e_Deleted e.1) && negb (uo_RenameVersion op =? 0)
             && (e_Version e.1 =? uo_RenameVersion op)
         then onSw (dropEntry (uo_Path op)) else retE ());
    onSw markDirty.

Definition isRename (op : uploadOp) : bool :=
  bool_decide (uo_Kind op = opUploadRename) && negb (bool_decide (uo_PrevPath op = "")).

Definition setTracked (op : uploadOp) : uploadOp :=
  {| uo_Kind := uo_Kind op; uo_Path := uo_Path op; uo_PrevPath := uo_PrevPath op;
     uo_Content := uo_Content op; uo_Mode := uo_Mode op; uo_Symlink := uo_Symlink op;
     uo_LocalHash := uo_LocalHash op; uo_LocalIdentity := uo_LocalIdentity op;
     uo_LocalMtimeMs := uo_LocalMtimeMs op; uo_StoredEntry := uo_StoredEntry op;
     uo_HasStored := uo_HasStored op; uo_Tracked := true; uo_RenameVersion := uo_RenameVersion op;
     uo_DeleteVersion := uo_DeleteVersion op; uo_Chunked := uo_Chunked op;
     uo_FileSize := uo_FileSize op; uo_ChunkSize := uo_ChunkSize op;
     uo_ChunkHashes := uo_ChunkHashes op; uo_DirtyChunks := uo_DirtyChunks op |}.

Definition finishTracked (op : uploadOp) : E () :=
  _ ← finishPendingUpload (uo_Path op);
  if isRename op then finishPendingUpload (uo_PrevPath op) else retE ().

Definition enqueueTrackedUpload (op : uploadOp) : E () :=
  _ ← bumpPending (uo_Path op);
  _ ← (if isRename op then bumpPending (uo_PrevPath op) else retE ());
  let op := setTracked op in
  sent ← queueUpload op;
  if (sent : bool) then retE ()
  else
    _ ← discardPendingRename op;
    _ ← finishTracked op;
    requestFullSweep.

End World.

Arguments E R A : clear implicits.
