(* ===== verification/SyncPlan.v ===== *)
(** The planning half of cmd/afs/sync_full_reconciler.go with
    [observedChangedFromStored] and [mountRemoteDirHasLiveDescendants] of
    mount_reconcile.go: scanning both sides by metadata, tombstones for files
    deleted while the daemon was away, and the three-way comparison of local,
    remote and baseline that decides what is done to each path. *)
From S2P Require Import Prelude Content Paths FsClient SyncState SyncWorld.
#[local] Open Scope string_scope.
#[local] Open Scope list_scope.
#[local] Open Scope Z_scope.

#[local] Notation "x ← y ; z" := (bindE y (λ x, z))
  (at level 20, y at level 100, z at level 200, only parsing) : sync_scope.
#[local] Open Scope sync_scope.

Record observedMeta := {
  o_kind : string;
  o_mode : Z;
  o_size : Z;
  o_mtimeMs : Z;
  o_mtimeNs : Z;
  o_target : string
}.

#[export] Instance observedMeta_eq_dec : EqDecision observedMeta.
Proof. solve_decision. Defined.

Inductive actionKind :=
| ADownload | AUpload | AMkdirLocal | AMkdirRemote | ADeleteLocal | ADeleteRemote
| ASymlinkDownload | ASymlinkUpload.

#[export] Instance actionKind_eq_dec : EqDecision actionKind.
Proof. solve_decision. Defined.

Record syncAction := {
  a_kind : actionKind;
  a_path : string;
  a_mode : Z;
  a_target : string;
  a_conflict : bool;
  a_localMeta : option observedMeta;
  a_remoteMeta : option observedMeta;
  a_checkState : bool;
  a_storedEntry : SyncEntry;
  a_hasStored : bool
}.

(** An action with the fields a literal of the source leaves out at zero. *)
Definition action (kind : actionKind) (path : string) (mode : Z) (target : string)
    (conflict : bool) (l r : option observedMeta) : syncAction :=
  {| a_kind := kind; a_path := path; a_mode := mode; a_target := target; a_conflict := conflict;
     a_localMeta := l; a_remoteMeta := r; a_checkState := false; a_storedEntry := zeroEntry;
     a_hasStored := false |}.

(** * Comparisons *)

Definition metaMatch (l r : observedMeta) (stored : SyncEntry) (hasStored : bool) : bool :=
  if negb (bool_decide (o_kind l = o_kind r)) then false
  else if bool_decide (o_kind l = "dir") then o_mode l =? o_mode r
  else if bool_decide (o_kind l = "symlink") then bool_decide (o_target l = o_target r)
  else if bool_decide (o_kind l = "file") then
    if negb (o_size l =? o_size r) || negb (o_mode l =? o_mode r) then false
    else hasStored && (e_Size stored =? o_size l)
         && (o_mtimeMs l =? e_LocalMtimeMs stored) && (o_mtimeMs r =? e_RemoteMtimeMs stored)
  else false.

Definition observedChangedFromStored (meta : observedMeta) (stored : SyncEntry) (localSide : bool) : bool :=
  if e_Deleted stored || negb (bool_decide (o_kind meta = e_Type stored)) then true
  else if bool_decide (o_kind meta = "dir") then
    negb (e_Mode stored =? 0) && negb (o_mode meta =? 0) && negb (o_mode meta =? e_Mode stored)
  else if bool_decide (o_kind meta = "symlink") then negb (bool_decide (o_target meta = e_Target stored))
  else if bool_decide (o_kind meta = "file") then
    if negb (o_size meta =? e_Size stored) then true
    else if localSide
    then negb (e_LocalMtimeMs stored =? 0) && negb (o_mtimeMs meta =? e_LocalMtimeMs stored)
    else negb (e_RemoteMtimeMs stored =? 0) && negb (o_mtimeMs meta =? e_RemoteMtimeMs stored)
  else true.

Definition targetFromMeta (l r : observedMeta) : string :=
  if bool_decide (o_kind l = "symlink") then o_target l
  else if bool_decide (o_kind r = "symlink") then o_target r
  else "".

(** The range over a map of the source visits its keys in some order; a child
    is live unless it has a tombstone. *)
Definition mountRemoteDirHasLiveDescendants (path : string) (remote : gmap string observedMeta)
    (m : entries) : bool :=
  let prefix := TrimSuffix1 path slash +:+ "/" in
  existsb (λ child, HasPrefix child prefix
                    && negb (match m !! child with Some e => e_Deleted e | None => false end))
    (map fst (map_to_list remote)).

(** [mode &^ 0o222]. *)
Definition dropWriteBits (m : Z) : Z := Z.ldiff m 146.

Definition planDownload (path : string) (r : observedMeta) (conflict : bool) : syncAction :=
  if bool_decide (o_kind r = "dir") then action AMkdirLocal path (o_mode r) "" false None (Some r)
  else if bool_decide (o_kind r = "symlink")
  then action ASymlinkDownload path 0 (o_target r) conflict None (Some r)
  else action ADownload path (o_mode r) "" conflict None (Some r).

Section Plan.
Context {H : Hashing} {R : Type} {RC : RemoteClient R} {cfg : @SyncCfg R}.
#[local] Notation E := (SyncWorld.E R).

Definition planUpload (path : string) (l : observedMeta) : list syncAction :=
  if readonly then []
  else if bool_decide (o_kind l = "dir") then [action AMkdirRemote path (o_mode l) "" false None None]
  else if bool_decide (o_kind l = "symlink")
  then [action ASymlinkUpload path 0 (o_target l) false None None]
  else if bool_decide (o_kind l = "file")
  then [action AUpload path (o_mode l) "" false (Some l) None]
  else [].

(** * Scans *)

Definition meta_of (i : linode) : observedMeta :=
  let info := info_of i in
  match i_node i with
  | NLink target => {| o_kind := "symlink"; o_mode := 0; o_size := 0; o_mtimeMs := UnixMilli info;
                       o_mtimeNs := 0; o_target := target |}
  | NDir => {| o_kind := "dir"; o_mode := fi_perm info; o_size := 0; o_mtimeMs := UnixMilli info;
               o_mtimeNs := 0; o_target := "" |}
  | NFile _ => {| o_kind := "file"; o_mode := fi_perm info; o_size := fi_size info;
                  o_mtimeMs := UnixMilli info; o_mtimeNs := fi_mtimeNs info; o_target := "" |}
  end.

(** [filepath.WalkDir] does not enter an ignored directory. *)
Definition walked (t : ltree) (p : string) : bool :=
  forallb (λ d, negb (shouldIgnoreEntry ignore d true)) (ancestors p)
  && negb (shouldIgnoreEntry ignore p (is_dir_at t p)).

(** The walk reads the tree at one moment, which lies between the two looks at
    the root. *)
Definition scanLocalMeta : E (result error (gmap string observedMeta)) :=
  c ← checkLocalRoot;
  match c with
  | Err e => retE (Err e)
  | Ok _ =>
      before ← getE g_root;
      _ ← modE (app Waiting);
      t ← getE g_tree;
      after ← getE g_root;
      retE (match before, after with
            | Some b, Some a =>
                if bool_decide (b = a)
                then Ok (meta_of <$> filter (λ '(p, _), walked t p = true) t)
                else Err (plain "local sync root changed during scan")
            | _, _ => Err (plain "local sync root")
            end)
  end.

(** [scanRemoteDirMeta]; one unit of fuel per directory level. *)
Fixpoint scanRemoteDirMeta (fuel : nat) (dir : string) (out : gmap string observedMeta) :
    E (result error (gmap string observedMeta)) :=
  match fuel with
  | O => retE (Err (plain "out of fuel"))
  | S fuel =>
      c ← ctxErr;
      match c with
      | Err e => retE (Err e)
      | Ok _ =>
          ls ← remote (rLsLong baseCtx dir);
          match ls with
          | Err e => retE (Err e)
          | Ok items =>
              (fix each (items : list LsEntry) (out : gmap string observedMeta) :=
                match items with
                | [] => retE (Ok out)
                | e :: items =>
                    let full := joinRemote dir (ls_Name e) in
                    let rel := TrimPrefix full "/" in
                    if shouldIgnore ignore rel (bool_decide (ls_Type e = "dir")) then each items out
                    else if bool_decide (ls_Type e = "dir") then
                      let out := <[rel := {| o_kind := "dir"; o_mode := ls_Mode e; o_size := 0;
                                             o_mtimeMs := ls_Mtime e; o_mtimeNs := 0; o_target := "" |}]> out in
                      r ← scanRemoteDirMeta fuel full out;
                      match r with Err e => retE (Err e) | Ok out => each items out end
                    else if bool_decide (ls_Type e = "symlink") then
                      t ← remote (rReadlink baseCtx full);
                      match t with
                      | Err _ => each items out
                      | Ok target =>
                          each items (<[rel := {| o_kind := "symlink"; o_mode := ls_Mode e;
                                                  o_size := ls_Size e; o_mtimeMs := ls_Mtime e;
                                                  o_mtimeNs := 0; o_target := target |}]> out)
                      end
                    else if bool_decide (ls_Type e = "file") then
                      each items (<[rel := {| o_kind := "file"; o_mode := ls_Mode e;
                                              o_size := ls_Size e; o_mtimeMs := ls_Mtime e;
                                              o_mtimeNs := 0; o_target := "" |}]> out)
                    else each items out
                end) items out
          end
      end
  end.

Definition scanRemoteMeta (fuel : nat) : E (result error (gmap string observedMeta)) :=
  r ← scanRemoteDirMeta fuel "/" ∅;
  retE (match r with
        | Err e => if isClientNotFound e then Ok ∅ else Err e
        | Ok out => Ok out
        end).

(** * Tombstones *)

(** One turn of [detectOfflineDeletes]. *)
Definition detectOfflineDelete (loc : gmap string observedMeta) (path : string) : E () :=
  e ← storedAt path;
  if negb (e.2 : bool) then retE ()
  else
    let entry := e.1 in
    if readonly then
      (if e_Deleted entry then _ ← putEntry path (setDeleted false entry); retE () else retE ())
    else if e_Deleted entry then retE ()
    else match loc !! path with
         | Some _ => retE ()
         | None =>
             info ← Lstat path;
             match info with
             | Ok _ => retE ()
             | Err err =>
                 if negb (IsNotExist err) then retE ()
                 else
                   t ← now;
                   _ ← putEntry path (setSyncedAt t (setDeleted true entry));
                   retE ()
             end
         end.

(** The range over the entries visits them in the order [order]. *)
Fixpoint detectOfflineDeletes (order : list string) (loc : gmap string observedMeta) : E () :=
  match order with
  | [] => retE ()
  | p :: order => _ ← detectOfflineDelete loc p; detectOfflineDeletes order loc
  end.

Definition tombstoneMaxAge : Z := 5 * 60 * 1000.

Definition expired (t : Z) (e : SyncEntry) : bool :=
  e_Deleted e && (tombstoneMaxAge <? t - e_LastSyncedAt e).

Definition cleanupTombstones : E () :=
  t ← now;
  onSw (λ w,
    let m := s_Entries (sw_state w) in
    let m' := filter (λ '(_, e), expired t e = false) m in
    if bool_decide (m' = m) then w else setDirty (onState (withEntries (λ _, m')) w)).

(** * The plan *)

Definition refreshStateMeta (rel : string) (l r : observedMeta) (stored : SyncEntry) (hasStored : bool) :
    E () :=
  t ← now;
  e ← storedAt rel;
  if negb (bool_decide ((e.2 : bool) = hasStored))
     || (e.2 : bool) && negb (e_Version e.1 =? e_Version stored)
  then requestFullSweep
  else
    let entry := setSyncedAt t (setObserved (o_kind l) (o_mode l) (o_size l) (o_mtimeMs l)
                   (o_mtimeMs r) (targetFromMeta l r) (setDeleted false e.1)) in
    _ ← putEntry rel entry; retE ().

(** Local only. *)
Definition planLocalOnly (path : string) (l : observedMeta) (stored : SyncEntry) (hasStored : bool) :
    E (list syncAction) :=
  if hasStored && e_Deleted stored then retE (planUpload path l)
  else if hasStored then
    r ← remote (rStat baseCtx (absoluteRemotePath path));
    match r with
    | Ok (Some _) => retE []
    | Err e =>
        if negb (isClientNotFound e) then _ ← requestFullSweep; retE []
        else retE [action ADeleteLocal path 0 "" false None None]
    | Ok None => retE [action ADeleteLocal path 0 "" false None None]
    end
  else retE (planUpload path l).

(** Remote only. *)
Definition planRemoteOnly (path : string) (r : observedMeta) (stored : SyncEntry) (hasStored : bool)
    (rem : gmap string observedMeta) : E (list syncAction) :=
  if hasStored && e_Deleted stored then
    live ← (if bool_decide (o_kind r = "dir")
            then getE (λ g, mountRemoteDirHasLiveDescendants path rem (s_Entries (sw_state (g_sw g))))
            else retE false);
    if (live : bool) then retE [planDownload path r false]
    else retE [action ADeleteRemote path 0 "" false None None]
  else retE [planDownload path r false].

(** On both sides. *)
Definition planBoth (path : string) (l r : observedMeta) (stored : SyncEntry) (hasStored : bool) :
    E (list syncAction) :=
  let c := if readonly && bool_decide (o_kind r = "file")
           then {| o_kind := o_kind r; o_mode := dropWriteBits (o_mode r); o_size := o_size r;
                   o_mtimeMs := o_mtimeMs r; o_mtimeNs := o_mtimeNs r; o_target := o_target r |}
           else r in
  if metaMatch l c stored hasStored then
    _ ← refreshStateMeta path l r stored hasStored; retE []
  else if hasStored && negb (e_Deleted stored) then
    let localChanged := observedChangedFromStored l stored true || negb (o_mode l =? e_Mode stored) in
    let remoteChanged := observedChangedFromStored c stored false || negb (o_mode c =? e_Mode stored) in
    match localChanged, remoteChanged with
    | true, false => if readonly then retE [planDownload path r true] else retE (planUpload path l)
    | false, true => retE [planDownload path r false]
    | true, true => retE [planDownload path r true]
    | false, false => _ ← refreshStateMeta path l r stored hasStored; retE []
    end
  else retE [planDownload path r true].

Definition planPath (baseline : entries) (loc rem : gmap string observedMeta) (path : string) :
    E (list syncAction) :=
  deferred ← deferScanForPendingUpload path;
  if (deferred : bool) then retE []
  else
    let '(stored, hasStored) := lookupEntry baseline path in
    match loc !! path, rem !! path with
    | Some l, None => planLocalOnly path l stored hasStored
    | None, Some r => planRemoteOnly path r stored hasStored rem
    | Some l, Some r => planBoth path l r stored hasStored
    | None, None => retE []
    end.

Fixpoint planPaths (baseline : entries) (loc rem : gmap string observedMeta) (order : list string) :
    E (list syncAction) :=
  match order with
  | [] => retE []
  | p :: order =>
      a ← planPath baseline loc rem p;
      rest ← planPaths baseline loc rem order;
      retE (a ++ rest)
  end.

(** The loop that closes [buildPlan]. *)
Definition finishAction (baseline : entries) (loc rem : gmap string observedMeta) (a : syncAction) :
    syncAction :=
  let '(stored, hasStored) := lookupEntry baseline (a_path a) in
  {| a_kind := a_kind a; a_path := a_path a; a_mode := a_mode a; a_target := a_target a;
     a_conflict := a_conflict a;
     a_localMeta := match loc !! a_path a with Some l => Some l | None => a_localMeta a end;
     a_remoteMeta := match rem !! a_path a with Some r => Some r | None => a_remoteMeta a end;
     a_checkState := true; a_storedEntry := stored; a_hasStored := hasStored |}.

(** The set of paths is ranged over in the order [order]. *)
Definition buildPlan (order : list string) (loc rem : gmap string observedMeta) : E (list syncAction) :=
  baseline ← getE (λ g, s_Entries (sw_state (g_sw g)));
  plan ← planPaths baseline loc rem order;
  retE (map (finishAction baseline loc rem) plan).

End Plan.
