(* ===== verification/SyncDown.v ===== *)
(** The downloader (cmd/afs/sync_downloader.go), the confirmation of remote
    deletions (sync_remote_delete.go) and the conflict copy of a deleted subtree
    (sync_conflict.go).  Every operation ends by sending one [downloadResult],
    which the functions return. *)
From S2P Require Import Prelude Content Paths FsClient SyncState SyncWorld.
#[local] Open Scope string_scope.
#[local] Open Scope list_scope.
#[local] Open Scope Z_scope.

#[local] Notation "x ← y ; z" := (bindE y (λ x, z))
  (at level 20, y at level 100, z at level 200, only parsing) : sync_scope.
#[local] Notation "x ⇐ y ; z" := (bindR y (λ x, z))
  (at level 20, y at level 100, z at level 200, only parsing) : sync_scope.
#[local] Open Scope sync_scope.

(** A literal [downloadResult{Op: op}] and the fields the literals set. *)
Definition dresult (op : downloadOp) : downloadResult :=
  {| dr_Op := op; dr_Err := None; dr_Skipped := false; dr_RemoteHash := ""; dr_RemoteStat := None;
     dr_ConflictPath := ""; dr_Mode := 0; dr_Size := 0; dr_MtimeMs := 0; dr_LocalMtimeMs := 0;
     dr_LocalInfo := None; dr_Target := "" |}.

Definition dresultErr (op : downloadOp) (e : error) : downloadResult :=
  {| dr_Op := op; dr_Err := Some e; dr_Skipped := false; dr_RemoteHash := ""; dr_RemoteStat := None;
     dr_ConflictPath := ""; dr_Mode := 0; dr_Size := 0; dr_MtimeMs := 0; dr_LocalMtimeMs := 0;
     dr_LocalInfo := None; dr_Target := "" |}.

Definition dresultFull (op : downloadOp) (e : option error) (skipped : bool) (conflictPath : string) :
    downloadResult :=
  {| dr_Op := op; dr_Err := e; dr_Skipped := skipped; dr_RemoteHash := ""; dr_RemoteStat := None;
     dr_ConflictPath := conflictPath; dr_Mode := 0; dr_Size := 0; dr_MtimeMs := 0;
     dr_LocalMtimeMs := 0; dr_LocalInfo := None; dr_Target := "" |}.

Definition dskipped (op : downloadOp) : downloadResult := dresultFull op None true "".

Definition dresultMode (op : downloadOp) (mode : Z) (e : option error) (info : option fileInfo) :
    downloadResult :=
  {| dr_Op := op; dr_Err := e; dr_Skipped := false; dr_RemoteHash := ""; dr_RemoteStat := None;
     dr_ConflictPath := ""; dr_Mode := mode; dr_Size := 0; dr_MtimeMs := 0; dr_LocalMtimeMs := 0;
     dr_LocalInfo := info; dr_Target := "" |}.

Definition dresultLink (op : downloadOp) (target conflictPath : string) (info : fileInfo) :
    downloadResult :=
  {| dr_Op := op; dr_Err := None; dr_Skipped := false; dr_RemoteHash := ""; dr_RemoteStat := None;
     dr_ConflictPath := conflictPath; dr_Mode := 0; dr_Size := 0; dr_MtimeMs := 0;
     dr_LocalMtimeMs := UnixMilli info; dr_LocalInfo := Some info; dr_Target := target |}.

(** Assignments to fields of the operation. *)
Definition withKind (k : downloadOpKind) (mode : Z) (symlink : string) (op : downloadOp) : downloadOp :=
  {| do_Kind := k; do_Path := do_Path op; do_Mode := mode; do_Symlink := symlink;
     do_StoredEntry := do_StoredEntry op; do_HasStored := do_HasStored op;
     do_Conflict := do_Conflict op; do_Chunked := do_Chunked op; do_FileSize := do_FileSize op;
     do_ChunkSize := do_ChunkSize op; do_ChunkHashes := do_ChunkHashes op;
     do_DirtyChunks := do_DirtyChunks op |}.

(** [op.Chunked, op.FileSize, op.ChunkSize = false, 0, 0] and no manifest. *)
Definition unchunked (op : downloadOp) : downloadOp :=
  {| do_Kind := do_Kind op; do_Path := do_Path op; do_Mode := do_Mode op; do_Symlink := do_Symlink op;
     do_StoredEntry := do_StoredEntry op; do_HasStored := do_HasStored op;
     do_Conflict := do_Conflict op; do_Chunked := false; do_FileSize := 0; do_ChunkSize := 0;
     do_ChunkHashes := []; do_DirtyChunks := [] |}.

Section Down.
Context {H : Hashing} {R : Type} {RC : RemoteClient R} {cfg : @SyncCfg R}.
#[local] Notation E := (SyncWorld.E R).

(** [cancelled]: the context and the mount root before anything local changes.
    Sending the error is left to the caller. *)
Definition downloaderRoot : E (result error ()) :=
  if bool_decide (rootIdentity = "") then okE () else checkLocalRoot.

Definition cancelled : E (result error ()) := _ ⇐ ctxErr; downloaderRoot.

(** [writeLocalFile]: the new bytes, given by [write], are complete in a sibling
    file before the destination is touched.  Others act before the destination is
    looked at, while the bytes are staged, and on either side of the conflict move. *)
Definition writeLocalFile (op : downloadOp) (mode : Z) (write : E (result error bytes))
    (beforeCommit : E (result error ())) : E (string * option error) :=
  let p := do_Path op in
  r ← (_ ⇐ cancelled;
       _ ⇐ MkdirAllDir p;
       _ ⇐ ctxErr;
       _ ⇐ liftE (modE (app Closing));
       info ⇐ LstatOpt p;
       _ ⇐ liftE (modE (app Waiting));
       data ⇐ write;
       _ ⇐ liftE (modE (app Waiting));
       _ ⇐ cancelled;
       _ ⇐ beforeCommit;
       same ⇐ liftE (unchanged info p);
       _ ⇐ returnIf (negb same) errSyncDownloadLocalChanged;
       _ ⇐ liftE (modE (app Closing));
       cp ⇐ (if do_Conflict op then moveLocalToConflict p else okE "");
       _ ⇐ liftE (modE (app Closing));
       done ⇐ liftE (commitStaged p (NFile data) (Z.land mode 511));
       okE (cp, match done with Err e => Some e | Ok _ => None end));
  retE (match r with Ok x => x | Err e => ("", Some e) end).

Definition sendFileResult (op : downloadOp) (stat : StatResult) (hash cp : string) (mode size : Z) :
    E downloadResult :=
  r ← Lstat (do_Path op);
  retE (match r with
        | Err e => dresultFull op (Some e) false cp
        | Ok info =>
            {| dr_Op := op; dr_Err := None; dr_Skipped := false; dr_RemoteHash := hash;
               dr_RemoteStat := Some stat; dr_ConflictPath := cp; dr_Mode := mode; dr_Size := size;
               dr_MtimeMs := st_mtime stat; dr_LocalMtimeMs := UnixMilli info;
               dr_LocalInfo := Some info; dr_Target := "" |}
        end).

(** ** Deletions *)

(** [preserveLocalDeleteConflict]: whether something at or below [p] differs
    from its baseline; the walk visits the tree in the order [walk]. *)
Fixpoint changedBelow (walk : list string) (p : string) (stored : SyncEntry) (hasStored : bool) :
    E (result error bool) :=
  match walk with
  | [] => okE false
  | current :: walk =>
      _ ⇐ liftE (modE (app Closing));
      _ ⇐ ctxErr;
      known ⇐ liftE (if bool_decide (current = p) then retE (stored, hasStored) else storedAt current);
      let baseline := setDeleted false known.1 in
      loc ⇐ snapshotDownloadLocal current baseline;
      _ ⇐ liftE (modE (app Closing));
      same ⇐ liftE (unchanged (sn_info loc) current);
      if negb (matchesStored loc baseline known.2) || negb (same : bool) then okE true
      else changedBelow walk p stored hasStored
  end.

(** What [filepath.WalkDir] visits: the path and everything below it. *)
Definition walkBelow (t : ltree) (p : string) : list string :=
  (if bool_decide (is_Some (t !! p)) then [p] else []) ++ filter (λ q, under p q = true) (map fst (map_to_list t)).

Definition preserveLocalDeleteConflict (checkRun : E (result error ())) (p : string)
    (stored : SyncEntry) (hasStored : bool) : E (result error string) :=
  walk ← getE (λ g, walkBelow (g_tree g) p);
  changed ⇐ changedBelow walk p stored hasStored;
  if negb (changed : bool) then okE ""
  else
    _ ⇐ ctxErr;
    _ ⇐ checkRun;
    _ ⇐ liftE (modE (app Closing));
    moveLocalToConflict p.

(** [applySyncRemoteDelete]: the path of a conflict copy, and whether the
    deletion was skipped because something is newer. *)
Definition applySyncRemoteDelete (checkRun : E (result error ())) (p : string) (stored : SyncEntry)
    (hasStored : bool) : E (string * bool * option error) :=
  r ← (cur ⇐ liftE (storedAt p);
       _ ⇐ returnIf (negb (bool_decide ((cur.2 : bool) = hasStored))
                     || (cur.2 : bool) && negb (e_Version cur.1 =? e_Version stored))
            ("", true, None);
       _ ⇐ orReturn (λ e, ("", false, Some e)) ctxErr;
       _ ⇐ orReturn (λ e, ("", false, Some e)) checkRun;
       loc ⇐ orReturn (λ e, ("", false, Some e)) (snapshotDownloadLocal p stored);
       _ ⇐ liftE (modE (app Waiting));
       cp ⇐ orReturn (λ e, ("", false, Some e)) (preserveLocalDeleteConflict checkRun p stored hasStored);
       _ ⇐ orReturn (λ e, (cp, false, Some e)) ctxErr;
       _ ⇐ orReturn (λ e, (cp, false, Some e)) checkRun;
       _ ⇐ liftE (modE (app Closing));
       _ ⇐ (if bool_decide (cp = "") then
              same ⇐ liftE (unchanged (sn_info loc) p);
              _ ⇐ returnIf (negb same) ("", true, None);
              _ ⇐ liftE (markDelete p);
              _ ⇐ liftE (modE (app Closing));
              done ⇐ liftE (match sn_info loc with
                            | Some i => if is_dir i then RemoveAll p else Remove p
                            | None => Remove p
                            end);
              match done with
              | Err e => returnIf (negb (IsNotExist e)) ("", false, Some e)
              | Ok _ => okE ()
              end
            else
              r ⇐ liftE (Lstat p);
              match r with
              | Ok _ => errE (cp, true, None)
              | Err e => returnIf (negb (IsNotExist e)) (cp, true, Some e)
              end);
       _ ⇐ liftE (onSw (λ w, setDirty (onState (withEntries
              (filter (λ '(q, _), negb (bool_decide (q = p) || under p q) = true))) w)));
       okE (cp, false, None));
  retE (match r with Ok x => x | Err x => x end).

Definition applyConfirmedSyncRemoteDelete (checkRun : E (result error ())) (p : string)
    (stored : SyncEntry) (hasStored : bool) : E (string * bool * option error) :=
  runR (_ ⇐ orReturn (λ e, ("", false, Some e)) ctxErr;
        _ ⇐ orReturn (λ e, ("", false, Some e)) checkRun;
        _ ⇐ liftE invalidateCache;
        st ⇐ liftE (remote (rStat baseCtx (absoluteRemotePath p)));
        _ ⇐ match st with
            | Err e => returnIf (negb (isSyncRemoteMissingError e))
                         ("", false, Some (Errorf "confirm remote deletion" e))
            | Ok (Some _) => errE ("", true, None)
            | Ok None => okE ()
            end;
        liftE (applySyncRemoteDelete checkRun p stored hasStored)).

Definition processDelete (op : downloadOp) : E downloadResult :=
  runR (_ ⇐ orReturn (dresultErr op) cancelled;
        r ⇐ liftE (applyConfirmedSyncRemoteDelete downloaderRoot (do_Path op) (do_StoredEntry op)
                     (do_HasStored op));
        let '(cp, skipped, e) := r in
        okE (dresultFull op e skipped cp)).

(** ** Files, links and directories *)

Definition processSymlink (op : downloadOp) : E downloadResult :=
  let p := do_Path op in
  runR (loc ⇐ orReturn (dresultErr op) (snapshotDownloadLocal p (do_StoredEntry op));
        op ⇐ (if bool_decide (do_Symlink op = "") then
                target ⇐ orReturn (dresultErr op) (remote (rReadlink baseCtx (absoluteRemotePath p)));
                okE (withKind (do_Kind op) (do_Mode op) target op)
              else okE op);
        _ ⇐ orReturn (dresultErr op) cancelled;
        same ⇐ liftE (unchanged (sn_info loc) p);
        _ ⇐ returnIf (negb same) (dskipped op);
        _ ⇐ (match sn_info loc with
             | Some i => returnIf (is_symlink i && bool_decide (sn_target loc = do_Symlink op))
                           (dresultLink op (do_Symlink op) "" i)
             | None => okE ()
             end);
        _ ⇐ returnIf (negb (do_Conflict op)
                      && negb (matchesStored loc (do_StoredEntry op) (do_HasStored op))) (dskipped op);
        _ ⇐ orReturn (dresultErr op) (MkdirAllDir p);
        _ ⇐ liftE (modE (app Waiting));
        _ ⇐ orReturn (dresultErr op) cancelled;
        info ⇐ liftE (Lstat p);
        _ ⇐ orReturn (dresultErr op) cancelled;
        same ⇐ liftE (unchanged (sn_info loc) p);
        _ ⇐ returnIf (negb same) (dskipped op);
        _ ⇐ liftE (modE (app Closing));
        cp ⇐ (if do_Conflict op then orReturn (dresultErr op) (moveLocalToConflict p)
              else match info with
                   | Ok i =>
                       if is_dir i then _ ⇐ orReturn (dresultErr op) (Remove p); okE ""
                       else okE ""
                   | Err _ => okE ""
                   end);
        _ ⇐ liftE (modE (app Closing));
        _ ⇐ orReturn (λ e, dresultFull op (Some e) false cp)
              (commitStaged p (NLink (do_Symlink op)) 511);
        _ ⇐ liftE (markSymlink p (do_Symlink op));
        info ⇐ orReturn (λ e, dresultFull op (Some e) false cp) (Lstat p);
        okE (dresultLink op (do_Symlink op) cp info)).

Definition processMkdir (op : downloadOp) : E downloadResult :=
  let p := do_Path op in
  runR (_ ⇐ orReturn (dresultErr op) cancelled;
        st ⇐ orReturn (dresultErr op) (remote (rStat baseCtx (absoluteRemotePath p)));
        op ⇐ (match st with
              | Some s =>
                  if bool_decide (st_type s = "dir")
                  then okE (withKind (do_Kind op) (st_mode s) (do_Symlink op) op)
                  else errE (dskipped op)
              | None => errE (dskipped op)
              end);
        before ⇐ orReturn (dresultErr op) (LstatOpt p);
        _ ⇐ (match before with
             | Some b =>
                 _ ⇐ returnIf (negb (is_dir b)) (dskipped op);
                 returnIf (negb readonly && do_HasStored op
                           && bool_decide (e_Type (do_StoredEntry op) = "dir")
                           && negb (fi_perm b =? e_Mode (do_StoredEntry op))
                           && (do_Mode op =? e_Mode (do_StoredEntry op))) (dskipped op)
             | None => okE ()
             end);
        _ ⇐ liftE (modE (app Closing));
        _ ⇐ orReturn (λ e, dresultErr op (Errorf "mkdir local" e)) (MkdirAllPath p);
        info ⇐ orReturn (dresultErr op) (Lstat p);
        _ ⇐ liftE (markDir p (do_Mode op) info);
        _ ⇐ liftE (modE (app Closing));
        _ ⇐ orReturn (λ e, dresultErr op (Errorf "chmod local directory" e))
              (ChmodLocal p (Z.land (do_Mode op) 4095));
        info ⇐ liftE (Lstat p);
        okE (match info with
             | Ok i => dresultMode op (do_Mode op) None (Some i)
             | Err e => dresultMode op (do_Mode op) (Some e) None
             end)).

Definition processChmod (op : downloadOp) : E downloadResult :=
  runR (_ ⇐ orReturn (dresultErr op) cancelled;
        _ ⇐ orReturn (dresultErr op) (ChmodLocal (do_Path op) (Z.land (do_Mode op) 4095));
        okE (dresultMode op (do_Mode op) None None)).

(** Whether the local file already is the remote one. *)
Definition sameLocalFile (loc : downloadLocalSnapshot) (hash : string) (mode : Z) : bool :=
  match sn_info loc with
  | Some i => is_regular i && bool_decide (sn_hash loc = hash) && (fi_perm i =? Z.land mode 511)
  | None => false
  end.

(** Write bits are not handed out on a read-only mount. *)
Definition localMode (mode : Z) : Z := if readonly then Z.ldiff mode 146 else mode.

(** [processFile] of an operation without chunks. *)
Definition processWholeFile (op : downloadOp) : E downloadResult :=
  let p := do_Path op in
  runR (loc ⇐ orReturn (dresultErr op) (snapshotDownloadLocal p (do_StoredEntry op));
        st ⇐ liftE (remote (rStat baseCtx (absoluteRemotePath p)));
        st ⇐ (match st with
              | Err e => if negb (isClientNotFound e)
                         then errE (dresultErr op (Errorf "stat remote" e)) else okE None
              | Ok st => okE st
              end);
        _ ⇐ orReturn (dresultErr op) cancelled;
        match st with
        | None =>
            same ⇐ liftE (unchanged (sn_info loc) p);
            _ ⇐ returnIf (negb same || negb (matchesStored loc (do_StoredEntry op) (do_HasStored op)))
                  (dskipped op);
            liftE (processDelete (withKind opDownloadDelete (do_Mode op) (do_Symlink op) op))
        | Some s =>
            if bool_decide (st_type s = "dir") then
              liftE (processMkdir (withKind opDownloadMkdir (st_mode s) (do_Symlink op) op))
            else if bool_decide (st_type s = "symlink") then
              target ⇐ orReturn (dresultErr op) (remote (rReadlink baseCtx (absoluteRemotePath p)));
              liftE (processSymlink (withKind (do_Kind op) (do_Mode op) target op))
            else
              data ⇐ orReturn (λ e, dresultErr op (Errorf "read remote" e))
                       (remote (rCat baseCtx (absoluteRemotePath p)));
              _ ⇐ orReturn (dresultErr op) cancelled;
              let hash := sha256Hex data in
              let mode := localMode (st_mode s) in
              same ⇐ liftE (unchanged (sn_info loc) p);
              _ ⇐ returnIf (negb same) (dskipped op);
              if sameLocalFile loc hash mode then liftE (sendFileResult op s hash "" mode (len data))
              else
                _ ⇐ returnIf (negb (do_Conflict op)
                              && negb (matchesStored loc (do_StoredEntry op) (do_HasStored op)))
                      (dskipped op);
                w ⇐ liftE (writeLocalFile op mode (okE data) (okE ()));
                let '(cp, e) := w in
                match e with
                | Some e => errE (dresultFull op (Some (Errorf "write local" e)) (is_kind KLocalChanged e) cp)
                | None =>
                    _ ⇐ liftE (markFile p hash);
                    liftE (sendFileResult op s hash cp mode (len data))
                end
        end).

(** The patch of [processChunkedFile]: a copy of the local file with the fetched
    chunks written over it; without a local file the copy begins empty. *)
Definition patchedBytes (op : downloadOp) (chunkData : gmap Z bytes) : E (result error bytes) :=
  r ← ReadFile (do_Path op);
  match r with
  | Ok base => _ ⇐ ctxErr; okE (patchChunks base (map_to_list chunkData) (do_ChunkSize op) (do_FileSize op))
  | Err e =>
      if IsNotExist e
      then _ ⇐ ctxErr; okE (patchChunks [] (map_to_list chunkData) (do_ChunkSize op) (do_FileSize op))
      else errE e
  end.

(** Every fetched chunk carries the hash the remote manifest gives it. *)
Definition chunksVerified (op : downloadOp) (chunkData : gmap Z bytes) : bool :=
  forallb (λ idx, (0 <=? idx)
             && match do_ChunkHashes op !! Z.to_nat idx with
                | Some h => bool_decide (sha256Hex (default [] (chunkData !! idx)) = h)
                | None => false
                end) (do_DirtyChunks op).

Definition processChunkedFile (op : downloadOp) : E downloadResult :=
  let p := do_Path op in
  if do_Conflict op then processWholeFile (unchunked op)
  else
    runR (loc ⇐ orReturn (dresultErr op) (snapshotDownloadLocal p (do_StoredEntry op));
          match sn_info loc with
          | None => liftE (processWholeFile (unchunked op))
          | Some info =>
              if negb (do_HasStored op) || negb (e_ChunkSize (do_StoredEntry op) =? do_ChunkSize op)
              then liftE (processWholeFile (unchunked op))
              else
                _ ⇐ returnIf (negb (matchesStored loc (do_StoredEntry op) (do_HasStored op))) (dskipped op);
                st ⇐ liftE (remote (rStat baseCtx (absoluteRemotePath p)));
                st ⇐ (match st with
                      | Err e => if negb (isClientNotFound e)
                                 then errE (dresultErr op (Errorf "stat remote" e)) else okE None
                      | Ok st => okE st
                      end);
                _ ⇐ orReturn (dresultErr op) cancelled;
                match st with
                | None =>
                    same ⇐ liftE (unchanged (Some info) p);
                    _ ⇐ returnIf (negb same) (dskipped op);
                    liftE (processDelete (withKind opDownloadDelete (do_Mode op) (do_Symlink op) op))
                | Some s =>
                    chunkData ⇐ orReturn (λ e, dresultErr op (Errorf "read chunks" e))
                      (remote (rReadChunks baseCtx (absoluteRemotePath p) (do_DirtyChunks op) (do_ChunkSize op)));
                    _ ⇐ orReturn (dresultErr op) cancelled;
                    same ⇐ liftE (unchanged (Some info) p);
                    _ ⇐ returnIf (negb same) (dskipped op);
                    _ ⇐ returnIf (negb (chunksVerified op chunkData)) (dskipped op);
                    let mode := localMode (st_mode s) in
                    let hash := compositeHash (do_ChunkHashes op) in
                    if bool_decide (sn_baselineHash loc = hash) && (fi_size info =? do_FileSize op)
                       && (fi_perm info =? Z.land mode 511)
                    then liftE (sendFileResult op s hash "" mode (do_FileSize op))
                    else
                      w ⇐ liftE (writeLocalFile op mode (patchedBytes op chunkData) (okE ()));
                      match w.2 with
                      | Some e => errE (dresultFull op (Some e) (is_kind KLocalChanged e) "")
                      | None =>
                          _ ⇐ liftE (markFile p hash);
                          liftE (sendFileResult op s hash "" mode (do_FileSize op))
                      end
                end
          end).

Definition processFile (op : downloadOp) : E downloadResult :=
  if do_Chunked op then processChunkedFile op else processWholeFile op.

(** [downloader.process]. *)
Definition processDownload (op : downloadOp) : E downloadResult :=
  runR (_ ⇐ orReturn (dresultErr op) ctxErr;
        _ ⇐ orReturn (dresultErr op) (remote (rStat baseCtx "/"));
        _ ⇐ orReturn (dresultErr op) cancelled;
        liftE (match do_Kind op with
               | opDownloadFile => processFile op
               | opDownloadSymlink => processSymlink op
               | opDownloadMkdir => processMkdir op
               | opDownloadDelete => processDelete op
               | opDownloadChmod => processChmod op
               end)).

(** [localCandidateUnchanged]: the path still holds what this result put there. *)
Definition localCandidateUnchanged (r : downloadResult) (p : string) : E bool :=
  match dr_LocalInfo r with
  | None => retE false
  | Some info =>
      same ← unchanged (Some info) p;
      if negb (same : bool) then retE false
      else
        let chunked := {| e_Type := ""; e_Mode := 0; e_Size := 0; e_LocalHash := ""; e_LocalIdentity := "";
                          e_LocalMtimeMs := 0; e_RemoteHash := ""; e_RemoteMtimeMs := 0; e_Target := "";
                          e_LastSyncedAt := 0; e_ChunkSize := do_ChunkSize (dr_Op r);
                          e_ChunkHashes := []; e_Version := 0; e_Deleted := false |} in
        s ← snapshotDownloadLocal p chunked;
        match s with
        | Err _ => retE false
        | Ok s =>
            match sn_info s with
            | None => retE false
            | Some i =>
                let matches :=
                  match do_Kind (dr_Op r) with
                  | opDownloadFile =>
                      is_regular i && negb (bool_decide (dr_RemoteHash r = ""))
                      && (bool_decide (sn_hash s = dr_RemoteHash r)
                          || bool_decide (sn_baselineHash s = dr_RemoteHash r))
                  | opDownloadSymlink => is_symlink i && bool_decide (sn_target s = dr_Target r)
                  | opDownloadMkdir => is_dir i
                  | _ => false
                  end in
                u1 ← unchanged (Some i) p;
                u2 ← unchanged (Some info) p;
                retE (matches && u1 && u2)
            end
        end
  end.

End Down.
