(* ===== verification/SyncUp.v ===== *)
(** The uploader (cmd/afs/sync_uploader.go): every queued operation is checked
    against the local file it was staged from and against the remote side the
    baseline describes, then published under the observed revision.  Every
    operation ends by sending one [uploadResult], which the functions return. *)
From S2P Require Import Prelude Content Paths FsClient SyncState SyncWorld.
#[local] Open Scope string_scope.
#[local] Open Scope list_scope.
#[local] Open Scope Z_scope.

#[local] Notation "x ← y ; z" := (bindE y (λ x, z))
  (at level 20, y at level 100, z at level 200, only parsing) : sync_scope.
#[local] Notation "x ⇐ y ; z" := (bindR y (λ x, z))
  (at level 20, y at level 100, z at level 200, only parsing) : sync_scope.
#[local] Open Scope sync_scope.

Definition uresult (op : uploadOp) (e : option error) (conflict skipped : bool) (seen : string)
    (st : option StatResult) : uploadResult :=
  {| ur_Op := op; ur_Err := e; ur_Conflict := conflict; ur_Skipped := skipped;
     ur_RemoteHashSeen := seen; ur_RemoteStat := st |}.

Definition uerr (op : uploadOp) (e : error) : uploadResult := uresult op (Some e) false false "" None.
Definition uskipped (op : uploadOp) : uploadResult := uresult op None false true "" None.
Definition uconflict (op : uploadOp) (seen : string) (st : option StatResult) : uploadResult :=
  uresult op None true false seen st.

(** A write conflict is a conflict, any other error an error. *)
Definition uwrite (op : uploadOp) (prefix : string) (e : error) : uploadResult :=
  if is_kind KWriteConflict e then uconflict op "" None else uerr op (Errorf prefix e).

(** [path.Dir] of a workspace-relative path: "." at the top. *)
Definition relDir (p : string) : string := Dir p.

Section Up.
Context {H : Hashing} {R : Type} {RC : RemoteClient R} {cfg : @SyncCfg R}.
#[local] Notation E := (SyncWorld.E R).

(** A remote read where absence, as an error or as nil, is no error. *)
Definition statOpt (op : uploadOp) (prefix p : string) : E (result uploadResult (option StatResult)) :=
  st ← remote (rStat baseCtx p);
  retE (match st with
        | Err e => if negb (isClientNotFound e) then Err (uerr op (Errorf prefix e)) else Ok None
        | Ok st => Ok st
        end).

(** ** Is the queued operation still about the local file? *)

Definition queuedFileCurrent (op : uploadOp) : E (result uploadResult ()) :=
  if uo_LocalMtimeMs op =? 0 then okE ()
  else
    info ← Lstat (uo_Path op);
    match info with
    | Err e => errE (if negb (IsNotExist e) then uerr op (Errorf "stat queued file" e) else uskipped op)
    | Ok i =>
        let size := if uo_Chunked op then uo_FileSize op else len (uo_Content op) in
        _ ⇐ returnIf (negb (is_regular i) || negb (UnixMilli i =? uo_LocalMtimeMs op)
                      || negb (fi_size i =? size) || negb (fi_perm i =? uo_Mode op)
                      || (negb (bool_decide (uo_LocalIdentity op = ""))
                          && negb (bool_decide (localFileIdentity i = uo_LocalIdentity op))))
              (uskipped op);
        if uo_Chunked op then okE ()
        else
          data ← ReadFile (uo_Path op);
          match data with
          | Err e => errE (if negb (IsNotExist e) then uerr op (Errorf "read queued file" e) else uskipped op)
          | Ok data => returnIf (negb (bool_decide (data = uo_Content op))) (uskipped op)
          end
    end.

Definition queuedDirectoryModeCurrent (op : uploadOp) : E bool :=
  info ← Lstat (uo_Path op);
  match info with
  | Err _ => retE false
  | Ok i =>
      t ← matchesTemporaryDirectory (uo_Path op) i;
      retE (is_dir i && (fi_perm i =? uo_Mode op) && negb t)
  end.

(** ** Does the remote side still agree with the baseline? *)

Definition syncRemoteMatchesStored (remotePath : string) (stat : option StatResult)
    (stored : SyncEntry) (hasStored : bool) : E (result error bool) :=
  match stat with
  | None => okE true
  | Some s =>
      if negb hasStored || negb (bool_decide (st_type s = e_Type stored)) then okE false
      else if negb (e_Mode stored =? 0)
              && negb (Z.land (st_mode s) 511 =? Z.land (e_Mode stored) 511) then okE false
      else if bool_decide (st_type s = "file") then
        data ⇐ remote (rCat baseCtx remotePath);
        if bool_decide (sha256Hex data = e_RemoteHash stored) then okE true
        else okE ((0 <? e_ChunkSize stored)
                  && bool_decide (compositeHash (uploadChunkHashes data (e_ChunkSize stored))
                                  = e_RemoteHash stored))
      else if bool_decide (st_type s = "symlink") then
        target ⇐ remote (rReadlink baseCtx remotePath);
        okE (bool_decide (target = e_Target stored))
      else if bool_decide (st_type s = "dir") then okE true
      else okE false
  end.

(** ** Publishing *)

Definition finishFileUpload (ctx : Ctx) (op : uploadOp) (remotePath : string) (mode : Z) :
    E uploadResult :=
  _ ← remote (rChmod ctx remotePath mode);
  st ← remote (rStat ctx remotePath);
  retE (match st with
        | Err e => uerr op (Errorf "post-write stat" e)
        | Ok st => uresult op None false false (uo_LocalHash op) st
        end).

Definition finishMatchingFileUpload (op : uploadOp) (remotePath : string) (mode : Z) : E uploadResult :=
  runR (st ⇐ orReturn (λ e, uerr op (Errorf "stat matching remote" e)) (remote (rStat baseCtx remotePath));
        _ ⇐ queuedFileCurrent op;
        match st with
        | None => errE (uskipped op)
        | Some s =>
            _ ⇐ returnIf (negb (bool_decide (st_type s = "file"))) (uskipped op);
            let stored := uo_StoredEntry op in
            if uo_HasStored op && negb (e_Mode stored =? 0) && negb (st_mode s =? e_Mode stored)
               && negb (st_mode s =? mode)
            then errE (if mode =? e_Mode stored then uskipped op
                       else uconflict op (uo_LocalHash op) (Some s))
            else liftE (finishFileUpload baseCtx op remotePath mode)
        end).

(** The local mode of a parent directory that is missing remotely. *)
Definition localParentMode (nextPath : string) : E (result error Z) :=
  info ← Lstat (TrimPrefix nextPath "/");
  match info with
  | Err e => errE (Errorf "read local upload parent" e)
  | Ok i => if is_dir i then okE (fi_perm i) else errE (plain "local upload parent is not a directory")
  end.

(** Missing ancestors are published with their local modes, each bound to the
    parent just observed. *)
Fixpoint parent_loop (components : list string) (parentPath : string) (parent : StatResult) :
    E (result error StatResult) :=
  match components with
  | [] => okE parent
  | component :: components =>
      let nextPath := PathJoin parentPath component in
      st ← remote (rStat baseCtx nextPath);
      next ⇐ (match st with
              | Err e => if negb (isClientNotFound e) then errE e else okE None
              | Ok st => okE st
              end);
      next ⇐ (match next with
              | Some s => okE (Some s)
              | None =>
                  mode ⇐ localParentMode nextPath;
                  mk ← remote (rMkdirMode (WithExpectedParent baseCtx parentPath (st_inode parent))
                                 nextPath mode);
                  _ ⇐ (match mk with
                       | Err e => returnIf (negb (isClientAlreadyExists e)) (Errorf "create upload parent" e)
                       | Ok _ => okE ()
                       end);
                  remote (rStat baseCtx nextPath)
              end);
      match next with
      | Some s =>
          if bool_decide (st_type s = "dir") then parent_loop components nextPath s
          else errE (plain "remote upload parent is not a directory")
      | None => errE (plain "remote upload parent is not a directory")
      end
  end.

Definition prepareRemoteParent (op : uploadOp) : E (result error Ctx) :=
  let rel := relDir (TrimPrefix (uo_Path op) "/") in
  if bool_decide (rel = ".") then okE baseCtx
  else if bool_decide (rel = "..") || HasPrefix rel "../" then errE (plain "invalid upload parent")
  else
    let remotePath := absoluteRemotePath rel in
    st ← remote (rStat baseCtx remotePath);
    parent ⇐ (match st with
              | Err e => if negb (isClientNotFound e) then errE e else okE None
              | Ok st => okE st
              end);
    parent ⇐ (match parent with
              | Some s => okE s
              | None =>
                  root ⇐ orReturn (Errorf "read upload root") (remote (rStat baseCtx "/"));
                  match root with
                  | Some s =>
                      if bool_decide (st_type s = "dir") then parent_loop (Split rel slash) "/" s
                      else errE (plain "remote upload root is not a directory")
                  | None => errE (plain "remote upload root is not a directory")
                  end
              end);
    if bool_decide (st_type parent = "dir")
    then okE (WithExpectedParent baseCtx remotePath (st_inode parent))
    else errE (plain "remote upload parent is not a directory").

(** Whether remote bytes are those of the baseline, whose hash may be of the
    whole file or of its chunks. *)
Definition matchesBaseline (stored : SyncEntry) (remoteData : bytes) : bool :=
  bool_decide (sha256Hex remoteData = e_RemoteHash stored)
  || (0 <? e_ChunkSize stored)
     && bool_decide (compositeHash (uploadChunkHashes remoteData (e_ChunkSize stored))
                     = e_RemoteHash stored).

Definition fileMode (op : uploadOp) : Z := if uo_Mode op =? 0 then 420 else uo_Mode op.

(** [processFile] of an operation without chunks. *)
Definition uploadWholeFile (op : uploadOp) : E uploadResult :=
  let remotePath := absoluteRemotePath (uo_Path op) in
  let stored := uo_StoredEntry op in
  runR (_ ⇐ queuedFileCurrent op;
        _ ⇐ returnIf (maxFileBytes <? len (uo_Content op)) (uerr op (plain "exceeds sync size cap"));
        st ⇐ statOpt op "stat remote" remotePath;
        match st with
        | Some s =>
            data ⇐ orReturn (λ e, uerr op (Errorf "read remote" e)) (remote (rCat baseCtx remotePath));
            _ ⇐ queuedFileCurrent op;
            let remoteHash := sha256Hex data in
            if bool_decide (remoteHash = uo_LocalHash op)
            then liftE (finishMatchingFileUpload op remotePath (fileMode op))
            else
              _ ⇐ returnIf (negb (uo_HasStored op)
                            || (negb (bool_decide (e_RemoteHash stored = ""))
                                && negb (matchesBaseline stored data)))
                    (uconflict op remoteHash (Some s));
              _ ⇐ queuedFileCurrent op;
              _ ⇐ orReturn (uwrite op "write remote")
                    (remote (rEcho (WithExpectedStat baseCtx (Some s)) remotePath (uo_Content op)));
              liftE (finishFileUpload baseCtx op remotePath (fileMode op))
        | None =>
            _ ⇐ queuedFileCurrent op;
            ctx ⇐ orReturn (uerr op) (prepareRemoteParent op);
            _ ⇐ queuedFileCurrent op;
            _ ⇐ orReturn (uwrite op "write remote")
                  (remote (rEcho (WithExpectedStat ctx None) remotePath (uo_Content op)));
            liftE (finishFileUpload ctx op remotePath (fileMode op))
        end).

(** The chunks of a delta, each compared with the staged manifest. *)
Fixpoint readDirty (op : uploadOp) (dirty : list Z) (acc : gmap Z bytes) :
    E (result uploadResult (gmap Z bytes)) :=
  match dirty with
  | [] => okE acc
  | idx :: dirty =>
      data ⇐ orReturn (λ e, uerr op (Errorf "read chunk" e)) (ReadFile (uo_Path op));
      let chunk := readChunkFromDisk data idx (uo_ChunkSize op) in
      _ ⇐ returnIf (negb (match uo_ChunkHashes op !! Z.to_nat idx with
                          | Some h => bool_decide (sha256Hex chunk = h)
                          | None => false
                          end)) (uskipped op);
      readDirty op dirty (<[idx := chunk]> acc)
  end.

Definition allChunks (hashes : list string) : list Z := map Z.of_nat (seq 0 (length hashes)).

Definition processChunkedUpload (op : uploadOp) : E uploadResult :=
  let remotePath := absoluteRemotePath (uo_Path op) in
  let stored := uo_StoredEntry op in
  runR (_ ⇐ queuedFileCurrent op;
        st ⇐ statOpt op "stat remote" remotePath;
        meta ⇐ liftE (remote (rChunkMeta baseCtx remotePath));
        missing ⇐ (match meta with
                   | Err e =>
                       if is_kind KRedisNil e || isClientNotFound e then okE true
                       else errE (uerr op (Errorf "chunk meta" e))
                   | Ok _ => okE false
                   end);
        _ ⇐ (if missing : bool then okE ()
             else
               data ⇐ orReturn (λ e, uerr op (Errorf "read remote" e)) (remote (rCat baseCtx remotePath));
               _ ⇐ queuedFileCurrent op;
               let remoteComposite := compositeHash (uploadChunkHashes data (uo_ChunkSize op)) in
               if bool_decide (remoteComposite = uo_LocalHash op)
               then r ⇐ liftE (finishMatchingFileUpload op remotePath (uo_Mode op)); errE r
               else
                 let baselineComposite :=
                   if (0 <? e_ChunkSize stored) && negb (e_ChunkSize stored =? uo_ChunkSize op)
                   then compositeHash (uploadChunkHashes data (e_ChunkSize stored))
                   else remoteComposite in
                 returnIf (negb (uo_HasStored op)
                           || (negb (bool_decide (e_RemoteHash stored = ""))
                               && negb (bool_decide (sha256Hex data = e_RemoteHash stored))
                               && negb (bool_decide (baselineComposite = e_RemoteHash stored))))
                   (uconflict op remoteComposite st));
        let dirty := if missing : bool then allChunks (uo_ChunkHashes op) else uo_DirtyChunks op in
        chunks ⇐ readDirty op dirty ∅;
        _ ⇐ queuedFileCurrent op;
        ctx ⇐ (match st with
               | None =>
                   ctx ⇐ orReturn (uerr op) (prepareRemoteParent op);
                   _ ⇐ queuedFileCurrent op;
                   okE ctx
               | Some _ => okE baseCtx
               end);
        _ ⇐ orReturn (uwrite op "write chunks")
              (remote (rWriteChunks (WithExpectedStat ctx st) remotePath chunks (uo_ChunkSize op)
                         (uo_FileSize op) (uo_ChunkHashes op)));
        liftE (finishFileUpload ctx op remotePath (uo_Mode op))).

Definition processUploadFile (op : uploadOp) : E uploadResult :=
  if uo_Chunked op then processChunkedUpload op else uploadWholeFile op.

(** [syncUploadSymlink]. *)
Definition writeConflict : error := Error KWriteConflict "write conflict".

Definition syncUploadSymlink (remotePath target : string) (stored : SyncEntry) (hasStored : bool)
    (ctx : Ctx) : E (result error (option StatResult)) :=
  runR (st ⇐ liftE (remote (rStat ctx remotePath));
        existing ⇐ (match st with
                    | Err e => if negb (isClientNotFound e) then errE (Err e) else okE None
                    | Ok st => okE st
                    end);
        _ ⇐ (match existing with
             | None => okE ()
             | Some s =>
                 _ ⇐ (if bool_decide (st_type s = "symlink") then
                        t ⇐ orReturn Err (remote (rReadlink ctx remotePath));
                        returnIf (bool_decide (t = target)) (Ok (Some s))
                      else okE ());
                 m ⇐ orReturn Err (syncRemoteMatchesStored remotePath (Some s) stored hasStored);
                 _ ⇐ returnIf (negb m) (Err writeConflict);
                 orReturn Err (remote (rRm (WithExpectedStat ctx (Some s)) remotePath))
             end);
        ln ⇐ liftE (remote (rLn ctx target remotePath));
        _ ⇐ (match ln with
             | Err e => errE (Err (if isClientAlreadyExists e then writeConflict else e))
             | Ok _ => okE ()
             end);
        liftE (remote (rStat ctx remotePath))).

Definition processUploadSymlink (op : uploadOp) : E uploadResult :=
  runR (t ⇐ liftE (ReadLink (uo_Path op));
        _ ⇐ returnIf (negb (match t with Ok t => bool_decide (t = uo_Symlink op) | Err _ => false end))
              (uskipped op);
        ctx ⇐ orReturn (uerr op) (prepareRemoteParent op);
        st ⇐ orReturn (uwrite op "write symlink")
               (syncUploadSymlink (absoluteRemotePath (uo_Path op)) (uo_Symlink op) (uo_StoredEntry op)
                  (uo_HasStored op) ctx);
        okE (uresult op None false false "" st)).

Definition processUploadMkdir (op : uploadOp) : E uploadResult :=
  let remotePath := absoluteRemotePath (uo_Path op) in
  runR (ctx ⇐ orReturn (uerr op) (prepareRemoteParent op);
        mk ⇐ liftE (remote (rMkdirMode ctx remotePath (uo_Mode op)));
        _ ⇐ (match mk with
             | Err e => returnIf (negb (isClientAlreadyExists e)) (uerr op (Errorf "mkdir remote" e))
             | Ok _ => okE ()
             end);
        st ⇐ liftE (remote (rStat ctx remotePath));
        okE (uresult op None false false "" (match st with Ok st => st | Err _ => None end))).

Definition processUploadDelete (op : uploadOp) : E uploadResult :=
  let remotePath := absoluteRemotePath (uo_Path op) in
  runR (_ ⇐ orReturn (uerr op) checkLocalRoot;
        info ⇐ liftE (Lstat (uo_Path op));
        _ ⇐ (match info with
             | Ok _ => errE (uskipped op)
             | Err e => returnIf (negb (IsNotExist e)) (uerr op (Errorf "stat queued delete" e))
             end);
        st ⇐ liftE (remote (rStat baseCtx remotePath));
        st ⇐ (match st with
              | Err e => if negb (isSyncRemoteMissingError e) then errE (uerr op e) else okE None
              | Ok st => okE st
              end);
        _ ⇐ (match st with
             | None => okE ()
             | Some s =>
                 m ⇐ orReturn (uerr op)
                       (syncRemoteMatchesStored remotePath (Some s) (uo_StoredEntry op) (uo_HasStored op));
                 returnIf (negb m) (uconflict op "" (Some s))
             end);
        rm ⇐ liftE (remote (rRm (WithExpectedStat baseCtx st) remotePath));
        match rm with
        | Err e => if negb (isSyncRemoteMissingError e) then errE (uwrite op "rm remote" e)
                   else okE (uresult op None false false "" None)
        | Ok _ => okE (uresult op None false false "" None)
        end).

Definition processUploadRename (op : uploadOp) : E uploadResult :=
  if bool_decide (TrimSpace (uo_PrevPath op) = "")
  then retE (uerr op (plain "rename upload missing previous path"))
  else
    let srcPath := absoluteRemotePath (uo_PrevPath op) in
    let dstPath := absoluteRemotePath (uo_Path op) in
    runR (st ⇐ liftE (remote (rStat baseCtx srcPath));
          before ⇐ (match st with
                    | Err e => if negb (isClientNotFound e) then errE (uerr op e) else okE None
                    | Ok st => okE st
                    end);
          _ ⇐ (match before with
               | None => okE ()
               | Some s =>
                   m ⇐ orReturn (uerr op)
                         (syncRemoteMatchesStored srcPath (Some s) (uo_StoredEntry op) (uo_HasStored op));
                   returnIf (negb m) (uskipped op)
               end);
          rn ⇐ liftE (remote (rRename (WithExpectedStat baseCtx before) srcPath dstPath RenameNoreplace));
          _ ⇐ (match rn with
               | Err e =>
                   errE (if is_kind KWriteConflict e || isClientAlreadyExists e || isSyncRemoteMissingError e
                         then uskipped op else uerr op (Errorf "rename remote" e))
               | Ok _ => okE ()
               end);
          st ⇐ orReturn (λ e, uerr op (Errorf "post-rename stat" e)) (remote (rStat baseCtx dstPath));
          okE (uresult op None false false "" st)).

Definition withStatMode (s : StatResult) (mode : Z) : StatResult :=
  StatResult_ (st_revision s) (st_inode s) (st_type s) mode (st_uid s) (st_gid s) (st_size s)
    (st_ctime s) (st_mtime s) (st_atime s).

Definition processUploadChmod (op : uploadOp) : E uploadResult :=
  let remotePath := absoluteRemotePath (uo_Path op) in
  let stored := uo_StoredEntry op in
  runR (c ⇐ liftE (queuedDirectoryModeCurrent op);
        _ ⇐ returnIf (negb c) (uskipped op);
        st ⇐ orReturn (uerr op) (remote (rStat baseCtx remotePath));
        match st with
        | None => errE (uconflict op "" st)
        | Some s =>
            _ ⇐ returnIf (negb (bool_decide (st_type s = "dir")) || negb (uo_HasStored op)
                          || negb (bool_decide (e_Type stored = "dir"))) (uconflict op "" st);
            _ ⇐ returnIf (negb (st_mode s =? uo_Mode op) && negb (st_mode s =? e_Mode stored))
                  (uconflict op "" st);
            c ⇐ liftE (queuedDirectoryModeCurrent op);
            _ ⇐ returnIf (negb c) (uskipped op);
            _ ⇐ (if negb (st_mode s =? uo_Mode op)
                 then orReturn (uwrite op "chmod remote")
                        (remote (rChmod (WithExpectedStat baseCtx (Some s)) remotePath (uo_Mode op)))
                 else okE ());
            okE (uresult op None false false "" (Some (withStatMode s (uo_Mode op))))
        end).

(** [uploader.process]. *)
Definition processUpload (op : uploadOp) : E uploadResult :=
  if readonly then retE (uerr op (plain "uploader is read-only"))
  else
    runR (_ ⇐ orReturn (uerr op) checkLocalRoot;
          liftE (match uo_Kind op with
                 | opUploadFile => processUploadFile op
                 | opUploadSymlink => processUploadSymlink op
                 | opUploadMkdir => processUploadMkdir op
                 | opUploadDelete => processUploadDelete op
                 | opUploadChmod => processUploadChmod op
                 | opUploadRename => processUploadRename op
                 end)).

End Up.
