(* ===== verification/SyncEvent.v ===== *)
(** The event reconciler (cmd/afs/sync_event_reconciler.go): what the engine does
    with a change the watcher saw, a change another client published and the
    results of its two workers; with the guards of sync_recovery_plan.go that keep
    a late result from replacing a newer baseline. *)
From stdpp Require Import pretty.
From S2P Require Import Prelude Content Paths FsClient SyncState SyncWorld SyncDown.
#[local] Open Scope string_scope.
#[local] Open Scope list_scope.
#[local] Open Scope Z_scope.

#[local] Notation "x ← y ; z" := (bindE y (λ x, z))
  (at level 20, y at level 100, z at level 200, only parsing) : sync_scope.
#[local] Notation "x ⇐ y ; z" := (bindR y (λ x, z))
  (at level 20, y at level 100, z at level 200, only parsing) : sync_scope.
#[local] Open Scope sync_scope.

Definition remotePathEvent (p : string) : remoteEvent :=
  {| re_Path := p; re_NeedsContent := false; re_FullSweep := false; re_RootReplace := false |}.

(** An [uploadOp] literal without chunks. *)
Definition upOp (kind : uploadOpKind) (p prev : string) (content : bytes) (mode : Z)
    (symlink hash identity : string) (mtime : Z) (stored : SyncEntry) (hasStored : bool)
    (renameVersion deleteVersion : Z) : uploadOp :=
  {| uo_Kind := kind; uo_Path := p; uo_PrevPath := prev; uo_Content := content; uo_Mode := mode;
     uo_Symlink := symlink; uo_LocalHash := hash; uo_LocalIdentity := identity;
     uo_LocalMtimeMs := mtime; uo_StoredEntry := stored; uo_HasStored := hasStored;
     uo_Tracked := false; uo_RenameVersion := renameVersion; uo_DeleteVersion := deleteVersion;
     uo_Chunked := false; uo_FileSize := 0; uo_ChunkSize := 0; uo_ChunkHashes := [];
     uo_DirtyChunks := [] |}.

Definition withChunks (size chunkSize : Z) (hashes : list string) (dirty : list Z) (op : uploadOp) :
    uploadOp :=
  {| uo_Kind := uo_Kind op; uo_Path := uo_Path op; uo_PrevPath := uo_PrevPath op;
     uo_Content := uo_Content op; uo_Mode := uo_Mode op; uo_Symlink := uo_Symlink op;
     uo_LocalHash := uo_LocalHash op; uo_LocalIdentity := uo_LocalIdentity op;
     uo_LocalMtimeMs := uo_LocalMtimeMs op; uo_StoredEntry := uo_StoredEntry op;
     uo_HasStored := uo_HasStored op; uo_Tracked := uo_Tracked op;
     uo_RenameVersion := uo_RenameVersion op; uo_DeleteVersion := uo_DeleteVersion op;
     uo_Chunked := true; uo_FileSize := size; uo_ChunkSize := chunkSize;
     uo_ChunkHashes := hashes; uo_DirtyChunks := dirty |}.

(** A [downloadOp] literal without chunks. *)
Definition downOp (kind : downloadOpKind) (p : string) (mode : Z) (symlink : string)
    (stored : SyncEntry) (hasStored conflict : bool) : downloadOp :=
  {| do_Kind := kind; do_Path := p; do_Mode := mode; do_Symlink := symlink;
     do_StoredEntry := stored; do_HasStored := hasStored; do_Conflict := conflict;
     do_Chunked := false; do_FileSize := 0; do_ChunkSize := 0; do_ChunkHashes := [];
     do_DirtyChunks := [] |}.

Definition withRemoteChunks (size chunkSize : Z) (hashes : list string) (dirty : list Z)
    (op : downloadOp) : downloadOp :=
  {| do_Kind := do_Kind op; do_Path := do_Path op; do_Mode := do_Mode op; do_Symlink := do_Symlink op;
     do_StoredEntry := do_StoredEntry op; do_HasStored := do_HasStored op;
     do_Conflict := do_Conflict op; do_Chunked := true; do_FileSize := size;
     do_ChunkSize := chunkSize; do_ChunkHashes := hashes; do_DirtyChunks := dirty |}.

(** * Rename candidates *)

Definition renameCandidateTTL : Z := 5000.

Definition hashKey (hash : string) (size : Z) : string :=
  "file:hash:" +:+ hash +:+ ":" +:+ pretty size.

Definition renameCandidateKey (e : SyncEntry) : string :=
  if negb (bool_decide (TrimSpace (e_LocalIdentity e) = ""))
  then e_Type e +:+ ":inode:" +:+ e_LocalIdentity e
  else if bool_decide (e_Type e = "file") then
    if negb (bool_decide (e_LocalHash e = "")) then hashKey (e_LocalHash e) (e_Size e) else ""
  else if bool_decide (e_Type e = "symlink") then
    if negb (bool_decide (e_Target e = "")) then "symlink:target:" +:+ e_Target e else ""
  else "".

Definition renameCandidateKeyForLocalFile (identity hash : string) (size : Z) : string :=
  if negb (bool_decide (TrimSpace identity = "")) then "file:inode:" +:+ identity
  else if negb (bool_decide (hash = "")) then hashKey hash size else "".

Definition renameCandidateKeyForLocalSymlink (identity target : string) : string :=
  if negb (bool_decide (TrimSpace identity = "")) then "symlink:inode:" +:+ identity
  else if negb (bool_decide (target = "")) then "symlink:target:" +:+ target else "".

(** The range of [takeFallbackRenameCandidate]: expired candidates are dropped,
    two matches end it with none. *)
Fixpoint fallback_loop (t : Z) (rel dir wantType : string) (l : list (string * renameCandidate))
    (m : gmap string renameCandidate) (found : option (string * renameCandidate)) :
    option renameCandidate * gmap string renameCandidate :=
  match l with
  | [] => match found with Some (k, c) => (Some c, delete k m) | None => (None, m) end
  | (k, c) :: l =>
      if renameCandidateTTL <? t - rc_recordedAt c then fallback_loop t rel dir wantType l (delete k m) found
      else if negb (bool_decide (e_Type (rc_entry c) = wantType)) then fallback_loop t rel dir wantType l m found
      else if bool_decide (rc_path c = rel) || negb (bool_decide (Dir (rc_path c) = dir))
      then fallback_loop t rel dir wantType l m found
      else match found with
           | Some _ => (None, m)
           | None => fallback_loop t rel dir wantType l m (Some (k, c))
           end
  end.

Section Event.
Context {H : Hashing} {R : Type} {RC : RemoteClient R} {cfg : @SyncCfg R}.
#[local] Notation E := (SyncWorld.E R).

Definition rememberRenameCandidate (p : string) (e : SyncEntry) : E () := λ g,
  let key := renameCandidateKey e in
  if bool_decide (key = "") then ((), g)
  else ((), set_rename (<[key := {| rc_path := p; rc_entry := e; rc_recordedAt := g_now g |}]> (g_rename g)) g).

Definition takeRenameCandidate (key : string) : E (option renameCandidate) := λ g,
  if bool_decide (key = "") then (None, g)
  else match g_rename g !! key with
       | None => (None, g)
       | Some c =>
           (if renameCandidateTTL <? g_now g - rc_recordedAt c then None else Some c,
            set_rename (delete key (g_rename g)) g)
       end.

Definition takeFallbackRenameCandidate (rel wantType : string) : E (option renameCandidate) := λ g,
  if bool_decide (TrimSpace rel = "") || bool_decide (TrimSpace wantType = "") then (None, g)
  else
    let '(c, m) := fallback_loop (g_now g) rel (Dir rel) wantType (map_to_list (g_rename g)) (g_rename g) None in
    (c, set_rename m g).

Definition takeFor (key rel wantType : string) (hasStored : bool) : E (option renameCandidate) :=
  if hasStored then retE None
  else
    c ← takeRenameCandidate key;
    match c with Some c => retE (Some c) | None => takeFallbackRenameCandidate rel wantType end.

Definition takeRenameCandidateForLocalFile (rel identity hash : string) (size : Z) (hasStored : bool) :
    E (option renameCandidate) :=
  takeFor (renameCandidateKeyForLocalFile identity hash size) rel "file" hasStored.

Definition takeRenameCandidateForLocalSymlink (rel identity target : string) (hasStored : bool) :
    E (option renameCandidate) :=
  takeFor (renameCandidateKeyForLocalSymlink identity target) rel "symlink" hasStored.

Definition renameCandidateStillPending (key p : string) : E bool := getE (λ g,
  if bool_decide (key = "") then false
  else match g_rename g !! key with Some c => bool_decide (rc_path c = p) | None => false end).

Definition forgetRenameCandidate (e : SyncEntry) : E () :=
  let key := renameCandidateKey e in
  if bool_decide (key = "") then retE () else modE (λ g, set_rename (delete key (g_rename g)) g).

(** [enqueueUploadOpAsync] of a delayed deletion: queued for later, and sent only
    if no rename has claimed the candidate in the meantime. *)
Definition enqueueUploadOpAsync (op : uploadOp) (key p : string) : E () :=
  modE (λ g, set_delayed (g_delayed g ++ [{| du_op := op; du_key := key; du_path := p |}]) g).

(** The timer of the [n]-th delayed upload fires. *)
Definition fireDelayed (n : nat) : E () :=
  d ← getE (λ g, g_delayed g !! n);
  match d with
  | None => retE ()
  | Some d =>
      _ ← modE (λ g, set_delayed (delete n (g_delayed g)) g);
      stop ← getE g_stop;
      if (stop : bool) then retE ()
      else
        ok ← renameCandidateStillPending (du_key d) (du_path d);
        if (ok : bool) then _ ← queueUpload (du_op d); retE () else retE ()
  end.

Definition stageSyncEntry (p : string) (e : SyncEntry) : E Z :=
  t ← now;
  v ← putEntry p (setSyncedAt t e);
  _ ← onSw markDirty;
  retE v.

Definition installPendingRename (p localIdentity : string) (e : SyncEntry) : E Z :=
  let e := setDeleted false e in
  stageSyncEntry p (setIdentity (defaultString (TrimSpace localIdentity) (e_LocalIdentity e)) e).

Definition identityFromPath (p : string) : E string :=
  i ← Lstat p;
  retE (match i with Ok i => localFileIdentity i | Err _ => "" end).

(** * Local events *)

(** [handleLocalFile] once the file is read; [hashes] are its chunks when it is
    above the threshold. *)
Definition localFileRead (rel : string) (info : fileInfo) (chunked : bool) (content : bytes)
    (hash : string) (size : Z) (hashes : list string) (stored : SyncEntry) (hasStored : bool) : E () :=
  let identity := localFileIdentity info in
  let mode := fi_perm info in
  let mtime := UnixMilli info in
  let fileOp base hasBase :=
    let op := upOp opUploadFile rel "" (if chunked then [] else content) mode "" hash identity mtime
                base hasBase 0 0 in
    if chunked
    then withChunks size cfgChunkSize hashes (fst (diffChunkManifests (e_ChunkHashes base) hashes)) op
    else op in
  c ← takeRenameCandidateForLocalFile rel identity hash size hasStored;
  match c with
  | Some c =>
      let old := rc_entry c in
      v ← installPendingRename rel identity old;
      let changed := negb (bool_decide (hash = e_LocalHash old)) || negb (mode =? e_Mode old) in
      v ← (if changed
           then stageSyncEntry rel
                  {| e_Type := "file"; e_Mode := mode; e_Size := size; e_LocalHash := hash;
                     e_LocalIdentity := identity; e_LocalMtimeMs := mtime;
                     e_RemoteHash := e_RemoteHash old; e_RemoteMtimeMs := e_RemoteMtimeMs old;
                     e_Target := ""; e_LastSyncedAt := 0;
                     e_ChunkSize := if chunked then cfgChunkSize else 0;
                     e_ChunkHashes := if chunked then hashes else [];
                     e_Version := 0; e_Deleted := false |}
           else retE v);
      _ ← enqueueTrackedUpload
            (upOp opUploadRename rel (rc_path c) [] mode "" (e_LocalHash old) identity mtime old true v 0);
      if changed then enqueueTrackedUpload (fileOp old true) else retE ()
  | None =>
      if hasStored && bool_decide (e_LocalHash stored = hash) && bool_decide (e_Type stored = "file")
         && (e_Mode stored =? mode)
      then retE ()
      else enqueueTrackedUpload (fileOp stored hasStored)
  end.

Definition handleLocalFile (rel : string) (info : fileInfo) : E () :=
  deferred ← deferScanForPendingUpload rel;
  if (deferred : bool) then retE ()
  else if maxFileBytes <? fi_size info then retE ()
  else
    e ← storedAt rel;
    data ← ReadFile rel;
    match data with
    | Err _ => retE ()
    | Ok data =>
        if cfgChunkThreshold <? fi_size info then
          let '(hashes, size) := streamChunkHashes data cfgChunkSize in
          localFileRead rel info true [] (compositeHash hashes) size hashes e.1 e.2
        else localFileRead rel info false data (sha256Hex data) (fi_size info) [] e.1 e.2
    end.

Definition handleLocalSymlink (rel : string) : E () :=
  deferred ← deferScanForPendingUpload rel;
  if (deferred : bool) then retE ()
  else
    target ← ReadLink rel;
    info ← Lstat rel;
    match target, info with
    | Ok target, Ok info =>
        let identity := localFileIdentity info in
        e ← storedAt rel;
        c ← takeRenameCandidateForLocalSymlink rel identity target e.2;
        match c with
        | Some c =>
            v ← installPendingRename rel identity (rc_entry c);
            enqueueTrackedUpload
              (upOp opUploadRename rel (rc_path c) [] 0 target "" identity 0 (rc_entry c) true v 0)
        | None =>
            if (e.2 : bool) && bool_decide (e_Type e.1 = "symlink") && bool_decide (e_Target e.1 = target)
            then retE ()
            else enqueueTrackedUpload (upOp opUploadSymlink rel "" [] 0 target "" identity 0 e.1 e.2 0 0)
        end
    | _, _ => retE ()
    end.

(** [handleLocalDelete]; [scan] is [scanForRenameTargets]. *)
Definition handleLocalDelete (scan : string → E ()) (rel kindHint : string) : E () :=
  if readonly then retE ()
  else
    root ← checkLocalRoot;
    match root with
    | Err _ => retE ()
    | Ok _ =>
        e ← storedAt rel;
        let '(stored, hasStored) := e in
        if negb hasStored then retE ()
        else if e_Deleted stored then retE ()
        else
          t ← now;
          v ← putEntry rel (setSyncedAt t (setDeleted true stored));
          _ ← onSw markDirty;
          let op := upOp opUploadDelete rel "" [] 0 "" "" "" 0 stored true 0 v in
          let key := renameCandidateKey stored in
          if bool_decide (key = "") then _ ← queueUpload op; retE ()
          else
            _ ← rememberRenameCandidate rel stored;
            _ ← (if bool_decide (kindHint = "rename") then scan rel else retE ());
            enqueueUploadOpAsync op key rel
    end.

Fixpoint deleteEach (scan : string → E ()) (missing : list string) : E () :=
  match missing with
  | [] => retE ()
  | p :: missing => _ ← handleLocalDelete scan p "remove"; deleteEach scan missing
  end.

(** The live entries of a kind whose path is gone from the local tree. *)
Definition missingEntries (g : eng R) (keep : string → SyncEntry → bool) : list string :=
  map fst (filter (λ '(p, e), keep p e
    && match on_tree (λ t, t_lstat t p) g with (Err err, _) => IsNotExist err | _ => false end = true)
    (map_to_list (s_Entries (sw_state (g_sw g))))).

Definition reconcileLocalDirDeletes (scan : string → E ()) (rel : string) : E () :=
  let prefix := if bool_decide (rel = ".") then "" else TrimSuffix1 rel slash +:+ "/" in
  missing ← getE (λ g, missingEntries g (λ p e,
    negb (e_Deleted e) && negb (bool_decide (e_Type e = "dir"))
    && (bool_decide (prefix = "") || HasPrefix p prefix)));
  deleteEach scan missing.

Definition sweepMissingLocalSymlinks (scan : string → E ()) : E () :=
  quiet ← getE g_suppress;
  if (quiet : bool) then retE ()
  else
    missing ← getE (λ g, missingEntries g (λ p e, negb (e_Deleted e) && bool_decide (e_Type e = "symlink")));
    deleteEach scan missing.

Definition handleLocalDir (scan : string → E ()) (rel : string) (info : fileInfo) : E () :=
  e ← storedAt rel;
  let '(stored, hasStored) := e in
  _ ← reconcileLocalDirDeletes scan rel;
  deferred ← deferScanForPendingUpload rel;
  if (deferred : bool) then retE ()
  else
    let mode := fi_perm info in
    let known := hasStored && bool_decide (e_Type stored = "dir") && negb (e_Deleted stored) in
    if known && (e_Mode stored =? mode) then retE ()
    else if readonly then retE ()
    else enqueueTrackedUpload
           (upOp (if known then opUploadChmod else opUploadMkdir) rel "" [] mode "" "" "" 0 stored hasStored 0 0).

Definition echoMatches (p : string) (info : fileInfo) (x : echoExpectation) : E bool :=
  if bool_decide (ex_kind x = "file") then
    if is_symlink info || is_dir info then retE false
    else data ← ReadFile p;
         retE (match data with Ok d => bool_decide (sha256Hex d = ex_hash x) | Err _ => false end)
  else if bool_decide (ex_kind x = "symlink") then
    target ← ReadLink p;
    retE (match target with Ok t => bool_decide (t = ex_hash x) | Err _ => false end)
  else if bool_decide (ex_kind x = "dir") then
    retE (is_dir info && (fi_perm info =? ex_mode x)
          && bool_decide (ex_identity x = localFileIdentity info))
  else retE false.

(** [handleLocalEvent] for everything but the mount root itself. *)
Definition localPathEvent (scan : string → E ()) (ev : LocalEvent) : E () :=
  let p := le_Path ev in
  quiet ← getE g_suppress;
  if (quiet : bool) then retE ()
  else if isSyncControlPath p then retE ()
  else if shouldIgnore ignore p false then retE ()
  else
    info ← Lstat p;
    match info with
    | Err e =>
        if negb (IsNotExist e) then retE ()
        else
          x ← echoConsume p;
          if match x with Some x => bool_decide (ex_kind x = "delete") | None => false end then retE ()
          else handleLocalDelete scan p (le_KindHint ev)
    | Ok info =>
        temporary ← matchesTemporaryDirectory p info;
        if (temporary : bool) then retE ()
        else
          x ← echoConsume p;
          echoed ← (match x with Some x => echoMatches p info x | None => retE false end);
          if (echoed : bool) then retE ()
          else match fi_kind info with
               | KLink => handleLocalSymlink p
               | KDir => handleLocalDir scan p info
               | KFile => handleLocalFile p info
               end
    end.

Definition localEvent (scan : string → E ()) (ev : LocalEvent) : E () :=
  stop ← getE g_stop;
  if (stop : bool) || readonly then retE ()
  else
    root ← checkLocalRoot;
    match root with
    | Err _ => retE ()
    | Ok _ =>
        if bool_decide (le_Path ev = "") then retE ()
        else if bool_decide (le_Path ev = ".") then
          handleLocalDir scan "." (FileInfo KDir rootPerm 0 0 0)
        else localPathEvent scan ev
    end.

Fixpoint eachPath (f : LocalEvent → E ()) (deletedPath : string) (paths : list string) : E () :=
  match paths with
  | [] => retE ()
  | p :: paths =>
      _ ← (if bool_decide (p = deletedPath) || shouldIgnore ignore p false then retE ()
           else f {| le_Path := p; le_KindHint := "rename" |});
      eachPath f deletedPath paths
  end.

(** [scanForRenameTargets]: every local file and link is looked at again. *)
Definition scanForRenameTargets (f : LocalEvent → E ()) (deletedPath : string) : E () :=
  paths ← getE (λ g, map fst (filter (λ '(_, i), bool_decide (i_node i = NDir) = false)
                                  (map_to_list (g_tree g))));
  eachPath f deletedPath paths.

(** A scan starts inside the handling of a deletion; the files it visits exist,
    so [fuel] bounds how deeply scans nest. *)
Fixpoint handleLocalEvent (fuel : nat) (ev : LocalEvent) : E () :=
  localEvent (λ deleted, match fuel with
                         | O => retE ()
                         | S fuel => scanForRenameTargets (handleLocalEvent fuel) deleted
                         end) ev.

(** * Remote events *)

(** [detectConflict]. *)
Definition detectConflict (p : string) (stored : SyncEntry) (hasStored : bool) : E bool :=
  if negb hasStored then retE false
  else
    info ← Lstat p;
    match info with
    | Err _ => retE false
    | Ok i =>
        if is_symlink i then
          target ← ReadLink p;
          retE (match target with
                | Ok t => bool_decide (e_Type stored = "symlink") && negb (bool_decide (e_Target stored = t))
                | Err _ => false
                end)
        else if negb (is_regular i) then retE false
        else
          data ← ReadFile p;
          retE (match data with
                | Ok d => negb (bool_decide (e_LocalHash stored = ""))
                          && negb (bool_decide (sha256Hex d = e_LocalHash stored))
                | Err _ => false
                end)
    end.

(** The confirmation of a remote deletion, under the version the reads belong
    to: the baseline stays live until the local file is gone. *)
Definition confirmRemoteDelete (rel : string) (stored : SyncEntry) : E () :=
  e ← storedAt rel;
  if negb (e.2 : bool) || e_Deleted e.1 || negb (e_Version e.1 =? e_Version stored) then requestFullSweep
  else
    t ← now;
    v ← putEntry rel (setSyncedAt t e.1);
    queueDownload (downOp opDownloadDelete rel 0 "" (setVersion v (setSyncedAt t e.1)) true false).

(** The download of what is there now. *)
Definition downloadCurrent (rel : string) (stat : StatResult) (stored : SyncEntry) (hasStored : bool) :
    E () :=
  conflict ← detectConflict rel stored hasStored;
  if bool_decide (st_type stat = "dir") then
    queueDownload (downOp opDownloadMkdir rel (st_mode stat) "" stored hasStored false)
  else if bool_decide (st_type stat = "symlink") then
    target ← remote (rReadlink baseCtx (absoluteRemotePath rel));
    match target with
    | Err _ => retE ()
    | Ok target => queueDownload (downOp opDownloadSymlink rel 0 target stored hasStored conflict)
    end
  else if bool_decide (st_type stat = "file") then
    meta ← remote (rChunkMeta baseCtx (absoluteRemotePath rel));
    let op := downOp opDownloadFile rel (st_mode stat) "" stored hasStored conflict in
    match meta with
    | Ok (chunkSize, hashes) =>
        if (0 <? chunkSize) && negb (bool_decide (hashes = []))
        then queueDownload (withRemoteChunks (st_size stat) chunkSize hashes
               (fst (diffChunkManifests (e_ChunkHashes stored) hashes)) op)
        else queueDownload op
    | Err _ => queueDownload op
    end
  else retE ().

Definition handleRemotePath (rel : string) : E () :=
  e ← storedAt rel;
  let '(stored, hasStored) := e in
  if hasStored && e_Deleted stored then retE ()
  else
    st ← remote (rStat baseCtx (absoluteRemotePath rel));
    match st with
    | Ok (Some s) => downloadCurrent rel s stored hasStored
    | _ =>
        if match st with Err e => negb (isSyncRemoteMissingError e) | Ok _ => false end then retE ()
        else if negb hasStored then retE ()
        else
          _ ← invalidateCache;
          st2 ← remote (rStat baseCtx (absoluteRemotePath rel));
          match st2 with
          | Ok (Some s) => downloadCurrent rel s stored hasStored
          | Err e => if negb (isSyncRemoteMissingError e) then requestFullSweep
                     else confirmRemoteDelete rel stored
          | Ok None => confirmRemoteDelete rel stored
          end
    end.

Definition handleRemoteEvent (ev : remoteEvent) : E () :=
  if re_RootReplace ev then requestRootReplace
  else if re_FullSweep ev then requestFullSweep
  else if bool_decide (re_Path ev = "") then retE ()
  else
    let rel := TrimPrefix (re_Path ev) "/" in
    if bool_decide (rel = "") then requestFullSweep
    else if shouldIgnore ignore rel false then retE ()
    else handleRemotePath rel.

(** * Results *)

(** [uploadResultObsolete]: recovery has recorded a newer version while this
    result was queued. *)
Definition uploadResultObsolete (res : uploadResult) : E bool :=
  let op := ur_Op res in
  e ← storedAt (uo_Path op);
  let '(entry, exists_) := e in
  if negb exists_ then retE false
  else if e_Deleted entry then retE true
  else if match ur_RemoteStat res with Some s => st_mtime s <? e_RemoteMtimeMs entry | None => false end
  then retE true
  else if (e_Version entry =? e_Version (uo_StoredEntry op)) || bool_decide (e_RemoteHash entry = "")
          || bool_decide (e_RemoteHash entry = uo_LocalHash op)
          || negb (bool_decide (e_LocalHash entry = e_RemoteHash entry))
  then retE false
  else
    info ← Lstat (uo_Path op);
    match info with
    | Err _ => retE false
    | Ok i =>
        if negb (is_regular i) || negb (fi_size i =? e_Size entry)
           || negb (UnixMilli i =? e_LocalMtimeMs entry) || negb (fi_perm i =? e_Mode entry)
        then retE false
        else
          data ← ReadFile (uo_Path op);
          retE (match data with
                | Err _ => false
                | Ok d =>
                    if 0 <? e_ChunkSize entry
                    then bool_decide (compositeHash (fst (streamChunkHashes d (e_ChunkSize entry)))
                                      = e_LocalHash entry)
                    else bool_decide (sha256Hex d = e_LocalHash entry)
                end)
    end.

(** The identity an acknowledged upload is recorded with. *)
Definition uploadIdentity (op : uploadOp) : E string :=
  i ← identityFromPath (uo_Path op);
  retE (defaultString (TrimSpace (uo_LocalIdentity op)) i).

Definition statMtime (st : option StatResult) : Z := match st with Some s => st_mtime s | None => 0 end.

(** The branches of a successful upload; [false] when the receipt is stale. *)
Definition recordUpload (res : uploadResult) : E bool :=
  let op := ur_Op res in
  let p := uo_Path op in
  let st := ur_RemoteStat res in
  t ← now;
  match uo_Kind op with
  | opUploadFile =>
      i ← uploadIdentity op;
      let identity := defaultString i (storedLocalIdentity (uo_StoredEntry op)) in
      _ ← putEntry p
            {| e_Type := "file"; e_Mode := uo_Mode op;
               e_Size := if uo_Chunked op then uo_FileSize op else len (uo_Content op);
               e_LocalHash := uo_LocalHash op; e_LocalIdentity := identity;
               e_LocalMtimeMs := match st with Some _ => uo_LocalMtimeMs op | None => 0 end;
               e_RemoteHash := uo_LocalHash op; e_RemoteMtimeMs := statMtime st; e_Target := "";
               e_LastSyncedAt := t; e_ChunkSize := uo_ChunkSize op;
               e_ChunkHashes := uo_ChunkHashes op; e_Version := 0; e_Deleted := false |};
      retE true
  | opUploadSymlink =>
      i ← uploadIdentity op;
      let identity := defaultString i (storedLocalIdentity (uo_StoredEntry op)) in
      _ ← putEntry p
            {| e_Type := "symlink"; e_Mode := 0; e_Size := 0; e_LocalHash := "";
               e_LocalIdentity := identity; e_LocalMtimeMs := statMtime st; e_RemoteHash := "";
               e_RemoteMtimeMs := statMtime st; e_Target := uo_Symlink op; e_LastSyncedAt := t;
               e_ChunkSize := 0; e_ChunkHashes := []; e_Version := 0; e_Deleted := false |};
      retE true
  | opUploadMkdir =>
      _ ← putEntry p
            {| e_Type := "dir"; e_Mode := uo_Mode op; e_Size := 0; e_LocalHash := "";
               e_LocalIdentity := ""; e_LocalMtimeMs := 0; e_RemoteHash := ""; e_RemoteMtimeMs := 0;
               e_Target := ""; e_LastSyncedAt := t; e_ChunkSize := 0; e_ChunkHashes := [];
               e_Version := 0; e_Deleted := false |};
      retE true
  | opUploadDelete =>
      _ ← forgetRenameCandidate (uo_StoredEntry op);
      e ← storedAt p;
      _ ← (if (e.2 : bool) && e_Deleted e.1 && negb (uo_DeleteVersion op =? 0)
               && (e_Version e.1 =? uo_DeleteVersion op)
           then onSw (dropEntry p) else retE ());
      _ ← requestFullSweep;
      retE true
  | opUploadRename =>
      _ ← onSw (dropEntry (uo_PrevPath op));
      let old := setSyncedAt t (setDeleted false (uo_StoredEntry op)) in
      i ← uploadIdentity op;
      let old := setIdentity (defaultString i (e_LocalIdentity old)) old in
      _ ← putEntry p (match st with
                      | Some s => setMtimes (st_mtime s) (st_mtime s) old
                      | None => old
                      end);
      retE true
  | opUploadChmod =>
      e ← storedAt p;
      if negb (e.2 : bool) || e_Deleted e.1 || negb (bool_decide (e_Type e.1 = "dir"))
         || negb (uo_HasStored op) || negb (e_Version e.1 =? e_Version (uo_StoredEntry op))
      then _ ← requestFullSweep; retE false
      else _ ← putEntry p (setSyncedAt t (setMode (uo_Mode op) e.1)); retE true
  end.

(** A local deletion that met a newer remote version: the provisional tombstone
    goes, and the remote version is looked at. *)
Definition undoDelete (p : string) : E () :=
  e ← storedAt p;
  _ ← (if (e.2 : bool) && e_Deleted e.1 then onSw (dropEntry p) else retE ());
  handleRemoteEvent (remotePathEvent (absoluteRemotePath p)).

(** Any other conflict: the remote version is downloaded, the local one moved
    aside. *)
Definition resolveUploadConflict (op : uploadOp) : E () :=
  let p := uo_Path op in
  let pull kind := queueDownload (downOp kind p 0 "" (uo_StoredEntry op) (uo_HasStored op) true) in
  if bool_decide (uo_Kind op = opUploadSymlink) then
    st ← remote (rStat baseCtx (absoluteRemotePath p));
    match st with
    | Ok (Some s) =>
        if bool_decide (st_type s = "dir") then requestFullSweep
        else pull (if bool_decide (st_type s = "symlink") then opDownloadSymlink else opDownloadFile)
    | _ => requestFullSweep
    end
  else pull opDownloadFile.

Definition uploadResultBody (res : uploadResult) : E () :=
  let op := ur_Op res in
  if ur_Skipped res then _ ← discardPendingRename op; requestFullSweep
  else
    obsolete ← (if bool_decide (uo_Kind op = opUploadFile) then uploadResultObsolete res else retE false);
    if (obsolete : bool) then requestFullSweep
    else match ur_Err res with
    | Some e => if is_kind KCanceled e then retE () else requestFullSweep
    | None =>
        if ur_Conflict res then
          if bool_decide (uo_Kind op = opUploadDelete) then undoDelete (uo_Path op)
          else resolveUploadConflict op
        else
          recorded ← recordUpload res;
          if negb (recorded : bool) then retE ()
          else
            _ ← onSw markDirty;
            match uo_Kind op, ur_RemoteStat res with
            | opUploadMkdir, Some s =>
                if negb (st_mode s =? uo_Mode op)
                then handleRemoteEvent (remotePathEvent (absoluteRemotePath (uo_Path op)))
                else retE ()
            | _, _ => retE ()
            end
    end.

(** [handleUploadResult]: the deferred calls release the pending counters last,
    the source of a rename before its destination. *)
Definition handleUploadResult (res : uploadResult) : E () :=
  let op := ur_Op res in
  _ ← uploadResultBody res;
  if uo_Tracked op then
    _ ← (if isRename op then finishPendingUpload (uo_PrevPath op) else retE ());
    finishPendingUpload (uo_Path op)
  else retE ().

(** The branches of an adopted download. *)
Definition recordDownload (res : downloadResult) : E () :=
  let op := dr_Op res in
  let p := do_Path op in
  t ← now;
  match do_Kind op with
  | opDownloadFile =>
      identity ← identityFromPath p;
      _ ← putEntry p
            {| e_Type := "file"; e_Mode := dr_Mode res; e_Size := dr_Size res;
               e_LocalHash := dr_RemoteHash res; e_LocalIdentity := identity;
               e_LocalMtimeMs := dr_LocalMtimeMs res; e_RemoteHash := dr_RemoteHash res;
               e_RemoteMtimeMs := dr_MtimeMs res; e_Target := ""; e_LastSyncedAt := t;
               e_ChunkSize := do_ChunkSize op; e_ChunkHashes := do_ChunkHashes op; e_Version := 0;
               e_Deleted := false |};
      retE ()
  | opDownloadSymlink =>
      identity ← identityFromPath p;
      _ ← putEntry p
            {| e_Type := "symlink"; e_Mode := 0; e_Size := 0; e_LocalHash := "";
               e_LocalIdentity := identity; e_LocalMtimeMs := 0; e_RemoteHash := "";
               e_RemoteMtimeMs := 0; e_Target := dr_Target res; e_LastSyncedAt := t; e_ChunkSize := 0;
               e_ChunkHashes := []; e_Version := 0; e_Deleted := false |};
      retE ()
  | opDownloadMkdir =>
      _ ← putEntry p
            {| e_Type := "dir"; e_Mode := do_Mode op; e_Size := 0; e_LocalHash := "";
               e_LocalIdentity := ""; e_LocalMtimeMs := 0; e_RemoteHash := ""; e_RemoteMtimeMs := 0;
               e_Target := ""; e_LastSyncedAt := t; e_ChunkSize := 0; e_ChunkHashes := [];
               e_Version := 0; e_Deleted := false |};
      retE ()
  | opDownloadChmod =>
      e ← storedAt p;
      if (e.2 : bool) then _ ← putEntry p (setSyncedAt t (setMode (dr_Mode res) e.1)); retE () else retE ()
  | opDownloadDelete => retE ()
  end.

Definition handleDownloadResult (res : downloadResult) : E () :=
  let op := dr_Op res in
  let p := do_Path op in
  let kept := negb (bool_decide (dr_ConflictPath res = "")) in
  _ ← (if kept then requestFullSweep else retE ());
  if dr_Skipped res then requestFullSweep
  else match dr_Err res with
  | Some e => if readonly && is_kind EPERM e then requestFullSweep else retE ()
  | None =>
      root ← checkLocalRoot;
      match root with
      | Err _ => retE ()
      | Ok _ =>
          if bool_decide (do_Kind op = opDownloadDelete)
          then if kept then requestFullSweep else retE ()
          else
            e ← storedAt p;
            if (e.2 : bool) && e_Deleted e.1 then
              mine ← localCandidateUnchanged res p;
              _ ← (if (mine : bool) then _ ← modE (app Closing); _ ← Remove p; retE () else retE ());
              requestFullSweep
            else
              _ ← recordDownload res;
              onSw markDirty
      end
  end.

End Event.
