(* ===== verification/SyncExec.v ===== *)
(** The executing half of cmd/afs/sync_full_reconciler.go with the guards of
    sync_recovery_plan.go and the lent directory modes of
    sync_directory_modes.go: each planned action is applied only while the local
    path, the baseline and the remote side are still what the plan was made from;
    directories come first, deletions deepest first.  Last the replay of the
    change stream after a reconnect. *)
From S2P Require Import Prelude Content Paths FsClient SyncState SyncWorld SyncPlan SyncDown SyncUp.
#[local] Open Scope string_scope.
#[local] Open Scope list_scope.
#[local] Open Scope Z_scope.

#[local] Notation "x ← y ; z" := (bindE y (λ x, z))
  (at level 20, y at level 100, z at level 200, only parsing) : sync_scope.
#[local] Notation "x ⇐ y ; z" := (bindR y (λ x, z))
  (at level 20, y at level 100, z at level 200, only parsing) : sync_scope.
#[local] Open Scope sync_scope.

(** * Ordering the plan *)

(** Parents before children; the reverse for deletions. *)
Definition dirLess (a b : syncAction) : bool :=
  let da := CountSlash (a_path a) in
  let db := CountSlash (a_path b) in
  if (da =? db)%nat then stringLess (a_path a) (a_path b) else (da <? db)%nat.

Definition deleteLess (a b : syncAction) : bool :=
  let da := CountSlash (a_path a) in
  let db := CountSlash (a_path b) in
  if (da =? db)%nat then stringLess (a_path b) (a_path a) else (db <? da)%nat.

Definition isDirAction (a : syncAction) : bool :=
  match a_kind a with AMkdirLocal | AMkdirRemote => true | _ => false end.
Definition isDeleteAction (a : syncAction) : bool :=
  match a_kind a with ADeleteLocal | ADeleteRemote => true | _ => false end.

(** The three phases of [executePlan], in the order in which they run. *)
Definition dirActions (sortDirs : list syncAction → list syncAction) (plan : list syncAction) :=
  sortDirs (filter (λ a, isDirAction a = true) plan).
Definition deleteActions (sortDeletes : list syncAction → list syncAction) (plan : list syncAction) :=
  sortDeletes (filter (λ a, isDeleteAction a = true) plan).
Definition fileActions (plan : list syncAction) :=
  filter (λ a, isDirAction a || isDeleteAction a = false) plan.

Section Exec.
Context {H : Hashing} {R : Type} {RC : RemoteClient R} {cfg : @SyncCfg R}.
#[local] Notation E := (SyncWorld.E R).

(** * Guards *)

(** [actionStillCurrent]: the local path and the baseline are those of the plan. *)
Definition localStillCurrent (a : syncAction) : E bool :=
  info ← Lstat (a_path a);
  match a_localMeta a, info with
  | None, Ok _ => retE false
  | None, Err e => retE (IsNotExist e)
  | Some _, Err _ => retE false
  | Some l, Ok i =>
      if bool_decide (o_kind l = "file") then
        retE (is_regular i && (fi_size i =? o_size l) && (fi_perm i =? o_mode l)
              && (UnixMilli i =? o_mtimeMs l)
              && ((o_mtimeNs l =? 0) || (fi_mtimeNs i =? o_mtimeNs l)))
      else if bool_decide (o_kind l = "dir") then retE (is_dir i && (fi_perm i =? o_mode l))
      else if bool_decide (o_kind l = "symlink") then
        t ← ReadLink (a_path a);
        retE (is_symlink i && match t with Ok t => bool_decide (t = o_target l) | Err _ => false end)
      else retE true
  end.

Definition actionStillCurrent (a : syncAction) : E bool :=
  if negb (a_checkState a) then retE true
  else
    deferred ← deferScanForPendingUpload (a_path a);
    if (deferred : bool) then retE false
    else
      e ← storedAt (a_path a);
      loc ← (if bool_decide ((e.2 : bool) = a_hasStored a)
                && (negb e.2 || (e_Version e.1 =? e_Version (a_storedEntry a)))
             then localStillCurrent a else retE false);
      _ ← (if (loc : bool) then retE () else requestFullSweep);
      retE loc.

(** [remoteStatStillCurrent]. *)
Definition remoteStatStillCurrent (a : syncAction) : E (result error (option StatResult * bool)) :=
  st ← remote (rStat baseCtx (absoluteRemotePath (a_path a)));
  match st with
  | Err e => if negb (isClientNotFound e) then errE e
             else if negb (a_checkState a) then okE (None, true)
             else
               let current := bool_decide (a_remoteMeta a = None) in
               _ ← (if current then retE () else requestFullSweep);
               okE (None, current)
  | Ok st =>
      if negb (a_checkState a) then okE (st, true)
      else
        let current :=
          match st, a_remoteMeta a with
          | None, None => true
          | Some s, Some r => bool_decide (st_type s = o_kind r) && (st_size s =? o_size r)
                              && (st_mtime s =? o_mtimeMs r) && (st_mode s =? o_mode r)
          | _, _ => false
          end in
        _ ← (if current then retE () else requestFullSweep);
        okE (st, current)
  end.

Definition remoteStillCurrent (a : syncAction) : E (result error bool) :=
  r ⇐ remoteStatStillCurrent a; okE r.2.

(** [updateActionState]: only if the baseline is still the plan's. *)
Definition updateActionState (a : syncAction) (entry : SyncEntry) : E () :=
  e ← storedAt (a_path a);
  if a_checkState a
     && (negb (bool_decide ((e.2 : bool) = a_hasStored a))
         || (e.2 : bool) && negb (e_Version e.1 =? e_Version (a_storedEntry a)))
  then requestFullSweep
  else _ ← putEntry (a_path a) entry; retE ().

Definition dirEntry (mode t : Z) : SyncEntry :=
  {| e_Type := "dir"; e_Mode := mode; e_Size := 0; e_LocalHash := ""; e_LocalIdentity := "";
     e_LocalMtimeMs := 0; e_RemoteHash := ""; e_RemoteMtimeMs := 0; e_Target := "";
     e_LastSyncedAt := t; e_ChunkSize := 0; e_ChunkHashes := []; e_Version := 0; e_Deleted := false |}.

Definition fileEntry (mode size : Z) (hash : string) (lm rm t chunkSize : Z) (hashes : list string) :
    SyncEntry :=
  {| e_Type := "file"; e_Mode := mode; e_Size := size; e_LocalHash := hash; e_LocalIdentity := "";
     e_LocalMtimeMs := lm; e_RemoteHash := hash; e_RemoteMtimeMs := rm; e_Target := "";
     e_LastSyncedAt := t; e_ChunkSize := chunkSize; e_ChunkHashes := hashes; e_Version := 0;
     e_Deleted := false |}.

Definition linkEntry (target identity : string) (t : Z) : SyncEntry :=
  {| e_Type := "symlink"; e_Mode := 0; e_Size := 0; e_LocalHash := ""; e_LocalIdentity := identity;
     e_LocalMtimeMs := 0; e_RemoteHash := ""; e_RemoteMtimeMs := 0; e_Target := target;
     e_LastSyncedAt := t; e_ChunkSize := 0; e_ChunkHashes := []; e_Version := 0; e_Deleted := false |}.

(** * Actions *)

Definition execMkdirLocal (a : syncAction) : E (result error ()) :=
  let p := a_path a in
  _ ⇐ MkdirAllPath p;
  _ ⇐ (if a_mode a =? 0 then okE () else ChmodLocal p (a_mode a));
  info ⇐ Lstat p;
  _ ⇐ liftE (markDir p (a_mode a) info);
  t ⇐ liftE now;
  liftE (updateActionState a (dirEntry (a_mode a) t)).

Definition execMkdirRemote (a : syncAction) : E (result error ()) :=
  let remotePath := absoluteRemotePath (a_path a) in
  cur ⇐ remoteStatStillCurrent a;
  let '(stat, current) := cur in
  if negb (current : bool) then okE ()
  else
    r ← (match stat with
         | None =>
             mk ← remote (rMkdirMode baseCtx remotePath (a_mode a));
             retE (match mk with
                   | Err e => if isClientAlreadyExists e then Ok () else Err e
                   | Ok _ => Ok ()
                   end)
         | Some s => remote (rChmod (WithExpectedStat baseCtx (Some s)) remotePath (a_mode a))
         end);
    match r with
    | Err e =>
        _ ← (if is_kind KWriteConflict e then requestFullSweep else retE ());
        errE (Errorf "publish remote directory" e)
    | Ok _ => t ⇐ liftE now; liftE (updateActionState a (dirEntry (a_mode a) t))
    end.

(** The mode a downloaded file gets. *)
Definition downloadMode (a : syncAction) : Z :=
  let mode := if (a_mode a =? 0) && negb readonly then 420 else a_mode a in
  if readonly then Z.ldiff mode 146 else mode.

(** [stageDownload]. *)
Definition stageDownload (a : syncAction) (conflict : bool) (mode : Z) (data : bytes) :
    E (string * option error) :=
  writeLocalFile
    {| do_Kind := opDownloadFile; do_Path := a_path a; do_Mode := 0; do_Symlink := "";
       do_StoredEntry := zeroEntry; do_HasStored := false; do_Conflict := conflict;
       do_Chunked := false; do_FileSize := 0; do_ChunkSize := 0; do_ChunkHashes := [];
       do_DirtyChunks := [] |} mode (okE data)
    (_ ⇐ checkRunning;
     ok ⇐ liftE (actionStillCurrent a);
     returnIf (negb ok) errSyncDownloadLocalChanged).

(** What is recorded after the local file holds the remote bytes. *)
Definition recordDownloaded (a : syncAction) (mode : Z) (data : bytes) : E () :=
  info ← Lstat (a_path a);
  t ← now;
  updateActionState a
    (fileEntry mode (len data) (sha256Hex data)
       (match info with Ok i => UnixMilli i | Err _ => 0 end)
       (match a_remoteMeta a with Some r => o_mtimeMs r | None => 0 end) t 0 []).

Definition execDownload (a : syncAction) : E (result error ()) :=
  let p := a_path a in
  e ← storedAt p;
  if (e.2 : bool) && e_Deleted e.1 then okE ()
  else
    data ← remote (rCat baseCtx (absoluteRemotePath p));
    match data with
    | Err e => if isClientNotFound e then okE () else errE (Errorf "download" e)
    | Ok data =>
        _ ⇐ checkRunning;
        ok ⇐ liftE (actionStillCurrent a);
        if negb (ok : bool) then okE ()
        else
          let mode := downloadMode a in
          localData ⇐ liftE (ReadFile p);
          localInfo ⇐ liftE (Lstat p);
          let sameBytes := match localData, localInfo with
                           | Ok d, Ok i => is_regular i && bool_decide (sha256Hex d = sha256Hex data)
                           | _, _ => false
                           end in
          let perm := match localInfo with Ok i => fi_perm i | Err _ => 0 end in
          let identical := sameBytes && (perm =? mode) in
          let conflict := a_conflict a
                          && negb (identical || (sameBytes && readonly && (perm =? a_mode a))) in
          if identical then liftE (recordDownloaded a mode data)
          else
            w ⇐ liftE (stageDownload a conflict mode data);
            let '(cp, werr) := w in
            let changed := match werr with Some e => is_kind KLocalChanged e | None => false end in
            _ ⇐ liftE (if negb (bool_decide (cp = "")) || changed then requestFullSweep else retE ());
            match werr with
            | Some e => if changed then okE () else errE (Errorf "write" e)
            | None =>
                _ ⇐ liftE (markFile p (sha256Hex data));
                liftE (recordDownloaded a mode data)
            end
    end.

Definition execDeleteLocal (a : syncAction) : E (result error ()) :=
  _ ⇐ checkRunning;
  r ⇐ liftE (applyConfirmedSyncRemoteDelete checkRunning (a_path a) (a_storedEntry a) (a_hasStored a));
  let '(cp, skipped, e) := r in
  _ ⇐ liftE (if (skipped : bool) || negb (bool_decide (cp = "")) then requestFullSweep else retE ());
  retE (match e with Some e => Err e | None => Ok () end).

(** The upload of whole bytes or of all chunks of a file that recovery found. *)
Definition chunkMap (data : bytes) (chunkSize : Z) (hashes : list string) : gmap Z bytes :=
  list_to_map (map (λ i, (i, readChunkFromDisk data i chunkSize)) (allChunks hashes)).

Definition execUpload (a : syncAction) : E (result error ()) :=
  let p := a_path a in
  let remotePath := absoluteRemotePath p in
  if readonly then okE ()
  else
    info ← Lstat p;
    data ← ReadFile p;
    match info, data with
    | Err e, _ => if IsNotExist e then okE () else errE e
    | Ok _, Err e => if IsNotExist e then okE () else errE e
    | Ok info, Ok data =>
        if maxFileBytes <? len data then okE ()
        else
          ok ⇐ liftE (actionStillCurrent a);
          if negb (ok : bool) then okE ()
          else
            _ ⇐ checkRunning;
            cur ⇐ remoteStatStillCurrent a;
            let '(stat, current) := cur in
            if negb (current : bool) then okE ()
            else
              let ctx := WithExpectedStat baseCtx stat in
              let chunked := cfgChunkThreshold <? len data in
              let hashes := if chunked then uploadChunkHashes data cfgChunkSize else [] in
              let hash := if chunked then compositeHash hashes else sha256Hex data in
              w ← (if chunked
                   then remote (rWriteChunks ctx remotePath (chunkMap data cfgChunkSize hashes)
                                  cfgChunkSize (len data) hashes)
                   else remote (rEcho ctx remotePath data));
              match w with
              | Err e =>
                  _ ← (if is_kind KWriteConflict e then requestFullSweep else retE ());
                  errE (Errorf "upload" e)
              | Ok _ =>
                  let mode := if a_mode a =? 0 then 420 else a_mode a in
                  _ ← remote (rChmod baseCtx remotePath mode);
                  st ⇐ orReturn (Errorf "stat uploaded") (remote (rStat baseCtx remotePath));
                  match st with
                  | None => errE (plain "uploaded file is missing remotely")
                  | Some s =>
                      t ⇐ liftE now;
                      liftE (updateActionState a
                        (fileEntry mode (len data) hash (UnixMilli info) (st_mtime s) t
                           (if chunked then cfgChunkSize else 0) hashes))
                  end
              end
    end.

Definition execSymlinkDownload (a : syncAction) : E (result error ()) :=
  let p := a_path a in
  _ ⇐ checkRunning;
  let hasStored := if a_checkState a && bool_decide (a_localMeta a = None) then false else a_hasStored a in
  res ⇐ liftE (processSymlink
    {| do_Kind := opDownloadSymlink; do_Path := p; do_Mode := 0; do_Symlink := a_target a;
       do_StoredEntry := a_storedEntry a; do_HasStored := hasStored; do_Conflict := a_conflict a;
       do_Chunked := false; do_FileSize := 0; do_ChunkSize := 0; do_ChunkHashes := [];
       do_DirtyChunks := [] |});
  match dr_Err res with
  | Some e => errE e
  | None =>
      if dr_Skipped res then liftE requestFullSweep
      else
        _ ⇐ liftE (if bool_decide (dr_ConflictPath res = "") then retE () else requestFullSweep);
        info ⇐ liftE (Lstat p);
        t ⇐ liftE now;
        liftE (updateActionState a
          (linkEntry (dr_Target res) (match info with Ok i => localFileIdentity i | Err _ => "" end) t))
  end.

Definition execSymlinkUpload (a : syncAction) : E (result error ()) :=
  _ ⇐ checkRunning;
  r ← syncUploadSymlink (absoluteRemotePath (a_path a)) (a_target a) (a_storedEntry a) (a_hasStored a) baseCtx;
  match r with
  | Err e =>
      _ ← (if is_kind KWriteConflict e then requestFullSweep else retE ());
      errE (Errorf "symlink upload" e)
  | Ok _ => t ⇐ liftE now; liftE (updateActionState a (linkEntry (a_target a) "" t))
  end.

(** The remote version a rejected local deletion is replaced by. *)
Definition statMeta (s : StatResult) : observedMeta :=
  {| o_kind := st_type s; o_mode := st_mode s; o_size := st_size s; o_mtimeMs := st_mtime s;
     o_mtimeNs := 0; o_target := "" |}.

Definition withBaseline (a : syncAction) (entry : SyncEntry) (hasStored : bool) : syncAction :=
  {| a_kind := a_kind a; a_path := a_path a; a_mode := a_mode a; a_target := a_target a;
     a_conflict := a_conflict a; a_localMeta := a_localMeta a; a_remoteMeta := a_remoteMeta a;
     a_checkState := true; a_storedEntry := entry; a_hasStored := hasStored |}.

(** [executeAction] for a download, which [execDeleteRemote] calls. *)
Definition executeDownload (a : syncAction) : E (result error ()) :=
  _ ⇐ checkRunning;
  ok ⇐ liftE (actionStillCurrent a);
  if negb (ok : bool) then okE ()
  else match a_kind a with
       | AMkdirLocal => execMkdirLocal a
       | ASymlinkDownload => execSymlinkDownload a
       | _ => execDownload a
       end.

Definition execDeleteRemote (a : syncAction) : E (result error ()) :=
  let p := a_path a in
  let remotePath := absoluteRemotePath p in
  _ ⇐ checkLocalRoot;
  cur ⇐ remoteStatStillCurrent a;
  let '(stat, current) := cur in
  if negb (current : bool) then okE ()
  else
    m ⇐ syncRemoteMatchesStored remotePath stat (a_storedEntry a) (a_hasStored a);
    match (m : bool), stat with
    | false, Some s =>
        e ⇐ liftE (storedAt p);
        let '(entry, known) := e in
        entry ⇐ liftE (if known && e_Deleted entry
                       then v ← putEntry p (setDeleted false entry);
                            retE (setVersion v (setDeleted false entry))
                       else retE entry);
        executeDownload (withBaseline (planDownload p (statMeta s) false) entry known)
    | _, _ =>
        rm ← remote (rRm (WithExpectedStat baseCtx stat) remotePath);
        _ ⇐ (match rm with
             | Err e =>
                 if negb (isClientNotFound e) && negb (is_kind KRedisNil e)
                 then _ ← (if is_kind KWriteConflict e then requestFullSweep else retE ());
                      errE (Errorf "rm remote" e)
                 else okE ()
             | Ok _ => okE ()
             end);
        e ⇐ liftE (storedAt p);
        _ ⇐ liftE (if (e.2 : bool) && e_Deleted e.1
                      && (negb (a_checkState a) || (e_Version e.1 =? e_Version (a_storedEntry a)))
                   then onSw (dropEntry p) else retE ());
        liftE requestFullSweep
    end.

Definition remoteKind (k : actionKind) : bool :=
  match k with AMkdirRemote | AUpload | ASymlinkUpload | ADeleteRemote => true | _ => false end.

Definition executeAction (a : syncAction) : E (result error ()) :=
  _ ⇐ checkRunning;
  ok ⇐ liftE (actionStillCurrent a);
  if negb (ok : bool) then okE ()
  else if readonly && remoteKind (a_kind a) then errE (plain "sync mount is read-only")
  else match a_kind a with
       | AMkdirLocal => execMkdirLocal a
       | AMkdirRemote => execMkdirRemote a
       | ADownload => execDownload a
       | AUpload => execUpload a
       | ASymlinkDownload => execSymlinkDownload a
       | ASymlinkUpload => execSymlinkUpload a
       | ADeleteRemote => execDeleteRemote a
       | ADeleteLocal => execDeleteLocal a
       end.

End Exec.
