(* ===== verification/SyncRun.v ===== *)
(** The engine as a whole: the three phases of [executePlan] with the directory
    modes lent meanwhile (sync_directory_modes.go), the warm and cold passes of
    sync_full_reconciler.go, the replay of the change stream, the debounce of the
    watcher (sync_watcher.go) and the steps by which the reconciler and its two
    workers take turns (sync_event_reconciler.go, sync_daemon.go). *)
From S2P Require Import Prelude Content Paths FsClient SyncState SyncWorld SyncPlan SyncDown SyncUp.
From S2P Require Import SyncEvent SyncExec.
#[local] Open Scope string_scope.
#[local] Open Scope list_scope.
#[local] Open Scope Z_scope.

#[local] Notation "x ← y ; z" := (bindE y (λ x, z))
  (at level 20, y at level 100, z at level 200, only parsing) : sync_scope.
#[local] Notation "x ⇐ y ; z" := (bindR y (λ x, z))
  (at level 20, y at level 100, z at level 200, only parsing) : sync_scope.
#[local] Open Scope sync_scope.

(** * The change stream *)

(** [dispatchInvalidateEvent]: what one published event becomes.  A prefix event
    on the root ends the loop over its paths. *)
Fixpoint prefixEvents (paths : list string) : list remoteEvent :=
  match paths with
  | [] => []
  | p :: paths =>
      if bool_decide (p = "/" ∨ p = "")
      then [{| re_Path := ""; re_NeedsContent := false; re_FullSweep := true; re_RootReplace := false |}]
      else remotePathEvent p :: prefixEvents paths
  end.

Definition dispatchInvalidateEvent (ev : InvalidateEvent) : list remoteEvent :=
  if bool_decide (ev_Op ev = InvalidateOpContent) then
    map (λ p, {| re_Path := p; re_NeedsContent := true; re_FullSweep := false; re_RootReplace := false |})
      (ev_Paths ev)
  else if bool_decide (ev_Op ev = InvalidateOpInode) then map remotePathEvent (ev_Paths ev)
  else if bool_decide (ev_Op ev = InvalidateOpDir) then map remotePathEvent (ev_Paths ev)
  else if bool_decide (ev_Op ev = InvalidateOpPrefix) then prefixEvents (ev_Paths ev)
  else if bool_decide (ev_Op ev = "root-replace") then
    [{| re_Path := ""; re_NeedsContent := false; re_FullSweep := false; re_RootReplace := true |}]
  else [].

Section Run.
Context {H : Hashing} {R : Type} {RC : RemoteClient R} {cfg : @SyncCfg R}.
#[local] Notation E := (SyncWorld.E R).

(** [send]: a full channel becomes a request that bypasses it. *)
Definition sendRemote (ev : remoteEvent) : E () := λ g,
  if (length (g_remoteEvents g) <? channelCapacity)%nat
  then ((), set_remoteEvents (g_remoteEvents g ++ [ev]) g)
  else if re_RootReplace ev then ((), set_rootReplace true g) else ((), set_sweep true g).

Fixpoint sendAll (evs : list remoteEvent) : E () :=
  match evs with
  | [] => retE ()
  | ev :: evs => _ ← sendRemote ev; sendAll evs
  end.

(** One batch of [catchUpFromStream]: own events only move the cursor. *)
Fixpoint replayBatch (self : string) (batch : list ChangeStreamEntry) (lastID : string) : E string :=
  match batch with
  | [] => retE lastID
  | e :: batch =>
      _ ← (if bool_decide (ev_Origin (cs_Event e) = self) then retE ()
           else sendAll (dispatchInvalidateEvent (cs_Event e)));
      replayBatch self batch (cs_ID e)
  end.

Definition streamBatch : Z := 500.

(** The loop of [catchUpFromStream]; [None] when the fuel is used up. *)
Fixpoint catchUp_loop (fuel : nat) (lastID : string) : E (option bool) :=
  match fuel with
  | O => retE None
  | S fuel =>
      r ← remote (rReadChangeStream baseCtx lastID streamBatch);
      match r with
      | Err _ => retE (Some false)
      | Ok [] => retE (Some true)
      | Ok batch =>
          self ← getE (λ g, rOriginID (g_remote g));
          lastID ← replayBatch self batch lastID;
          _ ← onSw (updateStreamID lastID);
          if Z.of_nat (length batch) <? streamBatch then retE (Some true)
          else catchUp_loop fuel lastID
      end
  end.

Definition catchUpFromStream (fuel : nat) : E (option bool) :=
  lastID ← getE (λ g, lastStreamID (g_sw g));
  if bool_decide (lastID = "") then retE (Some false) else catchUp_loop fuel lastID.

(** What [run] does once the subscription is confirmed: the cache is flushed, the
    stream replayed, and a full sweep requested when it cannot be. *)
Definition onConnected (fuel : nat) : E () :=
  _ ← invalidateCache;
  r ← catchUpFromStream fuel;
  match r with Some true => retE () | _ => requestFullSweep end.

(** * Directory modes *)

(** [syncDirectoryModes]: the directories seen, and those whose mode is lent. *)
Record dirModes := { dm_prepared : gset string; dm_changed : gmap string temporaryDirectoryMode }.

Definition noModes : dirModes := {| dm_prepared := ∅; dm_changed := ∅ |}.

Definition setTemp (f : gmap string temporaryDirectoryMode → gmap string temporaryDirectoryMode) : E () :=
  modE (λ g, set_tempdirs (f (g_tempdirs g)) g).

(** Whether the marker of a directory is still this one. *)
Definition sameMarker (a b : temporaryDirectoryMode) : bool :=
  bool_decide (td_before a = td_before b) && (td_mode a =? td_mode b).

Definition releaseDirectoryMode (p : string) (m : temporaryDirectoryMode) : E () :=
  setTemp (λ t, match t !! p with
                | Some m' => if sameMarker m m' then delete p t else t
                | None => t
                end).

(** [info.Mode() | 0o700]. *)
Definition lend (mode : Z) : Z := Z.lor mode 448.

(** One directory of [prepare], its ancestors done. *)
Definition prepareOne (p : string) (m : dirModes) : E (result error dirModes) :=
  if bool_decide (p ∈ dm_prepared m) then okE m
  else
    info ⇐ LstatOpt p;
    match info with
    | None => okE m
    | Some i =>
        if negb (is_dir i) then errE (plain "sync directory is not a directory")
        else
          changed ⇐ (if Z.land (fi_perm i) 448 =? 448 then okE (dm_changed m)
                     else
                       let marker := {| td_before := i; td_mode := lend (fi_perm i); td_retry := false |} in
                       _ ⇐ liftE (setTemp (insert p marker));
                       _ ⇐ liftE (markDir p (lend (fi_perm i)) i);
                       r ⇐ liftE (ChmodLocal p (lend (fi_perm i)));
                       match r with
                       | Err e => _ ⇐ liftE (releaseDirectoryMode p marker); errE (Errorf "prepare sync directory" e)
                       | Ok _ => okE (<[p := marker]> (dm_changed m))
                       end);
          okE {| dm_prepared := {[p]} ∪ dm_prepared m; dm_changed := changed |}
    end.

Fixpoint prepareEach (dirs : list string) (m : dirModes) : E (result error dirModes) :=
  match dirs with
  | [] => okE m
  | d :: dirs => m ⇐ prepareOne d m; prepareEach dirs m
  end.

(** [prepare(abs)] and [prepare(filepath.Dir(abs))], from the top. *)
Definition prepare (p : string) (m : dirModes) : E (result error dirModes) :=
  prepareEach (ancestors p ++ [p]) m.
Definition prepareDir (p : string) (m : dirModes) : E (result error dirModes) :=
  prepareEach (ancestors p) m.

(** [restoreDirectoryMode]: whether an application change was found instead. *)
Definition restoreDirectoryMode (p : string) (m : temporaryDirectoryMode) : E (bool * option error) :=
  let failed (e : error) : E (bool * option error) :=
    _ ← setTemp (λ t, match t !! p with
                      | Some m' => if sameMarker m m'
                                   then <[p := {| td_before := td_before m; td_mode := td_mode m;
                                                  td_retry := true |}]> t else t
                      | None => t
                      end);
    retE (false, Some e) in
  info ← Lstat p;
  match info with
  | Err e =>
      if IsNotExist e || is_kind ENOTDIR e then _ ← releaseDirectoryMode p m; retE (true, None)
      else failed e
  | Ok i =>
      if negb (SameFile (td_before m) i) || negb (is_dir i) || negb (fi_perm i =? lend (fi_perm (td_before m)))
      then _ ← releaseDirectoryMode p m; retE (true, None)
      else
        _ ← markDir p (fi_perm (td_before m)) (td_before m);
        r ← ChmodLocal p (fi_perm (td_before m));
        match r with
        | Err e => failed e
        | Ok _ => _ ← releaseDirectoryMode p m; retE (false, None)
        end
  end.

Fixpoint restoreEach (paths : list (string * temporaryDirectoryMode)) : E (option error) :=
  match paths with
  | [] => retE None
  | (p, m) :: paths =>
      r ← restoreDirectoryMode p m;
      _ ← (if (r.1 : bool) then requestFullSweep else retE ());
      rest ← restoreEach paths;
      retE (match r.2 with Some e => Some e | None => rest end)
  end.

(** [restore]: deepest first, which descending byte order gives. *)
Definition pathDescending (l : list (string * temporaryDirectoryMode)) : list (string * temporaryDirectoryMode) :=
  insertion_sort (λ a b, stringLess b.1 a.1) l.

Definition restoreModes (m : dirModes) : E (option error) :=
  restoreEach (pathDescending (map_to_list (dm_changed m))).

(** [retryDirectoryModes]: the restorations that failed before. *)
Fixpoint retryEach (paths : list (string * temporaryDirectoryMode)) : E (option error) :=
  match paths with
  | [] => retE None
  | (p, m) :: paths =>
      r ← restoreDirectoryMode p m;
      rest ← retryEach paths;
      retE (match r.2 with Some e => Some e | None => rest end)
  end.

Definition retryDirectoryModes : E (result error ()) :=
  pending ← getE (λ g, map_to_list (filter (λ '(_, m), td_retry m = true) (g_tempdirs g)));
  e ← retryEach (pathDescending pending);
  retE (match e with Some e => Err e | None => Ok () end).

(** * Executing a plan *)

(** Phase 1: directories, serially; a local directory is opened for its children. *)
Fixpoint runDirs (actions : list syncAction) (m : dirModes) : E (result error () * dirModes) :=
  match actions with
  | [] => retE (Ok (), m)
  | a :: actions =>
      let isLocal := bool_decide (a_kind a = AMkdirLocal) in
      r ← (_ ⇐ checkRunning;
           m ⇐ (if isLocal then prepareDir (a_path a) m else okE m);
           _ ⇐ executeAction a;
           if isLocal then prepare (a_path a) m else okE m);
      match r with
      | Err e => retE (Err e, m)
      | Ok m => runDirs actions m
      end
  end.

(** Before local writes and deletions their directories are opened. *)
Fixpoint openParents (plan : list syncAction) (m : dirModes) : E (result error dirModes) :=
  match plan with
  | [] => okE m
  | a :: plan =>
      _ ⇐ ctxErr;
      m ⇐ (match a_kind a with
           | ADownload | ASymlinkDownload | ADeleteLocal => prepareDir (a_path a) m
           | _ => okE m
           end);
      openParents plan m
  end.

(** Phase 2: deletions, serially. *)
Fixpoint runSerial (actions : list syncAction) : E (result error ()) :=
  match actions with
  | [] => okE ()
  | a :: actions => _ ⇐ checkRunning; _ ⇐ executeAction a; runSerial actions
  end.

(** Phase 3: files and links.  Eight workers run at once; an action dispatched
    before the first error is seen still runs, [late] of them. *)
Fixpoint runFiles (late : nat) (first : option error) (actions : list syncAction) : E (option error) :=
  match actions with
  | [] => retE first
  | a :: actions =>
      running ← checkRunning;
      match running, first, late with
      | Err _, _, _ => retE first
      | Ok _, Some _, O => retE first
      | Ok _, Some _, S late => _ ← executeAction a; runFiles late first actions
      | Ok _, None, _ =>
          r ← executeAction a;
          runFiles late (match r with Err e => Some e | Ok _ => None end) actions
      end
  end.

Definition runPhases (late : nat) (sortDirs sortDeletes : list syncAction → list syncAction)
    (plan : list syncAction) : E (result error () * dirModes) :=
  d ← runDirs (dirActions sortDirs plan) noModes;
  let '(r, m) := d in
  match r with
  | Err e => retE (Err e, m)
  | Ok _ =>
      o ← openParents plan m;
      match o with
      | Err e => retE (Err e, m)
      | Ok m =>
          r ← runSerial (deleteActions sortDeletes plan);
          match r with
          | Err e => retE (Err e, m)
          | Ok _ =>
              first ← runFiles late None (fileActions plan);
              _ ← onSw markDirty;
              match first with
              | Some e => retE (Err e, m)
              | None => r ← checkRunning; retE (r, m)
              end
          end
      end
  end.

(** The lent modes are given back on every way out. *)
Definition executePlan (late : nat) (sortDirs sortDeletes : list syncAction → list syncAction)
    (plan : list syncAction) : E (result error ()) :=
  d ← runPhases late sortDirs sortDeletes plan;
  let '(r, m) := d in
  e ← restoreModes m;
  retE (match r, e with Err e, _ => Err e | Ok _, Some e => Err e | Ok _, None => Ok () end).

(** * Passes *)

(** The orders in which the source ranges over maps, and the number of actions
    that outrun an error, in one pass. *)
Record passChoices := {
  pc_entries : list string;
  pc_paths : list string;
  pc_depth : nat;
  pc_late : nat;
  pc_sortDirs : list syncAction → list syncAction;
  pc_sortDeletes : list syncAction → list syncAction
}.

Definition warmStart (c : passChoices) : E (result error ()) :=
  _ ⇐ checkRunning;
  _ ⇐ remote (rStat baseCtx "/");
  _ ⇐ retryDirectoryModes;
  loc ⇐ scanLocalMeta;
  _ ⇐ checkRunning;
  _ ⇐ liftE (detectOfflineDeletes (pc_entries c) loc);
  _ ⇐ liftE invalidateCache;
  rem ⇐ scanRemoteMeta (pc_depth c);
  _ ⇐ checkRunning;
  plan ⇐ liftE (buildPlan (pc_paths c) loc rem);
  match plan with
  | [] => liftE cleanupTombstones
  | _ =>
      r ← executePlan (pc_late c) (pc_sortDirs c) (pc_sortDeletes c) plan;
      _ ← cleanupTombstones;
      retE r
  end.

(** An entry of a checkpoint manifest with the content its blob has. *)
Record manifestEntry := {
  me_Type : string; me_Mode : Z; me_Size : Z; me_MtimeMs : Z; me_Target : string; me_data : option bytes
}.

(** The baseline of [coldStart]: no version is taken for it. *)
Definition coldEntry (t : Z) (info : result error fileInfo) (e : manifestEntry) : SyncEntry :=
  let isFile := bool_decide (me_Type e = "file") in
  let hash := match me_data e with Some d => if isFile then sha256Hex d else "" | None => "" end in
  {| e_Type := me_Type e;
     e_Mode := if isFile then match info with Ok i => fi_perm i | Err _ => me_Mode e end else me_Mode e;
     e_Size := me_Size e; e_LocalHash := hash; e_LocalIdentity := "";
     e_LocalMtimeMs := if isFile then match info with Ok i => UnixMilli i | Err _ => 0 end else 0;
     e_RemoteHash := hash; e_RemoteMtimeMs := me_MtimeMs e;
     e_Target := if bool_decide (me_Type e = "symlink") then me_Target e else "";
     e_LastSyncedAt := t; e_ChunkSize := 0; e_ChunkHashes := []; e_Version := 0; e_Deleted := false |}.

Fixpoint coldEntries (m : list (string * manifestEntry)) : E () :=
  match m with
  | [] => retE ()
  | (p, e) :: m =>
      let rel := TrimPrefix p "/" in
      _ ← (if bool_decide (rel = "") then retE ()
           else
             t ← now;
             info ← Lstat rel;
             onSw (λ w, setDirty (onState (withEntries (insert rel (coldEntry t info e))) w)));
      coldEntries m
  end.

(** [coldStart] after the manifest is materialised. *)
Definition coldStartState (m : list (string * manifestEntry)) : E () :=
  _ ← coldEntries m; onSw markDirty.

(** [replaceStateFromManifest]: every entry takes a version. *)
Definition replacedEntry (t : Z) (info : result error fileInfo) (e : manifestEntry) : SyncEntry :=
  let isFile := bool_decide (me_Type e = "file") in
  let hash := match me_data e with Some d => if isFile then sha256Hex d else "" | None => "" end in
  {| e_Type := me_Type e; e_Mode := me_Mode e; e_Size := me_Size e; e_LocalHash := hash;
     e_LocalIdentity := "";
     e_LocalMtimeMs := if isFile then match info with Ok i => UnixMilli i | Err _ => 0 end else 0;
     e_RemoteHash := hash; e_RemoteMtimeMs := me_MtimeMs e;
     e_Target := if bool_decide (me_Type e = "symlink") then me_Target e else "";
     e_LastSyncedAt := t; e_ChunkSize := 0; e_ChunkHashes := []; e_Version := 0; e_Deleted := false |}.

Fixpoint replaceEntries (m : list (string * manifestEntry)) : E () :=
  match m with
  | [] => retE ()
  | (p, e) :: m =>
      let rel := TrimPrefix p "/" in
      _ ← (if bool_decide (rel = "") then retE ()
           else t ← now; info ← Lstat rel; _ ← putEntry rel (replacedEntry t info e); retE ());
      replaceEntries m
  end.

Definition replaceStateFromManifest (m : list (string * manifestEntry)) : E (result error ()) :=
  if existsb (λ '(_, e), bool_decide (me_Type e = "file") && bool_decide (me_data e = None)) m
  then errE (plain "blob missing while rebuilding sync state")
  else
    _ ← onSw (λ w, setDirty (onState (withEntries (λ _, ∅)) w));
    _ ← replaceEntries m;
    okE ().

(** [hasNonControlLocalEntries]: the names directly below the root. *)
Definition hasNonControlLocalEntries : E (result error bool) :=
  on_tree (λ t, Ok (existsb (λ p, bool_decide (ancestors p = [])
                                  && negb (bool_decide (p = syncControlDirName)))
                      (map fst (map_to_list t)))).

Definition isColdStart : E bool :=
  n ← getE (λ g, bool_decide (s_Entries (sw_state (g_sw g)) = ∅));
  if negb (n : bool) then retE false
  else
    p ← hasNonControlLocalEntries;
    retE (match p with Ok populated => negb populated | Err _ => false end).

(** * Turns *)

(** What can happen next.  The reconciler's select takes one event or result; a
    worker takes one operation; a delayed deletion fires; the daemon runs a
    recovery pass when a sweep is requested; the subscription is confirmed, or
    delivers an event; the watcher reports; the application changes the local tree or a peer the
    workspace, which is one step of [app]; the generation ends. *)
Inductive turn :=
| TLocal (nesting : nat)
| TRemote
| TUploadResult
| TDownloadResult
| TSweepSymlinks (nesting : nat)
| TUploader
| TDownloader
| TDelayed (n : nat)
| TRecover (c : passChoices)
| TConnected (fuel : nat)
| TInvalidate (ev : InvalidateEvent)
| TWatch (ev : LocalEvent)
| TOthers
| TStop.

Definition scanOf (nesting : nat) : string → E () :=
  λ deleted, match nesting with
             | O => retE ()
             | S n => scanForRenameTargets (handleLocalEvent n) deleted
             end.

(** The results channels hold [channelCapacity] items; a worker whose result
    does not fit waits, so its turn does not come. *)
Definition takeTurn (t : turn) : E () := λ g,
  match t with
  | TLocal n =>
      match g_localEvents g with
      | ev :: evs => handleLocalEvent n ev (set_localEvents evs g)
      | [] => ((), g)
      end
  | TRemote =>
      match g_remoteEvents g with
      | ev :: evs => handleRemoteEvent ev (set_remoteEvents evs g)
      | [] => ((), g)
      end
  | TUploadResult =>
      match g_uploadRes g with
      | r :: rs => handleUploadResult r (set_uploadRes rs g)
      | [] => ((), g)
      end
  | TDownloadResult =>
      match g_downloadRes g with
      | r :: rs => handleDownloadResult r (set_downloadRes rs g)
      | [] => ((), g)
      end
  | TSweepSymlinks n => sweepMissingLocalSymlinks (scanOf n) g
  | TUploader =>
      match g_uploads g with
      | op :: ops =>
          if (length (g_uploadRes g) <? channelCapacity)%nat && negb (g_stop g) then
            let '(r, g) := processUpload op (set_uploads ops g) in
            ((), set_uploadRes (g_uploadRes g ++ [r]) g)
          else ((), g)
      | [] => ((), g)
      end
  | TDownloader =>
      match g_downloads g with
      | op :: ops =>
          if (length (g_downloadRes g) <? channelCapacity)%nat && negb (g_stop g) then
            let '(r, g) := processDownload op (set_downloads ops g) in
            ((), set_downloadRes (g_downloadRes g ++ [r]) g)
          else ((), g)
      | [] => ((), g)
      end
  | TDelayed n => fireDelayed n g
  | TRecover c =>
      if g_sweep g then ((), snd (warmStart c (set_sweep false g))) else ((), g)
  | TConnected fuel => onConnected fuel g
  | TInvalidate ev => sendAll (dispatchInvalidateEvent ev) g
  | TWatch ev =>
      ((), if (length (g_localEvents g) <? 1024)%nat
           then set_localEvents (g_localEvents g ++ [ev]) g else set_sweep true g)
  | TOthers => ((), app Waiting g)
  | TStop => ((), set_stop true g)
  end.

Fixpoint takeTurns (ts : list turn) : E () :=
  match ts with
  | [] => retE ()
  | t :: ts => _ ← takeTurn t; takeTurns ts
  end.

End Run.
