(* ===== verification/SyncSample.v ===== *)
(** A small concrete workspace behind the client interface, and a mount of it:
    the inputs the witnesses of the sync engine's theorems run on. *)
From S2P Require Import Prelude Content Paths FsClient SyncState SyncChunks SyncWorld SyncPlan SyncDown.
From S2P Require Import SyncUp SyncEvent SyncExec SyncRun.
#[local] Open Scope string_scope.
#[local] Open Scope list_scope.
#[local] Open Scope Z_scope.

Record node := Node {
  n_type : string; n_mode : Z; n_ino : Z; n_mtime : Z; n_data : bytes; n_target : string;
  n_chunkSize : Z; n_chunks : list string
}.

(** Absolute paths to nodes, the clock, and the change stream. *)
Record flat := Flat { fl_nodes : gmap string node; fl_time : Z; fl_stream : list ChangeStreamEntry }.

Definition fl_stat (n : node) : StatResult :=
  StatResult_ "" (n_ino n) (n_type n) (n_mode n)
    0 0 (len (n_data n)) (n_mtime n) (n_mtime n) (n_mtime n).

#[local] Instance StatResult_eq_dec : EqDecision StatResult.
Proof. solve_decision. Defined.

Definition fl_missing : error := Error KPlain "no such file or directory".
Definition fl_conflict : error := writeConflict.

(** The version the context expects, and the one there is. *)
Definition fl_expected (ctx : Ctx) (p : string) (r : flat) : bool :=
  match cx_expectedStat ctx with
  | None => true
  | Some st => bool_decide (st = (fl_stat <$> fl_nodes r !! p))
  end.

Definition fl_put (p : string) (f : option node → Z → node) (r : flat) : flat :=
  let t := fl_time r + 1 in
  Flat (<[p := f (fl_nodes r !! p) t]> (fl_nodes r)) t (fl_stream r).

Definition fl_guard {A} (ctx : Ctx) (p : string) (r : flat) (k : result error A * flat) :
    result error A * flat :=
  if fl_expected ctx p r then k else (Err fl_conflict, r).

Definition fl_file (mode : Z) (d : bytes) (cs : Z) (hs : list string) (o : option node) (t : Z) : node :=
  match o with
  | Some n => Node "file" (n_mode n) (n_ino n) t d "" cs hs
  | None => Node "file" mode t t d "" cs hs
  end.

Definition fl_under (p q : string) : bool := String.prefix (p +:+ "/") q.

Definition fl_child (dir p : string) : option string :=
  let prefix := if bool_decide (dir = "/") then "/" else dir +:+ "/" in
  let name := TrimPrefix p prefix in
  if String.prefix prefix p && negb (bool_decide (name = "")) && (CountSlash name =? 0)%nat
  then Some name else None.

#[export] Instance flat_client : RemoteClient flat := {
  rStat _ p r := (Ok (fl_stat <$> fl_nodes r !! p), r);
  rCat _ p r := (match fl_nodes r !! p with Some n => Ok (n_data n) | None => Err fl_missing end, r);
  rReadlink _ p r := (match fl_nodes r !! p with Some n => Ok (n_target n) | None => Err fl_missing end, r);
  rLsLong _ dir r :=
    (Ok (omap (λ '(p, n), fl_name ← fl_child dir p;
                 Some {| ls_Name := fl_name; ls_Type := n_type n; ls_Mode := n_mode n;
                         ls_Size := len (n_data n); ls_Mtime := n_mtime n |})
           (map_to_list (fl_nodes r))), r);
  rEcho ctx p d r := fl_guard ctx p r (Ok (), fl_put p (fl_file 420 d 0 []) r);
  rEchoCreate ctx p d m r := fl_guard ctx p r (Ok (), fl_put p (λ o t,
    fl_file m d 0 [] ((λ n, Node "file" m (n_ino n) (n_mtime n) (n_data n) "" 0 []) <$> o) t) r);
  rMkdirMode ctx p m r := fl_guard ctx p r (Ok (), fl_put p (λ _ t, Node "dir" m t t [] "" 0 []) r);
  rRm ctx p r := fl_guard ctx p r (Ok (), Flat (delete p (fl_nodes r)) (fl_time r + 1) (fl_stream r));
  rLn ctx target p r := fl_guard ctx p r (Ok (), fl_put p (λ _ t, Node "symlink" 511 t t [] target 0 []) r);
  rRename ctx p q _ r :=
    match fl_nodes r !! p with
    | None => (Err fl_missing, r)
    | Some n => (Ok (), Flat (<[q := n]> (delete p (fl_nodes r))) (fl_time r + 1) (fl_stream r))
    end;
  rChmod ctx p m r :=
    match fl_nodes r !! p with
    | None => (Err fl_missing, r)
    | Some n =>
        (Ok (), Flat (<[p := Node (n_type n) m (n_ino n) (n_mtime n) (n_data n) (n_target n)
                               (n_chunkSize n) (n_chunks n)]> (fl_nodes r)) (fl_time r + 1) (fl_stream r))
    end;
  rWriteChunks ctx p chunks cs size hs r :=
    fl_guard ctx p r (Ok (), fl_put p (λ o t,
      fl_file 420 (patchChunks (default [] (n_data <$> o)) (map_to_list chunks) cs size) cs hs o t) r);
  rReadChunks _ p l cs r :=
    match fl_nodes r !! p with
    | None => (Err fl_missing, r)
    | Some n => (Ok (list_to_map (map (λ i, (i, readChunkFromDisk (n_data n) i cs)) l)), r)
    end;
  rChunkMeta _ p r :=
    (match fl_nodes r !! p with Some n => Ok (n_chunkSize n, n_chunks n) | None => Err fl_missing end, r);
  rReadChangeStream _ id n r :=
    (Ok (take (Z.to_nat n) (filter (λ e, String.ltb id (cs_ID e) = true) (fl_stream r))), r);
  rInvalidateCache r := r;
  rOriginID _ := "here"
}.

Definition sample_root : node := Node "dir" 493 1 0 [] "" 0 [].

Definition sample_ctx : Ctx := Ctx_ None "" true None ∅ false.

Section sample.
Context (ro : bool).

(** A mount nobody else writes to. *)
Definition sample_cfg : @SyncCfg flat := {|
  app _ g := g; fmtTime _ := "20240101-000000"; hostname := "host"; rootIdentity := "root"; rootPerm := 493;
  readonly := ro; ignore := None; maxFileBytes := 2 ^ 31; cfgChunkSize := 4; cfgChunkThreshold := 8;
  baseCtx := sample_ctx
|}.
End sample.

Definition sample_eng (st : SyncState) (t : ltree) (remote : gmap string node) : eng flat := {|
  g_sw := newStateWriter st None; g_tree := t; g_root := Some "root";
  g_remote := Flat (<["/" := sample_root]> remote) 100 [];
  g_now := 1000; g_nextino := 50; g_counter := 0; g_stop := false; g_suppress := false; g_sweep := false;
  g_rootReplace := false; g_pending := ∅; g_rename := ∅; g_echo := ∅; g_tempdirs := ∅; g_uploads := [];
  g_downloads := []; g_uploadRes := []; g_downloadRes := []; g_delayed := []; g_localEvents := [];
  g_remoteEvents := []
|}.

(** A pass over a tree with a file ["a"] and a workspace with a directory ["d"]
    and a file ["d/x"] in it. *)
Definition sample_pass : passChoices := {|
  pc_entries := ["a"]; pc_paths := ["a"; "d"; "d/x"]; pc_depth := 5; pc_late := 0;
  pc_sortDirs l := l; pc_sortDeletes l := l
|}.

Definition sample_tree : ltree := {[ "a" := Linode (NFile (string_bytes "hello")) 420 5000000 10 ]}.

Definition sample_remote : gmap string node :=
  {[ "/d" := Node "dir" 493 2 2 [] "" 0 []; "/d/x" := Node "file" 420 3 3 (string_bytes "xyz") "" 0 [] ]}.

Definition sample_start : eng flat :=
  set_sweep true (sample_eng (newSyncState "w" "/m") sample_tree sample_remote).

(** Both sides are brought together by one pass. *)
Example sample_pass_syncs :
  let g := snd (takeTurns (cfg := sample_cfg false) [TRecover sample_pass] sample_start) in
  (i_node <$> g_tree g !! "d/x", n_data <$> fl_nodes (g_remote g) !! "/a",
   e_LocalHash <$> s_Entries (sw_state (g_sw g)) !! "a") =
  (Some (NFile (string_bytes "xyz")), Some (string_bytes "hello"), Some "hello").
Proof. vm_compute. reflexivity. Qed.
