(* ===== verification/SyncInv.v ===== *)
(** Invariants of the sync engine, once and for all.  [pres P m] says that the
    program [m] keeps the predicate [P]; the class [Stable] lists what [P] must
    survive: the few primitive changes the engine is made of.  Every function of
    SyncWorld to SyncRun then keeps [P], and the invariants of SyncProps are
    instances. *)
From S2P Require Import Prelude Content Paths FsClient SyncState SyncWorld SyncPlan SyncDown SyncUp.
From S2P Require Import SyncEvent SyncExec SyncRun.
#[local] Open Scope string_scope.
#[local] Open Scope list_scope.
#[local] Open Scope Z_scope.

Create HintDb sync discriminated.

Section rules.
Context {R : Type} (P : eng R → Prop).
#[local] Notation E := (SyncWorld.E R).

Definition pres {A} (m : E A) : Prop := ∀ g, P g → P (snd (m g)).

Lemma pres_ret {A} (a : A) : pres (retE a).
Proof. by intros g. Qed.
Lemma pres_get {A} (f : eng R → A) : pres (getE f).
Proof. by intros g. Qed.
Lemma pres_bind {A B} (m : E A) (f : A → E B) : pres m → (∀ a, pres (f a)) → pres (bindE m f).
Proof.
  intros Hm Hf g Hg. unfold bindE. specialize (Hm g Hg). destruct (m g) as [a g1]. by apply Hf.
Qed.
Lemma pres_ok {Er A} (a : A) : pres (okE (Er := Er) a).
Proof. apply pres_ret. Qed.
Lemma pres_err {Er A} (e : Er) : pres (errE (A := A) e).
Proof. apply pres_ret. Qed.
Lemma pres_returnIf {Er} b (e : Er) : pres (returnIf b e).
Proof. apply pres_ret. Qed.
Lemma pres_bindR {Er A B} (m : E (result Er A)) (f : A → E (result Er B)) :
  pres m → (∀ a, pres (f a)) → pres (bindR m f).
Proof. intros. apply pres_bind; [done|]. intros [a|e]; [auto|apply pres_ret]. Qed.
Lemma pres_orReturn {Er A} (f : error → Er) (m : E (result error A)) :
  pres m → pres (orReturn f m).
Proof. intros. apply pres_bind; [done|]. intros. apply pres_ret. Qed.
Lemma pres_lift {Er A} (m : E A) : pres m → pres (liftE (Er := Er) m).
Proof. intros. apply pres_bind; [done|]. intros. apply pres_ret. Qed.
Lemma pres_run {A} (m : E (result A A)) : pres m → pres (runR m).
Proof. intros. apply pres_bind; [done|]. intros. apply pres_ret. Qed.
Lemma pres_mod f : (∀ g, P g → P (f g)) → pres (modE f).
Proof. intros Hf g Hg. by apply Hf. Qed.
End rules.

(** Follow the structure of a program down to its calls. *)
Ltac pres_step :=
  lazymatch goal with
  | |- ∀ _, _ => intros
  | |- pres _ (retE _) => apply pres_ret
  | |- pres _ (okE _) => apply pres_ok
  | |- pres _ (errE _) => apply pres_err
  | |- pres _ (getE _) => apply pres_get
  | |- pres _ (returnIf _ _) => apply pres_returnIf
  | |- pres _ (bindE _ _) => apply pres_bind
  | |- pres _ (bindR _ _) => apply pres_bindR
  | |- pres _ (orReturn _ _) => apply pres_orReturn
  | |- pres _ (liftE _) => apply pres_lift
  | |- pres _ (runR _) => apply pres_run
  | |- pres _ (match ?x with _ => _ end) => destruct x eqn:?
  | |- pres _ _ => first [solve [eauto 3 with sync nocore] | progress (cbv zeta)]
  end.
Ltac pres := repeat pres_step.

Section Inv.
Context {H : Hashing} {R : Type} {RC : RemoteClient R} {cfg : @SyncCfg R}.
#[local] Notation E := (SyncWorld.E R).
#[local] Notation "x ← y ; z" := (bindE y (λ x, z))
  (at level 20, y at level 100, z at level 200, only parsing) : sync_scope.
#[local] Open Scope sync_scope.
Implicit Types g : eng R.

(** The calls of the client that only look, and those that change the workspace. *)
Inductive reading : ∀ A, (R → result error A * R) → Prop :=
| rd_Stat ctx p : reading _ (rStat ctx p)
| rd_Cat ctx p : reading _ (rCat ctx p)
| rd_Readlink ctx p : reading _ (rReadlink ctx p)
| rd_LsLong ctx p : reading _ (rLsLong ctx p)
| rd_ReadChunks ctx p l n : reading _ (rReadChunks ctx p l n)
| rd_ChunkMeta ctx p : reading _ (rChunkMeta ctx p)
| rd_ReadChangeStream ctx id n : reading _ (rReadChangeStream ctx id n).

Inductive writing : ∀ A, (R → result error A * R) → Prop :=
| wr_Echo ctx p d : writing _ (rEcho ctx p d)
| wr_EchoCreate ctx p d m : writing _ (rEchoCreate ctx p d m)
| wr_MkdirMode ctx p m : writing _ (rMkdirMode ctx p m)
| wr_Rm ctx p : writing _ (rRm ctx p)
| wr_Ln ctx t p : writing _ (rLn ctx t p)
| wr_Rename ctx p q f : writing _ (rRename ctx p q f)
| wr_Chmod ctx p m : writing _ (rChmod ctx p m)
| wr_WriteChunks ctx p c n s h : writing _ (rWriteChunks ctx p c n s h).

Class Stable (P : eng R → Prop) := {
  st_app m g : P g → P (app m g);
  st_read A (f : R → result error A * R) g :
    reading A f → P g → P (set_remote (snd (f (g_remote g))) g);
  st_write A (f : R → result error A * R) g :
    readonly = false → writing A f → P g → P (set_remote (snd (f (g_remote g))) g);
  st_invalidate g : P g → P (set_remote (rInvalidateCache (g_remote g)) g);
  st_tree x g : P g → P (set_tree x g);
  st_nextino x g : P g → P (set_nextino x g);
  st_counter x g : P g → P (set_counter x g);
  st_sweep g : P g → P (set_sweep true g);
  st_rootReplace g : P g → P (set_rootReplace true g);
  st_echo x g : P g → P (set_echo x g);
  st_tempdirs x g : P g → P (set_tempdirs x g);
  st_rename x g : P g → P (set_rename x g);
  st_delayed x g : P g → (∀ d, d ∈ x → uo_Tracked (du_op d) = false ∨ d ∈ g_delayed g) →
    P (set_delayed x g);
  st_delayed_op d g : P g → d ∈ g_delayed g → uo_Tracked (du_op d) = false;
  st_downloads x g : P g → P (set_downloads x g);
  st_remoteEvents x g : P g → P (set_remoteEvents x g);
  st_put p e g : P g → P (set_sw (snd (putVersioned p e (g_sw g))) g);
  st_drop p g : P g → P (set_sw (dropEntry p (g_sw g)) g);
  st_filter (keep : string * SyncEntry → bool) g :
    P g → P (set_sw (setDirty (onState (withEntries (filter (λ x, keep x = true))) (g_sw g))) g);
  st_dirty g : P g → P (set_sw (markDirty (g_sw g)) g);
  st_queue op g : uo_Tracked op = false → P g → P (snd (queueUpload op g));
  st_tracked op g : P g → P (snd (enqueueTrackedUpload op g));
  st_defer p g : P g → P (snd (deferScanForPendingUpload p g))
}.



Context (P : eng R → Prop) `{!Stable P}.

(** ** SyncWorld *)

Lemma p_reading {A} (f : R → result error A * R) : reading A f → pres P (remote f).
Proof.
  intros Hf g Hg. unfold remote. pose proof (st_read A f (app Waiting g) Hf (st_app Waiting g Hg)) as Hr.
  by destruct (f (g_remote (app Waiting g))).
Qed.
Lemma p_writing {A} (f : R → result error A * R) : readonly = false → writing A f → pres P (remote f).
Proof.
  intros Hro Hf g Hg. unfold remote. pose proof (st_write A f (app Waiting g) Hro Hf (st_app Waiting g Hg)) as Hr.
  by destruct (f (g_remote (app Waiting g))).
Qed.
Lemma p_invalidate : pres P invalidateCache.
Proof. apply pres_mod, st_invalidate. Qed.
Lemma p_app m : pres P (modE (app m)).
Proof. apply pres_mod, st_app. Qed.
Lemma p_on_tree {A} (f : ltree → result error A) : pres P (on_tree f).
Proof. apply pres_get. Qed.
#[local] Hint Resolve p_reading p_invalidate p_app p_on_tree rd_Stat rd_Cat rd_Readlink rd_LsLong
  rd_ReadChunks rd_ChunkMeta rd_ReadChangeStream : sync.
#[local] Hint Resolve p_writing wr_Echo wr_EchoCreate wr_MkdirMode wr_Rm wr_Ln wr_Rename wr_Chmod
  wr_WriteChunks : sync.
#[local] Hint Extern 1 (readonly = false) => assumption : sync.

Lemma p_edit_tree f : pres P (edit_tree f).
Proof. unfold edit_tree. pres. apply pres_mod, st_tree. Qed.
Lemma p_Lstat p : pres P (Lstat p).
Proof. apply pres_get. Qed.
Lemma p_ReadFile p : pres P (ReadFile p).
Proof. apply pres_get. Qed.
Lemma p_ReadLink p : pres P (ReadLink p).
Proof. apply pres_get. Qed.
#[local] Hint Resolve p_edit_tree p_Lstat p_ReadFile p_ReadLink : sync.
Lemma p_LstatOpt p : pres P (LstatOpt p).
Proof. unfold LstatOpt. pres. Qed.
Lemma p_Remove p : pres P (Remove p).
Proof. apply p_edit_tree. Qed.
Lemma p_RemoveAll p : pres P (RemoveAll p).
Proof. apply p_edit_tree. Qed.
Lemma p_RenameLocal p q : pres P (RenameLocal p q).
Proof. apply p_edit_tree. Qed.
Lemma p_ChmodLocal p m : pres P (ChmodLocal p m).
Proof. apply p_edit_tree. Qed.
Lemma p_MkdirAll l : pres P (MkdirAll l).
Proof.
  intros g Hg. unfold MkdirAll. destruct (g_root g); [|done].
  destruct (t_mkdirs _ _ _ _) as [[t ino]|]; [|done]. by apply st_nextino, st_tree.
Qed.
Lemma p_MkdirAllPath p : pres P (MkdirAllPath p).
Proof. apply p_MkdirAll. Qed.
Lemma p_MkdirAllDir p : pres P (MkdirAllDir p).
Proof. apply p_MkdirAll. Qed.
Lemma p_commitStaged p n m : pres P (commitStaged p n m).
Proof. intros g Hg. unfold commitStaged. by apply p_edit_tree, st_nextino. Qed.
Lemma p_checkLocalRoot : pres P checkLocalRoot.
Proof. apply pres_get. Qed.
Lemma p_ctxErr : pres P ctxErr.
Proof. apply pres_get. Qed.
#[local] Hint Resolve p_LstatOpt p_Remove p_RemoveAll p_RenameLocal p_ChmodLocal p_MkdirAllPath
  p_MkdirAllDir p_commitStaged p_checkLocalRoot p_ctxErr : sync.
Lemma p_checkRunning : pres P checkRunning.
Proof. unfold checkRunning. pres. Qed.
Lemma p_requestFullSweep : pres P requestFullSweep.
Proof. apply pres_mod, st_sweep. Qed.
Lemma p_requestRootReplace : pres P requestRootReplace.
Proof. apply pres_mod, st_rootReplace. Qed.
Lemma p_drop p : pres P (onSw (dropEntry p)).
Proof. apply pres_mod, st_drop. Qed.
Lemma p_dirty : pres P (onSw markDirty).
Proof. apply pres_mod, st_dirty. Qed.
Lemma p_storedAt p : pres P (storedAt p).
Proof. apply pres_get. Qed.
Lemma p_now : pres P now.
Proof. apply pres_get. Qed.
Lemma p_putEntry p e : pres P (putEntry p e).
Proof.
  intros g Hg. unfold putEntry. pose proof (st_put p e g Hg) as Hp.
  by destruct (putVersioned p e (g_sw g)).
Qed.
Lemma p_echoSet p x : pres P (echoSet p x).
Proof. apply pres_mod. intros. by apply st_echo. Qed.
Lemma p_markFile p h : pres P (markFile p h).
Proof. apply p_echoSet. Qed.
Lemma p_markSymlink p h : pres P (markSymlink p h).
Proof. apply p_echoSet. Qed.
Lemma p_markDir p m i : pres P (markDir p m i).
Proof. apply p_echoSet. Qed.
Lemma p_markDelete p : pres P (markDelete p).
Proof. apply p_echoSet. Qed.
Lemma p_echoConsume p : pres P (echoConsume p).
Proof. intros g Hg. by apply st_echo. Qed.
Lemma p_matchesTemporaryDirectory p i : pres P (matchesTemporaryDirectory p i).
Proof. apply pres_get. Qed.
Lemma p_conflictPath p : pres P (conflictPath p).
Proof. intros g Hg. by apply st_counter. Qed.
#[local] Hint Resolve p_checkRunning p_requestFullSweep p_requestRootReplace p_drop p_dirty
  p_storedAt p_now p_putEntry p_markFile p_markSymlink p_markDir p_markDelete p_echoConsume
  p_matchesTemporaryDirectory p_conflictPath : sync.
Lemma p_moveLocalToConflict p : pres P (moveLocalToConflict p).
Proof. unfold moveLocalToConflict. pres. Qed.
Lemma p_snapshot p e : pres P (snapshotDownloadLocal p e).
Proof. unfold snapshotDownloadLocal. pres. Qed.
Lemma p_unchanged i p : pres P (unchanged i p).
Proof. unfold unchanged. pres. Qed.
Lemma p_queueDownload op : pres P (queueDownload op).
Proof.
  intros g Hg. unfold queueDownload. destruct (g_stop g); [done|].
  destruct (_ <? _)%nat; [by apply st_downloads|by apply st_sweep].
Qed.
Lemma p_defer p : pres P (deferScanForPendingUpload p).
Proof. intros g. apply st_defer. Qed.
Lemma p_tracked op : pres P (enqueueTrackedUpload op).
Proof. intros g. apply st_tracked. Qed.
Lemma p_queue op : uo_Tracked op = false → pres P (queueUpload op).
Proof. intros Ht g. by apply st_queue. Qed.
Lemma p_discard op : pres P (discardPendingRename op).
Proof. unfold discardPendingRename. pres. Qed.
#[local] Hint Resolve p_moveLocalToConflict p_snapshot p_unchanged p_queueDownload p_defer p_tracked
  p_discard : sync.

(** ** SyncPlan *)

Lemma p_scanLocalMeta : pres P scanLocalMeta.
Proof. unfold scanLocalMeta. pres. Qed.
Lemma p_scanRemoteDirMeta fuel dir out : pres P (scanRemoteDirMeta fuel dir out).
Proof.
  revert dir out. induction fuel as [|fuel IH]; intros; simpl; pres.
  match goal with |- pres _ (_ ?l ?o) => clear - IH Stable0; generalize o; induction l; simpl; pres end.
Qed.
#[local] Hint Resolve p_scanLocalMeta p_scanRemoteDirMeta : sync.
Lemma p_scanRemoteMeta fuel : pres P (scanRemoteMeta fuel).
Proof. unfold scanRemoteMeta. pres. Qed.
Lemma p_detectOfflineDelete loc p : pres P (detectOfflineDelete loc p).
Proof. unfold detectOfflineDelete. pres. Qed.
#[local] Hint Resolve p_scanRemoteMeta p_detectOfflineDelete : sync.
Lemma p_detectOfflineDeletes order loc : pres P (detectOfflineDeletes order loc).
Proof. induction order; simpl; pres. Qed.
Lemma p_cleanupTombstones : pres P cleanupTombstones.
Proof.
  unfold cleanupTombstones. pres. apply pres_mod. intros g Hg. case_bool_decide; [by destruct g|].
  pose proof (st_filter (λ '(_, e), negb (expired a e)) g Hg) as Hf.
  unfold onState, withEntries in *. simpl in *.
  replace (filter (λ '(_, e), expired a e = false) (s_Entries (sw_state (g_sw g))))
    with (filter (λ x, (let '(_, e) := x in negb (expired a e)) = true) (s_Entries (sw_state (g_sw g)))); [done|].
  apply map_filter_ext. intros i e _. simpl. destruct (expired a e); naive_solver.
Qed.
Lemma p_refreshStateMeta p l r s h : pres P (refreshStateMeta p l r s h).
Proof. unfold refreshStateMeta. pres. Qed.
#[local] Hint Resolve p_detectOfflineDeletes p_cleanupTombstones p_refreshStateMeta : sync.
Lemma p_planPath m loc rem p : pres P (planPath m loc rem p).
Proof. unfold planPath, planLocalOnly, planRemoteOnly, planBoth. pres. Qed.
#[local] Hint Resolve p_planPath : sync.
Lemma p_planPaths m loc rem order : pres P (planPaths m loc rem order).
Proof. induction order; simpl; pres. Qed.
#[local] Hint Resolve p_planPaths : sync.
Lemma p_buildPlan order loc rem : pres P (buildPlan order loc rem).
Proof. unfold buildPlan. pres. Qed.
#[local] Hint Resolve p_buildPlan : sync.

(** ** SyncDown *)

Lemma p_cancelled : pres P cancelled.
Proof. unfold cancelled, downloaderRoot. pres. Qed.
Lemma p_downloaderRoot : pres P downloaderRoot.
Proof. unfold downloaderRoot. pres. Qed.
#[local] Hint Resolve p_cancelled p_downloaderRoot : sync.
Lemma p_writeLocalFile op m w c : pres P w → pres P c → pres P (writeLocalFile op m w c).
Proof. intros. unfold writeLocalFile. pres. Qed.
Lemma p_sendFileResult op s h c m n : pres P (sendFileResult op s h c m n).
Proof. unfold sendFileResult. pres. Qed.
Lemma p_changedBelow walk p s h : pres P (changedBelow walk p s h).
Proof. induction walk; simpl; pres. Qed.
#[local] Hint Resolve p_writeLocalFile p_sendFileResult p_changedBelow : sync.
Lemma p_preserve c p s h : pres P c → pres P (preserveLocalDeleteConflict c p s h).
Proof. intros. unfold preserveLocalDeleteConflict. pres. Qed.
#[local] Hint Resolve p_preserve : sync.
Lemma p_forgetBelow p : pres P (onSw (λ w, setDirty (onState (withEntries
  (filter (λ '(q, _), negb (bool_decide (q = p) || under p q) = true))) w))).
Proof.
  apply pres_mod. intros g Hg.
  pose proof (st_filter (λ '(q, _), negb (bool_decide (q = p) || under p q)) g Hg) as Hf.
  unfold onState, withEntries in *. simpl in *.
  replace (filter (λ '(q, _), negb (bool_decide (q = p) || under p q) = true) (s_Entries (sw_state (g_sw g))))
    with (filter (λ x : string * SyncEntry,
      (let '(q, _) := x in negb (bool_decide (q = p) || under p q)) = true) (s_Entries (sw_state (g_sw g))));
    [done|].
  by apply map_filter_ext.
Qed.
#[local] Hint Resolve p_forgetBelow : sync.
Lemma p_applyDelete c p s h : pres P c → pres P (applySyncRemoteDelete c p s h).
Proof. intros. unfold applySyncRemoteDelete. pres. Qed.
#[local] Hint Resolve p_applyDelete : sync.
Lemma p_applyConfirmed c p s h : pres P c → pres P (applyConfirmedSyncRemoteDelete c p s h).
Proof. intros. unfold applyConfirmedSyncRemoteDelete. pres. Qed.
#[local] Hint Resolve p_applyConfirmed : sync.
Lemma p_processDelete op : pres P (processDelete op).
Proof. unfold processDelete. pres. Qed.
Lemma p_processSymlink op : pres P (processSymlink op).
Proof. unfold processSymlink. pres. Qed.
Lemma p_processMkdir op : pres P (processMkdir op).
Proof. unfold processMkdir. pres. Qed.
Lemma p_processChmod op : pres P (processChmod op).
Proof. unfold processChmod. pres. Qed.
#[local] Hint Resolve p_processDelete p_processSymlink p_processMkdir p_processChmod : sync.
Lemma p_okE {Er A} (a : A) : pres P (okE (Er := Er) a).
Proof. apply pres_ok. Qed.
#[local] Hint Resolve p_okE : sync.
Lemma p_processWholeFile op : pres P (processWholeFile op).
Proof. unfold processWholeFile. pres. Qed.
Lemma p_patchedBytes op c : pres P (patchedBytes op c).
Proof. unfold patchedBytes. pres. Qed.
#[local] Hint Resolve p_processWholeFile p_patchedBytes : sync.
Lemma p_processChunkedFile op : pres P (processChunkedFile op).
Proof. unfold processChunkedFile. pres. Qed.
#[local] Hint Resolve p_processChunkedFile : sync.
Lemma p_processDownload op : pres P (processDownload op).
Proof. unfold processDownload, processFile. pres. Qed.
Lemma p_localCandidateUnchanged r p : pres P (localCandidateUnchanged r p).
Proof. unfold localCandidateUnchanged. pres. Qed.
#[local] Hint Resolve p_processDownload p_localCandidateUnchanged : sync.

(** ** SyncUp *)

Lemma p_queuedFileCurrent op : pres P (queuedFileCurrent op).
Proof. unfold queuedFileCurrent. pres. Qed.
Lemma p_queuedDirectoryModeCurrent op : pres P (queuedDirectoryModeCurrent op).
Proof. unfold queuedDirectoryModeCurrent. pres. Qed.
Lemma p_statOpt op t p : pres P (statOpt op t p).
Proof. unfold statOpt. pres. Qed.
Lemma p_remoteMatches p st s h : pres P (syncRemoteMatchesStored p st s h).
Proof. unfold syncRemoteMatchesStored. pres. Qed.
Lemma p_localParentMode p : pres P (localParentMode p).
Proof. unfold localParentMode. pres. Qed.
#[local] Hint Resolve p_queuedFileCurrent p_queuedDirectoryModeCurrent p_statOpt p_remoteMatches
  p_localParentMode : sync.
Lemma p_parent_loop l p s : readonly = false → pres P (parent_loop l p s).
Proof. intros Hro. revert p s. induction l; intros; simpl; pres. Qed.
#[local] Hint Resolve p_parent_loop : sync.
Lemma p_prepareRemoteParent op : readonly = false → pres P (prepareRemoteParent op).
Proof. intros Hro. unfold prepareRemoteParent. pres. Qed.
Lemma p_finishFileUpload ctx op p m : readonly = false → pres P (finishFileUpload ctx op p m).
Proof. intros Hro. unfold finishFileUpload. pres. Qed.
#[local] Hint Resolve p_prepareRemoteParent p_finishFileUpload : sync.
Lemma p_finishMatching op p m : readonly = false → pres P (finishMatchingFileUpload op p m).
Proof. intros Hro. unfold finishMatchingFileUpload. pres. Qed.
Lemma p_readDirty op d acc : pres P (readDirty op d acc).
Proof. revert acc. induction d; intros; simpl; pres. Qed.
#[local] Hint Resolve p_finishMatching p_readDirty : sync.
Lemma p_syncUploadSymlink p t s h ctx : readonly = false → pres P (syncUploadSymlink p t s h ctx).
Proof. intros Hro. unfold syncUploadSymlink. pres. Qed.
#[local] Hint Resolve p_syncUploadSymlink : sync.
Lemma p_uploadWholeFile op : readonly = false → pres P (uploadWholeFile op).
Proof. intros Hro. unfold uploadWholeFile. pres. Qed.
Lemma p_processChunkedUpload op : readonly = false → pres P (processChunkedUpload op).
Proof. intros Hro. unfold processChunkedUpload. pres. Qed.
#[local] Hint Resolve p_uploadWholeFile p_processChunkedUpload : sync.
Lemma p_processUpload op : pres P (processUpload op).
Proof.
  unfold processUpload. destruct readonly eqn:Hro; [pres|].
  unfold processUploadFile, processUploadSymlink, processUploadMkdir, processUploadDelete,
    processUploadRename, processUploadChmod. pres.
Qed.
#[local] Hint Resolve p_processUpload : sync.

(** ** SyncEvent *)

Lemma p_rename_set (f : eng R → gmap string renameCandidate) : pres P (modE (λ g, set_rename (f g) g)).
Proof. apply pres_mod. intros. by apply st_rename. Qed.
Lemma p_remember p e : pres P (rememberRenameCandidate p e).
Proof. intros g Hg. unfold rememberRenameCandidate. case_bool_decide; [done|]. by apply st_rename. Qed.
Lemma p_take key : pres P (takeRenameCandidate key).
Proof.
  intros g Hg. unfold takeRenameCandidate. case_bool_decide; [done|].
  destruct (_ !! _); [|done]. by apply st_rename.
Qed.
Lemma p_takeFallback rel ty : pres P (takeFallbackRenameCandidate rel ty).
Proof.
  intros g Hg. unfold takeFallbackRenameCandidate. destruct (_ || _); [done|].
  destruct (fallback_loop _ _ _ _ _ _ _). by apply st_rename.
Qed.
#[local] Hint Resolve p_rename_set p_remember p_take p_takeFallback : sync.
Lemma p_takeFor k rel ty h : pres P (takeFor k rel ty h).
Proof. unfold takeFor. pres. Qed.
Lemma p_takeFile rel i h n b : pres P (takeRenameCandidateForLocalFile rel i h n b).
Proof. apply p_takeFor. Qed.
Lemma p_takeLink rel i t b : pres P (takeRenameCandidateForLocalSymlink rel i t b).
Proof. apply p_takeFor. Qed.
Lemma p_stillPending k p : pres P (renameCandidateStillPending k p).
Proof. apply pres_get. Qed.
Lemma p_forget e : pres P (forgetRenameCandidate e).
Proof. unfold forgetRenameCandidate. pres. Qed.
Lemma p_enqueueAsync op k p : uo_Tracked op = false → pres P (enqueueUploadOpAsync op k p).
Proof.
  intros Ht. apply pres_mod. intros g Hg. apply st_delayed; [done|].
  intros d [?|Hd]%elem_of_app; [by right|]. apply list_elem_of_singleton in Hd as ->. by left.
Qed.
#[local] Hint Resolve p_stillPending p_queue : sync.
Lemma p_fireDelayed n : pres P (fireDelayed n).
Proof.
  intros g Hg. destruct (g_delayed g !! n) as [d|] eqn:Hd.
  2: { unfold fireDelayed, bindE, getE. by rewrite Hd. }
  assert (uo_Tracked (du_op d) = false) as Ht
    by (eapply st_delayed_op; [done|by eapply list_elem_of_lookup_2]).
  assert (P (set_delayed (delete n (g_delayed g)) g)) as Hg1.
  { apply st_delayed; [done|]. intros d' Hd'. right.
    apply list_elem_of_lookup in Hd' as [i Hi].
    destruct (decide (i < n)%nat).
    - rewrite list_lookup_delete_lt in Hi by done. by eapply list_elem_of_lookup_2.
    - rewrite list_lookup_delete_ge in Hi by lia. by eapply list_elem_of_lookup_2. }
  unfold fireDelayed. unfold bindE at 1, getE at 1. rewrite Hd.
  unfold bindE at 1, modE at 1. revert Hg1. generalize (set_delayed (delete n (g_delayed g)) g).
  intros g1. revert g1. change (pres P (stop ← getE g_stop;
    if (stop : bool) then retE ()
    else ok ← renameCandidateStillPending (du_key d) (du_path d);
         if (ok : bool) then _ ← queueUpload (du_op d); retE () else retE ())). pres.
Qed.
#[local] Hint Resolve p_takeFile p_takeLink p_stillPending p_forget p_enqueueAsync p_fireDelayed : sync.
Lemma p_stage p e : pres P (stageSyncEntry p e).
Proof. unfold stageSyncEntry. pres. Qed.
#[local] Hint Resolve p_stage : sync.
Lemma p_install p i e : pres P (installPendingRename p i e).
Proof. unfold installPendingRename. pres. Qed.
Lemma p_identityFromPath p : pres P (identityFromPath p).
Proof. unfold identityFromPath. pres. Qed.
#[local] Hint Resolve p_install p_identityFromPath : sync.
Lemma p_localFileRead rel i c d h n hs s b : pres P (localFileRead rel i c d h n hs s b).
Proof. unfold localFileRead. pres. Qed.
#[local] Hint Resolve p_localFileRead : sync.
Lemma p_handleLocalFile rel i : pres P (handleLocalFile rel i).
Proof. unfold handleLocalFile. pres. Qed.
Lemma p_handleLocalSymlink rel : pres P (handleLocalSymlink rel).
Proof. unfold handleLocalSymlink. pres. Qed.
Lemma p_echoMatches p i x : pres P (echoMatches p i x).
Proof. unfold echoMatches. pres. Qed.
#[local] Hint Resolve p_handleLocalFile p_handleLocalSymlink p_echoMatches : sync.

Section scan.
Context (scan : string → E ()) (Hscan : ∀ p, pres P (scan p)).
#[local] Hint Resolve Hscan : sync.
Lemma p_handleLocalDelete rel k : pres P (handleLocalDelete scan rel k).
Proof. unfold handleLocalDelete. pres; eauto with sync. Qed.
#[local] Hint Resolve p_handleLocalDelete : sync.
Lemma p_deleteEach l : pres P (deleteEach scan l).
Proof. induction l; simpl; pres. Qed.
#[local] Hint Resolve p_deleteEach : sync.
Lemma p_reconcileDeletes rel : pres P (reconcileLocalDirDeletes scan rel).
Proof. unfold reconcileLocalDirDeletes. pres. Qed.
Lemma p_sweepSymlinks : pres P (sweepMissingLocalSymlinks scan).
Proof. unfold sweepMissingLocalSymlinks. pres. Qed.
#[local] Hint Resolve p_reconcileDeletes : sync.
Lemma p_handleLocalDir rel i : pres P (handleLocalDir scan rel i).
Proof. unfold handleLocalDir. pres. Qed.
#[local] Hint Resolve p_handleLocalDir : sync.
Lemma p_localEvent ev : pres P (localEvent scan ev).
Proof. unfold localEvent, localPathEvent. pres. Qed.
End scan.

Lemma p_eachPath f p l : (∀ ev, pres P (f ev)) → pres P (eachPath f p l).
Proof. intros Hf. induction l; simpl; pres. Qed.
#[local] Hint Resolve p_eachPath : sync.
Lemma p_scanForRenameTargets f p : (∀ ev, pres P (f ev)) → pres P (scanForRenameTargets f p).
Proof. intros Hf. unfold scanForRenameTargets. pres. Qed.
Lemma p_handleLocalEvent n ev : pres P (handleLocalEvent n ev).
Proof.
  revert ev. induction n as [|n IH]; intros ev; apply p_localEvent; intros p; [pres|].
  by apply p_scanForRenameTargets.
Qed.
Lemma p_scanOf n p : pres P (scanOf n p).
Proof. destruct n; [pres|]. apply p_scanForRenameTargets, p_handleLocalEvent. Qed.

Lemma p_detectConflict p s h : pres P (detectConflict p s h).
Proof. unfold detectConflict. pres. Qed.
#[local] Hint Resolve p_detectConflict : sync.
Lemma p_confirmRemoteDelete rel s : pres P (confirmRemoteDelete rel s).
Proof. unfold confirmRemoteDelete. pres. Qed.
Lemma p_downloadCurrent rel st s h : pres P (downloadCurrent rel st s h).
Proof. unfold downloadCurrent. pres. Qed.
#[local] Hint Resolve p_confirmRemoteDelete p_downloadCurrent : sync.
Lemma p_handleRemotePath rel : pres P (handleRemotePath rel).
Proof. unfold handleRemotePath. pres. Qed.
#[local] Hint Resolve p_handleRemotePath : sync.
Lemma p_handleRemoteEvent ev : pres P (handleRemoteEvent ev).
Proof. unfold handleRemoteEvent. pres. Qed.
#[local] Hint Resolve p_handleRemoteEvent : sync.
Lemma p_uploadResultObsolete r : pres P (uploadResultObsolete r).
Proof. unfold uploadResultObsolete. pres. Qed.
Lemma p_uploadIdentity op : pres P (uploadIdentity op).
Proof. unfold uploadIdentity. pres. Qed.
#[local] Hint Resolve p_uploadResultObsolete p_uploadIdentity : sync.
Lemma p_recordUpload r : pres P (recordUpload r).
Proof. unfold recordUpload. pres. Qed.
Lemma p_undoDelete p : pres P (undoDelete p).
Proof. unfold undoDelete. pres. Qed.
Lemma p_resolveUploadConflict op : pres P (resolveUploadConflict op).
Proof. unfold resolveUploadConflict. pres. Qed.
#[local] Hint Resolve p_recordUpload p_undoDelete p_resolveUploadConflict : sync.
Lemma p_uploadResultBody r : pres P (uploadResultBody r).
Proof. unfold uploadResultBody. pres. Qed.
Lemma p_recordDownload r : pres P (recordDownload r).
Proof. unfold recordDownload. pres. Qed.
#[local] Hint Resolve p_recordDownload : sync.
Lemma p_handleDownloadResult r : pres P (handleDownloadResult r).
Proof. unfold handleDownloadResult. pres. Qed.

(** ** SyncExec *)

Lemma p_localStillCurrent a : pres P (localStillCurrent a).
Proof. unfold localStillCurrent. pres. Qed.
#[local] Hint Resolve p_localStillCurrent : sync.
Lemma p_actionStillCurrent a : pres P (actionStillCurrent a).
Proof. unfold actionStillCurrent. pres. Qed.
Lemma p_remoteStatStillCurrent a : pres P (remoteStatStillCurrent a).
Proof. unfold remoteStatStillCurrent. pres. Qed.
Lemma p_updateActionState a e : pres P (updateActionState a e).
Proof. unfold updateActionState. pres. Qed.
#[local] Hint Resolve p_actionStillCurrent p_remoteStatStillCurrent p_updateActionState : sync.
Lemma p_execMkdirLocal a : pres P (execMkdirLocal a).
Proof. unfold execMkdirLocal. pres. Qed.
Lemma p_execMkdirRemote a : readonly = false → pres P (execMkdirRemote a).
Proof. intros Hro. unfold execMkdirRemote. pres. Qed.
Lemma p_stageDownload a c m d : pres P (stageDownload a c m d).
Proof. unfold stageDownload. apply p_writeLocalFile; pres. Qed.
Lemma p_recordDownloaded a m d : pres P (recordDownloaded a m d).
Proof. unfold recordDownloaded. pres. Qed.
#[local] Hint Resolve p_execMkdirLocal p_execMkdirRemote p_stageDownload p_recordDownloaded : sync.
Lemma p_execDownload a : pres P (execDownload a).
Proof. unfold execDownload. pres. Qed.
Lemma p_execDeleteLocal a : pres P (execDeleteLocal a).
Proof. unfold execDeleteLocal. pres. Qed.
Lemma p_execUpload a : readonly = false → pres P (execUpload a).
Proof. intros Hro. unfold execUpload. pres. Qed.
Lemma p_execSymlinkDownload a : pres P (execSymlinkDownload a).
Proof. unfold execSymlinkDownload. pres. Qed.
Lemma p_execSymlinkUpload a : readonly = false → pres P (execSymlinkUpload a).
Proof. intros Hro. unfold execSymlinkUpload. pres. Qed.
#[local] Hint Resolve p_execDownload p_execDeleteLocal p_execUpload p_execSymlinkDownload
  p_execSymlinkUpload : sync.
Lemma p_executeDownload a : pres P (executeDownload a).
Proof. unfold executeDownload. pres. Qed.
#[local] Hint Resolve p_executeDownload : sync.
Lemma p_execDeleteRemote a : readonly = false → pres P (execDeleteRemote a).
Proof. intros Hro. unfold execDeleteRemote. pres. Qed.
#[local] Hint Resolve p_execDeleteRemote : sync.
Lemma p_executeAction a : pres P (executeAction a).
Proof.
  unfold executeAction. destruct readonly eqn:Hro; [|pres].
  destruct (a_kind a) eqn:Hk; simpl; pres.
Qed.
#[local] Hint Resolve p_executeAction : sync.

(** ** SyncRun *)

Lemma p_sendRemote ev : pres P (sendRemote ev).
Proof.
  intros g Hg. unfold sendRemote. destruct (_ <? _)%nat; [by apply st_remoteEvents|].
  destruct (re_RootReplace ev); [by apply st_rootReplace|by apply st_sweep].
Qed.
#[local] Hint Resolve p_sendRemote : sync.
Lemma p_sendAll l : pres P (sendAll l).
Proof. induction l; simpl; pres. Qed.
#[local] Hint Resolve p_sendAll : sync.
Lemma p_replayBatch self l id : pres P (replayBatch self l id).
Proof. revert id. induction l; intros; simpl; pres. Qed.
#[local] Hint Resolve p_replayBatch : sync.

(** For the predicates that do not look at the stream cursor. *)
Lemma p_onConnected n :
  (∀ id g, P g → P (set_sw (updateStreamID id (g_sw g)) g)) → pres P (onConnected n).
Proof.
  intros Hs. assert (∀ id, pres P (onSw (updateStreamID id))) as Hid by (intros id; apply pres_mod; auto).
  assert (∀ id, pres P (catchUp_loop n id)) as Hl.
  { induction n; intros; simpl; pres. }
  unfold onConnected, catchUpFromStream. pres.
Qed.
Lemma p_setTemp f : pres P (setTemp f).
Proof. apply pres_mod. intros. by apply st_tempdirs. Qed.
Lemma p_release p m : pres P (releaseDirectoryMode p m).
Proof. apply p_setTemp. Qed.
#[local] Hint Resolve p_setTemp p_release : sync.
Lemma p_prepareOne p m : pres P (prepareOne p m).
Proof. unfold prepareOne. pres. Qed.
#[local] Hint Resolve p_prepareOne : sync.
Lemma p_prepareEach l m : pres P (prepareEach l m).
Proof. revert m. induction l; intros; simpl; pres. Qed.
Lemma p_prepare p m : pres P (prepare p m).
Proof. apply p_prepareEach. Qed.
Lemma p_prepareDir p m : pres P (prepareDir p m).
Proof. apply p_prepareEach. Qed.
#[local] Hint Resolve p_prepare p_prepareDir : sync.
Lemma p_restoreDirectoryMode p m : pres P (restoreDirectoryMode p m).
Proof. unfold restoreDirectoryMode. pres. Qed.
#[local] Hint Resolve p_restoreDirectoryMode : sync.
Lemma p_restoreEach l : pres P (restoreEach l).
Proof. induction l; simpl; pres. Qed.
Lemma p_retryEach l : pres P (retryEach l).
Proof. induction l; simpl; pres. Qed.
#[local] Hint Resolve p_restoreEach p_retryEach : sync.
Lemma p_restoreModes m : pres P (restoreModes m).
Proof. apply p_restoreEach. Qed.
Lemma p_retryModes : pres P retryDirectoryModes.
Proof. unfold retryDirectoryModes. pres. Qed.
#[local] Hint Resolve p_restoreModes p_retryModes : sync.
Lemma p_runDirs l m : pres P (runDirs l m).
Proof. revert m. induction l; intros; simpl; pres. Qed.
Lemma p_openParents l m : pres P (openParents l m).
Proof. revert m. induction l; intros; simpl; pres. Qed.
Lemma p_runSerial l : pres P (runSerial l).
Proof. induction l; simpl; pres. Qed.
Lemma p_runFiles n e l : pres P (runFiles n e l).
Proof. revert n e. induction l; intros; simpl; pres. Qed.
#[local] Hint Resolve p_runDirs p_openParents p_runSerial p_runFiles : sync.
Lemma p_executePlan n f1 f2 l : pres P (executePlan n f1 f2 l).
Proof. unfold executePlan, runPhases. pres. Qed.
#[local] Hint Resolve p_executePlan : sync.
Lemma p_warmStart c : pres P (warmStart c).
Proof. unfold warmStart. pres. Qed.

(** ** Turns *)

(** What the turns change besides: the queues between the parts. *)
Class Turns := {
  tn_localEvents x g : P g → P (set_localEvents x g);
  tn_downloadRes x g : P g → P (set_downloadRes x g);
  tn_stop g : P g → P (set_stop true g);
  tn_connected n : pres P (onConnected n);
  tn_uploader : pres P (takeTurn TUploader);
  tn_uploadResult : pres P (takeTurn TUploadResult)
}.

Definition is_recover (t : turn) : bool := match t with TRecover _ => true | _ => false end.

Lemma p_takeTurn `{!Turns} t :
  (is_recover t = true → ∀ g, P g → P (set_sweep false g)) → pres P (takeTurn t).
Proof.
  intros Hrec. destruct t; [..|intros g Hg]; try (intros g Hg; cbn [takeTurn]).
  - destruct (g_localEvents g); [done|]. by apply p_handleLocalEvent, tn_localEvents.
  - destruct (g_remoteEvents g); [done|]. by apply p_handleRemoteEvent, st_remoteEvents.
  - by apply tn_uploadResult.
  - destruct (g_downloadRes g); [done|]. by apply p_handleDownloadResult, tn_downloadRes.
  - apply p_sweepSymlinks; [|done]. intros p. apply p_scanOf.
  - by apply tn_uploader.
  - destruct (g_downloads g) as [|op ops]; [done|]. destruct (_ && _); [|done].
    pose proof (p_processDownload op (set_downloads ops g) (st_downloads _ _ Hg)) as Hp.
    destruct (processDownload op (set_downloads ops g)) as [r g1]. by apply tn_downloadRes.
  - by apply p_fireDelayed.
  - destruct (g_sweep g); [|done]. by apply p_warmStart, Hrec.
  - by apply tn_connected.
  - by apply p_sendAll.
  - simpl. destruct (_ <? _)%nat; [by apply tn_localEvents|by apply st_sweep].
  - by apply st_app.
  - by apply tn_stop.
Qed.

Lemma p_takeTurns `{!Turns} ts :
  (∀ t, t ∈ ts → is_recover t = true → ∀ g, P g → P (set_sweep false g)) → pres P (takeTurns ts).
Proof.
  induction ts as [|t ts IH]; intros Hrec; simpl; [apply pres_ret|]. apply pres_bind.
  - apply p_takeTurn. apply Hrec. by left.
  - intros _. apply IH. intros t' Ht. apply Hrec. by right.
Qed.

(** ** Predicates that do not look at the upload queue *)

Class Free := {
  fr_pending x g : P g → P (set_pending x g);
  fr_uploads x g : P g → P (set_uploads x g);
  fr_uploadRes x g : P g → P (set_uploadRes x g)
}.

Lemma free_finish `{!Free} p : pres P (finishPendingUpload p).
Proof.
  intros g Hg. unfold finishPendingUpload. destruct (g_pending g !! p); [|done].
  destruct (_ =? 0); [|by apply fr_pending].
  destruct (p_rescan _); [|by apply fr_pending]. by apply st_sweep, fr_pending.
Qed.

Lemma free_uploader `{!Free} : pres P (takeTurn TUploader).
Proof.
  intros g Hg. simpl. destruct (g_uploads g) as [|op ops]; [done|]. destruct (_ && _); [|done].
  pose proof (p_processUpload op (set_uploads ops g) (fr_uploads _ _ Hg)) as Hp.
  destruct (processUpload op (set_uploads ops g)). by apply fr_uploadRes.
Qed.

Lemma free_uploadResult `{!Free} : pres P (takeTurn TUploadResult).
Proof.
  intros g Hg. simpl. destruct (g_uploadRes g) as [|r rs]; [done|].
  pose proof (p_uploadResultBody r) as Hb. pose proof free_finish as Hf.
  revert g Hg. enough (pres P (handleUploadResult r)) as Hp by (intros g Hg; by apply Hp, fr_uploadRes).
  unfold handleUploadResult. pres.
Qed.

End Inv.

(** The primitives on the queue for predicates that do not look at it. *)
Section free.
Context {R : Type} {cfg : @SyncCfg R} (P : eng R → Prop).
Context (Hpe : ∀ x g, P g → P (set_pending x g)) (Hup : ∀ x g, P g → P (set_uploads x g))
  (Hsw : ∀ g, P g → P (set_sweep true g)) (Hdr : ∀ p g, P g → P (set_sw (dropEntry p (g_sw g)) g))
  (Hdi : ∀ g, P g → P (set_sw (markDirty (g_sw g)) g)).

Lemma free_queue op g : P g → P (snd (queueUpload op g)).
Proof. intros. unfold queueUpload. repeat case_match; simpl; auto. Qed.

Lemma free_defer p g : P g → P (snd (deferScanForPendingUpload p g)).
Proof. intros. unfold deferScanForPendingUpload. case_match; simpl; auto. Qed.

Lemma free_bump p g : P g → P (snd (bumpPending p g)).
Proof. intros. by apply Hpe. Qed.

Lemma free_finish' p g : P g → P (snd (finishPendingUpload p g)).
Proof. intros. unfold finishPendingUpload. repeat case_match; simpl; auto. Qed.

Lemma free_discard op g : P g → P (snd (discardPendingRename op g)).
Proof.
  assert (∀ p, pres P (onSw (dropEntry p))) as H1 by (intros; apply pres_mod; auto).
  assert (pres P (onSw markDirty)) as H2 by (apply pres_mod; auto).
  assert (∀ p, pres P (storedAt p)) as H3 by (intros; apply pres_get).
  revert g. match goal with |- ∀ g, P g → P (snd (?m g)) => change (pres P m) end.
  unfold discardPendingRename. pres.
Qed.

Lemma free_tracked op g : P g → P (snd (enqueueTrackedUpload op g)).
Proof.
  intros Hg. unfold enqueueTrackedUpload.
  assert (pres P (bumpPending (uo_Path op))) as H1 by (intros ?; apply free_bump).
  assert (pres P (bumpPending (uo_PrevPath op))) as H2 by (intros ?; apply free_bump).
  assert (pres P (queueUpload (setTracked op))) as H3 by (intros ?; apply free_queue).
  assert (pres P (discardPendingRename (setTracked op))) as H4 by (intros ?; apply free_discard).
  assert (∀ p, pres P (finishPendingUpload p)) as H5 by (intros ? ?; apply free_finish').
  assert (pres P requestFullSweep) as H6 by (by apply pres_mod).
  revert g Hg. match goal with |- ∀ g, P g → P (snd (?m g)) => change (pres P m) end.
  unfold finishTracked. pres.
Qed.
End free.
