(* ===== verification/SyncProps.v ===== *)
(** Properties of the sync engine over all its turns: a read-only mount never
    writes to the workspace (C26), and the version of a baseline identifies it
    (C27). *)
From S2P Require Import Prelude Content Paths FsClient SyncState SyncChunks SyncWorld SyncPlan SyncDown SyncUp.
From S2P Require Import SyncEvent SyncExec SyncRun SyncSample SyncInv.
#[local] Open Scope string_scope.
#[local] Open Scope list_scope.
#[local] Open Scope Z_scope.

(** * Read-only mounts *)

Section readonly.
Context {H : Hashing} {R : Type} {RC : RemoteClient R} {cfg : @SyncCfg R}.

(** A change of the remote side that this engine does not cause: its own reading
    calls, a flush of its cache, or what [app] does. *)
Inductive harmless : R → R → Prop :=
| hl_read A f r : reading A f → harmless r (snd (f r))
| hl_flush r : harmless r (rInvalidateCache r)
| hl_app m g : harmless (g_remote g) (g_remote (app m g)).

Definition delayed_untracked (g : eng R) : Prop :=
  ∀ d, d ∈ g_delayed g → uo_Tracked (du_op d) = false.

Definition only_harmless (r : R) (g : eng R) : Prop :=
  rtc harmless r (g_remote g) ∧ delayed_untracked g.

Lemma stable_only_harmless r :
  readonly = true → (∀ m g, delayed_untracked g → delayed_untracked (app m g)) →
  Stable (only_harmless r).
Proof.
  intros Hro Happ. unfold only_harmless. split; try done.
  - intros m g [Hr Hd]. split; [|by apply Happ]. eapply rtc_r; [done|constructor].
  - intros A f g Hf [Hr Hd]. split; [|done]. eapply rtc_r; [done|by constructor].
  - intros A f g Hro'. congruence.
  - intros g [Hr Hd]. split; [|done]. eapply rtc_r; [done|constructor].
  - intros x g [Hr Hd] Hx. split; [done|]. intros d Hd'. destruct (Hx d Hd'); [done|by apply Hd].
  - intros d g [Hr Hd] Hin. by apply Hd.
  - intros op g _ Hg. by apply free_queue.
  - intros op g Hg. by apply free_tracked.
  - intros p g Hg. by apply free_defer.
Qed.

Lemma free_only_harmless r : Free (only_harmless r).
Proof. by split. Qed.

Lemma turns_only_harmless r `{!Stable (only_harmless r)} : Turns (only_harmless r).
Proof.
  pose proof (free_only_harmless r). split; try done.
  - intros n. apply p_onConnected; [done|]. intros id g [? ?]. by split.
  - apply free_uploader; [done|by apply free_only_harmless].
  - apply free_uploadResult; [done|by apply free_only_harmless].
Qed.

(** C26: a read-only mount never changes the workspace.  Whatever turns its
    reconciler, its workers, its recovery passes and its subscription take, in
    whatever order, and whatever was queued, planned or left over before: the
    state of the remote side moves only by calls that read, by flushes of the
    client's cache and by what others do. *)
Theorem readonly_mount_never_writes (ts : list turn) (g : eng R)
    (Hro : readonly = true)
    (Happ : ∀ m g, delayed_untracked g → delayed_untracked (app m g))
    (Hdel : delayed_untracked g) :
  rtc harmless (g_remote g) (g_remote (snd (takeTurns ts g))).
Proof.
  pose proof (stable_only_harmless (g_remote g) Hro Happ) as Hst.
  pose proof (turns_only_harmless (g_remote g)) as Ht.
  eapply (p_takeTurns (only_harmless (g_remote g)) ts); [done|]. by split.
Qed.

End readonly.

(** * Versions *)

Section versions.
Context {H : Hashing} {R : Type} {RC : RemoteClient R} {cfg : @SyncCfg R}.

Definition entries_of (g : eng R) : entries := s_Entries (sw_state (g_sw g)).
Definition next_of (g : eng R) : Z := s_NextVersion (sw_state (g_sw g)).

(** Since the baseline was [m] and [n0] versions had been taken, [n - n0] more
    were: an entry is that of [m] or carries one of them. *)
Definition versioned_since (m : entries) (n0 n : Z) (g : eng R) : Prop :=
  n0 ≤ n ∧ next_of g = u64 n ∧
  ∀ p e, entries_of g !! p = Some e →
    m !! p = Some e ∨ ∃ k, n0 ≤ k < n ∧ e_Version e = u64 k.

Definition versions_kept (m : entries) (n0 : Z) (g : eng R) : Prop :=
  (∃ n, versioned_since m n0 n g) ∧ delayed_untracked g.

Lemma versioned_mono m n0 n g g' :
  g_sw g' = g_sw g → versioned_since m n0 n g → versioned_since m n0 n g'.
Proof. unfold versioned_since, next_of, entries_of. by intros ->. Qed.

Lemma versioned_sub m n0 n (g : eng R) sw :
  s_NextVersion (sw_state sw) = next_of g →
  (∀ p e, s_Entries (sw_state sw) !! p = Some e → entries_of g !! p = Some e) →
  versioned_since m n0 n g → versioned_since m n0 n (set_sw sw g).
Proof.
  intros Hn Hsub (Hle & Hnext & He). unfold versioned_since, next_of, entries_of in *. simpl.
  split_and!; [done|congruence|]. intros p e Hp. apply He. by apply Hsub.
Qed.

Lemma u64_succ n : u64 (u64 n + 1) = u64 (n + 1).
Proof. unfold u64. by rewrite Zplus_mod_idemp_l. Qed.

Lemma versioned_put m n0 n (g : eng R) p e :
  versioned_since m n0 n g →
  versioned_since m n0 (n + 1) (set_sw (snd (putVersioned p e (g_sw g))) g).
Proof.
  intros (Hle & Hnext & He). unfold versioned_since, next_of, entries_of in *. simpl.
  split_and!; [lia|by rewrite Hnext, u64_succ|]. intros q e' Hq.
  apply lookup_insert_Some in Hq as [[-> <-]|[_ Hq]].
  - right. exists n. split; [lia|]. exact Hnext.
  - destruct (He q e' Hq) as [?|(k & Hk & ?)]; [by left|right; exists k; split; [lia|done]].
Qed.

Lemma stable_versions m n0 :
  (∀ w g, versions_kept m n0 g → versions_kept m n0 (app w g)) → Stable (versions_kept m n0).
Proof.
  intros Happ. unfold versions_kept. split; try done.
  - intros x g [Hv Hd] Hx. split; [done|]. intros d Hd'. destruct (Hx d Hd'); [done|by apply Hd].
  - intros d g [_ Hd] Hin. by apply Hd.
  - intros p e g [[n Hv] Hd]. split; [exists (n + 1); by apply versioned_put|].
    unfold putVersioned. by destruct (nextVersion _).
  - intros p g [[n Hv] Hd]. split; [|done]. exists n. eapply versioned_sub; [done| |done].
    intros q e Hq. simpl in Hq. by apply lookup_delete_Some in Hq as [_ ?].
  - intros keep g [[n Hv] Hd]. split; [|done]. exists n. eapply versioned_sub; [done| |done].
    intros q e Hq. simpl in Hq. by apply map_lookup_filter_Some in Hq as [? _].
  - intros op g _ Hg. apply free_queue; try done.
  - intros op g Hg. apply free_tracked; try done.
    intros p g' [[n Hv] Hd]. split; [|done]. exists n. eapply versioned_sub; [done| |done].
    intros q e Hq. simpl in Hq. by apply lookup_delete_Some in Hq as [_ ?].
  - intros p g Hg. by apply free_defer.
Qed.

Lemma turns_versions m n0 `{!Stable (versions_kept m n0)} : Turns (versions_kept m n0).
Proof.
  assert (Free (versions_kept m n0)) by (by split).
  split; try done.
  - intros n. apply p_onConnected; [done|]. intros id g [? ?]. by split.
  - by apply free_uploader.
  - by apply free_uploadResult.
Qed.

(** C27: the versions the counter draws identify baselines.  Let [n0] draws have
    been made.  After any turns, some [n] draws have been made; as long as they
    are at most 2^64, an entry whose version was one of the first [n0] draws and
    still is what it was, is the entry it was, field by field.  So for such an
    entry the version comparisons that guard every planned action and every
    worker result detect each change, including one that was changed away and
    back.  The entries a cold start makes are not such: they carry version 0
    without a draw while the counter is at 0, and the first change of the mount
    draws 0 ([SyncGaps.cold_entry_keeps_version]). *)
Theorem version_identifies_baseline (ts : list turn) (g : eng R) (n0 : Z)
    (Hnext : next_of g = u64 n0) (Hn0 : 0 ≤ n0)
    (Hdel : delayed_untracked g)
    (Happ : ∀ m g', versions_kept (entries_of g) n0 g' → versions_kept (entries_of g) n0 (app m g')) :
  ∃ n, n0 ≤ n ∧ next_of (snd (takeTurns ts g)) = u64 n ∧
    (n ≤ 2 ^ 64 → ∀ p e e',
       entries_of g !! p = Some e → (∃ k, 0 ≤ k < n0 ∧ e_Version e = u64 k) →
       entries_of (snd (takeTurns ts g)) !! p = Some e' →
       e_Version e = e_Version e' → e = e').
Proof.
  pose proof (stable_versions (entries_of g) n0 Happ) as Hst.
  pose proof (turns_versions (entries_of g) n0) as Ht.
  assert (versions_kept (entries_of g) n0 (snd (takeTurns ts g))) as [[n (Hle & Hn & He)] _].
  { apply (p_takeTurns (versions_kept (entries_of g) n0) ts); [done|].
    split; [|done]. exists n0. split_and!; [lia|done|by left]. }
  exists n. split_and!; [done|done|]. intros Hmax p e e' Hp (j & Hj & Hj') Hp' Hv.
  destruct (He p e' Hp') as [Hsame|(k & Hk & Hk')]; [congruence|].
  exfalso. rewrite Hj', Hk', !u64_small in Hv; unfold max_uint64; lia.
Qed.

End versions.


(** ** Concrete mounts *)

(** A recovery pass of a read-only mount, a local event, and an upload an earlier
    read-write mount left queued. *)
Lemma readonly_mount_never_writes_witness :
  let g := set_uploads [upOp opUploadFile "a" "" (string_bytes "hello") 420 "" "hello" "" 5
                          zeroEntry false 0 0] sample_start in
  let cfg := sample_cfg true in
  rtc harmless (g_remote g) (g_remote (snd (takeTurns [TRecover sample_pass; TUploader; TUploadResult;
    TWatch {| le_Path := "a"; le_KindHint := "write" |}; TLocal 1] g))).
Proof.
  apply (readonly_mount_never_writes (cfg := sample_cfg true)); [reflexivity|done|].
  intros d Hd. by apply not_elem_of_nil in Hd.
Defined.

(** A baseline with one entry, of the first version. *)
Lemma version_identifies_baseline_witness :
  let old := setVersion 0 (setMode 420 zeroEntry) in
  let st := withNextVersion 1 (withEntries (λ _, {[ "a" := old ]}) (newSyncState "w" "/m")) in
  let g := set_sweep true (sample_eng st sample_tree sample_remote) in
  let cfg := sample_cfg false in
  ∃ n, 1 ≤ n ∧ next_of (snd (takeTurns [TRecover sample_pass] g)) = u64 n ∧
    (n ≤ 2 ^ 64 → ∀ p e e',
       entries_of g !! p = Some e →
       entries_of (snd (takeTurns [TRecover sample_pass] g)) !! p = Some e' →
       e_Version e = e_Version e' → e = e').
Proof.
  intros old st g cfg.
  destruct (version_identifies_baseline (cfg := cfg) [TRecover sample_pass] g 1) as (n & Hn & Hnext & Hid);
    [done|done| |done|].
  { intros d Hd. by apply not_elem_of_nil in Hd. }
  exists n. split_and!; [done|done|]. intros Hmax p e e' Hp. apply (Hid Hmax p e e' Hp).
  unfold entries_of in Hp. simpl in Hp. apply lookup_singleton_Some in Hp as [_ <-].
  exists 0. split; [lia|done].
Defined.
