(* ===== verification/SyncTree.v ===== *)
(** Lemmas on the local tree of the sync engine: paths below paths, and which
    nodes survive the operations of package os. *)
From S2P Require Import Prelude Content Paths FsClient SyncState SyncWorld.
#[local] Open Scope string_scope.
#[local] Open Scope list_scope.
#[local] Open Scope Z_scope.

(** * Paths *)

Lemma under_spec p q : under p q = true ↔ ∃ r, q = p +:+ "/" +:+ r.
Proof.
  unfold under, HasPrefix. split.
  - intros [r ->]%prefix_spec. exists r. by rewrite string_app_assoc.
  - intros [r ->]. rewrite <- string_app_assoc. apply prefix_app.
Qed.

Lemma under_length p q : under p q = true → (String.length p < String.length q)%nat.
Proof. intros [r ->]%under_spec. rewrite !length_sapp. simpl. lia. Qed.

Lemma ancestors_from_length acc p q :
  q ∈ ancestors_from acc p → (String.length q < String.length acc + String.length p)%nat.
Proof.
  revert acc. induction p as [|c p IH]; intros acc; simpl; [by intros ?%elem_of_nil|].
  destruct (Ascii.eqb c slash); [rewrite elem_of_cons|].
  - intros [->|Hq]; [lia|]. apply IH in Hq. rewrite length_sapp in Hq. simpl in Hq. lia.
  - intros Hq%IH. rewrite length_sapp in Hq. simpl in Hq. lia.
Qed.

Lemma ancestors_length p q : q ∈ ancestors p → (String.length q < String.length p)%nat.
Proof. apply ancestors_from_length. Qed.

Lemma move_key_self p c : move_key p c p = c.
Proof. unfold move_key. by rewrite bool_decide_true. Qed.

Lemma move_key_below p c r : move_key p c (p +:+ "/" +:+ r) = c +:+ "/" +:+ r.
Proof.
  unfold move_key. rewrite bool_decide_false.
  2:{ intros E%(f_equal String.length). rewrite !length_sapp in E. simpl in E. lia. }
  rewrite (proj2 (under_spec p _)) by eauto. f_equal.
  replace (String.length (p +:+ "/" +:+ r) - String.length p)%nat with (String.length ("/" +:+ r))
    by (rewrite (length_sapp p); lia).
  rewrite substring_skip. apply substring_all.
Qed.

Lemma move_key_other p c k : k ≠ p → under p k = false → move_key p c k = k.
Proof. intros. unfold move_key. rewrite bool_decide_false by done. by case_match. Qed.

(** Where a key goes: below the new name, or nowhere. *)
Lemma move_key_cases p c k :
  (move_key p c k = c ∧ k = p) ∨
  (∃ r, k = p +:+ "/" +:+ r ∧ move_key p c k = c +:+ "/" +:+ r) ∨
  (move_key p c k = k ∧ k ≠ p ∧ under p k = false).
Proof.
  destruct (decide (k = p)) as [->|Hne]; [left; by rewrite move_key_self|].
  destruct (under p k) eqn:E; [|right; right; by rewrite move_key_other].
  right. left. apply under_spec in E as [r ->]. exists r. by rewrite move_key_below.
Qed.

(** Nothing is at [c] or below it. *)
Definition vacant (c : string) (t : ltree) : Prop := ∀ k, k = c ∨ under c k = true → t !! k = None.

Lemma move_key_inj p c (t : ltree) k k' :
  vacant c t → is_Some (t !! k) → is_Some (t !! k') → move_key p c k = move_key p c k' → k = k'.
Proof.
  intros Hc Hk Hk'.
  assert (∀ x, is_Some (t !! x) → x ≠ c ∧ ¬ under c x = true) as Hnot.
  { intros x Hx. split; intros E; [|]; rewrite Hc in Hx; eauto using is_Some_None; by apply is_Some_None in Hx. }
  destruct (Hnot k Hk) as [N1 N2], (Hnot k' Hk') as [N3 N4].
  destruct (move_key_cases p c k) as [[-> ->]|[(r & -> & ->)|[-> _]]],
    (move_key_cases p c k') as [[-> ->]|[(r' & -> & ->)|[-> _]]]; intros E; try done.
  - apply (f_equal String.length) in E. rewrite !length_sapp in E. simpl in E. lia.
  - apply (f_equal String.length) in E. rewrite !length_sapp in E. simpl in E. lia.
  - apply string_app_inj_l in E. by apply string_app_inj_l in E as ->.
  - destruct N4. rewrite <- E. apply under_spec. eauto.
  - destruct N2. rewrite E. apply under_spec. eauto.
Qed.

(** * Operations *)

(** A file with the bytes [d] is at [q]. *)
Definition file_at (d : bytes) (q : string) (t : ltree) : Prop := ∃ i, t !! q = Some i ∧ i_node i = NFile d.

(** Every such file is where it was. *)
Definition stay (d : bytes) : relation ltree := λ t t', ∀ q, file_at d q t → file_at d q t'.

#[export] Instance stay_preorder d : PreOrder (stay d).
Proof. split; [by intros t q|]. intros t1 t2 t3 H1 H2 q Hq. by apply H2, H1. Qed.

(** What is at [p] is not that file. *)
Definition clear (d : bytes) (p : string) (t : ltree) : Prop :=
  ∀ i, t !! p = Some i → i_node i ≠ NFile d.

Lemma t_move_lookup (t t' : ltree) p c :
  vacant c t → t_move t p c = Ok t' →
  (∀ k i, t !! k = Some i → t' !! move_key p c k = Some i) ∧
  (∀ k i, t' !! k = Some i → ∃ k0, k = move_key p c k0 ∧ t !! k0 = Some i).
Proof.
  intros Hc. unfold t_move. destruct (t !! p); [|done]. intros [= <-].
  assert (NoDup (map (λ '(k, i), (move_key p c k, i)) (map_to_list t)).*1) as Hnd.
  { apply NoDup_fmap_fst.
    - intros k x y Hx Hy. apply list_elem_of_fmap in Hx as ([k1 i1] & [= -> ->] & H1%elem_of_map_to_list).
      apply list_elem_of_fmap in Hy as ([k2 i2] & [= E ->] & H2%elem_of_map_to_list).
      apply (move_key_inj p c t) in E; [congruence|done|by eexists..].
    - apply NoDup_fmap_2_strong; [|apply NoDup_map_to_list].
      intros [k1 i1] [k2 i2] H1%elem_of_map_to_list H2%elem_of_map_to_list [= E ->].
      apply (move_key_inj p c t) in E; [congruence|done|by eexists..]. }
  split.
  - intros k i Hk. apply elem_of_list_to_map; [done|]. apply list_elem_of_fmap.
    exists (k, i). split; [done|by apply elem_of_map_to_list].
  - intros k i Hk. apply elem_of_list_to_map in Hk; [|done].
    apply list_elem_of_fmap in Hk as ([k0 i0] & [= -> ->] & H0%elem_of_map_to_list). eauto.
Qed.

(** What is moved to a name nothing is at is all there. *)
Lemma move_keeps d t t' p c q : vacant c t → t_move t p c = Ok t' → file_at d q t → file_at d (move_key p c q) t'.
Proof.
  intros Hc Hm (i & Hq & Hi). destruct (t_move_lookup _ _ _ _ Hc Hm) as [Hto _]. exists i. eauto.
Qed.

(** The old name is free afterwards. *)
Lemma clear_move d t t' p c : t_move t p c = Ok t' → (String.length p < String.length c)%nat → clear d p t'.
Proof.
  unfold t_move. destruct (t !! p); [|done]. intros [= <-] Hlen i Hp. apply elem_of_list_to_map_2, list_elem_of_fmap in Hp.
  destruct Hp as ([k j] & [= E _] & _). exfalso.
  destruct (move_key_cases p c k) as [[Ek _]|[(r & _ & Ek)|(Ek & Hne & _)]]; rewrite Ek in E.
  - subst. lia.
  - apply (f_equal String.length) in E. rewrite !length_sapp in E. lia.
  - congruence.
Qed.

Lemma t_mkdirs_lookup t now ino dirs t' ino' :
  t_mkdirs t now ino dirs = Ok (t', ino') →
  (∀ k i, t !! k = Some i → t' !! k = Some i) ∧
  (∀ k i, t' !! k = Some i → t !! k = Some i ∨ k ∈ dirs ∧ i_node i = NDir).
Proof.
  revert t ino. induction dirs as [|dir dirs IH]; intros t ino; simpl; [intros [= -> ->]; eauto|].
  destruct (t !! dir) as [x|] eqn:Ed.
  - case_bool_decide; [|done]. intros [Hto Hfrom]%IH. split; [done|].
    intros k i [?|[? ?]]%Hfrom; [eauto|right; split; [by right|done]].
  - intros [Hto Hfrom]%IH. split.
    + intros k i Hk. apply Hto. apply lookup_insert_Some; right; split; [congruence|done].
    + intros k i [Hk|[? ?]]%Hfrom; [|right; split; [by right|done]].
      apply lookup_insert_Some in Hk as [[<- <-]|[_ ?]]; [right; split; [by left|done]|by left].
Qed.

Lemma stay_mkdirs d t now ino dirs t' ino' : t_mkdirs t now ino dirs = Ok (t', ino') → stay d t t'.
Proof. intros [Hto _]%t_mkdirs_lookup q (i & Hq & Hi). exists i. eauto. Qed.

Lemma clear_mkdirs d p t now ino dirs t' ino' :
  t_mkdirs t now ino dirs = Ok (t', ino') → clear d p t → clear d p t'.
Proof.
  intros [_ Hfrom]%t_mkdirs_lookup Hc i [Hi|[_ Hd]]%Hfrom; [by apply Hc|]. by rewrite Hd.
Qed.

(** What is not at [p] stays. *)
Lemma stay_commit d t t' p i : t_commit t p i = Ok t' → clear d p t → stay d t t'.
Proof.
  intros Hm Hc q (j & Hq & Hj). exists j. split; [|done].
  assert (q ≠ p) as Hne by (intros ->; by apply Hc in Hq).
  assert (t' = <[p:=i]> t) as -> by (unfold t_commit in Hm; by repeat case_match; simplify_eq).
  apply lookup_insert_Some; by right.
Qed.

Lemma stay_remove d t t' p : t_remove t p = Ok t' → clear d p t → stay d t t'.
Proof.
  intros Hm Hc q (j & Hq & Hj). exists j. split; [|done].
  assert (q ≠ p) as Hne by (intros ->; by apply Hc in Hq).
  assert (t' = delete p t) as -> by (unfold t_remove in Hm; by repeat case_match; simplify_eq).
  by apply lookup_delete_Some.
Qed.

Lemma stay_remove_all d t p : (∀ q, q = p ∨ under p q = true → clear d q t) → stay d t (t_remove_all t p).
Proof.
  intros Hc q (j & Hq & Hj). exists j. split; [|done]. unfold t_remove_all.
  apply map_lookup_filter_Some. split; [done|].
  destruct (decide (q = p)) as [->|Hne]; [destruct (Hc p (or_introl eq_refl) j); done|].
  rewrite bool_decide_false by done. destruct (under p q) eqn:E; [|done].
  by destruct (Hc q (or_intror E) j).
Qed.

Lemma info_kind i : is_regular (info_of i) = true ↔ ∃ d, i_node i = NFile d.
Proof.
  unfold is_regular, info_of, kind_of. destruct i as [n ? ? ?]. simpl.
  destruct n; simpl; split; try done; eauto; intros [? ?]; done.
Qed.
