(* ===== verification/SyncGaps.v ===== *)
(** Three protocols of the sync engine and where they fall short of what they are
    for: the durable replay of missed changes, the acknowledgment of a
    deletion, and the test for a conflict. *)
From S2P Require Import Prelude Content Paths FsClient SyncState SyncChunks SyncWorld SyncPlan SyncDown.
From S2P Require Import SyncUp SyncEvent SyncExec SyncRun SyncSample SyncInv SyncProps.
#[local] Open Scope string_scope.
#[local] Open Scope list_scope.
#[local] Open Scope Z_scope.

Section gaps.
Context {H : Hashing} {R : Type} {RC : RemoteClient R} {cfg : @SyncCfg R}.
Implicit Types g : eng R.

Lemma bind_to {A B} (m : SyncWorld.E R A) (f : A → SyncWorld.E R B) a g g1 :
  m g = (a, g1) → bindE m f g = f a g1.
Proof. unfold bindE. by intros ->. Qed.

(** * The stream cursor *)

Definition no_cursor (g : eng R) : Prop := lastStreamID (g_sw g) = "" ∧ delayed_untracked g.

Lemma stable_no_cursor : (∀ m g, no_cursor g → no_cursor (app m g)) → Stable no_cursor.
Proof.
  intros Happ. unfold no_cursor. split; try done.
  - intros x g [Hc Hd] Hx. split; [done|]. intros d Hd'. destruct (Hx d Hd'); [done|by apply Hd].
  - intros d g [_ Hd] Hin. by apply Hd.
  - intros op g _ Hg. by apply free_queue.
  - intros op g Hg. by apply free_tracked.
  - intros p g Hg. by apply free_defer.
Qed.

Lemma catch_up_without_cursor n g :
  lastStreamID (g_sw g) = "" →
  onConnected n g = ((), set_sweep true (set_remote (rInvalidateCache (g_remote g)) g)).
Proof.
  intros Hc. unfold onConnected, catchUpFromStream, bindE, invalidateCache, modE, getE. simpl.
  rewrite bool_decide_true by done. done.
Qed.

Lemma turns_no_cursor `{!Stable no_cursor} : Turns no_cursor.
Proof.
  assert (Free no_cursor) by (by split). split; try done.
  - intros n g Hg. rewrite catch_up_without_cursor by apply Hg. done.
  - by apply free_uploader.
  - by apply free_uploadResult.
Qed.

(** The durable change stream is never replayed.  A mount starts without a
    cursor, only a replay sets one, and a replay needs one: whatever turns are
    taken, the state keeps the empty cursor, and a confirmed subscription reads
    nothing of the stream but flushes the cache and requests a full sweep. *)
Theorem stream_catch_up_never_runs (ts : list turn) (g : eng R) (n : nat)
    (Hnew : lastStreamID (g_sw g) = "")
    (Hdel : delayed_untracked g)
    (Happ : ∀ m g, no_cursor g → no_cursor (app m g)) :
  let g' := snd (takeTurns ts g) in
  lastStreamID (g_sw g') = "" ∧
  onConnected n g' = ((), set_sweep true (set_remote (rInvalidateCache (g_remote g')) g')).
Proof.
  pose proof (stable_no_cursor Happ) as Hst. pose proof turns_no_cursor as Ht.
  assert (no_cursor (snd (takeTurns ts g))) as [Hc _].
  { by apply (p_takeTurns no_cursor ts). }
  split; [done|by apply catch_up_without_cursor].
Qed.

(** * Acknowledged deletions *)

Lemma cold_start_next (m : list (string * manifestEntry)) g :
  next_of (snd (coldStartState m g)) = next_of g.
Proof.
  assert (pres (λ g', next_of g' = next_of g) (coldStartState m)) as Hp; [|by apply Hp].
  unfold coldStartState. apply pres_bind; [|intros; by apply pres_mod].
  induction m as [|[p e] m IH]; simpl; [apply pres_ret|]. apply pres_bind; [|done].
  case_bool_decide; [apply pres_ret|].
  apply pres_bind; [apply pres_get|intros t]. apply pres_bind; [apply pres_get|intros i].
  by apply pres_mod.
Qed.

Lemma cold_start_unversioned (m : list (string * manifestEntry)) g q e :
  entries_of g = ∅ → entries_of (snd (coldStartState m g)) !! q = Some e → e_Version e = 0.
Proof.
  intros Hg. set (Inv g' := ∀ q e, entries_of g' !! q = Some e → e_Version e = 0).
  assert (pres Inv (coldStartState m)) as Hp.
  { unfold coldStartState. apply pres_bind; [|intros; by apply pres_mod].
    induction m as [|[p x] m IH]; simpl; [apply pres_ret|]. apply pres_bind; [|done].
    case_bool_decide; [apply pres_ret|].
    apply pres_bind; [apply pres_get|intros t]. apply pres_bind; [apply pres_get|intros i].
    apply pres_mod. intros g' Hi q' e' Hq. unfold entries_of in Hq. simpl in Hq.
    apply lookup_insert_Some in Hq as [[_ <-]|[_ Hq]]; [done|by apply (Hi q')]. }
  apply Hp. intros q' e' Hq. rewrite Hg in Hq. by apply lookup_empty_Some in Hq.
Qed.

(** An entry of a cold start keeps its version if the first draw of the mount
    changes it: both are 0. *)
Lemma cold_entry_keeps_version (m : list (string * manifestEntry)) w p q g e e2 :
  g_sw g = newStateWriter (newSyncState w p) None →
  let g1 := snd (coldStartState m g) in
  let g2 := set_sw (snd (putVersioned q e2 (g_sw g1))) g1 in
  entries_of g1 !! q = Some e →
  ∃ e', entries_of g2 !! q = Some e' ∧ e' = setVersion 0 e2 ∧ e_Version e' = e_Version e.
Proof.
  intros Eg g1 g2 He. exists (setVersion 0 e2).
  assert (next_of g1 = 0) as Hn by (subst g1; rewrite cold_start_next; unfold next_of; by rewrite Eg).
  apply cold_start_unversioned in He; [|unfold entries_of; by rewrite Eg].
  split_and!; [|done|by rewrite He]. subst g2. unfold entries_of, putVersioned, nextVersion. simpl.
  unfold next_of in Hn. rewrite Hn. apply lookup_insert_eq.
Qed.

(** The operation queued for the deletion of [rel], whose entry is [e], and the
    tombstone it leaves, of version [v] at time [t]. *)
Definition deletion_op (rel : string) (e : SyncEntry) (v : Z) : uploadOp :=
  upOp opUploadDelete rel "" [] 0 "" "" "" 0 e true 0 v.
Definition tombstone (e : SyncEntry) (v t : Z) : SyncEntry :=
  setVersion v (setSyncedAt t (setDeleted true e)).

Definition acknowledged (op : uploadOp) (st : option StatResult) (g : eng R) : eng R :=
  snd (handleUploadResult (uresult op None false false "" st) g).

Lemma local_delete scan rel e g :
  readonly = false → fst (checkLocalRoot g) = Ok () →
  entries_of g !! rel = Some e → e_Deleted e = false → renameCandidateKey e ≠ "" →
  let g' := snd (handleLocalDelete scan rel "remove" g) in
  entries_of g' !! rel = Some (tombstone e (next_of g) (g_now g)) ∧
  du_op <$> last (g_delayed g') = Some (deletion_op rel e (next_of g)).
Proof.
  intros Hro Hroot He Hlive Hkey. unfold entries_of in He.
  assert (checkLocalRoot g = (Ok (), g)) as Hr by (by rewrite <- Hroot).
  assert (storedAt rel g = ((e, true), g)) as Hs by (unfold storedAt, getE, lookupEntry; by rewrite He).
  unfold handleLocalDelete. rewrite Hro, (bind_to _ _ _ _ _ Hr), (bind_to _ _ _ _ _ Hs). simpl.
  rewrite Hlive. rewrite bool_decide_false by done.
  unfold rememberRenameCandidate. rewrite bool_decide_false by done. simpl.
  unfold entries_of. simpl. split; [apply lookup_insert_eq|by rewrite last_snoc].
Qed.

Lemma acknowledge rel e v t st g :
  entries_of g !! rel = Some (tombstone e v t) →
  entries_of (acknowledged (deletion_op rel e v) st g) !! rel =
    if v =? 0 then Some (tombstone e v t) else None.
Proof.
  intros He. unfold acknowledged, handleUploadResult, uploadResultBody, recordUpload, bindE. simpl.
  assert (∀ g', g_sw (snd (forgetRenameCandidate e g')) = g_sw g') as Hf.
  { intros g'. unfold forgetRenameCandidate. by case_bool_decide. }
  specialize (Hf g). destruct (forgetRenameCandidate e g) as [[] g1] eqn:E. simpl in *.
  unfold storedAt, getE, lookupEntry. unfold entries_of in *. rewrite Hf, He. simpl.
  rewrite Z.eqb_refl, andb_true_r. destruct (v =? 0) eqn:Ev; simpl; rewrite Hf; [done|].
  apply lookup_delete_eq.
Qed.

Lemma tombstone_hides rel e v t g :
  entries_of g !! rel = Some (tombstone e v t) → handleRemotePath rel g = ((), g).
Proof.
  intros He. unfold handleRemotePath, storedAt, bindE, getE, lookupEntry.
  unfold entries_of in He. by rewrite He.
Qed.

(** A local deletion leaves a tombstone under the next version, which hides
    the path from remote events until the acknowledgment of the queued operation
    removes it; except that the acknowledgment takes version 0 for "none".  The
    versions of a new state start at 0 and a cold start takes none, so the first
    deletion of a mount is never acknowledged. *)
Theorem first_deletion_never_acknowledged (scan : string → SyncWorld.E R ()) (rel : string) (e : SyncEntry)
    (g : eng R) (Hro : readonly = false) (Hroot : fst (checkLocalRoot g) = Ok ())
    (He : entries_of g !! rel = Some e) (Hlive : e_Deleted e = false)
    (Hkey : renameCandidateKey e ≠ "") :
  let g' := snd (handleLocalDelete scan rel "remove" g) in
  (∃ op tomb, du_op <$> last (g_delayed g') = Some op ∧ entries_of g' !! rel = Some tomb ∧
     ∀ g3 st, entries_of g3 !! rel = Some tomb →
       handleRemotePath rel g3 = ((), g3) ∧
       entries_of (acknowledged op st g3) !! rel = if next_of g =? 0 then Some tomb else None) ∧
  (∀ m w p g0, g_sw g0 = newStateWriter (newSyncState w p) None → next_of (snd (coldStartState m g0)) = 0).
Proof.
  intros g'. destruct (local_delete scan rel e g Hro Hroot He Hlive Hkey) as [Ht Hop]. split.
  - eexists _, _. split_and!; [exact Hop|exact Ht|]. intros g3 st H3.
    split; [by eapply tombstone_hides|by apply acknowledge].
  - intros m w p g0 E. rewrite cold_start_next. unfold next_of. by rewrite E.
Qed.

(** * Conflicts of chunked files *)

(** An unmodified file that was uploaded in chunks counts as a conflict.  The
    entry of such a file holds the hash of its manifest; the downloader knows
    that and finds the file as recorded, but [detectConflict] compares the hash of
    the bytes, so every remote change of the file is downloaded as a conflict:
    whole, with the local version moved aside. *)
Theorem chunked_file_false_conflict (p : string) (data : bytes) (stored : SyncEntry)
    (i : fileInfo) (g : eng R)
    (Hi : Lstat p g = (Ok i, g)) (Hreg : is_regular i = true)
    (Hdata : ReadFile p g = (Ok data, g)) (Hsize : fi_size i = e_Size stored)
    (Hlive : e_Deleted stored = false) (Htype : e_Type stored = "file")
    (Hmode : fi_perm i = Z.land (e_Mode stored) 511) (Hchunked : 0 < e_ChunkSize stored)
    (Hrecorded : e_LocalHash stored = compositeHash (uploadChunkHashes data (e_ChunkSize stored)))
    (Hnonempty : e_LocalHash stored ≠ "") (Hdiffer : sha256Hex data ≠ e_LocalHash stored) :
  detectConflict p stored true g = (true, g) ∧
  (∃ s, snapshotDownloadLocal p stored g = (Ok s, g) ∧ matchesStored s stored true = true) ∧
  ∀ st, st_type st = "file" → ∃ op g1,
    downloadCurrent p st stored true g = queueDownload op g1 ∧ do_Path op = p ∧ do_Conflict op = true.
Proof.
  assert (fst (streamChunkHashes data (e_ChunkSize stored)) = uploadChunkHashes data (e_ChunkSize stored))
    as Hs by (by rewrite stream_upload).
  assert (is_symlink i = false) as Hl by (unfold is_regular, is_symlink in *; by destruct (fi_kind i)).
  assert (detectConflict p stored true g = (true, g)) as Hd.
  { unfold detectConflict. cbn [negb]. rewrite (bind_to _ _ _ _ _ Hi), Hl, Hreg. cbn [negb].
    rewrite (bind_to _ _ _ _ _ Hdata). unfold retE. by rewrite !bool_decide_false. }
  split_and!; [done| |].
  - unfold snapshotDownloadLocal. rewrite (bind_to _ _ _ _ _ Hi), Hl, Hreg, (bind_to _ _ _ _ _ Hdata).
    eexists. split; [done|]. unfold matchesStored. simpl. rewrite Hlive, Hreg, Hmode, Hsize. simpl.
    rewrite !Z.eqb_refl, bool_decide_true, (bool_decide_false (e_LocalHash stored = "")) by done.
    rewrite (proj2 (Z.ltb_lt _ _)), Hs, Hrecorded by done.
    rewrite (bool_decide_true (compositeHash _ = _)) by done. by rewrite orb_true_r.
  - intros st Hst. unfold downloadCurrent. rewrite (bind_to _ _ _ _ _ Hd), Hst. simpl.
    unfold bindE. destruct (remote _ g) as [[[cs hs]|err] g1]; [|by eexists _, g1].
    case_match; by eexists _, g1.
Qed.
End gaps.

(** * Concrete mounts *)

(** A peer's change is in the stream; a pass, then a confirmed subscription. *)
Lemma stream_catch_up_never_runs_witness :
  let peer := {| cs_ID := "7-0"; cs_Event := {| ev_Origin := "peer"; ev_Op := "content"; ev_Paths := ["/a"] |} |} in
  let g := set_remote (Flat (fl_nodes (g_remote sample_start)) 100 [peer]) sample_start in
  let cfg := sample_cfg false in
  let g' := snd (takeTurns [TRecover sample_pass; TConnected 5] g) in
  lastStreamID (g_sw g') = "" ∧
  onConnected 5 g' = ((), set_sweep true (set_remote (rInvalidateCache (g_remote g')) g')).
Proof.
  intros peer g cfg. apply (stream_catch_up_never_runs (cfg := cfg)); [done| |done].
  intros d Hd. by apply not_elem_of_nil in Hd.
Defined.

(** A mount that starts cold with one file, which is then deleted. *)
Lemma first_deletion_never_acknowledged_witness :
  let cfg := sample_cfg false in
  let file := {| me_Type := "file"; me_Mode := 420; me_Size := 5; me_MtimeMs := 3; me_Target := "";
                 me_data := Some (string_bytes "hello") |} in
  let g1 := snd (coldStartState [("/", file); ("/a", file)]
                   (sample_eng (newSyncState "w" "/m") sample_tree sample_remote)) in
  let g2 := snd (handleLocalDelete (λ _, retE ()) "a" "remove" g1) in
  ∃ op tomb, du_op <$> last (g_delayed g2) = Some op ∧ entries_of g2 !! "a" = Some tomb ∧
    ∀ g3 st, entries_of g3 !! "a" = Some tomb →
      handleRemotePath "a" g3 = ((), g3) ∧ entries_of (acknowledged op st g3) !! "a" = Some tomb.
Proof.
  intros cfg file g1.
  assert (He : entries_of g1 !! "a" = Some (coldEntry 1000 (Ok (FileInfo KFile 420 5 5000000 10)) file))
    by (vm_compute; reflexivity).
  destruct (first_deletion_never_acknowledged (cfg := cfg) (λ _, retE ()) "a" _ g1 eq_refl eq_refl He
              eq_refl ltac:(by vm_compute)) as [Hd _].
  exact Hd.
Defined.

(** Eight bytes in two chunks. *)
Lemma chunked_file_false_conflict_witness :
  let cfg := sample_cfg false in
  let data := string_bytes "abcdefgh" in
  let g := sample_eng (newSyncState "w" "/m") {[ "a" := Linode (NFile data) 420 5000000 10 ]} sample_remote in
  let stored := {| e_Type := "file"; e_Mode := 420; e_Size := 8;
                   e_LocalHash := compositeHash (uploadChunkHashes data 4); e_LocalIdentity := "";
                   e_LocalMtimeMs := 5; e_RemoteHash := compositeHash (uploadChunkHashes data 4);
                   e_RemoteMtimeMs := 5; e_Target := ""; e_LastSyncedAt := 5; e_ChunkSize := 4;
                   e_ChunkHashes := uploadChunkHashes data 4; e_Version := 3; e_Deleted := false |} in
  detectConflict "a" stored true g = (true, g) ∧
  (∃ s, snapshotDownloadLocal "a" stored g = (Ok s, g) ∧ matchesStored s stored true = true) ∧
  ∀ st, st_type st = "file" → ∃ op g1,
    downloadCurrent "a" st stored true g = queueDownload op g1 ∧ do_Path op = "a" ∧ do_Conflict op = true.
Proof.
  intros cfg data g stored.
  apply (chunked_file_false_conflict (cfg := cfg) "a" data stored (FileInfo KFile 420 8 5000000 10) g);
    try (vm_compute; reflexivity); by vm_compute.
Defined.
