(* ===== verification/SyncPending.v ===== *)
(** The counters of pending uploads: they count the tracked operations on their
    way, so a scan that had to skip a path is repeated once its uploads are
    done (C31). *)
From S2P Require Import Prelude Content Paths FsClient SyncState SyncChunks SyncWorld SyncPlan SyncDown.
From S2P Require Import SyncUp SyncEvent SyncExec SyncRun SyncSample SyncInv SyncProps.
#[local] Open Scope string_scope.
#[local] Open Scope list_scope.
#[local] Open Scope Z_scope.

(** How often an operation holds the path [p]. *)
Definition one (p q : string) : Z := if bool_decide (p = q) then 1 else 0.
Definition holds_path (op : uploadOp) (p : string) : Z :=
  if uo_Tracked op then one p (uo_Path op) + (if isRename op then one p (uo_PrevPath op) else 0) else 0.
Definition load (l : list uploadOp) (p : string) : Z := foldr (λ op n, holds_path op p + n) 0 l.

Lemma load_app l l' p : load (l ++ l') p = load l p + load l' p.
Proof. induction l; simpl; lia. Qed.

#[local] Notation "x ← y ; z" := (bindE y (λ x, z))
  (at level 20, y at level 100, z at level 200, only parsing) : sync_scope.
#[local] Open Scope sync_scope.

Section pending.
Context {H : Hashing} {R : Type} {RC : RemoteClient R} {cfg : @SyncCfg R}.
Implicit Types g : eng R.

(** The operations in the channel and in the results. *)
Definition on_the_way (g : eng R) : list uploadOp := g_uploads g ++ map ur_Op (g_uploadRes g).

Definition counts (w : string → Z) (g : eng R) : Prop :=
  ∀ p, match g_pending g !! p with
       | Some c => p_count c = w p ∧ 0 < w p
       | None => w p = 0
       end.

(** The counter of [p] says that a scan was deferred. *)
Definition flagged (p : string) (g : eng R) : Prop := ∃ c, g_pending g !! p = Some c ∧ p_rescan c = true.

(** The deferred scan of [p] is remembered, by the counter or as a request, unless it
    need not be. *)
Context (unless : Prop).
Definition remembered (p : string) (g : eng R) : Prop := unless ∨ g_sweep g = true ∨ flagged p g.

Definition kept (p : string) (f : list uploadOp) (g : eng R) : Prop :=
  counts (load (f ++ on_the_way g)) g ∧ remembered p g ∧ delayed_untracked g.

Definition held (p : string) (w : string → Z) (g : eng R) : Prop :=
  counts w g ∧ remembered p g ∧ delayed_untracked g.

Lemma held_ext p w w' g : (∀ q, w q = w' q) → held p w g → held p w' g.
Proof.
  intros E (Hc & Hr & Hd). split_and!; [|done..]. intros q. specialize (Hc q). rewrite <- E.
  by destruct (g_pending g !! q).
Qed.

Lemma held_bump p w q g : held p w g → held p (λ x, w x + one x q) (snd (bumpPending q g)).
Proof.
  intros (Hc & Hr & Hd). split_and!; [| |done].
  - intros x. specialize (Hc x). simpl. unfold one. destruct (decide (x = q)) as [->|Hne].
    + rewrite lookup_insert_eq, bool_decide_true by done. simpl.
      destruct (g_pending g !! q); simpl; lia.
    + rewrite lookup_insert_ne, bool_decide_false by done.
      destruct (g_pending g !! x); lia.
  - destruct Hr as [?|[?|(c & Hp & Hs)]]; [by left|by right; left|]. right; right. unfold flagged. simpl. destruct (decide (p = q)) as [->|Hne].
    + rewrite lookup_insert_eq, Hp. simpl. by eexists.
    + rewrite lookup_insert_ne by done. by exists c.
Qed.

Lemma held_finish p w q g :
  held p w g → 0 < w q → held p (λ x, w x - one x q) (snd (finishPendingUpload q g)).
Proof.
  intros (Hc & Hr & Hd) Hq. pose proof (Hc q) as Hcq. unfold finishPendingUpload.
  destruct (g_pending g !! q) as [c|] eqn:Eq; [|lia]. destruct Hcq as [Hn _].
  assert (∀ x, x ≠ q → match g_pending g !! x with
            | Some c => p_count c = w x - one x q ∧ 0 < w x - one x q
            | None => w x - one x q = 0 end) as Hother.
  { intros x Hne. specialize (Hc x). unfold one. rewrite bool_decide_false by done.
    destruct (g_pending g !! x); lia. }
  assert (w q - one q q = p_count c - 1) as Hqq by (unfold one; rewrite bool_decide_true by done; lia).
  destruct (p_count c - 1 =? 0) eqn:E0; [apply Z.eqb_eq in E0|apply Z.eqb_neq in E0].
  - assert (counts (λ x, w x - one x q) (set_pending (delete q (g_pending g)) g)) as Hc'.
    { intros x. simpl. destruct (decide (x = q)) as [->|Hne].
      - rewrite lookup_delete_eq. lia.
      - rewrite lookup_delete_ne by done. by apply Hother. }
    destruct (p_rescan c) eqn:Es; [by split_and!; [|right; left|]|]. split_and!; [done| |done].
    destruct Hr as [?|[?|(d & Hp & Hs)]]; [by left|by right; left|]. right; right. exists d. simpl. split; [|done].
    rewrite lookup_delete_ne; [done|congruence].
  - split_and!; [| |done].
    + intros x. simpl. destruct (decide (x = q)) as [->|Hne].
      * rewrite lookup_insert_eq. simpl. lia.
      * rewrite lookup_insert_ne by done. by apply Hother.
    + destruct Hr as [?|[?|(d & Hp & Hs)]]; [by left|by right; left|]. right; right. unfold flagged. simpl. destruct (decide (p = q)) as [->|Hne].
      * rewrite lookup_insert_eq. eexists. split; [done|]. simpl. congruence.
      * rewrite lookup_insert_ne by done. by exists d.
Qed.

Lemma held_defer p w q g : held p w g → held p w (snd (deferScanForPendingUpload q g)).
Proof.
  intros (Hc & Hr & Hd). unfold deferScanForPendingUpload. destruct (g_pending g !! q) as [c|] eqn:Eq; [|done].
  split_and!; [| |done].
  - intros x. specialize (Hc x). simpl. destruct (decide (x = q)) as [->|Hne].
    + rewrite lookup_insert_eq. by rewrite Eq in Hc.
    + by rewrite lookup_insert_ne.
  - destruct Hr as [?|[?|(d & Hp & Hs)]]; [by left|by right; left|]. right; right. unfold flagged. simpl. destruct (decide (p = q)) as [->|Hne].
    + rewrite lookup_insert_eq. by eexists.
    + rewrite lookup_insert_ne by done. by exists d.
Qed.

(** Leaving the baseline alone or not makes no difference. *)
Lemma held_sw p w sw g : held p w g → held p w (set_sw sw g).
Proof. done. Qed.

Lemma held_sweep p w g : held p w g → held p w (set_sweep true g).
Proof. intros (? & ? & ?). split_and!; [done|by right; left|done]. Qed.

Lemma discard_sw op g : ∃ sw, snd (discardPendingRename op g) = set_sw sw g.
Proof.
  unfold discardPendingRename, bindE. destruct (negb _); [exists (g_sw g); by destruct g|].
  simpl. destruct (_ && _); eexists; reflexivity.
Qed.

Lemma holds_tracked op p :
  holds_path (setTracked op) p = one p (uo_Path op) + (if isRename op then one p (uo_PrevPath op) else 0).
Proof. done. Qed.

Lemma holds_same op p : uo_Tracked op = true → holds_path (setTracked op) p = holds_path op p.
Proof. unfold holds_path at 2. by intros ->. Qed.

Lemma one_self p : one p p = 1.
Proof. unfold one. by rewrite bool_decide_true. Qed.
Lemma one_pos p q : 0 ≤ one p q.
Proof. unfold one. case_bool_decide; lia. Qed.

Lemma load_pos l p : 0 ≤ load l p.
Proof.
  induction l as [|op l IH]; simpl; [done|]. unfold holds_path.
  pose proof (one_pos p (uo_Path op)). pose proof (one_pos p (uo_PrevPath op)).
  destruct (uo_Tracked op), (isRename op); lia.
Qed.

(** The two releases of an operation, in either order. *)
Lemma held_release p w op g :
  (∀ x, 0 ≤ w x) → held p (λ x, w x + holds_path (setTracked op) x) g → held p w (snd (finishTracked op g)).
Proof.
  intros Hw Hh. pose proof (Hw (uo_Path op)). pose proof (one_self (uo_Path op)).
  pose proof (one_pos (uo_Path op) (uo_PrevPath op)).
  apply (held_finish _ _ (uo_Path op)) in Hh; [|rewrite holds_tracked; destruct (isRename op); lia].
  unfold finishTracked, bindE. destruct (finishPendingUpload (uo_Path op) g) as [[] g1]. simpl in Hh.
  destruct (isRename op) eqn:Er.
  - apply (held_finish _ _ (uo_PrevPath op)) in Hh.
    + eapply held_ext; [|done]. intros x. simpl. rewrite holds_tracked, Er. lia.
    + rewrite holds_tracked, Er, one_self. pose proof (Hw (uo_PrevPath op)). lia.
  - eapply held_ext; [|done]. intros x. simpl. rewrite holds_tracked, Er. lia.
Qed.

Lemma held_release' p w op g :
  (∀ x, 0 ≤ w x) → isRename op = true → held p (λ x, w x + holds_path (setTracked op) x) g →
  held p w (snd (finishPendingUpload (uo_Path op) (snd (finishPendingUpload (uo_PrevPath op) g)))).
Proof.
  intros Hw Er Hh. pose proof (one_self (uo_PrevPath op)). pose proof (one_self (uo_Path op)).
  pose proof (one_pos (uo_PrevPath op) (uo_Path op)).
  pose proof (Hw (uo_PrevPath op)). pose proof (Hw (uo_Path op)).
  apply (held_finish _ _ (uo_PrevPath op)) in Hh; [|rewrite holds_tracked, Er; lia].
  apply (held_finish _ _ (uo_Path op)) in Hh; [|rewrite holds_tracked, Er; lia].
  eapply held_ext; [|done]. intros x. simpl. rewrite holds_tracked, Er. lia.
Qed.

Lemma kept_queue p f op g : uo_Tracked op = false → kept p f g → kept p f (snd (queueUpload op g)).
Proof.
  intros Ht Hk. unfold queueUpload. destruct (g_stop g); [done|]. destruct (_ <? _)%nat.
  - eapply held_ext; [|exact Hk]. intros x. unfold on_the_way. simpl.
    rewrite !load_app. simpl. unfold holds_path. rewrite Ht. lia.
  - by apply held_sweep.
Qed.

Lemma finish_way q g : on_the_way (snd (finishPendingUpload q g)) = on_the_way g.
Proof.
  unfold finishPendingUpload. destruct (g_pending g !! q) as [c|]; [|done].
  destruct (_ =? 0); [|done]. by destruct (p_rescan c).
Qed.

(** The channel takes the operation with its counts, or both are undone. *)
Lemma kept_enqueue p f op g :
  held p (λ x, load (f ++ on_the_way g) x + holds_path (setTracked op) x) g →
  kept p f (snd ((sent ← queueUpload (setTracked op);
                  if (sent : bool) then retE ()
                  else _ ← discardPendingRename (setTracked op);
                       _ ← finishTracked (setTracked op);
                       requestFullSweep) g)).
Proof.
  intros Hh.
  assert (∀ g', on_the_way g' = on_the_way g → held p (λ x, load (f ++ on_the_way g) x
            + holds_path (setTracked op) x) g' →
    kept p f (snd ((_ ← discardPendingRename (setTracked op); _ ← finishTracked (setTracked op);
                    requestFullSweep) g'))) as Hundo.
  { intros g' E Hh'. destruct (discard_sw (setTracked op) g') as [sw Es].
    unfold bindE. destruct (discardPendingRename (setTracked op) g') as [[] g1]. simpl in Es. subst g1.
    apply (held_sw _ _ sw), (held_release _ _ (setTracked op)) in Hh'; [|intros; apply load_pos].
    assert (on_the_way (snd (finishTracked (setTracked op) (set_sw sw g'))) = on_the_way g') as Ew.
    { unfold finishTracked, bindE. pose proof (finish_way (uo_Path op) (set_sw sw g')) as E1. simpl.
      destruct (finishPendingUpload (uo_Path op) _) as [[] g1]. simpl in E1. etrans; [|exact E1].
      destruct (isRename _); [apply finish_way|done]. }
    destruct (finishTracked (setTracked op) (set_sw sw g')) as [[] g2]. simpl in *.
    apply held_sweep. eapply held_ext; [|exact Hh']. intros x. simpl.
    change (on_the_way (set_sweep true g2)) with (on_the_way g2). by rewrite Ew, E. }
  unfold bindE at 1. unfold queueUpload. destruct (g_stop g); [by apply Hundo|].
  destruct (_ <? _)%nat; [|by apply Hundo, held_sweep].
  eapply held_ext; [|exact Hh]. intros x. unfold on_the_way. simpl. rewrite !load_app. simpl. lia.
Qed.

Lemma kept_tracked p f op g : kept p f g → kept p f (snd (enqueueTrackedUpload op g)).
Proof.
  intros Hk. unfold enqueueTrackedUpload. apply (held_bump _ _ (uo_Path op)) in Hk.
  unfold bindE at 1. unfold bindE at 1. destruct (isRename op) eqn:Er.
  - apply (held_bump _ _ (uo_PrevPath op)) in Hk. apply (kept_enqueue p f op).
    eapply held_ext; [|exact Hk]. intros x. unfold on_the_way. simpl. rewrite holds_tracked, Er. lia.
  - apply (kept_enqueue p f op).
    eapply held_ext; [|exact Hk]. intros x. unfold on_the_way. simpl. rewrite holds_tracked, Er. lia.
Qed.

Lemma stable_kept p f : (∀ m g, kept p f g → kept p f (app m g)) → Stable (kept p f).
Proof.
  intros Happ. split; try done.
  - intros g. apply held_sweep.
  - intros x g (Hc & Hr & Hd) Hx. split_and!; [done..|].
    intros d Hd'. destruct (Hx d Hd'); [done|by apply Hd].
  - intros d g (_ & _ & Hd) Hin. by apply Hd.
  - intros op g. apply kept_queue.
  - intros op g. apply kept_tracked.
  - intros q g Hk.
    assert (on_the_way (snd (deferScanForPendingUpload q g)) = on_the_way g) as E
      by (unfold deferScanForPendingUpload; by destruct (g_pending g !! q)).
    unfold kept. rewrite E. by apply held_defer.
Qed.

(** * What a worker answers *)

Definition post {A} (Q : A → Prop) (m : SyncWorld.E R A) : Prop := ∀ g, Q (fst (m g)).
Definition errs {Er A} (S : Er → Prop) (m : SyncWorld.E R (result Er A)) : Prop :=
  post (λ r, match r with Err e => S e | Ok _ => True end) m.
Definition ends {A} (S : A → Prop) (m : SyncWorld.E R (result A A)) : Prop :=
  post (λ r, match r with Err a => S a | Ok a => S a end) m.

Lemma post_bind {A B} (Q : B → Prop) (m : SyncWorld.E R A) f : (∀ a, post Q (f a)) → post Q (bindE m f).
Proof. intros Hf g. unfold bindE. destruct (m g). apply Hf. Qed.
Lemma post_run {A} (S : A → Prop) m : ends S m → post S (runR m).
Proof.
  intros Hm g. specialize (Hm g). unfold runR, bindE. destruct (m g) as [[a|a] g1]; exact Hm.
Qed.
Lemma errs_bindR {Er A B} (S : Er → Prop) (m : SyncWorld.E R (result Er A))
    (f : A → SyncWorld.E R (result Er B)) :
  errs S m → (∀ a, errs S (f a)) → errs S (bindR m f).
Proof.
  intros Hm Hf g. specialize (Hm g). unfold bindR, bindE. destruct (m g) as [[a|e] g1]; [apply Hf|exact Hm].
Qed.
Lemma ends_bindR {A B} (S : A → Prop) (m : SyncWorld.E R (result A B)) (f : B → SyncWorld.E R (result A A)) :
  errs S m → (∀ a, ends S (f a)) → ends S (bindR m f).
Proof.
  intros Hm Hf g. specialize (Hm g). unfold bindR, bindE. destruct (m g) as [[a|e] g1]; [apply Hf|exact Hm].
Qed.
Lemma errs_bind {Er A B} (S : Er → Prop) (m : SyncWorld.E R A) (f : A → SyncWorld.E R (result Er B)) :
  (∀ a, errs S (f a)) → errs S (bindE m f).
Proof. apply post_bind. Qed.
Lemma errs_orReturn {Er A} (S : Er → Prop) f (m : SyncWorld.E R (result error A)) :
  (∀ e, S (f e)) → errs S (orReturn f m).
Proof. intros Hf g. unfold orReturn, bindE. destruct (m g) as [[a|e] g1]; simpl; auto. Qed.
Lemma errs_lift {Er A} (S : Er → Prop) (m : SyncWorld.E R A) : errs S (liftE m).
Proof. intros g. unfold liftE, bindE. by destruct (m g). Qed.
Lemma errs_return {Er A} (S : Er → Prop) (m : SyncWorld.E R Er) :
  post S m → errs S (bindR (liftE m) (λ r, @errE R Er A r)).
Proof. intros Hm g. specialize (Hm g). unfold bindR, liftE, bindE. destruct (m g). exact Hm. Qed.
Lemma errs_returnIf {Er} (S : Er → Prop) b e : S e → errs S (@returnIf R Er b e).
Proof. intros Hs g. unfold returnIf, retE. simpl. by destruct b. Qed.
Lemma ends_lift {A} (S : A → Prop) (m : SyncWorld.E R A) : post S m → ends S (liftE m).
Proof. intros Hm g. specialize (Hm g). unfold liftE, bindE. destruct (m g). exact Hm. Qed.
End pending.

Definition about (op : uploadOp) (r : uploadResult) : Prop := ur_Op r = op.

Create HintDb answers discriminated.

Ltac inner_case :=
  match goal with
  | |- context [match ?x with _ => _ end] =>
      lazymatch x with context [match _ with _ => _ end] => fail | _ => destruct x end
  end.

Ltac answer_step :=
  lazymatch goal with
  | |- ∀ _, _ => intros
  | |- ?x = ?x => reflexivity
  | |- about _ (uwrite _ _ _) => unfold uwrite
  | |- about _ _ => first [exact eq_refl | inner_case]
  | |- post _ (runR _) => apply post_run
  | |- post _ (retE _) => intros ?; simpl
  | |- post _ (bindE _ _) => apply post_bind
  | |- ends _ (bindR _ _) => apply ends_bindR
  | |- ends _ (liftE _) => apply ends_lift
  | |- ends _ (okE _) => intros ?; simpl
  | |- ends _ (errE _) => intros ?; simpl
  | |- errs _ (bindR (liftE _) (λ r, errE r)) => apply errs_return
  | |- errs _ (bindR _ _) => apply errs_bindR
  | |- errs _ (bindE _ _) => apply errs_bind
  | |- errs _ (retE _) => intros ?; simpl
  | |- errs _ (orReturn _ _) => apply errs_orReturn
  | |- errs _ (liftE _) => apply errs_lift
  | |- errs _ (returnIf _ _) => apply errs_returnIf
  | |- errs _ (okE _) => intros ?; exact I
  | |- errs _ (errE _) => intros ?; simpl
  | |- True => exact I
  | |- _ => first [inner_case | solve [eauto 2 with answers nocore]]
  end.
Ltac answer := repeat answer_step.

Section answers.
Context {H : Hashing} {R : Type} {RC : RemoteClient R} {cfg : @SyncCfg R}.

Lemma about_queuedFileCurrent op : errs (R := R) (about op) (queuedFileCurrent op).
Proof. unfold queuedFileCurrent. answer. Qed.
Lemma about_statOpt op s p : errs (R := R) (about op) (statOpt op s p).
Proof. unfold statOpt. answer. Qed.
Lemma about_finish ctx op p mode : post (R := R) (about op) (finishFileUpload ctx op p mode).
Proof. unfold finishFileUpload. answer. Qed.
#[local] Hint Resolve about_queuedFileCurrent about_statOpt about_finish : answers.
Lemma about_matching op p mode : post (R := R) (about op) (finishMatchingFileUpload op p mode).
Proof. unfold finishMatchingFileUpload. answer. Qed.
Lemma about_readDirty op l acc : errs (R := R) (about op) (readDirty op l acc).
Proof. revert acc. induction l; intros; simpl; answer; apply IHl. Qed.
#[local] Hint Resolve about_matching about_readDirty : answers.
Lemma about_processUpload op : post (R := R) (about op) (processUpload op).
Proof.
  unfold processUpload, processUploadFile, uploadWholeFile, processChunkedUpload, processUploadSymlink,
    processUploadMkdir, processUploadDelete, processUploadRename, processUploadChmod.
  answer.
Qed.
End answers.

(** * Turns *)

Section turns.
Context {H : Hashing} {R : Type} {RC : RemoteClient R} {cfg : @SyncCfg R}.
Implicit Types g : eng R.
Context (unless : Prop).
Local Abbreviation kept := (kept unless).
Local Abbreviation held := (held unless).

Lemma kept_ext p f f' g g' :
  (∀ q, load (f ++ on_the_way g) q = load (f' ++ on_the_way g') q) →
  g_pending g' = g_pending g → g_sweep g' = g_sweep g → g_delayed g' = g_delayed g →
  kept p f g → kept p f' g'.
Proof.
  intros Hl Hp Hs Hd. unfold kept, counts, remembered, flagged, delayed_untracked. rewrite Hp, Hs, Hd.
  intros (Hc & Hr). split; [|done]. intros q. specialize (Hc q). by rewrite <- Hl.
Qed.

Lemma kept_uploader p :
  (∀ f, Stable (kept p f)) → pres (kept p []) (takeTurn TUploader).
Proof.
  intros Hst g Hk. simpl. destruct (g_uploads g) as [|op ops] eqn:Eo; [done|].
  destruct (_ && _); [|done].
  assert (kept p [op] (set_uploads ops g)) as Hk1.
  { apply (kept_ext p [] [op] g); [|done..]. intros q. unfold on_the_way. by rewrite Eo. }
  pose proof (p_processUpload (kept p [op]) op _ Hk1) as Hk2.
  pose proof (about_processUpload op (set_uploads ops g)) as Hop.
  destruct (processUpload op (set_uploads ops g)) as [r g1]. unfold about in Hop. simpl in *.
  apply (kept_ext p [op] [] g1); [|done..]. intros q. unfold on_the_way. simpl.
  rewrite map_app, !load_app. simpl. rewrite Hop. lia.
Qed.

Lemma kept_uploadResult p :
  (∀ f, Stable (kept p f)) → pres (kept p []) (takeTurn TUploadResult).
Proof.
  intros Hst g Hk. simpl. destruct (g_uploadRes g) as [|r rs] eqn:Er; [done|].
  set (op := ur_Op r).
  assert (kept p [op] (set_uploadRes rs g)) as Hk1.
  { apply (kept_ext p [] [op] g); [|done..]. intros q. unfold on_the_way. simpl.
    rewrite Er, !load_app. simpl. unfold op. lia. }
  pose proof (p_uploadResultBody (kept p [op]) r _ Hk1) as Hk2.
  unfold handleUploadResult. unfold bindE at 1.
  destruct (uploadResultBody r (set_uploadRes rs g)) as [[] g1]. fold op. simpl in Hk2.
  assert (uo_Tracked op = true → held p (λ x, load (on_the_way g1) x + holds_path (setTracked op) x) g1) as Hh.
  { intros Ht. eapply held_ext; [|exact Hk2]. intros x. simpl. rewrite holds_same by done. lia. }
  assert (∀ q, 0 ≤ load (on_the_way g1) q) as Hpos by (intros; apply load_pos).
  destruct (uo_Tracked op) eqn:Et.
  - specialize (Hh eq_refl). destruct (isRename op) eqn:En.
    + apply held_release' in Hh; [|done..]. unfold bindE.
      pose proof (finish_way (uo_PrevPath op) g1) as E1.
      destruct (finishPendingUpload (uo_PrevPath op) g1) as [[] g2]. simpl in *.
      pose proof (finish_way (uo_Path op) g2) as E2. unfold kept. simpl. by rewrite E2, E1.
    + apply held_release in Hh; [|done]. unfold finishTracked in Hh. rewrite En in Hh.
      unfold bindE in *. simpl in *. pose proof (finish_way (uo_Path op) g1) as E1.
      destruct (finishPendingUpload (uo_Path op) g1) as [[] g2]. simpl in *. unfold kept. simpl. by rewrite E1.
  - apply (kept_ext p [op] [] g1); [|done..]. intros q. simpl. unfold holds_path. rewrite Et. lia.
Qed.

Lemma turns_kept p : (∀ f m g, kept p f g → kept p f (app m g)) → Turns (kept p []).
Proof.
  intros Happ. assert (∀ f, Stable (kept p f)) as Hst by (intros f; apply stable_kept, Happ).
  split; try done.
  - intros n. apply p_onConnected; [done|]. intros id g Hk. exact Hk.
  - by apply kept_uploader.
  - by apply kept_uploadResult.
Qed.

End turns.

Section deferred.
Context {H : Hashing} {R : Type} {RC : RemoteClient R} {cfg : @SyncCfg R}.
Implicit Types g : eng R.
Context (p : string) (Happ : ∀ W f m g, kept W p f g → kept W p f (app m g)).

(** The counters are right after any turns, recovery passes included. *)
Lemma turns_count ts g : kept True p [] g → kept True p [] (snd (takeTurns ts g)).
Proof using Happ.
  intros Hk. assert (Stable (kept True p [])) as Hst by (apply stable_kept, Happ).
  assert (Turns (kept True p [])) as Ht by (apply turns_kept, Happ).
  apply (p_takeTurns (kept True p []) ts); [|done].
  intros t _ _ g' (Hc & _ & Hd). split_and!; [done|by left|done].
Qed.

(** One turn forgets a deferred scan only by starting the pass that repeats it. *)
Lemma turn_remembers t g : kept False p [] g →
  kept False p [] (snd (takeTurn t g)) ∨ is_recover t = true ∧ g_sweep g = true ∧ ¬ flagged p g.
Proof using Happ.
  intros Hk. assert (Stable (kept False p [])) as Hst by (apply stable_kept, Happ).
  assert (Turns (kept False p [])) as Ht by (apply turns_kept, Happ).
  destruct (is_recover t) eqn:Et.
  2: { left. apply (p_takeTurn (kept False p []) t); [by rewrite Et|done]. }
  destruct t; try discriminate Et. cbn [takeTurn]. destruct (g_sweep g) eqn:Es; [|by left].
  assert (flagged p g ∨ ¬ flagged p g) as [Hf|]; [|left|by right].
  { unfold flagged. destruct (g_pending g !! p) as [pu|]; [|by right; intros (? & ? & _)].
    destruct (p_rescan pu) eqn:Ec; [left; by exists pu|right; intros (? & ? & ?); congruence]. }
  cbn [snd]. apply (p_warmStart (kept False p [])). destruct Hk as (Hc & _ & Hd). split_and!; [done|by right; right|done].
Qed.

Lemma turns_remember ts g : kept False p [] g →
  let g' := snd (takeTurns ts g) in
  flagged p g' ∨ g_sweep g' = true ∨
  ∃ ts1 c ts2, ts = ts1 ++ TRecover c :: ts2 ∧
    let g1 := snd (takeTurns ts1 g) in g_sweep g1 = true ∧ ¬ flagged p g1.
Proof using Happ.
  revert g. induction ts as [|t ts IH]; intros g Hk; cbn [takeTurns].
  { destruct Hk as (_ & [[]|[?|?]] & _); simpl; auto. }
  unfold bindE. destruct (turn_remembers t g Hk) as [Hk1|(Et & Hs & Hf)].
  - destruct (takeTurn t g) as [[] g1] eqn:E. simpl in Hk1. destruct (IH g1 Hk1) as [?|[?|(ts1 & c & ts2 & -> & H1)]]; [auto..|].
    right; right. exists (t :: ts1), c, ts2. split; [done|]. cbn [takeTurns]. unfold bindE. rewrite E. exact H1.
  - destruct t; try discriminate Et. right; right. by exists [], c, ts.
Qed.

(** C31: a scan that skips a path is not lost.  A counter of pending uploads is
    the number of tracked operations that hold the path, in the channel or among
    the results, also when channels overflow, renames hold two paths, operations
    fail and recovery passes run; and once a scan had to skip a path, then after any
    turns the path is still flagged, which it can only be while an operation holds it,
    or a full sweep is requested, or the request has been taken by a recovery pass that
    started when the path was not flagged any more. *)
Theorem deferred_scan_not_lost (ts : list turn) (g : eng R)
    (Hcounts : counts (load (on_the_way g)) g) (Hdel : delayed_untracked g)
    (Hskip : fst (deferScanForPendingUpload p g) = true) :
  let g0 := snd (deferScanForPendingUpload p g) in
  let g' := snd (takeTurns ts g0) in
  counts (load (on_the_way g')) g' ∧
  (load (on_the_way g') p = 0 → ¬ flagged p g') ∧
  (flagged p g' ∨ g_sweep g' = true ∨
   ∃ ts1 c ts2, ts = ts1 ++ TRecover c :: ts2 ∧
     let g1 := snd (takeTurns ts1 g0) in g_sweep g1 = true ∧ ¬ flagged p g1).
Proof using Happ.
  intros g0 g'. assert (kept False p [] g0) as Hk.
  { unfold g0, deferScanForPendingUpload in *. destruct (g_pending g !! p) as [c|] eqn:Ep; [|done]. simpl.
    split_and!; [| |done].
    - intros q. specialize (Hcounts q). simpl. destruct (decide (q = p)) as [->|Hne].
      + rewrite lookup_insert_eq. by rewrite Ep in Hcounts.
      + by rewrite lookup_insert_ne.
    - right; right. unfold flagged. simpl. rewrite lookup_insert_eq. by eexists. }
  assert (counts (load (on_the_way g')) g') as Hc.
  { apply (turns_count ts g0). destruct Hk as (? & _ & ?). split_and!; [done|by left|done]. }
  split; [done|]. split; [|by apply turns_remember].
  intros Hz (c & Hp & _). specialize (Hc p). rewrite Hp in Hc. lia.
Qed.
End deferred.

(** An upload of ["a"] on its way when ["a"] is scanned, and the pass that follows. *)
Lemma deferred_scan_not_lost_witness :
  let cfg := sample_cfg false in
  let op := upOp opUploadFile "a" "" (string_bytes "hello") 420 "" "hello" "" 5 zeroEntry false 0 0 in
  let g := snd (enqueueTrackedUpload op (set_sweep false sample_start)) in
  let g0 := snd (deferScanForPendingUpload "a" g) in
  let ts := [TUploader; TUploadResult; TRecover sample_pass] in
  let g' := snd (takeTurns ts g0) in
  counts (load (on_the_way g')) g' ∧
  (load (on_the_way g') "a" = 0 → ¬ flagged "a" g') ∧
  (flagged "a" g' ∨ g_sweep g' = true ∨
   ∃ ts1 c ts2, ts = ts1 ++ TRecover c :: ts2 ∧
     let g1 := snd (takeTurns ts1 g0) in g_sweep g1 = true ∧ ¬ flagged "a" g1).
Proof.
  intros cfg op g. apply (deferred_scan_not_lost (cfg := cfg) "a"); [done| | |done].
  - assert (kept True "a" [] (snd (enqueueTrackedUpload op sample_start))) as Hk.
    { apply kept_tracked. split_and!; [done|by left|]. intros d Hd. by apply not_elem_of_nil in Hd. }
    intros q. pose proof (proj1 Hk q) as Hq. exact Hq.
  - intros d Hd. by apply not_elem_of_nil in Hd.
Defined.

(** Before the pass the flag has become a request. *)
Example deferred_becomes_request :
  let cfg := sample_cfg false in
  let op := upOp opUploadFile "a" "" (string_bytes "hello") 420 "" "hello" "" 5 zeroEntry false 0 0 in
  let g := snd (enqueueTrackedUpload op (set_sweep false sample_start)) in
  let g0 := snd (deferScanForPendingUpload "a" g) in
  g_sweep g0 = false ∧ g_sweep (snd (takeTurns [TUploader; TUploadResult] g0)) = true.
Proof. by vm_compute. Qed.
