(* ===== verification/SyncKeep.v ===== *)
(** What the downloader does not destroy: a download leaves every file whose bytes no
    baseline records as synchronised where it is or moves it to a conflict copy,
    whatever the application and other workers do between its steps, except after
    its last look at a path (C32). *)
From S2P Require Import Prelude Content Paths FsClient SyncState SyncChunks SyncWorld SyncTree SyncPlan.
From S2P Require Import SyncDown SyncUp SyncEvent SyncExec SyncRun SyncSample SyncInv SyncProps.
#[local] Open Scope string_scope.
#[local] Open Scope list_scope.
#[local] Open Scope Z_scope.

(** * Programs that only look *)

Section still.
Context {R : Type}.
#[local] Notation E := (SyncWorld.E R).

Definition still {A} (m : E A) : Prop := ∀ g, snd (m g) = g.

Lemma still_ret {A} (a : A) : still (retE a).
Proof. done. Qed.
Lemma still_get {A} (f : eng R → A) : still (getE f).
Proof. done. Qed.
Lemma still_bind {A B} (m : E A) (f : A → E B) : still m → (∀ a, still (f a)) → still (bindE m f).
Proof. intros Hm Hf g. unfold bindE. specialize (Hm g). destruct (m g) as [a g1]. simpl in Hm. subst. apply Hf. Qed.
Lemma still_bindR {Er A B} (m : E (result Er A)) (f : A → E (result Er B)) :
  still m → (∀ a, still (f a)) → still (bindR m f).
Proof. intros. apply still_bind; [done|]. intros [a|e]; [auto|done]. Qed.
Lemma still_orReturn {Er A} (f : error → Er) (m : E (result error A)) : still m → still (orReturn f m).
Proof. intros. by apply still_bind. Qed.
Lemma still_lift {Er A} (m : E A) : still m → still (liftE (Er := Er) m).
Proof. intros. by apply still_bind. Qed.
Lemma still_returnIf {Er} b (e : Er) : still (returnIf b e).
Proof. done. Qed.
Lemma still_ok {Er A} (a : A) : still (okE (Er := Er) a).
Proof. done. Qed.
Lemma still_err {Er A} (e : Er) : still (errE (A := A) e).
Proof. done. Qed.
Lemma still_pres {A} (P : eng R → Prop) (m : E A) : still m → pres P m.
Proof. intros Hm g. by rewrite Hm. Qed.
End still.

Create HintDb still discriminated.

Ltac still_step :=
  lazymatch goal with
  | |- ∀ _, _ => intros
  | |- still (retE _) => apply still_ret
  | |- still (okE _) => apply still_ok
  | |- still (errE _) => apply still_err
  | |- still (getE _) => apply still_get
  | |- still (returnIf _ _) => apply still_returnIf
  | |- still (bindE _ _) => apply still_bind
  | |- still (bindR _ _) => apply still_bindR
  | |- still (orReturn _ _) => apply still_orReturn
  | |- still (liftE _) => apply still_lift
  | |- still (match ?x with _ => _ end) => destruct x
  | |- still _ => first [solve [eauto 3 with still nocore] | progress (cbv zeta)]
  end.
Ltac still := repeat still_step.

(** Steps of a program, where [A] is to hold at its end. *)
Section steps.
Context {R : Type} (A : eng R → Prop).
#[local] Notation E := (SyncWorld.E R).

Lemma step_still {Er B C} (m : E (result Er B)) (f : B → E (result Er C)) g :
  still m → A g → (∀ a, fst (m g) = Ok a → A (snd (f a g))) → A (snd (bindR m f g)).
Proof.
  intros Hm Hg Hf. unfold bindR, bindE. specialize (Hm g). destruct (m g) as [[a|e] g1]; simpl in *; subst; auto.
Qed.
Lemma step_look {B C} (m : E B) (f : B → E C) g : still m → A (snd (f (fst (m g)) g)) → A (snd (bindE m f g)).
Proof. intros Hm Hf. unfold bindE. specialize (Hm g). destruct (m g) as [a g1]; simpl in *; by subst. Qed.
Lemma step_keep (P : eng R → Prop) {Er B C} (m : E (result Er B)) (f : B → E (result Er C)) g :
  pres P m → P g → (∀ g, P g → A g) → (∀ a g', P g' → A (snd (f a g'))) → A (snd (bindR m f g)).
Proof.
  intros Hm Hg HA Hf. unfold bindR, bindE. specialize (Hm g Hg). destruct (m g) as [[a|e] g1]; simpl in *; auto.
Qed.
Lemma step_value (P : eng R → Prop) {Er B C} (m : E (result Er B)) (f : B → E (result Er C)) g :
  pres P m → P g → (∀ g, P g → A g) →
  (∀ a g', P g' → fst (m g) = Ok a → A (snd (f a g'))) → A (snd (bindR m f g)).
Proof.
  intros Hm Hg HA Hf. unfold bindR, bindE. specialize (Hm g Hg). destruct (m g) as [[a|e] g1]; simpl in *; auto.
Qed.
Lemma still_ok_inv {Er B C} (m : E (result Er B)) (f : B → E (result Er C)) g c :
  still m → fst (bindR m f g) = Ok c → ∃ b, fst (m g) = Ok b ∧ fst (f b g) = Ok c.
Proof.
  intros Hm. unfold bindR, bindE. specialize (Hm g). destruct (m g) as [[b|e] g1]; simpl in *; [|done].
  subst. eauto.
Qed.
Lemma step_then {Er B C} (m : E (result Er B)) (f : B → E (result Er C)) g :
  A (snd (m g)) → (∀ a, pres A (f a)) → A (snd (bindR m f g)).
Proof. intros Hm Hf. unfold bindR, bindE. destruct (m g) as [[a|e] g1]; simpl in *; [by apply Hf|done]. Qed.
Lemma step_run {B} (m : E (result B B)) g : A (snd (m g)) → A (snd (runR m g)).
Proof. unfold runR, bindE. by destruct (m g). Qed.
Lemma step_lift {Er B} (m : E B) g : A (snd (m g)) → A (snd (liftE (Er := Er) m g)).
Proof. unfold liftE, bindE. by destruct (m g). Qed.
Lemma step_pres {B} (m : E B) g : pres A m → A g → A (snd (m g)).
Proof. intros Hm. apply Hm. Qed.
End steps.

Lemma orReturn_ok {R Er A} (f : error → Er) (m : SyncWorld.E R (result error A)) g a :
  fst (orReturn f m g) = Ok a → fst (m g) = Ok a.
Proof. unfold orReturn, bindE. destruct (m g) as [[x|e] g1]; simpl; congruence. Qed.
Lemma lift_ok {R Er A} (m : SyncWorld.E R A) g a : fst (liftE (Er := Er) m g) = Ok a → fst (m g) = a.
Proof. unfold liftE, bindE. destruct (m g). simpl. unfold okE, retE. simpl. congruence. Qed.
Lemma returnIf_ok {R Er} b (e : Er) g a : fst (returnIf (R := R) b e g) = Ok a → b = false.
Proof. unfold returnIf, retE. by destruct b. Qed.

(** * What survives *)

#[local] Notation "x ⇐ y ; z" := (bindR y (λ x, z))
  (at level 20, y at level 100, z at level 200, only parsing) : sync_scope.
#[local] Open Scope sync_scope.

Section keep.
Context {H : Hashing} {R : Type} {RC : RemoteClient R} {cfg : @SyncCfg R}.
#[local] Notation E := (SyncWorld.E R).
Implicit Types g : eng R.

(** The entry records the bytes [d] as what both sides had. *)
Definition synced (e : SyncEntry) (d : bytes) : Prop :=
  e_LocalHash e ≠ "" ∧
  (sha256Hex d = e_LocalHash e ∨
   0 < e_ChunkSize e ∧ compositeHash (fst (streamChunkHashes d (e_ChunkSize e))) = e_LocalHash e).

Definition unrecorded (d : bytes) (g : eng R) : Prop :=
  ∀ q e, entries_of g !! q = Some e → ¬ synced e d.

(** What the download itself does to the tree: every file with the bytes [d] stays, or
    [p] is moved, with what is below it, to the name of a conflict copy, where all of it
    is if that name was free. *)
Definition spares (d : bytes) (p : string) (t t' : ltree) : Prop :=
  stay d t t' ∨
  ∃ c, (∃ ts n, c = conflictName p ts n) ∧ t_move t p c = Ok t' ∧
    (vacant c t → ∀ q, file_at d q t → file_at d (move_key p c q) t').

(** Below [p] there is something only if [p] is there. *)
Definition rooted_at (p : string) (t : ltree) : Prop := ∀ q, under p q = true → is_Some (t !! q) → is_Some (t !! p).

(** What the others may do: they keep the mount root and the shape of the tree, do not
    record the bytes as synchronised, whoever changes a file changes its inode, mode,
    size or modification time, and nobody puts the bytes at [p] or below it between the
    last look and the change. *)
Record neighbours (Rely : relation ltree) (d : bytes) (p : string) : Prop := {
  nb_pre :: PreOrder Rely;
  nb_rely m g : Rely (g_tree g) (g_tree (app m g));
  nb_honest t t' q i i' : Rely t t' → t !! q = Some i → t' !! q = Some i' →
    sameInfo (info_of i) (info_of i') = true → i_node i = i_node i';
  nb_unrecorded m g : unrecorded d g → unrecorded d (app m g);
  nb_root m g : is_Some (g_root g) → is_Some (g_root (app m g));
  nb_tree m g : rooted_at p (g_tree g) → rooted_at p (g_tree (app m g));
  nb_closing g q : q = p ∨ under p q = true → clear d q (g_tree g) → clear d q (g_tree (app Closing g))
}.

Context (Rely : relation ltree) (d : bytes) (p : string) (Hnb : neighbours Rely d p) (t0 : ltree).

(** The tree has come from [t0] by steps of the others and steps that spare the bytes,
    and no baseline knows them. *)
Definition alive (g : eng R) : Prop :=
  rtc (λ t t', Rely t t' ∨ spares d p t t') t0 (g_tree g) ∧ unrecorded d g ∧ is_Some (g_root g).
Definition at_risk (g : eng R) : Prop := alive g ∧ rooted_at p (g_tree g).
#[local] Notation A := alive.
#[local] Notation I := at_risk.

(** Since the tree was [t]. *)
Definition since (t : ltree) (g : eng R) : Prop := I g ∧ Rely t (g_tree g).

(** ** Programs that leave the tree to the others *)

Class Quiet (P : eng R → Prop) := {
  qt_app m g : P g → P (app m g);
  qt_remote x g : P g → P (set_remote x g);
  qt_echo x g : P g → P (set_echo x g)
}.

#[local] Instance quiet_alive : Quiet A.
Proof.
  split; [|done|done]. intros m g (Ht & Hu & Hr). split_and!; [|by apply (nb_unrecorded _ _ _ Hnb)|by apply (nb_root _ _ _ Hnb)].
  eapply rtc_r; [exact Ht|]. left. apply (nb_rely _ _ _ Hnb).
Qed.
#[local] Instance quiet_risk : Quiet I.
Proof.
  split; [|done|done]. intros m g [Ha Hn]. split; [by apply quiet_alive|by apply (nb_tree _ _ _ Hnb)].
Qed.
#[local] Instance quiet_since t : Quiet (since t).
Proof.
  split; [|done|done]. intros m g [Hi Hr]. split; [by apply quiet_risk|].
  pose proof (nb_pre _ _ _ Hnb). etrans; [done|]. apply (nb_rely _ _ _ Hnb).
Qed.

Lemma since_now g : I g → since (g_tree g) g.
Proof. intros. pose proof (nb_pre _ _ _ Hnb). by split. Qed.

Section quiet.
Context (P : eng R → Prop) `{!Quiet P}.
Lemma quiet_call {B} (f : R → result error B * R) : pres P (remote f).
Proof.
  intros g Hg. unfold remote. destruct (f (g_remote (app Waiting g))). by apply qt_remote, qt_app.
Qed.
Lemma quiet_others {Er} m : pres P (liftE (Er := Er) (modE (app m))).
Proof. apply pres_lift, pres_mod. intros g. apply qt_app. Qed.
Lemma quiet_flush : pres P invalidateCache.
Proof. apply pres_mod. intros g. apply qt_remote. Qed.
Lemma quiet_echoSet q x : pres P (echoSet q x).
Proof. apply pres_mod. intros g. apply qt_echo. Qed.
End quiet.

Lemma still_Lstat q : still (R := R) (Lstat q).
Proof. apply still_get. Qed.
Lemma still_ReadFile q : still (R := R) (ReadFile q).
Proof. apply still_get. Qed.
Lemma still_ReadLink q : still (R := R) (ReadLink q).
Proof. apply still_get. Qed.
Lemma still_checkLocalRoot : still (R := R) checkLocalRoot.
Proof. apply still_get. Qed.
Lemma still_ctxErr : still (R := R) ctxErr.
Proof. apply still_get. Qed.
Lemma still_storedAt q : still (R := R) (storedAt q).
Proof. apply still_get. Qed.
#[local] Hint Resolve still_Lstat still_ReadFile still_ReadLink still_checkLocalRoot still_ctxErr
  still_storedAt : still.
Lemma still_LstatOpt q : still (R := R) (LstatOpt q).
Proof. unfold LstatOpt. still. Qed.
Lemma still_downloaderRoot : still (R := R) downloaderRoot.
Proof. unfold downloaderRoot. still. Qed.
#[local] Hint Resolve still_LstatOpt still_downloaderRoot : still.
Lemma still_cancelled : still (R := R) cancelled.
Proof. unfold cancelled. still. Qed.
Lemma still_snapshot q e : still (R := R) (snapshotDownloadLocal q e).
Proof. unfold snapshotDownloadLocal. still. Qed.
Lemma still_unchanged i q : still (R := R) (unchanged i q).
Proof. unfold unchanged. still. Qed.
#[local] Hint Resolve still_cancelled still_snapshot still_unchanged : still.
Lemma still_sendFileResult op s h c m n : still (R := R) (sendFileResult op s h c m n).
Proof. unfold sendFileResult. still. Qed.
Lemma still_patchedBytes op chunks : still (R := R) (patchedBytes op chunks).
Proof. unfold patchedBytes. still. Qed.
#[local] Hint Resolve still_sendFileResult still_patchedBytes : still.

(** ** Snapshots *)

Definition snapshot_of (e : SyncEntry) (i : linode) : downloadLocalSnapshot :=
  match i_node i with
  | NFile data =>
      {| sn_info := Some (info_of i); sn_hash := sha256Hex data;
         sn_baselineHash := if 0 <? e_ChunkSize e
           then compositeHash (fst (streamChunkHashes data (e_ChunkSize e))) else sha256Hex data;
         sn_target := "" |}
  | NDir => {| sn_info := Some (info_of i); sn_hash := ""; sn_baselineHash := ""; sn_target := "" |}
  | NLink t => {| sn_info := Some (info_of i); sn_hash := ""; sn_baselineHash := ""; sn_target := t |}
  end.

Lemma snapshot_some q e g i :
  is_Some (g_root g) → g_tree g !! q = Some i → fst (snapshotDownloadLocal q e g) = Ok (snapshot_of e i).
Proof.
  intros [id Hr] Hi. unfold snapshotDownloadLocal, bindE, Lstat, ReadFile, ReadLink, on_tree, getE, retE,
    t_lstat, t_readfile, t_readlink, snapshot_of. rewrite Hr, Hi.
  assert (∀ a b : fkind, a ≠ b → bool_decide (a = b) = false) as Hne by (intros; by apply bool_decide_false).
  destruct i as [[ | | ] ? ? ?]; unfold is_symlink, is_regular; simpl;
    rewrite ?Hne, ?bool_decide_true by done; by rewrite ?Hr, ?Hi.
Qed.

Lemma snapshot_none q e g s :
  is_Some (g_root g) → g_tree g !! q = None → fst (snapshotDownloadLocal q e g) = Ok s → sn_info s = None.
Proof.
  intros [id Hr] Hi. unfold snapshotDownloadLocal, bindE, Lstat, on_tree, getE, retE, t_lstat.
  rewrite Hr, Hi. destruct (IsNotExist _); [|done]. by intros [= <-].
Qed.

Lemma Lstat_some q g i : is_Some (g_root g) → g_tree g !! q = Some i → Lstat q g = (Ok (info_of i), g).
Proof. intros [id Hr] Hi. unfold Lstat, on_tree, getE, t_lstat. by rewrite Hr, Hi. Qed.

(** A snapshot that matches an entry that does not record the bytes is not of a
    file with them. *)
Lemma snapshot_clear q e has s g :
  is_Some (g_root g) → ¬ synced e d → fst (snapshotDownloadLocal q e g) = Ok s →
  matchesStored s e has = true → clear d q (g_tree g).
Proof.
  intros Hroot Hns Hs Hm i Hi Hd. apply Hns. rewrite (snapshot_some q e g i Hroot Hi) in Hs.
  injection Hs as <-. unfold snapshot_of, matchesStored in Hm. rewrite Hd in Hm. simpl in Hm.
  destruct (_ || e_Deleted e); [done|].
  rewrite (proj2 (info_kind i)), !andb_true_iff, orb_true_iff, negb_true_iff, bool_decide_eq_false in Hm by eauto.
  destruct Hm as [[[[_ _] _] Hne] Hh]. split; [done|]. rewrite !bool_decide_eq_true in Hh.
  destruct Hh as [Hh|Hh]; [by left|]. destruct (0 <? e_ChunkSize e) eqn:Ec; [right|by left].
  split; [by apply Z.ltb_lt|done].
Qed.

Lemma snapshot_info q e g s :
  is_Some (g_root g) → fst (snapshotDownloadLocal q e g) = Ok s → sn_info s = info_of <$> g_tree g !! q.
Proof.
  intros Hr Hs. destruct (g_tree g !! q) as [i|] eqn:E; [|by eapply snapshot_none].
  rewrite (snapshot_some q e g i Hr E) in Hs. injection Hs as <-. unfold snapshot_of. by destruct (i_node i).
Qed.

Lemma LstatOpt_info q g x :
  is_Some (g_root g) → fst (LstatOpt q g) = Ok x → x = info_of <$> g_tree g !! q.
Proof.
  intros [id Hr]. unfold LstatOpt, bindE, Lstat, on_tree, getE, t_lstat, retE. rewrite Hr.
  destruct (g_tree g !! q) as [i|]; simpl; [by intros [= <-]|]. destruct (IsNotExist _); [by intros [= <-]|done].
Qed.

(** An unchanged path is still not that file. *)
Lemma unchanged_clear info g0 g :
  is_Some (g_root g) → Rely (g_tree g0) (g_tree g) → info = info_of <$> g_tree g0 !! p →
  fst (unchanged info p g) = true → clear d p (g_tree g0) → clear d p (g_tree g).
Proof.
  intros Hr HR -> Hu Hc i Hi Hd. unfold unchanged, bindE in Hu.
  rewrite (Lstat_some p g i Hr Hi) in Hu. simpl in Hu.
  destruct (g_tree g0 !! p) as [j|] eqn:Ej; [|done]. simpl in Hu.
  apply (Hc j Ej). rewrite <- Hd. by eapply (nb_honest _ _ _ Hnb).
Qed.

(** ** The destructive steps *)

Lemma alive_tree t' g : A g → spares d p (g_tree g) t' → A (set_tree t' g).
Proof. intros (Ht & Hu & Hr) Hs. split_and!; [|done|done]. eapply rtc_r; [exact Ht|by right]. Qed.

Lemma alive_root g : A g → is_Some (g_root g).
Proof. by intros (_ & _ & ?). Qed.

Lemma risk_alive g : I g → A g.
Proof. by intros [? _]. Qed.
Lemma since_alive t g : since t g → A g.
Proof. by intros [[? _] _]. Qed.
#[local] Hint Resolve risk_alive since_alive alive_root : core.

Lemma conflict_length ts n : (String.length p < String.length (conflictName p ts n))%nat.
Proof. unfold conflictName. rewrite !length_sapp. simpl. lia. Qed.

Lemma alive_MkdirAll dirs : pres A (MkdirAll dirs).
Proof.
  intros g Hg. unfold MkdirAll. destruct (g_root g) eqn:Er; [|done].
  destruct (t_mkdirs _ _ _ _) as [[t' ino]|] eqn:E; [|done]. apply (alive_tree t' g Hg). left. by eapply stay_mkdirs.
Qed.

Lemma risk_MkdirAllDir g :
  I g → I (snd (MkdirAllDir p g)) ∧ (clear d p (g_tree g) → clear d p (g_tree (snd (MkdirAllDir p g)))).
Proof.
  intros [Ha Hn]. pose proof (alive_MkdirAll (ancestors p) g Ha) as Ha'. unfold MkdirAllDir, MkdirAll in *.
  destruct (g_root g) eqn:Er; [|done]. destruct (t_mkdirs _ _ _ _) as [[t' ino]|] eqn:E; [|done].
  simpl in *. split; [split; [done|]|by eapply clear_mkdirs].
  apply t_mkdirs_lookup in E as [Hto Hfrom]. intros q Hq [i [Hi|[Hin _]]%Hfrom].
  - destruct (Hn q Hq) as [j Hj]; [by eexists|]. exists j. by apply Hto.
  - apply ancestors_length in Hin. apply under_length in Hq. lia.
Qed.

Lemma alive_edit f g :
  A g → (∀ t', f (g_tree g) = Ok t' → spares d p (g_tree g) t') → A (snd (edit_tree f g)).
Proof.
  intros Ha Hf. unfold edit_tree, bindE, on_tree, getE. destruct (g_root g) eqn:Er; [|done].
  destruct (f (g_tree g)) as [t'|] eqn:E; [|done]. simpl. apply alive_tree; auto.
Qed.

Lemma alive_commit n perm g : A g → clear d p (g_tree g) → A (snd (commitStaged p n perm g)).
Proof.
  intros Ha Hc. unfold commitStaged. apply alive_edit; [done|]. intros t' Ht. left. by eapply stay_commit.
Qed.

Lemma alive_Remove g : A g → clear d p (g_tree g) → A (snd (Remove p g)).
Proof. intros Ha Hc. unfold Remove. apply alive_edit; [done|]. intros t' Ht. left. by eapply stay_remove. Qed.

Lemma alive_RemoveAll g :
  A g → (∀ q, q = p ∨ under p q = true → clear d q (g_tree g)) → A (snd (RemoveAll p g)).
Proof.
  intros Ha Hc. unfold RemoveAll. apply alive_edit; [done|]. intros t' [= <-]. left. by apply stay_remove_all.
Qed.

Lemma alive_Chmod q mode : pres A (ChmodLocal q mode).
Proof.
  intros g Ha. unfold ChmodLocal. apply alive_edit; [done|]. intros t'.
  destruct (g_tree g !! q) as [i|] eqn:E; [|done]. intros [= <-]. left.
  intros x (j & Hx & Hj). destruct (decide (x = q)) as [->|Hne].
  - rewrite E in Hx. injection Hx as ->. eexists. split; [apply lookup_insert_eq|done].
  - exists j. split; [|done]. apply lookup_insert_Some. by right.
Qed.

(** The conflict copy takes the file out of the way. *)
Lemma alive_move g :
  A g → A (snd (moveLocalToConflict p g)) ∧
        ∀ c, fst (moveLocalToConflict p g) = Ok c →
             clear d p (g_tree (snd (moveLocalToConflict p g))) ∧
             (c = "" → snd (moveLocalToConflict p g) = g ∧ g_tree g !! p = None).
Proof.
  intros Ha. unfold moveLocalToConflict, bindE. destruct (g_tree g !! p) as [i|] eqn:Ei.
  2:{ destruct (alive_root _ Ha) as [id Hr]. unfold Lstat, on_tree, getE, t_lstat, retE.
      rewrite Hr, Ei. simpl. split; [done|]. intros c. destruct (IsNotExist _); [intros [= <-]|done].
      split; [|done]. intros i Hi. congruence. }
  rewrite (Lstat_some p g i (alive_root _ Ha) Ei).
  unfold conflictPath. simpl. set (c := conflictName p (g_now g) (u64 (g_counter g + 1))).
  set (g1 := set_counter (u64 (g_counter g + 1)) g).
  assert (A (snd (MkdirAllDir c g1))) as Ha2 by (by apply alive_MkdirAll).
  destruct (MkdirAllDir c g1) as [[[]|e] g2]; [|by split]. simpl in Ha2.
  unfold RenameLocal, edit_tree, bindE, on_tree, getE. destruct (alive_root _ Ha2) as [id Hr2]. rewrite Hr2.
  destruct (t_move (g_tree g2) p c) as [t'|e] eqn:Em; [|by split]. simpl. split.
  - apply alive_tree; [done|]. right. exists c. split_and!; [by eexists _, _|done|]. intros Hv q. by apply move_keeps.
  - intros x [= <-]. split; [eapply clear_move; [done|apply conflict_length]|].
    unfold c. intros E%(f_equal String.length). pose proof (conflict_length (g_now g) (u64 (g_counter g + 1))).
    simpl in *. lia.
Qed.

(** ** The operations of the downloader *)

(** Either the file at [p] is not the one at risk, or it is moved aside. *)
Definition may_commit (conflict : bool) (g : eng R) : Prop :=
  I g ∧ (conflict = false → clear d p (g_tree g)).

Lemma may_commit_since info conflict g0 g :
  may_commit conflict g0 → since (g_tree g0) g → info = info_of <$> g_tree g0 !! p →
  fst (unchanged info p g) = true → may_commit conflict g.
Proof.
  intros [_ Hc] [Hi HR] Hinfo Hu. split; [done|]. intros Hcf.
  eapply unchanged_clear; eauto.
Qed.

(** After the last look nobody puts the bytes there. *)
Lemma closing_may {Er} conflict : pres (may_commit conflict) (liftE (Er := Er) (modE (app Closing))).
Proof.
  apply pres_lift, pres_mod. intros g [Hi Hc]. split; [by apply quiet_risk|]. intros Hf.
  apply (nb_closing _ _ _ Hnb); [by left|by apply Hc].
Qed.

Definition way_clear (g : eng R) : Prop := A g ∧ clear d p (g_tree g).

Lemma closing_clear {Er} : pres way_clear (liftE (Er := Er) (modE (app Closing))).
Proof.
  apply pres_lift, pres_mod. intros g [Ha Hc]. split; [by apply quiet_alive|]. apply (nb_closing _ _ _ Hnb); [by left|done].
Qed.

Lemma way_clear_alive g : way_clear g → A g.
Proof. by intros [? _]. Qed.
#[local] Hint Resolve way_clear_alive : core.

(** Move aside if asked to, then commit. *)
Lemma alive_replace conflict n perm (k : string → result error () → E (result error (string * option error))) g :
  may_commit conflict g → (∀ c r, still (k c r)) →
  A (snd ((cp ⇐ (if conflict then moveLocalToConflict p else okE "");
           _ ⇐ liftE (modE (app Closing));
           r ⇐ liftE (commitStaged p n perm);
           k cp r) g)).
Proof.
  intros [Hi Hc] Hk.
  assert (∀ c g', way_clear g' → A (snd ((_ ⇐ liftE (modE (app Closing)); r ⇐ liftE (commitStaged p n perm); k c r) g'))) as Hcommit.
  { intros c g' Hw. apply (step_keep A way_clear); [apply closing_clear|done|auto|intros _ g1 [Ha Hc1]].
    unfold bindR, liftE, bindE.
    pose proof (alive_commit n perm g1 Ha Hc1) as Ha'. destruct (commitStaged p n perm g1) as [r g2].
    simpl in *. by rewrite Hk. }
  destruct conflict.
  - destruct (alive_move g (risk_alive _ Hi)) as [Ha Hcp]. unfold bindR at 1. unfold bindE at 1.
    destruct (moveLocalToConflict p g) as [[c|e] g1]; simpl in *; [|done].
    apply Hcommit. split; [done|]. by destruct (Hcp c eq_refl).
  - apply (step_still A); [done|auto|]. intros c _. apply Hcommit. split; [auto|]. by apply Hc.
Qed.

Lemma alive_writeLocalFile op mode write confirm g :
  do_Path op = p → (∀ t, pres (since t) write) → (∀ t, pres (since t) confirm) →
  may_commit (do_Conflict op) g → A (snd (writeLocalFile op mode write confirm g)).
Proof.
  intros Hp Hw Hb [Hi Hc]. unfold writeLocalFile. rewrite Hp. unfold bindE at 1.
  match goal with |- A (snd (let '(a, g0) := ?m g in _)) => enough (A (snd (m g))) as Ha by (by destruct (m g)) end.
  apply (step_still A); [apply still_cancelled|auto|intros _ _].
  destruct (risk_MkdirAllDir g Hi) as [Hi1 Hc1]. unfold bindR at 1. unfold bindE at 1.
  destruct (MkdirAllDir p g) as [[[]|e] g1]; simpl in Hi1, Hc1; [|by apply risk_alive].
  assert (may_commit (do_Conflict op) g1) as Hm1 by (split; [done|auto]). clear Hi Hc Hc1 Hi1 g.
  assert (∀ c g, may_commit c g → A g) as Hma by (intros ? ? [? _]; auto).
  apply (step_still A); [apply still_ctxErr|eauto|intros _ _].
  apply (step_keep A (may_commit (do_Conflict op))); [apply closing_may|done|eauto|clear g1 Hm1; intros _ g1 Hm1].
  apply (step_still A); [apply still_LstatOpt|eauto|intros info Hinfo].
  apply LstatOpt_info in Hinfo; [|eauto].
  set (P := since (g_tree g1)). assert (∀ g, P g → A g) as HPA by apply since_alive.
  assert (∀ Er m, pres P (liftE (Er := Er) (modE (app m)))) as Hothers by (intros; apply quiet_others, _).
  apply (step_keep A P); [apply Hothers|apply since_now; apply Hm1|done|intros _ g2 H2].
  apply (step_keep A P); [apply Hw|done|done|clear g2 H2; intros data g2 H2].
  apply (step_keep A P); [apply Hothers|done|done|clear g2 H2; intros _ g2 H2].
  apply (step_still A); [apply still_cancelled|auto|intros _ _].
  apply (step_keep A P); [apply Hb|done|done|intros _ g3 H3].
  apply (step_still A); [apply still_lift, still_unchanged|auto|intros same Hs%lift_ok].
  apply (step_still A); [apply still_returnIf|auto|intros _ Hif%returnIf_ok].
  apply negb_false_iff in Hif. subst same.
  apply (step_keep A (may_commit (do_Conflict op))); [apply closing_may|by eapply may_commit_since|eauto|intros _ g4 H4].
  by apply (alive_replace (do_Conflict op)).
Qed.

Lemma alive_still {B} (m : E B) g : still m → A g → A (snd (m g)).
Proof. intros Hm. by rewrite Hm. Qed.

Lemma alive_sendFileResult op s h c m n : pres A (sendFileResult op s h c m n).
Proof. apply still_pres, still_sendFileResult. Qed.

Lemma since_patched op chunks t : pres (since t) (patchedBytes op chunks).
Proof. apply still_pres, still_patchedBytes. Qed.

(** What follows a write: the echo and the report. *)
Lemma alive_finish {Er} q h (m : E Er) g : still m → A g → A (snd (bindR (Er := Er) (liftE (markFile q h)) (λ _, liftE m) g)).
Proof.
  intros Hm Hg. apply (step_keep A A); [|done|done|].
  - apply pres_lift, quiet_echoSet, _.
  - intros [] g' Hg'. apply step_lift. by rewrite Hm.
Qed.

Lemma alive_processMkdir op : pres A (processMkdir op).
Proof.
  intros g Hg. unfold processMkdir. apply step_run.
  pose proof (quiet_call A (rStat baseCtx (absoluteRemotePath (do_Path op)))) as Hcall.
  assert (∀ q m i, pres A (markDir q m i)) as Hmark by (intros; apply quiet_echoSet, _).
  pose proof alive_MkdirAll as Hmk. pose proof alive_Chmod as Hch.
  assert (∀ q, pres A (MkdirAllPath q)) as Hmp by (intros; apply Hmk).
  assert (∀ q, pres A (Lstat q)) as Hl by (intros; apply still_pres, still_Lstat).
  assert (∀ q, pres A (LstatOpt q)) as Hlo by (intros; apply still_pres, still_LstatOpt).
  assert (pres A cancelled) as Hca by (apply still_pres, still_cancelled).
  assert (∀ m, pres A (modE (app m))) as Happ by (intros; apply pres_mod; intros; by apply quiet_alive).
  match goal with |- A (snd (?m g)) => enough (pres A m) as Hp by auto end. pres.
Qed.

Lemma alive_processChmod op : pres A (processChmod op).
Proof.
  pose proof alive_Chmod as Hch. assert (pres A cancelled) as Hca by (apply still_pres, still_cancelled).
  unfold processChmod. pres.
Qed.

(** The operation of a download that is about [p]. *)
Definition risky (op : downloadOp) : Prop := do_Path op = p ∧ ¬ synced (do_StoredEntry op) d.

Lemma risky_withKind k m l op : risky op → risky (withKind k m l op).
Proof. done. Qed.
Lemma risky_unchunked op : risky op → risky (unchunked op).
Proof. done. Qed.

(** The two checks before a local file is replaced. *)
Lemma checked_may_commit op loc g0 g :
  risky op → A g0 → since (g_tree g0) g →
  fst (snapshotDownloadLocal p (do_StoredEntry op) g0) = Ok loc →
  fst (unchanged (sn_info loc) p g) = true →
  negb (do_Conflict op) && negb (matchesStored loc (do_StoredEntry op) (do_HasStored op)) = false →
  may_commit (do_Conflict op) g.
Proof.
  intros [_ Hns] Ha Hs Hloc Hu Hok.
  pose proof (snapshot_info _ _ _ _ (alive_root _ Ha) Hloc) as Hinfo.
  split; [apply Hs|]. intros Hcf. rewrite Hcf in Hok. simpl in Hok. apply negb_false_iff in Hok.
  eapply unchanged_clear; [by eapply alive_root, since_alive|apply Hs|done|done|].
  eapply snapshot_clear; eauto.
Qed.

Lemma clear_Remove g : fst (Remove p g) = Ok () → clear d p (g_tree (snd (Remove p g))).
Proof.
  unfold Remove, edit_tree, bindE, on_tree, getE. destruct (g_root g); [|done].
  unfold t_remove. destruct (g_tree g !! p) as [i|] eqn:E; [|done]. destruct (_ && _); [done|].
  simpl. intros _ j Hj. by apply lookup_delete_Some in Hj as [? _].
Qed.

(** The end of a link's download: the way is cleared, then the link committed. *)
Lemma alive_link_commit op cp g :
  way_clear g →
  A (snd ((_ ⇐ liftE (modE (app Closing));
           _ ⇐ orReturn (λ e, dresultFull op (Some e) false cp) (commitStaged p (NLink (do_Symlink op)) 511);
           _ ⇐ liftE (markSymlink p (do_Symlink op));
           info ⇐ orReturn (λ e, dresultFull op (Some e) false cp) (Lstat p);
           okE (dresultLink op (do_Symlink op) cp info)) g)).
Proof.
  intros Hw. apply (step_keep A way_clear); [apply closing_clear|done|auto|clear g Hw; intros _ g [Ha Hc]].
  pose proof (alive_commit (NLink (do_Symlink op)) 511 g Ha Hc) as Ha'.
  unfold bindR at 1. unfold bindE at 1. unfold orReturn at 1. unfold bindE at 1.
  destruct (commitStaged p _ 511 g) as [[[]|e] g1]; [|done]. simpl in Ha'. unfold retE at 1.
  apply (step_keep A A); [apply pres_lift, quiet_echoSet, _|done|done|intros _ g2 H2].
  apply alive_still; [|done]. apply still_bindR; [apply still_orReturn, still_Lstat|done].
Qed.

Lemma alive_link op (info : result error fileInfo) g :
  may_commit (do_Conflict op) g →
  A (snd ((cp ⇐ (if do_Conflict op then orReturn (dresultErr op) (moveLocalToConflict p)
                 else match info with
                      | Ok i => if is_dir i then _ ⇐ orReturn (dresultErr op) (Remove p); okE "" else okE ""
                      | Err _ => okE ""
                      end);
           _ ⇐ liftE (modE (app Closing));
           _ ⇐ orReturn (λ e, dresultFull op (Some e) false cp) (commitStaged p (NLink (do_Symlink op)) 511);
           _ ⇐ liftE (markSymlink p (do_Symlink op));
           info ⇐ orReturn (λ e, dresultFull op (Some e) false cp) (Lstat p);
           okE (dresultLink op (do_Symlink op) cp info)) g)).
Proof.
  intros [Hi%risk_alive Hc]. unfold bindR at 1. unfold bindE at 1. destruct (do_Conflict op).
  - destruct (alive_move g Hi) as [Ha Hcp]. unfold orReturn at 1. unfold bindE at 1.
    destruct (moveLocalToConflict p g) as [[c|e] g1]; simpl in *; [|done].
    apply alive_link_commit. split; [done|]. by destruct (Hcp c eq_refl).
  - specialize (Hc eq_refl).
    destruct info as [i|e]; [destruct (is_dir i)|]; [|by apply alive_link_commit..].
    pose proof (alive_Remove g Hi Hc) as Ha. pose proof (clear_Remove g) as Hcl.
    unfold bindR at 1. unfold bindE at 1. unfold orReturn at 1. unfold bindE at 1.
    destruct (Remove p g) as [[[]|e] g1]; simpl in *; [|done]. by apply alive_link_commit; split; auto.
Qed.

(** Two looks that find the same find each other's. *)
Lemma sameInfo_via a b c : sameInfo a b = true → sameInfo a c = true → sameInfo b c = true.
Proof.
  unfold sameInfo, SameFile. rewrite !andb_true_iff, !bool_decide_eq_true, !Z.eqb_eq. intros. destruct_and!. split_and!; congruence.
Qed.

Lemma unchanged_again info (ga gb : eng R) :
  is_Some (g_root ga) → is_Some (g_root gb) → fst (unchanged info p ga) = true → fst (unchanged info p gb) = true →
  fst (unchanged (info_of <$> g_tree ga !! p) p gb) = true.
Proof.
  intros Ha [idb Hb]. destruct (g_tree ga !! p) as [i|] eqn:Ea.
  - unfold unchanged, bindE at 1. rewrite (Lstat_some p ga i Ha Ea). simpl. destruct info as [x|]; [|done].
    intros H1. unfold Lstat, on_tree, getE, t_lstat, bindE. rewrite Hb. destruct (g_tree gb !! p) as [j|]; [|done].
    simpl. by apply sameInfo_via.
  - unfold unchanged, bindE, Lstat, on_tree, getE, t_lstat. destruct Ha as [ida Ha]. rewrite Ha, Ea. by destruct info.
Qed.

Lemma mkdir_at (g : eng R) : g_tree (snd (MkdirAllDir p g)) !! p = g_tree g !! p.
Proof.
  unfold MkdirAllDir, MkdirAll. destruct (g_root g); [|done]. destruct (t_mkdirs _ _ _ _) as [[t' ino]|] eqn:E; [|done].
  simpl. apply t_mkdirs_lookup in E as [Hto Hfrom]. destruct (g_tree g !! p) as [i|] eqn:Ei; [by apply Hto|].
  destruct (t' !! p) as [i|] eqn:Et; [|done]. apply Hfrom in Et as [?|[H'%ancestors_length _]]; [congruence|lia].
Qed.

Lemma alive_processSymlink op g : risky op → I g → A (snd (processSymlink op g)).
Proof.
  intros Hop Hi. pose proof Hop as [Hp Hns]. unfold processSymlink. rewrite Hp. apply step_run.
  apply (step_still A); [apply still_orReturn, still_snapshot|auto|intros loc Hloc%orReturn_ok].
  apply (step_value A (since (g_tree g))); [|by apply since_now|apply since_alive|].
  { pose proof (quiet_call (since (g_tree g)) (rReadlink baseCtx (absoluteRemotePath p))). pres. }
  intros op' g1 H1 Hval.
  assert (risky op' ∧ do_Conflict op' = do_Conflict op ∧ do_HasStored op' = do_HasStored op ∧
          do_StoredEntry op' = do_StoredEntry op) as (Hop' & Hcf & Hhs & Hst).
  { revert Hval. case_bool_decide; [|by intros [= <-]]. unfold bindR, bindE, okE, retE.
    destruct (orReturn _ _ g) as [[t|e] ?]; [by intros [= <-]|done]. }
  clear Hval. rewrite <- Hst in Hloc. rename op' into op2.
  apply (step_still A); [apply still_orReturn, still_cancelled|by eapply since_alive|intros _ _].
  apply (step_still A); [apply still_lift, still_unchanged|by eapply since_alive|intros same Hu%lift_ok].
  apply (step_still A); [apply still_returnIf|by eapply since_alive|intros _ Hif%returnIf_ok].
  apply negb_false_iff in Hif. subst same.
  apply (step_still A); [by destruct (sn_info loc)|by eapply since_alive|intros _ _].
  apply (step_still A); [apply still_returnIf|by eapply since_alive|intros _ Hok%returnIf_ok].
  assert (may_commit (do_Conflict op2) g1) as [Hi1 Hc1] by (eapply (checked_may_commit op2); eauto).
  destruct (risk_MkdirAllDir g1 Hi1) as [Hi2 Hc2]. unfold bindR at 1. unfold bindE at 1. unfold orReturn at 1.
  unfold bindE at 1. destruct (MkdirAllDir p g1) as [[[]|e] g2] eqn:Em; simpl in Hi2, Hc2; [|by apply risk_alive].
  assert (may_commit (do_Conflict op2) g2) as Hm by (split; [done|auto]).
  assert (∀ c g, may_commit c g → A g) as Hma by (intros ? ? [? _]; auto). destruct Hop' as [Hp2 _].
  change (retE (Ok ()) g2) with (Ok (E := downloadResult) (), g2). cbv beta iota.
  set (P := since (g_tree g2)). assert (∀ g, P g → A g) as HPA by apply since_alive.
  assert (g_tree g2 !! p = g_tree g1 !! p) as Etp by (pose proof (mkdir_at g1) as Et; by rewrite Em in Et).
  assert (is_Some (g_root g1)) as Hr1 by auto.
  apply (step_keep A P); [apply quiet_others, _|apply since_now; apply Hm|done|intros _ g3 H3].
  apply (step_still A); [apply still_orReturn, still_cancelled|auto|intros _ _].
  apply (step_still A); [apply still_lift, still_Lstat|auto|intros info _].
  apply (step_still A); [apply still_orReturn, still_cancelled|auto|intros _ _].
  apply (step_still A); [apply still_lift, still_unchanged|auto|intros same Hu3%lift_ok].
  apply (step_still A); [apply still_returnIf|auto|intros _ Hif3%returnIf_ok].
  apply negb_false_iff in Hif3. subst same.
  apply (step_keep A (may_commit (do_Conflict op2))); [apply closing_may| |eauto|intros _ g4 H4; by apply alive_link].
  eapply may_commit_since; [exact Hm|exact H3|by rewrite Etp|].
  apply (unchanged_again (sn_info loc) g1 g3); auto.
Qed.

(** ** Deletions *)

Lemma synced_undeleted e b : synced (setDeleted b e) d ↔ synced e d.
Proof. done. Qed.

Lemma still_run {Er B C} (m : E (result Er B)) (f : B → E (result Er C)) g :
  still m → bindR m f g = match fst (m g) with Ok a => f a g | Err e => (Err e, g) end.
Proof. intros Hm. unfold bindR, bindE. specialize (Hm g). destruct (m g) as [[a|e] g1]; simpl in *; by subst. Qed.
Lemma others_run {Er C} m (f : () → E (result Er C)) g : bindR (liftE (modE (app m))) f g = f () (app m g).
Proof. done. Qed.

Definition below (q : string) : Prop := q = p ∨ under p q = true.
(** The bytes have come nowhere at [p] or below. *)
Definition none_came (g g' : eng R) : Prop := ∀ q, below q → clear d q (g_tree g) → clear d q (g_tree g').

Lemma closing_risk g : I g → I (app Closing g) ∧ none_came g (app Closing g).
Proof. intros Hi. split; [by apply quiet_risk|]. intros q. apply (nb_closing _ _ _ Hnb). Qed.

Lemma none_trans g1 g2 g3 : none_came g1 g2 → none_came g2 g3 → none_came g1 g3.
Proof. intros H1 H2 q Hq Hc. by apply H2, H1. Qed.

(** A walk that finds nothing changed has met only files that are recorded. *)
Lemma unchanged_below walk stored has g r g' :
  I g → ¬ synced stored d → (∀ q, q ∈ walk → below q) → changedBelow walk p stored has g = (r, g') →
  I g' ∧ none_came g g' ∧ (r = Ok false → ∀ q, q ∈ walk → clear d q (g_tree g')).
Proof.
  intros Hi Hns. revert g Hi. induction walk as [|cur walk IH]; intros g Hi Hw; cbn [changedBelow].
  { intros [= <- <-]. split_and!; [done|by intros q|]. by intros _ q ?%elem_of_nil. }
  rewrite others_run. destruct (closing_risk g Hi) as [H1 K1]. set (g1 := app Closing g) in *.
  rewrite still_run by apply still_ctxErr. destruct (fst (ctxErr g1)); [|by intros [= <- <-]; split_and!].
  rewrite still_run by (apply still_lift; case_bool_decide; still).
  destruct (fst (liftE _ g1)) as [known|e] eqn:Hk; [|by intros [= <- <-]; split_and!]. apply lift_ok in Hk.
  rewrite still_run by apply still_snapshot.
  destruct (fst (snapshotDownloadLocal _ _ g1)) as [loc|e] eqn:Hloc; [|by intros [= <- <-]; split_and!].
  rewrite others_run. destruct (closing_risk g1 H1) as [H2 K2]. set (g2 := app Closing g1) in *.
  pose proof (none_trans _ _ _ K1 K2) as K12.
  rewrite still_run by apply still_lift, still_unchanged.
  destruct (fst (liftE _ g2)) as [same|e]; [|by intros [= <- <-]; split_and!].
  destruct (_ || _) eqn:E; [by intros [= <- <-]; split_and!|]. apply orb_false_iff in E as [Hm%negb_false_iff _].
  intros (H3 & K3 & Hall)%IH; [|done|intros q Hq; apply Hw; by right].
  split_and!; [done|by eapply none_trans|]. intros Hr q [->|Hq]%elem_of_cons; [|by apply Hall].
  apply K3, K2; [apply Hw; by left..|]. eapply snapshot_clear; [apply alive_root; auto| |exact Hloc|exact Hm].
  rewrite synced_undeleted. revert Hk. case_bool_decide; [by intros <-|].
  intros <-. unfold storedAt, getE, lookupEntry. simpl.
  destruct (s_Entries (sw_state (g_sw g1)) !! cur) as [e|] eqn:Ee; [|by intros [? _]].
  destruct H1 as [(_ & Hu & _) _]. by apply (Hu cur).
Qed.

Lemma walkBelow_all t q : is_Some (t !! q) → below q → q ∈ walkBelow t p.
Proof.
  intros [i Hq] Hor. unfold walkBelow. apply elem_of_app. destruct Hor as [->|Hu].
  - left. rewrite bool_decide_true by (by eexists). by left.
  - right. apply list_elem_of_filter. split; [done|].
    apply list_elem_of_fmap. exists (q, i). split; [done|by apply elem_of_map_to_list].
Qed.

Lemma walkBelow_below t q : q ∈ walkBelow t p → below q.
Proof.
  unfold walkBelow. intros [H1|[H1 _]%list_elem_of_filter]%elem_of_app; [left|by right].
  destruct (bool_decide _); [by apply list_elem_of_singleton in H1|by apply elem_of_nil in H1].
Qed.

(** Nothing at [p] or below it has the bytes. *)
Definition subtree_clear (g : eng R) : Prop := A g ∧ ∀ q, below q → clear d q (g_tree g).

Lemma closing_subtree {Er} : pres subtree_clear (liftE (Er := Er) (modE (app Closing))).
Proof.
  apply pres_lift, pres_mod. intros g [Ha Hc]. split; [by apply quiet_alive|]. intros q Hq.
  apply (nb_closing _ _ _ Hnb); [done|by apply Hc].
Qed.

Lemma alive_preserve checkRun stored has g r g' :
  still checkRun → ¬ synced stored d → I g →
  preserveLocalDeleteConflict checkRun p stored has g = (r, g') → A g' ∧ (r = Ok "" → subtree_clear g').
Proof.
  intros Hrun Hns Hi. unfold preserveLocalDeleteConflict. unfold bindE at 1. unfold getE at 1.
  unfold bindR at 1. unfold bindE at 1.
  destruct (changedBelow (walkBelow (g_tree g) p) p stored has g) as [b g1] eqn:Ec.
  apply unchanged_below in Ec as (H1 & K1 & Hall); [|done|done|by apply walkBelow_below].
  pose proof (risk_alive _ H1) as Ha1. destruct b as [[|]|e]; [| |by intros [= <- <-]].
  - cbn [negb]. rewrite still_run by apply still_ctxErr. destruct (fst (ctxErr g1)); [|by intros [= <- <-]].
    rewrite still_run by done. destruct (fst (checkRun g1)); [|by intros [= <- <-]].
    rewrite others_run. destruct (closing_risk g1 H1) as [H2 _]. set (g2 := app Closing g1) in *.
    destruct (alive_move g2 (risk_alive _ H2)) as [Hma Hmc]. intros E. rewrite E in Hma, Hmc. simpl in *.
    split; [done|]. intros ->. destruct (Hmc _ eq_refl) as [_ Hnone]. destruct (Hnone eq_refl) as [-> Hn].
    split; [done|]. intros q Hq i Hqi. exfalso. destruct Hq as [->|Hq]; [congruence|].
    destruct H2 as [_ Hroot]. destruct (Hroot q Hq) as [? ?]; [by eexists|congruence].
  - intros [= <- <-]. split; [done|]. intros _. split; [done|]. intros q Hq.
    destruct (g_tree g !! q) as [i|] eqn:Eq; [|apply K1; [done|]; intros i Hi'; congruence].
    apply Hall; [done|]. apply walkBelow_all; [by eexists|done].
Qed.

(** Forgetting entries records nothing. *)
Lemma alive_forget (keep : string * SyncEntry → Prop) `{!∀ x, Decision (keep x)} g :
  A g → A (set_sw (setDirty (onState (withEntries (filter keep)) (g_sw g))) g).
Proof.
  intros (Hh & Hu & Hr). split_and!; [done| |done]. intros q e He. unfold entries_of in He. simpl in He.
  apply map_lookup_filter_Some in He as [He _]. by apply (Hu q).
Qed.

Lemma alive_applyDelete checkRun stored has g :
  still checkRun → ¬ synced stored d → I g → A (snd (applySyncRemoteDelete checkRun p stored has g)).
Proof.
  intros Hrun Hns Hi. unfold applySyncRemoteDelete. unfold bindE at 1.
  match goal with |- A (snd (let '(a, g0) := ?m g in _)) => enough (A (snd (m g))) as Ha by (by destruct (m g)) end.
  apply (step_still A); [apply still_lift, still_storedAt|auto|intros cur _].
  apply (step_still A); [apply still_returnIf|auto|intros _ _].
  apply (step_still A); [apply still_orReturn, still_ctxErr|auto|intros _ _].
  apply (step_still A); [by apply still_orReturn|auto|intros _ _].
  apply (step_still A); [apply still_orReturn, still_snapshot|auto|intros loc _].
  apply (step_keep A I); [apply quiet_others, _|done|auto|clear g Hi; intros _ g Hi].
  unfold bindR at 1. unfold bindE at 1. unfold orReturn at 1. unfold bindE at 1.
  destruct (preserveLocalDeleteConflict checkRun p stored has g) as [r g1] eqn:Ep.
  apply alive_preserve in Ep as [Ha Hcp]; [|done..]. destruct r as [cp|e]; [|done]. unfold retE at 1.
  apply (step_still A); [apply still_orReturn, still_ctxErr|auto|intros _ _].
  apply (step_still A); [by apply still_orReturn|auto|intros _ _].
  set (P g := A g ∧ (cp = "" → subtree_clear g)). assert (∀ g, P g → A g) as HPA by (by intros ? [? _]).
  apply (step_keep A P); [|split; [done|intros ->; by apply Hcp]|done|clear g1 Ha Hcp; intros _ g1 [Ha Hcp]].
  { intros g' [Ha' Hc']. split; [by apply quiet_others; [apply _|]|]. intros E. by apply closing_subtree, Hc'. }
  apply (step_then A).
  - case_bool_decide as Ecp; [|apply alive_still; [|done]; still]. specialize (Hcp Ecp).
    assert (∀ g, subtree_clear g → A g) as HSA by (by intros ? [? _]).
    apply (step_still A); [apply still_lift, still_unchanged|auto|intros same _].
    apply (step_still A); [apply still_returnIf|auto|intros _ _].
    apply (step_keep A subtree_clear); [by apply pres_lift, pres_mod|done|done|intros _ g2 H2].
    apply (step_keep A subtree_clear); [apply closing_subtree|done|done|clear g2 H2; intros _ g2 [H2 Hc2]].
    apply (step_then A); [|intros [|e]; apply still_pres; still]. apply step_lift.
    assert (A (snd (Remove p g2))) as Hrm by (apply alive_Remove; [done|apply Hc2; by left]).
    destruct (sn_info loc) as [i|]; [|done]. destruct (is_dir i); [|done]. by apply alive_RemoveAll.
  - intros _ g2 H2. apply (step_then A); [|intros; apply still_pres; still].
    apply step_lift. by apply (alive_forget (λ '(q, _), negb (bool_decide (q = p) || under p q) = true)).
Qed.

Lemma alive_processDelete op g : risky op → I g → A (snd (processDelete op g)).
Proof.
  intros [Hp Hns] Hi. unfold processDelete, applyConfirmedSyncRemoteDelete. rewrite Hp. apply step_run.
  apply (step_still A); [apply still_orReturn, still_cancelled|auto|intros _ _].
  apply (step_then A); [|intros [[cp sk] e]; apply still_pres; still]. apply step_lift, step_run.
  apply (step_still A); [apply still_orReturn, still_ctxErr|auto|intros _ _].
  apply (step_still A); [apply still_orReturn, still_downloaderRoot|auto|intros _ _].
  apply (step_keep A I); [apply pres_lift, quiet_flush, _|done|by apply risk_alive|intros _ g1 H1].
  apply (step_keep A I); [apply pres_lift, quiet_call, _|done|by apply risk_alive|intros st g2 H2].
  apply (step_still A); [by repeat case_match|auto|intros _ _].
  apply step_lift. apply alive_applyDelete; [apply still_downloaderRoot|done|done].
Qed.

(** ** Files *)

Lemma alive_processWholeFile op g : risky op → I g → A (snd (processWholeFile op g)).
Proof.
  intros Hop Hi. pose proof Hop as [Hp Hns]. unfold processWholeFile. rewrite Hp. apply step_run.
  apply (step_still A); [apply still_orReturn, still_snapshot|auto|intros loc Hloc%orReturn_ok].
  set (P := since (g_tree g)).
  assert (∀ f, pres P (remote (A := option StatResult) f)) as Hcall1 by (intros; apply quiet_call, _).
  assert (∀ B (f : R → result error B * R), pres P (remote f)) as Hcall by (intros; apply quiet_call, _).
  assert (∀ g, P g → A g) as HPA by apply since_alive.
  apply (step_keep A P); [apply pres_lift, Hcall|by apply since_now|done|intros st0 g1 H1].
  apply (step_keep A P); [apply still_pres; by repeat case_match|done|done|intros st g2 H2].
  apply (step_still A); [apply still_orReturn, still_cancelled|auto|intros _ _].
  destruct st as [s|].
  2:{ apply (step_still A); [apply still_lift, still_unchanged|auto|intros same _].
      apply (step_still A); [apply still_returnIf|auto|intros _ _].
      apply step_lift, alive_processDelete; [done|apply H2]. }
  case_bool_decide as E1; [by apply step_lift, alive_processMkdir; auto|].
  case_bool_decide as E2.
  { apply (step_keep A P); [apply pres_orReturn, Hcall|done|done|intros target g3 H3].
    apply step_lift, alive_processSymlink; [done|apply H3]. }
  apply (step_keep A P); [apply pres_orReturn, Hcall|done|done|intros data g3 H3].
  apply (step_still A); [apply still_orReturn, still_cancelled|auto|intros _ _].
  apply (step_still A); [apply still_lift, still_unchanged|auto|intros same Hu%lift_ok].
  apply (step_still A); [apply still_returnIf|auto|intros _ Hif%returnIf_ok]. apply negb_false_iff in Hif.
  subst same. destruct (sameLocalFile _ _ _); [by apply step_lift, alive_sendFileResult; auto|].
  apply (step_still A); [apply still_returnIf|auto|intros _ Hok%returnIf_ok].
  assert (may_commit (do_Conflict op) g3) as Hm
    by (eapply (checked_may_commit op loc g); [done|auto|exact H3|done..]).
  apply (step_then A).
  - apply step_lift, alive_writeLocalFile; [done|intros t; apply pres_ok..|done].
  - intros [cp [e|]]; [apply pres_err|]. intros g4 H4. apply alive_finish; [apply still_sendFileResult|done].
Qed.

Lemma alive_processChunkedFile op g : risky op → I g → A (snd (processChunkedFile op g)).
Proof.
  intros Hop Hi. pose proof Hop as [Hp Hns]. unfold processChunkedFile. rewrite Hp.
  destruct (do_Conflict op) eqn:Hcf; [by apply alive_processWholeFile|]. apply step_run.
  apply (step_still A); [apply still_orReturn, still_snapshot|auto|intros loc Hloc%orReturn_ok].
  pose proof (snapshot_info _ _ _ _ (alive_root _ (risk_alive _ Hi)) Hloc) as Hinfo.
  destruct (sn_info loc) as [info|] eqn:Ei; [|by apply step_lift, alive_processWholeFile].
  destruct (_ || _); [by apply step_lift, alive_processWholeFile|].
  apply (step_still A); [apply still_returnIf|auto|intros _ Hok%returnIf_ok].
  set (P := since (g_tree g)).
  assert (∀ B (f : R → result error B * R), pres P (remote f)) as Hcall by (intros; apply quiet_call, _).
  assert (∀ g, P g → A g) as HPA by apply since_alive.
  apply (step_keep A P); [apply pres_lift, Hcall|by apply since_now|done|intros st0 g1 H1].
  apply (step_keep A P); [apply still_pres; by repeat case_match|done|done|intros st g2 H2].
  apply (step_still A); [apply still_orReturn, still_cancelled|auto|intros _ _].
  destruct st as [s|].
  2:{ apply (step_still A); [apply still_lift, still_unchanged|auto|intros same _].
      apply (step_still A); [apply still_returnIf|auto|intros _ _].
      apply step_lift, alive_processDelete; [done|apply H2]. }
  apply (step_keep A P); [apply pres_orReturn, Hcall|done|done|intros chunks g3 H3].
  apply (step_still A); [apply still_orReturn, still_cancelled|auto|intros _ _].
  apply (step_still A); [apply still_lift, still_unchanged|auto|intros same Hu%lift_ok].
  apply (step_still A); [apply still_returnIf|auto|intros _ Hif%returnIf_ok]. apply negb_false_iff in Hif.
  subst same. apply (step_still A); [apply still_returnIf|auto|intros _ _].
  destruct (_ && _); [by apply step_lift, alive_sendFileResult; auto|].
  rewrite <- Ei in Hif.
  assert (may_commit (do_Conflict op) g3) as Hm
    by (eapply (checked_may_commit op loc g); [done|auto|done|done|done|by rewrite Hok, andb_false_r]).
  apply (step_then A).
  - apply step_lift, alive_writeLocalFile; [done|intros t; apply since_patched|intros t; apply pres_ok|done].
  - intros [cp [e|]]; [apply pres_err|]. intros g4 H4. apply alive_finish; [apply still_sendFileResult|done].
Qed.

Lemma alive_processDownload op g : risky op → I g → A (snd (processDownload op g)).
Proof.
  intros Hop Hi. pose proof Hop as [Hp Hns]. unfold processDownload. apply step_run.
  apply (step_still A); [apply still_orReturn, still_ctxErr|auto|intros _ _].
  apply (step_keep A I); [apply pres_orReturn, quiet_call, _|done|by apply risk_alive|intros _ g1 H1].
  apply (step_still A); [apply still_orReturn, still_cancelled|auto|intros _ _]. apply step_lift.
  destruct (do_Kind op).
  - unfold processFile. destruct (do_Chunked op); [by apply alive_processChunkedFile|by apply alive_processWholeFile].
  - by apply alive_processSymlink.
  - by apply alive_processMkdir; auto.
  - by apply alive_processDelete.
  - by apply alive_processChmod; auto.
Qed.
End keep.

(** C32: a download spares unsynchronised local bytes.  Take any bytes that neither the
    entry the operation was queued with nor the baseline records as synchronised:
    whatever kind of operation it is, whatever the remote side answers, on every error
    path, and whatever the application and other workers do between the steps, the
    local tree changes only by steps of theirs and by steps that leave every file with
    these bytes where it is or move the path of the download, with everything below it,
    to the name of a conflict copy, where it all is if nothing was at that name.  The
    others keep the mount root and the shape of the tree, a file they change shows in its
    metadata, and they do not put the bytes at the path or below it after the download's
    last look at it; what they put there then is lost ([closing_window_loses_bytes]). *)
Theorem unrecorded_bytes_survive_download {H : Hashing} {R : Type} {RC : RemoteClient R}
    {cfg : @SyncCfg R} (Rely : relation ltree) (d : bytes) (op : downloadOp) (g : eng R)
    (Hnb : neighbours Rely d (do_Path op))
    (Hrec : ¬ synced (do_StoredEntry op) d) (Hun : unrecorded d g)
    (Hroot : is_Some (g_root g)) (Htree : rooted_at (do_Path op) (g_tree g)) :
  rtc (λ t t', Rely t t' ∨ spares d (do_Path op) t t') (g_tree g) (g_tree (snd (processDownload op g))).
Proof. by apply (alive_processDownload Rely d (do_Path op) Hnb (g_tree g) op g). Qed.

(** The remote version of ["a"] is downloaded over a local one nobody uploaded. *)
Lemma unrecorded_bytes_survive_download_witness :
  let cfg := sample_cfg false in
  let remote := <["/a" := Node "file" 420 2 7 (string_bytes "theirs") "" 0 []]> sample_remote in
  let g := sample_eng (newSyncState "w" "/m") sample_tree remote in
  let t := g_tree (snd (processDownload (downOp opDownloadFile "a" 420 "" zeroEntry false true) g)) in
  i_node <$> t !! "a" = Some (NFile (string_bytes "theirs")) ∧
  i_node <$> t !! "a.conflict-host-20240101-000000-1" = Some (NFile (string_bytes "hello")) ∧
  rtc (λ t t', t = t' ∨ spares (string_bytes "hello") "a" t t') sample_tree t.
Proof.
  intros cfg remote g t. split; [by vm_compute|]. split; [by vm_compute|].
  apply (unrecorded_bytes_survive_download (cfg := cfg) eq (string_bytes "hello")
           (downOp opDownloadFile "a" 420 "" zeroEntry false true) g).
  - split; [split; congruence|done|congruence|done..].
  - by intros [? _].
  - done.
  - by eexists.
  - intros q Hq [i Hi]. change (sample_tree !! q = Some i) in Hi. unfold sample_tree in Hi. apply lookup_singleton_Some in Hi as [<- _].
    apply under_length in Hq. simpl in Hq. lia.
Defined.

(** The window.  ["a"] is as both sides had it when the download looks at it; then the
    application writes it, and the staged bytes replace what it wrote, with no conflict
    copy and no error. *)
Definition lateWriter : @SyncCfg flat := {|
  app m g := match m with
             | Waiting => g
             | Closing => set_tree (<["a" := Linode (NFile (string_bytes "mine!")) 420 9000000 10]> (g_tree g)) g
             end;
  fmtTime := fmtTime (SyncCfg := sample_cfg false); hostname := "host"; rootIdentity := "root"; rootPerm := 493;
  readonly := false; ignore := None; maxFileBytes := 2 ^ 31; cfgChunkSize := 4; cfgChunkThreshold := 8;
  baseCtx := sample_ctx
|}.

Lemma closing_window_loses_bytes :
  let cfg := lateWriter in
  let remote := <["/a" := Node "file" 420 2 7 (string_bytes "theirs") "" 0 []]> sample_remote in
  let g := sample_eng (newSyncState "w" "/m") sample_tree remote in
  let r := processDownload (downOp opDownloadFile "a" 420 "" (fileEntry 420 5 "hello" 5 3 900 0 []) true false) g in
  i_node <$> g_tree (app Closing g) !! "a" = Some (NFile (string_bytes "mine!")) ∧
  dr_Err (fst r) = None ∧ dr_Skipped (fst r) = false ∧ dr_ConflictPath (fst r) = "" ∧
  (λ qi, (qi.1, i_node qi.2)) <$> map_to_list (g_tree (snd r)) = [("a", NFile (string_bytes "theirs"))].
Proof. by vm_compute. Qed.
