(* ===== verification/SyncPlanProps.v ===== *)
(** The plan of a recovery pass: every action has its reason in the two scans and
    the baseline (C33), and the order of execution puts parents before children
    and deletes below before above. *)
From S2P Require Import Prelude Content Paths FsClient SyncState SyncChunks SyncWorld SyncTree SyncPlan.
From S2P Require Import SyncDown SyncUp SyncEvent SyncExec SyncRun SyncSample SyncInv SyncProps.
#[local] Open Scope string_scope.
#[local] Open Scope list_scope.
#[local] Open Scope Z_scope.

Section plan.
Context {H : Hashing} {R : Type} {RC : RemoteClient R} {cfg : @SyncCfg R}.
Implicit Types g : eng R.

(** * Reasons *)

(** What the remote side is compared as: a read-only mount hands out no write
    bits. *)
Definition as_handed_out (r : observedMeta) : observedMeta :=
  if readonly && bool_decide (o_kind r = "file")
  then {| o_kind := o_kind r; o_mode := dropWriteBits (o_mode r); o_size := o_size r;
          o_mtimeMs := o_mtimeMs r; o_mtimeNs := o_mtimeNs r; o_target := o_target r |}
  else r.

(** The observation [m] of one side is what the baseline entry [e] says of that
    side: the type, the mode, and the target of a link or the size and the time
    of a file, where a time that was not recorded is not compared. *)
Definition as_baseline (localSide : bool) (e : SyncEntry) (m : observedMeta) : Prop :=
  let recorded := if localSide then e_LocalMtimeMs e else e_RemoteMtimeMs e in
  e_Deleted e = false ∧ o_kind m = e_Type e ∧ o_mode m = e_Mode e ∧
  (o_kind m = "dir" ∨
   o_kind m = "symlink" ∧ o_target m = e_Target e ∨
   o_kind m = "file" ∧ o_size m = e_Size e ∧ (recorded ≠ 0 → o_mtimeMs m = recorded)).

(** Nothing tells the two sides apart: for files this takes a baseline of their
    size with the very times of both. *)
Definition same (l r : observedMeta) (st : SyncEntry * bool) : Prop :=
  o_kind l = o_kind r ∧
  (o_kind l = "dir" ∧ o_mode l = o_mode r ∨
   o_kind l = "symlink" ∧ o_target l = o_target r ∨
   o_kind l = "file" ∧ o_size l = o_size r ∧ o_mode l = o_mode r ∧
     st.2 = true ∧ e_Size st.1 = o_size l ∧
     o_mtimeMs l = e_LocalMtimeMs st.1 ∧ o_mtimeMs r = e_RemoteMtimeMs st.1).

(** The test of the planner. *)
Definition changed (m : observedMeta) (e : SyncEntry) (localSide : bool) : bool :=
  observedChangedFromStored m e localSide || negb (o_mode m =? e_Mode e).

Lemma changed_spec m e side : changed m e side = false ↔ as_baseline side e m.
Proof.
  unfold changed, observedChangedFromStored, as_baseline.
  rewrite orb_false_iff, negb_false_iff, Z.eqb_eq.
  destruct (e_Deleted e); simpl; [by split; [intros [? _]|intros [? _]]|].
  case_bool_decide as Ht; simpl; [|by split; [intros [? _]|intros (_ & ? & _)]].
  assert (∀ x y : Z, negb (x =? 0) && negb (y =? x) = false ↔ (x ≠ 0 → y = x)) as Hz.
  { intros x y. destruct (Z.eqb_spec x 0), (Z.eqb_spec y x); naive_solver. }
  case_bool_decide as Hd; [destruct (Z.eqb_spec (o_mode m) (e_Mode e)); rewrite ?andb_false_r; naive_solver|].
  case_bool_decide as Hl; [rewrite negb_false_iff, bool_decide_eq_true; naive_solver congruence|].
  case_bool_decide as Hf; [|naive_solver].
  destruct (Z.eqb_spec (o_size m) (e_Size e)); simpl; [|naive_solver congruence].
  destruct side; rewrite Hz; naive_solver congruence.
Qed.

Lemma changed_true m e side : changed m e side = true → ¬ as_baseline side e m.
Proof. intros Hc Hb%changed_spec. congruence. Qed.

Lemma metaMatch_spec l r e has : metaMatch l r e has = true ↔ same l r (e, has).
Proof.
  unfold metaMatch, same. case_bool_decide as Hk; simpl; [|by split; [|intros [? _]]].
  case_bool_decide as Hd; [rewrite Z.eqb_eq; intuition congruence|].
  case_bool_decide as Hl; [rewrite bool_decide_eq_true; intuition congruence|].
  case_bool_decide as Hf; [|intuition congruence].
  destruct (Z.eqb_spec (o_size l) (o_size r)), (Z.eqb_spec (o_mode l) (o_mode r)); simpl;
    rewrite ?andb_true_iff, ?Z.eqb_eq; intuition congruence.
Qed.

(** The baseline knows the path as present. *)
Definition known (st : SyncEntry * bool) : Prop := st.2 = true ∧ e_Deleted st.1 = false.
Definition buried (st : SyncEntry * bool) : Prop := st.2 = true ∧ e_Deleted st.1 = true.

(** An upload: the mount is writable, the path is there locally, and remotely
    either it is absent and not known as present, or it is what the baseline
    says while the local side is not. *)
Definition upload_reason (st : SyncEntry * bool) (l r : option observedMeta) : Prop :=
  readonly = false ∧ ∃ l', l = Some l' ∧
    match r with
    | None => ¬ known st
    | Some r' => known st ∧ ¬ as_baseline true st.1 l' ∧ as_baseline false st.1 (as_handed_out r')
    end.

(** The remote version [r] is to replace the local one [l]: they differ, and if
    the baseline knows the path it is not the local side alone that changed,
    unless the mount is read-only. *)
Definition takes_over (st : SyncEntry * bool) (l r : observedMeta) : Prop :=
  ¬ same l (as_handed_out r) st ∧
  (known st → ¬ as_baseline false st.1 (as_handed_out r) ∨
              readonly = true ∧ ¬ as_baseline true st.1 l).

(** A download: the path is there remotely.  If it is there locally too, it is
    to be replaced, and its version is kept as a conflict copy unless it is what
    the baseline says. *)
Definition download_reason (conflict : bool) (st : SyncEntry * bool) (l r : option observedMeta) : Prop :=
  ∃ r', r = Some r' ∧ o_kind r' ≠ "dir" ∧
    match l with
    | None => ¬ buried st ∧ conflict = false
    | Some l' => takes_over st l' r' ∧ (conflict = false ↔ known st ∧ as_baseline true st.1 l')
    end.

(** A local directory: the path is a directory remotely.  Its mode is taken over
    a local directory's whether or not that one changed, too. *)
Definition mkdir_reason (mode : Z) (st : SyncEntry * bool) (l r : option observedMeta) : Prop :=
  ∃ r', r = Some r' ∧ o_kind r' = "dir" ∧ mode = o_mode r' ∧
    match l with None => True | Some l' => takes_over st l' r' end.

Definition reason (a : syncAction) (st : SyncEntry * bool) (l r : option observedMeta) : Prop :=
  match a_kind a with
  | AUpload | AMkdirRemote | ASymlinkUpload => upload_reason st l r
  | AMkdirLocal => mkdir_reason (a_mode a) st l r
  | ADownload | ASymlinkDownload => download_reason (a_conflict a) st l r
  | ADeleteLocal => is_Some l ∧ r = None ∧ known st
  | ADeleteRemote => l = None ∧ is_Some r ∧ buried st
  end.

Lemma reason_planUpload p l st r a :
  upload_reason st (Some l) r → a ∈ planUpload p l → reason a st (Some l) r ∧ a_path a = p.
Proof.
  intros Hr. unfold planUpload. destruct readonly; [by intros ?%elem_of_nil|].
  repeat case_bool_decide; intros Hin; try (by apply elem_of_nil in Hin);
    apply list_elem_of_singleton in Hin as ->; by split.
Qed.

Lemma reason_planDownload p r' conflict st l :
  match l with
  | None => (o_kind r' ≠ "dir" → ¬ buried st) ∧ conflict = false
  | Some l' => takes_over st l' r' ∧ (conflict = false ↔ known st ∧ as_baseline true st.1 l')
  end →
  reason (planDownload p r' conflict) st l (Some r') ∧ a_path (planDownload p r' conflict) = p.
Proof.
  intros Hr. unfold planDownload, reason, mkdir_reason, download_reason.
  repeat case_bool_decide; simpl; (split; [|done]); exists r'; split_and!; try done;
    destruct l; try done; first [exact Hr|apply Hr|split; [by apply Hr|apply Hr]].
Qed.

(** [m] yields only actions about [p] with a reason. *)
Definition reasoned (p : string) (st : SyncEntry * bool) (l r : option observedMeta)
    (m : SyncWorld.E R (list syncAction)) : Prop :=
  ∀ g a, a ∈ fst (m g) → reason a st l r ∧ a_path a = p.

Lemma reasoned_bind {B} p st l r (m : SyncWorld.E R B) f :
  (∀ b, reasoned p st l r (f b)) → reasoned p st l r (bindE m f).
Proof. intros Hf g a. unfold bindE. destruct (m g). apply Hf. Qed.
Lemma reasoned_nil p st l r : reasoned p st l r (retE []).
Proof. by intros g a ?%elem_of_nil. Qed.
Lemma reasoned_one p st l r a : reason a st l r → a_path a = p → reasoned p st l r (retE [a]).
Proof. intros Hr Hp g x Hx. by apply list_elem_of_singleton in Hx as ->. Qed.
Lemma reasoned_upload p st l r : upload_reason st (Some l) r → reasoned p st (Some l) r (retE (planUpload p l)).
Proof. intros Hr g a. by apply reason_planUpload. Qed.
Lemma reasoned_download p st l r' conflict :
  match l with
  | None => (o_kind r' ≠ "dir" → ¬ buried st) ∧ conflict = false
  | Some l' => takes_over st l' r' ∧ (conflict = false ↔ known st ∧ as_baseline true st.1 l')
  end →
  reasoned p st l (Some r') (retE [planDownload p r' conflict]).
Proof. intros Hr. destruct (reason_planDownload p r' conflict st l Hr). by apply reasoned_one. Qed.

Lemma reasoned_local p l e has :
  reasoned p (e, has) (Some l) None (planLocalOnly p l e has).
Proof.
  unfold planLocalOnly. destruct has; simpl.
  - destruct (e_Deleted e) eqn:Ed.
    + intros g a Ha. unfold planUpload in Ha. destruct readonly eqn:Ero; [by apply elem_of_nil in Ha|].
      apply (reason_planUpload p l); [|unfold planUpload; by rewrite Ero].
      split; [done|]. exists l. split; [done|]. intros [_ ?]. simpl in *. congruence.
    + assert (reasoned p (e, true) (Some l) None (retE [action ADeleteLocal p 0 "" false None None])) as Hdel.
      { apply reasoned_one; [|done]. split; [by eexists|done]. }
      apply reasoned_bind. intros [[s|]|err]; [apply reasoned_nil|done|].
      destruct (negb _); [|done]. apply reasoned_bind. intros _. apply reasoned_nil.
  - intros g a Ha. unfold planUpload in Ha. destruct readonly eqn:Ero; [by apply elem_of_nil in Ha|].
    apply (reason_planUpload p l); [|unfold planUpload; by rewrite Ero].
    split; [done|]. exists l. split; [done|]. by intros [? _].
Qed.

Lemma reasoned_remote p r e has rem :
  reasoned p (e, has) None (Some r) (planRemoteOnly p r e has rem).
Proof.
  unfold planRemoteOnly. destruct (has && e_Deleted e) eqn:Eb.
  - apply andb_true_iff in Eb as [-> Ed]. case_bool_decide as Ek.
    + apply reasoned_bind. intros [].
      * by apply reasoned_download.
      * apply reasoned_one; [|done]. by split_and!; [|eexists|].
    + apply reasoned_one; [|done]. by split_and!; [|eexists|].
  - apply reasoned_download. split; [|done]. intros _ [Hh Hd]. simpl in *. subst has.
    by rewrite Hd in Eb.
Qed.

Lemma reasoned_both p l r e has :
  reasoned p (e, has) (Some l) (Some r) (planBoth p l r e has).
Proof.
  unfold planBoth. fold (as_handed_out r).
  assert (∀ m : SyncWorld.E R (), reasoned p (e, has) (Some l) (Some r) (bindE m (λ _, retE []))) as Hrefresh
    by (intros m; apply reasoned_bind; intros; apply reasoned_nil).
  destruct (metaMatch _ _ _ _) eqn:Em; [apply Hrefresh|].
  assert (¬ same l (as_handed_out r) (e, has)) as Hns by (rewrite <- metaMatch_spec; congruence).
  fold (changed l e true) (changed (as_handed_out r) e false).
  assert (∀ c,
    (known (e, has) → ¬ as_baseline false e (as_handed_out r) ∨ readonly = true ∧ ¬ as_baseline true e l) →
    (c = false ↔ known (e, has) ∧ as_baseline true e l) →
    reasoned p (e, has) (Some l) (Some r) (retE [planDownload p r c])) as Hdown
    by (intros c H1 H2; by apply reasoned_download).
  unfold known in Hdown. simpl in Hdown.
  destruct (has && negb (e_Deleted e)) eqn:Ek; cycle 1.
  { apply Hdown; [intros [-> Hd]; by rewrite Hd in Ek|]. split; [done|]. intros [[-> Hd] _]. by rewrite Hd in Ek. }
  apply andb_true_iff in Ek as [-> Ed%negb_true_iff].
  destruct (changed l e true) eqn:Ecl, (changed (as_handed_out r) e false) eqn:Ecr;
    try apply changed_true in Ecl; try apply changed_true in Ecr; try apply changed_spec in Ecl;
    try apply changed_spec in Ecr; try (apply Hdown; naive_solver).
  - destruct readonly eqn:Ero; [apply Hdown; naive_solver|]. apply reasoned_upload.
    split; [done|]. exists l. by split_and!.
  - apply Hrefresh.
Qed.

Lemma reasoned_path baseline loc rem p :
  reasoned p (lookupEntry baseline p) (loc !! p) (rem !! p) (planPath baseline loc rem p).
Proof.
  unfold planPath. apply reasoned_bind. intros [|]; [apply reasoned_nil|].
  destruct (lookupEntry baseline p) as [e has]. destruct (loc !! p), (rem !! p).
  - apply reasoned_both.
  - apply reasoned_local.
  - apply reasoned_remote.
  - apply reasoned_nil.
Qed.

(** At most one action for a path. *)
Definition at_most_one (m : SyncWorld.E R (list syncAction)) : Prop :=
  ∀ g, (length (fst (m g)) ≤ 1)%nat.

Lemma one_bind {B} (m : SyncWorld.E R B) f : (∀ b, at_most_one (f b)) → at_most_one (bindE m f).
Proof. intros Hf g. unfold bindE. destruct (m g). apply Hf. Qed.

Lemma one_path baseline loc rem p : at_most_one (planPath baseline loc rem p).
Proof.
  assert (∀ l, at_most_one (retE (planUpload p l))) as Hup
    by (intros l g; unfold retE, planUpload; simpl; repeat case_match; simpl; lia).
  unfold planPath, planBoth, planLocalOnly, planRemoteOnly.
  repeat first [apply one_bind; intros | case_match]; first [apply Hup | intros ?; simpl; lia].
Qed.

Lemma planPaths_elem baseline loc rem order g a :
  a ∈ fst (planPaths baseline loc rem order g) →
  a_path a ∈ order ∧
  reason a (lookupEntry baseline (a_path a)) (loc !! a_path a) (rem !! a_path a).
Proof.
  revert g. induction order as [|p order IH]; intros g; simpl; [by intros ?%elem_of_nil|].
  unfold bindE. pose proof (reasoned_path baseline loc rem p g a) as Hp.
  destruct (planPath baseline loc rem p g) as [x g1]. specialize (IH g1).
  destruct (planPaths baseline loc rem order g1) as [rest g2]. simpl in *.
  intros [Hin|Hin]%elem_of_app.
  - destruct (Hp Hin) as [Hr <-]. split; [by left|done].
  - destruct (IH Hin). split; [by right|done].
Qed.

Lemma planPaths_NoDup baseline loc rem order g :
  NoDup order → NoDup (map a_path (fst (planPaths baseline loc rem order g))).
Proof.
  revert g. induction order as [|p order IH]; intros g; simpl; [constructor|]. intros [Hp Hnd]%NoDup_cons.
  unfold bindE. pose proof (reasoned_path baseline loc rem p g) as Hr.
  pose proof (one_path baseline loc rem p g) as Hone.
  destruct (planPath baseline loc rem p g) as [x g1]. specialize (IH g1 Hnd).
  pose proof (planPaths_elem baseline loc rem order g1) as Hel.
  destruct (planPaths baseline loc rem order g1) as [rest g2]. simpl in *.
  destruct x as [|a [|]]; simpl in *; [done| |lia]. constructor; [|done].
  destruct (Hr a) as [_ ->]; [by left|]. intros (b & E & Hb)%list_elem_of_fmap.
  apply Hp. rewrite E. by apply Hel.
Qed.

Lemma finish_path baseline loc rem a : a_path (finishAction baseline loc rem a) = a_path a.
Proof. unfold finishAction. by destruct (lookupEntry _ _). Qed.

Lemma finish_reason baseline loc rem a st l r :
  reason a st l r → reason (finishAction baseline loc rem a) st l r.
Proof. unfold finishAction. by destruct (lookupEntry _ _). Qed.

(** What the remote side answers to the fresh look before a local deletion. *)
Definition absent (r : result error (option StatResult)) : Prop :=
  match r with Ok None => True | Ok (Some _) => False | Err e => isClientNotFound e = true end.

(** Something lives below the remote directory [p]: a path that the baseline has
    no tombstone of. *)
Definition lives_below (p : string) (rem : gmap string observedMeta) (m : entries) : Prop :=
  ∃ child, is_Some (rem !! child) ∧ HasPrefix child (TrimSuffix1 p slash +:+ "/") = true ∧
           ∀ e, m !! child = Some e → e_Deleted e = false.

Lemma live_descendants_spec p rem m : mountRemoteDirHasLiveDescendants p rem m = true ↔ lives_below p rem m.
Proof.
  unfold mountRemoteDirHasLiveDescendants, lives_below. rewrite existsb_exists. split.
  - intros (c & Hc & [Hp Hl]%andb_true_iff). exists c. split_and!; [|done|].
    + apply list_elem_of_In, list_elem_of_fmap in Hc as ([c' x] & -> & Hc).
      apply elem_of_map_to_list in Hc. by eexists.
    + intros e He. rewrite He in Hl. by apply negb_true_iff.
  - intros (c & [x Hx] & Hp & Hl). exists c. split.
    + apply list_elem_of_In, list_elem_of_fmap. exists (c, x). split; [done|]. by apply elem_of_map_to_list.
    + rewrite Hp. simpl. destruct (m !! c) as [e|] eqn:E; [|done]. by rewrite (Hl e).
Qed.

Lemma buried_is_deleted p r e rem g :
  e_Deleted e = true →
  fst (planRemoteOnly p r e true rem g) = [action ADeleteRemote p 0 "" false None None] ↔
  ¬ (o_kind r = "dir" ∧ lives_below p rem (entries_of g)).
Proof.
  intros Hd. unfold planRemoteOnly. rewrite Hd. simpl. unfold bindE, getE, retE. fold (entries_of g).
  rewrite <- live_descendants_spec.
  assert (planDownload p r false ≠ action ADeleteRemote p 0 "" false None None) as Hne
    by (unfold planDownload, action; repeat case_match; congruence).
  case_bool_decide as Ek; simpl; [|split; [by intros _ [? _]|done]].
  change (s_Entries (sw_state (g_sw g))) with (entries_of g).
  destruct (mountRemoteDirHasLiveDescendants p rem (entries_of g)); simpl.
  - split; [intros E; destruct Hne; congruence|intros Hn; by destruct Hn].
  - split; [by intros _ [_ ?]|done].
Qed.

Lemma kept_is_settled p l r e has g :
  o_kind l ∈ ["file"; "dir"; "symlink"] → fst (planBoth p l r e has g) = [] →
  same l (as_handed_out r) (e, has) ∨
  known (e, has) ∧ as_baseline true e l ∧ as_baseline false e (as_handed_out r).
Proof.
  intros Hk. unfold planBoth. fold (as_handed_out r). rewrite <- metaMatch_spec.
  destruct (metaMatch _ _ _ _); [by left|]. right. revert H0.
  fold (changed l e true) (changed (as_handed_out r) e false).
  destruct (has && negb (e_Deleted e)) eqn:Eb; [|done].
  apply andb_true_iff in Eb as [-> Ed%negb_true_iff].
  destruct (changed l e true) eqn:Ecl, (changed (as_handed_out r) e false) eqn:Ecr; try done.
  - destruct readonly eqn:Ero; [done|]. unfold planUpload. rewrite Ero. unfold retE. simpl.
    repeat case_bool_decide; try done. set_solver.
  - intros _. by split_and!; [..|apply changed_spec|apply changed_spec].
Qed.


(** A directory whose mode changed on both sides takes the remote mode; the
    conflict is not recorded. *)
Lemma directory_mode_gives_way p l r e g :
  o_kind l = "dir" → o_kind r = "dir" → known (e, true) →
  o_mode l ≠ e_Mode e → o_mode r ≠ e_Mode e → o_mode l ≠ o_mode r →
  fst (planBoth p l r e true g) = [action AMkdirLocal p (o_mode r) "" false None (Some r)].
Proof.
  intros Hl Hr [_ Hd] Hml Hmr Hlr. unfold planBoth. simpl in Hd. rewrite Hr, Hd.
  rewrite (bool_decide_false ("dir" = "file")), andb_false_r by done.
  unfold metaMatch, planDownload. rewrite Hl, Hr, !bool_decide_true by done. simpl.
  apply Z.eqb_neq in Hml, Hmr, Hlr. by rewrite Hml, Hmr, Hlr, !orb_true_r.
Qed.
End plan.

(** * Order of execution *)

(** The number of slashes first, the text second, in one direction or the other. *)
#[export] Instance dirLess_order : StrictWeak dirLess.
Proof.
  split; unfold dirLess.
  - intros x y. rewrite (Nat.eqb_sym (CountSlash (a_path y))). destruct (Nat.eqb_spec (CountSlash (a_path x)) (CountSlash (a_path y))).
    + apply sw_asym.
    + lia.
  - intros x y z. repeat case_match; try lia. apply sw_trans.
Qed.

#[export] Instance deleteLess_order : StrictWeak deleteLess.
Proof.
  split; unfold deleteLess.
  - intros x y. repeat case_match; try lia. apply sw_asym.
  - intros x y z. repeat case_match; try lia. intros. eapply (sw_trans (less := stringLess)); eassumption.
Qed.

Lemma under_deeper p q : under p q = true → (CountSlash p < CountSlash q)%nat.
Proof. intros (r & ->)%under_spec. rewrite !CountSlash_app. simpl. lia. Qed.

Lemma sorted_lookup {A} (P : A → A → Prop) l (i j : nat) x y :
  StronglySorted P l → l !! i = Some x → l !! j = Some y → (i < j)%nat → P x y.
Proof.
  intros Hs. revert i j. induction Hs as [|z l Hs IH Hz]; intros i j Hi Hj Hij; [by rewrite lookup_nil in Hi|].
  destruct i, j; simpl in *; try lia.
  - simplify_eq. rewrite Forall_lookup in Hz. by eapply Hz.
  - eapply IH; [done..|lia].
Qed.

(** The phases of a plan are its actions, each once, in an order that can be
    carried out: whatever sort is used, a directory is made after every directory
    above it and a path is deleted after every path below it. *)
Theorem execution_order `{SD : !SliceSort dirLess, SR : !SliceSort deleteLess} (plan : list syncAction) :
  let dirs := dirActions (sort_slice (less := dirLess)) plan in
  let deletes := deleteActions (sort_slice (less := deleteLess)) plan in
  dirs ++ deletes ++ fileActions plan ≡ₚ plan ∧
  ∀ (i j : nat) (a b : syncAction), under (a_path a) (a_path b) = true →
    (dirs !! i = Some a → dirs !! j = Some b → (i < j)%nat) ∧
    (deletes !! i = Some a → deletes !! j = Some b → (j < i)%nat).
Proof.
  intros dirs deletes. split.
  - unfold dirs, deletes, dirActions, deleteActions. rewrite !sort_slice_perm. unfold fileActions.
    induction plan as [|a plan IH]; [done|]. rewrite !filter_cons.
    unfold isDirAction, isDeleteAction in *. destruct (a_kind a); simpl in *; repeat case_decide; try done;
      simpl; rewrite <- ?Permutation_middle; by rewrite IH at 1.
  - intros i j a b Hu%under_deeper. split; intros Hi Hj.
    + destruct (decide (i < j)%nat) as [|Hn]; [done|]. assert (i = j ∨ (j < i)%nat) as [->|Hji] by lia.
      { simplify_eq. lia. }
      pose proof (sorted_lookup _ _ j i b a (sort_slice_sorted _) Hj Hi Hji) as Hl.
      unfold dirLess in Hl. destruct (Nat.eqb_spec (CountSlash (a_path a)) (CountSlash (a_path b))); lia.
    + destruct (decide (j < i)%nat) as [|Hn]; [done|]. assert (i = j ∨ (i < j)%nat) as [->|Hij] by lia.
      { simplify_eq. lia. }
      pose proof (sorted_lookup _ _ i j a b (sort_slice_sorted _) Hi Hj Hij) as Hl.
      unfold deleteLess in Hl. destruct (Nat.eqb_spec (CountSlash (a_path b)) (CountSlash (a_path a))); lia.
Qed.

(** A directory with a file in it and a directory below, deleted on both sides. *)
Example execution_order_sample :
  let del p := action ADeleteLocal p 0 "" false None None in
  let mk p := action AMkdirLocal p 493 "" false None None in
  let plan := [del "a"; mk "n"; del "a/b"; mk "m/x"; del "a/b/c"; mk "m"] in
  (map a_path (dirActions (insertion_sort dirLess) plan), map a_path (deleteActions (insertion_sort deleteLess) plan)) =
  (["m"; "n"; "m/x"], ["a/b/c"; "a/b"; "a"]).
Proof. vm_compute. reflexivity. Qed.
