(* ===== verification/SyncSave.v ===== *)
(** cmd/afs/sync_save_engine.go, sync_save_mutations.go and sync_save_moves.go:
    an explicit save of a mount.  Both trees are scanned with the bytes of every
    file, a strict three-way plan rejects every inbound change before the first
    write, the plan is applied below the version guards of the client, and only
    when both trees have been scanned again and are equal is the new baseline
    published. *)
From S2P Require Import Prelude Content Paths FsClient SyncState SyncWorld SyncPlan.
#[local] Open Scope string_scope.
#[local] Open Scope list_scope.
#[local] Open Scope Z_scope.

#[local] Notation "x ← y ; z" := (bindE y (λ x, z))
  (at level 20, y at level 100, z at level 200, only parsing) : sync_scope.
#[local] Notation "x ⇐ y ; z" := (bindR y (λ x, z))
  (at level 20, y at level 100, z at level 200, only parsing) : sync_scope.
#[local] Open Scope sync_scope.

Record syncSaveEntry := {
  sv_Type : string;
  sv_Mode : Z;
  sv_Size : Z;
  sv_Hash : string;
  sv_Target : string;
  sv_mtimeMs : Z;
  sv_identity : string;
  sv_baselineHash : string;
  sv_chunkSize : Z;
  sv_chunkHashes : list string;
  sv_hasChunks : bool;
  sv_chunksCurrent : bool;
  sv_remoteStat : option StatResult
}.

Notation syncSaveTree := (gmap string syncSaveEntry).

(** A literal of the source with the fields it leaves out at zero. *)
Definition saveEntry (type : string) (mode mtimeMs : Z) (identity : string) : syncSaveEntry :=
  {| sv_Type := type; sv_Mode := mode; sv_Size := 0; sv_Hash := ""; sv_Target := "";
     sv_mtimeMs := mtimeMs; sv_identity := identity; sv_baselineHash := ""; sv_chunkSize := 0;
     sv_chunkHashes := []; sv_hasChunks := false; sv_chunksCurrent := false; sv_remoteStat := None |}.

Definition zeroSave : syncSaveEntry := saveEntry "" 0 0 "".

(** Assignments to fields. *)
Definition setSaveTarget (target : string) (e : syncSaveEntry) : syncSaveEntry :=
  {| sv_Type := sv_Type e; sv_Mode := 0; sv_Size := sv_Size e; sv_Hash := sv_Hash e; sv_Target := target;
     sv_mtimeMs := sv_mtimeMs e; sv_identity := sv_identity e; sv_baselineHash := sv_baselineHash e;
     sv_chunkSize := sv_chunkSize e; sv_chunkHashes := sv_chunkHashes e; sv_hasChunks := sv_hasChunks e;
     sv_chunksCurrent := sv_chunksCurrent e; sv_remoteStat := sv_remoteStat e |}.

Definition setSaveFile (size : Z) (hash : string) (e : syncSaveEntry) : syncSaveEntry :=
  {| sv_Type := sv_Type e; sv_Mode := sv_Mode e; sv_Size := size; sv_Hash := hash; sv_Target := sv_Target e;
     sv_mtimeMs := sv_mtimeMs e; sv_identity := sv_identity e; sv_baselineHash := sv_baselineHash e;
     sv_chunkSize := sv_chunkSize e; sv_chunkHashes := sv_chunkHashes e; sv_hasChunks := sv_hasChunks e;
     sv_chunksCurrent := sv_chunksCurrent e; sv_remoteStat := sv_remoteStat e |}.

Definition setSaveStat (st : option StatResult) (e : syncSaveEntry) : syncSaveEntry :=
  {| sv_Type := sv_Type e; sv_Mode := sv_Mode e; sv_Size := sv_Size e; sv_Hash := sv_Hash e;
     sv_Target := sv_Target e; sv_mtimeMs := sv_mtimeMs e; sv_identity := sv_identity e;
     sv_baselineHash := sv_baselineHash e; sv_chunkSize := sv_chunkSize e;
     sv_chunkHashes := sv_chunkHashes e; sv_hasChunks := sv_hasChunks e;
     sv_chunksCurrent := sv_chunksCurrent e; sv_remoteStat := st |}.

Definition setSaveChunks (baselineHash : string) (chunkSize : Z) (hashes : list string)
    (has current : bool) (e : syncSaveEntry) : syncSaveEntry :=
  {| sv_Type := sv_Type e; sv_Mode := sv_Mode e; sv_Size := sv_Size e; sv_Hash := sv_Hash e;
     sv_Target := sv_Target e; sv_mtimeMs := sv_mtimeMs e; sv_identity := sv_identity e;
     sv_baselineHash := baselineHash; sv_chunkSize := chunkSize; sv_chunkHashes := hashes;
     sv_hasChunks := has; sv_chunksCurrent := current; sv_remoteStat := sv_remoteStat e |}.

(** * Comparisons *)

Definition sameSyncSaveContent (a b : syncSaveEntry) : bool :=
  bool_decide (sv_Type a = sv_Type b) && (sv_Size a =? sv_Size b)
  && bool_decide (sv_Hash a = sv_Hash b) && bool_decide (sv_Target a = sv_Target b).

Definition equalSyncSaveEntry (a b : syncSaveEntry) : bool :=
  (sv_Mode a =? sv_Mode b) && sameSyncSaveContent a b.

(** A range over a map visits its keys in some order, which here only decides
    which of several differences the error names. *)
Definition compareSyncSaveTrees (expected actual : syncSaveTree) : option error :=
  let missing '(rel, want) :=
    match actual !! rel with
    | None => Some (plain ("missing " +:+ rel))
    | Some got => if equalSyncSaveEntry want got then None else Some (plain ("changed " +:+ rel))
    end in
  let extra '(rel, _) :=
    match expected !! rel with None => Some (plain ("extra " +:+ rel)) | Some _ => None end in
  head (omap missing (map_to_list expected) ++ omap extra (map_to_list actual)).

Definition syncSaveBaselineMode (stored : SyncEntry) : Z :=
  if bool_decide (e_Type stored = "symlink") then 0 else e_Mode stored.

Definition syncSaveBaselineContent (entry : syncSaveEntry) (stored : SyncEntry) : bool :=
  if negb (bool_decide (sv_Type entry = e_Type stored)) then false
  else if bool_decide (sv_Type entry = "dir") then true
  else if bool_decide (sv_Type entry = "symlink") then bool_decide (sv_Target entry = e_Target stored)
  else if bool_decide (sv_Type entry = "file") then
    negb (bool_decide (e_RemoteHash stored = "")) && (sv_Size entry =? e_Size stored)
    && (bool_decide (sv_Hash entry = e_RemoteHash stored)
        || bool_decide (sv_baselineHash entry = e_RemoteHash stored))
  else false.

Definition syncSaveMatchesBaseline (entry : syncSaveEntry) (stored : SyncEntry) : bool :=
  (sv_Mode entry =? syncSaveBaselineMode stored) && syncSaveBaselineContent entry stored.

Definition syncSavePathBefore (a b : string) : bool :=
  let x := CountSlash a in
  let y := CountSlash b in
  if negb (x =? y)%nat then (x <? y)%nat
  else stringLess a b.

Definition syncSavePathAfter (a b : string) : bool := syncSavePathBefore b a.

(** * The plan *)

(** One turn of the range over the remote tree: what is to be removed and what
    is to be written at [rel]. *)
Definition planRemoteEntry (local : syncSaveTree) (baseline : entries) (rel : string)
    (observed : syncSaveEntry) : result error (list string * list string) :=
  let '(stored, tracked) := lookupEntry baseline rel in
  let unchanged := tracked && syncSaveMatchesBaseline observed stored in
  match local !! rel with
  | None =>
      if negb unchanged
      then Err (plain ("save conflict at " +:+ rel +:+ ": remote-only entry is untracked or changed"))
      else Ok ([rel], [])
  | Some intended =>
      if equalSyncSaveEntry intended observed then Ok ([], [])
      else
        let contentOK := sameSyncSaveContent intended observed
                         || tracked && syncSaveBaselineContent observed stored in
        let modeOK := (sv_Mode observed =? sv_Mode intended)
                      || tracked && bool_decide (sv_Type observed = e_Type stored)
                         && (sv_Mode observed =? syncSaveBaselineMode stored) in
        if negb unchanged && (negb contentOK || negb modeOK)
        then Err (plain ("save conflict at " +:+ rel +:+ ": Redis differs from the stored baseline"))
        else Ok (if negb (bool_decide (sv_Type intended = sv_Type observed))
                    || bool_decide (sv_Type intended = "symlink")
                       && negb (bool_decide (sv_Target intended = sv_Target observed))
                 then [rel] else [], [rel])
  end.

(** The range over the remote tree in the order [order]. *)
Fixpoint planRemote (local remote : syncSaveTree) (baseline : entries) (order : list string) :
    result error (list string * list string) :=
  match order with
  | [] => Ok ([], [])
  | rel :: order =>
      match remote !! rel with
      | None => planRemote local remote baseline order
      | Some observed =>
          match planRemoteEntry local baseline rel observed with
          | Err e => Err e
          | Ok (rm, wr) =>
              match planRemote local remote baseline order with
              | Err e => Err e
              | Ok (remove, write) => Ok (rm ++ remove, wr ++ write)
              end
          end
      end
  end.

(** The orders in which the source ranges over a tree. *)
Definition mapRange := syncSaveTree → list string.

Definition planSyncSave `{!SliceSort syncSavePathAfter, !SliceSort syncSavePathBefore} (keys : mapRange)
    (local remote : syncSaveTree) (baseline : entries) : result error (list string * list string) :=
  match planRemote local remote baseline (keys remote) with
  | Err e => Err e
  | Ok (remove, write) =>
      let fresh := filter (λ rel, remote !! rel = None) (keys local) in
      Ok (sort_slice (less := syncSavePathAfter) remove,
          sort_slice (less := syncSavePathBefore) (write ++ fresh))
  end.

(** * Moves while the mount drains *)

(** [syncSaveMoveRelative] has been applied: both paths are relative to the mount
    root, or the move lies outside of it. *)
Record syncConflictMove := {
  mv_source : option string; mv_target : option string; mv_identity : string
}.

Definition outsideMove : error := plain "conflict move is outside the saved tree".

(** One path of the moved subtree. *)
Definition moveSaved (source target : string) (s : result error (syncSaveTree * gmap string bool))
    (rel : string) : result error (syncSaveTree * gmap string bool) :=
  match s with
  | Err e => Err e
  | Ok (expected, moved) =>
      let destination := target +:+ TrimPrefix rel source in
      match expected !! destination, expected !! rel with
      | Some _, _ => Err (plain ("conflict destination already present: " +:+ destination))
      | None, Some entry =>
          Ok (delete rel (<[destination := entry]> expected),
              <[destination := true]> (delete rel moved))
      | None, None => Ok (expected, moved)
      end
  end.

Definition applyMove (s : result error (syncSaveTree * gmap string bool)) (m : syncConflictMove) :
    result error (syncSaveTree * gmap string bool) :=
  match s, mv_source m, mv_target m with
  | Err e, _, _ => Err e
  | Ok _, None, _ | Ok _, _, None => Err outsideMove
  | Ok (expected, moved), Some source, Some target =>
      match expected !! source with
      | None => Ok (expected, moved)
      | Some entry =>
          if bool_decide (sv_identity entry = "") || negb (bool_decide (sv_identity entry = mv_identity m))
          then Err (plain ("changed conflict source " +:+ source))
          else
            let paths := filter (λ rel, bool_decide (rel = source) || HasPrefix rel (source +:+ "/") = true)
                           (map fst (map_to_list expected)) in
            foldl (moveSaved source target) (Ok (expected, moved)) paths
      end
  end.

Definition compareSyncSaveDrainTrees (before after : syncSaveTree) (moves : list syncConflictMove) :
    option error :=
  match foldl applyMove (Ok (before, ∅)) moves with
  | Err e => Some e
  | Ok (expected, moved) =>
      match compareSyncSaveTrees expected after with
      | Some e => Some e
      | None =>
          head (omap (λ '(rel, _),
            if bool_decide (sv_identity (default zeroSave (after !! rel))
                            = sv_identity (default zeroSave (expected !! rel)))
            then None else Some (plain ("replaced conflict candidate " +:+ rel))) (map_to_list moved))
      end
  end.

Section Save.
Context {H : Hashing} {R : Type} {RC : RemoteClient R} {cfg : @SyncCfg R}.
#[local] Notation E := (SyncWorld.E R).

(** * The local scan *)

Definition syncSaveIgnored (rel : string) (isDir : bool) : bool :=
  isSyncControlPath rel || isBaselineIgnored rel || shouldIgnore ignore rel isDir.

Definition changedDuringSave : error := plain "file changed during save".

Definition sameSyncSaveFileInfo (a b : fileInfo) : bool :=
  is_regular b && SameFile a b && (fi_size a =? fi_size b)
  && bool_decide (fi_kind a = fi_kind b) && (fi_perm a =? fi_perm b) && (fi_mtimeNs a =? fi_mtimeNs b).

(** The bytes are read at one moment; the application may act before the file is
    opened and again before the path is looked at. *)
Definition hashSyncSaveFile (p : string) (before : fileInfo) : E (result error string) :=
  _ ⇐ returnIf ((fi_size before <? 0) || (maxFileBytes <? fi_size before)) (plain "exceeds byte cap");
  _ ← modE (app Waiting);
  opened ⇐ Lstat p;
  _ ⇐ returnIf (negb (sameSyncSaveFileInfo before opened)) changedDuringSave;
  _ ⇐ ctxErr;
  data ⇐ ReadFile p;
  _ ⇐ returnIf (maxFileBytes <? len data) (plain "file grew beyond byte cap");
  _ ← modE (app Waiting);
  after ⇐ Lstat p;
  _ ⇐ returnIf (negb (len data =? fi_size before) || negb (sameSyncSaveFileInfo before after)) changedDuringSave;
  okE (sha256Hex data).

(** [filepath.WalkDir] does not enter an ignored directory. *)
Definition saveWalked (t : ltree) (p : string) : bool :=
  forallb (λ d, negb (syncSaveIgnored d true)) (ancestors p) && negb (syncSaveIgnored p (is_dir_at t p)).

(** What the walk does at one path. *)
Definition scanSaveEntry (rel : string) : E (result error syncSaveEntry) :=
  info ⇐ Lstat rel;
  let entry type mode := saveEntry type mode (UnixMilli info) (localFileIdentity info) in
  if is_dir info then okE (entry "dir" (fi_perm info))
  else if is_symlink info then
    target ⇐ orReturn (Errorf rel) (ReadLink rel);
    okE (setSaveTarget target (entry "symlink" (fi_perm info)))
  else
    hash ⇐ orReturn (Errorf rel) (hashSyncSaveFile rel info);
    okE (setSaveFile (fi_size info) hash (entry "file" (fi_perm info))).

Fixpoint scanSavePaths (paths : list string) (tree : syncSaveTree) : E (result error syncSaveTree) :=
  match paths with
  | [] => okE tree
  | rel :: paths =>
      _ ⇐ ctxErr;
      entry ⇐ scanSaveEntry rel;
      scanSavePaths paths (<[rel := entry]> tree)
  end.

(** The directories are listed at one moment, the entries are read one after the
    other; the order of the walk decides only which error comes first. *)
Definition scanSyncSaveLocal : E (result error syncSaveTree) :=
  _ ⇐ checkLocalRoot;
  _ ← modE (app Waiting);
  paths ⇐ on_tree (λ t, Ok (map fst (map_to_list (filter (λ '(p, _), saveWalked t p = true) t))));
  scanSavePaths paths ∅.

Definition readSyncSaveFile (p : string) (expected : syncSaveEntry) : E (result error bytes) :=
  let changed := plain "local file changed during save" in
  info ⇐ Lstat p;
  _ ⇐ returnIf (negb (is_regular info) || negb (fi_size info =? sv_Size expected)
                || negb (fi_perm info =? sv_Mode expected)
                || negb (bool_decide (localFileIdentity info = sv_identity expected))) changed;
  _ ⇐ ctxErr;
  _ ← modE (app Waiting);
  opened ⇐ Lstat p;
  _ ⇐ returnIf (negb (sameSyncSaveFileInfo info opened)) changed;
  data ⇐ ReadFile p;
  _ ⇐ ctxErr;
  _ ⇐ returnIf (negb (len data =? sv_Size expected) || negb (bool_decide (sha256Hex data = sv_Hash expected)))
        changed;
  okE data.

(** * The remote scan *)

Definition syncSaveChunkThreshold : Z :=
  if 0 <? cfgChunkThreshold then cfgChunkThreshold else defaultChunkThreshold.

(** The loop over the offsets is that of [uploadChunkHashes]. *)
Definition syncSaveChunks (data : bytes) : Z * list string :=
  if len data <=? syncSaveChunkThreshold then (0, [])
  else (effectiveChunkSize cfgChunkSize, uploadChunkHashes data cfgChunkSize).

Definition scanSyncSaveRemoteFile (baseline : entries) (rel : string) (entry : syncSaveEntry) :
    E (result error syncSaveEntry) :=
  let p := absoluteRemotePath rel in
  _ ⇐ ctxErr;
  entry ⇐ (match sv_remoteStat entry with
           | Some _ => okE entry
           | None =>
               st ⇐ remote (rStat baseCtx p);
               match st with
               | None => errE (plain "Redis path disappeared during scan")
               | Some st => okE (setSaveStat (Some st) entry)
               end
           end);
  data ⇐ remote (rCat baseCtx p);
  _ ⇐ returnIf (negb (len data =? sv_Size entry)) (plain "Redis file changed during scan");
  let '(chunkSize, hashes) := syncSaveChunks data in
  m ⇐ remote (rChunkMeta baseCtx p);
  let '(storedSize, storedHashes) := m in
  let stored := fst (lookupEntry baseline rel) in
  okE (setSaveChunks
         (if 0 <? e_ChunkSize stored then compositeHash (uploadChunkHashes data (e_ChunkSize stored)) else "")
         chunkSize hashes
         (negb (storedSize =? 0) || negb (bool_decide (storedHashes = [])))
         ((storedSize =? chunkSize) && bool_decide (storedHashes = hashes))
         (setSaveFile (sv_Size entry) (sha256Hex data) entry)).

Definition validSaveName (name : string) : bool :=
  negb (bool_decide (name = "" ∨ name = "." ∨ name = "..")) && negb (Contains name "/").

(** The tree and the small files found so far, which are read last. *)
Definition scanAcc : Type := syncSaveTree * list (string * syncSaveEntry).

(** One item of a listing; [walk] is the walk of a directory. *)
Definition walkSaveItem (walk : string → scanAcc → E (result error scanAcc)) (baseline : entries)
    (dir : string) (item : LsEntry) (acc : scanAcc) : E (result error scanAcc) :=
  let '(tree, small) := acc in
  _ ⇐ ctxErr;
  _ ⇐ returnIf (negb (validSaveName (ls_Name item))) (plain "invalid Redis entry name");
  let rel := TrimPrefix (joinRemote dir (ls_Name item)) "/" in
  let type := ls_Type item in
  if syncSaveIgnored rel (bool_decide (type = "dir")) then okE acc
  else
    _ ⇐ returnIf (bool_decide (is_Some (tree !! rel))) (plain ("duplicate Redis entry " +:+ rel));
    let entry := saveEntry type (ls_Mode item) (ls_Mtime item) "" in
    _ ⇐ returnIf (bool_decide (type = "file") && ((ls_Size item <? 0) || (maxFileBytes <? ls_Size item)))
          (plain ("Redis file " +:+ rel +:+ " exceeds byte cap"));
    if bool_decide (type = "file") && (ls_Size item <=? 2 ^ 20) then
      let entry := setSaveFile (ls_Size item) "" entry in
      okE (<[rel := entry]> tree, small ++ [(rel, entry)])
    else
      st ⇐ remote (rStat baseCtx (absoluteRemotePath rel));
      _ ⇐ returnIf (bool_decide (st = None)) (plain ("Redis path " +:+ rel +:+ " disappeared during scan"));
      let entry := setSaveStat st entry in
      if bool_decide (type = "dir") then
        acc ⇐ walk (absoluteRemotePath rel) (<[rel := entry]> tree, small);
        okE (<[rel := entry]> (fst acc), snd acc)
      else if bool_decide (type = "symlink") then
        target ⇐ orReturn (Errorf rel) (remote (rReadlink baseCtx (absoluteRemotePath rel)));
        okE (<[rel := setSaveTarget target entry]> tree, small)
      else if bool_decide (type = "file") then
        entry ⇐ orReturn (Errorf rel)
          (scanSyncSaveRemoteFile baseline rel (setSaveFile (ls_Size item) "" entry));
        okE (<[rel := entry]> tree, small)
      else errE (plain ("unsupported Redis entry " +:+ rel)).

Fixpoint walkSaveItems (walk : string → scanAcc → E (result error scanAcc)) (baseline : entries)
    (dir : string) (items : list LsEntry) (acc : scanAcc) : E (result error scanAcc) :=
  match items with
  | [] => okE acc
  | item :: items =>
      acc ⇐ walkSaveItem walk baseline dir item acc;
      walkSaveItems walk baseline dir items acc
  end.

(** One unit of fuel per directory level. *)
Fixpoint walkSaveRemote (fuel : nat) (baseline : entries) (dir : string) (acc : scanAcc) :
    E (result error scanAcc) :=
  match fuel with
  | O => errE (plain "out of fuel")
  | S fuel =>
      _ ⇐ ctxErr;
      items ⇐ remote (rLsLong baseCtx dir);
      walkSaveItems (walkSaveRemote fuel baseline) baseline dir items acc
  end.

(** The readers of the small files run at once; they only read, and each stores
    at its own path, so the model runs them in the order they are fed. *)
Fixpoint scanSmallFiles (baseline : entries) (jobs : list (string * syncSaveEntry)) (tree : syncSaveTree) :
    E (result error syncSaveTree) :=
  match jobs with
  | [] => okE tree
  | (rel, entry) :: jobs =>
      entry ⇐ orReturn (Errorf rel) (scanSyncSaveRemoteFile baseline rel entry);
      scanSmallFiles baseline jobs (<[rel := entry]> tree)
  end.

Definition scanSyncSaveRemote (depth : nat) (baseline : entries) : E (result error syncSaveTree) :=
  _ ← invalidateCache;
  root ⇐ remote (rStat baseCtx "/");
  _ ⇐ returnIf (negb (bool_decide (st_type <$> root = Some "dir"))) (plain "Redis root is not a directory");
  acc ⇐ walkSaveRemote depth baseline "/" (∅, []);
  tree ⇐ scanSmallFiles baseline (snd acc) (fst acc);
  _ ⇐ ctxErr;
  okE tree.

(** * Applying the plan *)

Definition removeSyncSaveEntry (rel : string) (previous : syncSaveEntry) : E (result error ()) :=
  _ ⇐ ctxErr;
  remote (rRm (WithExpectedStat baseCtx (sv_remoteStat previous)) (absoluteRemotePath rel)).

Definition chmodSyncSaveEntry (rel : string) (mode : Z) (previous : syncSaveEntry) : E (result error ()) :=
  if sv_Mode previous =? mode then okE ()
  else remote (rChmod baseCtx (absoluteRemotePath rel) mode).

(** A failed chmod leaves the mode of the creation in the baseline. *)
Definition finishSyncSaveCreate (rel : string) (mode : Z) (created : syncSaveEntry) : E (result error ()) :=
  r ← chmodSyncSaveEntry rel mode created;
  match r with
  | Ok _ => okE ()
  | Err e =>
      _ ← putEntry rel {| e_Type := sv_Type created; e_Mode := sv_Mode created; e_Size := 0;
                          e_LocalHash := ""; e_LocalIdentity := ""; e_LocalMtimeMs := 0;
                          e_RemoteHash := ""; e_RemoteMtimeMs := 0; e_Target := sv_Target created;
                          e_LastSyncedAt := 0; e_ChunkSize := 0; e_ChunkHashes := []; e_Version := 0;
                          e_Deleted := false |};
      errE e
  end.

Definition writeSyncSaveEntry (rel : string) (entry previous : syncSaveEntry) : E (result error ()) :=
  _ ⇐ ctxErr;
  let remotePath := absoluteRemotePath rel in
  if negb (bool_decide (sv_Type previous = "")) && sameSyncSaveContent entry previous
  then chmodSyncSaveEntry rel (sv_Mode entry) previous
  else if bool_decide (sv_Type entry = "dir") then
    _ ⇐ remote (rMkdirMode baseCtx remotePath 493);
    finishSyncSaveCreate rel (sv_Mode entry) (saveEntry "dir" 493 0 "")
  else if bool_decide (sv_Type entry = "symlink") then remote (rLn baseCtx (sv_Target entry) remotePath)
  else if bool_decide (sv_Type entry = "file") then
    data ⇐ readSyncSaveFile rel entry;
    remote (rEchoCreate (WithExpectedStat baseCtx (sv_remoteStat previous)) remotePath data (sv_Mode entry))
  else okE ().

Fixpoint removeSaved (paths : list string) (remoteTree : syncSaveTree) : E (result error syncSaveTree) :=
  match paths with
  | [] => okE remoteTree
  | rel :: paths =>
      _ ⇐ orReturn (Errorf ("save remove " +:+ rel))
            (removeSyncSaveEntry rel (default zeroSave (remoteTree !! rel)));
      removeSaved paths (delete rel remoteTree)
  end.

Fixpoint writeSaved (paths : list string) (local remoteTree : syncSaveTree) : E (result error ()) :=
  match paths with
  | [] => okE ()
  | rel :: paths =>
      _ ⇐ orReturn (Errorf ("save " +:+ rel))
            (writeSyncSaveEntry rel (default zeroSave (local !! rel)) (default zeroSave (remoteTree !! rel)));
      writeSaved paths local remoteTree
  end.

(** The chunk manifest of one file is made that of its bytes. *)
Definition normalizeChunks (rel : string) (entry previous : syncSaveEntry) : E (result error ()) :=
  if negb (bool_decide (sv_Type entry = "file")) then okE ()
  else if (sv_Size entry <=? syncSaveChunkThreshold) && negb (sv_hasChunks previous) then okE ()
  else if sameSyncSaveContent entry previous && sv_chunksCurrent previous then okE ()
  else
    data ⇐ readSyncSaveFile rel entry;
    let '(chunkSize, hashes) := syncSaveChunks data in
    let p := absoluteRemotePath rel in
    st ⇐ remote (rStat baseCtx p);
    published ⇐ remote (rCat baseCtx p);
    _ ⇐ returnIf (negb (bool_decide (sha256Hex published = sv_Hash entry)))
          (plain ("Redis file " +:+ rel +:+ " changed before chunk metadata publication"));
    orReturn (Errorf ("save chunk metadata " +:+ rel))
      (remote (rWriteChunks (WithExpectedStat baseCtx st) p ∅ chunkSize (sv_Size entry) hashes)).

Fixpoint normalizeAll (paths : list string) (local remoteTree : syncSaveTree) : E (result error ()) :=
  match paths with
  | [] => okE ()
  | rel :: paths =>
      _ ⇐ normalizeChunks rel (default zeroSave (local !! rel)) (default zeroSave (remoteTree !! rel));
      normalizeAll paths local remoteTree
  end.

(** * The new baseline *)

Definition savedEntry (now version : Z) (entry observed : syncSaveEntry) : SyncEntry :=
  let hash := if 0 <? sv_chunkSize observed then compositeHash (sv_chunkHashes observed) else sv_Hash entry in
  {| e_Type := sv_Type entry; e_Mode := sv_Mode entry; e_Size := sv_Size entry; e_LocalHash := hash;
     e_LocalIdentity := sv_identity entry; e_LocalMtimeMs := sv_mtimeMs entry; e_RemoteHash := hash;
     e_RemoteMtimeMs := sv_mtimeMs observed; e_Target := sv_Target entry; e_LastSyncedAt := now;
     e_ChunkSize := if 0 <? sv_chunkSize observed then sv_chunkSize observed else 0;
     e_ChunkHashes := if 0 <? sv_chunkSize observed then sv_chunkHashes observed else [];
     e_Version := version; e_Deleted := false |}.

(** The range over the verified local tree, which takes a version per entry. *)
Fixpoint savedEntries (now : Z) (verifiedLocal verifiedRemote : syncSaveTree) (order : list string)
    (next : SyncState) : result error SyncState :=
  match order with
  | [] => Ok next
  | rel :: order =>
      match verifiedLocal !! rel with
      | None => savedEntries now verifiedLocal verifiedRemote order next
      | Some entry =>
          let observed := default zeroSave (verifiedRemote !! rel) in
          if bool_decide (sv_Type entry = "file") && negb (sv_chunksCurrent observed)
          then Err (plain ("Redis chunk metadata does not match save: " +:+ rel))
          else
            let v := s_NextVersion next in
            savedEntries now verifiedLocal verifiedRemote order
              (withNextVersion (u64 (v + 1))
                 (withEntries (insert rel (savedEntry now v entry observed)) next))
      end
  end.

(** [r.state.state = next; r.state.dirty = false], after [saveSyncState] has
    written [next]. *)
Definition adoptState (next : SyncState) (w : stateWriter) : stateWriter :=
  {| sw_state := next; sw_dirty := false; sw_flush := sw_flush w; sw_disk := Some next |}.

Record syncSaveReceipt := {
  rc_Entries : Z; rc_Files : Z; rc_Bytes : Z; rc_TreeSHA256 : string; rc_CompletedAt : Z
}.

(** What the model leaves open: the order of ranges, the depth of the remote
    tree, whether the state file could be written, and [json.Marshal] of a tree. *)
Record saveChoices := {
  sc_keys : mapRange;
  sc_depth : nat;
  sc_saved : bool;
  sc_encode : syncSaveTree → bytes
}.

Definition saveReceipt (c : saveChoices) (now : Z) (local : syncSaveTree) : syncSaveReceipt :=
  let files := filter (λ e, sv_Type e = "file") (map snd (map_to_list local)) in
  {| rc_Entries := Z.of_nat (size local); rc_Files := Z.of_nat (length files);
     rc_Bytes := foldr (λ e n, sv_Size e + n) 0 files;
     rc_TreeSHA256 := sha256Hex (sc_encode c local); rc_CompletedAt := now |}.

(** [if err := compareSyncSaveTrees(...); err != nil { return err }]. *)
Definition requireSame (prefix : string) (expected actual : syncSaveTree) : E (result error ()) :=
  retE (match compareSyncSaveTrees expected actual with Some e => Err (Errorf prefix e) | None => Ok () end).

Definition saveSyncTree `{!SliceSort syncSavePathAfter, !SliceSort syncSavePathBefore}
    (c : saveChoices) (local : syncSaveTree) : E (result error syncSaveReceipt) :=
  _ ⇐ ctxErr;
  _ ⇐ returnIf readonly (plain "cannot save a read-only sync mount");
  baseline ← getE (λ g, sw_state (g_sw g));
  remoteTree ⇐ orReturn (Errorf "scan Redis tree") (scanSyncSaveRemote (sc_depth c) (s_Entries baseline));
  plan ⇐ retE (planSyncSave (sc_keys c) local remoteTree (s_Entries baseline));
  again ⇐ scanSyncSaveLocal;
  _ ⇐ requireSame "local tree changed during save" local again;
  remoteTree ⇐ removeSaved (fst plan) remoteTree;
  _ ⇐ writeSaved (snd plan) local remoteTree;
  _ ⇐ normalizeAll (sc_keys c local) local remoteTree;
  verifiedRemote ⇐ orReturn (Errorf "verify Redis tree") (scanSyncSaveRemote (sc_depth c) (s_Entries baseline));
  _ ⇐ requireSame "Redis tree does not match save" local verifiedRemote;
  verifiedLocal ⇐ scanSyncSaveLocal;
  _ ⇐ requireSame "local tree changed during save" local verifiedLocal;
  _ ⇐ ctxErr;
  t ← now;
  next ⇐ retE (savedEntries t verifiedLocal verifiedRemote (sc_keys c verifiedLocal) (withEntries (λ _, ∅) baseline));
  _ ⇐ returnIf (negb (sc_saved c)) (plain "persist save state");
  t ← now;
  _ ← onSw (adoptState (withUpdatedAt t next));
  _ ⇐ ctxErr;
  t ← now;
  okE (saveReceipt c t local).

End Save.
