(* ===== verification/SyncSaveProps.v ===== *)
(** The plan of a save (C35, C36): which saves are refused, that the order of a
    Go map does not matter, and that the plan can be carried out and makes the
    workspace the local tree. *)
From S2P Require Import Prelude Content Paths FsClient SyncState SyncWorld SyncTree SyncPlan SyncExec.
From S2P Require Import SyncPlanProps SyncSave.
#[local] Open Scope string_scope.
#[local] Open Scope list_scope.
#[local] Open Scope Z_scope.

(** * Trees up to what a save compares *)

Definition entry_equiv (a b : syncSaveEntry) : Prop := equalSyncSaveEntry a b = true.

Lemma same_content_spec a b : sameSyncSaveContent a b = true ↔
  sv_Type a = sv_Type b ∧ sv_Size a = sv_Size b ∧ sv_Hash a = sv_Hash b ∧ sv_Target a = sv_Target b.
Proof. unfold sameSyncSaveContent. rewrite !andb_true_iff, !bool_decide_eq_true, Z.eqb_eq. tauto. Qed.

Lemma entry_equiv_spec a b : entry_equiv a b ↔
  sv_Mode a = sv_Mode b ∧ sv_Type a = sv_Type b ∧ sv_Size a = sv_Size b ∧ sv_Hash a = sv_Hash b ∧
  sv_Target a = sv_Target b.
Proof. unfold entry_equiv, equalSyncSaveEntry. by rewrite andb_true_iff, same_content_spec, Z.eqb_eq. Qed.

#[export] Instance entry_equivalence : Equivalence entry_equiv.
Proof.
  split; [intros a|intros a b|intros a b c]; rewrite !entry_equiv_spec; intuition congruence.
Qed.

Definition tree_equiv (s t : syncSaveTree) : Prop := ∀ p, option_Forall2 entry_equiv (s !! p) (t !! p).

#[export] Instance tree_equivalence : Equivalence tree_equiv.
Proof.
  split.
  - intros s p. destruct (s !! p); by constructor.
  - intros s t Hst p. by symmetry.
  - intros s t u Hst Htu p. by transitivity (t !! p).
Qed.

#[export] Instance entry_equal_proper : Proper (entry_equiv ==> entry_equiv ==> eq) equalSyncSaveEntry.
Proof.
  intros a a' Ha b b' Hb. apply eq_true_iff_eq. fold (entry_equiv a b) (entry_equiv a' b').
  by rewrite Ha, Hb.
Qed.

#[export] Instance same_content_proper : Proper (entry_equiv ==> entry_equiv ==> eq) sameSyncSaveContent.
Proof.
  intros a a' Ha b b' Hb. apply eq_true_iff_eq. rewrite !same_content_spec.
  apply entry_equiv_spec in Ha, Hb. intuition congruence.
Qed.

Lemma head_omap_app {A B C} (f : A → option C) (g : B → option C) l k :
  head (omap f l ++ omap g k) = None ↔ (∀ x, x ∈ l → f x = None) ∧ (∀ y, y ∈ k → g y = None).
Proof.
  assert (∀ {X} (h : X → option C) m, omap h m = [] ↔ ∀ x, x ∈ m → h x = None) as Hnil.
  { intros X h m. induction m as [|x m IH]; simpl; [split; [intros _ y ?%elem_of_nil; done|done]|].
    destruct (h x) eqn:E.
    - split; [done|]. intros Hx. rewrite Hx in E by left. done.
    - rewrite IH. split; intros Hx y; [|intros; apply Hx; by right].
      intros [->|Hy]%elem_of_cons; auto. }
  rewrite <- !Hnil. destruct (omap f l), (omap g k); simpl; intuition congruence.
Qed.

(** [compareSyncSaveTrees] decides the equivalence. *)
Lemma compare_spec s t : compareSyncSaveTrees s t = None ↔ tree_equiv s t.
Proof.
  unfold compareSyncSaveTrees. rewrite head_omap_app. split.
  - intros [Hm He] p.
    assert (∀ a, s !! p = Some a → ∃ b, t !! p = Some b ∧ entry_equiv a b) as Hl.
    { intros a Ha%elem_of_map_to_list%Hm. unfold entry_equiv. repeat case_match; try done. eauto. }
    destruct (s !! p) as [a|] eqn:Es; [destruct (Hl a eq_refl) as (b & -> & Hab); by constructor|].
    destruct (t !! p) as [b|] eqn:Et; [|constructor].
    apply elem_of_map_to_list in Et. apply He in Et. by rewrite Es in Et.
  - intros Heq. split; intros [p x] Hx%elem_of_map_to_list; specialize (Heq p); rewrite Hx in Heq;
      inversion Heq as [? ? Hxy E1 E2|]; simplify_eq; simpl; [|done].
    unfold entry_equiv in Hxy. by rewrite Hxy.
Qed.

#[export] Instance compare_proper :
  Proper (tree_equiv ==> tree_equiv ==> iff) (λ s t, compareSyncSaveTrees s t = None).
Proof. intros s s' Hs t t' Ht. rewrite !compare_spec. by rewrite Hs, Ht. Qed.

(** * Ancestors *)

Lemma sapp_nil_r s : s +:+ "" = s.
Proof. induction s as [|c s IH]; [done|]. exact (f_equal (String c) IH). Qed.

Lemma ancestors_from_spec acc p q :
  q ∈ ancestors_from acc p ↔ ∃ r s, p = r +:+ "/" +:+ s ∧ q = acc +:+ r.
Proof.
  revert acc. induction p as [|c p IH]; intros acc; simpl.
  - split; [by intros ?%elem_of_nil|]. intros (r & s & E & _). by destruct r.
  - destruct (Ascii.eqb_spec c slash) as [->|Hc].
    + rewrite elem_of_cons, IH. split.
      * intros [->|(r & s & -> & ->)]; [exists "", p; by rewrite sapp_nil_r|].
        exists (String slash r), s. by rewrite string_app_assoc.
      * intros (r & s & E & ->). destruct r as [|c r]; [left; by rewrite sapp_nil_r|].
        injection E as <- ->. right. exists r, s. by rewrite string_app_assoc.
    + rewrite IH. split.
      * intros (r & s & -> & ->). exists (String c r), s. by rewrite string_app_assoc.
      * intros (r & s & E & ->). destruct r as [|c' r]; [by injection E as ->|].
        injection E as <- ->. exists r, s. by rewrite string_app_assoc.
Qed.

Lemma ancestors_under p q : q ∈ ancestors p ↔ under q p = true.
Proof.
  unfold ancestors. rewrite ancestors_from_spec, under_spec. split.
  - intros (r & s & -> & ->). by exists s.
  - intros [s ->]. by exists q, s.
Qed.

(** * Trees a scan yields *)

(** Directories and links carry no bytes, and a path lies below directories. *)
Definition entry_typed (e : syncSaveEntry) : Prop :=
  sv_Type e = "dir" ∧ sv_Size e = 0 ∧ sv_Hash e = "" ∧ sv_Target e = "" ∨
  sv_Type e = "symlink" ∧ sv_Size e = 0 ∧ sv_Hash e = "" ∨
  sv_Type e = "file" ∧ sv_Target e = "".

Definition is_save_dir (t : syncSaveTree) (p : string) : Prop := sv_Type <$> t !! p = Some "dir".

#[export] Instance is_save_dir_dec t p : Decision (is_save_dir t p).
Proof. unfold is_save_dir. apply _. Defined.

Record save_wf (t : syncSaveTree) : Prop := {
  wf_typed p e : t !! p = Some e → entry_typed e;
  wf_parents p q : is_Some (t !! p) → under q p = true → is_save_dir t q
}.

(** * The order of the plan *)

Lemma before_deeper a b : (CountSlash a < CountSlash b)%nat → syncSavePathBefore a b = true.
Proof. intros. unfold syncSavePathBefore. destruct (Nat.eqb_spec (CountSlash a) (CountSlash b)); simpl; lia. Qed.

Lemma before_total a b : syncSavePathBefore a b = false → syncSavePathBefore b a = false → a = b.
Proof.
  unfold syncSavePathBefore. rewrite (Nat.eqb_sym (CountSlash b)).
  destruct (Nat.eqb_spec (CountSlash a) (CountSlash b)); simpl; [|lia].
  apply stringLess_total.
Qed.

#[export] Instance before_order : StrictWeak syncSavePathBefore.
Proof.
  unfold syncSavePathBefore. split.
  - intros x y. rewrite (Nat.eqb_sym (CountSlash y)).
    destruct (Nat.eqb_spec (CountSlash x) (CountSlash y)); simpl; [apply sw_asym|lia].
  - intros x y z. repeat case_match; try lia. apply sw_trans.
Qed.

#[export] Instance after_order : StrictWeak syncSavePathAfter.
Proof.
  split; unfold syncSavePathAfter.
  - intros x y. apply (sw_asym (less := syncSavePathBefore)).
  - intros x y z ? ?. by eapply (sw_trans (less := syncSavePathBefore)).
Qed.

Section plan.
Context (local remote : syncSaveTree) (base : entries).

(** * What is refused *)

Definition stored_at (rel : string) : SyncEntry := fst (lookupEntry base rel).
Definition tracked (rel : string) : Prop := snd (lookupEntry base rel) = true.

(** Content or mode of a Redis entry are those of the last baseline. *)
Definition baseline_content (rel : string) (o : syncSaveEntry) : Prop :=
  tracked rel ∧ syncSaveBaselineContent o (stored_at rel) = true.
Definition baseline_mode (rel : string) (o : syncSaveEntry) : Prop :=
  tracked rel ∧ sv_Type o = e_Type (stored_at rel) ∧ sv_Mode o = syncSaveBaselineMode (stored_at rel).

(** Redis holds at [rel] nothing that is neither of the baseline nor intended. *)
Definition accounted (rel : string) (o : syncSaveEntry) : Prop :=
  match local !! rel with
  | None => baseline_content rel o ∧ baseline_mode rel o
  | Some i => (sameSyncSaveContent i o = true ∨ baseline_content rel o) ∧
              (sv_Mode o = sv_Mode i ∨ baseline_mode rel o)
  end.

(** Removed: what is not local, or of another type, or a link elsewhere. *)
Definition is_removed (rel : string) : Prop :=
  ∃ o, remote !! rel = Some o ∧
    match local !! rel with
    | None => True
    | Some i => sv_Type i ≠ sv_Type o ∨ sv_Type i = "symlink" ∧ sv_Target i ≠ sv_Target o
    end.

(** Written: what is local and not the same in Redis. *)
Definition is_written (rel : string) : Prop :=
  ∃ i, local !! rel = Some i ∧ ∀ o, remote !! rel = Some o → ¬ entry_equiv i o.

Lemma baseline_content_type rel o : baseline_content rel o → sv_Type o = e_Type (stored_at rel).
Proof. intros [_ Hc]. unfold syncSaveBaselineContent in Hc. by case_bool_decide. Qed.

Lemma matches_baseline rel o :
  snd (lookupEntry base rel) && syncSaveMatchesBaseline o (stored_at rel) = true ↔
  baseline_content rel o ∧ baseline_mode rel o.
Proof.
  unfold syncSaveMatchesBaseline. rewrite !andb_true_iff, Z.eqb_eq. split.
  - intros (? & ? & ?). assert (baseline_content rel o) as Hc by (by split).
    pose proof (baseline_content_type _ _ Hc). by split_and!.
  - by intros [[? ?] [? [? ?]]].
Qed.

Lemma guard_false (u c m : bool) : (u = true → c = true ∧ m = true) →
  negb u && (negb c || negb m) = false ↔ c = true ∧ m = true.
Proof. destruct u, c, m; simpl; intuition congruence. Qed.

Lemma content_ok rel i o :
  sameSyncSaveContent i o || snd (lookupEntry base rel) && syncSaveBaselineContent o (stored_at rel) = true ↔
  sameSyncSaveContent i o = true ∨ baseline_content rel o.
Proof. by rewrite orb_true_iff, andb_true_iff. Qed.

Lemma mode_ok rel i o :
  (sv_Mode o =? sv_Mode i) || snd (lookupEntry base rel) && bool_decide (sv_Type o = e_Type (stored_at rel))
     && (sv_Mode o =? syncSaveBaselineMode (stored_at rel)) = true ↔
  sv_Mode o = sv_Mode i ∨ baseline_mode rel o.
Proof.
  unfold baseline_mode, tracked.
  rewrite orb_true_iff, !andb_true_iff, bool_decide_eq_true, !Z.eqb_eq. tauto.
Qed.

Lemma relisted i o :
  negb (bool_decide (sv_Type i = sv_Type o))
    || bool_decide (sv_Type i = "symlink") && negb (bool_decide (sv_Target i = sv_Target o)) = true ↔
  sv_Type i ≠ sv_Type o ∨ sv_Type i = "symlink" ∧ sv_Target i ≠ sv_Target o.
Proof.
  by rewrite orb_true_iff, andb_true_iff, !negb_true_iff, bool_decide_eq_true, !bool_decide_eq_false.
Qed.

(** One path: refused unless accounted for, otherwise listed where it belongs. *)
Lemma planRemoteEntry_spec rel o : remote !! rel = Some o →
  match planRemoteEntry local base rel o with
  | Err _ => ¬ accounted rel o
  | Ok (rm, wr) => accounted rel o ∧
      (rm = [rel] ∧ is_removed rel ∨ rm = [] ∧ ¬ is_removed rel) ∧
      (wr = [rel] ∧ is_written rel ∨ wr = [] ∧ ¬ is_written rel)
  end.
Proof.
  intros Ho. unfold planRemoteEntry, accounted, is_removed, is_written. rewrite Ho.
  pose proof (matches_baseline rel o) as Hm. pose proof (content_ok rel) as Hc. pose proof (mode_ok rel) as Hd.
  unfold baseline_content, baseline_mode, tracked, stored_at in *.
  destruct (lookupEntry base rel) as [st tr]. simpl in *. destruct (local !! rel) as [i|] eqn:El.
  - destruct (equalSyncSaveEntry i o) eqn:Eq.
    { fold (entry_equiv i o) in Eq. pose proof Eq as (? & ? & ? & ? & ?)%entry_equiv_spec.
      split_and!; [left; by apply same_content_spec|by left|..]; right; split; try done.
      + intros (o' & [= <-] & [?|[_ ?]]); congruence.
      + intros (i' & [= <-] & Hn). by eapply Hn. }
    assert (¬ entry_equiv i o) as Hne by (unfold entry_equiv; by rewrite Eq).
    pose proof (guard_false (tr && syncSaveMatchesBaseline o st) _ _
      (λ Hu, conj (proj2 (Hc i o) (or_intror (proj1 (proj1 Hm Hu))))
                  (proj2 (Hd i o) (or_intror (proj2 (proj1 Hm Hu)))))) as Hg.
    rewrite Hc, Hd in Hg. destruct (negb _ && _).
    { intros Hacc. by apply Hg in Hacc. }
    split_and!; [by apply Hg..| |].
    + pose proof (relisted i o) as Hr. destruct (negb _ || _); [left|right]; (split; [done|]).
      * exists o. split; [done|]. by apply Hr.
      * intros (o' & [= <-] & Hx%Hr). done.
    + left. split; [done|]. exists i. split; [done|]. by intros o' [= <-].
  - destruct (tr && syncSaveMatchesBaseline o st) eqn:Em; simpl.
    + split_and!; [by apply Hm..| |].
      * left. split; [done|]. by exists o.
      * right. split; [done|]. by intros (? & ? & _).
    + intros Hx. apply Hm in Hx. congruence.
Qed.

Lemma planRemote_spec order : NoDup order → (∀ p, p ∈ order ↔ is_Some (remote !! p)) →
  ∀ done todo, order = done ++ todo →
  match planRemote local remote base todo with
  | Err _ => ∃ rel o, remote !! rel = Some o ∧ ¬ accounted rel o
  | Ok (rm, wr) => (∀ rel o, rel ∈ todo → remote !! rel = Some o → accounted rel o) ∧
      NoDup rm ∧ NoDup wr ∧
      (∀ rel, rel ∈ rm ↔ rel ∈ todo ∧ is_removed rel) ∧
      (∀ rel, rel ∈ wr ↔ rel ∈ todo ∧ is_written rel)
  end.
Proof.
  intros Hnd Hdom done todo. revert done. induction todo as [|rel todo IH]; intros d E; simpl.
  { split_and!; try constructor; set_solver. }
  assert (is_Some (remote !! rel)) as [o Ho].
  { apply Hdom. rewrite E. apply elem_of_app. right. by left. }
  rewrite Ho. pose proof (planRemoteEntry_spec rel o Ho) as Hs.
  specialize (IH (d ++ [rel])). rewrite <- app_assoc in IH. specialize (IH E).
  destruct (planRemoteEntry local base rel o) as [[rm wr]|]; [|by exists rel, o].
  destruct (planRemote local remote base todo) as [[rms wrs]|]; [|done].
  destruct IH as (Ha & Hrm & Hwr & Hir & Hiw), Hs as (Hacc & Hrel & Hwel).
  assert (rel ∉ todo) as Hni.
  { subst order. apply NoDup_app in Hnd as (_ & _ & Hnd). by apply NoDup_cons in Hnd as [? _]. }
  split_and!.
  - intros p o' [->|Hp]%elem_of_cons Hp'; [by simplify_eq|by eapply Ha].
  - destruct Hrel as [[-> Hr]|[-> Hr]]; [|done]. constructor; [|done]. rewrite Hir. by intros [? _].
  - destruct Hwel as [[-> Hr]|[-> Hr]]; [|done]. constructor; [|done]. rewrite Hiw. by intros [? _].
  - intros p. rewrite elem_of_app, Hir, elem_of_cons.
    destruct Hrel as [[-> Hr]|[-> Hr]]; [rewrite list_elem_of_singleton|rewrite elem_of_nil]; naive_solver.
  - intros p. rewrite elem_of_app, Hiw, elem_of_cons.
    destruct Hwel as [[-> Hr]|[-> Hr]]; [rewrite list_elem_of_singleton|rewrite elem_of_nil]; naive_solver.
Qed.
End plan.

(** A range visits every key once. *)
Definition is_range (keys : mapRange) : Prop := ∀ t : syncSaveTree, keys t ≡ₚ map fst (map_to_list t).

Lemma range_NoDup keys t : is_range keys → NoDup (keys t).
Proof. intros Hk. rewrite (Hk t). apply NoDup_fst_map_to_list. Qed.

Lemma range_elem keys t p : is_range keys → p ∈ keys t ↔ is_Some (t !! p).
Proof.
  intros Hk. rewrite (Hk t), list_elem_of_fmap. split.
  - intros ([q x] & -> & Hx%elem_of_map_to_list). by exists x.
  - intros [x Hx]. exists (p, x). by rewrite elem_of_map_to_list.
Qed.

Section planned.
Context `{SA : !SliceSort syncSavePathAfter, SB : !SliceSort syncSavePathBefore}.
Context (keys : mapRange) (Hkeys : is_range keys) (local remote : syncSaveTree) (base : entries).

(** What a plan lists, and in which order. *)
Lemma plan_spec :
  match planSyncSave keys local remote base with
  | Err _ => ∃ rel o, remote !! rel = Some o ∧ ¬ accounted local base rel o
  | Ok (remove, write) =>
      (∀ rel o, remote !! rel = Some o → accounted local base rel o) ∧
      NoDup remove ∧ NoDup write ∧
      (∀ rel, rel ∈ remove ↔ is_removed local remote rel) ∧
      (∀ rel, rel ∈ write ↔ is_written local remote rel) ∧
      StronglySorted (λ x y, syncSavePathAfter y x = false) remove ∧
      StronglySorted (λ x y, syncSavePathBefore y x = false) write
  end.
Proof.
  unfold planSyncSave.
  pose proof (planRemote_spec local remote base (keys remote) (range_NoDup _ _ Hkeys)
    (λ p, range_elem _ _ p Hkeys) [] _ eq_refl) as Hs.
  destruct (planRemote _ _ _ _) as [[rm wr]|]; [|done].
  destruct Hs as (Ha & Hrm & Hwr & Hir & Hiw). split_and!.
  - intros rel o Ho. apply Ha; [|done]. apply range_elem; [done|by eexists].
  - by rewrite sort_slice_perm.
  - rewrite sort_slice_perm. apply NoDup_app. split_and!; [done| |by apply NoDup_filter, range_NoDup].
    intros p [Hp _]%Hiw [Hn _]%list_elem_of_filter. apply range_elem in Hp as [o Ho]; [|done]. congruence.
  - intros rel. rewrite sort_slice_perm, Hir, range_elem by done. split; [by intros [_ ?]|].
    intros Hr. split; [|done]. destruct Hr as (o & Ho & _). by eexists.
  - intros rel. rewrite sort_slice_perm, elem_of_app, Hiw, list_elem_of_filter, !range_elem by done. split.
    + intros [[_ ?]|[Hn [i Hi]]]; [done|]. exists i. split; [done|]. intros o. by rewrite Hn.
    + intros Hw. pose proof Hw as (i & Hi & _). destruct (remote !! rel) eqn:Eo; [left|right]; split; eauto.
  - apply sort_slice_sorted.
  - apply sort_slice_sorted.
Qed.
End planned.

(** C35: a save is refused exactly when Redis holds something that is neither
    of the last baseline nor what the save intends.  A plan removes what is not
    local or has another type, writes what is local and not the same in Redis,
    each path once; and neither the orders of the ranges over maps nor the sort
    makes a difference. *)
Theorem save_plan_exact `{SA : !SliceSort syncSavePathAfter, SB : !SliceSort syncSavePathBefore}
    (keys : mapRange) (local remote : syncSaveTree) (base : entries) (Hkeys : is_range keys) :
  ((∃ e, planSyncSave keys local remote base = Err e) ↔
     ∃ rel o, remote !! rel = Some o ∧ ¬ accounted local base rel o) ∧
  ∀ remove write, planSyncSave keys local remote base = Ok (remove, write) →
    (∀ rel, rel ∈ remove ↔ is_removed local remote rel) ∧
    (∀ rel, rel ∈ write ↔ is_written local remote rel) ∧
    NoDup remove ∧ NoDup write ∧
    ∀ keys' (SA' : SliceSort syncSavePathAfter) (SB' : SliceSort syncSavePathBefore), is_range keys' →
      planSyncSave (SliceSort0 := SA') (SliceSort1 := SB') keys' local remote base = Ok (remove, write).
Proof.
  pose proof (plan_spec keys Hkeys local remote base) as Hs. split.
  - split.
    + intros [e E]. by rewrite E in Hs.
    + intros (rel & o & Ho & Hn). destruct (planSyncSave _ _ _ _) as [[rm wr]|e]; [|by exists e].
      destruct Hs as [Ha _]. by destruct (Hn (Ha rel o Ho)).
  - intros remove write E. rewrite E in Hs. destruct Hs as (Ha & Hrm & Hwr & Hir & Hiw & Srm & Swr).
    split_and!; [done..|]. intros keys' SA' SB' Hk'. pose proof (@plan_spec SA' SB' keys' Hk' local remote base) as Hs'.
    destruct (planSyncSave keys' local remote base) as [[rm' wr']|e].
    + destruct Hs' as (_ & Hrm' & Hwr' & Hir' & Hiw' & Srm' & Swr'). do 2 f_equal.
      * assert (AntiSymm (=) (λ x y, syncSavePathAfter y x = false)) by (intros x y ? ?; by apply before_total).
        apply (StronglySorted_unique (λ x y, syncSavePathAfter y x = false)); [done..|].
        apply NoDup_Permutation; [done..|]. intros p. by rewrite Hir, Hir'.
      * assert (AntiSymm (=) (λ x y, syncSavePathBefore y x = false)) by (intros x y ? ?; by apply before_total).
        apply (StronglySorted_unique (λ x y, syncSavePathBefore y x = false)); [done..|].
        apply NoDup_Permutation; [done..|]. intros p. by rewrite Hiw, Hiw'.
    + destruct Hs' as (rel & o & Ho & Hn). by destruct (Hn (Ha rel o Ho)).
Qed.

(** * Carrying the plan out *)

(** What the client promises on the tree of the workspace: a path with something
    below it cannot be removed; a new path needs the directories above it; an
    entry is given another mode, a file other bytes, and nothing else replaces
    an entry. *)
Definition store_rm (t : syncSaveTree) (rel : string) : option syncSaveTree :=
  if bool_decide (is_Some (t !! rel)) && forallb (λ q, negb (under rel q)) (map fst (map_to_list t))
  then Some (delete rel t) else None.

Definition store_put (local t : syncSaveTree) (rel : string) : option syncSaveTree :=
  match local !! rel with
  | None => None
  | Some e =>
      if forallb (λ a, bool_decide (is_save_dir t a)) (ancestors rel)
      then match t !! rel with
           | None => Some (<[rel := e]> t)
           | Some p =>
               if sameSyncSaveContent e p || bool_decide (sv_Type e = "file") && bool_decide (sv_Type p = "file")
               then Some (<[rel := e]> t) else None
           end
      else None
  end.

Definition carry_out {A} (f : A → string → option A) (l : list string) (s : option A) : option A :=
  foldl (λ s rel, s ≫= λ t, f t rel) s l.

Section carried.
Context (local remote : syncSaveTree) (Hl : save_wf local) (Hr : save_wf remote).

Lemma removed_below rel q :
  is_removed local remote rel → under rel q = true → is_Some (remote !! q) → is_removed local remote q.
Proof.
  intros (o & Ho & Hx) Hu Hq. pose proof (wf_parents _ Hr q rel Hq Hu) as Hd.
  unfold is_save_dir in Hd. rewrite Ho in Hd. simplify_eq/=. destruct Hq as [oq Hoq]. exists oq. split; [done|].
  destruct (local !! q) as [i|] eqn:Ei; [|done].
  assert (is_save_dir local rel) as Hdl by (eapply wf_parents; [done|by eexists|done]).
  unfold is_save_dir in Hdl. destruct (local !! rel) as [j|]; [|done]. simplify_eq/=.
  destruct Hx as [Hx|[Hx _]]; congruence.
Qed.

Lemma run_removes remove : NoDup remove → (∀ rel, rel ∈ remove ↔ is_removed local remote rel) →
  StronglySorted (λ x y, syncSavePathAfter y x = false) remove →
  ∀ done todo t, remove = done ++ todo → (∀ q, t !! q = if decide (q ∈ done) then None else remote !! q) →
  ∃ t', carry_out store_rm todo (Some t) = Some t' ∧
        ∀ q, t' !! q = if decide (q ∈ remove) then None else remote !! q.
Proof.
  intros Hnd Hin Hs d todo. revert d. induction todo as [|rel todo IH]; intros d t E Ht; simpl.
  { exists t. rewrite app_nil_r in E. subst d. done. }
  assert (rel ∈ remove) as Hrel by (rewrite E; apply elem_of_app; right; by left).
  assert (rel ∉ d) as Hnd'.
  { rewrite E in Hnd. apply NoDup_app in Hnd as (_ & Hx & _). intros Hd. apply (Hx rel Hd). by left. }
  pose proof (proj1 (Hin rel) Hrel) as Hrm. pose proof Hrm as (o & Ho & _).
  assert (store_rm t rel = Some (delete rel t)) as ->.
  { unfold store_rm. rewrite bool_decide_true by (rewrite Ht, decide_False by done; by eexists).
    replace (forallb _ _) with true; [done|]. symmetry. apply forallb_forall. intros q Hq.
    apply list_elem_of_In, list_elem_of_fmap in Hq as ([q' x] & -> & Hx%elem_of_map_to_list). simpl.
    apply negb_true_iff. destruct (under rel q') eqn:Eu; [|done]. rewrite Ht in Hx.
    destruct (decide (q' ∈ d)) as [|Hnq]; [done|].
    assert (q' ∈ remove) as Hq' by (apply Hin; eapply removed_below; [done..|by eexists]).
    rewrite E in Hq', Hs. apply elem_of_app in Hq' as [?|Hq']; [done|].
    apply StronglySorted_app in Hs as (_ & _ & Hs); apply StronglySorted_inv in Hs as [_ Hs]. pose proof (under_deeper _ _ Eu) as Hdeep.
    apply elem_of_cons in Hq' as [->|Hq']; [lia|]. rewrite Forall_forall in Hs. specialize (Hs _ Hq').
    unfold syncSavePathAfter in Hs. rewrite before_deeper in Hs by done. done. }
  apply (IH (d ++ [rel])); [by rewrite <- app_assoc|]. intros q.
  destruct (decide (q = rel)) as [->|Hne].
  - rewrite lookup_delete_eq, decide_True; [done|]. apply elem_of_app. right. by left.
  - rewrite lookup_delete_ne, Ht by done. apply decide_ext. rewrite elem_of_app, list_elem_of_singleton. tauto.
Qed.

(** An entry that stays and is written again can be replaced in place. *)
Lemma kept_replaceable rel i o : local !! rel = Some i → remote !! rel = Some o → ¬ is_removed local remote rel →
  sameSyncSaveContent i o || bool_decide (sv_Type i = "file") && bool_decide (sv_Type o = "file") = true.
Proof.
  intros Hi Ho Hk. apply orb_true_iff. rewrite same_content_spec, andb_true_iff, !bool_decide_eq_true.
  assert (sv_Type i = sv_Type o) as Ht.
  { destruct (decide (sv_Type i = sv_Type o)); [done|]. destruct Hk. exists o. rewrite Hi. eauto. }
  destruct (wf_typed _ Hl rel i Hi) as [(? & ? & ? & ?)|[(Hs & ? & ?)|(? & ?)]],
    (wf_typed _ Hr rel o Ho) as [(? & ? & ? & ?)|[(? & ? & ?)|(? & ?)]]; try congruence.
  - left. split_and!; congruence.
  - left. destruct (decide (sv_Target i = sv_Target o)); [split_and!; congruence|].
    destruct Hk. exists o. rewrite Hi. eauto.
  - right. split; congruence.
Qed.

(** The directories above a written path are there when it is written. *)
Lemma written_parent (remove write : list string) (t0 t : syncSaveTree) (d todo : list string) rel i a :
  (∀ rel, rel ∈ remove ↔ is_removed local remote rel) →
  (∀ rel, rel ∈ write ↔ is_written local remote rel) →
  StronglySorted (λ x y, syncSavePathBefore y x = false) write →
  (∀ q, t0 !! q = if decide (q ∈ remove) then None else remote !! q) → write = d ++ rel :: todo →
  (∀ q, t !! q = if decide (q ∈ d) then local !! q else t0 !! q) → local !! rel = Some i →
  under a rel = true → is_save_dir t a.
Proof.
  intros Hir Hiw Hs Ht0 E Ht Hi Hu. assert (is_save_dir local a) as Hda by (eapply wf_parents; [done|by eexists|done]).
  unfold is_save_dir. rewrite Ht. case_decide as Hd; [done|].
  assert (a ∉ write) as Hnw.
  { rewrite E in Hs |- *. intros [?|Hw]%elem_of_app; [done|].
    apply StronglySorted_app in Hs as (_ & _ & Hs); apply StronglySorted_inv in Hs as [_ Hs]. pose proof (under_deeper _ _ Hu) as Hdeep.
    apply elem_of_cons in Hw as [->|Hw]; [lia|]. rewrite Forall_forall in Hs. specialize (Hs _ Hw).
    rewrite before_deeper in Hs by done. done. }
  unfold is_save_dir in Hda. destruct (local !! a) as [j|] eqn:Ej; [|done].
  rewrite Hiw in Hnw. unfold is_written in Hnw. destruct (remote !! a) as [o|] eqn:Eo.
  2:{ destruct Hnw. exists j. split; [done|]. intros o Ho'. congruence. }
  assert (entry_equiv j o) as (? & Htype & ? & ? & Htarget)%entry_equiv_spec.
  { destruct (equalSyncSaveEntry j o) eqn:Eq; [done|]. destruct Hnw. exists j. split; [done|].
    intros o' Ho'. assert (o' = o) as -> by congruence. unfold entry_equiv. by rewrite Eq. }
  rewrite Ht0, decide_False, Eo; [simpl in *; congruence|].
  rewrite Hir. intros (o' & Ho' & Hx). rewrite Ej in Hx. rewrite Eo in Ho'. simplify_eq.
  destruct Hx as [?|[_ ?]]; congruence.
Qed.

Lemma run_writes (remove write : list string) (t0 : syncSaveTree) : NoDup write → (∀ rel, rel ∈ remove ↔ is_removed local remote rel) →
  (∀ rel, rel ∈ write ↔ is_written local remote rel) →
  StronglySorted (λ x y, syncSavePathBefore y x = false) write →
  (∀ q, t0 !! q = if decide (q ∈ remove) then None else remote !! q) →
  ∀ done todo t, write = done ++ todo → (∀ q, t !! q = if decide (q ∈ done) then local !! q else t0 !! q) →
  ∃ t', carry_out (store_put local) todo (Some t) = Some t' ∧
        ∀ q, t' !! q = if decide (q ∈ write) then local !! q else t0 !! q.
Proof.
  intros Hnd Hir Hiw Hs Ht0 d todo. revert d. induction todo as [|rel todo IH]; intros d t E Ht; simpl.
  { exists t. rewrite app_nil_r in E. subst d. done. }
  assert (rel ∈ write) as Hrel by (rewrite E; apply elem_of_app; right; by left).
  assert (rel ∉ d) as Hnd'.
  { rewrite E in Hnd. apply NoDup_app in Hnd as (_ & Hx & _). intros Hd. apply (Hx rel Hd). by left. }
  pose proof (proj1 (Hiw rel) Hrel) as (i & Hi & Hne).
  assert (store_put local t rel = Some (<[rel := i]> t)) as ->.
  { unfold store_put. rewrite Hi. replace (forallb _ _) with true.
    2:{ symmetry. apply forallb_forall. intros a Ha%list_elem_of_In%ancestors_under. apply bool_decide_eq_true.
        eapply written_parent; eauto. }
    rewrite Ht, decide_False, Ht0 by done. case_decide as Hd; [done|].
    destruct (remote !! rel) as [o|] eqn:Eo; [|done]. rewrite (kept_replaceable rel i o); [done..|]. by rewrite <- Hir. }
  apply (IH (d ++ [rel])); [by rewrite <- app_assoc|]. intros q.
  destruct (decide (q = rel)) as [->|Hq].
  - rewrite lookup_insert_eq, decide_True; [done|]. apply elem_of_app. right. by left.
  - rewrite lookup_insert_ne, Ht by done. apply decide_ext. rewrite elem_of_app, list_elem_of_singleton. tauto.
Qed.
End carried.

(** C36: the plan of a save can be carried out.  Between trees as the scans yield
    them, every removal in the order of the plan finds nothing below its path,
    every write finds its directories and nothing in its way, and what is in the
    workspace then is the local tree. *)
Theorem save_plan_reaches_local `{SA : !SliceSort syncSavePathAfter, SB : !SliceSort syncSavePathBefore}
    (keys : mapRange) (local remote : syncSaveTree) (base : entries) (remove write : list string)
    (Hkeys : is_range keys) (Hl : save_wf local) (Hr : save_wf remote)
    (Hplan : planSyncSave keys local remote base = Ok (remove, write)) :
  ∃ t t', carry_out store_rm remove (Some remote) = Some t ∧
          carry_out (store_put local) write (Some t) = Some t' ∧ tree_equiv t' local.
Proof.
  pose proof (plan_spec keys Hkeys local remote base) as Hs. rewrite Hplan in Hs.
  destruct Hs as (_ & Hrm & Hwr & Hir & Hiw & Srm & Swr).
  destruct (run_removes local remote Hl Hr remove Hrm Hir Srm [] _ remote eq_refl) as (t & Et & Ht).
  { intros q. by rewrite decide_False by apply not_elem_of_nil. }
  destruct (run_writes local remote Hl Hr remove write t Hwr Hir Hiw Swr Ht [] _ t eq_refl) as (t' & Et' & Ht').
  { intros q. by rewrite decide_False by apply not_elem_of_nil. }
  exists t, t'. split_and!; [done..|]. intros q. rewrite Ht', Ht. case_decide as Hw; [done|].
  rewrite Hiw in Hw. destruct (local !! q) as [i|] eqn:Ei.
  - destruct (remote !! q) as [o|] eqn:Eo; [|destruct Hw; exists i; split; [done|]; intros o Ho'; congruence].
    assert (entry_equiv i o) as Heq.
    { destruct (equalSyncSaveEntry i o) eqn:Eq; [done|]. destruct Hw. exists i. split; [done|].
      intros o' Ho'. assert (o' = o) as -> by congruence. unfold entry_equiv. by rewrite Eq. }
    rewrite decide_False; [by constructor|]. rewrite Hir. intros (o' & Ho' & Hx).
    rewrite Ei in Hx. rewrite Eo in Ho'. simplify_eq.
    apply entry_equiv_spec in Heq as (? & ? & ? & ? & ?). destruct Hx as [?|[_ ?]]; congruence.
  - case_decide as Hd; [constructor|]. rewrite Hir in Hd. destruct (remote !! q) as [o|] eqn:Eo; [|constructor].
    destruct Hd. exists o. by rewrite Ei.
Qed.

(** * Concrete plans *)

(** A directory that became a file and a file that moved into a new directory. *)
Definition sample_dir : syncSaveEntry := saveEntry "dir" 493 0 "".
Definition sample_file (hash : string) : syncSaveEntry := setSaveFile 3 hash (saveEntry "file" 420 0 "").
Definition sample_local : syncSaveTree := {[ "d" := sample_file "new"; "n" := sample_dir; "n/x" := sample_file "old" ]}.
Definition sample_remote : syncSaveTree := {[ "d" := sample_dir; "d/x" := sample_file "old" ]}.
Definition sample_stored (type hash : string) (mode size : Z) : SyncEntry :=
  setMode mode {| e_Type := type; e_Mode := 0; e_Size := size; e_LocalHash := hash; e_LocalIdentity := "";
     e_LocalMtimeMs := 0; e_RemoteHash := hash; e_RemoteMtimeMs := 0; e_Target := ""; e_LastSyncedAt := 0;
     e_ChunkSize := 0; e_ChunkHashes := []; e_Version := 0; e_Deleted := false |}.
Definition sample_base : entries := {[ "d" := sample_stored "dir" "" 493 0; "d/x" := sample_stored "file" "old" 420 3 ]}.
Definition sample_range : mapRange := λ t, map fst (map_to_list t).

Lemma sample_range_ok : is_range sample_range.
Proof. intros t. reflexivity. Qed.

Lemma wf_list t : forallb (λ '(p, e),
    (bool_decide (sv_Type e = "dir") && (sv_Size e =? 0) && bool_decide (sv_Hash e = "") && bool_decide (sv_Target e = "")
     || bool_decide (sv_Type e = "file") && bool_decide (sv_Target e = ""))
    && forallb (λ a, bool_decide (is_save_dir t a)) (ancestors p)) (map_to_list t) = true → save_wf t.
Proof.
  rewrite forallb_forall. intros Ht. split.
  - intros p e He%elem_of_map_to_list%list_elem_of_In%Ht.
    rewrite andb_true_iff, orb_true_iff, !andb_true_iff, Z.eqb_eq, !bool_decide_eq_true in He.
    destruct He as [[[[[? ?] ?] ?]|[? ?]] _]; [by left|right; by right].
  - intros p q [e He%elem_of_map_to_list%list_elem_of_In%Ht] Hu. apply andb_true_iff in He as [_ He].
    rewrite forallb_forall in He. apply (bool_decide_eq_true (is_save_dir t q)), He. by apply list_elem_of_In, ancestors_under.
Qed.

Lemma save_plan_exact_witness :
  planSyncSave sample_range sample_local sample_remote sample_base = Ok (["d/x"; "d"], ["d"; "n"; "n/x"]) ∧
  (∀ rel, rel ∈ ["d/x"; "d"] ↔ is_removed sample_local sample_remote rel) ∧
  (∀ rel, rel ∈ ["d"; "n"; "n/x"] ↔ is_written sample_local sample_remote rel).
Proof.
  split; [vm_compute; reflexivity|].
  destruct (save_plan_exact sample_range sample_local sample_remote sample_base sample_range_ok) as [_ Hp].
  destruct (Hp ["d/x"; "d"] ["d"; "n"; "n/x"] ltac:(vm_compute; reflexivity)) as (H1 & H2 & _).
  split; [exact H1|exact H2].
Defined.

Lemma save_plan_reaches_local_witness :
  ∃ t t', carry_out store_rm ["d/x"; "d"] (Some sample_remote) = Some t ∧
          carry_out (store_put sample_local) ["d"; "n"; "n/x"] (Some t) = Some t' ∧ tree_equiv t' sample_local.
Proof.
  apply (save_plan_reaches_local sample_range sample_local sample_remote sample_base).
  - exact sample_range_ok.
  - apply wf_list. vm_compute. reflexivity.
  - apply wf_list. vm_compute. reflexivity.
  - vm_compute. reflexivity.
Defined.
