(* ===== verification/SyncSaveScan.v ===== *)
(** The scans of a save yield trees: typed entries, each below directories.  The
    remote scan does so whatever others do meanwhile; the local scan of a tree
    that keeps still. *)
From S2P Require Import Prelude Content Paths FsClient SyncState SyncWorld SyncTree SyncPlan.
From S2P Require Import SyncSave SyncSaveProps.
#[local] Open Scope string_scope.
#[local] Open Scope list_scope.
#[local] Open Scope Z_scope.

Section scan.
Context {H : Hashing} {R : Type} {RC : RemoteClient R} {cfg : @SyncCfg R}.
Implicit Types g : eng R.

(** * Inversion of a run *)

Lemma bindR_Ok {A B} (m : SyncWorld.E R (result error A)) f g (b : B) g' :
  bindR m f g = (Ok b, g') → ∃ a g1, m g = (Ok a, g1) ∧ f a g1 = (Ok b, g').
Proof. unfold bindR, bindE. destruct (m g) as [[a|e] g1]; [|done]. eauto. Qed.

Lemma orReturn_Ok {A} f (m : SyncWorld.E R (result error A)) g a g' :
  orReturn f m g = (Ok a : result error A, g') → m g = (Ok a, g').
Proof. unfold orReturn, bindE, retE. destruct (m g) as [[x|e] g1]; [|done]. by intros [= -> ->]. Qed.

Lemma returnIf_Ok b (e : error) g g' : returnIf b e g = (Ok (), g') → b = false ∧ g' = g.
Proof. unfold returnIf, retE. destruct b; intros [=]. by subst. Qed.

(** * The remote scan yields a tree *)

Definition slashless (n : string) : Prop := ∀ r s, n ≠ r +:+ "/" +:+ s.

Lemma valid_name n : validSaveName n = true → n ≠ "" ∧ n ≠ "." ∧ slashless n.
Proof.
  unfold validSaveName. rewrite andb_true_iff, !negb_true_iff, bool_decide_eq_false.
  intros [Hn Hc]. split_and!; [intros ->; apply Hn; by left|intros ->; apply Hn; right; by left|].
  intros r s ->. clear Hn. induction r as [|c r IH]; simpl in *; [by destruct s|].
  apply orb_false_iff in Hc as [_ Hc]. by apply IH.
Qed.

(** Paths as the walk makes them. *)
Inductive walk_path : string → Prop :=
| wp_top n : validSaveName n = true → walk_path n
| wp_child d n : walk_path d → validSaveName n = true → walk_path (d +:+ "/" +:+ n).

Lemma walk_path_absolute d : walk_path d → absoluteRemotePath d = "/" +:+ d.
Proof.
  assert (walk_path d → d ≠ "" ∧ d ≠ "." ∧ ∀ s, d ≠ String slash s) as Hd.
  { induction 1 as [n Hn|d n _ (Hne & _ & Hs) _].
    - apply valid_name in Hn as (? & ? & Hs). split_and!; [done..|]. intros s. apply (Hs "").
    - destruct d as [|c d]; [done|]. split_and!; [done| |].
      + intros [= -> E]. by destruct d.
      + intros s [= -> _]. by apply (Hs d). }
  intros (H1 & H2 & H3)%Hd. unfold absoluteRemotePath. destruct d as [|c d]; [done|].
  rewrite bool_decide_false by done. destruct (Ascii.eqb_spec c slash) as [->|]; [by destruct (H3 d)|done].
Qed.

Lemma rev_app_snoc s c acc : String.rev_app (s +:+ String c "") acc = String c (String.rev_app s acc).
Proof. revert acc. induction s as [|d s IH]; intros acc; simpl; [done|]. apply IH. Qed.

Lemma snoc_exists n : n ≠ "" → ∃ s c, n = s +:+ String c "".
Proof.
  induction n as [|c n IH]; [done|]. intros _. destruct n as [|d n]; [by exists "", c|].
  destruct IH as (s & e & E); [done|]. exists (String c s), e. simpl. by rewrite E.
Qed.

Lemma no_slash_suffix a n : n ≠ "" → slashless n → HasSuffix (a +:+ n) "/" = false.
Proof.
  intros (s & c & ->)%snoc_exists Hn. unfold HasSuffix, String.rev. rewrite <- string_app_assoc, rev_app_snoc.
  change (String.rev_app "/" "") with (String slash ""). unfold HasPrefix. cbn [String.prefix].
  destruct (ascii_dec slash c) as [<-|Hc]; [by destruct (Hn s "")|done].
Qed.

Lemma join_child d n : walk_path d → validSaveName n = true →
  TrimPrefix (joinRemote (absoluteRemotePath d) n) "/" = d +:+ "/" +:+ n.
Proof.
  intros Hd Hn. rewrite walk_path_absolute by done. unfold joinRemote.
  rewrite bool_decide_false.
  2:{ intros [?|E]; [done|]. assert (d = "") as -> by (by injection E).
      inversion Hd as [? Hv|d' ? ? ? E']; [by apply valid_name in Hv as [? _]|by destruct d']. }
  replace (HasSuffix ("/" +:+ d) "/") with false.
  2:{ symmetry. destruct Hd as [m Hm|d m _ Hm]; pose proof (valid_name _ Hm) as (? & _ & ?).
      - by apply no_slash_suffix.
      - rewrite <- !string_app_assoc. by apply no_slash_suffix. }
  apply (TrimPrefix_app "/" (d +:+ "/" +:+ n)).
Qed.

Lemma join_top n : TrimPrefix (joinRemote "/" n) "/" = n.
Proof. unfold joinRemote. rewrite bool_decide_true by (by right). apply (TrimPrefix_app "/" n). Qed.

(** What lies above a child. *)
Lemma under_child q d n : slashless n → under q (d +:+ "/" +:+ n) = true → q = d ∨ under q d = true.
Proof.
  intros Hn (r & E)%under_spec. revert q E. induction d as [|c d IH]; intros q E; simpl in E.
  - destruct q as [|c q]; [by left|]. injection E as _ E. by destruct (Hn q r).
  - destruct q as [|c' q].
    + right. apply under_spec. injection E as -> E. by exists d.
    + injection E as <- E. destruct (IH q E) as [->|Hu]; [by left|]. right.
      apply under_spec in Hu as [s ->]. apply under_spec. by exists s.
Qed.

Lemma under_top q n : slashless n → under q n = true → False.
Proof. intros Hn (r & E)%under_spec. by apply (Hn q r). Qed.

(** ** The walk *)

Definition jobs_ok (tree : syncSaveTree) (small : list (string * syncSaveEntry)) : Prop :=
  ∀ p e, (p, e) ∈ small → sv_Type e = "file" ∧ sv_Target e = "" ∧ sv_Type <$> tree !! p = Some "file".

Definition walk_ok (acc : syncSaveTree * list (string * syncSaveEntry)) : Prop :=
  save_wf (fst acc) ∧ jobs_ok (fst acc) (snd acc).

Definition grows (t t' : syncSaveTree) : Prop :=
  ∀ p ty, sv_Type <$> t !! p = Some ty → sv_Type <$> t' !! p = Some ty.

#[local] Instance grows_preorder : PreOrder grows.
Proof. split; [by intros t p ty|]. intros t u v Htu Huv p ty Hp. by apply Huv, Htu. Qed.

Lemma jobs_grow t t' small : grows t t' → jobs_ok t small → jobs_ok t' small.
Proof. intros Hg Hj p e Hp. destruct (Hj p e Hp) as (? & ? & ?). split_and!; [done..|]. by apply Hg. Qed.

Lemma insert_grows t p e : (∀ x, t !! p = Some x → sv_Type x = sv_Type e) → grows t (<[p := e]> t).
Proof.
  intros Hx q ty. destruct (decide (q = p)) as [->|Hne]; [|by rewrite lookup_insert_ne].
  rewrite lookup_insert_eq. destruct (t !! p) as [x|] eqn:E; [|done]. simpl. intros [= <-].
  f_equal. symmetry. by apply Hx.
Qed.

Lemma insert_wf t p e : save_wf t → entry_typed e → (∀ x, t !! p = Some x → sv_Type x = sv_Type e) →
  (∀ q, under q p = true → is_save_dir t q) → save_wf (<[p := e]> t).
Proof.
  intros [Ht Hp] He Hx Hq. pose proof (insert_grows t p e Hx) as Hg. split.
  - intros q x. destruct (decide (q = p)) as [->|Hne]; [rewrite lookup_insert_eq; by intros [= <-]|].
    rewrite lookup_insert_ne by done. apply Ht.
  - intros q r Hq' Hu. apply Hg. destruct (decide (q = p)) as [->|Hne]; [by apply Hq|].
    rewrite lookup_insert_ne in Hq' by done. by apply (Hp q r).
Qed.

Definition at_dir (t : syncSaveTree) (dir : string) : Prop :=
  dir = "/" ∨ ∃ d, walk_path d ∧ dir = absoluteRemotePath d ∧ is_save_dir t d.

Lemma child_place t dir n : at_dir t dir → save_wf t → validSaveName n = true →
  let rel := TrimPrefix (joinRemote dir n) "/" in
  walk_path rel ∧ ∀ q, under q rel = true → is_save_dir t q.
Proof.
  intros Hdir Hw Hn. pose proof (valid_name n Hn) as (_ & _ & Hs). destruct Hdir as [->|(d & Hd & -> & Hdd)].
  - rewrite join_top. split; [by constructor|]. intros q Hq. by apply under_top in Hq.
  - rewrite join_child by done. split; [by constructor|]. intros q [->|Hu]%under_child; [done| |done].
    eapply (wf_parents _ Hw d); [|done]. unfold is_save_dir in Hdd. by destruct (t !! d).
Qed.

Lemma scanRemoteFile_typed m rel e g e' g' : sv_Type e = "file" → sv_Target e = "" →
  scanSyncSaveRemoteFile m rel e g = (Ok e', g') → sv_Type e' = "file" ∧ sv_Target e' = "".
Proof.
  intros Ht Hg E. unfold scanSyncSaveRemoteFile in E.
  apply bindR_Ok in E as (? & g1 & _ & E). apply bindR_Ok in E as (e1 & g2 & E1 & E).
  assert (sv_Type e1 = "file" ∧ sv_Target e1 = "") as [Ht1 Hg1].
  { destruct (sv_remoteStat e); [by injection E1 as <- _|].
    apply bindR_Ok in E1 as ([st|] & g3 & _ & E1); [|done]. by injection E1 as <- _. }
  apply bindR_Ok in E as (d & g3 & _ & E). apply bindR_Ok in E as ([] & g4 & _ & E).
  destruct (syncSaveChunks d). apply bindR_Ok in E as ([? ?] & g5 & _ & E). by injection E as <- _.
Qed.

Lemma at_dir_grows t t' dir : grows t t' → at_dir t dir → at_dir t' dir.
Proof. intros Hg [->|(d & ? & -> & ?)]; [by left|]. right. exists d. split_and!; [done..|]. by apply Hg. Qed.

(** An entry of the directory [dir] is stored, and with it the file to be read. *)
Lemma put_item acc dir n e extra :
  walk_ok acc → at_dir (fst acc) dir → validSaveName n = true → entry_typed e →
  let rel := TrimPrefix (joinRemote dir n) "/" in
  sv_Type <$> fst acc !! rel = None ∨ sv_Type <$> fst acc !! rel = Some (sv_Type e) →
  extra = [] ∨ extra = [(rel, e)] ∧ sv_Type e = "file" ∧ sv_Target e = "" →
  walk_ok (<[rel := e]> (fst acc), snd acc ++ extra) ∧ grows (fst acc) (<[rel := e]> (fst acc)).
Proof.
  intros [Hw Hj] Hdir Hn He rel Hx Hextra. destruct (child_place _ dir n Hdir Hw Hn) as [_ Hq].
  assert (∀ x, fst acc !! rel = Some x → sv_Type x = sv_Type e) as Hx'.
  { intros x Ex. rewrite Ex in Hx. destruct Hx as [Hx|[= ->]]; [done|done]. }
  pose proof (insert_grows (fst acc) rel e Hx') as Hg. split; [|done]. split; [by apply insert_wf|].
  intros p x [Hp|Hp]%elem_of_app; [by eapply jobs_grow|].
  destruct Hextra as [->|(-> & ? & ?)]; [by apply elem_of_nil in Hp|].
  apply list_elem_of_singleton in Hp. injection Hp as -> ->. simpl. rewrite lookup_insert_eq. split_and!; [done..|].
  simpl. congruence.
Qed.

Lemma typed_dir type mode ms id st : type = "dir" → entry_typed (setSaveStat st (saveEntry type mode ms id)).
Proof. intros ->. by left. Qed.
Lemma typed_link type mode ms id st target :
  type = "symlink" → entry_typed (setSaveTarget target (setSaveStat st (saveEntry type mode ms id))).
Proof. intros ->. right. by left. Qed.

(** A directory is stored before and after what is below it. *)
Lemma put_dir (walk : string → scanAcc → E R (result error scanAcc)) acc dir n e acc1 g g' :
  (∀ dir acc g acc' g', at_dir (fst acc) dir → walk_ok acc → walk dir acc g = (Ok acc', g') →
     walk_ok acc' ∧ grows (fst acc) (fst acc')) →
  walk_ok acc → at_dir (fst acc) dir → validSaveName n = true → sv_Type e = "dir" → entry_typed e →
  let rel := TrimPrefix (joinRemote dir n) "/" in
  fst acc !! rel = None →
  walk (absoluteRemotePath rel) (<[rel := e]> (fst acc), snd acc) g = (Ok acc1, g') →
  walk_ok (<[rel := e]> (fst acc1), snd acc1) ∧ grows (fst acc) (<[rel := e]> (fst acc1)).
Proof.
  intros IH Hok Hdir Hn Hd He rel Hnone E1. pose proof (child_place _ dir n Hdir (proj1 Hok) Hn) as [Hwp _].
  destruct (put_item acc dir n e []) as [Hok1 Hg1]; [done..|left; unfold rel in Hnone; by rewrite Hnone|by left|].
  fold rel in Hok1, Hg1. rewrite app_nil_r in Hok1. apply IH in E1 as [Hok2 Hg2]; [|right; exists rel|done].
  2:{ split_and!; [done..|]. unfold is_save_dir. simpl. rewrite lookup_insert_eq. simpl. by rewrite Hd. }
  assert (grows (fst acc) (fst acc1)) as Hg by (by etransitivity).
  destruct (put_item acc1 dir n e []) as [Hok3 Hg3]; [done|by eapply at_dir_grows|done..| |by left|].
  - right. apply Hg2. simpl. by rewrite lookup_insert_eq.
  - rewrite app_nil_r in Hok3. split; [done|]. by etransitivity.
Qed.

(** One item, given that the walk of a directory does well. *)
Lemma item_scan walk m dir item acc g acc' g' :
  (∀ dir acc g acc' g', at_dir (fst acc) dir → walk_ok acc → walk dir acc g = (Ok acc', g') →
     walk_ok acc' ∧ grows (fst acc) (fst acc')) →
  at_dir (fst acc) dir → walk_ok acc → walkSaveItem walk m dir item acc g = (Ok acc', g') →
  walk_ok acc' ∧ grows (fst acc) (fst acc').
Proof.
  intros IH Hdir Hok E. destruct acc as [t small]. unfold walkSaveItem in E.
  apply bindR_Ok in E as (_ & g1 & _ & E). apply bindR_Ok in E as ([] & g2 & Hn & E).
  apply returnIf_Ok in Hn as [Hn%negb_false_iff _].
  pose proof (put_item (t, small) dir (ls_Name item)) as Hput.
  pose proof (child_place t dir (ls_Name item) Hdir (proj1 Hok) Hn) as [Hwp _].
  set (rel := TrimPrefix (joinRemote dir (ls_Name item)) "/") in *.
  destruct (syncSaveIgnored _ _); [by injection E as <- _|].
  apply bindR_Ok in E as ([] & g3 & Hdup & E). apply returnIf_Ok in Hdup as [Hdup%bool_decide_eq_false _].
  assert (t !! rel = None) as Hnone by (apply eq_None_not_Some; exact Hdup).
  assert (∀ ty, sv_Type <$> t !! rel = None ∨ sv_Type <$> t !! rel = Some ty) as Hfree by (intros; rewrite Hnone; by left).
  apply bindR_Ok in E as ([] & g4 & _ & E). destruct (bool_decide (ls_Type item = "file") && _) eqn:Esmall.
  { apply andb_true_iff in Esmall as [Ef%bool_decide_eq_true _]. injection E as <- _.
    apply Hput; [done..| |apply Hfree|]; [right; by right; rewrite Ef|]. right. by rewrite Ef. }
  apply bindR_Ok in E as (st & g5 & _ & E). apply bindR_Ok in E as ([] & g6 & _ & E).
  case_bool_decide as Ed.
  { apply bindR_Ok in E as (acc1 & g7 & E1 & E). injection E as <- _.
    eapply (put_dir walk); [exact IH|done..|exact Ed|by apply typed_dir|exact Hnone|exact E1]. }
  case_bool_decide as El.
  { apply bindR_Ok in E as (target & g7 & _ & E). injection E as <- _.
    destruct (Hput (setSaveTarget target (setSaveStat st (saveEntry (ls_Type item) (ls_Mode item) (ls_Mtime item) ""))) [])
      as [Hok1 Hg1]; [done..|by apply typed_link|apply Hfree|by left|].
    simpl in Hok1. by rewrite app_nil_r in Hok1. }
  case_bool_decide as Ef; [|done].
  apply bindR_Ok in E as (e & g7 & E1%orReturn_Ok & E). injection E as <- _.
  apply scanRemoteFile_typed in E1 as [Ht Hg]; [|done..].
  destruct (Hput e []) as [Hok1 Hg1]; [done..|right; by right|apply Hfree|by left|].
  simpl in Hok1. by rewrite app_nil_r in Hok1.
Qed.

Lemma walk_scan n m dir acc g acc' g' : at_dir (fst acc) dir → walk_ok acc →
  walkSaveRemote n m dir acc g = (Ok acc', g') → walk_ok acc' ∧ grows (fst acc) (fst acc').
Proof.
  revert dir acc g acc' g'. induction n as [|n IH]; intros dir acc g acc' g' Hdir Hok E; [done|].
  apply bindR_Ok in E as (_ & g1 & _ & E). apply bindR_Ok in E as (items & g2 & _ & E).
  revert acc g2 Hdir Hok E. induction items as [|item items IHi]; intros acc g2 Hdir Hok E.
  { injection E as <- _. by split. }
  apply bindR_Ok in E as (acc1 & g3 & E1 & E). apply item_scan in E1 as [Hok1 Hg1]; [|done..].
  apply IHi in E as [Hok2 Hg2]; [|by eapply at_dir_grows|done]. split; [done|]. by etransitivity.
Qed.

Lemma small_scan m jobs t g t' g' : save_wf t → jobs_ok t jobs →
  scanSmallFiles m jobs t g = (Ok t', g') → save_wf t'.
Proof.
  revert t g. induction jobs as [|[p e] jobs IH]; intros t g Hw Hj E; [by injection E as <- _|].
  destruct (Hj p e) as (Ht & Hg & Hp); [by left|].
  apply bindR_Ok in E as (e' & g1 & E1%orReturn_Ok & E). apply scanRemoteFile_typed in E1 as [Ht' Hg']; [|done..].
  assert (∀ x, t !! p = Some x → sv_Type x = sv_Type e') as Hx.
  { intros x Ex. rewrite Ex in Hp. injection Hp as ->. done. }
  eapply IH; [| |exact E].
  - apply insert_wf; [done|right; by right|done|]. intros q Hu. eapply (wf_parents _ Hw p); [|done].
    by destruct (t !! p).
  - eapply jobs_grow; [by apply insert_grows|]. intros q x Hq. apply Hj. by right.
Qed.

(** Whatever others do meanwhile. *)
Lemma remote_scan_wf n m g t g' : scanSyncSaveRemote n m g = (Ok t, g') → save_wf t.
Proof.
  unfold scanSyncSaveRemote. unfold invalidateCache, modE, bindE. intros E.
  apply bindR_Ok in E as (root & g1 & _ & E). apply bindR_Ok in E as ([] & g2 & _ & E).
  apply bindR_Ok in E as (acc & g3 & E1 & E). apply bindR_Ok in E as (t1 & g4 & E2 & E).
  apply bindR_Ok in E as ([] & g5 & _ & E). injection E as <- _.
  apply walk_scan in E1 as [[Hw Hj] _]; [|by left|].
  - by eapply small_scan.
  - split; [|by intros ? ? ?%elem_of_nil]. split; simpl; [by intros p e; rewrite lookup_empty|].
    intros p q. rewrite lookup_empty. by intros [? ?].
Qed.

(** * The local scan of a tree that keeps still *)

Section still.
Context (T : ltree) (Happ : ∀ m g, g_tree g = T → g_tree (app m g) = T).
Context (Hclosed : ∀ p q, is_Some (T !! p) → under q p = true → is_dir_at T q = true).

Lemma on_tree_Ok {A} (f : ltree → result error A) g a g' :
  on_tree f g = (Ok a, g') → f (g_tree g) = Ok a ∧ g' = g.
Proof. unfold on_tree, getE. destruct (g_root g); intros [=]; by subst. Qed.

Lemma hash_still p i g h g' : g_tree g = T → hashSyncSaveFile p i g = (Ok h, g') → g_tree g' = T.
Proof.
  intros Hg E. unfold hashSyncSaveFile in E.
  apply bindR_Ok in E as ([] & g1 & [_ ->]%returnIf_Ok & E). unfold bindE at 1, modE at 1 in E.
  apply bindR_Ok in E as (o & g2 & [_ ->]%on_tree_Ok & E).
  apply bindR_Ok in E as ([] & g3 & [_ ->]%returnIf_Ok & E).
  apply bindR_Ok in E as ([] & g4 & Ec & E). unfold ctxErr, getE in Ec. injection Ec as _ <-.
  apply bindR_Ok in E as (d & g5 & [_ ->]%on_tree_Ok & E).
  apply bindR_Ok in E as ([] & g6 & [_ ->]%returnIf_Ok & E). unfold bindE at 1, modE at 1 in E.
  apply bindR_Ok in E as (a & g7 & [_ ->]%on_tree_Ok & E).
  apply bindR_Ok in E as ([] & g8 & [_ ->]%returnIf_Ok & E). injection E as _ <-. by do 2 apply Happ.
Qed.

(** The entry is that of the node. *)
Lemma entry_still p g e g' : g_tree g = T → scanSaveEntry p g = (Ok e, g') →
  g_tree g' = T ∧ entry_typed e ∧ is_Some (T !! p) ∧ (is_dir_at T p = true → sv_Type e = "dir").
Proof.
  intros Hg E. unfold scanSaveEntry in E. apply bindR_Ok in E as (i & g1 & [El ->]%on_tree_Ok & E).
  rewrite Hg in El. unfold t_lstat in El. unfold is_dir_at. destruct (T !! p) as [n|]; [|done]. injection El as <-.
  unfold is_dir, is_symlink in E. destruct n as [[d| |target] perm mt ino]; simpl in *.
  - apply bindR_Ok in E as (h & g2 & E1%orReturn_Ok & E). apply hash_still in E1; [|done].
    injection E as <- <-. split_and!; [done|right; by right|by eexists|done].
  - injection E as <- <-. split_and!; [done|by left|by eexists|done].
  - apply bindR_Ok in E as (h & g2 & [_ ->]%orReturn_Ok%on_tree_Ok & E). injection E as <- <-.
    split_and!; [done|right; by left|by eexists|done].
Qed.

Lemma paths_still l t g t' g' : g_tree g = T → scanSavePaths l t g = (Ok t', g') →
  g_tree g' = T ∧
  ∀ p, (p ∈ l ∧ ∃ e, t' !! p = Some e ∧ entry_typed e ∧ is_Some (T !! p) ∧ (is_dir_at T p = true → sv_Type e = "dir")) ∨
       (p ∉ l ∧ t' !! p = t !! p).
Proof.
  revert t g. induction l as [|q l IH]; intros t g Hg E.
  { injection E as <- <-. split; [done|]. intros p. right. split; [apply not_elem_of_nil|done]. }
  apply bindR_Ok in E as ([] & g1 & Ec & E). unfold ctxErr, getE in Ec. injection Ec as _ <-.
  apply bindR_Ok in E as (e & g2 & E1 & E). apply entry_still in E1 as (Hg2 & He); [|done].
  apply IH in E as [Hg' Hl]; [|done]. split; [done|]. intros p. specialize (Hl p).
  destruct Hl as [[Hp Hx]|[Hp Hx]]; [left; split; [by right|done]|].
  destruct (decide (p = q)) as [->|Hne].
  - left. split; [by left|]. exists e. by rewrite Hx, lookup_insert_eq.
  - right. split; [rewrite not_elem_of_cons; done|]. by rewrite Hx, lookup_insert_ne.
Qed.

Lemma ancestors_trans p q r : q ∈ ancestors p → r ∈ ancestors q → r ∈ ancestors p.
Proof.
  rewrite !ancestors_under, !under_spec. intros [s ->] [u ->]. exists (u +:+ "/" +:+ s). by rewrite !string_app_assoc.
Qed.

Lemma local_scan_wf g t g' : g_tree g = T → scanSyncSaveLocal g = (Ok t, g') → save_wf t.
Proof.
  intros Hg E. unfold scanSyncSaveLocal in E. apply bindR_Ok in E as ([] & g1 & Ec & E).
  unfold checkLocalRoot, getE in Ec. injection Ec as _ <-. unfold bindE at 1, modE at 1 in E.
  apply bindR_Ok in E as (l & g2 & [El ->]%on_tree_Ok & E). injection El as <-.
  rewrite Happ in E by done. apply paths_still in E as [_ Hl]; [|by apply Happ].
  assert (∀ p, p ∈ map fst (map_to_list (filter (λ '(p, _), saveWalked T p = true) T)) ↔
               is_Some (T !! p) ∧ saveWalked T p = true) as Hin.
  { intros p. rewrite list_elem_of_fmap. split.
    - intros ([q x] & -> & [Hx Hw]%elem_of_map_to_list%map_lookup_filter_Some). split; [by exists x|done].
    - intros [[x Hx] Hw]. exists (p, x). split; [done|]. by apply elem_of_map_to_list, map_lookup_filter_Some. }
  split.
  - intros p e He. destruct (Hl p) as [(_ & e' & E & ? & _)|[_ E]]; [congruence|]. by rewrite lookup_empty, He in E.
  - intros p q [e He] Hu. destruct (Hl p) as [(Hp & _)|[_ E]]; [|by rewrite lookup_empty, He in E].
    apply Hin in Hp as [Hp Hw]. pose proof (Hclosed p q Hp Hu) as Hd.
    assert (q ∈ map fst (map_to_list (filter (λ '(p, _), saveWalked T p = true) T))) as Hq.
    { apply Hin. split; [unfold is_dir_at in Hd; by destruct (T !! q)|]. unfold saveWalked in *.
      apply andb_true_iff in Hw as [Hw _]. rewrite Hd. rewrite forallb_forall in Hw. apply andb_true_iff. split.
      - apply forallb_forall. intros a Ha. apply Hw. apply list_elem_of_In in Ha. apply list_elem_of_In.
        eapply ancestors_trans; [|done]. by apply ancestors_under.
      - apply Hw. by apply list_elem_of_In, ancestors_under. }
    destruct (Hl q) as [(_ & e' & E & _ & _ & Ht)|[Hn _]]; [|done]. unfold is_save_dir. rewrite E. simpl.
    f_equal. by apply Ht.
Qed.
End still.
End scan.
