(* ===== verification/SyncSaveRun.v ===== *)
(** A save as a whole: what a receipt certifies, and that a save leaves the local
    tree alone (C37). *)
From S2P Require Import Prelude Content Paths FsClient SyncState SyncChunks SyncWorld SyncTree SyncPlan.
From S2P Require Import SyncInv SyncProps SyncSample SyncSave SyncSaveProps SyncSaveScan.
#[local] Open Scope string_scope.
#[local] Open Scope list_scope.
#[local] Open Scope Z_scope.

Section save.
Context {H : Hashing} {R : Type} {RC : RemoteClient R} {cfg : @SyncCfg R}.
Implicit Types g : eng R.

(** * What a save may touch *)

(** Kept by the application, by remote calls and by changes of the baseline. *)
Class SaveFree (P : eng R → Prop) := {
  sf_app m g : P g → P (app m g);
  sf_remote r g : P g → P (set_remote r g);
  sf_sw w g : P g → P (set_sw w g)
}.

Section free.
Context (P : eng R → Prop) `{!SaveFree P}.

Lemma sp_app m : pres P (modE (app m)).
Proof. apply pres_mod. apply sf_app. Qed.
Lemma sp_remote {A} (f : R → result error A * R) : pres P (remote f).
Proof. intros g Hg. unfold remote. destruct (f _). apply sf_remote. by apply sf_app. Qed.
Lemma sp_invalidate : pres P invalidateCache.
Proof. apply pres_mod. intros. by apply sf_remote. Qed.
Lemma sp_onSw f : pres P (onSw f).
Proof. apply pres_mod. intros. by apply sf_sw. Qed.
Lemma sp_put p e : pres P (putEntry p e).
Proof. intros g Hg. unfold putEntry. destruct (putVersioned _ _ _). by apply sf_sw. Qed.
Lemma sp_tree {A} (f : ltree → result error A) : pres P (on_tree f).
Proof. apply pres_get. Qed.
Lemma sp_ctx : pres P ctxErr.
Proof. apply pres_get. Qed.
Lemma sp_root : pres P checkLocalRoot.
Proof. apply pres_get. Qed.
Lemma sp_now : pres P now.
Proof. apply pres_get. Qed.
Lemma sp_Lstat p : pres P (Lstat p).
Proof. apply sp_tree. Qed.
Lemma sp_ReadFile p : pres P (ReadFile p).
Proof. apply sp_tree. Qed.
Lemma sp_ReadLink p : pres P (ReadLink p).
Proof. apply sp_tree. Qed.
#[local] Hint Resolve sp_app sp_remote sp_invalidate sp_onSw sp_put sp_tree sp_ctx sp_root sp_now sp_Lstat
  sp_ReadFile sp_ReadLink : sync.

Lemma sp_hash p i : pres P (hashSyncSaveFile p i).
Proof. unfold hashSyncSaveFile. pres. Qed.
Lemma sp_read p e : pres P (readSyncSaveFile p e).
Proof. unfold readSyncSaveFile. pres. Qed.
#[local] Hint Resolve sp_hash sp_read : sync.

Lemma sp_entry p : pres P (scanSaveEntry p).
Proof. unfold scanSaveEntry. pres. Qed.
#[local] Hint Resolve sp_entry : sync.

Lemma sp_paths l t : pres P (scanSavePaths l t).
Proof. revert t. induction l as [|p l IH]; intros t; simpl; pres. Qed.
#[local] Hint Resolve sp_paths : sync.

Lemma sp_local : pres P scanSyncSaveLocal.
Proof. unfold scanSyncSaveLocal. pres. Qed.

Lemma sp_remoteFile m p e : pres P (scanSyncSaveRemoteFile m p e).
Proof. unfold scanSyncSaveRemoteFile. pres. Qed.
#[local] Hint Resolve sp_local sp_remoteFile : sync.

Lemma sp_walk n m dir acc : pres P (walkSaveRemote n m dir acc).
Proof.
  revert dir acc. induction n as [|n IH]; intros dir acc; simpl; [pres|].
  apply pres_bindR; [pres|]. intros _. apply pres_bindR; [pres|]. intros items. revert acc.
  induction items as [|i items IHi]; intros acc; simpl; [pres|].
  apply pres_bindR; [|done]. destruct acc as [tree small]. unfold walkSaveItem. pres.
Qed.
Lemma sp_small m l t : pres P (scanSmallFiles m l t).
Proof. revert t. induction l as [|[p e] l IH]; intros t; simpl; pres. Qed.
#[local] Hint Resolve sp_walk sp_small : sync.

Lemma sp_scanRemote n m : pres P (scanSyncSaveRemote n m).
Proof. unfold scanSyncSaveRemote. pres. Qed.

Lemma sp_chmod p m e : pres P (chmodSyncSaveEntry p m e).
Proof. unfold chmodSyncSaveEntry. pres. Qed.
#[local] Hint Resolve sp_scanRemote sp_chmod : sync.

Lemma sp_finish p m e : pres P (finishSyncSaveCreate p m e).
Proof. unfold finishSyncSaveCreate. pres. Qed.
#[local] Hint Resolve sp_finish : sync.

Lemma sp_remove p e : pres P (removeSyncSaveEntry p e).
Proof. unfold removeSyncSaveEntry. pres. Qed.
Lemma sp_write p e q : pres P (writeSyncSaveEntry p e q).
Proof. unfold writeSyncSaveEntry. pres. Qed.
Lemma sp_normalize p e q : pres P (normalizeChunks p e q).
Proof. unfold normalizeChunks. pres. Qed.
#[local] Hint Resolve sp_remove sp_write sp_normalize : sync.

Lemma sp_removes l t : pres P (removeSaved l t).
Proof. revert t. induction l as [|p l IH]; intros t; simpl; pres. Qed.
Lemma sp_writes l t t' : pres P (writeSaved l t t').
Proof. induction l as [|p l IH]; simpl; pres. Qed.
Lemma sp_normalizes l t t' : pres P (normalizeAll l t t').
Proof. induction l as [|p l IH]; simpl; pres. Qed.
Lemma sp_same s t t' : pres P (requireSame s t t').
Proof. apply pres_ret. Qed.
#[local] Hint Resolve sp_removes sp_writes sp_normalizes sp_same : sync.

Lemma sp_save `{!SliceSort syncSavePathAfter, !SliceSort syncSavePathBefore} c local :
  pres P (saveSyncTree c local).
Proof. unfold saveSyncTree. pres. Qed.
End free.


#[local] Instance tree_free (Q : ltree → Prop) :
  (∀ m g, Q (g_tree g) → Q (g_tree (app m g))) → SaveFree (λ g, Q (g_tree g)).
Proof. by split. Qed.

(** * The new baseline *)

(** The version the [k]-th entry takes. *)
Definition version_at (n : Z) (k : nat) : Z := Nat.iter k (λ v, u64 (v + 1)) n.

Lemma version_at_spec n k : 0 ≤ n < 2 ^ 64 → version_at n k = u64 (n + Z.of_nat k).
Proof.
  intros Hn. induction k as [|k IH]; simpl.
  - unfold u64. rewrite Z.mod_small; lia.
  - fold (version_at n k). rewrite IH. unfold u64. rewrite Zplus_mod_idemp_l. f_equal. lia.
Qed.

Lemma version_at_S n k : version_at (u64 (n + 1)) k = version_at n (S k).
Proof.
  unfold version_at. induction k as [|k IH]; [done|]. simpl. f_equal. f_equal. exact IH.
Qed.

Lemma savedEntries_spec t vl vr order next next' : NoDup order → (∀ p, p ∈ order → is_Some (vl !! p)) →
  savedEntries t vl vr order next = Ok next' →
  (∀ p, p ∉ order → s_Entries next' !! p = s_Entries next !! p) ∧
  ∀ (k : nat) p, order !! k = Some p → ∃ e, vl !! p = Some e ∧
    (sv_Type e = "file" → sv_chunksCurrent (default zeroSave (vr !! p)) = true) ∧
    s_Entries next' !! p = Some (savedEntry t (version_at (s_NextVersion next) k) e (default zeroSave (vr !! p))).
Proof.
  revert next. induction order as [|q order IH]; intros next Hnd Hin E.
  { injection E as <-. split; [done|]. intros k p. by rewrite lookup_nil. }
  apply NoDup_cons in Hnd as [Hq Hnd]. destruct (Hin q) as [e He]; [by left|].
  cbn [savedEntries] in E. rewrite He in E. destruct (_ && _) eqn:Ec; [done|].
  apply IH in E as [Hout Hat]; [|done|intros p Hp; apply Hin; by right]. split.
  - intros p Hp. apply not_elem_of_cons in Hp as [Hne Hp]. rewrite Hout by done. simpl. by apply lookup_insert_ne.
  - intros [|k] p Hk.
    + injection Hk as <-. exists e. split_and!; [done| |rewrite Hout by done; apply lookup_insert_eq].
      intros Hf. rewrite bool_decide_true in Ec by done. by apply negb_false_iff in Ec.
    + apply Hat in Hk as (e' & ? & ? & Hk). exists e'. split_and!; [done..|]. rewrite Hk. simpl.
      by rewrite version_at_S.
Qed.

Lemma tree_equiv_size s t : tree_equiv s t → size s = size t.
Proof.
  intros Heq. rewrite <- !(size_dom (D := gset string)). f_equal. apply set_eq. intros p. rewrite !elem_of_dom.
  specialize (Heq p). inversion Heq as [? ? ? E1 E2|E1 E2]; rewrite <- ?E1, <- ?E2; by split; intros []; eauto.
Qed.

Lemma tree_equiv_wf s t : tree_equiv s t → save_wf t → save_wf s.
Proof.
  intros Heq [Ht Hp]. assert (∀ p e, s !! p = Some e → ∃ e', t !! p = Some e' ∧ entry_equiv e e') as Hst.
  { intros p e He. specialize (Heq p). rewrite He in Heq. inversion Heq; subst. eauto. }
  assert (∀ p, is_save_dir t p → is_save_dir s p) as Hd.
  { intros p. unfold is_save_dir. specialize (Heq p). inversion Heq as [x y Hxy E1 E2|E1 E2]; simpl; [|done].
    apply entry_equiv_spec in Hxy as (_ & -> & _). done. }
  split.
  - intros p e (e' & He & Hee)%Hst. specialize (Ht p e' He). unfold entry_typed in *.
    apply entry_equiv_spec in Hee as (_ & -> & -> & -> & ->). done.
  - intros p q [e (e' & He & _)%Hst] Hu. apply Hd. eapply Hp; [by eexists|done].
Qed.

(** The baseline a save publishes for the trees it has verified. *)
Record baseline_of (t n : Z) (loc rem : syncSaveTree) (m : entries) : Prop := {
  bo_entry p : match loc !! p with
    | None => m !! p = None
    | Some e => (∃ v, m !! p = Some (savedEntry t v e (default zeroSave (rem !! p)))) ∧
                (sv_Type e = "file" → sv_chunksCurrent (default zeroSave (rem !! p)) = true)
    end;
  bo_versions p q e f : 0 ≤ n < 2 ^ 64 → Z.of_nat (size loc) ≤ 2 ^ 64 →
    m !! p = Some e → m !! q = Some f → e_Version e = e_Version f → p = q
}.

Lemma savedEntries_baseline keys t loc rem next next' : is_range keys → s_Entries next = ∅ →
  savedEntries t loc rem (keys loc) next = Ok next' →
  baseline_of t (s_NextVersion next) loc rem (s_Entries next').
Proof.
  intros Hk Hempty E. apply savedEntries_spec in E as [Hout Hat];
    [|by apply range_NoDup|intros p; by rewrite range_elem].
  assert (∀ p e, s_Entries next' !! p = Some e → ∃ k, keys loc !! k = Some p ∧ (k < size loc)%nat ∧
            e_Version e = version_at (s_NextVersion next) k) as Hver.
  { intros p e He. destruct (decide (p ∈ keys loc)) as [Hp|Hp].
    - apply list_elem_of_lookup in Hp as [k Hp]. exists k. split; [done|]. split.
      + apply lookup_lt_Some in Hp. by rewrite (Hk loc), length_map, length_map_to_list in Hp.
      + apply Hat in Hp as (e' & _ & _ & Hp). rewrite He in Hp. by injection Hp as ->.
    - apply Hout in Hp. rewrite Hempty, He in Hp. discriminate Hp. }
  split.
  - intros p. destruct (loc !! p) as [e|] eqn:Ep.
    + assert (p ∈ keys loc) as [k Hp]%list_elem_of_lookup by (rewrite range_elem by done; by eexists).
      apply Hat in Hp as (e' & E' & Hc & Hp). rewrite Ep in E'. injection E' as <-. split; [by eexists|done].
    + rewrite Hout, Hempty; [done|]. rewrite range_elem by done. rewrite Ep. by intros [].
  - intros p q e f Hn Hs (k & Hp & Hkl & Hv)%Hver (j & Hq & Hjl & Hw)%Hver Heq.
    rewrite Hv, Hw, !version_at_spec in Heq by done. unfold u64 in Heq.
    assert (k = j) as ->; [|congruence].
    assert ((Z.of_nat k - Z.of_nat j) mod 2 ^ 64 = 0) as Hm.
    { replace (Z.of_nat k - Z.of_nat j) with ((s_NextVersion next + Z.of_nat k) - (s_NextVersion next + Z.of_nat j)) by lia.
      rewrite Zminus_mod, Heq, Z.sub_diag. done. }
    apply Z.mod_divide in Hm as [x Hx]; [|lia]. assert (x = 0) by nia. lia.
Qed.

Lemma requireSame_Ok s t t' g g' : requireSame s t t' g = (Ok (), g') → tree_equiv t t' ∧ g' = g.
Proof.
  unfold requireSame, retE. destruct (compareSyncSaveTrees t t') eqn:Ec; [done|]. intros [=]. subst.
  split; [by apply compare_spec|done].
Qed.

(** C37: what a receipt certifies.  After the last write both sides were scanned
    once more, Redis first, and both were the tree of the receipt, which is a
    proper tree; nothing was done to either since.  The published baseline has
    an entry for each of its paths and no other, under distinct versions, with
    manifests that are those of the bytes; it is what the state file holds.  And
    whether or not it succeeds, a save leaves the local tree to the application. *)
Theorem save_receipt_certifies `{SA : !SliceSort syncSavePathAfter, SB : !SliceSort syncSavePathBefore}
    (c : saveChoices) (local : syncSaveTree) (g : eng R) :
  let r := saveSyncTree c local g in
  (∀ Q : ltree → Prop, (∀ m g, Q (g_tree g) → Q (g_tree (app m g))) → Q (g_tree g) → Q (g_tree (snd r))) ∧
  ∀ receipt, fst r = Ok receipt → is_range (sc_keys c) →
    readonly = false ∧ save_wf local ∧ receipt = saveReceipt c (g_now (snd r)) local ∧
    ∃ g1 rem g2 loc g3,
      scanSyncSaveRemote (sc_depth c) (entries_of g) g1 = (Ok rem, g2) ∧ tree_equiv local rem ∧
      scanSyncSaveLocal g2 = (Ok loc, g3) ∧ tree_equiv local loc ∧
      g_tree (snd r) = g_tree g3 ∧ g_remote (snd r) = g_remote g3 ∧
      baseline_of (g_now g3) (next_of g) loc rem (entries_of (snd r)) ∧
      sw_dirty (g_sw (snd r)) = false ∧ sw_disk (g_sw (snd r)) = Some (sw_state (g_sw (snd r))).
Proof.
  intros r. split; [intros Q HQ; apply (sp_save (λ g, Q (g_tree g)) (SaveFree0 := tree_free Q HQ))|].
  intros receipt Hr Hk. subst r. destruct (saveSyncTree c local g) as [x g'] eqn:E. simpl in *. subst x.
  unfold saveSyncTree in E. apply bindR_Ok in E as ([] & g1 & Ec & E). unfold ctxErr, getE in Ec. injection Ec as _ <-.
  apply bindR_Ok in E as ([] & g1 & [Hro ->]%returnIf_Ok & E). unfold bindE at 1, getE at 1 in E.
  apply bindR_Ok in E as (rem0 & g1 & _ & E). apply bindR_Ok in E as (plan & g2 & _ & E).
  apply bindR_Ok in E as (again & g3 & _ & E). apply bindR_Ok in E as ([] & g4 & _ & E).
  apply bindR_Ok in E as (rem1 & g5 & _ & E). apply bindR_Ok in E as ([] & g6 & _ & E).
  apply bindR_Ok in E as ([] & g7 & _ & E).
  apply bindR_Ok in E as (rem & g8 & Erem%orReturn_Ok & E). apply bindR_Ok in E as ([] & g9 & Esame & E).
  apply requireSame_Ok in Esame as [Hrem ->]. apply bindR_Ok in E as (loc & g10 & Eloc & E).
  apply bindR_Ok in E as ([] & g11 & [Hloc ->]%requireSame_Ok & E).
  apply bindR_Ok in E as ([] & g12 & Ec & E). unfold ctxErr, getE in Ec. injection Ec as _ <-.
  unfold bindE at 1, now at 1, getE at 1 in E.
  apply bindR_Ok in E as (next & g13 & Enext & E). injection Enext as Enext <-.
  apply bindR_Ok in E as ([] & g14 & [_ ->]%returnIf_Ok & E).
  unfold bindE at 1, now at 1, getE at 1 in E. unfold bindE at 1, onSw, modE at 1 in E.
  apply bindR_Ok in E as ([] & g15 & Ec & E). unfold ctxErr, getE in Ec. injection Ec as _ <-.
  unfold bindE, now, getE, okE, retE in E. injection E as <- <-.
  split_and!; [done|eapply tree_equiv_wf; [exact Hrem|by eapply remote_scan_wf]|done|].
  exists g7, rem, g8, loc, g10. split_and!; [done..| | |]; [|done|done].
  by apply (savedEntries_baseline (sc_keys c) _ _ _ (withEntries (λ _, ∅) (sw_state (g_sw g))) _ Hk eq_refl Enext).
Qed.
End save.

(** * A concrete save *)

Definition sample_keys : mapRange := λ t, map fst (map_to_list t).

Definition sample_save_choices : saveChoices :=
  {| sc_keys := sample_keys; sc_depth := 5; sc_saved := true; sc_encode _ := [] |}.

(** A file that is there already, a directory with a file of three chunks, a
    link. *)
Definition sample_save_tree : ltree := {[
  "a" := Linode (NFile (string_bytes "hello")) 420 5000000 10;
  "d" := Linode NDir 493 5000000 11;
  "d/x" := Linode (NFile (string_bytes "abcdefghijk")) 420 5000000 12;
  "l" := Linode (NLink "a") 511 5000000 13 ]}.

Definition sample_save_start : eng flat :=
  sample_eng (newSyncState "w" "/m") sample_save_tree
    {[ "/a" := Node "file" 420 2 2 (string_bytes "hello") "" 0 [] ]}.

Definition sample_save_local : syncSaveTree :=
  match fst (scanSyncSaveLocal (cfg := sample_cfg false) sample_save_start) with Ok t => t | Err _ => ∅ end.

Definition sample_save : result error syncSaveReceipt * eng flat :=
  saveSyncTree (cfg := sample_cfg false) sample_save_choices sample_save_local sample_save_start.

Lemma sample_keys_range : is_range sample_keys.
Proof. intros t. reflexivity. Qed.

Lemma save_receipt_certifies_witness :
  ∃ receipt, fst sample_save = Ok receipt ∧ save_wf sample_save_local ∧
    receipt = saveReceipt sample_save_choices 1000 sample_save_local.
Proof.
  destruct (save_receipt_certifies (cfg := sample_cfg false) sample_save_choices sample_save_local sample_save_start)
    as [_ Hs].
  eexists. split; [vm_compute; reflexivity|].
  destruct (Hs _ ltac:(vm_compute; reflexivity) sample_keys_range) as (_ & Hw & Hr & _).
  split; [exact Hw|exact Hr].
Defined.
