(* ===== verification/SyncWatch.v ===== *)
(** cmd/afs/sync_watcher.go: the watcher between the notifications of the
    operating system and the event reconciler.  It keeps one watch per directory,
    holds every path back until nothing has happened to it for the debounce
    window, and when its queue is full asks for a scan instead (C38).

    Paths are relative to the root, which is ["."]; the library fsnotify is the
    sequence of its events and the function [add], the outcome of a new watch.
    Timers are the paths whose [flush] is due; [time.Timer.Stop] may come too
    late, which is a choice at every [coalesce]. *)
From S2P Require Import Prelude Content Paths FsClient SyncState SyncWorld SyncTree.
#[local] Open Scope string_scope.
#[local] Open Scope list_scope.
#[local] Open Scope Z_scope.

Record syncWatcher := {
  w_pending : gmap string string;
  w_timers : list string;
  w_flushing : list LocalEvent;
  w_dirs : gset string;
  w_stopped : bool;
  w_out : list LocalEvent;
  w_capacity : nat;
  w_rescan : bool
}.

Inductive fsOp := Create | Write | RemoveOp | RenameOp | Chmod.

#[export] Instance fsOp_eq_dec : EqDecision fsOp.
Proof. solve_decision. Defined.

Definition defaultSyncWatcherQueueCapacity : nat := 1024.

Definition emptyWatcher (capacity : nat) : syncWatcher :=
  {| w_pending := ∅; w_timers := []; w_flushing := []; w_dirs := ∅; w_stopped := false; w_out := [];
     w_capacity := if (capacity =? 0)%nat then defaultSyncWatcherQueueCapacity else capacity;
     w_rescan := false |}.

(** Assignments to fields. *)
Definition setWatch (pending : gmap string string) (timers : list string) (flushing out : list LocalEvent)
    (rescan : bool) (w : syncWatcher) : syncWatcher :=
  {| w_pending := pending; w_timers := timers; w_flushing := flushing; w_dirs := w_dirs w;
     w_stopped := w_stopped w; w_out := out; w_capacity := w_capacity w; w_rescan := rescan |}.

Definition setDirs (dirs : gset string) (w : syncWatcher) : syncWatcher :=
  {| w_pending := w_pending w; w_timers := w_timers w; w_flushing := w_flushing w; w_dirs := dirs;
     w_stopped := w_stopped w; w_out := w_out w; w_capacity := w_capacity w; w_rescan := w_rescan w |}.

Definition requestRescan (w : syncWatcher) : syncWatcher :=
  if w_stopped w then w
  else setWatch (w_pending w) (w_timers w) (w_flushing w) (w_out w) true w.

(** [Close], and what [run] does when it returns. *)
Definition Close (w : syncWatcher) : syncWatcher :=
  {| w_pending := ∅; w_timers := w_timers w; w_flushing := w_flushing w; w_dirs := w_dirs w;
     w_stopped := true; w_out := w_out w; w_capacity := w_capacity w; w_rescan := w_rescan w |}.

Fixpoint removeOne (x : string) (l : list string) : list string :=
  match l with
  | [] => []
  | y :: l => if bool_decide (y = x) then l else y :: removeOne x l
  end.

(** A timer is armed for [rel]; the one that was armed is stopped, unless it has
    fired already ([late]). *)
Definition coalesce (rel kind : string) (late : bool) (w : syncWatcher) : syncWatcher :=
  if w_stopped w then w
  else
    let timers := match w_pending w !! rel with
                  | Some _ => if late then w_timers w else removeOne rel (w_timers w)
                  | None => w_timers w
                  end in
    setWatch (<[rel := kind]> (w_pending w)) (rel :: timers) (w_flushing w) (w_out w) (w_rescan w) w.

(** [flush] up to the end of its critical section, when the timer of [rel] fires. *)
Definition flushTake (rel : string) (w : syncWatcher) : syncWatcher :=
  if bool_decide (rel ∈ w_timers w) then
    let timers := removeOne rel (w_timers w) in
    match (if w_stopped w then None else w_pending w !! rel) with
    | None => setWatch (w_pending w) timers (w_flushing w) (w_out w) (w_rescan w) w
    | Some kind =>
        setWatch (delete rel (w_pending w)) timers
          (w_flushing w ++ [{| le_Path := rel; le_KindHint := kind |}]) (w_out w) (w_rescan w) w
    end
  else w.

(** The rest of [flush]: never waits. *)
Definition flushSend (i : nat) (w : syncWatcher) : syncWatcher :=
  match w_flushing w !! i with
  | None => w
  | Some ev =>
      let w := setWatch (w_pending w) (w_timers w) (delete i (w_flushing w)) (w_out w) (w_rescan w) w in
      if (length (w_out w) <? w_capacity w)%nat
      then setWatch (w_pending w) (w_timers w) (w_flushing w) (w_out w ++ [ev]) (w_rescan w) w
      else requestRescan w
  end.

Definition opName (op : list fsOp) : string :=
  if bool_decide (Create ∈ op) then "create"
  else if bool_decide (Write ∈ op) then "write"
  else if bool_decide (RemoveOp ∈ op) then "remove"
  else if bool_decide (RenameOp ∈ op) then "rename"
  else if bool_decide (Chmod ∈ op) then "chmod"
  else "unknown".

Section Watch.
Context {H : Hashing} {R : Type} {RC : RemoteClient R} {cfg : @SyncCfg R}.

(** * Directories *)

(** Below a directory, the root being above everything. *)
Definition belowDir (root p : string) : bool := bool_decide (root = ".") || under root p.

Definition dirAt (t : ltree) (p : string) : bool := bool_decide (p = ".") || is_dir_at t p.

(** Not cut off by an ignored directory between [root] and [p]. *)
Definition reached (root p : string) : bool :=
  forallb (λ a, negb (belowDir root a && shouldIgnore ignore a true)) (ancestors p).

(** The directories a walk from [root] visits.  The walk is in the order of the
    names, a directory before what is in it; here the order decides only which
    directories come before an error. *)
Definition walkDirs (t : ltree) (root : string) : list string :=
  if negb (dirAt t root) || shouldIgnore ignore root true then []
  else root :: filter (λ d, belowDir root d && is_dir_at t d && reached root d
                            && negb (shouldIgnore ignore d true) = true) (map fst (map_to_list t)).

Fixpoint addDirs (add : string → option error) (dirs : list string) (w : syncWatcher) :
    option error * syncWatcher :=
  match dirs with
  | [] => (None, w)
  | d :: dirs =>
      if w_stopped w then (None, w)
      else if bool_decide (d ∈ w_dirs w) then addDirs add dirs w
      else match add d with
           | None => addDirs add dirs (setDirs ({[d]} ∪ w_dirs w) w)
           | Some e => if IsNotExist e then addDirs add dirs w else (Some e, w)
           end
  end.

Definition addRecursive (add : string → option error) (t : ltree) (root : string) (w : syncWatcher) :
    option error * syncWatcher :=
  addDirs add (walkDirs t root) w.

Definition removeWatch (p : string) (w : syncWatcher) : syncWatcher :=
  setDirs (filter (λ d, negb (bool_decide (d = p) || belowDir p d) = true) (w_dirs w)) w.

(** [root] is what [os.Stat] says of the root, [removed] the outcome of removing a
    watch; a watch the library no longer knows is no error. *)
Definition resetRecursive (root : option error) (removed : string → option error)
    (add : string → option error) (t : ltree) (w : syncWatcher) : option error * syncWatcher :=
  if w_stopped w then (None, w)
  else match root with
       | Some e => (Some e, w)
       | None =>
           match omap removed (elements (w_dirs w)) with
           | e :: _ => (Some e, w)
           | [] => addRecursive add t "." (setDirs ∅ w)
           end
       end.

(** * Events *)

(** What a new directory holds already. *)
Definition newChildren (t : ltree) (root : string) : list string :=
  filter (λ p, belowDir root p && reached root p && negb (shouldIgnore ignore p (is_dir_at t p)) = true)
    (map fst (map_to_list t)).

Definition isNewDir (op : list fsOp) (rel : string) (t : ltree) : bool :=
  dirAt t rel && bool_decide (Create ∈ op).

(** [filepath.Rel] has been applied to the name of the event. *)
Definition handleEvent (op : list fsOp) (rel : string) (t : ltree) (add : string → option error)
    (late : string → bool) (w : syncWatcher) : syncWatcher :=
  if HasPrefix rel ".." then w
  else
    let w :=
      if isNewDir op rel t then
        let '(err, w) := addRecursive add t rel w in
        let w := match err with Some _ => requestRescan w | None => w end in
        foldl (λ w p, coalesce p "create" (late p) w) w (newChildren t rel)
      else w in
    let w :=
      if bool_decide (RemoveOp ∈ op) || bool_decide (RenameOp ∈ op) then
        let w := removeWatch rel w in
        if dirAt t rel then requestRescan w else w
      else w in
    if shouldIgnore ignore rel (dirAt t rel) then w
    else coalesce rel (opName op) (late rel) w.

(** * Runs *)

(** What can happen: an event, an overflow of the kernel's queue, a timer, the end
    of a flush, the consumer taking an event or the token, and the end. *)
Inductive watchStep :=
| WEvent (op : list fsOp) (rel : string) (t : ltree) (add : string → option error) (late : string → bool)
| WOverflow
| WFire (rel : string)
| WSend (i : nat)
| WReceive
| WRescan
| WReset (root : option error) (removed add : string → option error) (t : ltree)
| WClose.

Definition watchStep_run (w : syncWatcher) (s : watchStep) : syncWatcher :=
  match s with
  | WEvent op rel t add late => if w_stopped w then w else handleEvent op rel t add late w
  | WOverflow => requestRescan w
  | WFire rel => flushTake rel w
  | WSend i => flushSend i w
  | WReceive => setWatch (w_pending w) (w_timers w) (w_flushing w) (tail (w_out w)) (w_rescan w) w
  | WRescan => setWatch (w_pending w) (w_timers w) (w_flushing w) (w_out w) false w
  | WReset root removed add t => snd (resetRecursive root removed add t w)
  | WClose => Close w
  end.
End Watch.

(** * No event is lost *)

(** What there is to look at a path again. *)
Definition due (w : syncWatcher) (rel : string) : Prop :=
  w_rescan w = true ∨ is_Some (w_pending w !! rel) ∨ rel ∈ map le_Path (w_flushing w) ∨
  rel ∈ map le_Path (w_out w).

(** Every pending path has a timer, and the queue its capacity. *)
Record watch_ok (w : syncWatcher) : Prop := {
  wo_stopped : w_stopped w = true → w_pending w = ∅;
  wo_timers rel : is_Some (w_pending w !! rel) → rel ∈ w_timers w;
  wo_capacity : (length (w_out w) ≤ w_capacity w)%nat
}.

(** [w'] owes what [w] owes, and [paths]. *)
Definition owes (w w' : syncWatcher) (paths : list string) : Prop :=
  w_stopped w' = w_stopped w ∧ (w_stopped w = false → ∀ rel, due w rel ∨ rel ∈ paths → due w' rel).

Lemma owes_refl w : owes w w [].
Proof. split; [done|]. intros _ rel [?|?%elem_of_nil]; done. Qed.

Lemma owes_trans w1 w2 w3 l k : owes w1 w2 l → owes w2 w3 k → owes w1 w3 (l ++ k).
Proof.
  intros [E1 H1] [E2 H2]. split; [congruence|]. intros Hs rel. rewrite elem_of_app.
  intros [Hd|[Hl|Hk]]; apply H2; [congruence| |congruence| |congruence|]; auto; left; apply H1; auto.
Qed.

Lemma elem_of_removeOne x y l : x ∈ l → x ≠ y → x ∈ removeOne y l.
Proof.
  induction l as [|z l IH]; simpl; [done|]. intros [->|Hx]%elem_of_cons Hne.
  - rewrite bool_decide_false by done. by left.
  - case_bool_decide; [done|]. right. auto.
Qed.

Lemma requestRescan_spec w : owes w (requestRescan w) [] ∧ (watch_ok w → watch_ok (requestRescan w)) ∧
  (w_stopped w = false → w_rescan (requestRescan w) = true) ∧ w_dirs (requestRescan w) = w_dirs w.
Proof.
  unfold requestRescan. destruct (w_stopped w) eqn:E; [split_and!; try done; apply owes_refl|].
  split_and!; try done.
  - split; [done|]. intros _ rel _. by left.
  - by intros [Hw Ht Hc].
Qed.

Lemma setDirs_spec d w : owes w (setDirs d w) [] ∧ (watch_ok w → watch_ok (setDirs d w)).
Proof. split; [split; [done|]; by intros _ rel [?|?%elem_of_nil]|]. by intros [Hw Ht Hc]. Qed.

Lemma coalesce_spec rel kind late w : owes w (coalesce rel kind late w) [rel] ∧
  (watch_ok w → watch_ok (coalesce rel kind late w)) ∧
  w_dirs (coalesce rel kind late w) = w_dirs w ∧ (w_rescan w = true → w_rescan (coalesce rel kind late w) = true).
Proof.
  unfold coalesce. destruct (w_stopped w) eqn:Es; [split_and!; try done; split; [done|congruence]|].
  split_and!; try done.
  - split; [done|]. intros _ q [[?|[[x Hq]|Hq]]|Hq]; [by left| |by right; right|].
    + right. left. simpl. destruct (decide (q = rel)) as [->|]; [rewrite lookup_insert_eq|rewrite lookup_insert_ne by done]; by eexists.
    + apply list_elem_of_singleton in Hq as ->. right. left. simpl. rewrite lookup_insert_eq. by eexists.
  - intros [Hw Ht Hc]. split; [simpl; congruence| |done]. simpl. intros q Hq.
    destruct (decide (q = rel)) as [->|Hne]; [by left|]. rewrite lookup_insert_ne in Hq by done. right.
    apply Ht in Hq. destruct (w_pending w !! rel), late; try done; by apply elem_of_removeOne.
Qed.

Lemma flushTake_spec rel w : owes w (flushTake rel w) [] ∧ (watch_ok w → watch_ok (flushTake rel w)).
Proof.
  unfold flushTake. case_bool_decide as Hin; [|split; [apply owes_refl|done]].
  destruct (w_stopped w) eqn:Es.
  { split; [split; [done|congruence]|]. intros [Hw Ht Hc]. split; [done| |done]. simpl. rewrite Hw by done.
    intros q. rewrite lookup_empty. by intros []. }
  destruct (w_pending w !! rel) as [kind|] eqn:Ep; split.
  - split; [done|]. intros _ q [[?|[Hq|[Hq|Hq]]]|?%elem_of_nil]; [by left| | |by right; right; right|done].
    + destruct (decide (q = rel)) as [->|Hne].
      * right. right. left. simpl. rewrite map_app. apply elem_of_app. right. by left.
      * right. left. simpl. by rewrite lookup_delete_ne.
    + right. right. left. simpl. rewrite map_app. apply elem_of_app. by left.
  - intros [Hw Ht Hc]. split; [simpl; congruence| |done]. simpl. intros q Hq.
    destruct (decide (q = rel)) as [->|Hne]; [rewrite lookup_delete_eq in Hq; by destruct Hq|].
    rewrite lookup_delete_ne in Hq by done. apply elem_of_removeOne; auto.
  - split; [done|]. by intros _ q [?|?%elem_of_nil].
  - intros [Hw Ht Hc]. split; [done| |done]. simpl. intros q Hq. apply elem_of_removeOne; [auto|].
    intros ->. rewrite Ep in Hq. by destruct Hq.
Qed.

Lemma flushSend_spec i w : owes w (flushSend i w) [] ∧ (watch_ok w → watch_ok (flushSend i w)).
Proof.
  unfold flushSend. destruct (w_flushing w !! i) as [ev|] eqn:Ei; [|split; [apply owes_refl|done]].
  set (v := setWatch _ _ _ _ _ w). destruct (_ <? _)%nat eqn:El.
  - split.
    + split; [done|]. intros _ q [[?|[?|[Hq|Hq]]]|?%elem_of_nil]; [by left|by right; left| | |done].
      * right. right. rewrite (delete_Permutation _ _ _ Ei) in Hq. simpl. rewrite map_app.
        apply elem_of_cons in Hq as [->|Hq]; [right; apply elem_of_app; right; by left|by left].
      * right. right. right. simpl. rewrite map_app. apply elem_of_app. by left.
    + intros [Hw Ht Hc]. split; [done|done|]. simpl. rewrite length_app. simpl. simpl in El. lia.
  - destruct (requestRescan_spec v) as ([Es _] & Hok & Hr & _). split.
    + split; [done|]. intros Hs q _. left. by apply Hr.
    + intros [Hw Ht Hc]. by apply Hok.
Qed.

Lemma coalesce_all (late : string → bool) l w :
  let w' := foldl (λ w p, coalesce p "create" (late p) w) w l in
  owes w w' l ∧ (watch_ok w → watch_ok w') ∧ w_dirs w' = w_dirs w ∧ (w_rescan w = true → w_rescan w' = true).
Proof.
  revert w. induction l as [|p l IH]; intros w; simpl; [split_and!; [apply owes_refl|done..]|].
  destruct (coalesce_spec p "create" (late p) w) as (Ho & Hk & Hd & Hr), (IH (coalesce p "create" (late p) w)) as (Ho' & Hk' & Hd' & Hr').
  split_and!; [by apply (owes_trans _ _ _ [p] l Ho)|auto|congruence|auto].
Qed.

Section events.
Context {H : Hashing} {R : Type} {RC : RemoteClient R} {cfg : @SyncCfg R}.

(** The library reports that the directory is gone. *)
Definition vanished (add : string → option error) (d : string) : Prop :=
  ∃ e, add d = Some e ∧ IsNotExist e = true.

Lemma addDirs_spec add l w :
  let '(err, w') := addDirs add l w in
  owes w w' [] ∧ (watch_ok w → watch_ok w') ∧ w_rescan w' = w_rescan w ∧ w_dirs w ⊆ w_dirs w' ∧
  (w_stopped w = false → err = None → ∀ d, d ∈ l → d ∈ w_dirs w' ∨ vanished add d).
Proof.
  revert w. induction l as [|d l IH]; intros w; simpl.
  { split_and!; [apply owes_refl|done..|]. by intros _ _ d ?%elem_of_nil. }
  destruct (w_stopped w) eqn:Es; [split_and!; [apply owes_refl|done..]|].
  case_bool_decide as Hd.
  { specialize (IH w). destruct (addDirs add l w) as [err w']. destruct IH as (? & ? & ? & Hsub & Hin).
    split_and!; [done..|]. intros _ He q [->|Hq]%elem_of_cons; [left; by apply Hsub|by apply Hin]. }
  destruct (add d) as [e|] eqn:Ea.
  - destruct (IsNotExist e) eqn:En; [|split_and!; [apply owes_refl|done..]].
    specialize (IH w). destruct (addDirs add l w) as [err w']. destruct IH as (? & ? & ? & Hsub & Hin).
    split_and!; [done..|]. intros _ He q [->|Hq]%elem_of_cons; [right; by exists e|by apply Hin].
  - specialize (IH (setDirs ({[d]} ∪ w_dirs w) w)). destruct (addDirs add l _) as [err w'].
    destruct IH as (Ho & Hk & Hr & Hsub & Hin), (setDirs_spec ({[d]} ∪ w_dirs w) w) as [Ho' Hk'].
    split_and!; [by apply (owes_trans _ _ _ [] [] Ho')|auto|done|set_solver|].
    intros _ He q [->|Hq]%elem_of_cons; [left; apply Hsub; simpl; set_solver|by apply Hin].
Qed.

(** The paths an event is about: its own, and if a directory appeared, what is in
    it already; all but what is ignored. *)
Definition caused (op : list fsOp) (rel : string) (t : ltree) : list string :=
  (if isNewDir op rel t then newChildren t rel else []) ++
  (if shouldIgnore ignore rel (dirAt t rel) then [] else [rel]).

Definition concerns (op : list fsOp) (rel : string) (t : ltree) (q : string) : Prop :=
  q = rel ∧ shouldIgnore ignore rel (dirAt t rel) = false ∨
  (Create ∈ op ∧ dirAt t rel = true) ∧ is_Some (t !! q) ∧ belowDir rel q = true ∧
  (∀ a, a ∈ ancestors q → belowDir rel a = true → shouldIgnore ignore a true = false) ∧
  shouldIgnore ignore q (is_dir_at t q) = false.

Lemma reached_spec root q : reached root q = true ↔
  ∀ a, a ∈ ancestors q → belowDir root a = true → shouldIgnore ignore a true = false.
Proof.
  unfold reached. rewrite forallb_forall. split; intros Ha a Hin.
  - intros Hb. specialize (Ha a (proj1 (list_elem_of_In _ _) Hin)). rewrite Hb in Ha. by apply negb_true_iff in Ha.
  - apply negb_true_iff, andb_false_iff. destruct (belowDir root a) eqn:E; [right|by left].
    apply Ha; [by apply list_elem_of_In|done].
Qed.

Lemma caused_spec op rel t q : q ∈ caused op rel t ↔ concerns op rel t q.
Proof.
  unfold caused, concerns, isNewDir, newChildren. rewrite elem_of_app, (or_comm (q ∈ _)).
  assert (q ∈ map fst (map_to_list t) ↔ is_Some (t !! q)) as Hk.
  { rewrite list_elem_of_fmap. split.
    - intros ([p i] & -> & Hp%elem_of_map_to_list). by eexists.
    - intros [i Hi]. exists (q, i). split; [done|]. by apply elem_of_map_to_list. }
  f_equiv.
  - destruct (shouldIgnore ignore rel (dirAt t rel)); set_solver.
  - rewrite (andb_comm (dirAt t rel)). case_bool_decide; simpl; [|set_solver].
    destruct (dirAt t rel); [|set_solver].
    rewrite list_elem_of_filter, Hk, !andb_true_iff, negb_true_iff, reached_spec. naive_solver.
Qed.

(** The name of the event does not begin with two dots.  The directories watched
    are those of the root, so such a name is one in the root itself. *)
Definition undotted (s : watchStep) : bool :=
  match s with WEvent _ rel _ _ _ => negb (HasPrefix rel "..") | _ => true end.

(** The first part of [handleEvent]: a new directory is watched and looked through. *)
Lemma newDir_spec op rel t add (late : string → bool) w :
  let w' :=
    if isNewDir op rel t then
      let '(err, w) := addRecursive add t rel w in
      let w := match err with Some _ => requestRescan w | None => w end in
      foldl (λ w p, coalesce p "create" (late p) w) w (newChildren t rel)
    else w in
  owes w w' (if isNewDir op rel t then newChildren t rel else []) ∧ (watch_ok w → watch_ok w') ∧
  (w_stopped w = false → isNewDir op rel t = true → ∀ d, d ∈ walkDirs t rel →
     d ∈ w_dirs w' ∨ vanished add d ∨ w_rescan w' = true).
Proof.
  destruct (isNewDir op rel t); [|split_and!; [apply owes_refl|done..]].
  unfold addRecursive. pose proof (addDirs_spec add (walkDirs t rel) w) as Ha.
  destruct (addDirs add (walkDirs t rel) w) as [err w1]. destruct Ha as (Ho & Hk & Hr & _ & Hin).
  set (w2 := match err with Some _ => requestRescan w1 | None => w1 end).
  assert (owes w1 w2 [] ∧ (watch_ok w1 → watch_ok w2) ∧
          (w_stopped w1 = false → err = None ∧ w2 = w1 ∨ w_rescan w2 = true)) as (Ho2 & Hk2 & Hr2).
  { destruct err; [|split_and!; [apply owes_refl|done|by left]].
    destruct (requestRescan_spec w1) as (? & ? & ? & _). split_and!; [done..|]. intros Hs. right. auto. }
  destruct (coalesce_all late (newChildren t rel) w2) as (Ho3 & Hk3 & Hd3 & Hr3).
  split_and!; [|auto|].
  - apply (owes_trans _ w2 _ []); [|done]. by apply (owes_trans _ w1 _ [] []).
  - intros Hs _ d Hd. assert (w_stopped w1 = false) as Hs1 by (destruct Ho; congruence).
    destruct (Hr2 Hs1) as [[He E2]|?]; [|right; right; by apply Hr3].
    rewrite Hd3, E2. destruct (Hin Hs He d Hd); [by left|right; by left].
Qed.

(** The second part: a path that is gone is no longer watched, unless it is back. *)
Lemma gone_spec (op : list fsOp) rel t w :
  let w' :=
    if bool_decide (RemoveOp ∈ op) || bool_decide (RenameOp ∈ op) then
      let w := removeWatch rel w in if dirAt t rel then requestRescan w else w
    else w in
  owes w w' [] ∧ (watch_ok w → watch_ok w') ∧
  (w_stopped w = false → dirAt t rel = true → w_dirs w' = w_dirs w ∨ w_rescan w' = true) ∧
  (w_stopped w = false → w_rescan w = true → w_rescan w' = true).
Proof.
  destruct (bool_decide (RemoveOp ∈ op) || bool_decide (RenameOp ∈ op));
    [|split_and!; [apply owes_refl|done|by left|done]].
  cbv zeta. unfold removeWatch.
  set (dirs := filter _ (w_dirs w)). destruct (setDirs_spec dirs w) as [Ho Hk].
  destruct (dirAt t rel); [|split_and!; [done..|discriminate|done]].
  destruct (requestRescan_spec (setDirs dirs w)) as (Ho' & Hk' & Hr & _).
  split_and!; [by apply (owes_trans _ _ _ [] [] Ho)|auto|intros Hs _; right; by apply Hr|intros Hs _; by apply Hr].
Qed.

Lemma handleEvent_spec op rel t add (late : string → bool) w :
  HasPrefix rel ".." = false →
  let w' := handleEvent op rel t add late w in
  owes w w' (caused op rel t) ∧ (watch_ok w → watch_ok w') ∧
  (w_stopped w = false → isNewDir op rel t = true → ∀ d, d ∈ walkDirs t rel →
     d ∈ w_dirs w' ∨ vanished add d ∨ w_rescan w' = true).
Proof.
  intros Hdots. unfold handleEvent, caused. rewrite Hdots.
  pose proof (newDir_spec op rel t add late w) as Hn. cbv zeta in Hn |- *.
  set (w1 := if isNewDir op rel t then _ else w) in *. destruct Hn as (Ho1 & Hk1 & Hd1).
  pose proof (gone_spec op rel t w1) as Hg. cbv zeta in Hg. set (w2 := if _ || _ then _ else w1) in *.
  destruct Hg as (Ho2 & Hk2 & Hd2 & Hr2).
  set (w3 := if shouldIgnore ignore rel (dirAt t rel) then w2 else _).
  assert (owes w2 w3 (if shouldIgnore ignore rel (dirAt t rel) then [] else [rel]) ∧ (watch_ok w2 → watch_ok w3) ∧
          w_dirs w3 = w_dirs w2 ∧ (w_rescan w2 = true → w_rescan w3 = true)) as (Ho3 & Hk3 & Hd3 & Hr3).
  { subst w3. destruct (shouldIgnore _ _ _); [split_and!; [apply owes_refl|done..]|apply coalesce_spec]. }
  split_and!; [|auto|].
  - apply (owes_trans _ w2 _); [|done]. rewrite <- (app_nil_r (if isNewDir op rel t then _ else _)).
    by apply (owes_trans _ w1 _).
  - intros Hs Hnew d Hd. assert (w_stopped w1 = false) as Hs1 by (destruct Ho1; congruence).
    assert (dirAt t rel = true) as Hdir by (unfold isNewDir in Hnew; by apply andb_true_iff in Hnew as [? _]).
    destruct (Hd1 Hs Hnew d Hd) as [Hin|[?|Hr]]; [|by right; left|right; right; by apply Hr3, Hr2].
    destruct (Hd2 Hs1 Hdir) as [E|Hr]; [left; by rewrite Hd3, E|right; right; by apply Hr3].
Qed.

Lemma resetRecursive_spec root removed add t w :
  let w' := snd (resetRecursive root removed add t w) in owes w w' [] ∧ (watch_ok w → watch_ok w').
Proof.
  unfold resetRecursive. destruct (w_stopped w); [split; [apply owes_refl|done]|].
  destruct root; [split; [apply owes_refl|done]|]. destruct (omap removed _); [|split; [apply owes_refl|done]].
  unfold addRecursive. pose proof (addDirs_spec add (walkDirs t ".") (setDirs ∅ w)) as Ha.
  destruct (addDirs add _ _) as [err w']. destruct Ha as (Ho & Hk & _), (setDirs_spec ∅ w) as [Ho' Hk'].
  split; [by apply (owes_trans _ _ _ [] [] Ho')|auto].
Qed.

(** The paths something has happened to since they were last reported, or since a
    scan was last asked for. *)
Definition owed_step (owed : gset string) (w : syncWatcher) (s : watchStep) : gset string :=
  match s with
  | WEvent op rel t _ _ => if w_stopped w then owed else list_to_set (caused op rel t) ∪ owed
  | WReceive => match w_out w with ev :: _ => owed ∖ {[le_Path ev]} | [] => owed end
  | WRescan => if w_rescan w then ∅ else owed
  | _ => owed
  end.

Definition watchRun (ss : list watchStep) (x : syncWatcher * gset string) : syncWatcher * gset string :=
  foldl (λ '(w, owed) s, (watchStep_run w s, owed_step owed w s)) x ss.

Definition covered (x : syncWatcher * gset string) : Prop :=
  watch_ok (fst x) ∧ (w_stopped (fst x) = false → ∀ rel, rel ∈ snd x → due (fst x) rel).

Lemma covered_owes w w' owed l : owes w w' l → (watch_ok w → watch_ok w') →
  covered (w, owed) → covered (w', list_to_set l ∪ owed).
Proof.
  intros [Es Ho] Hk [Hok Hd]. split; [by apply Hk|]. simpl in *. intros Hs rel Hr. rewrite Es in Hs.
  apply Ho; [done|]. rewrite elem_of_union, elem_of_list_to_set in Hr. destruct Hr; auto.
Qed.

Lemma covered_same w w' owed : owes w w' [] → (watch_ok w → watch_ok w') → covered (w, owed) → covered (w', owed).
Proof. intros Ho Hk Hc. pose proof (covered_owes _ _ _ _ Ho Hk Hc) as Hx. simpl in Hx. by rewrite (left_id_L ∅ _) in Hx. Qed.

Lemma covered_step w owed s : undotted s = true →
  covered (w, owed) → covered (watchStep_run w s, owed_step owed w s).
Proof.
  intros Hdots Hc. destruct s as [op rel t add late| |rel|i| | |root removed add t|]; simpl.
  - destruct (w_stopped w); [done|]. destruct (handleEvent_spec op rel t add late w) as (Ho & Hk & _);
      [by apply negb_true_iff|]. by apply (covered_owes w).
  - destruct (requestRescan_spec w) as (Ho & Hk & _). by apply (covered_same w).
  - destruct (flushTake_spec rel w) as [Ho Hk]. by apply (covered_same w).
  - destruct (flushSend_spec i w) as [Ho Hk]. by apply (covered_same w).
  - destruct Hc as [[Hw Ht Hcap] Hd]. simpl in *. split; simpl.
    + split; [done|done|]. simpl. destruct (w_out w); simpl in *; lia.
    + intros Hs rel Hr. specialize (Hd Hs rel). unfold due in *. simpl. destruct (w_out w) as [|ev out]; simpl in *; [by apply Hd|].
      apply elem_of_difference in Hr as [Hr Hne%not_elem_of_singleton]. destruct (Hd Hr) as [?|[?|[?|Hin]]]; auto.
      apply elem_of_cons in Hin as [->|?]; auto.
  - destruct Hc as [[Hw Ht Hcap] Hd]. simpl in *. split; [by split|]. simpl. intros Hs rel. destruct (w_rescan w) eqn:Er.
    + by intros ?%elem_of_empty.
    + intros Hr. destruct (Hd Hs rel Hr) as [?|Hx]; [congruence|by right].
  - destruct (resetRecursive_spec root removed add t w) as [Ho Hk]. by apply (covered_same w).
  - destruct Hc as [[Hw Ht Hcap] Hd]. split; [|done]. split; [done| |done]. simpl. intros q.
    rewrite lookup_empty. by intros [].
Qed.

(** C38: the watcher loses no event of a path whose name in the root does not
    begin with two dots.  As long as it runs, every path that an event since it
    was last reported was about is still to come: it is pending with a timer
    armed, on its way to the queue or in it, or a scan is asked for.  Once no
    timer is left, it is in the queue or covered by the scan.  An event is about
    its own path and, when a directory appears, about everything in it, but for
    what is ignored.  The queue keeps to its capacity; and when a directory
    appears, every directory in it that is not ignored is watched, has vanished,
    or a scan is asked for.  The events of a name such as ["..notes"] in the root
    are dropped: see [dotted_name_is_dropped]. *)
Theorem watcher_loses_no_event (capacity : nat) (ss : list watchStep) (w : syncWatcher) (owed : gset string)
    (Hdots : forallb undotted ss = true)
    (Hrun : watchRun ss (emptyWatcher capacity, ∅) = (w, owed)) (Hs : w_stopped w = false) :
  (∀ rel, rel ∈ owed → due w rel) ∧
  (∀ rel, is_Some (w_pending w !! rel) → rel ∈ w_timers w) ∧
  (w_timers w = [] → w_flushing w = [] → ∀ rel, rel ∈ owed → w_rescan w = true ∨ rel ∈ map le_Path (w_out w)) ∧
  (length (w_out w) ≤ w_capacity w)%nat ∧
  (∀ op rel t q, q ∈ caused op rel t ↔ concerns op rel t q) ∧
  ∀ op rel t add late, HasPrefix rel ".." = false → isNewDir op rel t = true → ∀ d, d ∈ walkDirs t rel →
    let w' := handleEvent op rel t add late w in d ∈ w_dirs w' ∨ vanished add d ∨ w_rescan w' = true.
Proof.
  assert (∀ x, covered x → covered (watchRun ss x)) as Hall.
  { clear Hrun. induction ss as [|s ss IH]; intros [v o] Hx; [done|].
    simpl in Hdots. apply andb_true_iff in Hdots as [Hd Hdots].
    apply (IH Hdots (watchStep_run v s, owed_step o v s)). by apply covered_step. }
  assert (covered (w, owed)) as [[Hw Ht Hc] Hd].
  { rewrite <- Hrun. apply Hall. split; [|by intros _ rel ?%elem_of_empty].
    split; [done| |simpl; lia]. simpl. intros q. rewrite lookup_empty. by intros []. }
  simpl in *. split_and!; [by apply Hd|done| |done|intros; apply caused_spec|].
  - intros Et Ef rel Hr. destruct (Hd Hs rel Hr) as [?|[Hp|[Hf|?]]]; auto.
    + apply Ht in Hp. rewrite Et in Hp. by apply elem_of_nil in Hp.
    + rewrite Ef in Hf. by apply elem_of_nil in Hf.
  - intros op rel t add late Hp Hn d Hin. destruct (handleEvent_spec op rel t add late w Hp) as (_ & _ & Hcov).
    by apply Hcov.
Qed.

(** A file of the root whose name begins with two dots is taken for one outside. *)
Lemma dotted_name_is_dropped op rel t add late w :
  HasPrefix rel ".." = true → handleEvent op rel t add late w = w.
Proof. unfold handleEvent. by intros ->. Qed.
End events.

(** A queue of one place: two files appear, both timers fire, and the second file
    is covered by a scan. *)
Definition sample_watch : list watchStep :=
  [WEvent [Create] "a" ∅ (λ _, None) (λ _, false); WEvent [Create; Write] "b" ∅ (λ _, None) (λ _, false);
   WFire "a"; WSend 0; WFire "b"; WSend 0].

Lemma watcher_loses_no_event_witness :
  let cfg : @SyncCfg unit := {| app _ g := g; fmtTime _ := ""; hostname := ""; rootIdentity := ""; rootPerm := 493;
    readonly := false; ignore := None; maxFileBytes := 0; cfgChunkSize := 0; cfgChunkThreshold := 0;
    baseCtx := Ctx_ None "" true None ∅ false |} in
  let x := watchRun (cfg := cfg) sample_watch (emptyWatcher 1, ∅) in
  w_out (fst x) = [{| le_Path := "a"; le_KindHint := "create" |}] ∧
  ∀ rel, rel ∈ snd x → w_rescan (fst x) = true ∨ rel ∈ map le_Path (w_out (fst x)).
Proof.
  intros cfg x. split; [vm_compute; reflexivity|].
  apply (watcher_loses_no_event (cfg := cfg) 1 sample_watch (fst x) (snd x)); vm_compute; reflexivity.
Defined.
