(* ===== verification/ServerDiff.v ===== *)
(** internal/controlplane/server_diff.go with the manifest comparison of
    checkpoint_commit.go: the difference of two workspace manifests as a list of
    creations, updates, deletions and renames, and the hunk that shows how a text
    has changed (C39, C40).

    [mapOrder] stands for the orders in which the source ranges over maps, the
    class [SliceSort] for [sort.Slice] and [sort.Strings]. *)
From stdpp Require Import pretty.
From S2P Require Import Prelude Content Paths.
#[local] Open Scope string_scope.
#[local] Open Scope list_scope.
#[local] Open Scope Z_scope.

(** * Manifests *)

Record ManifestEntry := {
  mf_Type : string; mf_Mode : Z; mf_MtimeMs : Z; mf_Size : Z;
  mf_BlobID : string; mf_Inline : string; mf_Target : string
}.

Notation manifest := (gmap string ManifestEntry).

Definition zeroManifestEntry : ManifestEntry :=
  {| mf_Type := ""; mf_Mode := 0; mf_MtimeMs := 0; mf_Size := 0; mf_BlobID := ""; mf_Inline := "";
     mf_Target := "" |}.

Definition manifestEntryEquivalent (a b : ManifestEntry) : bool :=
  if negb (bool_decide (mf_Type a = mf_Type b)) || negb (mf_Mode a =? mf_Mode b) || negb (mf_Size a =? mf_Size b)
     || negb (bool_decide (mf_BlobID a = mf_BlobID b)) || negb (bool_decide (mf_Inline a = mf_Inline b))
     || negb (bool_decide (mf_Target a = mf_Target b))
  then false
  else if bool_decide (mf_Type a = "symlink" ∨ mf_Type a = "dir") then true
  else mf_MtimeMs a =? mf_MtimeMs b.

Definition entryContentEquivalent (a b : ManifestEntry) : bool :=
  bool_decide (mf_Type a = mf_Type b) && (mf_Size a =? mf_Size b) && bool_decide (mf_BlobID a = mf_BlobID b)
  && bool_decide (mf_Inline a = mf_Inline b) && bool_decide (mf_Target a = mf_Target b).

Definition entryHash (e : ManifestEntry) : string :=
  if negb (bool_decide (mf_BlobID e = "")) then mf_BlobID e
  else if negb (bool_decide (mf_Target e = "")) then "symlink:" +:+ mf_Target e
  else if negb (bool_decide (mf_Inline e = "")) then "inline:" +:+ mf_Inline e
  else "".

(** * Text *)

Inductive lineKind := LContext | LDelete | LInsert.

#[export] Instance lineKind_eq_dec : EqDecision lineKind.
Proof. solve_decision. Defined.

(** Line numbers start at 1; 0 is a number the source leaves out. *)
Record TextDiffLine := { tl_Kind : lineKind; tl_OldLine : Z; tl_NewLine : Z; tl_Text : string }.

Record TextDiffHunk := {
  th_OldStart : Z; th_OldLines : Z; th_NewStart : Z; th_NewLines : Z; th_Lines : list TextDiffLine
}.

Definition diffTextContext : nat := 3.

(** The loop over equal lines at the start. *)
Fixpoint commonPrefix (a b : list string) : nat :=
  match a, b with
  | x :: a, y :: b => if bool_decide (x = y) then S (commonPrefix a b) else O
  | _, _ => O
  end.

(** The loop over equal lines at the end, of which [n] lines are left on either
    side to be compared. *)
Fixpoint commonSuffix (n : nat) (oldLines newLines : list string) (suffix : nat) : nat :=
  match n with
  | O => suffix
  | S n =>
      if bool_decide (oldLines !! (length oldLines - 1 - suffix)%nat = newLines !! (length newLines - 1 - suffix)%nat)
      then commonSuffix n oldLines newLines (S suffix) else suffix
  end.

(** The lines of [l] with the positions from [i] on. *)
Definition diffLines (mk : Z → string → TextDiffLine) (l : list string) (from upto : nat) : list TextDiffLine :=
  imap (λ k text, mk (Z.of_nat (from + k + 1)) text) (take (upto - from) (drop from l)).

Definition buildTextDiffHunks (oldLines newLines : list string) : list TextDiffHunk :=
  if bool_decide (JoinWith (String "010" "") oldLines = JoinWith (String "010" "") newLines) then []
  else
    let prefix := commonPrefix oldLines newLines in
    let suffix := commonSuffix (min (length oldLines - prefix) (length newLines - prefix)) oldLines newLines 0 in
    let contextStart := (prefix - diffTextContext)%nat in
    let oldChangeEnd := (length oldLines - suffix)%nat in
    let newChangeEnd := (length newLines - suffix)%nat in
    let oldContextEnd := min (length oldLines) (oldChangeEnd + diffTextContext)%nat in
    let newContextEnd := min (length newLines) (newChangeEnd + diffTextContext)%nat in
    let after := min (oldContextEnd - oldChangeEnd) (newContextEnd - newChangeEnd) in
    let lines :=
      diffLines (λ i text, {| tl_Kind := LContext; tl_OldLine := i; tl_NewLine := i; tl_Text := text |})
        oldLines contextStart prefix ++
      diffLines (λ i text, {| tl_Kind := LDelete; tl_OldLine := i; tl_NewLine := 0; tl_Text := text |})
        oldLines prefix oldChangeEnd ++
      diffLines (λ i text, {| tl_Kind := LInsert; tl_OldLine := 0; tl_NewLine := i; tl_Text := text |})
        newLines prefix newChangeEnd ++
      diffLines (λ i text, {| tl_Kind := LContext; tl_OldLine := i;
                              tl_NewLine := i - Z.of_nat oldChangeEnd + Z.of_nat newChangeEnd; tl_Text := text |})
        oldLines oldChangeEnd (oldChangeEnd + after) in
    match lines with
    | [] => []
    | _ => [{| th_OldStart := Z.of_nat contextStart + 1;
               th_OldLines := Z.of_nat oldContextEnd - Z.of_nat contextStart;
               th_NewStart := Z.of_nat contextStart + 1;
               th_NewLines := Z.of_nat newContextEnd - Z.of_nat contextStart;
               th_Lines := lines |}]
    end.

(** [strings.SplitAfter(text, "\n")] without the empty last piece, and each line
    without its end. *)
Definition trimLineEnd (s : string) : string := TrimSuffix1 (TrimSuffix1 s "010") "013".

Fixpoint splitAfterNewline (acc text : string) : list string :=
  match text with
  | EmptyString => [acc]
  | String c text =>
      if Ascii.eqb c "010" then (acc +:+ String c "") :: splitAfterNewline "" text
      else splitAfterNewline (acc +:+ String c "") text
  end.

Definition splitDiffLines (text : string) : list string :=
  if bool_decide (text = "") then []
  else
    let raw := splitAfterNewline "" text in
    let raw := match last raw with Some "" => removelast raw | _ => raw end in
    map trimLineEnd raw.

(** * Entries *)

Record TextDiff := {
  td_Available : bool; td_SkippedReason : string; td_Language : string; td_MaxBytes : Z;
  td_Hunks : list TextDiffHunk
}.

Inductive diffOp := OpCreate | OpUpdate | OpDelete | OpRename | OpMetadata.

#[export] Instance diffOp_eq_dec : EqDecision diffOp.
Proof. solve_decision. Defined.

Record DiffEntry := {
  d_Op : diffOp; d_Path : string; d_PreviousPath : string; d_Kind : string; d_PreviousKind : string;
  d_SizeBytes : Z; d_PreviousSizeBytes : Z; d_DeltaBytes : Z; d_ContentHash : string;
  d_PreviousHash : string; d_Mode : Z; d_PreviousMode : Z; d_TextDiff : option TextDiff
}.

Definition createdDiffEntry (p : string) (next : ManifestEntry) : DiffEntry :=
  {| d_Op := OpCreate; d_Path := p; d_PreviousPath := ""; d_Kind := mf_Type next; d_PreviousKind := "";
     d_SizeBytes := mf_Size next; d_PreviousSizeBytes := 0; d_DeltaBytes := mf_Size next;
     d_ContentHash := entryHash next; d_PreviousHash := ""; d_Mode := mf_Mode next; d_PreviousMode := 0;
     d_TextDiff := None |}.

Definition deletedDiffEntry (p : string) (prev : ManifestEntry) : DiffEntry :=
  {| d_Op := OpDelete; d_Path := p; d_PreviousPath := ""; d_Kind := ""; d_PreviousKind := mf_Type prev;
     d_SizeBytes := 0; d_PreviousSizeBytes := mf_Size prev; d_DeltaBytes := i64 (- mf_Size prev);
     d_ContentHash := ""; d_PreviousHash := entryHash prev; d_Mode := 0; d_PreviousMode := mf_Mode prev;
     d_TextDiff := None |}.

Definition updatedDiffEntry (p : string) (prev next : ManifestEntry) : DiffEntry :=
  {| d_Op := if entryContentEquivalent prev next then OpMetadata else OpUpdate; d_Path := p;
     d_PreviousPath := ""; d_Kind := mf_Type next; d_PreviousKind := mf_Type prev;
     d_SizeBytes := mf_Size next; d_PreviousSizeBytes := mf_Size prev;
     d_DeltaBytes := i64 (mf_Size next - mf_Size prev); d_ContentHash := entryHash next;
     d_PreviousHash := entryHash prev; d_Mode := mf_Mode next; d_PreviousMode := mf_Mode prev;
     d_TextDiff := None |}.

Definition renamedDiffEntry (old new : string) (prev next : ManifestEntry) : DiffEntry :=
  {| d_Op := OpRename; d_Path := new; d_PreviousPath := old; d_Kind := mf_Type next;
     d_PreviousKind := mf_Type prev; d_SizeBytes := mf_Size next; d_PreviousSizeBytes := mf_Size prev;
     d_DeltaBytes := 0; d_ContentHash := entryHash next; d_PreviousHash := entryHash prev;
     d_Mode := mf_Mode next; d_PreviousMode := mf_Mode prev; d_TextDiff := None |}.

(** The empty string is the key of what is never taken for renamed. *)
Definition renameDiffKey (e : ManifestEntry) : string :=
  if negb (bool_decide (mf_Type e = "file")) && negb (bool_decide (mf_Type e = "symlink")) then ""
  else
    let hash := entryHash e in
    if bool_decide (hash = "") then ""
    else mf_Type e +:+ String "000" "" +:+ hash +:+ String "000" "" +:+ pretty (mf_Size e).

Record DiffSummary := {
  ds_Total : Z; ds_Created : Z; ds_Updated : Z; ds_Deleted : Z; ds_Renamed : Z; ds_MetadataChanged : Z;
  ds_BytesAdded : Z; ds_BytesRemoved : Z
}.

Definition summarizeStep (s : DiffSummary) (e : DiffEntry) : DiffSummary :=
  let count op := if bool_decide (d_Op e = op) then 1 else 0 in
  {| ds_Total := ds_Total s; ds_Created := ds_Created s + count OpCreate;
     ds_Updated := ds_Updated s + count OpUpdate; ds_Deleted := ds_Deleted s + count OpDelete;
     ds_Renamed := ds_Renamed s + count OpRename; ds_MetadataChanged := ds_MetadataChanged s + count OpMetadata;
     ds_BytesAdded := if 0 <? d_DeltaBytes e then i64 (ds_BytesAdded s + d_DeltaBytes e) else ds_BytesAdded s;
     ds_BytesRemoved := if d_DeltaBytes e <? 0 then i64 (ds_BytesRemoved s + i64 (- d_DeltaBytes e))
                        else ds_BytesRemoved s |}.

Definition summarizeDiffEntries (entries : list DiffEntry) : DiffSummary :=
  foldl summarizeStep
    {| ds_Total := Z.of_nat (length entries); ds_Created := 0; ds_Updated := 0; ds_Deleted := 0;
       ds_Renamed := 0; ds_MetadataChanged := 0; ds_BytesAdded := 0; ds_BytesRemoved := 0 |} entries.

(** * The difference of two manifests *)

(** The order of a range over a map. *)
Definition mapOrder := ∀ A : Type, gmap string A → list string.

Definition entryBefore (a b : DiffEntry) : bool :=
  if bool_decide (d_Path a = d_Path b) then stringLess (d_PreviousPath a) (d_PreviousPath b)
  else stringLess (d_Path a) (d_Path b).

Section diff.
Context `{!SliceSort stringLess, !SliceSort entryBefore} (keys : mapOrder).

(** The paths of [m] with the key [key], sorted. *)
Definition pathsWithKey (m : manifest) (key : string) : list string :=
  sort_slice (less := stringLess)
    (filter (λ p, renameDiffKey (default zeroManifestEntry (m !! p)) = key) (keys _ m)).

(** [deletedByKey] and [createdByKey] have this key. *)
Definition hasKey (m : manifest) (key : string) : bool :=
  existsb (λ p, bool_decide (renameDiffKey (default zeroManifestEntry (m !! p)) = key)) (keys _ m).

Definition renameKeys (deleted created : manifest) : list string :=
  sort_slice (less := stringLess)
    (filter (λ key, negb (bool_decide (key = "")) && hasKey created key = true)
       (remove_dups (map (λ p, renameDiffKey (default zeroManifestEntry (deleted !! p))) (keys _ deleted)))).

(** Under one key the i-th old path is taken for the i-th new one. *)
Definition renamesOfKey (deleted created : manifest) (key : string) : list DiffEntry :=
  zip_with (λ old new, renamedDiffEntry old new (default zeroManifestEntry (deleted !! old))
                         (default zeroManifestEntry (created !! new)))
    (pathsWithKey deleted key) (pathsWithKey created key).

Definition detectRenames (deleted created : manifest) : list DiffEntry :=
  concat (map (renamesOfKey deleted created) (renameKeys deleted created)).

(** One turn of the range over the paths of both manifests. *)
Definition diffPath (base head : manifest) (renamed : list string) (p : string) : list DiffEntry :=
  if bool_decide (p ∈ renamed) then []
  else match base !! p, head !! p with
       | Some prev, None => [deletedDiffEntry p prev]
       | None, Some next => [createdDiffEntry p next]
       | Some prev, Some next => if manifestEntryEquivalent prev next then [] else [updatedDiffEntry p prev next]
       | None, None => []
       end.

Definition diffManifests (base head : manifest) : list DiffEntry :=
  let base' := delete "/" base in
  let head' := delete "/" head in
  let deleted := filter (λ '(p, _), head !! p = None) base' in
  let created := filter (λ '(p, _), base !! p = None) head' in
  let renames := detectRenames deleted created in
  let renamed := concat (map (λ e, [d_PreviousPath e; d_Path e]) renames) in
  let paths := (λ _, ()) <$> base' ∪ head' in
  sort_slice (less := entryBefore) (renames ++ concat (map (diffPath base head renamed) (keys _ paths))).
End diff.

(** * What a hunk shows *)

(** The hunk applied to the lines it was made from. *)
Definition patchHunk (old : list string) (h : TextDiffHunk) : list string :=
  take (Z.to_nat (th_OldStart h - 1)) old ++
  map tl_Text (filter (λ l, tl_Kind l ≠ LDelete) (th_Lines h)) ++
  drop (Z.to_nat (th_OldStart h - 1 + th_OldLines h)) old.

Lemma commonPrefix_take a b : take (commonPrefix a b) a = take (commonPrefix a b) b.
Proof.
  revert b. induction a as [|x a IH]; intros [|y b]; simpl; try done.
  case_bool_decide as E; [|done]. subst. simpl. f_equal. apply IH.
Qed.

Lemma commonPrefix_le a b : (commonPrefix a b ≤ length a ∧ commonPrefix a b ≤ length b)%nat.
Proof.
  revert b. induction a as [|x a IH]; intros [|y b]; simpl; try lia.
  case_bool_decide; [|simpl; lia]. specialize (IH b). simpl. lia.
Qed.

(** The last [s] lines are the same. *)
Definition same_end (a b : list string) (s : nat) : Prop :=
  (s ≤ length a)%nat ∧ (s ≤ length b)%nat ∧ drop (length a - s) a = drop (length b - s) b.

Lemma commonSuffix_spec n a b s : same_end a b s → (s + n ≤ length a)%nat → (s + n ≤ length b)%nat →
  same_end a b (commonSuffix n a b s) ∧ (s ≤ commonSuffix n a b s ≤ s + n)%nat.
Proof.
  revert s. induction n as [|n IH]; intros s Hs Ha Hb; simpl; [split; [done|lia]|].
  case_bool_decide as E; [|split; [done|lia]].
  destruct (IH (S s)) as [Hx Hle]; [|lia..|split; [done|lia]].
  destruct Hs as (_ & _ & Hd). split_and!; [lia..|].
  destruct (lookup_lt_is_Some_2 a (length a - 1 - s)) as [x Hx]; [lia|]. rewrite Hx in E. symmetry in E.
  replace (length a - S s)%nat with (length a - 1 - s)%nat by lia.
  replace (length b - S s)%nat with (length b - 1 - s)%nat by lia.
  rewrite (drop_S _ _ _ Hx), (drop_S _ _ _ E). f_equal.
  replace (S (length a - 1 - s)) with (length a - s)%nat by lia.
  by replace (S (length b - 1 - s)) with (length b - s)%nat by lia.
Qed.

Section lines.
Context (mk : Z → string → TextDiffLine) (Hmk : ∀ i text, tl_Text (mk i text) = text).

Lemma diffLines_text l i j : map tl_Text (diffLines mk l i j) = take (j - i) (drop i l).
Proof.
  unfold diffLines. generalize (take (j - i) (drop i l)) as k. intros k. rewrite fmap_imap.
  transitivity (imap (λ _ x, x) k); [apply imap_ext; intros; apply Hmk|]. clear. induction k as [|x k IH]; [done|].
  rewrite imap_cons. f_equal. exact IH.
Qed.

Lemma diffLines_length l i j : length (diffLines mk l i j) = min (j - i) (length l - i).
Proof. unfold diffLines. by rewrite length_imap, length_take, length_drop. Qed.

Lemma diffLines_elem l i j x : x ∈ diffLines mk l i j →
  ∃ k text, (i ≤ k < j)%nat ∧ l !! k = Some text ∧ x = mk (Z.of_nat k + 1) text.
Proof.
  unfold diffLines. intros [k Hk]%list_elem_of_lookup. rewrite list_lookup_imap in Hk.
  destruct (take (j - i) (drop i l) !! k) as [text|] eqn:E; [|done]. injection Hk as <-.
  apply lookup_take_Some in E as [E Hlt]. rewrite lookup_drop in E.
  exists (i + k)%nat, text. split_and!; [lia..|done|]. f_equal. lia.
Qed.

Lemma diffLines_filter (P : TextDiffLine → Prop) `{!∀ x, Decision (P x)} l i j (b : bool) :
  (∀ k text, bool_decide (P (mk k text)) = b) →
  filter P (diffLines mk l i j) = if b then diffLines mk l i j else [].
Proof.
  intros Hb. unfold diffLines. generalize (take (j - i) (drop i l)) as k. intros k.
  assert (∀ f : nat → Z, filter P (imap (λ n text, mk (f n) text) k) =
    if b then imap (λ n text, mk (f n) text) k else []) as Hx.
  { induction k as [|x k IH]; intros f; [by destruct b|]. rewrite !imap_cons, filter_cons.
    specialize (Hb (f O) x). specialize (IH (f ∘ S)). unfold compose in *.
    destruct b; [apply bool_decide_eq_true in Hb; rewrite decide_True by done; f_equal; exact IH|].
    apply bool_decide_eq_false in Hb. rewrite decide_False by done. exact IH. }
  apply (Hx (λ n, Z.of_nat (i + n + 1))).
Qed.
End lines.

(** * Lines *)

Definition newline : string := String "010" "".
Definition one_line (s : string) : Prop := no_char "010" s = true.

(** Lines are told apart by the text they are joined to, but for one empty line
    and none. *)
Lemma join_lines a b : Forall one_line a → Forall one_line b → JoinWith newline a = JoinWith newline b →
  a = b ∨ a = [] ∧ b = [""] ∨ a = [""] ∧ b = [].
Proof.
  intros Ha Hb E. assert (∀ l, Forall one_line l → Split "" "010" = l ∨ l = [] ∨ JoinWith newline l ≠ "") as Hsp.
  { intros l Hl. destruct l as [|x l]; [right; by left|].
    destruct (decide (JoinWith newline (x :: l) = "")) as [Ej|]; [left|by right; right].
    rewrite <- Ej. by apply Split_Join. }
  destruct a as [|x a], b as [|y b]; [by left|..].
  - right. left. split; [done|]. destruct (Hsp _ Hb) as [<-|[?|?]]; [done..|by rewrite <- E in *].
  - right. right. split; [|done]. destruct (Hsp _ Ha) as [<-|[?|?]]; [done..|by rewrite E in *].
  - left. rewrite <- (Split_Join (x :: a) "010"), <- (Split_Join (y :: b) "010") by done.
    unfold newline in E. by rewrite E.
Qed.

Lemma TrimSuffix1_snoc s c : TrimSuffix1 (s +:+ String c "") c = s.
Proof.
  unfold TrimSuffix1.
  assert (String.list_ascii_of_string (s +:+ String c "") = String.list_ascii_of_string s ++ [c]) as ->.
  { induction s as [|d s IH]; [done|]. simpl. by rewrite IH. }
  rewrite rev_app_distr. simpl. rewrite Ascii.eqb_refl, rev_involutive. apply String.string_of_list_ascii_of_string.
Qed.

Lemma TrimSuffix1_cases s c : TrimSuffix1 s c = s ∨ s = TrimSuffix1 s c +:+ String c "".
Proof.
  destruct (rev (String.list_ascii_of_string s)) as [|d r] eqn:E; [left; unfold TrimSuffix1; by rewrite E|].
  assert (s = String.string_of_list_ascii (rev r) +:+ String d "") as ->.
  { rewrite <- (String.string_of_list_ascii_of_string s), <- (rev_involutive (String.list_ascii_of_string s)), E.
    simpl. clear. induction (rev r) as [|x l IH]; [done|]. simpl. by rewrite IH. }
  destruct (Ascii.eqb_spec d c) as [->|Hd]; [right; by rewrite TrimSuffix1_snoc|left].
  unfold TrimSuffix1. rewrite E. destruct (Ascii.eqb_spec d c); done.
Qed.

Lemma one_line_trim s c : one_line s → one_line (TrimSuffix1 s c).
Proof.
  unfold one_line. intros Hs. destruct (TrimSuffix1_cases s c) as [->|E]; [done|].
  rewrite E, no_char_app in Hs. by apply andb_true_iff in Hs as [? _].
Qed.

(** A line with or without its end. *)
Definition raw_line (w : string) : Prop := one_line w ∨ ∃ v, w = v +:+ newline ∧ one_line v.

Lemma splitAfter_lines text acc : one_line acc → Forall raw_line (splitAfterNewline acc text).
Proof.
  revert acc. induction text as [|c text IH]; intros acc Ha; simpl; [constructor; [by left|constructor]|].
  destruct (Ascii.eqb c "010") eqn:Ec.
  - apply Ascii.eqb_eq in Ec as ->. constructor; [right; by exists acc|]. by apply IH.
  - apply IH. unfold one_line in *. rewrite no_char_app, Ha. simpl. by rewrite Ec.
Qed.

Lemma trimLineEnd_line w : raw_line w → one_line (trimLineEnd w).
Proof.
  unfold trimLineEnd. intros [Hw|(v & -> & Hv)]; apply one_line_trim; [by apply one_line_trim|].
  unfold newline. by rewrite TrimSuffix1_snoc.
Qed.

Lemma splitDiffLines_lines text : Forall one_line (splitDiffLines text).
Proof.
  unfold splitDiffLines. case_bool_decide; [constructor|].
  assert (Forall raw_line (splitAfterNewline "" text)) as Hr by (by apply splitAfter_lines).
  assert (∀ l, Forall raw_line l → Forall one_line (map trimLineEnd l)) as Hm.
  { intros l Hl. apply Forall_map. eapply Forall_impl; [exact Hl|]. apply trimLineEnd_line. }
  destruct (last _) as [[|c s]|]; apply Hm; try done.
  destruct (splitAfterNewline "" text) as [|x l] using rev_ind; [done|].
  rewrite removelast_last. by apply Forall_app in Hr as [? _].
Qed.

(** * The hunk of two texts *)

Section hunk.
Context (old new : list string).
Let p := commonPrefix old new.
Let s := commonSuffix (min (length old - p) (length new - p)) old new 0.

Lemma hunk_bounds : (p + s ≤ length old ∧ p + s ≤ length new)%nat.
Proof.
  pose proof (commonPrefix_le old new) as [Hp1 Hp2]. fold p in Hp1, Hp2.
  destruct (commonSuffix_spec (min (length old - p) (length new - p)) old new 0) as [_ Hs]; [|lia..|fold s in Hs; lia].
  split_and!; [lia..|]. by rewrite !Nat.sub_0_r, !drop_all.
Qed.

Lemma hunk_end : drop (length old - s) old = drop (length new - s) new.
Proof.
  pose proof (commonPrefix_le old new) as [Hp1 Hp2]. fold p in Hp1, Hp2.
  destruct (commonSuffix_spec (min (length old - p) (length new - p)) old new 0) as [(_ & _ & Hd) _]; [|lia..|exact Hd].
  split_and!; [lia..|]. by rewrite !Nat.sub_0_r, !drop_all.
Qed.

(** Nothing between the common start and the common end. *)
Lemma nothing_between : (length old - s - p = 0)%nat → (length new - s - p = 0)%nat → old = new.
Proof.
  intros Ho Hn. pose proof hunk_bounds as [Hb1 Hb2]. pose proof hunk_end as He.
  rewrite <- (take_drop p old), <- (take_drop p new). f_equal; [apply commonPrefix_take|].
  replace (length old - s)%nat with p in He by lia. by replace (length new - s)%nat with p in He by lia.
Qed.
End hunk.

(** A line of a hunk is where its numbers say. *)
Definition line_placed (old new : list string) (l : TextDiffLine) : Prop :=
  match tl_Kind l with
  | LContext => old !! Z.to_nat (tl_OldLine l - 1) = Some (tl_Text l) ∧
                new !! Z.to_nat (tl_NewLine l - 1) = Some (tl_Text l)
  | LDelete => old !! Z.to_nat (tl_OldLine l - 1) = Some (tl_Text l) ∧ tl_NewLine l = 0
  | LInsert => tl_OldLine l = 0 ∧ new !! Z.to_nat (tl_NewLine l - 1) = Some (tl_Text l)
  end.

(** What a hunk promises. *)
Record hunk_shows (old new : list string) (h : TextDiffHunk) : Prop := {
  hs_patch : patchHunk old h = new;
  hs_old : Z.of_nat (length (filter (λ l, tl_Kind l ≠ LInsert) (th_Lines h))) = th_OldLines h;
  hs_new : Z.of_nat (length (filter (λ l, tl_Kind l ≠ LDelete) (th_Lines h))) = th_NewLines h;
  hs_lines l : l ∈ th_Lines h → line_placed old new l
}.

Lemma filter_all {A} (P : A → Prop) `{!∀ x, Decision (P x)} (l : list A) : (∀ x, x ∈ l → P x) → filter P l = l.
Proof.
  induction l as [|x l IH]; intros Hl; [done|]. rewrite filter_cons, decide_True by (apply Hl; by left).
  f_equal. apply IH. intros y Hy. apply Hl. by right.
Qed.

Lemma filter_none {A} (P : A → Prop) `{!∀ x, Decision (P x)} (l : list A) : (∀ x, x ∈ l → ¬ P x) → filter P l = [].
Proof.
  induction l as [|x l IH]; intros Hl; [done|]. rewrite filter_cons, decide_False by (apply Hl; by left).
  apply IH. intros y Hy. apply Hl. by right.
Qed.

(** The lines shown in the new text, and those shown in the old one. *)
Lemma shown_lines (ctx del ins tl : list TextDiffLine) :
  (∀ l, l ∈ ctx ++ tl → tl_Kind l = LContext) → (∀ l, l ∈ del → tl_Kind l = LDelete) →
  (∀ l, l ∈ ins → tl_Kind l = LInsert) →
  filter (λ l, tl_Kind l ≠ LDelete) (ctx ++ del ++ ins ++ tl) = ctx ++ ins ++ tl ∧
  filter (λ l, tl_Kind l ≠ LInsert) (ctx ++ del ++ ins ++ tl) = ctx ++ del ++ tl.
Proof.
  intros Hc Hd Hi. rewrite !filter_app.
  split.
  - rewrite (filter_all _ ctx), (filter_none _ del), (filter_all _ ins), (filter_all _ tl); [done|..];
      intros x Hx; first [rewrite (Hd x Hx)|rewrite (Hi x Hx)|rewrite Hc by (apply elem_of_app; auto)]; congruence.
  - rewrite (filter_all _ ctx), (filter_all _ del), (filter_none _ ins), (filter_all _ tl); [done|..];
      intros x Hx; first [rewrite (Hd x Hx)|rewrite (Hi x Hx)|rewrite Hc by (apply elem_of_app; auto)]; congruence.
Qed.

Lemma same_tail (old new : list string) (s k : nat) : (s ≤ length old)%nat → (s ≤ length new)%nat →
  drop (length old - s) old = drop (length new - s) new → (length old - s ≤ k < length old)%nat →
  old !! k = new !! (k - (length old - s) + (length new - s))%nat.
Proof.
  intros Ho Hn He Hk.
  assert (drop (length old - s) old !! (k - (length old - s))%nat = drop (length new - s) new !! (k - (length old - s))%nat)
    as Hx by (by rewrite He).
  rewrite !lookup_drop in Hx. replace (length old - s + (k - (length old - s)))%nat with k in Hx by lia.
  rewrite Hx. f_equal. lia.
Qed.

Lemma build_hunks old new : JoinWith newline old ≠ JoinWith newline new →
  ∃ h, buildTextDiffHunks old new = [h] ∧ hunk_shows old new h.
Proof.
  intros Hj. unfold buildTextDiffHunks. fold newline. rewrite bool_decide_false by done. cbv zeta.
  pose proof (hunk_bounds old new) as [Hb1 Hb2]. pose proof (hunk_end old new) as He.
  pose proof (nothing_between old new) as Hnone. pose proof (commonPrefix_take old new) as Hp.
  set (p := commonPrefix old new) in *.
  set (s := commonSuffix (min (length old - p) (length new - p)) old new 0) in *.
  clearbody s p. unfold diffTextContext. set (c := min 3 s). assert (c ≤ s)%nat as Hc by lia.
  assert (min (length old) (length old - s + 3) = (length old - s) + c)%nat as -> by lia.
  assert (min (length new) (length new - s + 3) = (length new - s) + c)%nat as -> by lia.
  replace (min _ _) with c by lia. clearbody c. set (ctx := diffLines _ old (p - 3) p).
  set (del := diffLines _ old p (length old - s)). set (ins := diffLines _ new p (length new - s)).
  set (tl := diffLines _ old (length old - s) _).
  assert (0 < length (ctx ++ del ++ ins ++ tl))%nat as Hlen.
  { rewrite !length_app. subst del ins. rewrite !diffLines_length.
    destruct (decide (length old - s - p = 0 ∧ length new - s - p = 0)%nat) as [[H1 H2]|]; [|lia].
    rewrite (Hnone H1 H2) in Hj. done. }
  destruct (ctx ++ del ++ ins ++ tl) as [|l0 ls] eqn:El; [simpl in Hlen; lia|]. eexists. split; [reflexivity|].
  rewrite <- El. clear Hlen l0 ls El.
  destruct (shown_lines ctx del ins tl) as [Hfn Hfo].
  { intros l [Hl|Hl]%elem_of_app; apply diffLines_elem in Hl as (? & ? & _ & _ & ->); done. }
  { intros l Hl. apply diffLines_elem in Hl as (? & ? & _ & _ & ->); done. }
  { intros l Hl. apply diffLines_elem in Hl as (? & ? & _ & _ & ->); done. }
  split; simpl.
  - unfold patchHunk. simpl. rewrite Hfn, !map_app. subst ctx ins tl. rewrite !diffLines_text by done.
    rewrite <- !app_assoc, (app_assoc (take _ old)). replace (Z.to_nat _) with (p - 3)%nat by lia.
    rewrite take_take_drop. replace (p - 3 + (p - (p - 3)))%nat with p by lia. rewrite Hp, app_assoc, take_take_drop.
    replace (p + (length new - s - p))%nat with (length new - s)%nat by lia.
    replace (length old - s + c - (length old - s))%nat with c by lia.
    replace (Z.to_nat _) with (length old - s + c)%nat by lia.
    rewrite <- drop_drop, (take_drop c), He. apply take_drop.
  - rewrite Hfo, !length_app. subst ctx del tl. rewrite !diffLines_length. lia.
  - rewrite Hfn, !length_app. subst ctx ins tl. rewrite !diffLines_length. lia.
  - intros l. rewrite !elem_of_app.
    intros [Hl|[Hl|[Hl|Hl]]]; apply diffLines_elem in Hl as (k & text & Hk & Hl & ->); unfold line_placed; simpl.
    + rewrite Z.add_simpl_r, Nat2Z.id. split; [done|].
      rewrite <- (lookup_take_lt new p k) by lia. rewrite <- Hp, lookup_take_lt by lia. exact Hl.
    + by rewrite Z.add_simpl_r, Nat2Z.id.
    + by rewrite Z.add_simpl_r, Nat2Z.id.
    + rewrite Z.add_simpl_r, Nat2Z.id. split; [done|].
      rewrite (same_tail old new s k) in Hl; [|lia..|done|lia]. rewrite <- Hl. f_equal. lia.
Qed.

(** C39: a text diff shows how the old text becomes the new one.  The hunk applied
    to the old lines gives the new ones; its two counts are those of the lines it
    shows of either text, and every line stands in the text where its number
    says.  There is no hunk for equal lines, but neither for the change between
    an empty text and one empty line. *)
Theorem text_diff_shows_change (a b : string) :
  let old := splitDiffLines a in
  let new := splitDiffLines b in
  match buildTextDiffHunks old new with
  | [] => old = new ∨ old = [] ∧ new = [""] ∨ old = [""] ∧ new = []
  | [h] => old ≠ new ∧ hunk_shows old new h
  | _ => False
  end.
Proof.
  intros old new. destruct (decide (JoinWith newline old = JoinWith newline new)) as [Hj|Hj].
  - assert (buildTextDiffHunks old new = []) as ->.
    { unfold buildTextDiffHunks. fold newline. by rewrite bool_decide_true. }
    apply join_lines; [apply splitDiffLines_lines..|done].
  - destruct (build_hunks old new Hj) as (h & -> & Hh). split; [|done]. intros E. by rewrite E in Hj.
Qed.

Example text_diff_sample :
  map (λ h, (th_OldStart h, th_OldLines h, th_NewLines h, map tl_Text (th_Lines h)))
    (buildTextDiffHunks ["a"; "b"; "c"; "d"; "e"; "f"] ["a"; "b"; "c"; "d"; "x"; "y"; "f"]) =
  [(2, 5, 6, ["b"; "c"; "d"; "e"; "x"; "y"; "f"])].
Proof. vm_compute. reflexivity. Qed.

(** * What a difference says *)

(** What a difference shows of an entry. *)
Definition face : Type := string * Z * string * Z.
Definition face_of (e : ManifestEntry) : face := (mf_Type e, mf_Size e, entryHash e, mf_Mode e).
Definition new_face (e : DiffEntry) : face := (d_Kind e, d_SizeBytes e, d_ContentHash e, d_Mode e).
Definition old_face (e : DiffEntry) : face := (d_PreviousKind e, d_PreviousSizeBytes e, d_PreviousHash e, d_PreviousMode e).

(** An entry carried out. *)
Definition applyEntry (m : gmap string face) (e : DiffEntry) : gmap string face :=
  match d_Op e with
  | OpDelete => delete (d_Path e) m
  | OpRename => <[d_Path e := new_face e]> (delete (d_PreviousPath e) m)
  | _ => <[d_Path e := new_face e]> m
  end.

(** The paths an entry is about, and what it leaves at one of them. *)
Definition touched (e : DiffEntry) : list string :=
  match d_Op e with OpRename => [d_PreviousPath e; d_Path e] | _ => [d_Path e] end.

Definition leaves (e : DiffEntry) (p : string) : option face :=
  match d_Op e with
  | OpDelete => None
  | OpRename => if bool_decide (p = d_Path e) then Some (new_face e) else None
  | _ => Some (new_face e)
  end.

Definition all_touched (l : list DiffEntry) : list string := concat (map touched l).

Lemma elem_of_concat {A} (x : A) (ls : list (list A)) : x ∈ concat ls ↔ ∃ l, l ∈ ls ∧ x ∈ l.
Proof.
  induction ls as [|l ls IH]; simpl; [set_solver|]. rewrite elem_of_app, IH. set_solver.
Qed.

Lemma elem_of_all_touched p l : p ∈ all_touched l ↔ ∃ e, e ∈ l ∧ p ∈ touched e.
Proof.
  unfold all_touched. rewrite elem_of_concat. split.
  - intros (t & (e & -> & He)%list_elem_of_fmap & Hp). eauto.
  - intros (e & He & Hp). exists (touched e). split; [apply list_elem_of_fmap; eauto|done].
Qed.

Lemma all_touched_perm l k : l ≡ₚ k → all_touched l ≡ₚ all_touched k.
Proof.
  unfold all_touched. induction 1; simpl; [done|by f_equiv| |by etransitivity].
  rewrite !app_assoc. f_equiv. apply Permutation_app_comm.
Qed.

Lemma applyEntry_other m e p : p ∉ touched e → applyEntry m e !! p = m !! p.
Proof.
  unfold applyEntry, touched. destruct (d_Op e); rewrite ?not_elem_of_cons; intros; destruct_and?;
    repeat first [rewrite lookup_insert_ne by done|rewrite lookup_delete_ne by done]; done.
Qed.

Lemma applyEntry_touched m e p : p ∈ touched e → NoDup (touched e) → applyEntry m e !! p = leaves e p.
Proof.
  unfold applyEntry, touched, leaves. intros Hp Hn. destruct (d_Op e).
  1,2,3,5: apply list_elem_of_singleton in Hp as ->;
    first [apply lookup_insert_eq|apply lookup_delete_eq].
  case_bool_decide as Hd; [subst; apply lookup_insert_eq|]. rewrite lookup_insert_ne by done.
  apply elem_of_cons in Hp as [->|Hp%list_elem_of_singleton]; [apply lookup_delete_eq|done].
Qed.

Lemma all_touched_concat {A} (f : A → list DiffEntry) l :
  all_touched (concat (map f l)) = concat (map (λ x, all_touched (f x)) l).
Proof.
  unfold all_touched. induction l as [|x l IH]; [done|]. simpl. by rewrite map_app, concat_app, IH.
Qed.

(** Entries about different paths are carried out independently. *)
Lemma apply_all l m : NoDup (all_touched l) →
  (∀ e p, e ∈ l → p ∈ touched e → foldl applyEntry m l !! p = leaves e p) ∧
  (∀ p, p ∉ all_touched l → foldl applyEntry m l !! p = m !! p).
Proof.
  revert m. induction l as [|e l IH]; intros m Hn; simpl.
  { split; [by intros e p ?%elem_of_nil|done]. }
  apply NoDup_app in Hn as (Hne & Hdis & Hn). destruct (IH (applyEntry m e) Hn) as [Hin Hout]. split.
  - intros e' p [->|He]%elem_of_cons Hp; [|by apply Hin]. rewrite Hout by (by apply Hdis).
    by apply applyEntry_touched.
  - intros p Hp. apply not_elem_of_app in Hp as [Hp1 Hp2]. rewrite Hout by done. by apply applyEntry_other.
Qed.

(** * Renames *)

Lemma no_char_pretty (n : Z) : no_char "000" (pretty n) = true.
Proof.
  assert (∀ (x : N) s, no_char "000" s = true → no_char "000" (pretty_N_go x s) = true) as Hgo.
  { intros x. induction (N.lt_wf_0 x) as [x _ IH]. intros s Hs. destruct (decide (x = 0)%N) as [->|]; [done|].
    rewrite pretty_N_go_step by lia. apply IH; [apply N.div_lt; lia|]. simpl. rewrite Hs.
    unfold pretty_N_char. by repeat case_match. }
  assert (∀ x : N, no_char "000" (pretty x) = true) as HN.
  { intros x. unfold pretty, pretty_N. case_decide; [done|]. by apply Hgo. }
  unfold pretty, pretty_Z. destruct n; [done|apply HN|simpl; apply HN].
Qed.

(** Under one key only entries of one type, size and hash. *)
Lemma renameDiffKey_inj a b : renameDiffKey a ≠ "" → renameDiffKey a = renameDiffKey b →
  mf_Type a = mf_Type b ∧ mf_Size a = mf_Size b ∧ entryHash a = entryHash b.
Proof.
  assert (∀ u v (m n : Z), u +:+ String "000" (pretty m) = v +:+ String "000" (pretty n) → u = v ∧ m = n) as Hcut.
  { intros u v m n. revert v. induction u as [|c u IH]; intros [|d v] E; simpl in E.
    - injection E as E. split; [done|]. by apply (inj pretty) in E.
    - injection E as <- E. exfalso. pose proof (no_char_pretty m) as Hm. rewrite E, no_char_app in Hm.
      simpl in Hm. by rewrite andb_false_r in Hm.
    - injection E as -> E. exfalso. pose proof (no_char_pretty n) as Hm. rewrite <- E, no_char_app in Hm.
      simpl in Hm. by rewrite andb_false_r in Hm.
    - injection E as <- E. apply IH in E as [-> ->]. done. }
  unfold renameDiffKey. intros Hne E.
  destruct (negb _ && _) eqn:Ea; [done|]. destruct (bool_decide (entryHash a = "")); [done|].
  destruct (negb (bool_decide (mf_Type b = "file")) && _) eqn:Eb; [by destruct (mf_Type a)|].
  destruct (bool_decide (entryHash b = "")); [by destruct (mf_Type a)|].
  assert (mf_Type a = mf_Type b) as Ht.
  { apply andb_false_iff in Ea, Eb. rewrite !negb_false_iff, !bool_decide_eq_true in Ea, Eb.
    destruct Ea as [Ea|Ea], Eb as [Eb|Eb]; rewrite Ea, Eb in E |- *; done. }
  split; [done|]. rewrite Ht in E. apply (inj (String.app (mf_Type b))) in E. injection E as E.
  apply Hcut in E as [? ?]. done.
Qed.

Definition is_order (keys : mapOrder) : Prop := ∀ A (m : gmap string A), keys A m ≡ₚ map fst (map_to_list m).

Lemma order_NoDup keys A (m : gmap string A) : is_order keys → NoDup (keys A m).
Proof. intros Hk. rewrite (Hk A m). apply NoDup_fst_map_to_list. Qed.

Lemma order_elem keys A (m : gmap string A) p : is_order keys → p ∈ keys A m ↔ is_Some (m !! p).
Proof.
  intros Hk. rewrite (Hk A m), list_elem_of_fmap. split.
  - intros ([q x] & -> & Hx%elem_of_map_to_list). by exists x.
  - intros [x Hx]. exists (p, x). by rewrite elem_of_map_to_list.
Qed.

Lemma NoDup_concat_map {A B} (f : A → list B) l : NoDup l → (∀ x, x ∈ l → NoDup (f x)) →
  (∀ x y b, x ∈ l → y ∈ l → b ∈ f x → b ∈ f y → x = y) → NoDup (concat (map f l)).
Proof.
  induction l as [|x l IH]; intros Hn Hf Hd; simpl; [constructor|]. apply NoDup_cons in Hn as [Hx Hn].
  apply NoDup_app. split_and!.
  - apply Hf. by left.
  - intros b Hb (t & (y & -> & Hy)%list_elem_of_fmap & Hb')%elem_of_concat.
    apply Hx. rewrite (Hd x y b); [done|by left|by right|done..].
  - apply IH; [done|intros y Hy; apply Hf; by right|]. intros y z b Hy Hz. apply Hd; by right.
Qed.

Lemma touched_renames l : (∀ e, e ∈ l → d_Op e = OpRename) → NoDup (map d_PreviousPath l) → NoDup (map d_Path l) →
  (∀ e e', e ∈ l → e' ∈ l → d_PreviousPath e ≠ d_Path e') → NoDup (all_touched l).
Proof.
  unfold all_touched. induction l as [|e l IH]; intros Ho Hp Hq Hd; simpl; [constructor|].
  apply NoDup_cons in Hp as [Hp' Hp], Hq as [Hq' Hq].
  assert (∀ p, p ∈ concat (map touched l) → p ∈ map d_PreviousPath l ∨ p ∈ map d_Path l) as Ht.
  { intros p (t & (e' & -> & He)%list_elem_of_fmap & Hin)%elem_of_concat. unfold touched in Hin.
    rewrite Ho in Hin by (by right).
    apply elem_of_cons in Hin as [->|Hin]; [left; apply list_elem_of_fmap; eauto|].
    apply list_elem_of_singleton in Hin as ->. right. apply list_elem_of_fmap. eauto. }
  assert (∀ p q, (p = d_PreviousPath e ∧ q ∈ map d_Path l) ∨ (p = d_Path e ∧ q ∈ map d_PreviousPath l) → p ≠ q) as Hx.
  { intros p q [[-> (e' & -> & He)%list_elem_of_fmap]|[-> (e' & -> & He)%list_elem_of_fmap]];
      [|apply not_eq_sym]; apply Hd; by constructor. }
  apply NoDup_app. split_and!.
  - unfold touched. rewrite Ho by (by left). apply NoDup_cons_2; [|apply NoDup_singleton].
    rewrite list_elem_of_singleton. apply Hd; by left.
  - intros p Hp1 Hin%Ht. unfold touched in Hp1. rewrite Ho in Hp1 by (by left).
    apply elem_of_cons in Hp1 as [->|Hp1]; [|apply list_elem_of_singleton in Hp1 as ->];
      destruct Hin as [Hin|Hin]; try done; (eapply Hx; [|reflexivity]); auto.
  - apply IH; [intros e' He; apply Ho; by right|done|done|]. intros e1 e2 H1 H2. apply Hd; by right.
Qed.

Lemma zip_sublist_l {A B C} (f : A → B → C) (g : C → A) l k : (∀ x y, g (f x y) = x) →
  sublist (map g (zip_with f l k)) l.
Proof.
  intros Hg. revert k. induction l as [|x l IH]; intros [|y k]; simpl; try (apply sublist_nil_l).
  rewrite Hg. by constructor.
Qed.

Lemma zip_sublist_r {A B C} (f : A → B → C) (g : C → B) l k : (∀ x y, g (f x y) = y) →
  sublist (map g (zip_with f l k)) k.
Proof.
  intros Hg. revert k. induction l as [|x l IH]; intros [|y k]; simpl; try (apply sublist_nil_l).
  rewrite Hg. by constructor.
Qed.

Section renames.
Context `{SS : !SliceSort stringLess} (keys : mapOrder) (Hk : is_order keys) (deleted created : manifest).
Context (Hdis : ∀ p, is_Some (deleted !! p) → created !! p = None).

Lemma pathsWithKey_elem m key p :
  p ∈ pathsWithKey keys m key ↔ ∃ e, m !! p = Some e ∧ renameDiffKey e = key.
Proof.
  unfold pathsWithKey. rewrite sort_slice_perm, list_elem_of_filter, order_elem by done. split.
  - intros [Hkey [e He]]. rewrite He in Hkey. by exists e.
  - intros (e & He & Hkey). rewrite He. split; [done|by eexists].
Qed.

Lemma pathsWithKey_NoDup m key : NoDup (pathsWithKey keys m key).
Proof. unfold pathsWithKey. rewrite sort_slice_perm. by apply NoDup_filter, order_NoDup. Qed.

Lemma renameKeys_elem key : key ∈ renameKeys keys deleted created → key ≠ "".
Proof.
  unfold renameKeys. rewrite sort_slice_perm, list_elem_of_filter. intros [Hx _].
  apply andb_true_iff in Hx as [Hx _]. by apply negb_true_iff, bool_decide_eq_false in Hx.
Qed.

Lemma renameKeys_NoDup : NoDup (renameKeys keys deleted created).
Proof. unfold renameKeys. rewrite sort_slice_perm. apply NoDup_filter, NoDup_remove_dups. Qed.

(** A rename leads from a deleted path to a created one of the same content. *)
Lemma renamesOfKey_elem key e : e ∈ renamesOfKey keys deleted created key → ∃ old new a b,
  e = renamedDiffEntry old new a b ∧ deleted !! old = Some a ∧ created !! new = Some b ∧
  renameDiffKey a = key ∧ renameDiffKey b = key.
Proof.
  unfold renamesOfKey. intros [i Hi]%list_elem_of_lookup. apply lookup_zip_with_Some in Hi as (old & new & -> & Ho & Hn).
  apply list_elem_of_lookup_2, pathsWithKey_elem in Ho as (a & Ha & Hka).
  apply list_elem_of_lookup_2, pathsWithKey_elem in Hn as (b & Hb & Hkb).
  rewrite Ha, Hb. by exists old, new, a, b.
Qed.

Lemma detectRenames_elem e : e ∈ detectRenames keys deleted created → ∃ old new a b,
  e = renamedDiffEntry old new a b ∧ deleted !! old = Some a ∧ created !! new = Some b ∧
  renameDiffKey a = renameDiffKey b ∧ renameDiffKey a ≠ "".
Proof.
  unfold detectRenames. intros (t & (key & -> & Hkey)%list_elem_of_fmap & He)%elem_of_concat.
  apply renamesOfKey_elem in He as (old & new & a & b & -> & Ha & Hb & Hka & Hkb).
  exists old, new, a, b. split_and!; [done..|congruence|]. rewrite Hka. by apply renameKeys_elem.
Qed.

Lemma detectRenames_NoDup : NoDup (all_touched (detectRenames keys deleted created)).
Proof.
  apply touched_renames.
  - intros e (? & ? & ? & ? & -> & _)%detectRenames_elem. done.
  - unfold detectRenames. rewrite concat_map, map_map. apply NoDup_concat_map; [apply renameKeys_NoDup|..].
    + intros key _. eapply sublist_NoDup; [apply (pathsWithKey_NoDup deleted key)|]. by apply zip_sublist_l.
    + intros k1 k2 p _ _ (e1 & -> & H1)%list_elem_of_fmap (e2 & E & H2)%list_elem_of_fmap.
      apply renamesOfKey_elem in H1 as (? & ? & a1 & ? & -> & ? & _ & ? & _), H2 as (? & ? & a2 & ? & -> & ? & _ & ? & _).
      simpl in E. subst. congruence.
  - unfold detectRenames. rewrite concat_map, map_map. apply NoDup_concat_map; [apply renameKeys_NoDup|..].
    + intros key _. eapply sublist_NoDup; [apply (pathsWithKey_NoDup created key)|]. by apply zip_sublist_r.
    + intros k1 k2 p _ _ (e1 & -> & H1)%list_elem_of_fmap (e2 & E & H2)%list_elem_of_fmap.
      apply renamesOfKey_elem in H1 as (? & ? & a1 & ? & -> & _ & ? & _ & ?), H2 as (? & ? & a2 & ? & -> & _ & ? & _ & ?).
      simpl in E. subst. congruence.
  - intros e1 e2 (? & ? & ? & ? & -> & Ha & _)%detectRenames_elem (? & ? & ? & ? & -> & _ & Hb & _)%detectRenames_elem.
    simpl. intros ->. rewrite Hdis in Hb by (by eexists). done.
Qed.
End renames.

Lemma equivalent_face a b : manifestEntryEquivalent a b = true → face_of a = face_of b.
Proof.
  unfold manifestEntryEquivalent, face_of, entryHash. intros E. destruct (_ || _) eqn:Eb; [done|].
  rewrite !orb_false_iff, !negb_false_iff, !bool_decide_eq_true, !Z.eqb_eq in Eb.
  by destruct Eb as [[[[[-> ->] ->] ->] ->] ->].
Qed.

Section diff.
Context (keys : mapOrder) (Hk : is_order keys) (base head : manifest).
Let deleted : manifest := filter (λ '(p, _), head !! p = None) (delete "/" base).
Let created : manifest := filter (λ '(p, _), base !! p = None) (delete "/" head).
Let paths : gmap string () := (λ _, ()) <$> (delete "/" base ∪ delete "/" head).

Lemma deleted_elem p a : deleted !! p = Some a ↔ p ≠ "/" ∧ base !! p = Some a ∧ head !! p = None.
Proof. unfold deleted. rewrite map_lookup_filter_Some, lookup_delete_Some. naive_solver. Qed.
Lemma created_elem p a : created !! p = Some a ↔ p ≠ "/" ∧ head !! p = Some a ∧ base !! p = None.
Proof. unfold created. rewrite map_lookup_filter_Some, lookup_delete_Some. naive_solver. Qed.
Lemma paths_elem p : is_Some (paths !! p) ↔ p ≠ "/" ∧ (is_Some (base !! p) ∨ is_Some (head !! p)).
Proof.
  unfold paths. rewrite lookup_fmap, fmap_is_Some, lookup_union_is_Some. destruct (decide (p = "/")) as [->|Hp].
  - rewrite !lookup_delete_eq. split; [intros [[]|[]]; done|by intros [? _]].
  - rewrite !lookup_delete_ne by done. tauto.
Qed.

Lemma deleted_not_created p : is_Some (deleted !! p) → created !! p = None.
Proof.
  intros [a Ha]. apply eq_None_not_Some. intros [b Hb]. apply deleted_elem in Ha. apply created_elem in Hb.
  destruct_and!. congruence.
Qed.

Section unsorted.
Context `{SS : !SliceSort stringLess}.
Let renames := detectRenames keys deleted created.
Let renamed := concat (map (λ e, [d_PreviousPath e; d_Path e]) renames).
Definition unsortedDiff : list DiffEntry := renames ++ concat (map (diffPath base head renamed) (keys _ paths)).

Lemma renamed_touched : renamed = all_touched renames.
Proof.
  unfold renamed, all_touched. f_equal. apply map_ext_in. intros e He. apply list_elem_of_In in He.
  apply detectRenames_elem in He as (? & ? & ? & ? & -> & _); done.
Qed.

Lemma diffPath_touched p e : e ∈ diffPath base head renamed p → touched e = [p] ∧ p ∉ renamed.
Proof.
  unfold diffPath. case_bool_decide; [by intros ?%elem_of_nil|].
  destruct (base !! p), (head !! p); try case_match; intros He;
    first [by apply elem_of_nil in He|apply list_elem_of_singleton in He as ->]; try done.
  unfold touched, updatedDiffEntry. simpl. by destruct (entryContentEquivalent _ _).
Qed.

Lemma diffPath_one p : diffPath base head renamed p = [] ∨ ∃ e, diffPath base head renamed p = [e].
Proof. unfold diffPath. repeat case_match; eauto. Qed.

Lemma unsorted_NoDup : NoDup (all_touched unsortedDiff).
Proof.
  unfold all_touched, unsortedDiff. rewrite map_app, concat_app. apply NoDup_app. split_and!.
  - apply detectRenames_NoDup; [done|apply deleted_not_created].
  - intros p Hp (e & He & Hin)%elem_of_all_touched.
    apply elem_of_concat in He as (t & (q & -> & _)%list_elem_of_fmap & He).
    apply diffPath_touched in He as [Ht Hn]. rewrite Ht in Hin. apply list_elem_of_singleton in Hin as ->.
    rewrite renamed_touched in Hn. done.
  - fold (all_touched (concat (map (diffPath base head renamed) (keys _ paths)))). rewrite all_touched_concat.
    apply NoDup_concat_map; [by apply order_NoDup|..].
    + intros p _. destruct (diffPath_one p) as [->|(e & E)]; [constructor|]. rewrite E. unfold all_touched. simpl.
      destruct (diffPath_touched p e) as [-> _]; [rewrite E; by left|]. apply NoDup_singleton.
    + intros p q x _ _ (e & He & Hx)%elem_of_all_touched (e' & He' & Hx')%elem_of_all_touched.
      apply diffPath_touched in He as [He _], He' as [He' _]. rewrite He in Hx. rewrite He' in Hx'.
      apply list_elem_of_singleton in Hx, Hx'. congruence.
Qed.

Lemma unsorted_elem e : e ∈ unsortedDiff ↔ e ∈ renames ∨ ∃ p, is_Some (paths !! p) ∧ e ∈ diffPath base head renamed p.
Proof.
  unfold unsortedDiff. rewrite elem_of_app, elem_of_concat. f_equiv. split.
  - intros (t & (p & -> & Hp)%list_elem_of_fmap & He). exists p. split; [by apply (order_elem keys)|done].
  - intros (p & Hp & He). exists (diffPath base head renamed p). split; [|done]. apply list_elem_of_fmap.
    exists p. split; [done|]. by apply order_elem.
Qed.

(** An entry tells what becomes of the paths it is about. *)
Lemma unsorted_leaves e p : e ∈ unsortedDiff → p ∈ touched e → p ≠ "/" ∧ leaves e p = face_of <$> head !! p.
Proof.
  intros [He|(q & Hq & He)]%unsorted_elem Hp.
  - pose proof (detectRenames_NoDup keys Hk deleted created deleted_not_created) as Hnd. fold renames in Hnd.
    apply detectRenames_elem in He as (old & new & a & b & -> & Ha & Hb & _); [|done].
    apply deleted_elem in Ha as (? & Ho & Ho'). apply created_elem in Hb as (? & Hn & Hn'). unfold touched in Hp. simpl in Hp.
    unfold leaves. simpl. case_bool_decide as Hd; [subst; by rewrite Hn|].
    apply elem_of_cons in Hp as [->|Hp%list_elem_of_singleton]; [by rewrite Ho'|done].
  - pose proof (diffPath_touched q e He) as [Ht _]. rewrite Ht in Hp. apply list_elem_of_singleton in Hp as ->.
    apply paths_elem in Hq as [Hq _]. split; [done|]. unfold diffPath in He. case_bool_decide; [by apply elem_of_nil in He|].
    destruct (base !! q), (head !! q); try case_match;
      first [by apply elem_of_nil in He|apply list_elem_of_singleton in He as ->]; try done.
    unfold leaves, updatedDiffEntry. simpl. by destruct (entryContentEquivalent _ _).
Qed.

(** What no entry is about has not changed. *)
Lemma unsorted_untouched p : p ≠ "/" → p ∉ all_touched unsortedDiff →
  option_Forall2 (λ a b, manifestEntryEquivalent a b = true) (base !! p) (head !! p).
Proof.
  intros Hne Hp. rewrite elem_of_all_touched in Hp.
  assert (p ∉ renamed) as Hr.
  { rewrite renamed_touched, elem_of_all_touched. intros (e & He & Hin). apply Hp. exists e. split; [|done].
    apply unsorted_elem. by left. }
  assert (∀ e, e ∈ diffPath base head renamed p → is_Some (base !! p) ∨ is_Some (head !! p) → False) as Hnone.
  { intros e He Hs%(conj Hne)%paths_elem. apply Hp. exists e. split; [apply unsorted_elem; right; eauto|].
    destruct (diffPath_touched p e He) as [-> _]. by left. }
  unfold diffPath in Hnone. rewrite bool_decide_false in Hnone by done.
  destruct (base !! p) as [a|], (head !! p) as [b|]; [|exfalso; eapply Hnone; [by left|eauto]..|constructor].
  destruct (manifestEntryEquivalent a b) eqn:E; [by constructor|]. exfalso. eapply Hnone; [by left|eauto].
Qed.

(** The other side of an entry is what was there. *)
Lemma unsorted_before e : e ∈ unsortedDiff → d_Op e ≠ OpCreate →
  face_of <$> base !! (match d_Op e with OpRename => d_PreviousPath e | _ => d_Path e end) = Some (old_face e).
Proof.
  intros [He|(q & Hq & He)]%unsorted_elem Hop.
  - apply detectRenames_elem in He as (old & new & a & b & -> & Ha & Hb & _); [|done].
    apply deleted_elem in Ha as (? & Ho & _). simpl. by rewrite Ho.
  - unfold diffPath in He. case_bool_decide; [by apply elem_of_nil in He|].
    destruct (base !! q) as [a|] eqn:Ea, (head !! q) as [b|]; try case_match;
      first [by apply elem_of_nil in He|apply list_elem_of_singleton in He as ->]; simpl; try done.
    + destruct (entryContentEquivalent a b); by rewrite Ea.
    + by rewrite Ea.
Qed.

(** A path an entry is about is not the same on both sides. *)
Lemma unsorted_changed e p : e ∈ unsortedDiff → p ∈ touched e →
  ¬ option_Forall2 (λ a b, manifestEntryEquivalent a b = true) (base !! p) (head !! p).
Proof.
  intros [He|(q & Hq & He)]%unsorted_elem Hp Heq.
  - apply detectRenames_elem in He as (old & new & a & b & -> & Ha & Hb & _); [|done].
    apply deleted_elem in Ha as (? & Ho & Ho'). apply created_elem in Hb as (? & Hn & Hn').
    apply elem_of_cons in Hp as [->|Hp%list_elem_of_singleton]; simpl in *; subst;
      [rewrite Ho, Ho' in Heq|rewrite Hn, Hn' in Heq]; inversion Heq.
  - pose proof (diffPath_touched q e He) as [Ht _]. rewrite Ht in Hp. apply list_elem_of_singleton in Hp as ->.
    unfold diffPath in He. case_bool_decide; [by apply elem_of_nil in He|]. inversion Heq as [a b Hab E1 E2|E1 E2].
    + rewrite <- E1, <- E2, Hab in He. by apply elem_of_nil in He.
    + rewrite <- E1, <- E2 in He. by apply elem_of_nil in He.
Qed.

(** A rename keeps what is renamed. *)
Lemma unsorted_rename e : e ∈ unsortedDiff → d_Op e = OpRename →
  d_Kind e = d_PreviousKind e ∧ d_SizeBytes e = d_PreviousSizeBytes e ∧ d_ContentHash e = d_PreviousHash e.
Proof.
  intros [He|(q & Hq & He)]%unsorted_elem Hop.
  - apply detectRenames_elem in He as (old & new & a & b & -> & _ & _ & Hkey & Hne); [|done].
    simpl. destruct (renameDiffKey_inj a b Hne Hkey) as (-> & -> & ->). done.
  - exfalso. unfold diffPath in He. case_bool_decide; [by apply elem_of_nil in He|].
    destruct (base !! q), (head !! q); try case_match;
      first [by apply elem_of_nil in He|apply list_elem_of_singleton in He as ->]; try done.
    unfold updatedDiffEntry in Hop. simpl in Hop. by destruct (entryContentEquivalent _ _).
Qed.
End unsorted.
End diff.

(** ** One difference *)

Lemma path_touched e : d_Path e ∈ touched e.
Proof. unfold touched. destruct (d_Op e); set_solver. Qed.

Lemma touched_once l e e' p : NoDup (all_touched l) → e ∈ l → e' ∈ l → p ∈ touched e → p ∈ touched e' → e = e'.
Proof.
  unfold all_touched. induction l as [|x l IH]; intros Hn He He' Hp Hp'; [by apply elem_of_nil in He|].
  simpl in Hn. apply NoDup_app in Hn as (_ & Hd & Hn).
  assert (∀ y, y ∈ l → p ∈ touched y → p ∈ concat (map touched l)) as Hin.
  { intros y Hy Hpy. apply elem_of_all_touched. eauto. }
  apply elem_of_cons in He as [->|He], He' as [->|He']; [done|exfalso..|by apply IH].
  - eapply Hd; eauto.
  - eapply Hd; eauto.
Qed.

Lemma entryBefore_total l x y : NoDup (all_touched l) → x ∈ l → y ∈ l →
  entryBefore x y = false → entryBefore y x = false → x = y.
Proof.
  intros Hn Hx Hy. unfold entryBefore. case_bool_decide as E.
  - intros _ _. apply (touched_once l x y (d_Path x)); [done..|apply path_touched|]. rewrite E. apply path_touched.
  - rewrite bool_decide_false by congruence. intros ? ?. exfalso. apply E. by apply stringLess_total.
Qed.

#[export] Instance entryBefore_order : StrictWeak entryBefore.
Proof.
  split; unfold entryBefore.
  - intros x y. repeat case_bool_decide; try congruence; apply sw_asym.
  - intros x y z. generalize (d_Path x) (d_Path y) (d_Path z). intros a b c.
    repeat case_bool_decide; subst; try congruence; try apply sw_trans; try done.
    all: intros; exfalso; match goal with H : ?u ≠ ?v |- _ => apply H; by apply stringLess_total end.
Qed.

Section orders.
Context (S1 S2 : SliceSort stringLess) (k1 k2 : mapOrder) (H1 : is_order k1) (H2 : is_order k2).

Lemma orders_perm A (m : gmap string A) : k1 A m ≡ₚ k2 A m.
Proof. by rewrite (H1 A m), (H2 A m). Qed.

Lemma strings_unique l1 l2 : l1 ≡ₚ l2 → @sort_slice _ _ S1 l1 = @sort_slice _ _ S2 l2.
Proof. apply sorted_unique. intros x y _ _. apply stringLess_total. Qed.

Lemma hasKey_unique m key : hasKey k1 m key = hasKey k2 m key.
Proof.
  apply eq_iff_eq_true. unfold hasKey. rewrite !existsb_exists.
  split; intros (p & Hp & Hx); exists p; (split; [|done]); apply list_elem_of_In; apply list_elem_of_In in Hp;
    by rewrite orders_perm in *.
Qed.

Lemma detectRenames_unique deleted created :
  @detectRenames S1 k1 deleted created = @detectRenames S2 k2 deleted created.
Proof.
  assert (∀ m key, @pathsWithKey S1 k1 m key = @pathsWithKey S2 k2 m key) as Hp.
  { intros m key. apply strings_unique. by rewrite orders_perm. }
  unfold detectRenames. f_equal. transitivity (map (@renamesOfKey S2 k2 deleted created) (@renameKeys S1 k1 deleted created)).
  - apply map_ext. intros key. unfold renamesOfKey. by rewrite !Hp.
  - f_equal. apply strings_unique. apply NoDup_Permutation; [apply NoDup_filter, NoDup_remove_dups..|]. intros key.
    rewrite !list_elem_of_filter, !elem_of_remove_dups, !list_elem_of_fmap, hasKey_unique. f_equiv.
    split; intros (p & -> & Hin); exists p; (split; [done|]); by rewrite orders_perm in *.
Qed.
End orders.

(** The difference is the same however maps are walked and lists sorted. *)
Lemma diff_unique (S1 S2 : SliceSort stringLess) (E1 E2 : SliceSort entryBefore) (k1 k2 : mapOrder) base head :
  is_order k1 → is_order k2 → @diffManifests S1 E1 k1 base head = @diffManifests S2 E2 k2 base head.
Proof.
  intros H1 H2. apply sorted_unique.
  - intros x y. apply entryBefore_total. exact (unsorted_NoDup k1 H1 base head).
  - rewrite (detectRenames_unique S1 S2 k1 k2 H1 H2). f_equiv. rewrite <- !flat_map_concat_map. by rewrite orders_perm.
Qed.

(** The path an entry leads from. *)
Definition source_path (e : DiffEntry) : string :=
  match d_Op e with OpRename => d_PreviousPath e | _ => d_Path e end.

(** C40: the difference of two manifests leads from the one to the other.  Carried
    out in the order it is listed, it turns what the first manifest shows of its
    paths (type, size, content, mode) into what the second one shows; its entries
    are about different paths, and exactly about those whose entries are not
    equivalent; what an entry says was there before was there; a rename keeps
    type, size and content.  The order in which maps are walked and the sorting
    method do not matter. *)
Theorem diff_leads_from_base_to_head (SS : SliceSort stringLess) (SE : SliceSort entryBefore) (keys : mapOrder)
    (base head : manifest) (Hk : is_order keys) :
  let d := diffManifests keys base head in
  foldl applyEntry (face_of <$> delete "/" base) d = face_of <$> delete "/" head ∧
  NoDup (all_touched d) ∧
  (∀ p, p ≠ "/" → p ∉ all_touched d ↔
     option_Forall2 (λ a b, manifestEntryEquivalent a b = true) (base !! p) (head !! p)) ∧
  (∀ e, e ∈ d → d_Op e ≠ OpCreate → face_of <$> base !! source_path e = Some (old_face e)) ∧
  (∀ e, e ∈ d → d_Op e = OpRename →
     d_Kind e = d_PreviousKind e ∧ d_SizeBytes e = d_PreviousSizeBytes e ∧ d_ContentHash e = d_PreviousHash e) ∧
  (∀ (SS' : SliceSort stringLess) (SE' : SliceSort entryBefore) keys', is_order keys' →
     diffManifests keys' base head = d).
Proof.
  intros d. assert (d ≡ₚ unsortedDiff keys base head) as Hd by apply sort_slice_perm.
  pose proof (all_touched_perm _ _ Hd) as Ht. assert (∀ e, e ∈ d ↔ e ∈ unsortedDiff keys base head) as He by (intros e; by rewrite Hd).
  assert (NoDup (all_touched d)) as Hn by (rewrite Ht; by apply unsorted_NoDup).
  assert (∀ p, p ≠ "/" → p ∉ all_touched d ↔
    option_Forall2 (λ a b, manifestEntryEquivalent a b = true) (base !! p) (head !! p)) as Hu.
  { intros p Hp. rewrite Ht. split; [by apply unsorted_untouched|].
    intros Heq (e & Hin & Hpe)%elem_of_all_touched. by eapply unsorted_changed. }
  split_and!; [|done|done|intros e Hin Hop; apply He in Hin; by eapply unsorted_before
    |intros e Hin Hop; apply He in Hin; by eapply unsorted_rename|intros; by apply diff_unique].
  destruct (apply_all d (face_of <$> delete "/" base) Hn) as [Hin Hout].
  apply map_eq. intros p. rewrite (lookup_fmap _ (delete "/" head)). destruct (decide (p ∈ all_touched d)) as [Hp|Hp].
  - apply elem_of_all_touched in Hp as (e & Hed & Hpe). rewrite (Hin e p Hed Hpe).
    apply He in Hed. destruct (unsorted_leaves keys Hk base head e p Hed Hpe) as [Hne ->].
    by rewrite lookup_delete_ne by done.
  - rewrite Hout by done. rewrite lookup_fmap. destruct (decide (p = "/")) as [->|Hne].
    + by rewrite !lookup_delete_eq.
    + rewrite !lookup_delete_ne by done. apply Hu in Hp as [a b Hab|]; [|done|done]. simpl. f_equal. by apply equivalent_face.
Qed.

Definition sample_file (blob : string) (size : Z) : ManifestEntry :=
  {| mf_Type := "file"; mf_Mode := 420; mf_MtimeMs := 5; mf_Size := size; mf_BlobID := blob; mf_Inline := "";
     mf_Target := "" |}.
Definition sample_base : manifest :=
  {["/" := zeroManifestEntry; "/a" := sample_file "x" 3; "/b" := sample_file "y" 4; "/c" := sample_file "z" 5]}.
Definition sample_head : manifest :=
  {["/" := zeroManifestEntry; "/d" := sample_file "x" 3; "/b" := sample_file "w" 6; "/c" := sample_file "z" 5]}.
Definition sample_keys : mapOrder := λ A m, map fst (map_to_list m).

Lemma sample_keys_order : is_order sample_keys.
Proof. intros A m. done. Qed.

Example diff_sample :
  map (λ e, (d_Op e, d_Path e, d_PreviousPath e, d_DeltaBytes e))
    (diffManifests sample_keys sample_base sample_head) =
  [(OpUpdate, "/b", "", 2); (OpRename, "/d", "/a", 0)].
Proof. vm_compute. reflexivity. Qed.

Lemma diff_leads_from_base_to_head_witness :
  is_order sample_keys ∧
  let d := diffManifests sample_keys sample_base sample_head in
  foldl applyEntry (face_of <$> delete "/" sample_base) d = face_of <$> delete "/" sample_head ∧ length d = 2%nat.
Proof.
  split; [exact sample_keys_order|]. cbv zeta. split; [|by vm_compute].
  exact (proj1 (diff_leads_from_base_to_head _ _ sample_keys sample_base sample_head sample_keys_order)).
Defined.
