(* ===== verification/Glob.v ===== *)
(** The two glob matchers of file history: [historyGlob] of
    internal/filehistory/policy.go over Go's [path.Match], which decides what is
    prepared before a write, and [history_glob] of internal/filehistory/glob.lua,
    which decides inside the publication script what is captured.

    Strings are lists of byte values.  [DecodeRune], [Match] and [TrimSpace] are
    Go's packages unicode/utf8, path and strings. *)
From S2P Require Import Prelude Paths.
#[local] Open Scope Z_scope.
#[local] Open Scope list_scope.

(** The bytes of a string. *)
Definition code (c : ascii) : Z := Z.of_nat (nat_of_ascii c).
Definition codes (s : string) : list Z := map code (String.list_ascii_of_string s).
Definition of_codes (l : list Z) : string :=
  String.string_of_list_ascii (map (λ z, ascii_of_nat (Z.to_nat z)) l).

Notation STAR := 42.  Notation QUESTION := 63.  Notation OPEN := 91.  Notation BACKSLASH := 92.
Notation CLOSE := 93.  Notation CARET := 94.  Notation DASH := 45.  Notation SLASH := 47.

(** * Package unicode/utf8 *)

Definition RuneError : Z := 65533.

Definition between (lo hi z : Z) : bool := (lo <=? z) && (z <=? hi).

(** The second byte a first byte admits, and the number of bytes. *)
Definition first_byte (c : Z) : option (nat * Z * Z) :=
  if between 194 223 c then Some (2%nat, 128, 191)
  else if c =? 224 then Some (3%nat, 160, 191)
  else if c =? 237 then Some (3%nat, 128, 159)
  else if between 225 239 c then Some (3%nat, 128, 191)
  else if c =? 240 then Some (4%nat, 144, 191)
  else if between 241 243 c then Some (4%nat, 128, 191)
  else if c =? 244 then Some (4%nat, 128, 143)
  else None.

Definition DecodeRune (s : list Z) : Z * nat :=
  match s with
  | [] => (RuneError, 0%nat)
  | s0 :: t =>
      if s0 <? 128 then (s0, 1%nat)
      else match first_byte s0, t with
           | Some (2%nat, lo, hi), s1 :: _ =>
               if between lo hi s1 then ((s0 - 192) * 64 + (s1 - 128), 2%nat) else (RuneError, 1%nat)
           | Some (3%nat, lo, hi), s1 :: s2 :: _ =>
               if between lo hi s1 && between 128 191 s2
               then ((s0 - 224) * 4096 + (s1 - 128) * 64 + (s2 - 128), 3%nat) else (RuneError, 1%nat)
           | Some (4%nat, lo, hi), s1 :: s2 :: s3 :: _ =>
               if between lo hi s1 && between 128 191 s2 && between 128 191 s3
               then ((s0 - 240) * 262144 + (s1 - 128) * 4096 + (s2 - 128) * 64 + (s3 - 128), 4%nat)
               else (RuneError, 1%nat)
           | _, _ => (RuneError, 1%nat)
           end
  end.

(** Where the last rune begins: the nearest of the three bytes before the last one
    that can begin a rune. *)
Definition RuneStart (c : Z) : bool := negb (between 128 191 c).

Fixpoint lastStart (tries : nat) (s : list Z) (start : nat) : nat :=
  match tries, start with
  | _, O => O
  | O, S start => start
  | S tries, S start =>
      match s !! start with
      | Some c => if RuneStart c then start else lastStart tries s start
      | None => start
      end
  end.

Definition DecodeLastRune (s : list Z) : Z * nat :=
  match last s with
  | None => (RuneError, 0%nat)
  | Some c =>
      if c <? 128 then (c, 1%nat)
      else
        let start := lastStart 3 s (length s - 1) in
        let '(r, size) := DecodeRune (drop start s) in
        if (start + size =? length s)%nat then (r, size) else (RuneError, 1%nat)
  end.

(** [unicode.IsSpace]. *)
Definition IsSpace (r : Z) : bool :=
  between 9 13 r || (r =? 32) || (r =? 133) || (r =? 160) || (r =? 5760) || between 8192 8202 r
  || (r =? 8232) || (r =? 8233) || (r =? 8239) || (r =? 8287) || (r =? 12288).

(** * Package strings *)

Fixpoint trimLeft (fuel : nat) (s : list Z) : list Z :=
  match fuel, s with
  | S fuel, _ :: _ => let '(r, n) := DecodeRune s in if IsSpace r then trimLeft fuel (drop n s) else s
  | _, _ => s
  end.

Fixpoint trimRight (fuel : nat) (s : list Z) : list Z :=
  match fuel, s with
  | S fuel, _ :: _ =>
      let '(r, n) := DecodeLastRune s in if IsSpace r then trimRight fuel (take (length s - n) s) else s
  | _, _ => s
  end.

Definition TrimSpace (s : list Z) : list Z :=
  let s := trimLeft (length s) s in trimRight (length s) s.

(** [strings.Trim(s, "/")]. *)
Fixpoint dropSlashes (s : list Z) : list Z :=
  match s with c :: s' => if c =? SLASH then dropSlashes s' else s | [] => [] end.
Definition TrimSlashes (s : list Z) : list Z := rev (dropSlashes (rev (dropSlashes s))).

(** [strings.Split(s, "/")]. *)
Fixpoint SplitSlash (s : list Z) : list (list Z) :=
  match s with
  | [] => [[]]
  | c :: s =>
      if c =? SLASH then [] :: SplitSlash s
      else match SplitSlash s with w :: ws => (c :: w) :: ws | [] => [[c]] end
  end.

(** * Package path *)

Fixpoint scan (inrange : bool) (pattern : list Z) : list Z * list Z :=
  match pattern with
  | [] => ([], [])
  | c :: p =>
      if c =? BACKSLASH then
        match p with
        | [] => ([c], [])
        | d :: p => let '(chunk, rest) := scan inrange p in (c :: d :: chunk, rest)
        end
      else if (c =? STAR) && negb inrange then ([], pattern)
      else
        let '(chunk, rest) := scan (if c =? OPEN then true else if c =? CLOSE then false else inrange) p in
        (c :: chunk, rest)
  end.

Fixpoint dropStars (pattern : list Z) : bool * list Z :=
  match pattern with
  | c :: p => if c =? STAR then (true, snd (dropStars p)) else (false, pattern)
  | [] => (false, [])
  end.

Definition scanChunk (pattern : list Z) : bool * list Z * list Z :=
  let '(star, pattern) := dropStars pattern in
  let '(chunk, rest) := scan false pattern in (star, chunk, rest).

(** [None] is [ErrBadPattern]. *)
Definition getEsc (chunk : list Z) : option (Z * list Z) :=
  match chunk with
  | [] => None
  | c :: t =>
      if (c =? DASH) || (c =? CLOSE) then None
      else
        let chunk := if c =? BACKSLASH then t else chunk in
        if bool_decide (chunk = []) then None
        else
          let '(r, n) := DecodeRune chunk in
          if (r =? RuneError) && (n =? 1)%nat then None
          else if bool_decide (drop n chunk = []) then None else Some (r, drop n chunk)
  end.

(** The loop over the ranges of a class. *)
Fixpoint classLoop (fuel : nat) (r : Z) (chunk : list Z) (matched : bool) (nrange : nat) : option (bool * list Z) :=
  match fuel with
  | O => None
  | S fuel =>
      if bool_decide (head chunk = Some CLOSE) && (0 <? nrange)%nat then Some (matched, tail chunk)
      else
        match getEsc chunk with
        | None => None
        | Some (lo, chunk) =>
            match (if bool_decide (head chunk = Some DASH) then getEsc (tail chunk) else Some (lo, chunk)) with
            | None => None
            | Some (hi, chunk) => classLoop fuel r chunk (matched || between lo hi r) (S nrange)
            end
        end
  end.

(** [Some (Some rest)]: the chunk matches and leaves [rest] of the name;
    [Some None]: it does not; [None]: it is no pattern. *)
Fixpoint matchChunk_loop (fuel : nat) (chunk s : list Z) (failed : bool) : option (option (list Z)) :=
  match fuel with
  | O => None
  | S fuel =>
      match chunk with
      | [] => Some (if failed then None else Some s)
      | c :: t =>
          let failed := failed || bool_decide (s = []) in
          let literal d t :=
            matchChunk_loop fuel t (if failed then s else tail s)
              (failed || negb (bool_decide (head s = Some d))) in
          if c =? OPEN then
            let '(r, s) := if failed then (0, s) else let '(r, n) := DecodeRune s in (r, drop n s) in
            let negated := bool_decide (head t = Some CARET) in
            match classLoop (S (length t)) r (if negated then tail t else t) false 0 with
            | None => None
            | Some (matched, t) => matchChunk_loop fuel t s (failed || Bool.eqb matched negated)
            end
          else if c =? QUESTION then
            if failed then matchChunk_loop fuel t s true
            else matchChunk_loop fuel t (drop (snd (DecodeRune s)) s) (bool_decide (head s = Some SLASH))
          else if c =? BACKSLASH then
            match t with [] => None | d :: t => literal d t end
          else literal c t
      end
  end.

Definition matchChunk (chunk s : list Z) : option (option (list Z)) :=
  matchChunk_loop (S (length chunk)) chunk s false.

(** The search for a later place at which the chunk behind a star matches. *)
Fixpoint starLoop (chunk : list Z) (lastChunk : bool) (name : list Z) : option (option (list Z)) :=
  match name with
  | [] => Some None
  | c :: name =>
      if c =? SLASH then Some None
      else match matchChunk chunk name with
           | None => None
           | Some (Some t) => if lastChunk && negb (bool_decide (t = [])) then starLoop chunk lastChunk name else Some (Some t)
           | Some None => starLoop chunk lastChunk name
           end
  end.

(** The rest of a pattern that did not match is still to be a pattern. *)
Fixpoint checkRest (fuel : nat) (pattern : list Z) : option bool :=
  match fuel, pattern with
  | _, [] => Some false
  | O, _ => None
  | S fuel, _ =>
      let '(_, chunk, pattern) := scanChunk pattern in
      match matchChunk chunk [] with None => None | Some _ => checkRest fuel pattern end
  end.

Fixpoint Match_loop (fuel : nat) (pattern name : list Z) : option bool :=
  match fuel, pattern with
  | _, [] => Some (bool_decide (name = []))
  | O, _ => None
  | S fuel, _ =>
      let '(star, chunk, rest) := scanChunk pattern in
      if star && bool_decide (chunk = []) then Some (negb (existsb (λ c, c =? SLASH) name))
      else
        match matchChunk chunk name with
        | None => None
        | Some m =>
            match m with
            | Some t =>
                if bool_decide (t = []) || negb (bool_decide (rest = [])) then Match_loop fuel rest t
                else if star then
                  match starLoop chunk (bool_decide (rest = [])) name with
                  | None => None
                  | Some (Some t) => Match_loop fuel rest t
                  | Some None => checkRest fuel rest
                  end
                else checkRest fuel rest
            | None =>
                if star then
                  match starLoop chunk (bool_decide (rest = [])) name with
                  | None => None
                  | Some (Some t) => Match_loop fuel rest t
                  | Some None => checkRest fuel rest
                  end
                else checkRest fuel rest
            end
        end
  end.

(** [path.Match]. *)
Definition Match (pattern name : list Z) : option bool := Match_loop (S (length pattern)) pattern name.

(** * internal/filehistory/policy.go *)

Definition MatchSegment (segment part : list Z) : bool := default false (Match segment part).

(** A [**] reaches every later position. *)
Fixpoint anyLater (active : bool) (positions : list bool) : list bool :=
  match positions with
  | [] => []
  | p :: positions => (active || p) :: anyLater (active || p) positions
  end.

(** The positions one part further on. *)
Definition oneLater {A} (matches : A → bool) (positions : list bool) (parts : list A) : list bool :=
  false :: zip_with (λ p part, p && matches part) positions parts.

Definition matchStep (parts : list (list Z)) (positions : list bool) (segment : list Z) : list bool :=
  if bool_decide (segment = [STAR; STAR]) then anyLater false positions
  else oneLater (MatchSegment segment) positions parts.

(** [historyGlob] is its segments. *)
Definition historyGlob : Type := list (list Z).

Definition MatchString (g : historyGlob) (value : list Z) : bool :=
  let value := TrimSlashes (TrimSpace value) in
  if bool_decide (value = []) then false
  else
    let parts := SplitSlash value in
    let positions := foldl (matchStep parts) (true :: replicate (length parts) false) g in
    default false (positions !! length parts).

Definition compileGlob (pattern : list Z) : option historyGlob :=
  if bool_decide (TrimSpace pattern = []) || (1024 <? length pattern)%nat || bool_decide (0 ∈ pattern) then None
  else if bool_decide ([46; 46] ∈ SplitSlash pattern) then None
  else
    let segments := SplitSlash (TrimSlashes (TrimSpace pattern)) in
    if forallb (λ segment, bool_decide (is_Some (Match segment []))) segments then Some segments else None.

(** * internal/filehistory/glob.lua *)

(** [history_runes]. *)
Definition rune_width (first : Z) : nat :=
  if first <? 128 then 1 else if 240 <=? first then 4 else if 224 <=? first then 3 else if 192 <=? first then 2 else 1.

(** The loop over the bytes behind the first one; [None] when one of them is none. *)
Fixpoint rune_code (n : nat) (rest : list Z) (c : Z) : option Z :=
  match n with
  | O => Some c
  | S n =>
      match rest with
      | b :: rest => if (b <? 128) || (192 <=? b) then None else rune_code n rest (c * 64 + b - 128)
      | [] => None
      end
  end.

Fixpoint history_runes_loop (fuel : nat) (value : list Z) : list Z :=
  match fuel, value with
  | S fuel, first :: rest =>
      let width := rune_width first in
      let c := if (width =? 1)%nat then first else first mod 2 ^ (7 - Z.of_nat width) in
      match rune_code (width - 1) rest c with
      | Some c => c :: history_runes_loop fuel (drop width value)
      | None => RuneError :: history_runes_loop fuel rest
      end
  | _, _ => []
  end.

Definition history_runes (value : list Z) : list Z := history_runes_loop (length value) value.

(** [history_trim]: the offsets of the runes are computed from their codes. *)
Definition encoded_width (c : Z) : nat :=
  if c <? 128 then 1 else if c <? 2048 then 2 else if c <? 65536 then 3 else 4.

Fixpoint firstNot (f : Z → bool) (l : list Z) : nat :=
  match l with [] => O | c :: l => if f c then S (firstNot f l) else O end.

Definition history_trim (value : list Z) : list Z :=
  let runes := history_runes value in
  let first := firstNot IsSpace runes in
  let last := (length runes - firstNot IsSpace (rev (drop first runes)))%nat in
  let offset j := if (j <? length runes)%nat then sum_list (map encoded_width (take j runes)) else length value in
  let value := if (last <=? first)%nat then [] else drop (offset first) (take (offset last) value) in
  rev (dropSlashes (rev (dropSlashes value))).

(** [letter] of [history_segment]: what may be nothing is [None]. *)
Definition letter (letters : list Z) : option Z * list Z :=
  let letters := if bool_decide (head letters = Some BACKSLASH) then tail letters else letters in
  (head letters, tail letters).

(** The ranges of a class and the letters from its end on; [None] returns false. *)
Fixpoint rangesLoop (fuel : nat) (letters : list Z) (ranges : list (Z * Z)) : option (list (Z * Z) * list Z) :=
  match fuel with
  | O => None
  | S fuel =>
      match letters with
      | [] => Some (ranges, letters)
      | c :: _ =>
          if c =? CLOSE then Some (ranges, letters)
          else
            let '(low, letters) := letter letters in
            let '(high, letters) := if bool_decide (head letters = Some DASH) then letter (tail letters) else (low, letters) in
            match low, high with
            | Some low, Some high => rangesLoop fuel letters (ranges ++ [(low, high)])
            | _, _ => None
            end
      end
  end.

Definition inRanges (ranges : list (Z * Z)) (c : Z) : bool := existsb (λ '(lo, hi), between lo hi c) ranges.

(** The loop over the letters of a pattern; [positions] are the places in the
    runes of the value the letters so far can lead to. *)
Fixpoint segmentLoop (fuel : nat) (letters runes : list Z) (positions : list bool) : bool :=
  match fuel with
  | O => false
  | S fuel =>
      match letters with
      | [] => default false (positions !! length runes)
      | c :: t =>
          if c =? STAR then segmentLoop fuel t runes (anyLater false positions)
          else if c =? OPEN then
            let negate := bool_decide (head t = Some CARET) in
            match rangesLoop (S (length t)) (if negate then tail t else t) [] with
            | None => false
            | Some (ranges, letters) =>
                if negb (bool_decide (head letters = Some CLOSE)) || bool_decide (ranges = []) then false
                else segmentLoop fuel (tail letters) runes
                       (oneLater (λ actual, xorb (inRanges ranges actual) negate) positions runes)
            end
          else
            let any := c =? QUESTION in
            if c =? BACKSLASH then
              match t with
              | [] => false
              | d :: t => segmentLoop fuel t runes (oneLater (λ actual, actual =? d) positions runes)
              end
            else segmentLoop fuel t runes (oneLater (λ actual, any || (actual =? c)) positions runes)
      end
  end.

Definition history_segment (pattern value : list Z) : bool :=
  let letters := history_runes pattern in
  let runes := history_runes value in
  segmentLoop (S (length letters)) letters runes (true :: replicate (length runes) false).

Definition luaStep (parts : list (list Z)) (positions : list bool) (segment : list Z) : list bool :=
  if bool_decide (segment = [STAR; STAR]) then anyLater false positions
  else oneLater (history_segment segment) positions parts.

Definition history_glob (pattern value : list Z) : bool :=
  let pattern := history_trim pattern in
  let value := history_trim value in
  if bool_decide (pattern = []) || bool_decide (value = []) then false
  else
    let parts := SplitSlash value in
    let positions := foldl (luaStep parts) (true :: replicate (length parts) false) (SplitSlash pattern) in
    default false (positions !! length parts).
