(* ===== verification/Json.v ===== *)
(** What strings become in a record kept as JSON (internal/controlplane/store.go,
    [setJSON] and [getJSON]; internal/filehistory/policy.go): Go's encoding/json writes
    U+FFFD for every byte that is not part of valid UTF-8, so reading the record back
    gives the coerced string.  Numbers, booleans and times come back as they were.

    [ValidString] is Go's unicode/utf8. *)
From S2P Require Import Prelude Paths Glob.
#[local] Open Scope string_scope.
#[local] Open Scope list_scope.
#[local] Open Scope Z_scope.

(** [utf8.ValidString]; a rune takes a byte at least. *)
Fixpoint valid_loop (fuel : nat) (s : list Z) : bool :=
  match fuel, s with
  | S fuel, c :: _ =>
      let '(_, size) := DecodeRune s in
      if (size =? 1)%nat && (128 <=? c) then false else valid_loop fuel (drop size s)
  | _, _ => true
  end.
Definition ValidString (s : string) : bool := valid_loop (String.length s) (codes s).

(** The loop of [appendString] over the bytes of a string, and what [json.Unmarshal]
    reads of it. *)
Fixpoint coerce (fuel : nat) (s : list Z) : list Z :=
  match fuel, s with
  | S fuel, c :: _ =>
      let '(_, size) := DecodeRune s in
      if (size =? 1)%nat && (128 <=? c) then [239; 191; 189] ++ coerce fuel (drop 1 s)
      else take size s ++ coerce fuel (drop size s)
  | _, _ => []
  end.
Definition jsonString (s : string) : string := of_codes (coerce (String.length s) (codes s)).

Lemma length_codes s : length (codes s) = String.length s.
Proof. unfold codes. rewrite length_map. induction s; simpl; congruence. Qed.

Lemma of_codes_codes s : of_codes (codes s) = s.
Proof.
  unfold of_codes, codes. rewrite map_map. rewrite <- (String.string_of_list_ascii_of_string s) at 2. f_equal.
  rewrite <- (map_id (String.list_ascii_of_string s)) at 2. apply map_ext. intros c. unfold code.
  by rewrite Nat2Z.id, ascii_nat_embedding.
Qed.

Lemma DecodeRune_size c s : (1 ≤ (DecodeRune (c :: s)).2)%nat.
Proof. unfold DecodeRune. repeat case_match; simpl; lia. Qed.

Lemma coerce_valid fuel s : (length s ≤ fuel)%nat → valid_loop fuel s = true → coerce fuel s = s.
Proof.
  revert s. induction fuel as [|fuel IH]; intros [|c s] Hl; cbn [coerce valid_loop]; try done; [simpl in Hl; lia|].
  pose proof (DecodeRune_size c s) as Hn. destruct (DecodeRune (c :: s)) as [r n]. simpl in Hn.
  destruct (_ && _); [done|]. intros Hv. rewrite IH, take_drop; [done| |done].
  rewrite length_drop. simpl in *. lia.
Qed.

(** Text that is valid UTF-8 comes back as it was. *)
Lemma jsonString_valid s : ValidString s = true → jsonString s = s.
Proof.
  intros Hv. unfold jsonString. rewrite coerce_valid, of_codes_codes; [done|by rewrite length_codes|done].
Qed.

Lemma map_jsonString l : Forall (λ s, ValidString s = true) l → map jsonString l = l.
Proof. induction 1 as [|s l Hs _ IH]; simpl; [done|]. by rewrite jsonString_valid, IH. Qed.

(** One byte of another encoding becomes three. *)
Example latin1_grows : jsonString (of_codes [97; 255; 98]) = of_codes [97; 239; 191; 189; 98].
Proof. reflexivity. Qed.

Example utf8_stays : jsonString (of_codes [195; 188; 226; 130; 172]) = of_codes [195; 188; 226; 130; 172].
Proof. reflexivity. Qed.

(** A rune cut short is coerced byte by byte. *)
Example cut_rune : codes (jsonString (of_codes [226; 130; 97])) = [239; 191; 189; 239; 191; 189; 97].
Proof. reflexivity. Qed.
