(* ===== verification/GlobProps.v ===== *)
(** The two glob matchers of file history are one: on ASCII text Go's and Lua's
    matcher both decide the wildcard matching of a pattern read by the grammar of
    [path.Match] (C30). *)
From S2P Require Import Prelude Paths Glob.
#[local] Open Scope Z_scope.
#[local] Open Scope list_scope.

(** * Wildcards *)

(** What a pattern is made of: any run of items, or one item of a kind. *)
Inductive wild (A : Type) := Star | One (m : A → bool).
Arguments Star {A}.
Arguments One {A} m.

(** The reference: a pattern matches a whole list. *)
Fixpoint wmatch {A} (ts : list (wild A)) (s : list A) : bool :=
  match ts with
  | [] => match s with [] => true | _ => false end
  | Star :: ts =>
      (fix skip s := wmatch ts s || match s with [] => false | _ :: s => skip s end) s
  | One m :: ts => match s with [] => false | c :: s => m c && wmatch ts s end
  end.

Lemma wmatch_star {A} (ts : list (wild A)) s :
  wmatch (Star :: ts) s = wmatch ts s || match s with [] => false | _ :: s => wmatch (Star :: ts) s end.
Proof. by destruct s. Qed.

(** A run ends somewhere. *)
Lemma wmatch_star_true {A} (ts : list (wild A)) s :
  wmatch (Star :: ts) s = true ↔ ∃ k, (k ≤ length s)%nat ∧ wmatch ts (drop k s) = true.
Proof.
  induction s as [|c s IH]; rewrite wmatch_star.
  - rewrite orb_false_r. split; [by exists 0%nat|]. intros (k & Hk & H). simpl in Hk. by replace k with 0%nat in H by lia.
  - rewrite orb_true_iff, IH. split.
    + intros [H|(k & Hk & H)]; [by exists 0%nat; split; [lia|]|]. exists (S k). simpl. split; [lia|done].
    + intros ([|k] & Hk & H); [by left|]. right. exists k. simpl in *. split; [lia|done].
Qed.

Lemma wmatch_star_at {A} (ts : list (wild A)) s k : wmatch ts (drop k s) = true → wmatch (Star :: ts) s = true.
Proof.
  intros H. apply wmatch_star_true. destruct (decide (k ≤ length s)%nat); [by exists k|].
  exists (length s). split; [done|]. rewrite drop_all. by rewrite drop_ge in H by lia.
Qed.

(** ** The two engines keep the set of places reached so far *)

Definition wstep {A} (s : list A) (positions : list bool) (t : wild A) : list bool :=
  match t with Star => anyLater false positions | One m => oneLater m positions s end.

Definition reached (positions : list bool) (k : nat) : Prop := positions !! k = Some true.

Lemma anyLater_length b l : length (anyLater b l) = length l.
Proof. revert b. induction l; intros; simpl; [done|by rewrite IHl]. Qed.

Lemma anyLater_reached b l k :
  reached (anyLater b l) k ↔ (k < length l)%nat ∧ (b = true ∨ ∃ j, (j ≤ k)%nat ∧ reached l j).
Proof.
  unfold reached. revert b k. induction l as [|p l IH]; intros b k; simpl; [rewrite lookup_nil; split; [done|lia]|].
  destruct k as [|k]; simpl.
  - split.
    + intros [= H]. split; [lia|]. apply orb_true_iff in H as [-> | ->]; [by left|right; by exists 0%nat].
    + intros (_ & [->|(j & Hj & H)]); [done|]. replace j with 0%nat in H by lia. simpl in H. injection H as ->. by rewrite orb_true_r.
  - rewrite IH. rewrite orb_true_iff. split.
    + intros (Hk & H). split; [lia|]. destruct H as [[-> | ->]|(j & Hj & H)]; [by left|right; by exists 0%nat; split; [lia|]|].
      right. exists (S j). split; [lia|done].
    + intros (Hk & H). split; [lia|]. destruct H as [->|([|j] & Hj & H)]; [by left; left| |].
      * left. right. simpl in H. by injection H.
      * right. exists j. split; [lia|done].
Qed.

Lemma oneLater_length {A} (m : A → bool) l s : length l = S (length s) → length (oneLater m l s) = S (length s).
Proof. intros H. unfold oneLater. simpl. rewrite length_zip_with, H. lia. Qed.

Lemma oneLater_reached {A} (m : A → bool) l s k :
  reached (oneLater m l s) k ↔ ∃ j c, k = S j ∧ reached l j ∧ s !! j = Some c ∧ m c = true.
Proof.
  unfold reached, oneLater. destruct k as [|k]; simpl; [split; [done|by intros (? & ? & ? & _)]|].
  rewrite lookup_zip_with_Some. split.
  - intros (p & c & H & Hp & Hc). symmetry in H. apply andb_true_iff in H as [-> Hm]. exists k, c. done.
  - intros (j & c & [= <-] & Hp & Hc & Hm). exists true, c. by rewrite Hm.
Qed.

Lemma wstep_length {A} (s : list A) l t : length l = S (length s) → length (wstep s l t) = S (length s).
Proof. destruct t; simpl; [by rewrite anyLater_length|apply oneLater_length]. Qed.

Lemma wrun {A} (s : list A) ts l : length l = S (length s) →
  reached (foldl (wstep s) l ts) (length s) ↔ ∃ j, reached l j ∧ wmatch ts (drop j s) = true.
Proof.
  revert l. induction ts as [|t ts IH]; intros l Hl; simpl.
  - split.
    + intros H. exists (length s). by rewrite drop_all.
    + intros (j & Hj & H). pose proof (lookup_lt_Some _ _ _ Hj). destruct (drop j s) eqn:E; [|done].
      apply (f_equal length) in E. rewrite length_drop in E. simpl in E. by replace (length s) with j by lia.
  - rewrite IH by (by apply wstep_length). destruct t as [|m].
    + cbn [wstep]. setoid_rewrite anyLater_reached. split.
      * intros (k & (Hk & [H|(j & Hj & H)]) & Hm); [done|]. exists j. split; [done|]. apply wmatch_star_true.
        exists (k - j)%nat. rewrite length_drop, drop_drop. split; [lia|]. by replace (j + (k - j))%nat with k by lia.
      * intros (j & Hj & Hm). apply wmatch_star_true in Hm as (k & Hk & Hm). rewrite length_drop in Hk.
        pose proof (lookup_lt_Some _ _ _ Hj). rewrite drop_drop in Hm. exists (j + k)%nat. split; [|done].
        split; [lia|]. right. exists j. split; [lia|done].
    + cbn [wstep]. setoid_rewrite oneLater_reached. split.
      * intros (k & (j & c & -> & Hj & Hc & Hmc) & Hm). exists j. split; [done|]. rewrite (drop_S _ _ _ Hc). simpl. by rewrite Hmc.
      * intros (j & Hj & Hm). destruct (drop j s) as [|c u] eqn:E; [done|]. simpl in Hm. apply andb_true_iff in Hm as [Hmc Hm].
        assert (s !! j = Some c) as Hc by (rewrite <- (Nat.add_0_r j), <- lookup_drop, E; done).
        exists (S j). split; [by exists j, c|]. rewrite (drop_S _ _ _ Hc) in E. injection E as ->. done.
Qed.

(** Both engines start at the start and ask for the end. *)
Lemma wrun_match {A} (s : list A) ts :
  default false (foldl (wstep s) (true :: replicate (length s) false) ts !! length s) = wmatch ts s.
Proof.
  set (l := foldl _ _ _). assert (reached l (length s) ↔ wmatch ts s = true) as H.
  { unfold l. rewrite wrun by (simpl; by rewrite length_replicate). split.
    - intros ([|j] & Hj & Hm); [done|]. unfold reached in Hj. simpl in Hj.
      apply lookup_replicate in Hj as [? _]. done.
    - intros Hm. by exists 0%nat. }
  unfold reached in H. destruct (wmatch ts s); [by rewrite (proj2 H eq_refl)|].
  destruct (l !! length s) as [[]|]; simpl; [symmetry; by apply H|done..].
Qed.

(** * The grammar of a segment *)

(** A character of a class, escaped or not. *)
Inductive char_of : list Z → Z → Prop :=
| char_plain c : c ≠ DASH → c ≠ CLOSE → c ≠ BACKSLASH → char_of [c] c
| char_escaped c : char_of [BACKSLASH; c] c.

Inductive range_of : list Z → Z * Z → Prop :=
| range_one w c : char_of w c → range_of w (c, c)
| range_two w c v d : char_of w c → char_of v d → range_of (w ++ DASH :: v) (c, d).

Inductive ranges_of : list Z → list (Z * Z) → Prop :=
| ranges_nil : ranges_of [] []
| ranges_cons w r v rs : range_of w r → ranges_of v rs → ranges_of (w ++ v) (r :: rs).

Definition class_of (negated : bool) (rs : list (Z * Z)) : wild Z := One (λ c, xorb (inRanges rs c) negated).

(** The grammar of [path.Match]. *)
Inductive parses : list Z → list (wild Z) → Prop :=
| parses_nil : parses [] []
| parses_star p ts : parses p ts → parses (STAR :: p) (Star :: ts)
| parses_any p ts : parses p ts → parses (QUESTION :: p) (One (λ _, true) :: ts)
| parses_escaped c p ts : parses p ts → parses (BACKSLASH :: c :: p) (One (λ d, d =? c) :: ts)
| parses_class (negated : bool) w rs p ts :
    ranges_of w rs → rs ≠ [] → (negated = false → head w ≠ Some CARET) → parses p ts →
    parses (OPEN :: (if negated then [CARET] else []) ++ w ++ CLOSE :: p) (class_of negated rs :: ts)
| parses_plain c p ts :
    c ≠ STAR → c ≠ QUESTION → c ≠ OPEN → c ≠ BACKSLASH → parses p ts →
    parses (c :: p) (One (λ d, d =? c) :: ts).

(** * Lua's matcher *)

Definition ascii_codes (s : list Z) : Prop := Forall (λ c, 0 ≤ c < 128) s.

Lemma runes_ascii s : ascii_codes s → history_runes s = s.
Proof.
  unfold history_runes. induction 1 as [|c s Hc Hs IH]; simpl; [done|]. unfold rune_width.
  replace (c <? 128) with true by lia. simpl. rewrite drop_0. by rewrite IH.
Qed.

Lemma head_char w c v : char_of w c → ∃ d t, w ++ v = d :: t ∧ d ≠ DASH ∧ d ≠ CLOSE.
Proof. by intros []; simpl; eauto. Qed.

Lemma head_ranges w rs v : ranges_of w rs → (rs = [] ∧ w = []) ∨ ∃ d t, w ++ v = d :: t ∧ d ≠ DASH ∧ d ≠ CLOSE.
Proof.
  intros [|w' r u rs' Hr Hu]; [by left|right]. rewrite <- app_assoc. destruct Hr as [w' c Hc|w' c x d Hc Hd].
  - by eapply head_char.
  - rewrite <- app_assoc. by eapply head_char.
Qed.

Lemma letter_char w c v : char_of w c → letter (w ++ v) = (Some c, v).
Proof.
  intros [c' H1 H2 H3|c']; unfold letter; simpl; [|done].
  rewrite bool_decide_false by congruence. done.
Qed.

Lemma rangesLoop_spec w rs p acc fuel : ranges_of w rs → (length w < fuel)%nat →
  rangesLoop fuel (w ++ CLOSE :: p) acc = Some (acc ++ rs, CLOSE :: p).
Proof.
  intros Hw. revert acc fuel. induction Hw as [|w r v rs Hr Hv IH]; intros acc fuel Hf; (destruct fuel as [|fuel]; [simpl in Hf; lia|]).
  - simpl. by rewrite app_nil_r.
  - destruct (head_ranges (w ++ v) (r :: rs) (CLOSE :: p)) as [[? _]|(d & t & E & Hd1 & Hd2)]; [by constructor|done|].
    assert (0 < length w)%nat as Hlen by (destruct Hr as [? ? []|? ? ? ? []]; simpl; lia).
    assert (∀ acc', rangesLoop fuel (v ++ CLOSE :: p) acc' = Some (acc' ++ rs, CLOSE :: p)) as Hrec.
    { intros acc'. apply IH. rewrite length_app in Hf. lia. }
    cbn [rangesLoop]. rewrite E. destruct (Z.eqb_spec d CLOSE); [done|]. rewrite <- E, <- app_assoc.
    destruct Hr as [w c Hc|w c x y Hc Hx].
    + rewrite (letter_char w c) by done. assert (bool_decide (head (v ++ CLOSE :: p) = Some DASH) = false) as ->.
      { apply bool_decide_eq_false. destruct (head_ranges v rs (CLOSE :: p) Hv) as [[-> ->]|(a & b & -> & Ha & _)]; simpl; congruence. }
      rewrite Hrec, <- app_assoc. done.
    + rewrite <- app_assoc. rewrite (letter_char w c) by done. cbn [head tail app]. rewrite bool_decide_true by done.
      rewrite (letter_char x y) by done. rewrite Hrec, <- app_assoc. done.
Qed.

Lemma segmentLoop_open fuel t runes positions :
  segmentLoop (S fuel) (OPEN :: t) runes positions =
  (let negate := bool_decide (head t = Some CARET) in
   match rangesLoop (S (length t)) (if negate then tail t else t) [] with
   | None => false
   | Some (ranges, letters) =>
       if negb (bool_decide (head letters = Some CLOSE)) || bool_decide (ranges = []) then false
       else segmentLoop fuel (tail letters) runes (oneLater (λ actual, xorb (inRanges ranges actual) negate) positions runes)
   end).
Proof. done. Qed.

(** What follows the opening of a class. *)
Lemma class_head (neg : bool) w rs p : ranges_of w rs → rs ≠ [] → (neg = false → head w ≠ Some CARET) →
  let q := (if neg then [CARET] else []) ++ w ++ CLOSE :: p in
  bool_decide (head q = Some CARET) = neg ∧ (if neg then tail q else q) = w ++ CLOSE :: p.
Proof.
  intros Hw Hrs Hneg. destruct neg; simpl; [done|]. split; [|done]. apply bool_decide_eq_false.
  specialize (Hneg eq_refl).
  destruct w as [|x w]; [|simpl in *; congruence].
  by inversion Hw as [|? ? ? ? [? ? []|? ? ? ? []]].
Qed.

Lemma segmentLoop_spec p ts runes positions fuel : parses p ts → (length p < fuel)%nat →
  segmentLoop fuel p runes positions = default false (foldl (wstep runes) positions ts !! length runes).
Proof.
  intros Hp. revert positions fuel. induction Hp as [|p ts Hp IH|p ts Hp IH|c p ts Hp IH|neg w rs p ts Hw Hrs Hneg Hp IH|c p ts H1 H2 H3 H4 Hp IH];
    intros positions fuel Hf; (destruct fuel as [|fuel]; [simpl in Hf; lia|]); simpl in Hf.
  - done.
  - simpl. rewrite IH by lia. done.
  - simpl. rewrite IH by lia. done.
  - simpl. rewrite IH by lia. done.
  - rewrite segmentLoop_open. cbv zeta. destruct (class_head neg w rs p Hw Hrs Hneg) as [-> ->].
    rewrite (rangesLoop_spec w rs) by (try done; rewrite !length_app; simpl; lia). cbn [head tail app].
    rewrite bool_decide_true, bool_decide_false by done. cbn [negb orb].
    rewrite !length_app in Hf. simpl in Hf. rewrite IH by lia. done.
  - simpl. repeat match goal with |- context [c =? ?x] => destruct (Z.eqb_spec c x); [done|] end. simpl. rewrite IH by lia. done.
Qed.

Lemma segment_lua p ts s : parses p ts → ascii_codes p → ascii_codes s → history_segment p s = wmatch ts s.
Proof.
  intros Hp Hap Has. unfold history_segment. rewrite !runes_ascii by done.
  rewrite (segmentLoop_spec p ts) by (done || lia). apply wrun_match.
Qed.

(** * Go's matcher *)

Lemma decode_ascii c t : 0 ≤ c < 128 → DecodeRune (c :: t) = (c, 1%nat).
Proof. intros. simpl. by replace (c <? 128) with true by lia. Qed.

(** What [getEsc] does with the character itself. *)
Lemma esc_tail c t : 0 ≤ c < 128 →
  (let '(r, n) := DecodeRune (c :: t) in
   if (r =? RuneError) && (n =? 1)%nat then None
   else if bool_decide (drop n (c :: t) = []) then None else Some (r, drop n (c :: t)))
  = if bool_decide (t = []) then None else Some (c, t).
Proof.
  intros Hc. rewrite decode_ascii by done. unfold RuneError. replace (c =? 65533) with false by lia.
  cbn [andb skipn]. by rewrite drop_0.
Qed.

Lemma getEsc_plain c t : 0 ≤ c < 128 → c ≠ DASH → c ≠ CLOSE → c ≠ BACKSLASH →
  getEsc (c :: t) = if bool_decide (t = []) then None else Some (c, t).
Proof.
  intros Hc H1 H2 H3. unfold getEsc. replace (c =? DASH) with false by lia. replace (c =? CLOSE) with false by lia.
  replace (c =? BACKSLASH) with false by lia. cbn [orb]. rewrite (bool_decide_false (c :: t = [])) by done. by apply esc_tail.
Qed.

Lemma getEsc_escaped c t : 0 ≤ c < 128 →
  getEsc (BACKSLASH :: c :: t) = if bool_decide (t = []) then None else Some (c, t).
Proof.
  intros Hc. unfold getEsc. change (BACKSLASH =? DASH) with false. change (BACKSLASH =? CLOSE) with false.
  change (BACKSLASH =? BACKSLASH) with true. cbn [orb]. rewrite (bool_decide_false (c :: t = [])) by done. by apply esc_tail.
Qed.

Lemma getEsc_spec w c q : char_of w c → ascii_codes w → q ≠ [] → getEsc (w ++ q) = Some (c, q).
Proof.
  intros [d H1 H2 H3|d] Ha Hq; repeat apply Forall_cons in Ha as [? Ha]; cbn [app].
  - rewrite getEsc_plain by done. by rewrite bool_decide_false.
  - rewrite getEsc_escaped by done. by rewrite bool_decide_false.
Qed.

Lemma getEsc_inv ch c q : getEsc ch = Some (c, q) → ascii_codes ch → ∃ w, char_of w c ∧ ch = w ++ q ∧ q ≠ [].
Proof.
  intros E Ha. destruct ch as [|d t]; [done|]. apply Forall_cons in Ha as [Hd Ht].
  destruct (decide (d = DASH ∨ d = CLOSE)) as [[-> | ->]|Hn]; [done..|].
  destruct (decide (d = BACKSLASH)) as [->|Hb].
  - destruct t as [|e t]; [done|]. apply Forall_cons in Ht as [He Ht]. rewrite getEsc_escaped in E by done.
    case_bool_decide; [done|]. injection E as <- <-. exists [BACKSLASH; e]. split_and!; [constructor|done..].
  - rewrite getEsc_plain in E by naive_solver. case_bool_decide; [done|]. injection E as <- <-. exists [d].
    split_and!; [constructor; naive_solver|done..].
Qed.

Lemma classLoop_inv fuel r ch m nr m' ch' : classLoop fuel r ch m nr = Some (m', ch') → ascii_codes ch →
  ∃ w rs, ch = w ++ CLOSE :: ch' ∧ ranges_of w rs ∧ (0 < nr + length rs)%nat.
Proof.
  revert ch m nr. induction fuel as [|fuel IH]; intros ch m nr E Ha; [done|]. cbn [classLoop] in E.
  destruct (bool_decide (head ch = Some CLOSE) && (0 <? nr)%nat) eqn:Ec.
  - apply andb_true_iff in Ec as [Hc%bool_decide_eq_true Hn%Nat.ltb_lt]. destruct ch; simplify_eq/=.
    exists [], []. split_and!; [done|constructor|simpl; lia].
  - destruct (getEsc ch) as [[lo q]|] eqn:E1; [|done]. apply getEsc_inv in E1 as (w & Hw & -> & Hq); [|done].
    apply Forall_app in Ha as [Haw Ha]. case_bool_decide as Hd.
    + destruct q as [|d q]; simplify_eq/=. apply Forall_cons in Ha as [_ Ha].
      destruct (getEsc q) as [[hi q']|] eqn:E2; [|done]. apply getEsc_inv in E2 as (v & Hv & -> & _); [|done].
      apply Forall_app in Ha as [_ Ha]. apply IH in E as (u & rs & -> & Hu & Hn); [|done].
      exists ((w ++ DASH :: v) ++ u), ((lo, hi) :: rs). split_and!; [by rewrite <- !app_assoc| |simpl; lia].
      constructor; [by constructor|done].
    + apply IH in E as (u & rs & -> & Hu & Hn); [|done]. exists (w ++ u), ((lo, lo) :: rs).
      split_and!; [by rewrite <- app_assoc| |simpl; lia]. constructor; [by constructor|done].
Qed.

Lemma classLoop_spec w rs q r m nr fuel : ranges_of w rs → ascii_codes w → (0 < nr + length rs)%nat →
  (length w < fuel)%nat → classLoop fuel r (w ++ CLOSE :: q) m nr = Some (m || inRanges rs r, q).
Proof.
  intros Hw. revert m nr fuel. induction Hw as [|w x v rs Hx Hv IH]; intros m nr fuel Ha Hn Hf; (destruct fuel as [|fuel]; [simpl in Hf; lia|]).
  - simpl in *. replace (0 <? nr)%nat with true by (symmetry; apply Nat.ltb_lt; lia). by rewrite orb_false_r.
  - destruct (head_ranges (w ++ v) (x :: rs) (CLOSE :: q)) as [[? _]|(d & t & E & Hd1 & Hd2)]; [by constructor|done|].
    apply Forall_app in Ha as [Haw Hav].
    assert (0 < length w)%nat as Hlen by (destruct Hx as [? ? []|? ? ? ? []]; simpl; lia).
    rewrite length_app in Hf. cbn [classLoop]. rewrite E. cbn [head]. rewrite bool_decide_false by congruence. cbn [andb].
    rewrite <- E, <- app_assoc. destruct Hx as [w c Hc|w c v' d' Hc Hd].
    + rewrite (getEsc_spec w c) by (done || by destruct v).
      assert (bool_decide (head (v ++ CLOSE :: q) = Some DASH) = false) as ->.
      { apply bool_decide_eq_false. destruct (head_ranges v rs (CLOSE :: q) Hv) as [[-> ->]|(a & b & -> & Ha & _)]; simpl; congruence. }
      rewrite IH by (done || lia). simpl. by rewrite orb_assoc.
    + apply Forall_app in Haw as [Haw Hav']. apply Forall_cons in Hav' as [_ Hav'].
      rewrite <- app_assoc, (getEsc_spec w c) by done. cbn [head tail app]. rewrite bool_decide_true by done.
      rewrite (getEsc_spec v' d') by (done || by destruct v). rewrite IH by (done || lia). simpl. by rewrite orb_assoc.
Qed.

Lemma scan_char w c b q : char_of w c → b = true → scan b (w ++ q) = (w ++ fst (scan true q), snd (scan true q)).
Proof.
  intros Hw ->. destruct Hw as [c H1 H2 H3|c]; simpl.
  - replace (c =? BACKSLASH) with false by lia. rewrite andb_false_r. replace (c =? CLOSE) with false by lia.
    replace (if c =? OPEN then true else true) with true by (by case_match). by destruct (scan true q).
  - by destruct (scan true q).
Qed.

Lemma scan_dash q : scan true (DASH :: q) = (DASH :: fst (scan true q), snd (scan true q)).
Proof. simpl. by destruct (scan true q). Qed.

Lemma scan_ranges w rs q : ranges_of w rs →
  scan true (w ++ CLOSE :: q) = (w ++ CLOSE :: fst (scan false q), snd (scan false q)).
Proof.
  induction 1 as [|w x v rs Hx Hv IH]; simpl; [by destruct (scan false q)|].
  rewrite <- app_assoc. destruct Hx as [w c Hc|w c v' d Hc Hd].
  - rewrite (scan_char w c), IH by done. simpl. by rewrite <- app_assoc.
  - rewrite <- app_assoc, (scan_char w c) by done. cbn [app]. rewrite scan_dash, (scan_char v' d), IH by done. simpl.
    by rewrite <- !app_assoc.
Qed.

(** ** A chunk: items without a star *)

Fixpoint pmatch (ms : list (Z → bool)) (s : list Z) : option (list Z) :=
  match ms, s with
  | [], _ => Some s
  | m :: ms, c :: s => if m c then pmatch ms s else None
  | _, [] => None
  end.

Definition plain_text (s : list Z) : Prop := ascii_codes s ∧ SLASH ∉ s.

Lemma plain_cons c s : plain_text (c :: s) → 0 ≤ c < 128 ∧ c ≠ SLASH ∧ plain_text s.
Proof. intros [[Hc Hs]%Forall_cons Hn]. apply not_elem_of_cons in Hn as [? ?]. done. Qed.

Definition chunk_steps (ch : list Z) (ms : list (Z → bool)) : Prop :=
  ∀ fuel s failed, (length ch < fuel)%nat → plain_text s →
    matchChunk_loop fuel ch s failed = Some (if failed then None else pmatch ms s).

Lemma steps_nil : chunk_steps [] [].
Proof. intros [|fuel] s failed Hf _; [simpl in Hf; lia|done]. Qed.

(** One step on a letter [d] that stands for itself. *)
Lemma steps_letter pre d t ms :
  (∀ fuel s failed, matchChunk_loop (S fuel) (pre ++ t) s failed =
     matchChunk_loop fuel t (if failed || bool_decide (s = []) then s else tail s)
       (failed || bool_decide (s = []) || negb (bool_decide (head s = Some d)))) →
  pre ≠ [] → chunk_steps t ms → chunk_steps (pre ++ t) ((λ c, c =? d) :: ms).
Proof.
  intros Heq Hpre Ht [|fuel] s failed Hf Hs; [simpl in Hf; lia|]. rewrite Heq.
  assert (length t < fuel)%nat by (destruct pre; [done|]; rewrite length_app in Hf; simpl in Hf; lia).
  destruct failed; [by rewrite Ht|]. destruct s as [|c s]; [by rewrite Ht|].
  apply plain_cons in Hs as (_ & _ & Hs). cbn [orb]. rewrite bool_decide_false by done. cbn [orb tail head].
  rewrite Ht by done. cbn [pmatch]. destruct (Z.eqb_spec c d); [subst; by rewrite bool_decide_true|].
  by rewrite bool_decide_false by congruence.
Qed.

Lemma steps_any t ms : chunk_steps t ms → chunk_steps (QUESTION :: t) ((λ _, true) :: ms).
Proof.
  intros Ht [|fuel] s failed Hf Hs; [simpl in Hf; lia|]. simpl in Hf. cbn [matchChunk_loop].
  change (QUESTION =? OPEN) with false. change (QUESTION =? QUESTION) with true. cbv iota.
  destruct failed; [apply Ht; [lia|done]|]. destruct s as [|c s]; [apply Ht; [lia|done]|].
  apply plain_cons in Hs as (Hc & Hn & Hs). cbn [orb]. rewrite (bool_decide_false (c :: s = [])) by done.
  cbv iota. rewrite decode_ascii by done. cbn [snd skipn head]. rewrite drop_0, Ht by (done || lia).
  by rewrite bool_decide_false by congruence.
Qed.

Lemma steps_class (neg : bool) w rs t ms :
  ranges_of w rs → rs ≠ [] → (neg = false → head w ≠ Some CARET) → ascii_codes w → chunk_steps t ms →
  chunk_steps (OPEN :: (if neg then [CARET] else []) ++ w ++ CLOSE :: t) ((λ c, xorb (inRanges rs c) neg) :: ms).
Proof.
  intros Hw Hrs Hneg Ha Ht [|fuel] s failed Hf Hs; [simpl in Hf; lia|]. cbn [matchChunk_loop].
  change (OPEN =? OPEN) with true. cbv iota zeta.
  destruct (class_head neg w rs t Hw Hrs Hneg) as [-> ->].
  assert (0 < length rs)%nat by (destruct rs; [done|simpl; lia]).
  assert (∀ r, classLoop (S (length ((if neg then [CARET] else []) ++ w ++ CLOSE :: t))) r (w ++ CLOSE :: t) false 0
    = Some (inRanges rs r, t)) as Hcl by (intros r; rewrite (classLoop_spec w rs) by (done || lia || (rewrite !length_app; simpl; lia)); done).
  assert (length t < fuel)%nat by (simpl in Hf; rewrite !length_app in Hf; simpl in Hf; lia).
  assert (∀ s', plain_text s' → matchChunk_loop fuel t s' true = Some None) as Hfail by (intros; by rewrite Ht).
  destruct (failed || bool_decide (s = [])) eqn:Ef.
  - rewrite Hcl. cbn [orb]. rewrite Hfail by done. apply orb_true_iff in Ef as [-> | ->%bool_decide_eq_true]; [done|].
    by destruct failed.
  - apply orb_false_iff in Ef as [-> Es%bool_decide_eq_false]. destruct s as [|c s]; [done|].
    apply plain_cons in Hs as (Hc & _ & Hs). rewrite decode_ascii by done. rewrite Hcl. cbn [orb skipn]. rewrite drop_0, Ht by done.
    cbn [pmatch]. by destruct (inRanges rs c), neg.
Qed.

(** A chunk [path.Match] takes for a pattern follows the grammar. *)
Definition chunk_ok (ch : list Z) (ms : list (Z → bool)) : Prop :=
  chunk_steps ch ms ∧ ∀ rest ts, parses rest ts → parses (ch ++ rest) (map One ms ++ ts).

Lemma scan_app b p ch rest : scan b p = (ch, rest) → p = ch ++ rest.
Proof.
  assert (∀ n b p ch rest, (length p < n)%nat → scan b p = (ch, rest) → p = ch ++ rest) as H; [|by apply (H (S (length p))); lia].
  clear. induction n as [|n IH]; intros b p ch rest Hn E; [lia|]. destruct p as [|c p]; simpl in *; [by simplify_eq|].
  destruct (c =? BACKSLASH).
  - destruct p as [|d p]; [by simplify_eq|]. destruct (scan b p) as [ch' rest'] eqn:E'. simplify_eq/=.
    apply IH in E' as ->; [done|lia].
  - destruct ((c =? STAR) && negb b); [by simplify_eq|].
    destruct (scan _ p) as [ch' rest'] eqn:E'. simplify_eq/=. apply IH in E' as ->; [done|lia].
Qed.

(** The scan over one item. *)
Lemma scan_class (neg : bool) w rs q : ranges_of w rs →
  let p := OPEN :: (if neg then [CARET] else []) ++ w ++ CLOSE :: q in
  scan false p = (OPEN :: (if neg then [CARET] else []) ++ w ++ CLOSE :: fst (scan false q), snd (scan false q)).
Proof. intros Hw p. unfold p. destruct neg; simpl; by rewrite (scan_ranges w rs). Qed.

(** A class the source accepts follows the grammar. *)
Lemma class_inv t fuel r m t' : ascii_codes t →
  classLoop fuel r (if bool_decide (head t = Some CARET) then tail t else t) false 0 = Some (m, t') →
  ∃ neg w rs, t = (if neg : bool then [CARET] else []) ++ w ++ CLOSE :: t' ∧ ranges_of w rs ∧ rs ≠ [] ∧
    (neg = false → head w ≠ Some CARET) ∧ ascii_codes w ∧ ascii_codes t'.
Proof.
  intros Ha E. set (neg := bool_decide _) in E.
  assert (t = (if neg then [CARET] else []) ++ (if neg then tail t else t)) as Et.
  { unfold neg. case_bool_decide as Hh; [|done]. destruct t; simplify_eq/=. done. }
  assert (neg = false → head t ≠ Some CARET) as Hneg by (intros H%bool_decide_eq_false; exact H). clearbody neg.
  assert (ascii_codes (if neg then tail t else t)) as Ha' by (rewrite Et in Ha; by apply Forall_app in Ha as [_ ?]).
  apply classLoop_inv in E as (w & rs & Ew & Hw & Hl); [|done]. rewrite Ew in Et, Ha'.
  apply Forall_app in Ha' as [Haw [_ Hat]%Forall_cons]. exists neg, w, rs. split_and!; [done..| | |done|done].
  - by destruct rs; [simpl in Hl; lia|].
  - intros ->. specialize (Hneg eq_refl). rewrite Et in Hneg. by destruct w.
Qed.

(** The scan behind an item that is not a class. *)
Lemma scan_plain c t q rest : c ≠ STAR → c ≠ BACKSLASH → c ≠ OPEN → scan false (c :: q) = (c :: t, rest) → scan false q = (t, rest).
Proof.
  intros H1 H2 H3 E. cbn [scan] in E. replace (c =? BACKSLASH) with false in E by lia.
  replace (c =? STAR) with false in E by lia. replace (c =? OPEN) with false in E by lia. cbn [andb] in E.
  replace (if c =? CLOSE then false else false) with false in E by (by destruct (c =? CLOSE)).
  destruct (scan false q). by injection E as -> ->.
Qed.

Lemma scan_escaped d t q rest : scan false (BACKSLASH :: d :: q) = (BACKSLASH :: d :: t, rest) → scan false q = (t, rest).
Proof. simpl. destruct (scan false q). by intros [= -> ->]. Qed.

Lemma chunk_cons pre t m ms : chunk_steps (pre ++ t) (m :: ms) →
  (∀ p ts, parses p ts → parses (pre ++ p) (One m :: ts)) → chunk_ok t ms → chunk_ok (pre ++ t) (m :: ms).
Proof. intros Hs Hp [_ Hg]. split; [done|]. intros rest ts Hr. rewrite <- app_assoc. simpl. by apply Hp, Hg. Qed.

Section accepted.
Context (n : nat) (rest : list Z).
Definition accepts (t : list Z) : Prop := ∀ fuel s failed,
  scan false (t ++ rest) = (t, rest) → matchChunk_loop fuel t s failed ≠ None → ∃ ms, chunk_ok t ms.
Context (IH : ∀ t, (length t < n)%nat → ascii_codes t → accepts t).

Lemma accepted_class t : (length t < n)%nat → ascii_codes t → accepts (OPEN :: t).
Proof.
  intros Hn Ha [|fuel] s failed Hp Hm; [done|]. cbn [matchChunk_loop] in Hm.
  change (OPEN =? OPEN) with true in Hm. cbv iota zeta in Hm.
  destruct (if failed || bool_decide (s = []) then _ else _) as [r s'].
  destruct (classLoop _ _ _ _ _) as [[m t']|] eqn:E; [|done].
  apply class_inv in E as (neg & w & rs & -> & Hw & Hrs & Hneg & Haw & Hat); [|done].
  rewrite !length_app in Hn. simpl in Hn.
  assert (scan false (t' ++ rest) = (t', rest)) as Hp'.
  { cbn [app] in Hp. rewrite <- !app_assoc in Hp. cbn [app] in Hp. rewrite (scan_class neg w rs) in Hp by done.
    destruct (scan false (t' ++ rest)) as [a b]. simpl in Hp. injection Hp as Hp ->.
    apply app_inv_head, app_inv_head in Hp. by injection Hp as ->. }
  destruct (IH t' ltac:(lia) Hat _ _ _ Hp' Hm) as [ms Hok]. exists ((λ c, xorb (inRanges rs c) neg) :: ms).
  assert (OPEN :: (if neg then [CARET] else []) ++ w ++ CLOSE :: t' = (OPEN :: (if neg then [CARET] else []) ++ w ++ [CLOSE]) ++ t') as E
    by (cbn [app]; by rewrite <- !app_assoc).
  rewrite E. apply chunk_cons; [rewrite <- E; apply steps_class; [done..|apply Hok]| |done].
  intros p ts Hr. cbn [app]. rewrite <- !app_assoc. cbn [app]. by apply (parses_class neg w rs).
Qed.

Lemma accepted_other c t : (length t < n)%nat → 0 ≤ c < 128 → ascii_codes t → c ≠ OPEN → accepts (c :: t).
Proof.
  intros Hn Hc Ha H1 [|fuel] s failed Hp Hm; [done|]. cbn [matchChunk_loop] in Hm. replace (c =? OPEN) with false in Hm by lia.
  destruct (decide (c = STAR)) as [->|H4]; [done|].
  destruct (decide (c = QUESTION)) as [->|H2]; [|replace (c =? QUESTION) with false in Hm by lia;
    destruct (decide (c = BACKSLASH)) as [->|H3]; [|replace (c =? BACKSLASH) with false in Hm by lia]]; cbv iota zeta in Hm.
  - change (QUESTION =? QUESTION) with true in Hm. cbv iota in Hm.
    assert (∃ s failed, matchChunk_loop fuel t s failed ≠ None) as (s2 & f2 & Hm2) by (destruct (failed || bool_decide (s = [])); eauto).
    apply scan_plain in Hp; [|done..]. destruct (IH t Hn Ha _ _ _ Hp Hm2) as [ms Hok]. exists ((λ _, true) :: ms).
    apply (chunk_cons [QUESTION]); [by apply steps_any, Hok|intros; by constructor|done].
  - change (BACKSLASH =? BACKSLASH) with true in Hm. cbv iota in Hm. destruct t as [|d t]; [done|].
    apply Forall_cons in Ha as [Hd Ha]. simpl in Hn. apply scan_escaped in Hp.
    destruct (IH t ltac:(lia) Ha _ _ _ Hp Hm) as [ms Hok]. exists ((λ x, x =? d) :: ms).
    apply (chunk_cons [BACKSLASH; d]); [by apply steps_letter, Hok|intros; by constructor|done].
  - apply scan_plain in Hp; [|done..]. destruct (IH t Hn Ha _ _ _ Hp Hm) as [ms Hok]. exists ((λ x, x =? c) :: ms).
    apply (chunk_cons [c]); [|intros; by constructor|done]. apply steps_letter; [|done|apply Hok].
    intros. cbn [app matchChunk_loop]. replace (c =? OPEN) with false by lia.
    replace (c =? QUESTION) with false by lia. by replace (c =? BACKSLASH) with false by lia.
Qed.
End accepted.

Lemma chunk_accepted rest ch : ascii_codes ch → accepts rest ch.
Proof.
  assert (∀ n ch, (length ch < n)%nat → ascii_codes ch → accepts rest ch) as H; [|apply (H (S (length ch))); lia].
  clear. induction n as [|n IH]; intros ch Hn Ha; [lia|].
  destruct ch as [|c t]; [intros ? ? ? _ _; exists []; split; [apply steps_nil|done]|]. apply Forall_cons in Ha as [Hc Ha].
  simpl in Hn. destruct (decide (c = OPEN)) as [->|]; [apply (accepted_class n)|apply (accepted_other n)]; done || lia.
Qed.

(** ** Stars *)

Lemma wmatch_chunk ms R s :
  wmatch (map One ms ++ R) s = match pmatch ms s with Some t => wmatch R t | None => false end.
Proof.
  revert s. induction ms as [|m ms IH]; intros s; simpl; [by destruct s|]. destruct s as [|c s]; [done|].
  rewrite IH. by destruct (m c).
Qed.

Lemma pmatch_drop ms s t : pmatch ms s = Some t → t = drop (length ms) s.
Proof.
  revert s. induction ms as [|m ms IH]; intros [|c s]; simpl; try congruence.
  destruct (m c); [apply IH|done].
Qed.

(** The first later place at which the chunk matches. *)
Fixpoint firstLater (ms : list (Z → bool)) (lastChunk : bool) (name : list Z) : option (list Z) :=
  match name with
  | [] => None
  | _ :: u =>
      match pmatch ms u with
      | Some t => if lastChunk && negb (bool_decide (t = [])) then firstLater ms lastChunk u else Some t
      | None => firstLater ms lastChunk u
      end
  end.

Lemma matchChunk_ok ch ms s : chunk_ok ch ms → plain_text s → matchChunk ch s = Some (pmatch ms s).
Proof. intros [Hs _] Ht. apply (Hs _ _ false); [lia|done]. Qed.

Lemma starLoop_ok ch ms b name : chunk_ok ch ms → plain_text name → starLoop ch b name = Some (firstLater ms b name).
Proof.
  intros Hok. induction name as [|c u IH]; intros Hn; [done|]. apply plain_cons in Hn as (_ & Hc & Hn). simpl.
  replace (c =? SLASH) with false by lia. rewrite (matchChunk_ok ch ms) by done. rewrite IH by done.
  by destruct (pmatch ms u); [destruct (_ && _)|].
Qed.

(** Trying the places from left to right loses nothing. *)
Lemma star_first ms (b : bool) (R : list (wild Z)) name : (if b then R = [] else ∃ R', R = Star :: R') →
  wmatch (Star :: map One ms ++ R) name =
  match match pmatch ms name with Some t => if b && negb (bool_decide (t = [])) then firstLater ms b name else Some t
        | None => firstLater ms b name end
  with Some t => wmatch R t | None => false end.
Proof.
  intros HR. induction name as [|c u IH]; rewrite wmatch_star, wmatch_chunk.
  - rewrite orb_false_r. destruct (pmatch ms []) as [t|] eqn:E; [|done]. apply pmatch_drop in E. rewrite drop_nil in E. subst t.
    rewrite bool_decide_true by done. by rewrite andb_false_r.
  - cbn [firstLater]. destruct (pmatch ms (c :: u)) as [t|] eqn:E; [|by rewrite IH]. destruct b; simpl.
    + change (wmatch R t || wmatch (Star :: map One ms ++ R) u =
        match (if negb (bool_decide (t = [])) then firstLater ms true (c :: u) else Some t) with Some t => wmatch R t | None => false end).
      rewrite IH. subst R. case_bool_decide as Ht; [by subst|]. by destruct t.
    + destruct HR as [R' ->]. apply eq_iff_eq_true. rewrite orb_true_iff. split; [|by left]. intros [H|H]; [done|].
      change (wmatch (Star :: map One ms ++ Star :: R') u = true) in H.
      apply wmatch_star_true in H as (k & Hk & H). rewrite wmatch_chunk in H.
      destruct (pmatch ms (drop k u)) as [t'|] eqn:E'; [|done]. apply pmatch_drop in E, E'. subst t t'.
      apply wmatch_star_true in H as (j & Hj & H). rewrite !drop_drop in H.
      apply (wmatch_star_at _ _ (S k + j)). rewrite drop_drop.
      replace (length ms + (S k + j))%nat with (S (k + (length ms + j))) by lia. exact H.
Qed.

Lemma stars_collapse {A} k (R : list (wild A)) s : wmatch (replicate (S k) Star ++ R) s = wmatch (Star :: R) s.
Proof.
  revert s. induction k as [|k IH]; intros s; [done|]. cbn [replicate app]. apply eq_iff_eq_true. rewrite wmatch_star_true. split.
  - intros (i & Hi & H). change (Star :: replicate k Star ++ R) with (replicate (S k) Star ++ R) in H. rewrite IH in H.
    apply wmatch_star_true in H as (j & Hj & H). rewrite drop_drop in H. by eapply wmatch_star_at.
  - intros H. exists 0%nat. split; [lia|]. change (Star :: replicate k Star ++ R) with (replicate (S k) (@Star A) ++ R).
    by rewrite IH.
Qed.

(** ** The pattern of [path.Match] *)

Inductive pattern_of : list Z → list (wild Z) → Prop :=
| pattern_nil : pattern_of [] []
| pattern_chunk k p ch rest ms R :
    p ≠ [] → p = replicate k STAR ++ ch ++ rest → scanChunk p = ((0 <? k)%nat, ch, rest) → chunk_ok ch ms →
    (rest = [] ∨ ∃ R', R = Star :: R') → pattern_of rest R → pattern_of p (replicate k Star ++ map One ms ++ R).

Lemma pattern_parses p R : pattern_of p R → parses p R.
Proof.
  induction 1 as [|k p ch rest ms R _ -> _ [_ Hg] _ _ IH]; [constructor|].
  induction k as [|k IHk]; simpl; [by apply Hg|by constructor].
Qed.

Lemma dropStars_spec p : ∃ k p', dropStars p = ((0 <? k)%nat, p') ∧ p = replicate k STAR ++ p' ∧ head p' ≠ Some STAR.
Proof.
  induction p as [|c p (k & p' & E & -> & Hh)]; [by exists 0%nat, []|]. cbn [dropStars].
  destruct (Z.eqb_spec c STAR) as [->|Hc].
  - exists (S k), p'. rewrite E. done.
  - exists 0%nat, (c :: replicate k STAR ++ p'). split_and!; [done..|]. simpl. congruence.
Qed.

Lemma scan_rest b p ch rest : scan b p = (ch, rest) → rest = [] ∨ head rest = Some STAR.
Proof.
  assert (∀ n b p ch rest, (length p < n)%nat → scan b p = (ch, rest) → rest = [] ∨ head rest = Some STAR) as H; [|by apply (H (S (length p))); lia].
  clear. induction n as [|n IH]; intros b p ch rest Hn E; [lia|]. destruct p as [|c p]; simpl in *; [simplify_eq; by left|].
  destruct (c =? BACKSLASH).
  - destruct p as [|d p]; [simplify_eq; by left|]. destruct (scan b p) as [ch' rest'] eqn:E'. simplify_eq/=.
    eapply IH; [|exact E']. lia.
  - destruct ((c =? STAR) && negb b) eqn:Es.
    + apply andb_true_iff in Es as [->%Z.eqb_eq _]. simplify_eq. by right.
    + destruct (scan _ p) as [ch' rest'] eqn:E'. simplify_eq/=. eapply IH; [|exact E']. lia.
Qed.

(** A pattern splits into its first chunk and the rest. *)
Lemma scanChunk_inv p star ch rest : scanChunk p = (star, ch, rest) →
  ∃ k, star = (0 <? k)%nat ∧ p = replicate k STAR ++ ch ++ rest ∧ scan false (ch ++ rest) = (ch, rest) ∧
    (rest = [] ∨ head rest = Some STAR) ∧ (k = 0%nat → p ≠ [] → ch ≠ []).
Proof.
  unfold scanChunk. intros E. destruct (dropStars_spec p) as (k & p' & Ed & Ep & Hh). rewrite Ed in E.
  destruct (scan false p') as [ch' rest'] eqn:Es. simplify_eq. exists k. pose proof (scan_app _ _ _ _ Es) as ->.
  split_and!; [done..|by eapply scan_rest|]. intros -> Hne ->. simpl in *. apply scan_rest in Es as [->|]; done.
Qed.

Lemma pattern_step p star ch rest fuel s failed :
  p ≠ [] → ascii_codes p → scanChunk p = (star, ch, rest) → matchChunk_loop fuel ch s failed ≠ None →
  (∃ R, pattern_of rest R) → ∃ R, pattern_of p R.
Proof.
  intros Hp Ha E Hm [R HR]. pose proof E as E0. apply scanChunk_inv in E as (k & -> & Ep & Hs & Hr & _).
  assert (ascii_codes ch) as Hch by (rewrite Ep in Ha; apply Forall_app in Ha as [_ Ha]; by apply Forall_app in Ha as [? _]).
  destruct (chunk_accepted rest ch Hch _ _ _ Hs Hm) as [ms Hok].
  exists (replicate k Star ++ map One ms ++ R). eapply pattern_chunk; [done|exact Ep|done..| |done].
  destruct Hr as [->|Hr]; [by left|right]. inversion HR as [|j ? ch' rest' ms' R' Hne E1 E2 Hok' _ HR']; subst; [done|].
  destruct j as [|j]; [|simpl; by eexists]. simpl in *. apply scanChunk_inv in E2 as ([|j] & Ej & E2 & Hs' & _ & Hnil); [|done].
  simpl in E2. destruct ch' as [|c ch']; [by destruct (Hnil eq_refl)|]. simpl in Hr. injection Hr as ->.
  simpl in Hs'. done.
Qed.

Lemma ascii_rest p star ch rest : ascii_codes p → scanChunk p = (star, ch, rest) → ascii_codes rest.
Proof.
  intros Ha (k & _ & -> & _)%scanChunk_inv. apply Forall_app in Ha as [_ Ha]. by apply Forall_app in Ha as [_ ?].
Qed.

Lemma rest_shorter p star ch rest : p ≠ [] → scanChunk p = (star, ch, rest) → (length rest < length p)%nat.
Proof.
  intros Hp (k & _ & -> & _ & _ & Hk)%scanChunk_inv. rewrite !length_app, length_replicate.
  destruct k as [|k]; [|lia]. destruct ch; [by destruct (Hk eq_refl Hp)|]. simpl. lia.
Qed.

(** What passes for a pattern is one. *)
Lemma checkRest_inv fuel p b : checkRest fuel p = Some b → ascii_codes p → ∃ R, pattern_of p R.
Proof.
  revert p. induction fuel as [|fuel IH]; intros [|c p] E Ha; [exists []; constructor|done|exists []; constructor|].
  cbn [checkRest] in E. destruct (scanChunk (c :: p)) as [[star ch] rest] eqn:Es.
  destruct (matchChunk ch []) eqn:Em; [|done]. eapply pattern_step; [done|done|exact Es| |].
  - unfold matchChunk in Em. by erewrite Em.
  - apply IH; [done|]. by eapply ascii_rest.
Qed.

Lemma Match_inv fuel p name b : Match_loop fuel p name = Some b → ascii_codes p → ∃ R, pattern_of p R.
Proof.
  revert p name. induction fuel as [|fuel IH]; intros [|c p] name E Ha; [exists []; constructor|done|exists []; constructor|].
  cbn [Match_loop] in E. destruct (scanChunk (c :: p)) as [[star ch] rest] eqn:Es.
  pose proof (ascii_rest _ _ _ _ Ha Es) as Har.
  destruct (star && bool_decide (ch = [])) eqn:Ec.
  - apply andb_true_iff in Ec as [-> ->%bool_decide_eq_true]. eapply (pattern_step _ _ _ _ 1 [] false); [done|done|exact Es|done|].
    pose proof Es as Es0. apply scanChunk_inv in Es as (k & _ & Ep & Hs & Hr & _). destruct Hr as [->|Hr]; [exists []; constructor|].
    unfold scanChunk in Es0. destruct (dropStars_spec (c :: p)) as (j & p' & Ed & _ & Hh). rewrite Ed in Es0.
    destruct (scan false p') as [a b'] eqn:Es'. apply scan_app in Es'. simplify_eq/=.
  - destruct (matchChunk ch name) as [m|] eqn:Em; [|done]. eapply pattern_step; [done|done|exact Es|unfold matchChunk in Em; by erewrite Em|].
    repeat case_match; simplify_eq; first [by eapply IH|by eapply checkRest_inv].
Qed.

(** What is a pattern passes. *)
Lemma checkRest_ok fuel p R : pattern_of p R → (length p ≤ fuel)%nat → checkRest fuel p = Some false.
Proof.
  intros HR. revert fuel. induction HR as [|k p ch rest ms R Hne Ep Es Hok _ HR IH]; intros fuel Hf; [by destruct fuel|].
  pose proof (rest_shorter _ _ _ _ Hne Es) as Hl. destruct fuel as [|fuel]; [lia|]. destruct p as [|c p]; [done|].
  cbn [checkRest]. rewrite Es, (matchChunk_ok ch ms) by (done || by repeat constructor; apply not_elem_of_nil). apply IH. lia.
Qed.

Lemma plain_drop k s : plain_text s → plain_text (drop k s).
Proof.
  intros [Ha Hn]. split; [by apply Forall_drop|]. intros Hin. apply Hn. rewrite <- (take_drop k s). apply elem_of_app. by right.
Qed.

Lemma no_slash_exists s : plain_text s → existsb (λ c, c =? SLASH) s = false.
Proof.
  intros [_ Hn]. apply not_true_is_false. intros (c & Hc & ->%Z.eqb_eq)%existsb_exists. by apply Hn, list_elem_of_In.
Qed.

Lemma firstLater_drop ms b name t : firstLater ms b name = Some t → ∃ k, t = drop k name.
Proof.
  induction name as [|c u IH]; [done|]. simpl. intros E.
  destruct (pmatch ms u) as [t'|] eqn:Em; [|by apply IH in E as [k ->]; exists (S k)].
  destruct (_ && _); [by apply IH in E as [k ->]; exists (S k)|]. apply pmatch_drop in Em as ->. injection E as <-.
  by exists (S (length ms)).
Qed.

Lemma star_only p star rest : scanChunk p = (star, [], rest) → rest = [].
Proof.
  intros E. pose proof E as E0. apply scanChunk_inv in E as (k & _ & _ & _ & [->|Hr] & _); [done|].
  unfold scanChunk in E0. destruct (dropStars_spec p) as (j & p' & Ed & _ & Hh). rewrite Ed in E0.
  destruct (scan false p') as [a b] eqn:Es. apply scan_app in Es. by simplify_eq/=.
Qed.

Lemma chunk_nil ms : chunk_ok [] ms → ms = [].
Proof.
  intros Hok. destruct ms as [|m ms]; [done|]. assert (plain_text []) as Hp by (split; [constructor|apply not_elem_of_nil]).
  pose proof (matchChunk_ok _ _ [] Hok Hp) as H. done.
Qed.

Lemma Match_ok fuel p R name : pattern_of p R → (length p < fuel)%nat → plain_text name →
  Match_loop fuel p name = Some (wmatch R name).
Proof.
  intros HR. revert fuel name. induction HR as [|k p ch rest ms R Hne Ep Es Hok Hrest HR IH]; intros fuel name Hf Hn.
  { destruct fuel; [lia|]. simpl. by destruct name. }
  pose proof (rest_shorter _ _ _ _ Hne Es) as Hl. destruct fuel as [|fuel]; [lia|]. destruct p as [|c p]; [done|].
  cbn [Match_loop]. rewrite Es. destruct ((0 <? k)%nat && bool_decide (ch = [])) eqn:Ec.
  { apply andb_true_iff in Ec as [Hk%Nat.ltb_lt ->%bool_decide_eq_true]. destruct k as [|k]; [lia|].
    apply star_only in Es as ->. apply chunk_nil in Hok as ->. inversion HR as [|? ? ? ? ? ? ?]; subst; [|done].
    rewrite no_slash_exists by done. cbn [map app]. rewrite stars_collapse. f_equal. symmetry.
    apply (wmatch_star_at _ _ (length name)). by rewrite drop_all. }
  rewrite (matchChunk_ok ch ms) by done. set (b := bool_decide (rest = [])).
  assert (if b then R = [] else ∃ R', R = Star :: R') as HRb.
  { unfold b. destruct (bool_decide_reflect (rest = [])) as [->|Hb]; [by inversion HR|by destruct Hrest]. }
  assert (∀ t, plain_text t → Match_loop fuel rest t = Some (wmatch R t)) as Hgo by (intros; apply IH; [lia|done]).
  assert (checkRest fuel rest = Some false) as -> by (eapply checkRest_ok; [done|lia]).
  assert (∀ t, pmatch ms name = Some t → plain_text t) as Hpt by (intros t ->%pmatch_drop; by apply plain_drop).
  assert (∀ t, firstLater ms b name = Some t → plain_text t) as Hft.
  { intros t Ht. apply firstLater_drop in Ht as [j ->]. by apply plain_drop. }
  destruct k as [|k].
  - cbn [replicate app Nat.ltb Nat.leb]. rewrite wmatch_chunk. destruct (pmatch ms name) as [t|] eqn:Em; [|done].
    destruct (bool_decide (t = []) || negb b) eqn:Eb; [by apply Hgo, Hpt|]. apply orb_false_iff in Eb as [Et Eb].
    apply negb_false_iff in Eb. rewrite Eb in HRb. subst R. by destruct t.
  - replace (0 <? S k)%nat with true by done. rewrite stars_collapse, (star_first ms b R name HRb), (starLoop_ok ch ms) by done.
    destruct (pmatch ms name) as [t|] eqn:Em.
    + destruct (bool_decide (t = [])) eqn:Et; [rewrite andb_false_r; by apply Hgo, Hpt|]. cbn [orb negb]. rewrite andb_true_r.
      destruct b; cbn [negb]; [|by apply Hgo, Hpt]. destruct (firstLater ms true name) eqn:El; [by apply Hgo, Hft|done].
    + destruct (firstLater ms b name) eqn:El; [by apply Hgo, Hft|done].
Qed.

(** A segment [compileGlob] accepts, in both matchers. *)
Lemma segment_go p : is_Some (Match p []) → ascii_codes p →
  ∃ ts, parses p ts ∧ ∀ s, plain_text s → MatchSegment p s = wmatch ts s.
Proof.
  intros [b Hb] Ha. destruct (Match_inv _ _ _ _ Hb Ha) as [R HR]. exists R. split; [by apply pattern_parses|].
  intros s Hs. unfold MatchSegment, Match. rewrite (Match_ok _ _ R) by (done || lia). done.
Qed.

(** * Whole patterns *)

(** ** Trimming *)

Lemma trimLeft_ascii s n : ascii_codes s → (length s ≤ n)%nat → trimLeft n s = drop (firstNot IsSpace s) s.
Proof.
  intros Ha. revert n. induction Ha as [|c s Hc Ha IH]; intros [|n] Hn; simpl in Hn; [done..|lia|].
  cbn [trimLeft]. rewrite decode_ascii by done. cbn [firstNot]. destruct (IsSpace c); [|done].
  cbn [skipn]. rewrite drop_0. apply IH. lia.
Qed.

Lemma trimRight_ascii n s : ascii_codes s → (length s ≤ n)%nat →
  trimRight n s = take (length s - firstNot IsSpace (rev s)) s.
Proof.
  revert s. induction n as [|n IH]; intros s Ha Hn; [by destruct s; simpl in Hn; [|lia]|].
  destruct s as [|c s _] using rev_ind; [done|]. apply Forall_app in Ha as [Ha [Hc _]%Forall_cons].
  rewrite length_app in *. simpl in Hn. rewrite rev_app_distr. cbn [rev app firstNot].
  assert (trimRight (S n) (s ++ [c]) = let '(r, n0) := DecodeLastRune (s ++ [c]) in
    if IsSpace r then trimRight n (take (length (s ++ [c]) - n0) (s ++ [c])) else s ++ [c]) as -> by (by destruct s).
  unfold DecodeLastRune. rewrite last_snoc. replace (c <? 128) with true by lia. cbv iota zeta.
  destruct (IsSpace c); [|by rewrite Nat.sub_0_r, <- length_app, firstn_all].
  rewrite length_app. simpl length. replace (length s + 1 - 1)%nat with (length s) by lia. rewrite take_app_length, IH by (done || lia).
  rewrite take_app_le by lia. f_equal. lia.
Qed.

Lemma widths_ascii s : ascii_codes s → sum_list (map encoded_width s) = length s.
Proof.
  induction 1 as [|c s Hc Hs IH]; simpl; [done|]. rewrite IH. unfold encoded_width. by replace (c <? 128) with true by lia.
Qed.

Lemma firstNot_le f s : (firstNot f s ≤ length s)%nat.
Proof. induction s as [|c s IH]; simpl; [lia|]. destruct (f c); lia. Qed.

Lemma trim_ascii s : ascii_codes s → history_trim s = TrimSlashes (TrimSpace s).
Proof.
  intros Ha. unfold history_trim, TrimSlashes. rewrite runes_ascii by done. do 4 f_equal.
  unfold TrimSpace. rewrite trimLeft_ascii by done. set (first := firstNot IsSpace s).
  assert (ascii_codes (drop first s)) as Hd by (by apply Forall_drop). rewrite trimRight_ascii by done.
  pose proof (firstNot_le IsSpace s) as H1. pose proof (firstNot_le IsSpace (rev (drop first s))) as H2. fold first in H1.
  rewrite length_rev in H2. set (f := firstNot IsSpace (rev (drop first s))) in *. rewrite length_drop in *.
  assert (∀ j, (j ≤ length s)%nat → (if (j <? length s)%nat then sum_list (map encoded_width (take j s)) else length s) = j) as Hoff.
  { intros j Hj. destruct (Nat.ltb_spec j (length s)); [|lia]. rewrite widths_ascii by (by apply Forall_take).
    rewrite length_take. lia. }
  destruct (Nat.leb_spec (length s - f) first).
  - replace (length s - first - f)%nat with 0%nat by lia. done.
  - rewrite !Hoff by lia. rewrite take_drop_commute. do 2 f_equal. lia.
Qed.

Lemma ascii_sublist s t : sublist t s → ascii_codes s → ascii_codes t.
Proof.
  intros Hs. unfold ascii_codes. induction Hs; [done|..]; intros Ha; apply Forall_cons in Ha as [? ?]; [constructor|]; auto.
Qed.

Lemma dropSlashes_sublist s : sublist (dropSlashes s) s.
Proof. induction s as [|c s IH]; simpl; [done|]. destruct (c =? SLASH); [by constructor|done]. Qed.

Lemma trim_ascii_codes s : ascii_codes s → ascii_codes (TrimSlashes (TrimSpace s)).
Proof.
  intros Ha. unfold TrimSlashes. apply Forall_rev, (ascii_sublist _ _ (dropSlashes_sublist _)), Forall_rev, (ascii_sublist _ _ (dropSlashes_sublist _)).
  unfold TrimSpace. rewrite trimLeft_ascii by done. rewrite trimRight_ascii by (done || by apply Forall_drop).
  by apply Forall_take, Forall_drop.
Qed.

(** ** Parts *)

Lemma split_plain s : ascii_codes s → Forall plain_text (SplitSlash s).
Proof.
  induction 1 as [|c s Hc Hs IH]; simpl.
  - repeat constructor. apply not_elem_of_nil.
  - destruct (Z.eqb_spec c SLASH) as [->|Hn].
    + constructor; [|done]. split; [constructor|apply not_elem_of_nil].
    + assert (∀ w, plain_text w → plain_text (c :: w)) as Hw.
      { intros w [Hw1 Hw2]. split; [by constructor|]. apply not_elem_of_cons. done. }
      destruct (SplitSlash s) as [|w ws]; [constructor; [|done]; apply Hw; split; [constructor|apply not_elem_of_nil]|].
      apply Forall_cons in IH as [? ?]. constructor; [by apply Hw|done].
Qed.

Lemma split_empty s : SplitSlash s = [[]] → s = [].
Proof.
  destruct s as [|c s]; [done|]. simpl. destruct (c =? SLASH).
  - intros [= E]. destruct s; simpl in E; [done|]. repeat case_match; done.
  - by destruct (SplitSlash s).
Qed.

Lemma oneLater_ext {A} (m1 m2 : A → bool) l s : Forall (λ x, m1 x = m2 x) s → oneLater m1 l s = oneLater m2 l s.
Proof.
  intros Hs. unfold oneLater. f_equal. revert l. induction Hs as [|x s Hx Hs IH]; intros [|p l]; simpl; [done..|].
  by rewrite Hx, IH.
Qed.

(** The segments of a pattern and what they stand for. *)
Definition segment_means (segment : list Z) (w : wild (list Z)) : Prop :=
  if decide (segment = [STAR; STAR]) then w = Star else ∃ ts, parses segment ts ∧ w = One (wmatch ts).

Lemma steps_mean (matches : list Z → list Z → bool) parts g ws l : Forall2 segment_means g ws →
  Forall (λ segment, ∀ ts, parses segment ts → segment ≠ [STAR; STAR] → Forall (λ part, matches segment part = wmatch ts part) parts) g →
  foldl (λ positions segment, if bool_decide (segment = [STAR; STAR]) then anyLater false positions
                              else oneLater (matches segment) positions parts) l g = foldl (wstep parts) l ws.
Proof.
  intros Hg. revert l. induction Hg as [|segment w g ws Hs Hg IH]; intros l Hm; simpl; [done|].
  apply Forall_cons in Hm as [Hm1 Hm]. rewrite IH by done. f_equal. unfold segment_means in Hs.
  case_bool_decide as E; [rewrite decide_True in Hs by done; by subst|]. rewrite decide_False in Hs by done.
  destruct Hs as (ts & Hts & ->). simpl. apply oneLater_ext. by apply Hm1.
Qed.

Lemma segment_means_exists g : Forall (λ segment, is_Some (Match segment []) ∧ ascii_codes segment) g →
  ∃ ws, Forall2 segment_means g ws.
Proof.
  induction 1 as [|segment g [Hm Ha] Hg [ws IH]]; [by exists []|]. destruct (decide (segment = [STAR; STAR])) as [E|E].
  - exists (Star :: ws). constructor; [|done]. unfold segment_means. by rewrite decide_True.
  - destruct (segment_go segment Hm Ha) as (ts & Hts & _). exists (One (wmatch ts) :: ws). constructor; [|done].
    unfold segment_means. rewrite decide_False by done. eauto.
Qed.

Lemma segment_both segment ts part : is_Some (Match segment []) → ascii_codes segment → plain_text part →
  parses segment ts → MatchSegment segment part = wmatch ts part ∧ history_segment segment part = wmatch ts part.
Proof.
  intros Hm Ha Hp Hts. destruct (segment_go segment Hm Ha) as (ts' & Hts' & Hgo). rewrite (Hgo _ Hp).
  rewrite <- (segment_lua segment ts' part), (segment_lua segment ts part) by (done || by destruct Hp). done.
Qed.

(** What a pattern Go accepts means, and that both matchers find it. *)
Lemma glob_both (pattern : list Z) (g : historyGlob)
    (Hg : compileGlob pattern = Some g) (Hp : ascii_codes pattern) :
  ∃ ws, Forall2 segment_means g ws ∧
  ∀ value, ascii_codes value →
    let trimmed := TrimSlashes (TrimSpace value) in
    MatchString g value = negb (bool_decide (trimmed = [])) && wmatch ws (SplitSlash trimmed) ∧
    history_glob pattern value = MatchString g value.
Proof.
  unfold compileGlob in Hg. destruct (_ || _) in Hg; [done|]. case_bool_decide; [done|]. destruct (forallb _ _) eqn:Hall; [|done].
  injection Hg as <-. set (g := SplitSlash (TrimSlashes (TrimSpace pattern))).
  assert (Forall (λ segment, is_Some (Match segment []) ∧ ascii_codes segment) g) as Hsegs.
  { rewrite forallb_forall in Hall. pose proof (split_plain _ (trim_ascii_codes _ Hp)) as Hpl. rewrite Forall_forall in Hpl.
    apply Forall_forall. intros x Hx. split; [|by apply Hpl]. apply (bool_decide_eq_true_1 _), Hall. by apply list_elem_of_In. }
  destruct (segment_means_exists g Hsegs) as [ws Hws]. exists ws. split; [done|]. intros value Hv trimmed.
  assert (∀ segment ts part, segment ∈ g → part ∈ SplitSlash trimmed → parses segment ts →
    MatchSegment segment part = wmatch ts part ∧ history_segment segment part = wmatch ts part) as Hboth.
  { intros segment ts part Hs Hpart Hts. rewrite Forall_forall in Hsegs. destruct (Hsegs _ Hs) as [? ?].
    pose proof (split_plain _ (trim_ascii_codes _ Hv)) as Hpl. rewrite Forall_forall in Hpl. apply segment_both; [done..| |done]. by apply Hpl. }
  assert (MatchString g value = negb (bool_decide (trimmed = [])) && wmatch ws (SplitSlash trimmed)) as Hgo.
  { unfold MatchString. fold trimmed. case_bool_decide; [done|]. simpl. rewrite <- wrun_match. do 2 f_equal.
    apply (steps_mean MatchSegment); [done|]. apply Forall_forall. intros segment Hs ts Hts _. apply Forall_forall.
    intros part Hpart. by apply Hboth. }
  split; [done|]. rewrite Hgo. unfold history_glob. rewrite !trim_ascii by done. fold trimmed.
  destruct (bool_decide_reflect (TrimSlashes (TrimSpace pattern) = [])) as [Ep|Ep].
  - simpl. assert (g = [[]]) as Eg by (unfold g; by rewrite Ep). rewrite Eg in Hws. inversion Hws as [|? w ? ws' Hw Hnil]; subst.
    inversion Hnil; subst. unfold segment_means in Hw. rewrite decide_False in Hw by done. destruct Hw as (ts & Hts & ->).
    inversion Hts; subst. destruct (bool_decide_reflect (trimmed = [])) as [|Ht]; [done|]. simpl.
    destruct (SplitSlash trimmed) as [|part [|? ?]] eqn:Es; [done| |by rewrite andb_false_r]. rewrite andb_true_r.
    destruct part; [by apply split_empty in Es|done].
  - destruct (bool_decide_reflect (trimmed = [])); [done|]. simpl. rewrite <- wrun_match. do 2 f_equal.
    apply (steps_mean history_segment); [done|]. apply Forall_forall. intros segment Hs ts Hts _. apply Forall_forall.
    intros part Hpart. by apply Hboth.
Qed.

(** What is accepted is matched alike. *)
Lemma glob_alike pattern g value : compileGlob pattern = Some g → ascii_codes pattern → ascii_codes value →
  history_glob pattern value = MatchString g value.
Proof. intros Hg Hp Hv. destruct (glob_both pattern g Hg Hp) as (ws & _ & H). by destruct (H value Hv). Qed.

(** C30: the two matchers of file history agree.  A pattern Go accepts follows the
    grammar of [path.Match], segment by segment, with [**] for any number of
    segments; on ASCII text Go's matcher, which decides what a writer prepares,
    and the one in Lua, which decides what the publication captures, both find
    exactly the paths the grammar means. *)
Theorem glob_matchers_agree (pattern : list Z) (g : historyGlob)
    (Hg : compileGlob pattern = Some g) (Hp : ascii_codes pattern) :
  ∃ ws, Forall2 segment_means g ws ∧
  ∀ value, ascii_codes value →
    let trimmed := TrimSlashes (TrimSpace value) in
    MatchString g value = negb (bool_decide (trimmed = [])) && wmatch ws (SplitSlash trimmed) ∧
    history_glob pattern value = MatchString g value.
Proof.
  destruct (glob_both pattern g Hg Hp) as (ws & Hws & H). exists ws. split; [done|]. exact H.
Qed.

(** Outside ASCII they do not: a star of [path.Match] can end inside a rune. *)
Lemma glob_matchers_differ :
  let name := [229; 173; 151] in
  MatchString [[STAR; QUESTION; QUESTION]] name = true ∧ history_glob [STAR; QUESTION; QUESTION] name = false.
Proof. by vm_compute. Qed.

Lemma glob_matchers_agree_witness :
  let pattern := codes "src/**/*.go" in
  ∃ g, compileGlob pattern = Some g ∧ ascii_codes pattern ∧ MatchString g (codes "src/a/main.go") = true ∧
       history_glob pattern (codes "src/a/main.go") = true.
Proof.
  eexists. split; [vm_compute; reflexivity|]. assert (∀ l, forallb (between 0 127) l = true → ascii_codes l) as Hdec.
  { intros l Hl. rewrite forallb_forall in Hl. apply Forall_forall. intros x Hx%list_elem_of_In%Hl. unfold between in Hx. lia. }
  assert (ascii_codes (codes "src/**/*.go")) as Ha by (apply Hdec; by vm_compute).
  split; [exact Ha|]. split; [by vm_compute|].
  destruct (glob_matchers_agree (codes "src/**/*.go") _ ltac:(vm_compute; reflexivity) Ha) as (ws & _ & H).
  destruct (H (codes "src/a/main.go") (Hdec (codes "src/a/main.go") ltac:(by vm_compute))) as [_ ->]. by vm_compute.
Defined.
