(* ===== verification/HistoryPolicy.v ===== *)
(** internal/filehistory/policy.go and policy_update.go: which paths are captured,
    and how the policy of a workspace is replaced; with [history_matches] of
    internal/filehistory/capture.lua (C28, C29).

    The key of the policy holds what [json.Marshal] makes of a [Policy]; the model
    keeps the policy [json.Unmarshal] makes of it again ([jsonPolicy]), and [None] for
    text it refuses.
    Whatever others do to the keys before a command is the function [env]. *)
From S2P Require Import Prelude Paths Glob Json GlobProps.
#[local] Open Scope string_scope.
#[local] Open Scope list_scope.
#[local] Open Scope Z_scope.

Record Policy := {
  p_Mode : string; p_Include : list string; p_Exclude : list string;
  p_MaxVersions : Z; p_MaxAgeDays : Z; p_MaxBytes : Z; p_MaxFileBytes : Z
}.

Definition ModeOff : string := "off".
Definition ModeAll : string := "all".
Definition ModePaths : string := "paths".

Definition withMode (m : string) (p : Policy) : Policy :=
  {| p_Mode := m; p_Include := p_Include p; p_Exclude := p_Exclude p; p_MaxVersions := p_MaxVersions p;
     p_MaxAgeDays := p_MaxAgeDays p; p_MaxBytes := p_MaxBytes p; p_MaxFileBytes := p_MaxFileBytes p |}.

Definition defaultPolicy : Policy :=
  {| p_Mode := ModeOff; p_Include := []; p_Exclude := []; p_MaxVersions := 0; p_MaxAgeDays := 0;
     p_MaxBytes := 0; p_MaxFileBytes := 0 |}.

Definition NormalizePath (value : string) : result string string :=
  if negb (no_char "000" value) then Err "history path contains NUL"
  else if bool_decide (".." ∈ Split value slash) then Err "history path must not contain '..'"
  else
    let value := Clean ("/" +:+ value) in
    if bool_decide (value = "/") then Err "history path must name a file" else Ok value.

Definition Validate (p : Policy) : result string () :=
  if negb (bool_decide (p_Mode p = "")) && negb (bool_decide (p_Mode p = ModeOff))
     && negb (bool_decide (p_Mode p = ModeAll)) && negb (bool_decide (p_Mode p = ModePaths))
  then Err "versioning mode must be off, all, or paths"
  else if bool_decide (p_Mode p = ModePaths) && bool_decide (p_Include p = [])
  then Err "paths mode requires at least one include pattern"
  else if (p_MaxVersions p <? 0) || (p_MaxAgeDays p <? 0) || (p_MaxBytes p <? 0) || (p_MaxFileBytes p <? 0)
  then Err "versioning limits must be nonnegative (zero means unlimited)"
  else if (128 <? length (p_Include p) + length (p_Exclude p))%nat
  then Err "versioning supports at most 128 include and exclude patterns"
  else if forallb (λ pattern, bool_decide (is_Some (compileGlob (codes pattern)))) (p_Include p ++ p_Exclude p)
  then Ok () else Err "invalid history pattern".

(** [strings.ToLower] on ASCII letters.  No other letter has one of the letters of
    a mode for its lower case, so what [Validate] accepts is the same. *)
Definition lower_ascii (c : ascii) : ascii :=
  let n := nat_of_ascii c in if bool_decide (65 ≤ n ∧ n ≤ 90)%nat then ascii_of_nat (n + 32) else c.
Definition ToLower (s : string) : string :=
  String.string_of_list_ascii (map lower_ascii (String.list_ascii_of_string s)).

Definition TrimText (s : string) : string := of_codes (Glob.TrimSpace (codes s)).

Fixpoint normalizePatterns (seen values : list string) : list string :=
  match values with
  | [] => []
  | value :: values =>
      let value := TrimText value in
      if negb (bool_decide (value = "")) && negb (bool_decide (value ∈ seen))
      then value :: normalizePatterns (value :: seen) values
      else normalizePatterns seen values
  end.

Definition Normalize (p : Policy) : Policy :=
  let mode := ToLower (TrimText (p_Mode p)) in
  let mode := if bool_decide (mode = "") then ModeOff else mode in
  {| p_Mode := mode; p_Include := normalizePatterns [] (p_Include p); p_Exclude := normalizePatterns [] (p_Exclude p);
     p_MaxVersions := p_MaxVersions p; p_MaxAgeDays := p_MaxAgeDays p; p_MaxBytes := p_MaxBytes p;
     p_MaxFileBytes := p_MaxFileBytes p |}.

Definition matchAny (patterns : list string) (name : string) : bool :=
  existsb (λ pattern, match compileGlob (codes pattern) with Some re => MatchString re (codes name) | None => false end)
    patterns.

Definition Matches (p : Policy) (name : string) : bool :=
  if bool_decide (p_Mode p = ModeOff) || bool_decide (p_Mode p = "") then false
  else match NormalizePath name with
       | Err _ => false
       | Ok name =>
           negb (matchAny (p_Exclude p) name) &&
           (bool_decide (p_Mode p = ModeAll) || bool_decide (p_Mode p = ModePaths) && matchAny (p_Include p) name)
       end.

(** [history_matches] of capture.lua. *)
Definition history_matches (p : Policy) (path : string) : bool :=
  if bool_decide (p_Mode p = "off") then false
  else if existsb (λ rule, history_glob (codes rule) (codes path)) (p_Exclude p) then false
  else if bool_decide (p_Mode p = "all") then true
  else existsb (λ rule, history_glob (codes rule) (codes path)) (p_Include p).

(** * The keys of a workspace *)

(** [h_watched] counts the writes to the three keys a transaction watches. *)
Record policyKeys := {
  h_policy : option (option Policy); h_generation : option string; h_importLock : bool;
  h_pruneCursor : option string; h_watched : Z
}.

Definition getPolicy (s : policyKeys) : result string Policy :=
  match h_policy s with
  | None => Ok defaultPolicy
  | Some None => Err "decode history policy"
  | Some (Some p) => Ok (if bool_decide (p_Mode p = "") then withMode ModeOff p else p)
  end.

Definition GetPolicy (s : policyKeys) : result string Policy :=
  match getPolicy s with
  | Err e => Err e
  | Ok p => match Validate p with Ok _ => Ok p | Err e => Err e end
  end.

(** [json.Marshal] and [json.Unmarshal]. *)
Definition jsonPolicy (p : Policy) : Policy :=
  {| p_Mode := jsonString (p_Mode p); p_Include := map jsonString (p_Include p); p_Exclude := map jsonString (p_Exclude p);
     p_MaxVersions := p_MaxVersions p; p_MaxAgeDays := p_MaxAgeDays p; p_MaxBytes := p_MaxBytes p;
     p_MaxFileBytes := p_MaxFileBytes p |}.

Definition setPolicyKeys (p : Policy) (s : policyKeys) : policyKeys :=
  {| h_policy := Some (Some (jsonPolicy p)); h_generation := h_generation s; h_importLock := h_importLock s;
     h_pruneCursor := None; h_watched := h_watched s + 1 |}.

Definition isRestoring (generation : option string) : bool :=
  match generation with Some g => HasPrefix g "fencing:" || HasPrefix g "restoring:" | None => false end.

Definition checkLifecycle (generation : option string) (active : bool) : result string () :=
  if bool_decide (generation = Some "deleted") then Err "workspace was deleted"
  else if isRestoring generation && active
  then Err "workspace restore is active; retry versioning after it completes" else Ok ().

(** [setPolicyScript]. *)
Definition setPolicyScript (p : Policy) (s : policyKeys) : result string () * policyKeys :=
  match checkLifecycle (h_generation s) (h_importLock s) with
  | Err e => (Err e, s)
  | Ok _ => (Ok (), setPolicyKeys p s)
  end.

Section world.
Context (env : policyKeys → policyKeys).

Definition SetPolicy (p : Policy) (s : policyKeys) : result string () * policyKeys :=
  let p := Normalize p in
  match Validate p with
  | Err e => (Err e, s)
  | Ok _ => setPolicyScript p (env s)
  end.

(** The text of an error, or a transaction whose keys were touched. *)
Inductive txError := TxFailed | TxErr (e : string).

(** One round of [UpdatePolicy]: WATCH, the reads, MULTI and EXEC. *)
Definition updateOnce (update : Policy → result string Policy) (s : policyKeys) : result txError Policy * policyKeys :=
  let s := env s in
  let watched := h_watched s in
  let s := env s in
  let generation := h_generation s in
  if bool_decide (generation = Some "deleted") then (Err (TxErr "workspace was deleted"), s)
  else
    let s := if isRestoring generation then env s else s in
    if isRestoring generation && h_importLock s
    then (Err (TxErr "workspace restore is active; retry versioning after it completes"), s)
    else
      let s := env s in
      match GetPolicy s with
      | Err e => (Err (TxErr e), s)
      | Ok current =>
          match update current with
          | Err e => (Err (TxErr e), s)
          | Ok next =>
              let next := Normalize next in
              match Validate next with
              | Err e => (Err (TxErr e), s)
              | Ok _ =>
                  let s := env s in
                  if h_watched s =? watched then (Ok next, setPolicyKeys next s) else (Err TxFailed, s)
              end
          end
      end.

Fixpoint update_loop (attempts : nat) (update : Policy → result string Policy) (s : policyKeys) :
    result string Policy * policyKeys :=
  match attempts with
  | O => (Err "history policy changed concurrently; retry", s)
  | S attempts =>
      match updateOnce update s with
      | (Ok p, s) => (Ok p, s)
      | (Err (TxErr e), s) => (Err e, s)
      | (Err TxFailed, s) => update_loop attempts update s
      end
  end.

Definition UpdatePolicy (update : Policy → result string Policy) (s : policyKeys) : result string Policy * policyKeys :=
  update_loop 8 update s.
End world.

(** * What is selected *)

(** What a stored policy is: a known mode, limits that are none or positive,
    distinct patterns the matcher accepts. *)
Record policy_typed (p : Policy) : Prop := {
  pt_mode : p_Mode p ∈ [ModeOff; ModeAll; ModePaths];
  pt_include : p_Mode p = ModePaths → p_Include p ≠ [];
  pt_limits : 0 ≤ p_MaxVersions p ∧ 0 ≤ p_MaxAgeDays p ∧ 0 ≤ p_MaxBytes p ∧ 0 ≤ p_MaxFileBytes p;
  pt_patterns : Forall (λ pattern, is_Some (compileGlob (codes pattern))) (p_Include p ++ p_Exclude p);
  pt_count : (length (p_Include p) + length (p_Exclude p) ≤ 128)%nat
}.

Lemma Validate_typed p : Validate p = Ok () ↔ p_Mode p = "" ∧ policy_typed (withMode ModeOff p) ∨ policy_typed p.
Proof.
  unfold Validate. destruct (_ && _ && _ && _) eqn:Em.
  { split; [done|]. rewrite !andb_true_iff, !negb_true_iff, !bool_decide_eq_false in Em. destruct_and!.
    intros [[? _]|[Hm _ _ _ _]]; [done|]. set_solver. }
  assert (p_Mode p = "" ∨ p_Mode p ∈ [ModeOff; ModeAll; ModePaths]) as Hm.
  { rewrite !andb_false_iff, !negb_false_iff, !bool_decide_eq_true in Em. set_solver. }
  clear Em. destruct (_ && _) eqn:Ei.
  { split; [done|]. apply andb_true_iff in Ei as [Hp%bool_decide_eq_true Hi%bool_decide_eq_true].
    intros [[H _]|[_ Hinc _ _ _]]; [rewrite Hp in H; done|]. by specialize (Hinc Hp). }
  assert (p_Mode p = ModePaths → p_Include p ≠ []) as Hi.
  { intros Hp. rewrite Hp, bool_decide_true in Ei by done. by apply bool_decide_eq_false in Ei. }
  clear Ei. destruct (_ || _) eqn:El.
  { split; [done|]. rewrite !orb_true_iff, !Z.ltb_lt in El. intros [[_ [_ _ Hl _ _]]|[_ _ Hl _ _]]; simpl in Hl; lia. }
  rewrite !orb_false_iff, !Z.ltb_ge in El. destruct (Nat.ltb_spec 128 (length (p_Include p) + length (p_Exclude p))).
  { split; [done|]. intros [[_ [_ _ _ _ Hc]]|[_ _ _ _ Hc]]; simpl in Hc; lia. }
  destruct (forallb _ _) eqn:Ea.
  - split; [|done]. intros _. rewrite forallb_forall in Ea.
    assert (Forall (λ pattern, is_Some (compileGlob (codes pattern))) (p_Include p ++ p_Exclude p)) as Hpat.
    { apply Forall_forall. intros x Hx%list_elem_of_In%Ea. by apply bool_decide_eq_true in Hx. }
    destruct Hm as [Hm|Hm]; [left; split; [done|]|right]; (constructor; cbn [p_Mode p_Include p_Exclude p_MaxVersions p_MaxAgeDays p_MaxBytes p_MaxFileBytes withMode]; [|done|lia|done|lia]); [set_solver|done].
  - split; [done|]. intros H'. apply not_true_iff_false in Ea. destruct Ea. apply forallb_forall. intros x Hx%list_elem_of_In.
    apply bool_decide_eq_true. destruct H' as [[_ [_ _ _ Hp _]]|[_ _ _ Hp _]]; simpl in Hp; rewrite Forall_forall in Hp; auto.
Qed.

Lemma Normalize_mode p : p_Mode (Normalize p) ≠ "".
Proof. simpl. by case_bool_decide. Qed.

Lemma normalized_typed p : Validate (Normalize p) = Ok () → policy_typed (Normalize p).
Proof. intros [[H _]|H]%Validate_typed; [by apply Normalize_mode in H|done]. Qed.

(** Patterns are kept once, in order. *)
Lemma normalizePatterns_NoDup seen l :
  NoDup (normalizePatterns seen l) ∧ ∀ x, x ∈ normalizePatterns seen l → x ∉ seen ∧ x ≠ "".
Proof.
  revert seen. induction l as [|v l IH]; intros seen; simpl; [split; [constructor|by intros ? ?%elem_of_nil]|].
  destruct (_ && _) eqn:E; [|apply IH]. rewrite andb_true_iff, !negb_true_iff, !bool_decide_eq_false in E.
  destruct (IH (TrimText v :: seen)) as [Hn Hx]. destruct E as [E1 E2]. split.
  - constructor; [|done]. intros [H _]%Hx. apply H. by left.
  - intros x [->|Hin]%elem_of_cons; [done|]. apply Hx in Hin as [H ?]. split; [|done]. intros ?. apply H. by right.
Qed.

Lemma typed_mode p : policy_typed p → p_Mode p = ModeOff ∨ p_Mode p = ModeAll ∨ p_Mode p = ModePaths.
Proof. intros [Hm _ _ _ _]. rewrite !elem_of_cons, elem_of_nil in Hm. tauto. Qed.

Lemma typed_not_empty p : policy_typed p → p_Mode p ≠ "".
Proof. intros [-> | [-> | ->]]%typed_mode; done. Qed.

Definition ascii_text (s : string) : Prop := ascii_codes (codes s).

(** Preparation in Go and capture in Lua select the same paths. *)
Lemma selected_alike p name n : policy_typed p → Forall ascii_text (p_Include p ++ p_Exclude p) →
  NormalizePath name = Ok n → ascii_text n → Matches p name = history_matches p n.
Proof.
  intros Ht Ha Hn Han. pose proof (typed_mode p Ht) as Hm. pose proof (typed_not_empty p Ht) as Hne. destruct Ht as [_ _ _ Hp _].
  assert (∀ patterns, patterns ⊆ p_Include p ++ p_Exclude p →
    matchAny patterns n = existsb (λ rule, history_glob (codes rule) (codes n)) patterns) as Hall.
  { rewrite Forall_forall in Hp, Ha. induction patterns as [|x l IH]; intros Hs; simpl; [done|].
    rewrite IH by set_solver. f_equal. destruct (Hp x) as [g Hg]; [set_solver|]. rewrite Hg. symmetry.
    apply glob_alike; [done| |done]. apply Ha. set_solver. }
  unfold Matches, history_matches. rewrite Hn, !Hall by set_solver.
  rewrite (bool_decide_false (p_Mode p = "")), orb_false_r by done.
  change "off" with ModeOff. change "all" with ModeAll. destruct (bool_decide_reflect (p_Mode p = ModeOff)); [done|].
  destruct (existsb _ (p_Exclude p)); [done|]. simpl. destruct (bool_decide_reflect (p_Mode p = ModeAll)); [done|].
  rewrite bool_decide_true by naive_solver. done.
Qed.

(** * What is stored *)

(** Patterns in valid UTF-8. *)
Definition policy_text (p : Policy) : Prop := Forall (λ s, ValidString s = true) (p_Include p ++ p_Exclude p).

Definition keys_typed (s : policyKeys) : Prop :=
  match h_policy s with
  | None => True
  | Some None => False
  | Some (Some p) => policy_typed p ∧ policy_text p ∧ NoDup (p_Include p) ∧ NoDup (p_Exclude p)
  end.

Lemma keys_typed_get s : keys_typed s → ∃ p, GetPolicy s = Ok p ∧ policy_typed p ∧ policy_text p.
Proof.
  unfold keys_typed, GetPolicy, getPolicy. intros Ht. assert (∀ p, policy_typed p → Validate p = Ok ()) as Hv.
  { intros p Hp. apply Validate_typed. by right. }
  destruct (h_policy s) as [[p|]|]; [|done|].
  - destruct Ht as (Ht & Hx & _). rewrite bool_decide_false by (by apply typed_not_empty). rewrite Hv by done. eauto.
  - exists defaultPolicy. split; [done|]. split; [|constructor]. constructor; simpl; try done || lia; try constructor.
Qed.

(** Patterns that are valid UTF-8 are stored as they are. *)
Lemma jsonPolicy_text p : policy_typed p → policy_text p → jsonPolicy p = p.
Proof.
  intros Hm%typed_mode [Hi He]%Forall_app. unfold jsonPolicy. rewrite !map_jsonString by done.
  rewrite jsonString_valid; [by destruct p|]. by destruct Hm as [-> | [-> | ->]].
Qed.

Lemma setPolicyKeys_stores q s : Validate (Normalize q) = Ok () → policy_text (Normalize q) →
  h_policy (setPolicyKeys (Normalize q) s) = Some (Some (Normalize q)).
Proof. intros H%normalized_typed Ht. unfold setPolicyKeys. cbn [h_policy]. by rewrite jsonPolicy_text. Qed.

Lemma setPolicyKeys_typed q s : Validate (Normalize q) = Ok () → policy_text (Normalize q) → keys_typed (setPolicyKeys (Normalize q) s).
Proof.
  intros H Ht. unfold keys_typed. rewrite setPolicyKeys_stores by done. apply normalized_typed in H.
  split; [done|]. split; [done|]. split; apply normalizePatterns_NoDup.
Qed.

Section world.
Context (env : policyKeys → policyKeys).

(** What others do between the commands of an operation. *)
Definition idle : relation policyKeys := λ s s', s' = env s.

Lemma idle_env s s' : rtc idle s s' → rtc idle s (env s').
Proof. intros H. eapply rtc_r; [exact H|done]. Qed.

(** WATCH: who writes one of the three keys is counted. *)
Class Watched := {
  watched_grows s : h_watched s ≤ h_watched (env s);
  watched_keeps s : h_watched (env s) = h_watched s →
    h_policy (env s) = h_policy s ∧ h_generation (env s) = h_generation s ∧ h_importLock (env s) = h_importLock s
}.
Context `{!Watched}.

Definition same_keys (s s' : policyKeys) : Prop :=
  h_policy s' = h_policy s ∧ h_generation s' = h_generation s ∧ h_importLock s' = h_importLock s.

Lemma idle_watched s s' : rtc idle s s' → h_watched s ≤ h_watched s' ∧ (h_watched s' = h_watched s → same_keys s s').
Proof.
  induction 1 as [s|s ? s' -> Hr [IH1 IH2]]; [done|]. pose proof (watched_grows s). split; [lia|]. intros E.
  destruct (watched_keeps s) as (E1 & E2 & E3); [lia|]. destruct IH2 as (F1 & F2 & F3); [lia|].
  unfold same_keys. by rewrite F1, F2, F3.
Qed.

Definition committed (update : Policy → result string Policy) (s : policyKeys) (p : Policy) (s' : policyKeys) : Prop :=
  ∃ s0 current next, rtc idle s s0 ∧ s' = setPolicyKeys p s0 ∧ GetPolicy s0 = Ok current ∧
    update current = Ok next ∧ p = Normalize next ∧ Validate p = Ok () ∧
    checkLifecycle (h_generation s0) (h_importLock s0) = Ok () ∧
    (policy_text p → h_policy s' = Some (Some p)).

Lemma updateOnce_spec update s :
  match updateOnce env update s with
  | (Ok p, s') => committed update s p s'
  | (Err _, s') => rtc idle s s'
  end.
Proof.
  unfold updateOnce. cbv zeta. set (s1 := env s). set (s2 := env s1).
  assert (rtc idle s s1) as H1 by (by apply idle_env). assert (rtc idle s1 s2) as H2 by (by apply idle_env).
  assert (rtc idle s s2) as H02 by (by transitivity s1). case_bool_decide as Hd; [done|].
  set (s3 := if isRestoring (h_generation s2) then env s2 else s2).
  assert (rtc idle s1 s3) as H3 by (unfold s3; case_match; [by apply idle_env|done]).
  destruct (_ && _) eqn:Ea; [by transitivity s1|]. assert (rtc idle s1 (env s3)) as H4 by (by apply idle_env).
  assert (rtc idle s (env s3)) as H04 by (by transitivity s1). assert (rtc idle s1 (env (env s3))) as H5 by (by apply idle_env).
  destruct (GetPolicy (env s3)) as [current|e] eqn:Ec; [|done]. destruct (update current) as [next|e] eqn:En; [|done].
  destruct (Validate (Normalize next)) as [[]|e] eqn:Ev; [|done].
  destruct (Z.eqb_spec (h_watched (env (env s3))) (h_watched s1)) as [Ew|]; [|by transitivity s1].
  exists (env (env s3)), current, next. pose proof (idle_watched _ _ H5) as [_ Hs5]. specialize (Hs5 Ew) as (Ep & Eg & El).
  assert (∀ t, rtc idle s1 t → rtc idle t (env (env s3)) → same_keys s1 t) as Hmid.
  { intros t Ht Ht'. apply (idle_watched _ _ Ht). pose proof (idle_watched _ _ Ht). pose proof (idle_watched _ _ Ht'). lia. }
  assert (rtc idle s3 (env (env s3))) as H35 by (by repeat apply idle_env).
  assert (rtc idle s2 s3) as H23 by (unfold s3; case_match; [by apply idle_env|done]).
  assert (same_keys s1 (env s3)) as (Ep4 & _ & _) by (apply Hmid; [done|by apply idle_env]).
  assert (same_keys s1 s2) as (_ & Eg2 & _) by (apply Hmid; [done|by transitivity s3]).
  assert (same_keys s1 s3) as (_ & _ & El3) by (by apply Hmid).
  split_and!; [by transitivity s1|done| |done|done|done| |].
  - unfold GetPolicy, getPolicy in *. by rewrite Ep, <- Ep4.
  - unfold checkLifecycle. rewrite Eg, <- Eg2, bool_decide_false by done. rewrite El, <- El3. by rewrite Ea.
  - by apply setPolicyKeys_stores.
Qed.

Lemma update_loop_spec n update s :
  match update_loop env n update s with
  | (Ok p, s') => committed update s p s'
  | (Err _, s') => rtc idle s s'
  end.
Proof.
  revert s. induction n as [|n IH]; intros s; simpl; [done|]. pose proof (updateOnce_spec update s) as Hone.
  destruct (updateOnce env update s) as [[p|[|e]] s1]; [done| |done]. specialize (IH s1).
  destruct (update_loop env n update s1) as [[p|e] s2]; [|by transitivity s1].
  destruct IH as (s0 & c & nx & Hs & IH). exists s0, c, nx. split; [by transitivity s1|done].
Qed.
End world.

(** C28: a change of the policy is atomic.  Whatever others do between the commands
    of [UpdatePolicy], as long as WATCH notices writes to the three keys: a change
    that is reported was made at one moment from exactly the policy of that
    moment, by the given function, to a normalised and valid policy, in a
    workspace neither deleted nor in the middle of a restore, and the pruning
    cursor went back to the start; the key then holds the JSON of that policy, which
    is read back as that very policy if its patterns are valid UTF-8 (and may be one
    that is refused if they are not, [coerced_policy_is_refused]); a failure, also the
    one after eight attempts, has written nothing. *)
Theorem policy_update_is_atomic (env : policyKeys → policyKeys) (update : Policy → result string Policy) (s : policyKeys)
    (HW : Watched env) :
  match UpdatePolicy env update s with
  | (Ok p, s') => committed env update s p s'
  | (Err _, s') => rtc (idle env) s s'
  end.
Proof. apply (update_loop_spec env). Qed.

Definition busy (s : policyKeys) : policyKeys :=
  if h_watched s <? 3
  then {| h_policy := Some (Some (withMode ModeAll defaultPolicy)); h_generation := h_generation s;
          h_importLock := h_importLock s; h_pruneCursor := h_pruneCursor s; h_watched := h_watched s + 1 |}
  else s.
Definition emptyKeys : policyKeys :=
  {| h_policy := None; h_generation := None; h_importLock := false; h_pruneCursor := None; h_watched := 0 |}.
Definition exclude_logs (p : Policy) : result string Policy :=
  Ok {| p_Mode := p_Mode p; p_Include := ["src/**"]; p_Exclude := ["**/*.log"]; p_MaxVersions := 7;
        p_MaxAgeDays := p_MaxAgeDays p; p_MaxBytes := p_MaxBytes p; p_MaxFileBytes := p_MaxFileBytes p |}.

Lemma busy_watched : Watched busy.
Proof. split; intros s; unfold busy; destruct (h_watched s <? 3); simpl; (done || lia). Qed.

Lemma policy_update_is_atomic_witness :
  Watched busy ∧ ∃ p, fst (UpdatePolicy busy exclude_logs emptyKeys) = Ok p ∧ p_Mode p = ModeAll ∧
    committed busy exclude_logs emptyKeys p (snd (UpdatePolicy busy exclude_logs emptyKeys)).
Proof.
  split; [exact busy_watched|].
  pose proof (policy_update_is_atomic busy exclude_logs emptyKeys busy_watched) as H.
  destruct (UpdatePolicy busy exclude_logs emptyKeys) as [[p|e] s'] eqn:E; [|exfalso; revert E; by vm_compute].
  exists p. split; [done|]. split; [|exact H]. revert E. vm_compute. by intros [= <- _].
Defined.

(** A pattern of 1000 bytes that are no UTF-8 passes validation and is stored as one of
    3000 bytes, which no reader accepts. *)
Definition latin1_policy : Policy :=
  {| p_Mode := ModePaths; p_Include := [of_codes (repeat 255 1000)]; p_Exclude := []; p_MaxVersions := 0;
     p_MaxAgeDays := 0; p_MaxBytes := 0; p_MaxFileBytes := 0 |}.

Lemma coerced_policy_is_refused :
  let '(r, s) := SetPolicy (λ s, s) latin1_policy emptyKeys in r = Ok () ∧ GetPolicy s = Err "invalid history pattern".
Proof. vm_compute. by split. Qed.

Lemma committed_typed env update s p s' : committed env update s p s' → policy_text p → keys_typed s'.
Proof. intros (s0 & c & n & _ & -> & _ & _ & -> & Hv & _) Ht. by apply setPolicyKeys_typed. Qed.

Lemma idle_typed env s s' : (∀ s, keys_typed s → keys_typed (env s)) → keys_typed s → rtc (idle env) s s' → keys_typed s'.
Proof. intros Henv Hs H. induction H as [|s ? s' -> _ IH]; [done|]. by apply IH, Henv. Qed.

(** C29: stored policies are well-typed, and Go and Lua read them alike.  Under any
    interference that keeps the policy well-typed, setting and updating it keep
    it so, whatever is asked for in valid UTF-8: the mode is one of the three, limits
    are not negative, there are at most 128 patterns, distinct and accepted by the
    matcher.  Reading such a policy succeeds; and on ASCII text it prepares, in
    Go, exactly the paths the publication script captures, none of them a path
    outside the workspace. *)
Theorem stored_policies_are_typed (env : policyKeys → policyKeys) (s : policyKeys)
    (Henv : ∀ s, keys_typed s → keys_typed (env s)) (HW : Watched env) (Hs : keys_typed s) :
  (∀ p, policy_text (Normalize p) → keys_typed (snd (SetPolicy env p s))) ∧
  (∀ update, (∀ p q, policy_text p → update p = Ok q → policy_text (Normalize q)) → keys_typed (snd (UpdatePolicy env update s))) ∧
  ∃ p, GetPolicy s = Ok p ∧ policy_typed p ∧
    (Forall ascii_text (p_Include p ++ p_Exclude p) → ∀ name,
       match NormalizePath name with
       | Ok n => ascii_text n → Matches p name = history_matches p n
       | Err _ => Matches p name = false
       end).
Proof.
  split_and!.
  - intros p Ht. unfold SetPolicy, setPolicyScript. destruct (Validate (Normalize p)) as [[]|] eqn:E; [|done].
    destruct (checkLifecycle _ _); [by apply setPolicyKeys_typed|by apply Henv].
  - intros update Ht. pose proof (update_loop_spec env 8 update s) as H. unfold UpdatePolicy.
    destruct (update_loop env 8 update s) as [[p|e] s']; [|by eapply idle_typed].
    eapply committed_typed; [exact H|]. destruct H as (s0 & current & next & Hi & _ & Hg & Hu & -> & _).
    destruct (keys_typed_get s0) as (p' & E & _ & Hx); [by eapply idle_typed|]. rewrite E in Hg. injection Hg as ->. by eapply Ht.
  - destruct (keys_typed_get s Hs) as (p & Hp & Ht & _). exists p. split; [done|]. split; [done|]. intros Ha name.
    destruct (NormalizePath name) as [n|e] eqn:En; [intros; by apply selected_alike|].
    unfold Matches. rewrite En. by case_match.
Qed.

Lemma stored_policies_are_typed_witness :
  keys_typed emptyKeys ∧ keys_typed (snd (UpdatePolicy busy exclude_logs emptyKeys)) ∧
  h_policy (snd (UpdatePolicy busy exclude_logs emptyKeys)) ≠ None.
Proof.
  split; [exact I|]. split; [|by vm_compute].
  refine (proj1 (proj2 (stored_policies_are_typed busy emptyKeys _ busy_watched I)) exclude_logs _).
  2: { intros p q _ [= <-]. repeat constructor. }
  intros s Hs. unfold busy. destruct (h_watched s <? 3); [|exact Hs]. unfold keys_typed. simpl.
  split; [|split_and!; constructor]. constructor; simpl; [apply list_elem_of_In; simpl; tauto|done|lia|constructor|lia].
Defined.
