(* ===== verification/SessionGate.v ===== *)
(** The gate of a native session (mount/internal/client/native_session.go): every
    request passes [begin] and [finish]; [Barrier] pauses admission, waits until
    the requests under way are done, and checks the session.

    Requests and barriers are threads that move one critical section of [s.mu] or
    one wait at a time; a schedule is a list of moves, and the rest of the world
    (expiry of the lease, a new generation, [Close]) moves too.  A channel
    [changed] is its number: the current one is [g_changed], the ones before it
    are closed. *)
From S2P Require Import Prelude.
#[local] Open Scope nat_scope.

Inductive gateError := Canceled | SessionLost | WorkspaceChanged | OpError.

#[export] Instance gateError_eq_dec : EqDecision gateError.
Proof. solve_decision. Defined.

(** Where a thread is. *)
Inductive place :=
| RLoop                            (* a request at the head of the loop of [begin] *)
| RWait (ch : nat)                 (* waiting for [changed], its context or the session *)
| RCheck                           (* admitted, before the first check *)
| RWork                            (* running the operation *)
| RFinish                          (* the operation is done, before the second check *)
| RLeave (err : option gateError)  (* before the critical section of [finish] *)
| RDone (err : option gateError)
| BSem                             (* a barrier before the channel [barrier] *)
| BLock                            (* before [s.mu.Lock] *)
| BWait (ch : nat)                 (* draining *)
| BAgain                           (* woken, before [s.mu.Lock] *)
| BStop                            (* its context is done, before [s.mu.Lock] *)
| BCheck                           (* drained; holds [s.mu] *)
| BResume (err : option gateError) (* checked; holds [s.mu] *)
| BRelease (err : option gateError)
| BDone (err : option gateError).

#[export] Instance place_eq_dec : EqDecision place.
Proof. solve_decision. Defined.

Record gate := Gate {
  g_paused : bool;
  g_active : nat;
  g_changed : nat;
  g_mu : option nat;
  g_barrier : option nat;
  g_lost : bool;
  g_closed : bool;
  g_generation : bool;             (* the workspace still has the session's generation *)
  g_lease : bool;                  (* the lease key exists *)
  g_threads : gmap nat place
}.

Definition newGate : gate := Gate false 0 0 None None false false true true ∅.

(** What happens next: a new thread, a step of a thread whose context is [done] or
    whose operation answers [res] (or that prefers the session's end to a wake-up),
    or the world. *)
Inductive gateMove :=
| NewRequest (t : nat)
| NewBarrier (t : nat)
| Step (t : nat) (done : bool) (res : option gateError)
| LeaseGone
| GenerationGone
| MarkLost                         (* the renewal found the lease gone *)
| Close.

Definition setThread (t : nat) (p : place) (g : gate) : gate :=
  Gate (g_paused g) (g_active g) (g_changed g) (g_mu g) (g_barrier g) (g_lost g) (g_closed g)
    (g_generation g) (g_lease g) (<[t := p]> (g_threads g)).
Definition setGate (paused : bool) (active changed : nat) (mu : option nat) (g : gate) : gate :=
  Gate paused active changed mu (g_barrier g) (g_lost g) (g_closed g) (g_generation g) (g_lease g) (g_threads g).
Definition setBarrier (b : option nat) (g : gate) : gate :=
  Gate (g_paused g) (g_active g) (g_changed g) (g_mu g) b (g_lost g) (g_closed g) (g_generation g) (g_lease g)
    (g_threads g).
Definition setLost (g : gate) : gate :=
  Gate (g_paused g) (g_active g) (g_changed g) (g_mu g) (g_barrier g) true (g_closed g) (g_generation g) (g_lease g)
    (g_threads g).
Definition setWorld (closed generation lease : bool) (g : gate) : gate :=
  Gate (g_paused g) (g_active g) (g_changed g) (g_mu g) (g_barrier g) (g_lost g) closed generation lease (g_threads g).

(** [check] of the source: the lost flag and the session's context, then one read of both keys. *)
Definition checkSession (g : gate) : option gateError * gate :=
  if g_lost g || g_closed g then (Some SessionLost, g)
  else if negb (g_generation g) then (Some WorkspaceChanged, g)
  else if negb (g_lease g) then (Some SessionLost, setLost g)
  else (None, g).

(** [notifyLocked] replaces the channel after closing it. *)
Definition notifyLocked (g : gate) : gate := setGate (g_paused g) (g_active g) (S (g_changed g)) (g_mu g) g.

(** [for s.active > 0] of [Barrier], with [s.mu] taken. *)
Definition drain (t : nat) (g : gate) : gate :=
  if (0 <? g_active g) then setThread t (BWait (g_changed g)) g
  else setThread t BCheck (setGate (g_paused g) (g_active g) (g_changed g) (Some t) g).

(** The deferred end of [Barrier]: admission resumes and [s.mu] is free. *)
Definition resume (t : nat) (err : option gateError) (g : gate) : gate :=
  setThread t (BRelease err) (setGate false (g_active g) (S (g_changed g)) None g).

Definition threadStep (t : nat) (p : place) (done : bool) (res : option gateError) (g : gate) : gate :=
  let locked (k : gate → gate) := match g_mu g with None => k g | Some _ => g end in
  match p with
  | RLoop =>
      locked (λ g, if g_paused g then setThread t (RWait (g_changed g)) g
                   else setThread t RCheck (setGate (g_paused g) (S (g_active g)) (g_changed g) (g_mu g) g))
  | RWait ch =>
      if done then setThread t (RDone (Some Canceled)) g
      else if (ch <? g_changed g) && bool_decide (res = None) then setThread t RLoop g
      else if g_closed g then setThread t (RDone (Some SessionLost)) g else g
  | RCheck =>
      let '(err, g) := checkSession g in setThread t (match err with None => RWork | Some _ => RLeave err end) g
  | RWork => setThread t (match res with None => RFinish | Some _ => RLeave res end) g
  | RFinish => let '(err, g) := checkSession g in setThread t (RLeave err) g
  | RLeave err =>
      locked (λ g, setThread t (RDone err) (notifyLocked (setGate (g_paused g) (pred (g_active g)) (g_changed g) (g_mu g) g)))
  | BSem =>
      match g_barrier g with
      | None => setThread t BLock (setBarrier (Some t) g)
      | Some _ => if done then setThread t (BDone (Some Canceled)) g else g
      end
  | BLock => locked (λ g, drain t (setGate true (g_active g) (g_changed g) (g_mu g) g))
  | BWait ch =>
      if done then setThread t BStop g
      else if (ch <? g_changed g) then setThread t BAgain g else g
  | BAgain => locked (drain t)
  | BStop => locked (resume t (Some Canceled))
  | BCheck => let '(err, g) := checkSession g in setThread t (BResume err) g
  | BResume err => resume t err g
  | BRelease err => setThread t (BDone err) (setBarrier None g)
  | RDone _ | BDone _ => g
  end.

Definition gateStep (m : gateMove) (g : gate) : gate :=
  match m with
  | NewRequest t => match g_threads g !! t with None => setThread t RLoop g | Some _ => g end
  | NewBarrier t => match g_threads g !! t with None => setThread t BSem g | Some _ => g end
  | Step t done res => match g_threads g !! t with Some p => threadStep t p done res g | None => g end
  | LeaseGone => setWorld (g_closed g) (g_generation g) false g
  | GenerationGone => setWorld (g_closed g) false (g_lease g) g
  | MarkLost => setLost g
  | Close => setLost (setWorld true (g_generation g) (g_lease g) g)
  end.

Definition gateRun (ms : list gateMove) (g : gate) : gate := foldl (λ g m, gateStep m g) g ms.

(** * The invariant *)

Definition admitted (p : place) : bool :=
  match p with RCheck | RWork | RFinish | RLeave _ => true | _ => false end.
Definition holdsBarrier (p : place) : bool :=
  match p with BLock | BWait _ | BAgain | BStop | BCheck | BResume _ | BRelease _ => true | _ => false end.
Definition pausing (p : place) : bool :=
  match p with BWait _ | BAgain | BStop | BCheck | BResume _ => true | _ => false end.
Definition holdsMu (p : place) : bool := match p with BCheck | BResume _ => true | _ => false end.

Definition at_place (f : place → bool) (g : gate) (t : nat) : Prop := ∃ p, g_threads g !! t = Some p ∧ f p = true.

(** Whoever waits on the current channel has a reason to. *)
Definition waits_well (g : gate) (p : place) : Prop :=
  match p with
  | RWait ch => ch ≤ g_changed g ∧ (ch = g_changed g → g_paused g = true)
  | BWait ch => ch ≤ g_changed g ∧ (ch = g_changed g → 0 < g_active g)
  | _ => True
  end.

Record gate_ok (g : gate) : Prop := {
  go_active : ∃ A : gset nat, size A = g_active g ∧ ∀ t, t ∈ A ↔ at_place admitted g t;
  go_barrier t : g_barrier g = Some t ↔ at_place holdsBarrier g t;
  go_paused : g_paused g = true ↔ ∃ t, at_place pausing g t;
  go_mu t : g_mu g = Some t ↔ at_place holdsMu g t;
  go_drained t : g_mu g = Some t → g_active g = 0;
  go_waits t p : g_threads g !! t = Some p → waits_well g p
}.

Lemma at_setThread f g t p u : at_place f (setThread t p g) u ↔ (u = t ∧ f p = true) ∨ (u ≠ t ∧ at_place f g u).
Proof.
  unfold at_place. simpl. destruct (decide (u = t)) as [->|Hu].
  - rewrite lookup_insert_eq. naive_solver.
  - rewrite lookup_insert_ne by done. naive_solver.
Qed.

Lemma at_here f g t p : g_threads g !! t = Some p → at_place f g t ↔ f p = true.
Proof. intros H. unfold at_place. rewrite H. naive_solver. Qed.

(** A thread that takes, keeps or gives up what a flag stands for. *)
Definition hands {A} (before after : bool) (mine none old : A) : A :=
  if after then mine else if before then none else old.

(** One thread moves from [p] to [p'], and the fields follow. *)
Record moves (g g' : gate) (t : nat) (p p' : place) : Prop := {
  mv_from : default (BDone None) (g_threads g !! t) = p;
  mv_threads : g_threads g' = <[t := p']> (g_threads g);
  mv_active : g_active g' + Nat.b2n (admitted p) = g_active g + Nat.b2n (admitted p');
  mv_barrier : g_barrier g' = hands (holdsBarrier p) (holdsBarrier p') (Some t) None (g_barrier g);
  mv_takes_barrier : holdsBarrier p' = true → holdsBarrier p = true ∨ g_barrier g = None;
  mv_paused : g_paused g' = hands (pausing p) (pausing p') true false (g_paused g);
  mv_mu : g_mu g' = hands (holdsMu p) (holdsMu p') (Some t) None (g_mu g);
  mv_takes_mu : holdsMu p' = true → holdsMu p = true ∨ g_mu g = None;
  mv_drained : g_mu g' ≠ None → g_active g' = 0;
  mv_waits : waits_well g' p';
  mv_others : g_changed g < g_changed g' ∨
    g_changed g' = g_changed g ∧ (g_paused g = true → g_paused g' = true) ∧ (0 < g_active g → 0 < g_active g')
}.

Lemma from_place f g t p : default (BDone None) (g_threads g !! t) = p → f (BDone None) = false →
  at_place f g t ↔ f p = true.
Proof.
  intros <- Hf. unfold at_place. destruct (g_threads g !! t) as [q|]; simpl; [naive_solver|]. rewrite Hf. naive_solver.
Qed.

Lemma at_moved f g g' t p p' u : moves g g' t p p' →
  at_place f g' u ↔ (u = t ∧ f p' = true) ∨ (u ≠ t ∧ at_place f g u).
Proof.
  intros Hm. unfold at_place. rewrite (mv_threads _ _ _ _ _ Hm). destruct (decide (u = t)) as [->|Hu].
  - rewrite lookup_insert_eq. naive_solver.
  - rewrite lookup_insert_ne by done. naive_solver.
Qed.

(** A field that names the one thread with a flag still does. *)
Lemma owner_moved f (own : gate → option nat) g g' t p p' :
  f (BDone None) = false → (∀ u, own g = Some u ↔ at_place f g u) → moves g g' t p p' →
  own g' = hands (f p) (f p') (Some t) None (own g) → (f p' = true → f p = true ∨ own g = None) →
  ∀ u, own g' = Some u ↔ at_place f g' u.
Proof.
  intros Hf Ho Hm E Ht u. rewrite (at_moved f _ _ _ _ _ u Hm), E. unfold hands.
  pose proof (Ho t) as Hot. rewrite (from_place f g t p (mv_from _ _ _ _ _ Hm) Hf) in Hot.
  destruct (f p') eqn:E'.
  - split; [intros [= <-]; by left|]. intros [[-> _]|[Hu Hp]]; [done|]. apply Ho in Hp. exfalso.
    destruct (Ht eq_refl) as [Hfp|Hn]; [apply Hot in Hfp; congruence|congruence].
  - destruct (f p) eqn:E2.
    + split; [done|]. intros [[_ ?]|[Hu Hp]]; [done|]. apply Ho in Hp. rewrite (proj2 Hot eq_refl) in Hp. congruence.
    + rewrite Ho. split; [|naive_solver]. intros Hp. right. split; [|done]. intros ->. apply Ho in Hp. apply Hot in Hp. done.
Qed.

Lemma moves_ok g g' t p p' : gate_ok g → moves g g' t p p' → gate_ok g'.
Proof.
  intros [(A & HA & Hin) Hb Hp Hmu Hd Hw] Hm. pose proof (mv_from _ _ _ _ _ Hm) as Hfrom.
  assert (∀ u, at_place pausing g u → g_barrier g = Some u) as Hpb.
  { intros u (q & Hq & Hpq). apply Hb. exists q. split; [done|]. by destruct q. }
  split.
  - pose proof (mv_active _ _ _ _ _ Hm) as Ha. pose proof (Hin t) as Ht. rewrite (from_place admitted g t p Hfrom eq_refl) in Ht.
    destruct (admitted p') eqn:E'.
    + exists ({[t]} ∪ A). split.
      * destruct (admitted p); simpl in Ha.
        -- rewrite subseteq_union_1_L by (apply singleton_subseteq_l; by apply Ht). lia.
        -- rewrite size_union by (apply disjoint_singleton_l; intros ?%Ht; done). rewrite size_singleton. lia.
      * intros u. rewrite (at_moved admitted _ _ _ _ _ u Hm), elem_of_union, elem_of_singleton, Hin, E'.
        destruct (decide (u = t)) as [->|Hu]; [split; auto|]. split; [intros [?|?]; [done|by right; split]|intros [[]|[]]; [done|by right]].
    + exists (A ∖ {[t]}). split.
      * destruct (admitted p); simpl in Ha.
        -- assert (t ∈ A) as HtA by (by apply Ht).
           assert (size A ≠ 0)%nat by (intros HE%size_empty_inv; by apply HE, not_elem_of_empty in HtA).
           rewrite size_difference by (apply singleton_subseteq_l; by apply Ht). rewrite size_singleton. lia.
        -- rewrite difference_disjoint_L by (apply disjoint_singleton_r; intros ?%Ht; done). lia.
      * intros u. rewrite (at_moved admitted _ _ _ _ _ u Hm), elem_of_difference, elem_of_singleton, Hin, E'.
        split; [intros []; by right; split|intros [[]|[]]; [done|by split]].
  - eapply (owner_moved holdsBarrier g_barrier); [done|done|exact Hm|apply Hm|apply Hm].
  - rewrite (mv_paused _ _ _ _ _ Hm). unfold hands. setoid_rewrite (λ u, at_moved pausing _ _ _ _ _ u Hm).
    destruct (pausing p') eqn:E'; [split; [intros _; exists t; by left|done]|]. destruct (pausing p) eqn:E2.
    + split; [done|]. intros (u & [[_ ?]|[Hu Hpu]]); [done|]. apply Hpb in Hpu. apply (from_place pausing g t p Hfrom eq_refl), Hpb in E2. congruence.
    + rewrite Hp. split; [|naive_solver]. intros (u & Hu). exists u. right. split; [|done]. intros ->.
      apply (from_place pausing g t p Hfrom eq_refl) in Hu. congruence.
  - eapply (owner_moved holdsMu g_mu); [done|done|exact Hm|apply Hm|apply Hm].
  - intros u Hu. apply Hm. congruence.
  - intros u q. rewrite (mv_threads _ _ _ _ _ Hm). destruct (decide (u = t)) as [->|Hu].
    + rewrite lookup_insert_eq. intros [= <-]. apply Hm.
    + rewrite lookup_insert_ne by done. intros Hq%Hw. destruct (mv_others _ _ _ _ _ Hm) as [?|(E & H1 & H2)];
        destruct q; simpl in *; try done; rewrite ?E; intuition lia.
Qed.

Lemma gate_ok_fields g g' :
  g_threads g' = g_threads g → g_active g' = g_active g → g_barrier g' = g_barrier g → g_paused g' = g_paused g →
  g_mu g' = g_mu g → g_changed g' = g_changed g → gate_ok g → gate_ok g'.
Proof.
  intros Et Ea Eb Ep Em Ec [H1 H2 H3 H4 H5 H6].
  assert (∀ f u, at_place f g' u ↔ at_place f g u) as Hat by (intros; unfold at_place; by rewrite Et).
  split.
  - destruct H1 as (A & HA & Hin). exists A. rewrite Ea. split; [done|]. intros u. by rewrite Hat.
  - intros u. by rewrite Eb, Hat.
  - rewrite Ep, H3. by setoid_rewrite Hat.
  - intros u. by rewrite Em, Hat.
  - intros u. rewrite Em, Ea. apply H5.
  - intros u p. rewrite Et. intros Hp. specialize (H6 u p Hp). destruct p; simpl in *; try done; rewrite ?Ep, ?Ea, ?Ec; done.
Qed.

Lemma checkSession_ok g : gate_ok g → gate_ok (checkSession g).2.
Proof. intros. unfold checkSession. repeat case_match; try done. by eapply gate_ok_fields; [..|done]. Qed.

Lemma checkSession_same g : ∀ f : gate → gmap nat place, f = g_threads → f (checkSession g).2 = f g.
Proof. intros ? ->. unfold checkSession. by repeat case_match. Qed.

Ltac gate_move := split; simpl; try done; try lia; try (by auto); try (by left); try (by right).

Lemma setThread_ok g t p p' : gate_ok g → g_threads g !! t = Some p →
  (∀ f : place → bool, f = admitted ∨ f = holdsBarrier ∨ f = pausing ∨ f = holdsMu → f p' = f p) →
  waits_well g p' → gate_ok (setThread t p' g).
Proof.
  intros Hok Hp Hf Hw. apply (moves_ok g _ t p p' Hok).
  pose proof (Hf admitted ltac:(tauto)) as E1. pose proof (Hf holdsBarrier ltac:(tauto)) as E2.
  pose proof (Hf pausing ltac:(tauto)) as E3. pose proof (Hf holdsMu ltac:(tauto)) as E4.
  assert (∀ f, f p = true → at_place f g t) as Hat by (intros f E; by exists p).
  split; simpl; unfold hands; rewrite ?E1, ?E2, ?E3, ?E4; try done.
  - by rewrite Hp.
  - destruct (holdsBarrier p) eqn:E; [|done]. by apply Hok, Hat.
  - by left.
  - destruct (pausing p) eqn:E; [|done]. apply (go_paused g Hok). eauto.
  - destruct (holdsMu p) eqn:E; [|done]. by apply Hok, Hat.
  - by left.
  - destruct (g_mu g) as [u|] eqn:Eu; [|done]. intros _. by apply (go_drained g Hok u).
  - right. auto.
Qed.

Ltac flags := let f := fresh in intros f [-> | [-> | [-> | ->]]]; reflexivity.

Lemma drain_moves t p g : gate_ok g → g_threads g !! t = Some p → (p = BLock ∨ p = BAgain) → g_mu g = None →
  g_paused g = true ∨ p = BLock → 
  gate_ok (drain t (setGate true (g_active g) (g_changed g) (g_mu g) g)).
Proof.
  intros Hok Hp Hpl Hmu Hpa.
  assert (holdsBarrier p = true ∧ holdsMu p = false ∧ admitted p = false) as (HB & HM & HA) by (destruct Hpl as [-> | ->]; done).
  assert (g_barrier g = Some t) as Hbar by (apply Hok; by exists p).
  unfold drain. simpl. destruct (Nat.ltb_spec 0 (g_active g)).
  - apply (moves_ok g _ t p (BWait (g_changed g)) Hok). split; simpl; unfold hands; rewrite ?HB, ?HM, ?HA, ?Hp, ?Hmu; auto; try done.
  - apply (moves_ok g _ t p BCheck Hok). split; simpl; unfold hands; rewrite ?HB, ?HM, ?HA, ?Hp, ?Hmu; auto; try lia.
Qed.

Lemma resume_moves t p err g : gate_ok g → g_threads g !! t = Some p → pausing p = true →
  g_mu g = None ∨ holdsMu p = true → gate_ok (resume t err g).
Proof.
  intros Hok Hp Hpa Hmu.
  assert (holdsBarrier p = true ∧ admitted p = false) as (HB & HA) by (destruct p; done).
  assert (g_barrier g = Some t) as Hbar by (apply Hok; by exists p).
  apply (moves_ok g _ t p (BRelease err) Hok). unfold resume. split; simpl; unfold hands; rewrite ?HB, ?HA, ?Hpa, ?Hp; auto; try done.
  destruct (holdsMu p) eqn:E; [done|]. destruct Hmu; [done|congruence].
Qed.

Lemma threadStep_ok t p done res g : gate_ok g → g_threads g !! t = Some p → gate_ok (threadStep t p done res g).
Proof.
  intros Hok Hp. pose proof (go_waits g Hok t p Hp) as Hw.
  assert (∀ f, f p = true → at_place f g t) as Hat by (intros f E; by exists p).
  destruct p; simpl in *; try done.
  - destruct (g_mu g) eqn:Emu; [done|]. destruct (g_paused g) eqn:Epa.
    + apply (setThread_ok _ _ RLoop); [done..|flags|simpl; auto].
    + apply (moves_ok g _ t RLoop RCheck Hok). split; simpl; unfold hands; rewrite ?Hp, ?Emu, ?Epa; auto; try lia; done.
  - destruct done; [apply (setThread_ok _ _ _ _ Hok Hp); [flags|done]|].
    repeat case_match; try done; apply (setThread_ok _ _ _ _ Hok Hp); [flags|done|flags|done].
  - pose proof (checkSession_ok g Hok) as Hc. pose proof (checkSession_same g _ eq_refl) as Hs.
    destruct (checkSession g) as [err g']. simpl in *. apply (setThread_ok _ _ RCheck); [done|by rewrite Hs|destruct err; flags|by destruct err].
  - apply (setThread_ok _ _ RWork); [done..|destruct res; flags|by destruct res].
  - pose proof (checkSession_ok g Hok) as Hc. pose proof (checkSession_same g _ eq_refl) as Hs.
    destruct (checkSession g) as [err g']. simpl in *. apply (setThread_ok _ _ RFinish); [done|by rewrite Hs|flags|done].
  - destruct (g_mu g) eqn:Emu; [done|].
    apply (moves_ok g _ t (RLeave err) (RDone err) Hok). split; simpl; unfold hands; rewrite ?Hp, ?Emu; auto; try done.
    destruct (go_active g Hok) as (A & HA & Hin). assert (t ∈ A) as HtA by (apply Hin, Hat; done).
    assert (size A ≠ 0)%nat by (intros HE%size_empty_inv; by apply HE, not_elem_of_empty in HtA). lia.
  - destruct (g_barrier g) eqn:Eb.
    + destruct done; [|done]. apply (setThread_ok _ _ _ _ Hok Hp); [flags|done].
    + apply (moves_ok g _ t BSem BLock Hok). split; simpl; unfold hands; rewrite ?Hp; auto; try done.
      intros Hm. destruct (g_mu g) as [u|] eqn:Eu; [|done]. by apply (go_drained g Hok u).
  - destruct (g_mu g) eqn:Emu; [done|]. rewrite <- Emu. eapply drain_moves; eauto.
  - destruct done; [apply (setThread_ok _ _ _ _ Hok Hp); [flags|done]|].
    case_match; [|done]. apply (setThread_ok _ _ _ _ Hok Hp); [flags|done].
  - destruct (g_mu g) eqn:Emu; [done|]. 
    assert (g_paused g = true) as Epa by (apply (go_paused g Hok); exists t; by apply Hat).
    pose proof (drain_moves t BAgain g Hok Hp ltac:(auto) Emu ltac:(auto)) as H. rewrite <- Epa in H. by destruct g.
  - destruct (g_mu g) eqn:Emu; [done|]. eapply resume_moves; eauto.
  - pose proof (checkSession_ok g Hok) as Hc. pose proof (checkSession_same g _ eq_refl) as Hs.
    destruct (checkSession g) as [err g']. simpl in *. apply (setThread_ok _ _ BCheck); [done|by rewrite Hs|flags|done].
  - eapply resume_moves; eauto.
  - apply (moves_ok g _ t (BRelease err) (BDone err) Hok). split; simpl; unfold hands; rewrite ?Hp; auto; try done.
    intros Hm. destruct (g_mu g) as [u|] eqn:Eu; [|done]. by apply (go_drained g Hok u).
Qed.

Lemma new_thread_ok g t p : gate_ok g → g_threads g !! t = None → admitted p = false → holdsBarrier p = false →
  waits_well g p → gate_ok (setThread t p g).
Proof.
  intros Hok Hp Ha Hb Hw.
  assert (pausing p = false ∧ holdsMu p = false) as [Hpa Hm] by (destruct p; done).
  apply (moves_ok g _ t (BDone None) p Hok). split; simpl; unfold hands; rewrite ?Hp, ?Ha, ?Hb, ?Hpa, ?Hm; auto; try done.
  - intros Hmu. destruct (g_mu g) as [u|] eqn:Eu; [|done]. by apply (go_drained g Hok u).
Qed.

Lemma gateStep_ok m g : gate_ok g → gate_ok (gateStep m g).
Proof.
  intros Hok. destruct m; simpl; try (by eapply gate_ok_fields; [..|exact Hok]).
  - case_match; [done|]. by apply new_thread_ok.
  - case_match; [done|]. by apply new_thread_ok.
  - case_match; [|done]. by apply threadStep_ok.
Qed.

Lemma newGate_ok : gate_ok newGate.
Proof.
  assert (∀ f t, ¬ at_place f newGate t) as H by (intros f t (p & Hp & _); simpl in Hp; by rewrite lookup_empty in Hp).
  split; simpl; try done.
  - exists ∅. split; [done|]. intros t. split; [set_solver|]. intros Ht. by apply H in Ht.
  - intros t. split; [done|]. intros Ht. by apply H in Ht.
  - split; [done|]. intros [t Ht]. by apply H in Ht.
  - intros t. split; [done|]. intros Ht. by apply H in Ht.
Qed.

Lemma gateRun_app ms1 ms2 g : gateRun (ms1 ++ ms2) g = gateRun ms2 (gateRun ms1 g).
Proof. apply foldl_app. Qed.

Lemma gateRun_ok ms g : gate_ok g → gate_ok (gateRun ms g).
Proof. revert g. induction ms as [|m ms IH]; intros g Hok; [done|]. apply IH, gateStep_ok, Hok. Qed.
