(* ===== verification/GateProps.v ===== *)
(** What the gate of a native session promises: a barrier that succeeds saw the
    session quiet and alive, threads never get stuck (no wake-up is lost), and
    the steps of a fixed set of threads are bounded (C5, C10, C16). *)
From S2P Require Import Prelude SessionGate.
#[local] Open Scope nat_scope.

(** * A barrier that returns saw the session quiet *)

(** Thread [t] holds [s.mu] with no request admitted, admission paused and the session alive. *)
Definition quiet (t : nat) (g : gate) : Prop :=
  g_threads g !! t = Some BCheck ∧ g_active g = 0 ∧ (∀ u, ¬ at_place admitted g u) ∧ g_paused g = true ∧
  g_lost g = false ∧ g_closed g = false ∧ g_generation g = true ∧ g_lease g = true.

Definition passed (p : place) : bool :=
  match p with BResume None | BRelease None | BDone None => true | _ => false end.

Lemma threadStep_others t p done res g u : u ≠ t → g_threads (threadStep t p done res g) !! u = g_threads g !! u.
Proof.
  intros Hu. destruct p; simpl; unfold checkSession, drain; repeat case_match; simplify_eq/=;
    rewrite ?lookup_insert_ne by done; done.
Qed.

Lemma checkSession_passes g : gate_ok g → (checkSession g).1 = None →
  g_lost g = false ∧ g_closed g = false ∧ g_generation g = true ∧ g_lease g = true.
Proof.
  unfold checkSession. destruct (g_lost g), (g_closed g), (g_generation g), (g_lease g); done.
Qed.

Lemma drained_quiet t g : gate_ok g → g_threads g !! t = Some BCheck → (checkSession g).1 = None → quiet t g.
Proof.
  intros Hok Ht Hc. assert (g_mu g = Some t) as Hmu by (apply (go_mu g Hok); by exists BCheck).
  pose proof (go_drained g Hok t Hmu) as Ha.
  split_and!; try done; try apply (checkSession_passes g Hok Hc).
  - intros u Hu. destruct (go_active g Hok) as (A & HA & Hin). rewrite Ha in HA. apply size_empty_inv in HA.
    apply Hin, HA in Hu. by apply not_elem_of_empty in Hu.
  - apply (go_paused g Hok). by exists t, BCheck.
Qed.

Lemma threadStep_passed t p done res g q : gate_ok g → g_threads g !! t = Some p →
  g_threads (threadStep t p done res g) !! t = Some q → passed q = true → passed p = true ∨ quiet t g.
Proof.
  intros Hok Hp Hq Hpq. destruct (decide (p = BCheck)) as [->|Hnc].
  - simpl in Hq. destruct (checkSession g) as [err g'] eqn:Ec. simpl in Hq. rewrite lookup_insert_eq in Hq. simplify_eq.
    destruct err; [done|]. right. apply drained_quiet; [done..|]. by rewrite Ec.
  - left. destruct p; simpl in *; unfold drain in *; repeat case_match; simplify_eq/=; rewrite ?lookup_insert_eq in *;
      simplify_eq/=; done.
Qed.

Lemma gateStep_passed m g t q : gate_ok g → g_threads (gateStep m g) !! t = Some q → passed q = true →
  (∃ p, g_threads g !! t = Some p ∧ passed p = true) ∨ quiet t g.
Proof.
  intros Hok Hq Hpq. destruct m as [u|u|u done res| | | |]; simpl in *; try (left; by exists q).
  1,2: case_match; [left; by exists q|]; simpl in Hq; destruct (decide (u = t)) as [->|Hu];
    [rewrite lookup_insert_eq in Hq; by simplify_eq|rewrite lookup_insert_ne in Hq by done; left; by exists q].
  destruct (g_threads g !! u) as [p|] eqn:Hp; [|left; by exists q].
  destruct (decide (t = u)) as [->|Hu].
  - destruct (threadStep_passed u p done res g q Hok Hp Hq Hpq); [left; by exists p|by right].
  - rewrite threadStep_others in Hq by done. left. by exists q.
Qed.

(** C5: A [Barrier] that returns without error saw the session quiet: in every schedule
    of requests, barriers, cancellations, renewals and closes, there was an instant at
    which it held the mutex with admission paused, no request between [begin] and
    [finish], and the session neither lost nor closed, its generation and its lease in
    place. *)
Theorem barrier_saw_quiet_session ms t : g_threads (gateRun ms newGate) !! t = Some (BDone None) →
  ∃ ms1 ms2, ms = ms1 ++ ms2 ∧ quiet t (gateRun ms1 newGate).
Proof.
  intros Hd. assert (∃ p, g_threads (gateRun ms newGate) !! t = Some p ∧ passed p = true) as (p & Hp & Hpp) by eauto.
  clear Hd. revert p Hp Hpp. induction ms as [|m ms IH] using rev_ind; intros p Hp Hpp.
  { simpl in Hp. by rewrite lookup_empty in Hp. }
  rewrite gateRun_app in Hp. simpl in Hp. apply gateStep_passed in Hp as [(q & Hq & Hqq)|Hq]; [|..|done].
  - destruct (IH q Hq Hqq) as (ms1 & ms2 & -> & H). exists ms1, (ms2 ++ [m]). by rewrite app_assoc.
  - by exists ms, [m].
  - apply gateRun_ok, newGate_ok.
Qed.

(** A request is admitted and works while the barrier drains. *)
Definition sampleMoves : list gateMove :=
  [NewRequest 0; Step 0 false None; NewBarrier 1; Step 1 false None; Step 1 false None; Step 0 false None;
   NewRequest 2; Step 2 false None; Step 0 false None; Step 0 false None; Step 0 false None; Step 1 false None;
   Step 1 false None; Step 1 false None; Step 1 false None; Step 1 false None].

Lemma barrier_saw_quiet_session_witness :
  g_threads (gateRun sampleMoves newGate) !! 1 = Some (BDone None) ∧
  ∃ ms1 ms2, sampleMoves = ms1 ++ ms2 ∧ quiet 1 (gateRun ms1 newGate).
Proof. split; [reflexivity|]. apply (barrier_saw_quiet_session sampleMoves 1). reflexivity. Defined.

(** * The measure *)

(** How many notifications a thread may still send, and how far it is from its end
    when the current channel is [ch]. *)
Definition owes (p : place) : nat := match p with RDone _ | BRelease _ | BDone _ => 0 | _ => 1 end.
Definition rank (cur : nat) (p : place) : nat :=
  match p with
  | RLoop => 6 | RWait ch => if ch <? cur then 7 else 5
  | RCheck => 4 | RWork => 3 | RFinish => 2 | RLeave _ => 1 | RDone _ => 0
  | BSem => 9 | BLock => 8 | BWait ch => if ch <? cur then 7 else 5
  | BAgain => 6 | BStop => 4 | BCheck => 3 | BResume _ => 2 | BRelease _ => 1 | BDone _ => 0
  end.

Definition total (f : place → nat) (m : gmap nat place) : nat := sum_list_with (λ tp, f tp.2) (map_to_list m).
Definition work (g : gate) : nat :=
  total owes (g_threads g) * (2 * size (g_threads g) + 1) + total (rank (g_changed g)) (g_threads g).

Lemma total_at f m t p : m !! t = Some p → total f m = f p + total f (delete t m).
Proof. intros H. unfold total. by rewrite <- (map_to_list_delete m t p H). Qed.

Lemma total_set f m t p : total f (<[t := p]> m) = f p + total f (delete t m).
Proof. rewrite (total_at f _ t p) by apply lookup_insert_eq. by rewrite delete_insert_eq. Qed.

Lemma sum_bound {A} (f h : A → nat) k l : (∀ x, f x ≤ h x + k) → sum_list_with f l ≤ sum_list_with h l + k * length l.
Proof. intros H. induction l as [|x l IH]; simpl; [lia|]. pose proof (H x). lia. Qed.

Lemma total_bound f h k m : (∀ p, f p ≤ h p + k) → total f m ≤ total h m + k * size m.
Proof. intros H. unfold total. rewrite <- length_map_to_list. by apply sum_bound. Qed.

Lemma rank_later cur cur' p : cur ≤ cur' → rank cur' p ≤ rank cur p + 2.
Proof. intros. destruct p; simpl; repeat case_match; lia. Qed.

Lemma work_moves g g' t p p' : g_threads g !! t = Some p → g_threads g' = <[t := p']> (g_threads g) →
  (g_changed g' = g_changed g ∧ owes p' ≤ owes p ∧ rank (g_changed g) p' < rank (g_changed g) p) ∨
  (g_changed g' = S (g_changed g) ∧ owes p' < owes p ∧ rank (g_changed g') p' < rank (g_changed g) p) →
  work g' < work g.
Proof.
  intros Hp Ht H. unfold work. rewrite Ht, map_size_insert_Some, !total_set by (rewrite ?Hp; eauto).
  rewrite (total_at owes _ t p Hp), (total_at (rank (g_changed g)) _ t p Hp).
  set (rest := delete t (g_threads g)). assert (size rest ≤ size (g_threads g)) as Hs.
  { unfold rest. rewrite <- (insert_delete_id (g_threads g) t p Hp) at 2. rewrite map_size_insert_None by apply lookup_delete_eq. lia. }
  destruct H as [(-> & H1 & H2)|(-> & H1 & H2)]; [nia|].
  pose proof (total_bound (rank (S (g_changed g))) (rank (g_changed g)) 2 rest (λ q, rank_later _ _ q (Nat.le_succ_diag_r _))). nia.
Qed.

Lemma work_fields g g' : g_threads g' = g_threads g → g_changed g' = g_changed g → work g' = work g.
Proof. unfold work. by intros -> ->. Qed.

Lemma checkSession_work g : work (checkSession g).2 = work g ∧ g_threads (checkSession g).2 = g_threads g ∧
  g_changed (checkSession g).2 = g_changed g.
Proof. unfold checkSession. by repeat case_match. Qed.

(** A step of a thread either leaves everything as it was or lowers the measure. *)
Lemma threadStep_work t p done res g : gate_ok g → g_threads g !! t = Some p →
  threadStep t p done res g = g ∨ work (threadStep t p done res g) < work g.
Proof.
  intros Hok Hp. pose proof (go_waits g Hok t p Hp) as Hw.
  assert (∀ p', owes p' ≤ owes p → rank (g_changed g) p' < rank (g_changed g) p → ∀ g', g_threads g' = <[t := p']> (g_threads g) →
    g_changed g' = g_changed g → work g' < work g) as Hplain by (intros; eapply work_moves; eauto).
  assert (∀ p', owes p' < owes p → ∀ g', rank (g_changed g') p' < rank (g_changed g) p → g_threads g' = <[t := p']> (g_threads g) →
    g_changed g' = S (g_changed g) → work g' < work g) as Hnotify by (intros; eapply work_moves; eauto).
  pose proof (checkSession_work g) as (_ & Hct & Hcc).
  destruct p; simpl in *; unfold drain in *; try (destruct (checkSession g) as [err' g2]; simpl in *);
    repeat case_match; try (by left); right;
    try (eapply Hplain; [..|simpl; try rewrite Hct; reflexivity|simpl; congruence]; simpl; rewrite ?Nat.ltb_irrefl; repeat case_match; try lia);
    try (eapply Hnotify; [..|simpl; reflexivity|simpl; reflexivity]; simpl; lia).
Qed.

(** * The steps of a fixed set of threads are bounded *)

Definition moved (m : gateMove) (g : gate) : bool := bool_decide (g_threads (gateStep m g) ≠ g_threads g).
Fixpoint movedCount (ms : list gateMove) (g : gate) : nat :=
  match ms with [] => 0 | m :: ms => Nat.b2n (moved m g) + movedCount ms (gateStep m g) end.
Definition arrives (m : gateMove) : bool := match m with NewRequest _ | NewBarrier _ => true | _ => false end.

Lemma gateStep_work m g : gate_ok g → arrives m = false → work (gateStep m g) + Nat.b2n (moved m g) ≤ work g.
Proof.
  intros Hok Hm. unfold moved. destruct m as [u|u|u done res| | | |]; simpl in *; try discriminate Hm;
    try (rewrite bool_decide_false by (by intros Hn; apply Hn); change (work g + 0 ≤ work g); lia).
  destruct (g_threads g !! u) as [p|] eqn:Hp; [|rewrite bool_decide_false by (by intros Hn; apply Hn); simpl; lia].
  destruct (threadStep_work u p done res g Hok Hp) as [->|H]; [rewrite bool_decide_false by (by intros Hn; apply Hn); simpl; lia|].
  destruct (bool_decide _); simpl; lia.
Qed.

Lemma movedCount_work ms g : gate_ok g → Forall (λ m, arrives m = false) ms → movedCount ms g ≤ work g.
Proof.
  intros Hok Hms. revert g Hok. induction Hms as [|m ms Hm _ IH]; intros g Hok; simpl; [lia|].
  pose proof (gateStep_work m g Hok Hm). pose proof (IH _ (gateStep_ok m g Hok)). lia.
Qed.

Lemma total_const f k m : (∀ p, f p ≤ k) → total f m ≤ k * size m.
Proof.
  intros H. unfold total. rewrite <- length_map_to_list. induction (map_to_list m) as [|x l IH]; simpl; [lia|].
  pose proof (H x.2). lia.
Qed.

(** C16: The gate does not spin: whatever the schedule, once no new thread arrives,
    [n] threads make at most 2n^2 + 10n steps that change where they are (a wake-up
    that finds the session paused again, or the drain not over, included), however
    often they are scheduled and whatever the world does meanwhile. *)
Theorem gate_steps_bounded ms0 ms (g := gateRun ms0 newGate) (n := size (g_threads g)) :
  Forall (λ m, arrives m = false) ms → movedCount ms g ≤ 2 * n * n + 10 * n.
Proof.
  intros Hms. pose proof (movedCount_work ms g (gateRun_ok ms0 _ newGate_ok) Hms) as H.
  assert (total owes (g_threads g) ≤ 1 * n) as H1 by (apply total_const; intros p; destruct p; simpl; lia).
  assert (total (rank (g_changed g)) (g_threads g) ≤ 9 * n) as H2.
  { apply total_const. intros p. destruct p; simpl; repeat case_match; lia. }
  unfold work in H. fold n in H. nia.
Qed.

Lemma gate_steps_bounded_witness :
  Forall (λ m, arrives m = false) [Step 0 false None; Step 1 true None; LeaseGone; Step 0 false None] ∧
  movedCount [Step 0 false None; Step 1 true None; LeaseGone; Step 0 false None] (gateRun (take 7 sampleMoves) newGate) ≤ 48.
Proof.
  split; [by repeat constructor|].
  apply (gate_steps_bounded (take 7 sampleMoves) [Step 0 false None; Step 1 true None; LeaseGone; Step 0 false None]).
  by repeat constructor.
Defined.

(** * No wake-up is lost *)

Definition finished (p : place) : bool := match p with RDone _ | BDone _ => true | _ => false end.

(** A thread that can move on its own. *)
Definition ready (g : gate) (p : place) : bool :=
  let free := bool_decide (g_mu g = None) in
  match p with
  | RLoop | RLeave _ | BLock | BAgain | BStop => free
  | RWait ch | BWait ch => ch <? g_changed g
  | BSem => bool_decide (g_barrier g = None)
  | RDone _ | BDone _ => false
  | _ => true
  end.

Lemma ready_moves t p g : g_threads g !! t = Some p → ready g p = true → g_threads (gateStep (Step t false None) g) ≠ g_threads g.
Proof.
  intros Hp Hr E. simpl in E. rewrite Hp in E. apply (f_equal (lookup t)) in E. rewrite Hp in E. revert E.
  pose proof (checkSession_work g) as (_ & Hct & _).
  destruct p; simpl in *; unfold drain; try (apply bool_decide_eq_true in Hr; rewrite Hr); try rewrite Hr; simpl;
    try (destruct (checkSession g) as [err' g2]; simpl in * ); repeat case_match; simpl; rewrite ?lookup_insert_eq; congruence.
Qed.

(** Who can move when nobody else can: the holder of the mutex, then the admitted
    requests, then the barrier under way, then everybody. *)
Lemma someone_ready g t p : gate_ok g → g_threads g !! t = Some p → finished p = false →
  ∃ u q, g_threads g !! u = Some q ∧ ready g q = true.
Proof.
  intros Hok Hp Hf. destruct (g_mu g) as [u|] eqn:Emu.
  { apply (go_mu g Hok) in Emu as (q & Hq & Hm). exists u, q. by destruct q. }
  assert (bool_decide (g_mu g = None) = true) as Hfree by (by apply bool_decide_eq_true).
  destruct (g_active g) as [|n] eqn:Ea.
  2:{ destruct (go_active g Hok) as (A & HA & Hin). destruct (set_choose_L A) as [u Hu].
      { intros ->. rewrite size_empty in HA. lia. }
      apply Hin in Hu as (q & Hq & Ha). exists u, q. split; [done|]. destruct q; simpl in *; try done. }
  destruct (g_barrier g) as [u|] eqn:Eb.
  { apply (go_barrier g Hok) in Eb as (q & Hq & Hb). exists u, q. split; [done|].
    pose proof (go_waits g Hok u q Hq) as Hw. destruct q; simpl in *; try done. apply Nat.ltb_lt. lia. }
  assert (g_paused g = false) as Epa.
  { apply not_true_iff_false. intros Hpa. apply (go_paused g Hok) in Hpa as (u & q & Hq & Hqp).
    assert (g_barrier g = Some u) by (apply (go_barrier g Hok); exists q; by destruct q). congruence. }
  exists t, p. split; [done|]. pose proof (go_waits g Hok t p Hp) as Hw.
  assert (∀ f, f p = true → at_place f g t) as Hat by (intros f E; by exists p).
  destruct p; simpl in *; try done; try (apply Nat.ltb_lt); try lia.
  by apply bool_decide_eq_true.
Qed.

(** C10: No wake-up is lost: when no thread of the gate can move on its own (every
    context still open, every operation succeeding), all of them are finished,
    admission is open, and neither the mutex nor the barrier is held, so the next
    request is admitted at once. With the bound on steps: whatever the schedule, every
    request and every [Barrier] comes to its end. *)
Theorem gate_never_stuck ms (g := gateRun ms newGate) :
  (∀ t, g_threads (gateStep (Step t false None) g) = g_threads g) →
  (∀ t p, g_threads g !! t = Some p → finished p = true) ∧
  g_paused g = false ∧ g_mu g = None ∧ g_barrier g = None ∧ g_active g = 0.
Proof.
  intros Hstuck. assert (gate_ok g) as Hok by apply gateRun_ok, newGate_ok.
  assert (∀ t p, g_threads g !! t = Some p → finished p = true) as Hall.
  { intros t p Hp. apply not_false_iff_true. intros Hf. destruct (someone_ready g t p Hok Hp Hf) as (u & q & Hq & Hr).
    by apply (ready_moves u q g Hq Hr). }
  split; [done|]. split_and!.
  - apply not_true_iff_false. intros Hpa. apply (go_paused g Hok) in Hpa as (u & q & Hq & Hqp). specialize (Hall u q Hq). by destruct q.
  - destruct (g_mu g) as [u|] eqn:E; [|done]. apply (go_mu g Hok) in E as (q & Hq & Hqp). specialize (Hall u q Hq). by destruct q.
  - destruct (g_barrier g) as [u|] eqn:E; [|done]. apply (go_barrier g Hok) in E as (q & Hq & Hqp). specialize (Hall u q Hq). by destruct q.
  - destruct (go_active g Hok) as (A & HA & Hin). destruct (decide (g_active g = 0)) as [|Hne]; [done|].
    destruct (set_choose_L A) as [u Hu]; [intros ->; rewrite size_empty in HA; lia|].
    apply Hin in Hu as (q & Hq & Hqp). specialize (Hall u q Hq). by destruct q.
Qed.

Definition settledMoves : list gateMove := sampleMoves ++ [Step 2 false None; Step 2 false None; Step 2 false None; Step 2 false None; Step 2 false None; Step 2 false None].

Lemma gate_never_stuck_witness : g_paused (gateRun settledMoves newGate) = false.
Proof.
  refine (proj1 (proj2 (gate_never_stuck settledMoves _))).
  intros t. destruct (decide (t = 0)) as [->|]; [by vm_compute|]. destruct (decide (t = 1)) as [->|]; [by vm_compute|].
  destruct (decide (t = 2)) as [->|]; [by vm_compute|].
  assert (g_threads (gateRun settledMoves newGate) = {[0 := RDone None; 1 := BDone None; 2 := RDone None]}) as E by (by vm_compute).
  unfold gateStep. by rewrite E, !lookup_insert_ne, lookup_singleton_ne by done.
Defined.
