(* ===== verification/Base64.v ===== *)
(** Go's encoding/base64, [StdEncoding], as the manifests of checkpoints use it:
    encoding, decoding (line breaks are skipped) and that they are inverse. *)
From Stdlib Require Import Strings.Byte.
From S2P Require Import Prelude Content.
#[local] Open Scope N_scope.

(** * The alphabet *)

Definition b64char (n : N) : ascii :=
  if n <? 26 then ascii_of_N (65 + n)
  else if n <? 52 then ascii_of_N (97 + (n - 26))
  else if n <? 62 then ascii_of_N (48 + (n - 52))
  else if n =? 62 then "+"%char else "/"%char.

Definition b64value (c : ascii) : option N :=
  let k := N_of_ascii c in
  if (65 <=? k) && (k <=? 90) then Some (k - 65)
  else if (97 <=? k) && (k <=? 122) then Some (26 + (k - 97))
  else if (48 <=? k) && (k <=? 57) then Some (52 + (k - 48))
  else if k =? 43 then Some 62 else if k =? 47 then Some 63 else None.

Definition pad : ascii := "="%char.

Lemma b64value_char n : n < 64 → b64value (b64char n) = Some n.
Proof.
  intros Hn. assert (forallb (λ k, bool_decide (b64value (b64char k) = Some k)) (map N.of_nat (seq 0 64)) = true) as H
    by by vm_compute.
  rewrite forallb_forall in H. apply (bool_decide_eq_true _), H, in_map_iff. exists (N.to_nat n).
  rewrite N2Nat.id, in_seq. split; [done|lia].
Qed.

Lemma b64char_plain n : n < 64 → b64char n ≠ pad ∧ b64char n ≠ "010"%char ∧ b64char n ≠ "013"%char.
Proof.
  intros Hn.
  assert (forallb (λ k, bool_decide (b64char k ≠ pad ∧ b64char k ≠ "010"%char ∧ b64char k ≠ "013"%char))
            (map N.of_nat (seq 0 64)) = true) as H by by vm_compute.
  rewrite forallb_forall in H. apply (bool_decide_eq_true _), H, in_map_iff. exists (N.to_nat n).
  rewrite N2Nat.id, in_seq. split; [done|lia].
Qed.

(** * Groups *)

(** [byte(v)] of a wider integer. *)
Definition low_byte (v : N) : byte := default x00 (Byte.of_N (v mod 256)).

Lemma low_byte_of b v : v mod 256 = Byte.to_N b → low_byte v = b.
Proof. intros H. unfold low_byte. by rewrite H, Byte.of_to_N. Qed.

Definition group (a b c : byte) : N := Byte.to_N a * 65536 + Byte.to_N b * 256 + Byte.to_N c.
Definition digits (v : N) : list ascii :=
  [b64char (v / 262144 mod 64); b64char (v / 4096 mod 64); b64char (v / 64 mod 64); b64char (v mod 64)].

Fixpoint encode (l : bytes) : list ascii :=
  match l with
  | [] => []
  | [a] => take 2 (digits (group a x00 x00)) ++ [pad; pad]
  | [a; b] => take 3 (digits (group a b x00)) ++ [pad]
  | a :: b :: c :: l => digits (group a b c) ++ encode l
  end.

Definition EncodeToString (l : bytes) : string := String.string_of_list_ascii (encode l).

(** Four characters at a time; padding only at the end. *)
Fixpoint decode (s : list ascii) : option bytes :=
  match s with
  | [] => Some []
  | c1 :: c2 :: c3 :: c4 :: s =>
      v1 ← b64value c1; v2 ← b64value c2;
      if bool_decide (c3 = pad) then
        if bool_decide (c4 = pad ∧ s = []) then Some [low_byte ((v1 * 64 + v2) / 16)] else None
      else v3 ← b64value c3;
        if bool_decide (c4 = pad) then
          if bool_decide (s = []) then
            let v := (v1 * 64 + v2) * 64 + v3 in Some [low_byte (v / 1024); low_byte (v / 4)]
          else None
        else v4 ← b64value c4;
          let v := ((v1 * 64 + v2) * 64 + v3) * 64 + v4 in
          rest ← decode s; Some (low_byte (v / 65536) :: low_byte (v / 256) :: low_byte v :: rest)
  | _ => None
  end%list.

Definition DecodeString (s : string) : option bytes :=
  decode (filter (λ c, c ≠ "010"%char ∧ c ≠ "013"%char) (String.list_ascii_of_string s)).

(** * They are inverse *)

Lemma to_N_lt b : Byte.to_N b < 256.
Proof. pose proof (Byte.to_N_bounded b). lia. Qed.

Ltac digit := apply N.mod_lt; done.

(** The digits of a group of three bytes give the bytes back. *)
Lemma group_digits a b c (v := group a b c) :
  ((v / 262144 mod 64 * 64 + v / 4096 mod 64) * 64 + v / 64 mod 64) * 64 + v mod 64 = v.
Proof.
  unfold v, group. pose proof (to_N_lt a). pose proof (to_N_lt b). pose proof (to_N_lt c).
  zify. Z.to_euclidean_division_equations. lia.
Qed.

Lemma group_bytes a b c (v := group a b c) :
  low_byte (v / 65536) = a ∧ low_byte (v / 256) = b ∧ low_byte v = c.
Proof.
  unfold v, group. pose proof (to_N_lt a). pose proof (to_N_lt b). pose proof (to_N_lt c).
  split_and!; apply low_byte_of; zify; Z.to_euclidean_division_equations; lia.
Qed.

Lemma group_digits_two a (v := group a x00 x00) :
  low_byte ((v / 262144 mod 64 * 64 + v / 4096 mod 64) / 16) = a.
Proof.
  unfold v, group. change (Byte.to_N x00) with 0. pose proof (to_N_lt a).
  apply low_byte_of. zify. Z.to_euclidean_division_equations. lia.
Qed.

Lemma group_digits_three a b (v := group a b x00) (u := (v / 262144 mod 64 * 64 + v / 4096 mod 64) * 64 + v / 64 mod 64) :
  low_byte (u / 1024) = a ∧ low_byte (u / 4) = b.
Proof.
  unfold u, v, group. change (Byte.to_N x00) with 0. pose proof (to_N_lt a). pose proof (to_N_lt b).
  split; apply low_byte_of; zify; Z.to_euclidean_division_equations; lia.
Qed.

Lemma decode_encode_step l : (∀ k, (length k < length l)%nat → decode (encode k) = Some k) → decode (encode l) = Some l.
Proof.
  intros IH. destruct l as [|a [|b [|c l]]]; [done| | |].
  - cbn -[group N.mul N.div N.modulo N.add]. rewrite !b64value_char by digit. cbn [mbind option_bind].
    rewrite group_digits_two. done.
  - cbn -[group N.mul N.div N.modulo N.add]. rewrite !b64value_char by digit. cbn [mbind option_bind].
    rewrite bool_decide_eq_false_2 by (apply b64char_plain; digit).
    by destruct (group_digits_three a b) as [-> ->].
  - cbn -[group N.mul N.div N.modulo N.add]. rewrite !b64value_char by digit. cbn [mbind option_bind].
    rewrite !bool_decide_eq_false_2 by (apply b64char_plain; digit).
    rewrite IH by (simpl; lia). cbn [mbind option_bind]. rewrite group_digits.
    by destruct (group_bytes a b c) as (-> & -> & ->).
Qed.

Lemma decode_encode l : decode (encode l) = Some l.
Proof.
  assert (∀ n k, (length k < n)%nat → decode (encode k) = Some k) as H.
  { induction n as [|n IH]; intros k Hk; [lia|]. apply decode_encode_step. intros j Hj. apply IH. lia. }
  apply (H (S (length l))). lia.
Qed.

Lemma in_take {A} (x : A) n l : x ∈ take n l → x ∈ l.
Proof. intros (i & Hi & _)%elem_of_take. by eapply list_elem_of_lookup_2. Qed.

Lemma digits_plain v c : c ∈ digits v → c ≠ "010"%char ∧ c ≠ "013"%char.
Proof.
  unfold digits. rewrite !elem_of_cons, elem_of_nil. intros [->|[->|[->|[->|[]]]]]; apply b64char_plain; digit.
Qed.

Lemma encode_plain l c : c ∈ encode l → c ≠ "010"%char ∧ c ≠ "013"%char.
Proof.
  assert (∀ n k, (length k < n)%nat → c ∈ encode k → c ≠ "010"%char ∧ c ≠ "013"%char) as H.
  { induction n as [|n IH]; intros [|a [|b [|d k]]] Hk; simpl in Hk; try lia; cbn [encode].
    - by intros ?%elem_of_nil.
    - rewrite elem_of_app, !elem_of_cons. intros [Hc|[->|[->|?%elem_of_nil]]]; try done.
      eapply digits_plain, in_take, Hc.
    - rewrite elem_of_app, !elem_of_cons. intros [Hc|[->|?%elem_of_nil]]; try done.
      eapply digits_plain, in_take, Hc.
    - rewrite elem_of_app. intros [Hc|Hc]; [by eapply digits_plain|]. apply (IH k); [lia|done]. }
  apply (H (S (length l))). lia.
Qed.

Lemma filter_keeps {A} (P : A → Prop) `{!∀ x, Decision (P x)} l : Forall P l → filter P l = l.
Proof. induction 1 as [|x l Hx _ IH]; [done|]. rewrite filter_cons_True by done. by rewrite IH. Qed.

Lemma DecodeString_EncodeToString l : DecodeString (EncodeToString l) = Some l.
Proof.
  unfold DecodeString, EncodeToString. rewrite String.list_ascii_of_string_of_list_ascii.
  rewrite filter_keeps; [apply decode_encode|]. apply Forall_forall. intros c. apply encode_plain.
Qed.

Lemma EncodeToString_empty l : EncodeToString l = "" ↔ l = [].
Proof. split; [|by intros ->]. by destruct l as [|a [|b [|c l]]]. Qed.
