(* ===== verification/RootNodes.v ===== *)
(** internal/controlplane/workspace_root.go: a checkpoint's manifest written out as
    the live tree of a workspace (C18).

    The entries are completed with their directories, ordered by depth, numbered,
    and written by pipelines of bounded size; a pipeline is a list of commands on
    the state of FsState.  The workspace has no file history, so that a node has
    no history binding.  [mapOrder] stands for the orders of ranges over maps and
    [SliceSort] for [sort.Slice]; the blobs of the store and the cache of an
    import are functions from names to bodies. *)
From Stdlib Require Import Strings.Byte.
From S2P Require Import Prelude Content Paths FsState FsTree FsScripts FsClient ServerDiff Base64.
#[local] Open Scope string_scope.
#[local] Open Scope list_scope.
#[local] Open Scope Z_scope.

(** * Data *)

Record Manifest := {
  mn_Version : Z; mn_Workspace : string; mn_Savepoint : string; mn_Entries : manifest
}.

Record workspaceFSNode := {
  wn_ID : string; wn_Path : string; wn_ParentID : string; wn_Name : string; wn_Entry : ManifestEntry
}.

Inductive rootError :=
| RootNotDir
| MissingParent (p parent : string)
| NonDirectoryParent (p parent : string)
| MissingParentInode (p parent : string)
| MissingRootEntry
| UnsupportedType (ty : string)
| NoFileData
| BadInline
| BlobMissing (blobID : string)
| LoadFailed (e : contentError).

(** [rediscontent.PreferredRef]. *)
Definition PreferredRef (arrays : bool) : string := if arrays then RefArray else RefExternal.

Definition workspaceFSRootInodeID : string := "1".
Definition workspaceFSWriteBatchEntries : Z := 128.
Definition workspaceFSWriteBatchBytes : Z := Z.shiftl 4 20.

Definition manifestDir (mode : Z) : ManifestEntry :=
  {| mf_Type := "dir"; mf_Mode := mode; mf_MtimeMs := 0; mf_Size := 0; mf_BlobID := ""; mf_Inline := "";
     mf_Target := "" |}.

Definition withTypeMode (ty : string) (mode : Z) (e : ManifestEntry) : ManifestEntry :=
  {| mf_Type := ty; mf_Mode := mode; mf_MtimeMs := mf_MtimeMs e; mf_Size := mf_Size e; mf_BlobID := mf_BlobID e;
     mf_Inline := mf_Inline e; mf_Target := mf_Target e |}.

Definition manifestEntryModeForWorkspaceFS (e : ManifestEntry) : Z :=
  if bool_decide (mf_Type e = "dir") then if mf_Mode e =? 0 then 493 else mf_Mode e
  else if bool_decide (mf_Type e = "symlink") then if mf_Mode e =? 0 then 511 else mf_Mode e
  else if mf_Mode e =? 0 then 420 else mf_Mode e.

(** * Paths *)

Definition workspaceFSNormalizePath (p : string) : string :=
  if bool_decide (p = "") then "/"
  else
    let p := if HasPrefix p "/" then p else "/" +:+ p in
    let clean := Clean p in
    if bool_decide (clean = ".") then "/" else clean.

Definition workspaceFSParentPath (p : string) : string :=
  let p := workspaceFSNormalizePath p in
  if bool_decide (p = "/") then "/"
  else let parent := Dir p in if bool_decide (parent = ".") then "/" else parent.

Definition workspaceFSPathDepth (p : string) : nat :=
  let p := workspaceFSNormalizePath p in
  if bool_decide (p = "/") then O else S (CountSlash (TrimPrefix p "/")).

Definition workspaceFSIndexedPathAncestors (p : string) : string :=
  let trimmed := TrimSpace (workspaceFSNormalizePath p) in
  if bool_decide (trimmed = "" ∨ trimmed = "/") then "/"
  else
    let trimmed := TrimSuffix1 trimmed slash in
    match ancestors_loop "" (Split (TrimPrefix trimmed "/") slash) with
    | [] => "/"
    | ancestors => JoinWith "," ancestors
    end.

(** * The nodes of a manifest *)

(** The loop over the parents of a path; its fuel is the length of the path, each
    turn shortens it ([addParents_enough]). *)
Fixpoint addParents (fuel : nat) (parentPath : string) (entries : manifest) : manifest :=
  match fuel with
  | O => entries
  | S fuel =>
      if bool_decide (parentPath = "/") then entries
      else
        addParents fuel (workspaceFSParentPath parentPath)
          match entries !! parentPath with
          | Some _ => entries
          | None => <[parentPath := manifestDir 493]> entries
          end
  end.

Definition depthLess (a b : string) : bool :=
  let l := workspaceFSPathDepth a in
  let r := workspaceFSPathDepth b in
  if (l =? r)%nat then stringLess a b else (l <? r)%nat.

Section build.
Context `{!SliceSort depthLess} (keys : mapOrder).

Definition workspaceFSManifestEntries (m : Manifest) : manifest :=
  let entries :=
    foldl (λ acc p, <[workspaceFSNormalizePath p := default zeroManifestEntry (mn_Entries m !! p)]> acc)
      ∅ (keys _ (mn_Entries m)) in
  let root := default (manifestDir 493) (entries !! "/") in
  let root := withTypeMode "dir" (mf_Mode root) root in
  let root := withTypeMode "dir" (manifestEntryModeForWorkspaceFS root) root in
  let entries := <["/" := root]> entries in
  foldl (λ acc p, addParents (S (String.length p)) (workspaceFSParentPath p) acc) entries (keys _ entries).

Definition workspaceFSOrderedPaths (entries : manifest) : list string :=
  sort_slice (less := depthLess) (keys _ entries).

Record buildState := { bs_nodeIDs : gmap string string; bs_nextID : Z; bs_nodes : list workspaceFSNode }.

Definition buildStep (entries : manifest) (st : buildState) (p : string) : result rootError buildState :=
  if bool_decide (p = "/") then Ok st
  else
    let entry := default zeroManifestEntry (entries !! p) in
    let parentPath := workspaceFSParentPath p in
    match entries !! parentPath with
    | None => Err (MissingParent p parentPath)
    | Some parentEntry =>
        if negb (bool_decide (mf_Type parentEntry = "dir")) then Err (NonDirectoryParent p parentPath)
        else match bs_nodeIDs st !! parentPath with
        | None => Err (MissingParentInode p parentPath)
        | Some parentID =>
            let nextID := bs_nextID st + 1 in
            let nodeID := FormatInt nextID in
            Ok {| bs_nodeIDs := <[p := nodeID]> (bs_nodeIDs st); bs_nextID := nextID;
                  bs_nodes := bs_nodes st ++
                    [{| wn_ID := nodeID; wn_Path := p; wn_ParentID := parentID; wn_Name := Base p; wn_Entry := entry |}] |}
        end
    end.

Fixpoint buildLoop (entries : manifest) (paths : list string) (st : buildState) : result rootError buildState :=
  match paths with
  | [] => Ok st
  | p :: paths => match buildStep entries st p with Ok st => buildLoop entries paths st | Err e => Err e end
  end.

Definition buildWorkspaceFSNodes (m : Manifest) : result rootError (list workspaceFSNode) :=
  let entries := workspaceFSManifestEntries m in
  let paths := workspaceFSOrderedPaths entries in
  let rootEntry := default zeroManifestEntry (entries !! "/") in
  if negb (bool_decide (mf_Type rootEntry = "dir")) then Err RootNotDir
  else
    let root := {| wn_ID := workspaceFSRootInodeID; wn_Path := "/"; wn_ParentID := ""; wn_Name := ""; wn_Entry := rootEntry |} in
    match buildLoop entries paths
            {| bs_nodeIDs := {["/" := workspaceFSRootInodeID]}; bs_nextID := 1; bs_nodes := [root] |} with
    | Ok st => Ok (bs_nodes st)
    | Err e => Err e
    end.
End build.

(** * Writing the nodes *)

Definition ManifestEntryData (e : ManifestEntry) (fetchBlob : string → result rootError bytes) : result rootError bytes :=
  if negb (bool_decide (mf_Inline e = "")) then
    match DecodeString (mf_Inline e) with Some data => Ok data | None => Err BadInline end
  else if negb (bool_decide (mf_BlobID e = "")) then fetchBlob (mf_BlobID e)
  else if bool_decide (mf_Type e = "file") && (mf_Size e =? 0) then Ok []
  else Err NoFileData.

Definition workspaceFSNodeWeight (node : workspaceFSNode) (contentSize : Z) : Z :=
  let weight := Z.of_nat (String.length (wn_Path node) + String.length (wn_Name node) + 256) in
  if bool_decide (mf_Type (wn_Entry node) = "file") then weight + contentSize
  else if bool_decide (mf_Type (wn_Entry node) = "symlink")
  then weight + Z.of_nat (String.length (mf_Target (wn_Entry node)))
  else weight.

(** The commands of a pipeline. *)
Inductive rootCmd :=
| CWriteFull (id : string) (ref : string) (data : bytes)
| CSetInode (id : string) (fields : list hfield)
| CSetDirent (parent name id : string)
| CSetInfo (i : infoHash)
| CSetNextInode (id : string).

Section write.
Context {arr : Type} `{!RedisArray arr}.

Definition execCmd (d : db arr) (c : rootCmd) : db arr :=
  match c with
  | CWriteFull id ref data =>
      with_contents (λ m, match QueueWriteFull ref data with CellNone => delete id m | v => <[id := v]> m end) d
  | CSetInode id fields => with_inodes (hset id fields) d
  | CSetDirent parent name id => with_dirents (link parent name id) d
  | CSetInfo i => with_info (λ _, i) d
  | CSetNextInode id => with_next_inode (Some (inodeUint64 id)) d
  end.

(** [resetWorkspaceFSNamespace]: the keys of the tree and of what hangs on it.  The
    staging keys are named under the content keys; the dirty marker goes too. *)
Definition resetWorkspaceFSNamespace (d : db arr) : db arr :=
  Db ∅ ∅ ∅ ∅ (InfoHash 0 0 0 0) None false (changes d) (generation d) (leases d).
End write.

Record pipeline := { pp_done : list (list rootCmd); pp_queue : list rootCmd; pp_entries : Z; pp_bytes : Z }.

Definition pipeFlush (p : pipeline) : pipeline :=
  if pp_entries p =? 0 then p
  else {| pp_done := pp_done p ++ [pp_queue p]; pp_queue := []; pp_entries := 0; pp_bytes := 0 |}.

Definition queueCapacity (weight : Z) (p : pipeline) : pipeline :=
  let p := if (workspaceFSWriteBatchEntries <=? pp_entries p)
              || ((0 <? pp_bytes p) && (workspaceFSWriteBatchBytes <? pp_bytes p + weight))
           then pipeFlush p else p in
  {| pp_done := pp_done p; pp_queue := pp_queue p; pp_entries := pp_entries p + 1; pp_bytes := pp_bytes p + weight |}.

Definition pipeAdd (cs : list rootCmd) (p : pipeline) : pipeline :=
  {| pp_done := pp_done p; pp_queue := pp_queue p ++ cs; pp_entries := pp_entries p; pp_bytes := pp_bytes p |}.

Section fields.
(** [cached] is the cache of an import, [blobs] the blobs of the store. *)
Context (cached blobs : string → option bytes) (contentRef : string).

Definition fetchBlob (blobID : string) : result rootError bytes :=
  match cached blobID with
  | Some data => Ok data
  | None => match blobs blobID with Some data => Ok data | None => Err (BlobMissing blobID) end
  end.

Definition workspaceFSNodeFields (node : workspaceFSNode) : result rootError (list hfield * bytes * Z) :=
  let e := wn_Entry node in
  let fields := [FType (mf_Type e); FMode (manifestEntryModeForWorkspaceFS e); FUid 0; FGid 0; FCtime (mf_MtimeMs e);
                 FMtime (mf_MtimeMs e); FAtime (mf_MtimeMs e); FParent (wn_ParentID node); FName (wn_Name node);
                 FPath (wn_Path node); FPathAncestors (workspaceFSIndexedPathAncestors (wn_Path node))] in
  if bool_decide (mf_Type e = "dir") then Ok (fields ++ [FSize 0], [], 0)
  else if bool_decide (mf_Type e = "file") then
    match ManifestEntryData e fetchBlob with
    | Ok data => Ok (fields ++ [FSize (len data); FContentRef contentRef], data, len data)
    | Err err => Err err
    end
  else if bool_decide (mf_Type e = "symlink") then
    let size := if (mf_Size e =? 0) && negb (bool_decide (mf_Target e = ""))
                then Z.of_nat (String.length (mf_Target e)) else mf_Size e in
    Ok (fields ++ [FSize size; FTarget (mf_Target e)], [], 0)
  else Err (UnsupportedType (mf_Type e)).

Definition nodeCommands (node : workspaceFSNode) (fields : list hfield) (content : bytes) : list rootCmd :=
  (if bool_decide (mf_Type (wn_Entry node) = "file") then [CWriteFull (wn_ID node) contentRef content] else []) ++
  [CSetInode (wn_ID node) fields] ++
  (if bool_decide (wn_ParentID node = "") then [] else [CSetDirent (wn_ParentID node) (wn_Name node) (wn_ID node)]).

Definition countNode (ty : string) (size : Z) (i : infoHash) : infoHash :=
  if bool_decide (ty = "file") then hincrby CTotalData size (hincrby CFiles 1 i)
  else if bool_decide (ty = "dir") then hincrby CDirectories 1 i
  else hincrby CSymlinks 1 i.

(** The loop over the nodes, up to the first that cannot be written. *)
Fixpoint writeLoop (nodes : list workspaceFSNode) (i : infoHash) (p : pipeline) : option rootError * infoHash * pipeline :=
  match nodes with
  | [] => (None, i, p)
  | node :: nodes =>
      match workspaceFSNodeFields node with
      | Err err => (Some err, i, p)
      | Ok (fields, content, size) =>
          writeLoop nodes (countNode (mf_Type (wn_Entry node)) size i)
            (pipeAdd (nodeCommands node fields content) (queueCapacity (workspaceFSNodeWeight node size) p))
      end
  end.

(** The pipelines that are executed, and the error.  What is queued when a node
    fails is not sent. *)
Definition writeWorkspaceFSNodes (nodes : list workspaceFSNode) : list (list rootCmd) * option rootError :=
  match nodes with
  | [] => ([], Some MissingRootEntry)
  | _ =>
      let '(err, i, p) := writeLoop nodes (InfoHash 0 0 0 0)
                            {| pp_done := []; pp_queue := []; pp_entries := 0; pp_bytes := 0 |} in
      match err with
      | Some err => (pp_done p, Some err)
      | None =>
          let p := pipeAdd [CSetInfo i; CSetNextInode (default "" (wn_ID <$> last nodes))] (queueCapacity 512 p) in
          (pp_done (pipeFlush p), None)
      end
  end.
End fields.

Section materialize.
Context {arr : Type} `{!RedisArray arr}.
Context `{!SliceSort depthLess} (keys : mapOrder) (cached blobs : string → option bytes) (contentRef : string).

Definition execBatches (batches : list (list rootCmd)) (d : db arr) : db arr := foldl (foldl execCmd) d batches.

Definition materializeManifestToWorkspaceFS (m : Manifest) (d : db arr) : option rootError * db arr :=
  match buildWorkspaceFSNodes keys m with
  | Err err => (Some err, d)
  | Ok nodes =>
      let '(batches, err) := writeWorkspaceFSNodes cached blobs contentRef nodes in (err, execBatches batches d)
  end.

(** [SyncWorkspaceRootWithOptions], up to the markers of head and dirtiness. *)
Definition rewriteWorkspaceRoot (skipReset : bool) (m : Manifest) (d : db arr) : option rootError * db arr :=
  let d := if skipReset
           then Db (inodes d) (dirents d) (contents d) (stages d) (InfoHash 0 0 0 0) None false (changes d)
                  (generation d) (leases d)
           else resetWorkspaceFSNamespace d in
  materializeManifestToWorkspaceFS m d.
End materialize.
