(* ===== verification/RootBuild.v ===== *)
(** The nodes of a manifest (workspace_root.go): for a complete manifest the build
    succeeds, every node has a number of its own and comes after its directory. *)
From Stdlib Require Import Strings.Byte.
From stdpp Require Import pretty.
From S2P Require Import Prelude Content Paths FsState FsTree FsScripts FsClient ServerDiff Base64 RootNodes.
#[local] Open Scope string_scope.
#[local] Open Scope list_scope.
#[local] Open Scope Z_scope.

(** * Paths *)

Definition canon (p : string) : Prop := ∃ ws, valid_names ws ∧ p = abs ws.

Lemma normalize_canon p : canon p → workspaceFSNormalizePath p = p.
Proof. intros (ws & Hv & ->). by apply normalizePath_canonical. Qed.

Lemma canon_cases p : canon p → p = "/" ∨ ∃ ws w, valid_names (ws ++ [w]) ∧ p = abs (ws ++ [w]).
Proof.
  intros (ws & Hv & ->). destruct ws as [|w ws _] using rev_ind; [by left|]. right. eauto.
Qed.

Lemma parent_snoc ws w : valid_names (ws ++ [w]) → workspaceFSParentPath (abs (ws ++ [w])) = abs ws.
Proof.
  intros Hv. unfold workspaceFSParentPath. rewrite normalize_canon by (by exists (ws ++ [w])). by apply parentOf_snoc.
Qed.

Lemma abs_snoc_not_root ws w : valid_names (ws ++ [w]) → abs (ws ++ [w]) ≠ "/".
Proof. intros Hv E. change "/" with (abs []) in E. apply abs_inj in E; [by destruct ws|done|constructor]. Qed.

Lemma base_snoc ws w : valid_names (ws ++ [w]) → Base (abs (ws ++ [w])) = w.
Proof.
  intros Hv. pose proof (baseName_snoc ws w Hv) as H. unfold baseName in H.
  by rewrite bool_decide_eq_false_2 in H by (by apply abs_snoc_not_root).
Qed.

Lemma parent_canon p : canon p → canon (workspaceFSParentPath p).
Proof.
  intros [->|(ws & w & Hv & ->)]%canon_cases; [exists []; split; [constructor|done]|].
  rewrite parent_snoc by done. exists ws. split; [|done]. by apply valid_names_app in Hv as [? _].
Qed.

(** A path is its directory and its name. *)
Lemma parent_base p : canon p → p ≠ "/" → joinPath (workspaceFSParentPath p) (Base p) = p.
Proof.
  intros [->|(ws & w & Hv & ->)]%canon_cases Hp; [done|].
  rewrite parent_snoc, base_snoc by done. apply joinPath_abs. by apply valid_names_app in Hv as [? _].
Qed.

Lemma JoinWith_slashes ws : ws ≠ [] → valid_names ws → S (CountSlash (JoinWith "/" ws)) = length ws.
Proof.
  intros Hne Hv. induction Hv as [|w ws Hw Hv IH]; [done|].
  assert (CountSlash w = O) as Hw0.
  { unfold valid_name in Hw. bools. revert H0. clear. induction w as [|c w IH]; simpl; [done|].
    destruct (Ascii.eqb c slash); simpl; [done|]. done. }
  destruct ws as [|v ws]; [simpl; by rewrite Hw0|].
  change (JoinWith "/" (w :: v :: ws)) with (w +:+ "/" +:+ JoinWith "/" (v :: ws)).
  rewrite !CountSlash_app, Hw0. simpl CountSlash at 1. specialize (IH ltac:(done)). simpl in *. lia.
Qed.

Lemma depth_abs ws : valid_names ws → workspaceFSPathDepth (abs ws) = length ws.
Proof.
  intros Hv. unfold workspaceFSPathDepth. rewrite normalize_canon by (by exists ws).
  case_bool_decide as E; [by apply (abs_root ws Hv) in E as ->|].
  unfold abs. rewrite TrimPrefix_app. apply JoinWith_slashes; [|done]. by intros ->.
Qed.

Lemma depth_parent p : canon p → p ≠ "/" → workspaceFSPathDepth p = S (workspaceFSPathDepth (workspaceFSParentPath p)).
Proof.
  intros [->|(ws & w & Hv & ->)]%canon_cases Hp; [done|]. rewrite parent_snoc, !depth_abs by (done || by apply valid_names_app in Hv as [? _]).
  rewrite length_app. simpl. lia.
Qed.

(** * Sorting by depth *)

#[export] Instance depthLess_order : StrictWeak depthLess.
Proof.
  split.
  - intros x y. unfold depthLess. cbv zeta. rewrite (Nat.eqb_sym (workspaceFSPathDepth y)).
    destruct (Nat.eqb_spec (workspaceFSPathDepth x) (workspaceFSPathDepth y)); [apply sw_asym|].
    rewrite Nat.ltb_lt, Nat.ltb_ge. lia.
  - intros x y z. unfold depthLess. cbv zeta.
    destruct (Nat.eqb_spec (workspaceFSPathDepth y) (workspaceFSPathDepth x)),
      (Nat.eqb_spec (workspaceFSPathDepth z) (workspaceFSPathDepth y)),
      (Nat.eqb_spec (workspaceFSPathDepth z) (workspaceFSPathDepth x)); rewrite ?Nat.ltb_ge; try lia.
    apply sw_trans.
Qed.

(** In a list sorted by depth what is less deep comes first. *)
Lemma shallower_first `{!SliceSort depthLess} l l1 p l2 q :
  sort_slice (less := depthLess) l = l1 ++ p :: l2 → q ∈ l → (workspaceFSPathDepth q < workspaceFSPathDepth p)%nat → q ∈ l1.
Proof.
  intros E Hq Hd. pose proof (sort_slice_sorted (less := depthLess) l) as Hs. rewrite E in Hs.
  rewrite <- (sort_slice_perm (less := depthLess) l), E in Hq. apply elem_of_app in Hq as [?|Hq]; [done|].
  apply elem_of_cons in Hq as [->|Hq]; [lia|]. exfalso.
  apply StronglySorted_app_1_r in Hs. apply StronglySorted_inv in Hs as [_ Hs]. rewrite Forall_forall in Hs.
  specialize (Hs q Hq). unfold depthLess in Hs. cbv zeta in Hs.
  destruct (Nat.eqb_spec (workspaceFSPathDepth q) (workspaceFSPathDepth p)); [lia|]. apply Nat.ltb_ge in Hs. lia.
Qed.

(** * Numbers *)

Lemma digit_char x : (x < 10)%N → digit (pretty_N_char x) = Some (Z.of_N x).
Proof.
  intros. assert (x ∈ (0 :: 1 :: 2 :: 3 :: 4 :: 5 :: 6 :: 7 :: 8 :: 9 :: [])%N) as Hx.
  { rewrite !elem_of_cons, elem_of_nil. lia. }
  repeat (apply elem_of_cons in Hx as [->|Hx]; [done|]). by apply elem_of_nil in Hx.
Qed.

Lemma parse_pretty_go x s : parse_digits 0 (pretty_N_go x s) = parse_digits (Z.of_N x) s.
Proof.
  revert s. induction (N.lt_wf_0 x) as [x _ IH]. intros s. destruct (decide (x = 0)%N) as [->|Hx]; [by rewrite pretty_N_go_0|].
  rewrite pretty_N_go_step, IH by (try apply N.div_lt; lia). simpl.
  rewrite digit_char by (apply N.mod_lt; lia). f_equal. pose proof (N.div_mod x 10 ltac:(lia)). lia.
Qed.

Lemma inodeUint64_FormatInt n : 0 < n ≤ max_uint64 → inodeUint64 (FormatInt n) = n.
Proof.
  intros Hn. destruct n as [|k|k]; try lia. unfold FormatInt. change (pretty (Zpos k)) with (pretty (N.pos k)).
  unfold pretty, pretty_N. rewrite decide_False by done.
  assert (parse_digits 0 (pretty_N_go (N.pos k) "") = Some (Zpos k)) as H by (by rewrite parse_pretty_go).
  destruct (pretty_N_go (N.pos k) "") as [|c s] eqn:E; [by simpl in H|].
  unfold inodeUint64. rewrite H. by replace (Zpos k <=? max_uint64) with true by (symmetry; apply Z.leb_le; lia).
Qed.

Lemma FormatInt_pos_nonempty n : 0 < n → FormatInt n ≠ "".
Proof.
  intros Hn. destruct n as [|k|k]; try lia. unfold FormatInt. change (pretty (Zpos k)) with (pretty (N.pos k)).
  unfold pretty, pretty_N. rewrite decide_False by done. intros E.
  pose proof (parse_pretty_go (N.pos k) "") as H. rewrite E in H. done.
Qed.

(** * Complete manifests *)

(** Canonical paths, a root directory with a mode, and every directory present. *)
Record complete (E : manifest) : Prop := {
  cm_root : ∃ e, E !! "/" = Some e ∧ mf_Type e = "dir" ∧ mf_Mode e ≠ 0;
  cm_canon p e : E !! p = Some e → canon p;
  cm_parent p e : E !! p = Some e → p ≠ "/" → ∃ e', E !! workspaceFSParentPath p = Some e' ∧ mf_Type e' = "dir"
}.

Lemma is_order_elem (keys : mapOrder) A (m : gmap string A) p : is_order keys → p ∈ keys _ m ↔ is_Some (m !! p).
Proof.
  intros Hk. rewrite (Hk A m). rewrite list_elem_of_fmap. split.
  - intros ([q a] & -> & Ha). apply elem_of_map_to_list in Ha. by exists a.
  - intros [a Ha]. exists (p, a). split; [done|]. by apply elem_of_map_to_list.
Qed.

Lemma is_order_NoDup (keys : mapOrder) A (m : gmap string A) : is_order keys → NoDup (keys _ m).
Proof. intros Hk. rewrite (Hk A m). apply NoDup_fst_map_to_list. Qed.

Lemma fold_copy (E : manifest) l (acc : manifest) q : Forall (λ p, canon p ∧ is_Some (E !! p)) l →
  foldl (λ acc p, <[workspaceFSNormalizePath p := default zeroManifestEntry (E !! p)]> acc) acc l !! q =
  if decide (q ∈ l) then E !! q else acc !! q.
Proof.
  intros Hl. revert acc. induction Hl as [|p l [Hc [e He]] _ IH]; intros acc; cbn [foldl].
  { by rewrite decide_False by apply not_elem_of_nil. }
  rewrite IH. destruct (decide (q ∈ l)) as [Hq|Hq]; [by rewrite decide_True by (by right)|].
  rewrite normalize_canon, He by done. simpl. destruct (decide (q = p)) as [->|Hne].
  - rewrite lookup_insert_eq, decide_True by (by left). done.
  - rewrite lookup_insert_ne by done. rewrite decide_False; [done|]. intros [?|?]%elem_of_cons; done.
Qed.

Lemma addParents_complete E fuel p : complete E → canon p → p = "/" ∨ is_Some (E !! p) → addParents fuel p E = E.
Proof.
  intros HE. revert p. induction fuel as [|fuel IH]; intros p Hc Hp; [done|]. simpl.
  case_bool_decide; [done|]. destruct Hp as [?|[e He]]; [done|]. rewrite He.
  apply IH; [by apply parent_canon|]. right. destruct (cm_parent E HE p e He) as (e' & -> & _); [done|eauto].
Qed.

Lemma entries_complete (keys : mapOrder) m : is_order keys → complete (mn_Entries m) →
  workspaceFSManifestEntries keys m = mn_Entries m.
Proof.
  intros Hk HE. unfold workspaceFSManifestEntries. cbv zeta. set (E := mn_Entries m) in *.
  assert (foldl (λ acc p, <[workspaceFSNormalizePath p := default zeroManifestEntry (E !! p)]> acc) ∅ (keys _ E) = E) as ->.
  { apply map_eq. intros q. rewrite fold_copy.
    - destruct (decide (q ∈ keys _ E)) as [|Hn]; [done|]. rewrite lookup_empty. symmetry.
      destruct (E !! q) eqn:Eq; [|done]. exfalso. apply Hn. apply is_order_elem; eauto.
    - apply Forall_forall. intros p [e He]%is_order_elem; [|done]. split; [by eapply cm_canon|eauto]. }
  destruct (cm_root E HE) as (root & Hroot & Hdir & Hmode). rewrite Hroot. simpl default.
  assert (withTypeMode "dir" (manifestEntryModeForWorkspaceFS (withTypeMode "dir" (mf_Mode root) root))
            (withTypeMode "dir" (mf_Mode root) root) = root) as ->.
  { unfold manifestEntryModeForWorkspaceFS, withTypeMode. simpl.
    destruct (Z.eqb_spec (mf_Mode root) 0) as [?|_]; [done|]. rewrite <- Hdir. by destruct root. }
  rewrite (insert_id E) by done.
  assert (∀ l, Forall (λ p, canon p ∧ is_Some (E !! p)) l →
    foldl (λ acc p, addParents (S (String.length p)) (workspaceFSParentPath p) acc) E l = E) as Hfold.
  { induction 1 as [|p l [Hc [e He]] _ IH]; [done|]. cbn [foldl]. rewrite addParents_complete; [done..|by apply parent_canon|].
    destruct (decide (p = "/")) as [->|Hp]; [by left|]. right. destruct (cm_parent E HE p e He Hp) as (e' & -> & _). eauto. }
  apply Hfold. apply Forall_forall. intros p [e He]%is_order_elem; [|done]. split; [by eapply cm_canon|eauto].
Qed.

(** * The build *)

Record nodes_of (E : manifest) (ns : list workspaceFSNode) : Prop := {
  no_root : ∃ e rest, ns = {| wn_ID := "1"; wn_Path := "/"; wn_ParentID := ""; wn_Name := ""; wn_Entry := e |} :: rest;
  no_ids i n : ns !! i = Some n → wn_ID n = FormatInt (Z.of_nat i + 1);
  no_entry n : n ∈ ns → E !! wn_Path n = Some (wn_Entry n);
  no_paths : NoDup (wn_Path <$> ns);
  no_parent i n : ns !! i = Some n → (0 < i)%nat → wn_Path n ≠ "/" ∧ wn_Name n = Base (wn_Path n) ∧
    ∃ j m, (j < i)%nat ∧ ns !! j = Some m ∧ wn_Path m = workspaceFSParentPath (wn_Path n) ∧
      wn_ParentID n = wn_ID m ∧ mf_Type (wn_Entry m) = "dir"
}.

Section loop.
Context (E : manifest) (HE : complete E).

Record built (done : list string) (st : buildState) : Prop := {
  bt_nodes : nodes_of E (bs_nodes st);
  bt_next : bs_nextID st = Z.of_nat (length (bs_nodes st));
  bt_ids p id : bs_nodeIDs st !! p = Some id ↔ ∃ n, n ∈ bs_nodes st ∧ wn_Path n = p ∧ wn_ID n = id;
  bt_paths p : (∃ n, n ∈ bs_nodes st ∧ wn_Path n = p) ↔ p = "/" ∨ p ∈ done
}.

Lemma built_step done st p e : built done st → E !! p = Some e → p ∉ done → p ≠ "/" →
  workspaceFSParentPath p = "/" ∨ workspaceFSParentPath p ∈ done →
  ∃ st', buildStep E st p = Ok st' ∧ built (done ++ [p]) st'.
Proof using HE.
  intros [Hn Hx Hi Hp] He Hnew Hroot Hpar. unfold buildStep. rewrite bool_decide_eq_false_2, He by done. simpl default.
  destruct (cm_parent E HE p e He Hroot) as (pe & Hpe & Hdir). rewrite Hpe, bool_decide_eq_true_2 by done. simpl negb.
  destruct (proj2 (Hp (workspaceFSParentPath p)) Hpar) as (m & Hm & Hmp).
  assert (bs_nodeIDs st !! workspaceFSParentPath p = Some (wn_ID m)) as Hid by (apply Hi; eauto).
  rewrite Hid. cbv iota. eexists. split; [done|]. set (node := Build_workspaceFSNode _ _ _ _ _).
  assert (E !! wn_Path m = Some (wn_Entry m)) as Hme by by apply Hn. rewrite Hmp, Hpe in Hme. simplify_eq.
  assert (∀ n, n ∈ bs_nodes st → wn_Path n ≠ p) as Hfresh.
  { intros n Hnn Hpn. destruct (proj1 (Hp p) ltac:(eauto)); done. }
  split; simpl.
  - destruct Hn as [(r & rest & Hr) Hids Hent Hnd Hparent]. split.
    + exists r, (rest ++ [node]). by rewrite Hr.
    + intros i n. rewrite lookup_app_Some. intros [?|[Hge Hl]]; [by apply Hids|].
      apply list_lookup_singleton_Some in Hl as [Hl <-]. simpl. rewrite Hx. f_equal. lia.
    + intros n [?|Hl]%elem_of_app; [by apply Hent|]. apply list_elem_of_singleton in Hl as ->. done.
    + rewrite fmap_app. apply NoDup_app. split_and!; [done| |apply NoDup_singleton].
      intros q (n & -> & Hnn)%list_elem_of_fmap Hq. apply list_elem_of_singleton in Hq. by apply (Hfresh n).
    + intros i n. rewrite lookup_app_Some. intros [Hl|[Hge Hl]] Hi0.
      * destruct (Hparent i n Hl Hi0) as (? & ? & j & m' & Hj & Hl' & ?). split_and!; [done..|].
        exists j, m'. split; [done|]. split; [by apply lookup_app_l_Some|done].
      * apply list_lookup_singleton_Some in Hl as [Hl <-]. split_and!; [done..|].
        apply list_elem_of_lookup in Hm as [j Hj]. exists j, m. split_and!; try done.
        -- apply lookup_lt_Some in Hj. lia.
        -- by apply lookup_app_l_Some.
  - rewrite Hx, length_app. simpl. lia.
  - intros q id. destruct (decide (q = p)) as [->|Hq].
    + rewrite lookup_insert_eq. split.
      * intros [= <-]. exists node. split; [apply elem_of_app; right; by apply list_elem_of_singleton|done].
      * intros (n & [Hnn|Hl]%elem_of_app & Hpn & <-); [by apply Hfresh in Hpn|]. by apply list_elem_of_singleton in Hl as ->.
    + rewrite lookup_insert_ne, Hi by done. setoid_rewrite elem_of_app. setoid_rewrite list_elem_of_singleton. naive_solver.
  - intros q. setoid_rewrite elem_of_app. setoid_rewrite list_elem_of_singleton.
    specialize (Hp q). split; [|naive_solver].
    intros (n & [Hnn| ->] & Hpn); [|by right; right]. destruct (proj1 Hp ltac:(eauto)); auto.
Qed.

Lemma built_loop todo done st : built done st → NoDup (done ++ todo) →
  (∀ l1 p l2, todo = l1 ++ p :: l2 → is_Some (E !! p) ∧ (p ≠ "/" → workspaceFSParentPath p ∈ done ++ l1)) →
  ∃ st', buildLoop E todo st = Ok st' ∧ built (done ++ todo) st'.
Proof using HE.
  revert done st. induction todo as [|p todo IH]; intros done st Hb Hnd Hpar; cbn [buildLoop].
  { rewrite app_nil_r. eauto. }
  destruct (Hpar [] p todo eq_refl) as [[e He] Hp]. rewrite app_nil_r in Hp.
  assert (p ∉ done) as Hnew by (apply NoDup_app in Hnd as (_ & Hd & _); intros ?%Hd; set_solver).
  assert (∃ st', buildStep E st p = Ok st' ∧ built (done ++ [p]) st') as (st' & -> & Hb').
  { destruct (decide (p = "/")) as [->|Hne]; [|by eapply built_step; eauto].
    exists st. split; [done|]. destruct Hb as [H1 H2 H3 H4]. split; [done..|]. intros q. rewrite H4. set_solver. }
  rewrite (cons_middle p done todo), (assoc_L (++)) in Hnd |- *. apply IH; [done..|].
  intros l1 q l2 ->. rewrite <- (assoc_L (++)). by apply (Hpar (p :: l1) q l2).
Qed.
End loop.

Lemma build_complete `{!SliceSort depthLess} (keys : mapOrder) m : is_order keys → complete (mn_Entries m) →
  ∃ ns, buildWorkspaceFSNodes keys m = Ok ns ∧ nodes_of (mn_Entries m) ns ∧
    ∀ p, is_Some (mn_Entries m !! p) ↔ ∃ n, n ∈ ns ∧ wn_Path n = p.
Proof.
  intros Hk HE. unfold buildWorkspaceFSNodes. rewrite entries_complete by done. set (E := mn_Entries m) in *. cbv zeta.
  destruct (cm_root E HE) as (root & Hroot & Hdir & _). rewrite Hroot. simpl default.
  rewrite bool_decide_eq_true_2 by done. simpl negb. cbv iota.
  set (r := Build_workspaceFSNode _ _ _ _ _). set (paths := workspaceFSOrderedPaths keys E).
  assert (∀ p, p ∈ paths ↔ is_Some (E !! p)) as Hin.
  { intros p. unfold paths, workspaceFSOrderedPaths. rewrite sort_slice_perm. by apply is_order_elem. }
  assert (built E [] {| bs_nodeIDs := {["/" := workspaceFSRootInodeID]}; bs_nextID := 1; bs_nodes := [r] |}) as H0.
  { split; simpl.
    - split; [by exists root, []| | | |].
      + intros i n [-> <-]%list_lookup_singleton_Some. done.
      + intros n ->%list_elem_of_singleton. done.
      + apply NoDup_singleton.
      + intros i n [-> _]%list_lookup_singleton_Some. lia.
    - done.
    - intros p id. rewrite lookup_singleton_Some. setoid_rewrite list_elem_of_singleton. naive_solver.
    - intros p. setoid_rewrite list_elem_of_singleton. rewrite elem_of_nil. naive_solver. }
  destruct (built_loop E HE paths [] _ H0) as (st & -> & [Hn _ _ Hp]).
  - simpl. unfold paths, workspaceFSOrderedPaths. rewrite sort_slice_perm. by apply is_order_NoDup.
  - intros l1 p l2 El. assert (is_Some (E !! p)) as [e He] by (apply Hin; rewrite El; set_solver).
    split; [eauto|]. intros Hne. destruct (cm_parent E HE p e He Hne) as (e' & He' & _). simpl.
    apply (shallower_first (keys _ E) l1 p l2); [done|by apply is_order_elem|].
    rewrite (depth_parent p) by (done || by eapply cm_canon). lia.
  - exists (bs_nodes st). split; [done|]. split; [done|]. intros p. rewrite Hp, <- Hin. simpl.
    split; [by right|]. intros [->|?]; [|done]. apply Hin. eauto.
Qed.
