(* ===== verification/RootTree.v ===== *)
(** The tree that writing the nodes of a manifest leaves (workspace_root.go): the
    pipelines carry every command once and in order, and the state they leave is a
    well-formed workspace with exactly the inodes of the nodes (C25). *)
From Stdlib Require Import Strings.Byte.
From stdpp Require Import pretty.
From S2P Require Import Prelude Content Paths FsState FsTree FsScripts FsClient ServerDiff Base64 RootNodes RootBuild.
#[local] Open Scope string_scope.
#[local] Open Scope list_scope.
#[local] Open Scope Z_scope.

(** * Pipelines *)

Definition pipeCommands (p : pipeline) : list rootCmd := concat (pp_done p) ++ pp_queue p.

Lemma pipeFlush_commands p : pipeCommands (pipeFlush p) = pipeCommands p.
Proof.
  unfold pipeFlush, pipeCommands. destruct (_ =? 0); [done|]. simpl.
  rewrite concat_app. simpl. by rewrite !app_nil_r.
Qed.

Lemma queueCapacity_commands w p : pipeCommands (queueCapacity w p) = pipeCommands p.
Proof.
  unfold queueCapacity. cbv zeta. destruct (_ || _); [|done]. exact (pipeFlush_commands p).
Qed.

Lemma pipeAdd_commands cs p : pipeCommands (pipeAdd cs p) = pipeCommands p ++ cs.
Proof. unfold pipeCommands. simpl. by rewrite app_assoc. Qed.

(** The pieces a pipeline is made of: commands that belong together, and their weight. *)
Definition piece := (Z * list rootCmd)%type.
Definition fits (pieces : list piece) : Prop :=
  Z.of_nat (length pieces) ≤ workspaceFSWriteBatchEntries ∧
  (foldr Z.add 0 (pieces.*1) ≤ workspaceFSWriteBatchBytes ∨ length pieces = 1%nat).

Record pipe_ok (U : piece → Prop) (p : pipeline) : Prop := {
  po_queue : ∃ pieces, pp_queue p = concat (pieces.*2) ∧ pp_entries p = Z.of_nat (length pieces) ∧
    pp_bytes p = foldr Z.add 0 (pieces.*1) ∧ Forall (λ u, U u ∧ 0 < u.1) pieces ∧ (pieces = [] ∨ fits pieces);
  po_done b : b ∈ pp_done p → ∃ pieces, b = concat (pieces.*2) ∧ Forall U pieces ∧ pieces ≠ [] ∧ fits pieces
}.

Lemma weights_nonneg (U : piece → Prop) pieces : Forall (λ u, U u ∧ 0 < u.1) pieces → 0 ≤ foldr Z.add 0 (pieces.*1).
Proof. induction 1 as [|u l [_ Hu] _ IH]; csimpl in *; lia. Qed.

Lemma weights_app (l k : list piece) : foldr Z.add 0 ((l ++ k).*1) = foldr Z.add 0 (l.*1) + foldr Z.add 0 (k.*1).
Proof. induction l; csimpl; lia. Qed.

Lemma no_pieces {A} (l : list A) : Z.of_nat (length l) = 0 → l = [].
Proof. by destruct l. Qed.

Lemma pipeFlush_ok U p : pipe_ok U p → pipe_ok U (pipeFlush p) ∧ pp_entries (pipeFlush p) = 0 ∧ pp_queue (pipeFlush p) = [].
Proof.
  intros [(pieces & Hq & He & Hb & HU & Hf) Hd]. unfold pipeFlush. destruct (Z.eqb_spec (pp_entries p) 0) as [E|E].
  - assert (pieces = []) as -> by (apply no_pieces; lia).
    split_and!; [split; [exists []; split_and!; auto|done]|done|done].
  - split_and!; [|done|done]. split; simpl; [exists []; split_and!; auto|]. intros b [?|Hb']%elem_of_app; [by apply Hd|].
    apply list_elem_of_singleton in Hb' as ->. exists pieces. split_and!; [done| |by intros ->|].
    + eapply Forall_impl; [exact HU|]. by intros u [].
    + destruct Hf as [->|?]; [by simpl in He|done].
Qed.

Lemma pipeAdd_ok U p w cs : pipe_ok U p → U (w, cs) → 0 < w → pipe_ok U (pipeAdd cs (queueCapacity w p)).
Proof.
  intros Hp Hu Hw. unfold queueCapacity. set (q := if _ : bool then _ else _).
  assert (pipe_ok U q ∧ (pp_entries q = 0 ∨ pp_entries q < workspaceFSWriteBatchEntries ∧
    (pp_bytes q ≤ 0 ∨ pp_bytes q + w ≤ workspaceFSWriteBatchBytes))) as [[(pieces & Hq & He & Hb & HU & Hf) Hd] Hroom].
  { unfold q. destruct (_ || _) eqn:E; [destruct (pipeFlush_ok U p Hp) as (? & ? & _); auto|]. split; [done|].
    apply orb_false_iff in E as [E1 E2]. apply Z.leb_gt in E1. right. split; [done|].
    apply andb_false_iff in E2 as [E2|E2]; apply Z.ltb_ge in E2; auto. }
  split; csimpl; [|done]. exists (pieces ++ [(w, cs)]).
  rewrite !fmap_app, concat_app, length_app, foldr_app, Hq, He, Hb. csimpl. rewrite app_nil_r.
  pose proof (weights_nonneg U pieces HU) as Hnn.
  assert (foldr Z.add (w + 0) pieces.*1 = foldr Z.add 0 pieces.*1 + w) as Esum.
  { clear. induction (pieces.*1); csimpl; lia. }
  split_and!; [done|lia|lia|apply Forall_app; by repeat constructor|]. right. unfold fits.
  rewrite weights_app, length_app. csimpl.
  destruct Hroom as [E0|[Hlt [Hz|Hle]]].
  - assert (pieces = []) as -> by (apply no_pieces; lia). csimpl. split; [done|by right].
  - assert (pieces = []) as ->.
    { destruct pieces as [|u l]; [done|]. apply Forall_cons in HU as [[_ Hu'] Hl].
      pose proof (weights_nonneg U l Hl). csimpl in *. lia. }
    csimpl. split; [done|by right].
  - split; [lia|left; lia].
Qed.

Lemma pipe_empty_ok U : pipe_ok U {| pp_done := []; pp_queue := []; pp_entries := 0; pp_bytes := 0 |}.
Proof. split; simpl; [exists []; split_and!; auto|]. by intros b ?%elem_of_nil. Qed.

Section write.
Context (cached blobs : string → option bytes) (contentRef : string).
Local Abbreviation node_fields := (workspaceFSNodeFields cached blobs contentRef).

(** ** The commands of all nodes *)

(** A piece of the nodes' pipelines: one node, or the accounting at the end. *)
Definition root_piece (ns : list workspaceFSNode) (u : piece) : Prop :=
  (∃ n f c s, n ∈ ns ∧ node_fields n = Ok (f, c, s) ∧ u = (workspaceFSNodeWeight n s, nodeCommands contentRef n f c)) ∨
  ∃ i id, u = (512, [CSetInfo i; CSetNextInode id]).

Lemma node_weight n f c s : node_fields n = Ok (f, c, s) → 0 < workspaceFSNodeWeight n s.
Proof.
  unfold workspaceFSNodeFields, workspaceFSNodeWeight. intros H. cbv zeta in *. repeat case_bool_decide; try lia; try congruence.
  case_match; simplify_eq. pose proof (len_nonneg c). lia.
Qed.

Lemma writeLoop_ok ns all i p : ns ⊆ all → pipe_ok (root_piece all) p →
  pipe_ok (root_piece all) (writeLoop cached blobs contentRef ns i p).2.
Proof.
  revert i p. induction ns as [|n ns IH]; intros i p Hns Hp; simpl; [done|].
  destruct (node_fields n) as [[[f c] s]|e] eqn:E; [|done]. apply IH; [set_solver|].
  apply pipeAdd_ok; [done| |by eapply node_weight]. left. exists n, f, c, s. split_and!; [set_solver|done..].
Qed.

Definition writes (n : workspaceFSNode) (cs : list rootCmd) : Prop :=
  ∃ f c s, node_fields n = Ok (f, c, s) ∧ cs = nodeCommands contentRef n f c.

Definition counted (n : workspaceFSNode) (i : infoHash) : infoHash :=
  match node_fields n with Ok (_, _, s) => countNode (mf_Type (wn_Entry n)) s i | Err _ => i end.

Lemma writeLoop_commands ns i p css : Forall2 writes ns css →
  ∃ p', writeLoop cached blobs contentRef ns i p = (None, foldl (λ i n, counted n i) i ns, p') ∧
    pipeCommands p' = pipeCommands p ++ concat css.
Proof.
  intros H. revert i p. induction H as [|n cs ns css (f & c & s & Hf & ->) _ IH]; intros i p; simpl.
  { exists p. by rewrite app_nil_r. }
  rewrite Hf. destruct (IH (countNode (mf_Type (wn_Entry n)) s i)
    (pipeAdd (nodeCommands contentRef n f c) (queueCapacity (workspaceFSNodeWeight n s) p))) as (p' & -> & Hp').
  exists p'. unfold counted. rewrite Hf. split; [done|].
  by rewrite Hp', pipeAdd_commands, queueCapacity_commands, <- app_assoc.
Qed.

Lemma write_commands ns css : ns ≠ [] → Forall2 writes ns css →
  ∃ batches, writeWorkspaceFSNodes cached blobs contentRef ns = (batches, None) ∧
    concat batches = concat css ++ [CSetInfo (foldl (λ i n, counted n i) (InfoHash 0 0 0 0) ns);
                                    CSetNextInode (default "" (wn_ID <$> last ns))].
Proof.
  intros Hne H. unfold writeWorkspaceFSNodes. destruct ns as [|n0 ns0] eqn:E; [done|]. rewrite <- E in *.
  set (p0 := Build_pipeline _ _ _ _).
  pose proof (writeLoop_ok ns ns (InfoHash 0 0 0 0) p0 (reflexivity _) (pipe_empty_ok _)) as Hok.
  destruct (writeLoop_commands ns (InfoHash 0 0 0 0) p0 css H) as (p & Hl & Hp). rewrite Hl in *. simpl in Hok.
  eexists. split; [done|]. set (q := pipeAdd _ _).
  assert (pipe_ok (root_piece ns) q) as Hq by (apply pipeAdd_ok; [done|right; eauto|done]).
  apply pipeFlush_ok in Hq as (_ & _ & Hempty). pose proof (pipeFlush_commands q) as Hf.
  unfold pipeCommands at 1 in Hf. rewrite Hempty, app_nil_r in Hf. rewrite Hf. unfold q.
  by rewrite pipeAdd_commands, queueCapacity_commands, Hp.
Qed.

(** C25: Every pipeline that materialises a tree is bounded: it carries whole nodes (or
    the accounting), at most 128 of them, and at most 4 MiB by their weights unless it
    carries a single node; so it is also when a node fails, whatever was sent before. *)
Theorem pipelines_bounded ns b : b ∈ (writeWorkspaceFSNodes cached blobs contentRef ns).1 →
  ∃ pieces, b = concat (pieces.*2) ∧ Forall (root_piece ns) pieces ∧ pieces ≠ [] ∧
    Z.of_nat (length pieces) ≤ 128 ∧ (foldr Z.add 0 (pieces.*1) ≤ 4194304 ∨ length pieces = 1%nat).
Proof.
  unfold writeWorkspaceFSNodes. destruct ns as [|n0 ns0] eqn:E; [by intros ?%elem_of_nil|]. rewrite <- E.
  set (p0 := Build_pipeline _ _ _ _).
  pose proof (writeLoop_ok ns ns (InfoHash 0 0 0 0) p0 (reflexivity _) (pipe_empty_ok _)) as Hok.
  destruct (writeLoop _ _ _ ns _ p0) as [[err i] p]. simpl in Hok. destruct err; simpl; [apply Hok|].
  apply (pipeFlush_ok (root_piece ns)), pipeAdd_ok; [done|right; eauto|done].
Qed.
End write.

(** * The state after the nodes *)

(** What the entries must be like for the tree to be well formed. *)
Definition entry_sound (e : ManifestEntry) : Prop :=
  (mf_Type e = "file" ∨ mf_Type e = "dir" ∨ mf_Type e = "symlink") ∧ 0 ≤ mf_Size e.

Section state.
Context {arr : Type} `{!RedisArray arr} (cached blobs : string → option bytes) (contentRef : string).
Implicit Types d : db arr.
Local Abbreviation node_fields := (workspaceFSNodeFields cached blobs contentRef).

Definition nodeHash (f : list hfield) : inodeHash := foldl hset1 emptyHash f.

Record holds_nodes d (ns : list workspaceFSNode) (i : infoHash) : Prop := {
  hn_tree : tree_wf (static <$> inodes d) (lk (dirents d));
  hn_rooted : rooted (static <$> inodes d);
  hn_counts : counts_ok (static <$> inodes d) i;
  hn_inodes id h : inodes d !! id = Some h ↔
    ∃ n f c s, n ∈ ns ∧ wn_ID n = id ∧ node_fields n = Ok (f, c, s) ∧ h = nodeHash f;
  hn_contents n f c s : n ∈ ns → node_fields n = Ok (f, c, s) → mf_Type (wn_Entry n) = "file" →
    contentCell d (wn_ID n) = QueueWriteFull contentRef c
}.

(** The namespace part of the fields of a node. *)
Lemma node_static n f c s : entry_sound (wn_Entry n) → node_fields n = Ok (f, c, s) →
  ∃ sz, static (nodeHash f) = Node (wn_ParentID n) (wn_Name n) (Some (mf_Type (wn_Entry n))) sz ∧ 0 ≤ sz ∧
    (mf_Type (wn_Entry n) = "file" → sz = s).
Proof.
  intros [Hty Hsz] H. unfold workspaceFSNodeFields in H. cbv zeta in H. repeat case_bool_decide; try done.
  - simplify_eq. exists 0. unfold nodeHash. simpl. split_and!; [done|done|congruence].
  - case_match; simplify_eq. exists (len c). unfold nodeHash. simpl. split_and!; [done|apply len_nonneg|done].
  - simplify_eq; unfold nodeHash; eexists; simpl; split_and!; [done| |congruence]; cbn [h_size]; repeat case_match; lia.
  - simplify_eq; unfold nodeHash; eexists; simpl; split_and!; [done| |congruence]; cbn [h_size]; repeat case_match; lia.
Qed.

Lemma execBatches_concat batches d : execBatches batches d = foldl execCmd d (concat batches).
Proof.
  unfold execBatches. revert d. induction batches as [|b batches IH]; intros d; simpl; [done|]. by rewrite foldl_app, IH.
Qed.

Lemma node_place n f c s : node_fields n = Ok (f, c, s) →
  h_parent (nodeHash f) = wn_ParentID n ∧ h_name (nodeHash f) = wn_Name n ∧ h_type (nodeHash f) = Some (mf_Type (wn_Entry n)).
Proof.
  intros H. unfold workspaceFSNodeFields in H. cbv zeta in H. repeat (case_bool_decide || case_match); simplify_eq; done.
Qed.

(** What the commands of one node do. *)
Lemma node_commands_effect n f c d (d' := foldl execCmd d (nodeCommands contentRef n f c)) :
  inodes d' = hset (wn_ID n) f (inodes d) ∧
  dirents d' = (if bool_decide (wn_ParentID n = "") then dirents d
                else link (wn_ParentID n) (wn_Name n) (wn_ID n) (dirents d)) ∧
  (∀ id, contentCell d' id = if decide (id = wn_ID n ∧ mf_Type (wn_Entry n) = "file") then QueueWriteFull contentRef c
                             else contentCell d id) ∧
  changes d' = changes d ∧ generation d' = generation d ∧ leases d' = leases d ∧ root_dirty d' = root_dirty d.
Proof.
  unfold d', nodeCommands. destruct (bool_decide_reflect (mf_Type (wn_Entry n) = "file")) as [Hf|Hf];
    destruct (bool_decide_reflect (wn_ParentID n = "")); simpl; split_and!; try done;
    intros id; unfold contentCell; simpl.
  1,2: destruct (decide (id = wn_ID n)) as [->|Hne]; [rewrite decide_True by done|rewrite decide_False by tauto];
    destruct (QueueWriteFull contentRef c); rewrite ?lookup_insert_eq, ?lookup_delete_eq, ?lookup_insert_ne, ?lookup_delete_ne by done; done.
  all: by rewrite decide_False by tauto.
Qed.

Lemma count_node ty s sz i V id nd : V !! id = None → counts_ok V i → nd_type nd = Some ty → nd_size nd = sz →
  ty = "file" ∨ ty = "dir" ∨ ty = "symlink" → (ty = "file" → sz = s) → counts_ok (<[id := nd]> V) (countNode ty s i).
Proof.
  intros Hid [C1 C2 C3 C4] Ht Hs Hty Hsz. destruct i, nd as [np nn nt nsz]. simpl in Ht, Hs. subst nt nsz.
  destruct Hty as [-> | [-> | ->]]; unfold countNode; try specialize (Hsz eq_refl);
    constructor; simpl in *; rewrite msum_insert_fresh by done; acct.
Qed.

Lemma hash_new (m : gmap string inodeHash) id f : m !! id = None → hset id f m = <[id := nodeHash f]> m.
Proof. intros H. unfold hset. by rewrite H. Qed.

(** One more node, in its directory. *)
Lemma holds_node d ns i n f c s m fm cm sm : holds_nodes d ns i → node_fields n = Ok (f, c, s) → entry_sound (wn_Entry n) →
  (∀ n', n' ∈ ns → wn_ID n' ≠ wn_ID n) →
  (∀ n', n' ∈ ns → wn_ParentID n' = wn_ParentID n → wn_Name n' = wn_Name n → wn_ID n' = "1") →
  m ∈ ns → wn_ID m = wn_ParentID n → node_fields m = Ok (fm, cm, sm) → entry_sound (wn_Entry m) →
  mf_Type (wn_Entry m) = "dir" → wn_ParentID n ≠ "" →
  holds_nodes (foldl execCmd d (nodeCommands contentRef n f c)) (ns ++ [n]) (counted cached blobs contentRef n i).
Proof.
  intros [Ht Hr Hc Hi Hco] Hf He Hid Hname Hm Hmid Hfm Hem Hdir Hpar.
  destruct (node_commands_effect n f c d) as (EI & ED & EC & _). rewrite bool_decide_eq_false_2 in ED by done.
  set (d' := foldl execCmd d _) in *. set (V := static <$> inodes d) in *.
  assert (inodes d !! wn_ID n = None) as Hnone.
  { destruct (inodes d !! wn_ID n) as [h|] eqn:E; [|done]. apply Hi in E as (n' & ? & ? & ? & Hn' & E & _). by apply Hid in Hn'. }
  rewrite hash_new in EI by done.
  destruct (node_static n f c s He Hf) as (sz & Hst & Hsz & Hszs).
  set (nd := Node (wn_ParentID n) (wn_Name n) (Some (mf_Type (wn_Entry n))) sz) in *.
  assert (static <$> inodes d' = <[wn_ID n := nd]> V) as EV by (by rewrite EI, fmap_insert, Hst).
  assert (inodes d !! wn_ID m = Some (nodeHash fm)) as Hmh by (apply Hi; exists m, fm, cm, sm; auto).
  destruct (node_static m fm cm sm Hem Hfm) as (szm & Hstm & _ & _).
  assert (V !! wn_ParentID n = Some (static (nodeHash fm))) as HVp by (rewrite <- Hmid; by apply static_lookup).
  assert (V !! wn_ID n = None) as HVn by (unfold V; by rewrite lookup_fmap, Hnone).
  split; rewrite ?EV.
  - eapply tree_wf_ext; [|refine (add_wf V (lk (dirents d)) (wn_ID n) nd (static (nodeHash fm)) Ht HVn _ HVp _ _ Hsz)].
    + intros. by rewrite ED, lk_link.
    + destruct (lk (dirents d) (nd_parent nd) (nd_name nd)) as [id|] eqn:E; [|done].
      apply (wf_links _ _ Ht) in E as (Hne & nd' & Hl & Ep & En). apply fmap_lookup_static in Hl as (h & Hh & ->).
      apply Hi in Hh as (n' & f' & c' & s' & Hn' & <- & Hf' & ->). exfalso. apply Hne.
      destruct (node_place n' f' c' s' Hf') as (Ep' & En' & _). simpl in Ep, En. apply Hname; congruence.
    + by rewrite Hstm, Hdir.
    + unfold known_type. simpl. destruct He as [[E|[E|E]] _]; rewrite E; auto.
  - apply add_rooted; [done| |done|]; simpl; [|rewrite HVp; eauto].
    intros E. destruct (wf_root _ _ Ht) as (r & Hr1 & _). congruence.
  - unfold counted. rewrite Hf. eapply (count_node _ _ sz); [done|done|done|done|apply He|done].
  - intros id h. rewrite EI. destruct (decide (id = wn_ID n)) as [->|Hne].
    + rewrite lookup_insert_eq. split.
      * intros [= <-]. exists n, f, c, s. split_and!; [apply elem_of_app; right; by apply list_elem_of_singleton|done..].
      * intros (n' & f' & c' & s' & [Hn'|Hn']%elem_of_app & E & Hf' & ->); [by apply Hid in Hn'|].
        apply list_elem_of_singleton in Hn' as ->. congruence.
    + rewrite lookup_insert_ne, Hi by done. setoid_rewrite elem_of_app. setoid_rewrite list_elem_of_singleton.
      split; intros (n' & f' & c' & s' & Hn' & ? & ? & ?); exists n', f', c', s'; [by auto|].
      destruct Hn' as [?| ->]; [done|congruence].
  - intros n' f' c' s' [Hn'|Hn']%elem_of_app Hf' Hty.
    + rewrite EC, decide_False by (intros [E _]; by apply Hid in Hn'). by eapply Hco.
    + apply list_elem_of_singleton in Hn' as ->. rewrite EC, decide_True by done. congruence.
Qed.

(** The root alone, on a workspace without keys. *)
Lemma holds_root d e f c s (n := {| wn_ID := "1"; wn_Path := "/"; wn_ParentID := ""; wn_Name := ""; wn_Entry := e |}) :
  inodes d = ∅ → dirents d = ∅ → mf_Type e = "dir" → node_fields n = Ok (f, c, s) → entry_sound e →
  holds_nodes (foldl execCmd d (nodeCommands contentRef n f c)) [n] (counted cached blobs contentRef n (InfoHash 0 0 0 0)).
Proof.
  intros HI HD Hdir Hf He. destruct (node_commands_effect n f c d) as (EI & ED & EC & _). simpl in ED.
  set (d' := foldl execCmd d _) in *. destruct (node_static n f c s He Hf) as (sz & Hst & Hsz & _).
  rewrite HI in EI. rewrite hash_new in EI by apply lookup_empty. rewrite HD in ED.
  assert (static <$> inodes d' = {["1" := Node "" "" (Some "dir") sz]}) as EV.
  { rewrite EI, fmap_insert, fmap_empty, Hst. simpl. by rewrite Hdir. }
  split; rewrite ?EV.
  - split.
    + eexists. by rewrite lookup_singleton_eq.
    + intros dir name id. rewrite ED. split; [done|]. intros (Hid & nd & Hl & _). by rewrite lookup_singleton_ne in Hl.
    + intros id nd Hl Hid. by rewrite lookup_singleton_ne in Hl.
    + intros id nd [<- <-]%lookup_singleton_Some. right. by left.
    + intros id nd [<- <-]%lookup_singleton_Some. done.
  - intros id [nd [<- _]%lookup_singleton_Some]. constructor.
  - rewrite <- insert_empty. unfold counted. rewrite Hf. apply (count_node _ _ sz).
    + apply lookup_empty.
    + by split.
    + simpl. by rewrite Hdir.
    + done.
    + simpl. rewrite Hdir. by right; left.
    + simpl. rewrite Hdir. done.
  - intros id h. rewrite EI. change (wn_ID n) with "1". rewrite insert_empty, lookup_singleton_Some. split.
    + intros [<- <-]. exists n, f, c, s. split_and!; [by apply list_elem_of_singleton|done..].
    + intros (n' & f' & c' & s' & ->%list_elem_of_singleton & <- & Hf' & ->). split; [done|congruence].
  - intros n' f' c' s' ->%list_elem_of_singleton _ Hty. simpl in Hty. congruence.
Qed.

(** All of them. *)
Lemma holds_all E ns css d : nodes_of E ns → (∀ n, n ∈ ns → entry_sound (wn_Entry n)) → (∀ e, E !! "/" = Some e → mf_Type e = "dir") →
  (∀ p e, E !! p = Some e → canon p) →
  Forall2 (writes cached blobs contentRef) ns css → inodes d = ∅ → dirents d = ∅ →
  ∀ k, (1 ≤ k ≤ length ns)%nat →
  holds_nodes (foldl execCmd d (concat (take k css))) (take k ns)
    (foldl (λ i n, counted cached blobs contentRef n i) (InfoHash 0 0 0 0) (take k ns)).
Proof.
  intros Hn Hs Hr Hc H2 HI HD k Hk. induction k as [|k IH]; [lia|].
  destruct (lookup_lt_is_Some_2 ns k) as [n Hnk]; [lia|].
  destruct (Forall2_lookup_l _ _ _ _ _ H2 Hnk) as (cs & Hck & f & c & s & Hf & ->).
  rewrite (take_S_r _ _ _ Hnk), (take_S_r _ _ _ Hck), concat_app, !foldl_app. simpl. rewrite app_nil_r.
  assert (n ∈ ns) as Hin by (by eapply list_elem_of_lookup_2).
  destruct (decide (k = O)) as [->|Hk0].
  { destruct (no_root _ _ Hn) as (e & rest & ->). simpl in Hnk. injection Hnk as <-. simpl.
    apply (holds_root d e f c s); [done|done| |done|exact (Hs _ Hin)]. apply Hr. apply (no_entry _ _ Hn _ Hin). }
  destruct (no_parent _ _ Hn k n Hnk ltac:(lia)) as (Hroot & Hname & j & m & Hj & Hm & Hmp & Hmid & Hdir).
  assert (m ∈ ns) as Hmin by (by eapply list_elem_of_lookup_2).
  destruct (Forall2_lookup_l _ _ _ _ _ H2 Hm) as (csm & _ & fm & cm & sm & Hfm & _).
  apply (holds_node _ _ _ _ _ _ s m fm cm sm); [apply IH; lia|done|by apply Hs| | |
    apply list_elem_of_lookup; exists j; by apply lookup_take_Some|done|done|by apply Hs|done|].
  - intros n' (i & [Hi Hik]%lookup_take_Some)%list_elem_of_lookup E'. rewrite (no_ids _ _ Hn i n' Hi), (no_ids _ _ Hn k n Hnk) in E'.
    unfold FormatInt in E'. apply (inj pretty) in E'. lia.
  - intros n' (i & [Hi Hik]%lookup_take_Some)%list_elem_of_lookup Ep En. destruct (decide (i = O)) as [->|Hi0].
    { destruct (no_root _ _ Hn) as (e & rest & ->). simpl in Hi. by injection Hi as <-. }
    exfalso. destruct (no_parent _ _ Hn i n' Hi ltac:(lia)) as (Hroot' & Hname' & j' & m' & Hj' & Hm' & Hmp' & Hmid' & _).
    assert (m = m') as <-.
    { rewrite Hmid, Hmid' in Ep. rewrite (no_ids _ _ Hn j m Hm), (no_ids _ _ Hn j' m' Hm') in Ep.
      unfold FormatInt in Ep. apply (inj pretty) in Ep. assert (j = j') as <- by lia. congruence. }
    assert (n' ∈ ns) as Hin' by (by eapply list_elem_of_lookup_2).
    assert (wn_Path n' = wn_Path n) as Epath.
    { rewrite <- (parent_base (wn_Path n')), <- (parent_base (wn_Path n)); try done; [congruence|..];
        eapply Hc; by apply (no_entry _ _ Hn). }
    assert (i = k); [|lia]. eapply (NoDup_lookup (wn_Path <$> ns)); [apply Hn|by rewrite list_lookup_fmap, Hi|].
    by rewrite list_lookup_fmap, Hnk, Epath.
  - rewrite Hmid, (no_ids _ _ Hn j m Hm). apply FormatInt_pos_nonempty. lia.
Qed.
End state.

(** * The materialised root *)

Section materialized.
Context {arr : Type} `{!RedisArray arr} `{!SliceSort depthLess} (keys : mapOrder) (Hk : is_order keys).
Context (cached blobs : string → option bytes) (contentRef : string).
Implicit Types d : db arr.

(** Every entry can be written: a known type, and a body that is at hand. *)
Definition writable (e : ManifestEntry) : Prop :=
  entry_sound e ∧ (mf_Type e = "file" → ∃ data, ManifestEntryData e (fetchBlob cached blobs) = Ok data).

Record materialized (E : manifest) (ns : list workspaceFSNode) d : Prop := {
  mt_nodes : nodes_of E ns;
  mt_cover p : is_Some (E !! p) ↔ ∃ n, n ∈ ns ∧ wn_Path n = p;
  mt_holds : holds_nodes cached blobs contentRef d ns (info d);
  mt_next : next_inode d = Some (Z.of_nat (length ns))
}.

Lemma fields_writable n : writable (wn_Entry n) → ∃ f c s, workspaceFSNodeFields cached blobs contentRef n = Ok (f, c, s).
Proof.
  intros [[Hty _] Hd]. unfold workspaceFSNodeFields. cbv zeta. destruct Hty as [E|[E|E]]; rewrite E in *; simpl; eauto.
  destruct (Hd eq_refl) as [data ->]. eauto.
Qed.

Lemma all_writes ns : (∀ n, n ∈ ns → writable (wn_Entry n)) → ∃ css, Forall2 (writes cached blobs contentRef) ns css.
Proof.
  induction ns as [|n ns IH]; intros H; [by exists []|]. destruct IH as [css Hcss]; [intros; apply H; by right|].
  destruct (fields_writable n) as (f & c & s & Hf); [apply H; by left|].
  exists (nodeCommands contentRef n f c :: css). constructor; [|done]. by exists f, c, s.
Qed.

Lemma rewrite_complete m d : complete (mn_Entries m) → (∀ p e, mn_Entries m !! p = Some e → writable e) →
  Z.of_nat (size (mn_Entries m)) ≤ max_uint64 →
  ∃ ns d', rewriteWorkspaceRoot keys cached blobs contentRef false m d = (None, d') ∧ materialized (mn_Entries m) ns d'.
Proof using Hk.
  intros HE HW Hsz. unfold rewriteWorkspaceRoot, materializeManifestToWorkspaceFS. set (E := mn_Entries m) in *.
  destruct (build_complete keys m Hk HE) as (ns & -> & Hn & Hcov). fold E in Hn, Hcov.
  assert (∀ n, n ∈ ns → writable (wn_Entry n)) as HWn by (intros n Hnn; eapply HW, (no_entry _ _ Hn n Hnn)).
  destruct (all_writes ns HWn) as [css Hcss]. destruct (no_root _ _ Hn) as (e & rest & Ens).
  destruct (write_commands cached blobs contentRef ns css) as (batches & -> & Hb); [by rewrite Ens|done|].
  eexists ns, _. split; [done|]. rewrite execBatches_concat, Hb, foldl_app.
  set (i := foldl _ (InfoHash 0 0 0 0) ns). set (d0 := resetWorkspaceFSNamespace d).
  destruct (holds_all cached blobs contentRef E ns css d0 Hn) with (k := length ns) as [Ht Hr Hc Hi Hco];
    [intros n Hnn; apply (HWn n Hnn)| |apply (cm_canon E HE)|done|done|done|rewrite Ens; simpl; lia|].
  { intros e' He'. destruct (cm_root E HE) as (? & ? & ? & _). congruence. }
  rewrite (take_ge css), (take_ge ns) in * by (rewrite ?(Forall2_length _ _ _ Hcss); done).
  set (d1 := foldl execCmd d0 (concat css)) in *. fold i in Hc.
  split; [done|done|by split|]. simpl. f_equal.
  destruct (last ns) as [n|] eqn:El; [|by rewrite Ens in El; apply last_None in El].
  rewrite last_lookup in El. simpl. rewrite (no_ids _ _ Hn _ _ El).
  assert (length ns ≤ size E)%nat as Hlen.
  { rewrite <- length_map_to_list. etrans; [|apply Nat.eq_le_incl, (length_map fst)].
    rewrite <- (length_map wn_Path). apply submseteq_length, NoDup_submseteq; [apply Hn|].
    intros p (n' & -> & Hn')%list_elem_of_fmap. apply list_elem_of_fmap. exists (wn_Path n', wn_Entry n'). split; [done|].
    by apply elem_of_map_to_list, (no_entry _ _ Hn). }
  rewrite inodeUint64_FormatInt; rewrite Ens in *; simpl in *; lia.
Qed.

Lemma materialized_inv E ns d : materialized E ns d → fs_inv d.
Proof. intros [_ _ [Ht Hr Hc _ _] _]. by split. Qed.
End materialized.

(** ** Witness *)

Definition sampleRoot : workspaceFSNode :=
  {| wn_ID := "1"; wn_Path := "/"; wn_ParentID := ""; wn_Name := ""; wn_Entry := manifestDir 493 |}.
Definition sampleFile : workspaceFSNode :=
  {| wn_ID := "2"; wn_Path := "/f"; wn_ParentID := "1"; wn_Name := "f";
     wn_Entry := {| mf_Type := "file"; mf_Mode := 420; mf_MtimeMs := 7; mf_Size := 5000000; mf_BlobID := "b"; mf_Inline := "";
                    mf_Target := "" |} |}.
Definition sampleBody : string → option bytes := λ _, Some (make_bytes 5).

Definition sampleBatch : list rootCmd :=
  default [] (head (writeWorkspaceFSNodes (λ _, None) sampleBody RefExternal [sampleRoot; sampleFile]).1).

Lemma pipelines_bounded_witness :
  length sampleBatch = 6%nat ∧
  ∃ pieces, sampleBatch = concat (pieces.*2) ∧ Forall (root_piece (λ _, None) sampleBody RefExternal [sampleRoot; sampleFile]) pieces ∧
    pieces ≠ [] ∧ Z.of_nat (length pieces) ≤ 128 ∧ (foldr Z.add 0 (pieces.*1) ≤ 4194304 ∨ length pieces = 1%nat).
Proof.
  split; [by vm_compute|]. apply (pipelines_bounded (λ _, None) sampleBody RefExternal [sampleRoot; sampleFile]).
  vm_compute. left.
Defined.
