(* ===== verification/RootScan.v ===== *)
(** internal/controlplane/workspace_root_manifest.go: the live tree of a workspace
    read back into a manifest, level by level (C17, C18).

    The scan reads the server command by command while clients go on writing:
    [at_ t] is the state command number [t] sees.  The load of a content key counts
    as one command.  A result [None] means that the given number of levels was not
    enough.  SHA-256 of a body, in hexadecimal, is the parameter [blobSHA256]. *)
From Stdlib Require Import Strings.Byte.
From S2P Require Import Prelude Content Paths FsState FsTree FsScripts FsClient ServerDiff Base64 RootNodes.
#[local] Open Scope string_scope.
#[local] Open Scope list_scope.
#[local] Open Scope Z_scope.

Definition mountedArtifactNames : list string :=
  [".DS_Store"; ".Spotlight-V100"; ".TemporaryItems"; ".Trashes"; ".fseventsd"; ".nfs-check"].

Definition shouldIgnoreMountPath (p : string) : bool :=
  if bool_decide (p = "" ∨ p = "/") then false
  else
    let trimmed := TrimSlashes p in
    if bool_decide (trimmed = "") then false
    else existsb (λ part, HasPrefix part "._" || bool_decide (part ∈ mountedArtifactNames)) (Split trimmed slash).

Definition formatVersion : Z := 1.
Definition inlineThreshold : Z := 4 * 1024.

Record bfsItem := { bi_inodeID : string; bi_path : string }.

Record parsedInode := {
  pi_typ : string; pi_mode : Z; pi_size : Z; pi_mtimeMs : Z; pi_target : string; pi_content : bytes;
  pi_contentRef : string
}.

(** [HMGET] of the fields; without a type the inode is passed over. *)
Definition parseInode (h : option inodeHash) : option parsedInode :=
  h ≫= λ h, h_type h ≫= λ ty,
    Some {| pi_typ := ty; pi_mode := u32 (h_mode h); pi_size := h_size h; pi_mtimeMs := h_mtime h;
            pi_target := h_target h; pi_content := h_content h; pi_contentRef := h_content_ref h |}.

Definition withContent (data : bytes) (p : parsedInode) : parsedInode :=
  {| pi_typ := pi_typ p; pi_mode := pi_mode p; pi_size := pi_size p; pi_mtimeMs := pi_mtimeMs p;
     pi_target := pi_target p; pi_content := data; pi_contentRef := pi_contentRef p |}.

Record scanState := {
  sc_entries : manifest; sc_blobs : gmap string bytes; sc_fileCount : Z; sc_dirCount : Z; sc_totalBytes : Z
}.

Section scan.
Context {arr : Type} `{!RedisArray arr} (arrays : bool) (blobSHA256 : bytes → string).
Context `{!SliceSort stringLess} (keys : mapOrder).

(** ** What one inode contributes *)

Definition scanEntry (typ : string) (mode mtime size : Z) (blobID inline target : string) : ManifestEntry :=
  {| mf_Type := typ; mf_Mode := mode; mf_MtimeMs := mtime; mf_Size := size; mf_BlobID := blobID; mf_Inline := inline;
     mf_Target := target |}.

Definition scanItem (st : scanState) (item : bfsItem) (p : parsedInode) : scanState * list bfsItem :=
  let path := bi_path item in
  if shouldIgnoreMountPath path then (st, [])
  else if bool_decide (pi_typ p = "dir") then
    ({| sc_entries := <[path := scanEntry "dir" (pi_mode p) (pi_mtimeMs p) 0 "" "" ""]> (sc_entries st);
        sc_blobs := sc_blobs st; sc_fileCount := sc_fileCount st;
        sc_dirCount := if bool_decide (path = "/") then sc_dirCount st else sc_dirCount st + 1;
        sc_totalBytes := sc_totalBytes st |}, [item])
  else if bool_decide (pi_typ p = "file") then
    let data := pi_content p in
    let inline := len data <=? inlineThreshold in
    let blobID := if inline then "" else blobSHA256 data in
    ({| sc_entries := <[path := scanEntry "file" (pi_mode p) (pi_mtimeMs p) (len data) blobID
                                  (if inline then EncodeToString data else "") ""]> (sc_entries st);
        sc_blobs := if inline then sc_blobs st
                    else match sc_blobs st !! blobID with Some _ => sc_blobs st | None => <[blobID := data]> (sc_blobs st) end;
        sc_fileCount := sc_fileCount st + 1; sc_dirCount := sc_dirCount st;
        sc_totalBytes := sc_totalBytes st + len data |}, [])
  else if bool_decide (pi_typ p = "symlink") then
    ({| sc_entries := <[path := scanEntry "symlink" (pi_mode p) (pi_mtimeMs p) (Z.of_nat (String.length (pi_target p))) "" ""
                                  (pi_target p)]> (sc_entries st);
        sc_blobs := sc_blobs st; sc_fileCount := sc_fileCount st; sc_dirCount := sc_dirCount st;
        sc_totalBytes := sc_totalBytes st |}, [])
  else (st, []).

Fixpoint scanItems (st : scanState) (queue : list (bfsItem * option parsedInode)) : scanState * list bfsItem :=
  match queue with
  | [] => (st, [])
  | (item, None) :: queue => scanItems st queue
  | (item, Some p) :: queue =>
      let '(st, dirs) := scanItem st item p in
      let '(st, more) := scanItems st queue in (st, dirs ++ more)
  end.

Definition childItems (item : bfsItem) (children : gmap string string) : list bfsItem :=
  map (λ name, {| bi_inodeID := default "" (children !! name);
                  bi_path := if bool_decide (bi_path item = "/") then "/" +:+ name
                             else bi_path item +:+ "/" +:+ name |})
    (sort_slice (less := stringLess) (keys _ children)).

(** ** The levels *)

Context (at_ : nat → db arr).

(** Reads of one pipeline, one command each. *)
Fixpoint readAll {A B} (f : A → db arr → B) (l : list A) (t : nat) : list B * nat :=
  match l with
  | [] => ([], t)
  | a :: l => let '(bs, t') := readAll f l (S t) in (f a (at_ t) :: bs, t')
  end.

(** The second pass, over the files whose content is kept under a key of its own. *)
Fixpoint loadContents (queue : list (bfsItem * option parsedInode)) (t : nat) :
    result rootError (list (bfsItem * option parsedInode)) * nat :=
  match queue with
  | [] => (Ok [], t)
  | (item, p) :: queue =>
      let keep q t := match loadContents queue t with (Ok rest, t) => (Ok ((item, q) :: rest), t) | (Err e, t) => (Err e, t) end in
      match p with
      | Some i =>
          if bool_decide (pi_typ i = "file") && negb (bool_decide (pi_contentRef i = "")) then
            match Load arrays (contentCell (at_ t) (bi_inodeID item)) (pi_contentRef i) (pi_size i) with
            | Ok data => keep (Some (withContent data i)) (S t)
            | Err e => (Err (LoadFailed e), S t)
            end
          else keep p t
      | None => keep p t
      end
  end.

Fixpoint scanLevels (fuel : nat) (queue : list bfsItem) (st : scanState) (t : nat) : option (result rootError scanState * nat) :=
  match queue with
  | [] => Some (Ok st, t)
  | _ =>
      match fuel with
      | O => None
      | S fuel =>
          let '(hashes, t) := readAll (λ item d, inodes d !! bi_inodeID item) queue t in
          match loadContents (zip queue (map parseInode hashes)) t with
          | (Err e, t) => Some (Err e, t)
          | (Ok parsed, t) =>
              let '(st, dirItems) := scanItems st parsed in
              match dirItems with
              | [] => Some (Ok st, t)
              | _ =>
                  let '(children, t) := readAll (λ item d, default ∅ (dirents d !! bi_inodeID item)) dirItems t in
                  scanLevels fuel (concat (zip_with childItems dirItems children)) st t
              end
          end
      end
  end.

Definition BuildManifestFromWorkspaceRoot (fuel : nat) (workspace savepoint : string) (t : nat) :
    option (result rootError (Manifest * scanState) * nat) :=
  match scanLevels fuel [{| bi_inodeID := workspaceFSRootInodeID; bi_path := "/" |}]
          {| sc_entries := ∅; sc_blobs := ∅; sc_fileCount := 0; sc_dirCount := 0; sc_totalBytes := 0 |} t with
  | None => None
  | Some (Err e, t) => Some (Err e, t)
  | Some (Ok st, t) =>
      let entries := match sc_entries st !! "/" with Some _ => sc_entries st | None => <["/" := manifestDir 493]> (sc_entries st) end in
      Some (Ok ({| mn_Version := formatVersion; mn_Workspace := workspace; mn_Savepoint := savepoint; mn_Entries := entries |}, st), t)
  end.
End scan.
