(* ===== verification/RootLive.v ===== *)
(** What the scan of the live root returns when nothing changes meanwhile
    (workspace_root_manifest.go): the levels are those of the tree, as many as it has
    inodes at most, and the manifest lists exactly the paths that are shown (C17). *)
From Stdlib Require Import Strings.Byte.
From stdpp Require Import pretty.
From S2P Require Import Prelude Content Paths FsState FsTree FsScripts FsClient ServerDiff Base64 RootNodes RootBuild RootScan.
#[local] Open Scope string_scope.
#[local] Open Scope list_scope.
#[local] Open Scope Z_scope.

Section live.
Context {arr : Type} `{!RedisArray arr} (arrays : bool) (blobSHA256 : bytes → string).
Context `{!SliceSort stringLess} (keys : mapOrder) (Hk : is_order keys) (d : db arr).

(** ** What is shown of an inode *)

Definition loadedOf (id : string) : result contentError (option parsedInode) :=
  match parseInode (inodes d !! id) with
  | Some i =>
      if bool_decide (pi_typ i = "file") && negb (bool_decide (pi_contentRef i = "")) then
        match Load arrays (contentCell d id) (pi_contentRef i) (pi_size i) with
        | Ok data => Ok (Some (withContent data i))
        | Err e => Err e
        end
      else Ok (Some i)
  | None => Ok None
  end.

Definition viewOf (id : string) : option parsedInode := match loadedOf id with Ok p => p | Err _ => None end.

(** The entry of an inode at a path; none for what is passed over. *)
Definition entryOf (p : string) (i : parsedInode) : option ManifestEntry :=
  if shouldIgnoreMountPath p then None
  else if bool_decide (pi_typ i = "dir") then Some (scanEntry "dir" (pi_mode i) (pi_mtimeMs i) 0 "" "" "")
  else if bool_decide (pi_typ i = "file") then
    let data := pi_content i in
    let inline := len data <=? inlineThreshold in
    Some (scanEntry "file" (pi_mode i) (pi_mtimeMs i) (len data) (if inline then "" else blobSHA256 data)
            (if inline then EncodeToString data else "") "")
  else if bool_decide (pi_typ i = "symlink") then
    Some (scanEntry "symlink" (pi_mode i) (pi_mtimeMs i) (Z.of_nat (String.length (pi_target i))) "" "" (pi_target i))
  else None.

(** The directories the scan descends into, and the paths it meets, by level. *)
Definition shownDir (id p : string) : Prop :=
  ∃ i, viewOf id = Some i ∧ pi_typ i = "dir" ∧ shouldIgnoreMountPath p = false.

Inductive at_level : nat → string → string → Prop :=
| al_root : at_level 0 "1" "/"
| al_child n dir p name id : at_level n dir p → shownDir dir p → lk (dirents d) dir name = Some id →
    at_level (S n) id (joinPath p name).

(** ** One level *)

Definition levelItems (queue : list bfsItem) : list (bfsItem * option parsedInode) :=
  map (λ item, (item, viewOf (bi_inodeID item))) queue.

Lemma readAll_const {A B} (f : A → db arr → B) l t : ∃ t', readAll (λ _, d) f l t = (map (λ a, f a d) l, t').
Proof.
  revert t. induction l as [|a l IH]; intros t; simpl; [eauto|]. destruct (IH (S t)) as [t' ->]. eauto.
Qed.

Lemma loadContents_const queue t :
  (∃ t', loadContents arrays (λ _, d) (zip queue (map parseInode (map (λ item, inodes d !! bi_inodeID item) queue))) t
         = (Ok (levelItems queue), t')) ∨
  ∃ item e t', item ∈ queue ∧ loadedOf (bi_inodeID item) = Err e ∧
    loadContents arrays (λ _, d) (zip queue (map parseInode (map (λ item, inodes d !! bi_inodeID item) queue))) t
    = (Err (LoadFailed e), t').
Proof.
  revert t. induction queue as [|item queue IH]; intros t; simpl; [left; eauto|].
  assert (∀ q t, loadedOf (bi_inodeID item) = Ok q →
    (∃ t', (let '(r, t') := loadContents arrays (λ _, d) (zip queue (map parseInode (map (λ item, inodes d !! bi_inodeID item) queue))) t in
       match r with Ok rest => (Ok ((item, q) :: rest), t') | Err e => (Err e, t') end) = (Ok ((item, viewOf (bi_inodeID item)) :: levelItems queue), t')) ∨
    ∃ item' e t', item' ∈ item :: queue ∧ loadedOf (bi_inodeID item') = Err e ∧
      (let '(r, t') := loadContents arrays (λ _, d) (zip queue (map parseInode (map (λ item, inodes d !! bi_inodeID item) queue))) t in
       match r with Ok rest => (Ok ((item, q) :: rest), t') | Err e => (Err e, t') end) = (Err (LoadFailed e), t')) as Hkeep.
  { intros q t1 Hq. destruct (IH t1) as [[t' ->]|(item' & e & t' & Hin & He & ->)].
    - left. exists t'. unfold viewOf. by rewrite Hq.
    - right. exists item', e, t'. split_and!; [by right|done..]. }
  unfold loadedOf in Hkeep at 1. destruct (parseInode (inodes d !! bi_inodeID item)) as [i|] eqn:Ep; cbv zeta.
  - destruct (bool_decide (pi_typ i = "file") && negb (bool_decide (pi_contentRef i = ""))) eqn:Eb.
    + destruct (Load _ _ _ _) as [data|e] eqn:El.
      * specialize (Hkeep (Some (withContent data i)) (S t) eq_refl). destruct (loadContents _ _ _ _) as [[rest|e] t']; exact Hkeep.
      * right. exists item, e, (S t). split_and!; [by left| |done]. unfold loadedOf. by rewrite Ep, Eb, El.
    + specialize (Hkeep (Some i) t eq_refl). destruct (loadContents _ _ _ _) as [[rest|e] t']; exact Hkeep.
  - specialize (Hkeep None t eq_refl). destruct (loadContents _ _ _ _) as [[rest|e] t']; exact Hkeep.
Qed.

Lemma scanItem_spec st item i :
  let r := scanItem blobSHA256 st item i in
  sc_entries r.1 = match entryOf (bi_path item) i with Some e => <[bi_path item := e]> (sc_entries st) | None => sc_entries st end ∧
  r.2 = if bool_decide (pi_typ i = "dir") && negb (shouldIgnoreMountPath (bi_path item)) then [item] else [].
Proof.
  unfold scanItem, entryOf. cbv zeta. destruct (shouldIgnoreMountPath (bi_path item)); [by rewrite andb_false_r|].
  destruct (bool_decide_reflect (pi_typ i = "dir")); [done|].
  destruct (bool_decide_reflect (pi_typ i = "file")); [done|].
  by destruct (bool_decide_reflect (pi_typ i = "symlink")).
Qed.

(** A body that is kept as a blob. *)
Definition bigFile (p : string) (i : parsedInode) : Prop :=
  shouldIgnoreMountPath p = false ∧ pi_typ i = "file" ∧ inlineThreshold < len (pi_content i).

Lemma scanItem_blobs st item i :
  let r := scanItem blobSHA256 st item i in
  (∀ k v, sc_blobs r.1 !! k = Some v → sc_blobs st !! k = Some v ∨ k = blobSHA256 v) ∧
  (bigFile (bi_path item) i → is_Some (sc_blobs r.1 !! blobSHA256 (pi_content i))) ∧
  (∀ k, is_Some (sc_blobs st !! k) → is_Some (sc_blobs r.1 !! k)).
Proof.
  unfold scanItem, bigFile. cbv zeta. destruct (shouldIgnoreMountPath (bi_path item)); [split_and!; [by left|by intros []|done]|].
  destruct (bool_decide_reflect (pi_typ i = "dir")) as [->|]; [split_and!; [by left|by intros (_ & ? & _)|done]|].
  destruct (bool_decide_reflect (pi_typ i = "file")) as [|].
  - destruct (Z.leb_spec (len (pi_content i)) inlineThreshold); simpl; [split_and!; [by left|intros (_ & _ & ?); lia|done]|].
    destruct (sc_blobs st !! blobSHA256 (pi_content i)) eqn:E; simpl; [split_and!; [by left|by rewrite E; eauto|done]|].
    split_and!.
    + intros k v [[<- <-]|[_ ?]]%lookup_insert_Some; auto.
    + rewrite lookup_insert_eq. eauto.
    + intros k Hk'. apply lookup_insert_is_Some'. by right.
  - destruct (bool_decide_reflect (pi_typ i = "symlink")); simpl; (split_and!; [by left|by intros (_ & ? & _)|done]).
Qed.

(** What a level adds to the entries, and where it descends. *)
Lemma scanItems_spec st queue (r := scanItems blobSHA256 st (levelItems queue)) :
  (∀ p e, sc_entries r.1 !! p = Some e → sc_entries st !! p = Some e ∨
     ∃ item i, item ∈ queue ∧ bi_path item = p ∧ viewOf (bi_inodeID item) = Some i ∧ entryOf p i = Some e) ∧
  (∀ item i, item ∈ queue → viewOf (bi_inodeID item) = Some i → is_Some (entryOf (bi_path item) i) →
     is_Some (sc_entries r.1 !! bi_path item)) ∧
  (∀ p, is_Some (sc_entries st !! p) → is_Some (sc_entries r.1 !! p)) ∧
  (∀ item, item ∈ r.2 ↔ item ∈ queue ∧ shownDir (bi_inodeID item) (bi_path item)).
Proof.
  unfold r. clear r. revert st. induction queue as [|item queue IH]; intros st; simpl.
  { split_and!; auto; [by intros ? ? ?%elem_of_nil|]. intros item. rewrite elem_of_nil. naive_solver. }
  destruct (viewOf (bi_inodeID item)) as [i|] eqn:Ev.
  - destruct (scanItem_spec st item i) as [E1 E2]. destruct (scanItem blobSHA256 st item i) as [st1 dirs1]. simpl in E1, E2.
    destruct (IH st1) as (HA & HB & HC & HD). destruct (scanItems blobSHA256 st1 (levelItems queue)) as [st2 dirs2]. simpl in *.
    assert (∀ p, is_Some (sc_entries st !! p) → is_Some (sc_entries st1 !! p)) as Hkeep.
    { intros p Hp. rewrite E1. destruct (entryOf (bi_path item) i); [|done]. by apply lookup_insert_is_Some'; right. }
    split_and!.
    + intros p e He. apply HA in He as [He|(item' & i' & Hin & He)].
      * rewrite E1 in He. destruct (entryOf (bi_path item) i) as [e0|] eqn:Ee; [|by left].
        apply lookup_insert_Some in He as [[<- <-]|[_ He]]; [|by left].
        right. exists item, i. split_and!; [by left|done..].
      * right. exists item', i'. split; [by right|done].
    + intros item' i' [->|Hin]%elem_of_cons Hv [e He]; [|by eapply HB; eauto].
      apply HC. rewrite Ev in Hv. injection Hv as <-. rewrite E1, He. rewrite lookup_insert_eq. eauto.
    + intros p Hp. by apply HC, Hkeep.
    + intros item'. rewrite elem_of_app, HD, elem_of_cons, E2.
      assert (shownDir (bi_inodeID item) (bi_path item) ↔
        bool_decide (pi_typ i = "dir") && negb (shouldIgnoreMountPath (bi_path item)) = true) as Hs.
      { unfold shownDir. rewrite andb_true_iff, bool_decide_eq_true, negb_true_iff. split; [|by eauto].
        intros (i' & Hv & ? & ?). split; [congruence|done]. }
      destruct (_ && _); rewrite ?list_elem_of_singleton, ?elem_of_nil; split.
      * intros [->|[? ?]]; [split; [by left|by apply Hs]|split; [by right|done]].
      * intros [[->|?] ?]; [by left|by right].
      * intros [[]|[? ?]]. split; [by right|done].
      * intros [[->|?] Hx]; [by apply Hs in Hx|by right].
  - destruct (IH st) as (HA & HB & HC & HD). split_and!.
    + intros p e He. apply HA in He as [He|(item' & i' & Hin & He)]; [by left|]. right. exists item', i'. split; [by right|done].
    + intros item' i' [->|Hin]%elem_of_cons Hv He; [congruence|by eapply HB; eauto].
    + done.
    + intros item'. rewrite HD, elem_of_cons. unfold shownDir. split; [naive_solver|].
      intros [[->|?] (i' & Hv & ?)]; [congruence|]. eauto.
Qed.

Lemma scanItems_blobs st queue (r := scanItems blobSHA256 st (levelItems queue)) :
  (∀ k v, sc_blobs r.1 !! k = Some v → sc_blobs st !! k = Some v ∨ k = blobSHA256 v) ∧
  (∀ item i, item ∈ queue → viewOf (bi_inodeID item) = Some i → bigFile (bi_path item) i →
     is_Some (sc_blobs r.1 !! blobSHA256 (pi_content i))) ∧
  (∀ k, is_Some (sc_blobs st !! k) → is_Some (sc_blobs r.1 !! k)).
Proof.
  unfold r. clear r. revert st. induction queue as [|item queue IH]; intros st; simpl.
  { split_and!; auto. by intros ? ? ?%elem_of_nil. }
  destruct (viewOf (bi_inodeID item)) as [i|] eqn:Ev.
  - destruct (scanItem_blobs st item i) as (E1 & E2 & E3). destruct (scanItem blobSHA256 st item i) as [st1 dirs1]. simpl in E1, E2, E3.
    destruct (IH st1) as (HA & HB & HC). destruct (scanItems blobSHA256 st1 (levelItems queue)) as [st2 dirs2]. simpl in *.
    split_and!; [|..|by auto].
    + intros k v [?|?]%HA; [by apply E1|by right].
    + intros item' i' [->|Hin]%elem_of_cons Hv Hb; [|by eapply HB; eauto]. rewrite Ev in Hv. injection Hv as <-. by apply HC, E2.
  - destruct (IH st) as (HA & HB & HC). split_and!; [done| |done].
    intros item' i' [->|Hin]%elem_of_cons Hv He; [congruence|by eapply HB; eauto].
Qed.

Lemma childItems_spec item children x :
  x ∈ childItems keys item children ↔
  ∃ name id, children !! name = Some id ∧ bi_inodeID x = id ∧ bi_path x = joinPath (bi_path item) name.
Proof using Hk.
  unfold childItems. rewrite list_elem_of_fmap. setoid_rewrite (sort_slice_perm (less := stringLess)).
  split.
  - intros (name & -> & [id Hid]%is_order_elem); [|done]. exists name, id. simpl. by rewrite Hid.
  - intros (name & id & Hid & <- & Hp). exists name. split; [|apply is_order_elem; eauto]. rewrite Hid. destruct x. simpl in *. by subst.
Qed.

(** ** The levels are finite *)

Context (Hd : fs_inv d).

Lemma at_level_parent n id p : at_level (S n) id p → ∃ dir q name,
  at_level n dir q ∧ shownDir dir q ∧ lk (dirents d) dir name = Some id ∧ p = joinPath q name.
Proof. inversion 1; subst. eauto 8. Qed.

(** An inode is met on one level only. *)
Lemma at_level_unique n m id p q : at_level n id p → at_level m id q → n = m.
Proof using Hd.
  pose proof (inv_tree _ Hd) as Ht. intros H. revert m q. induction H as [|n dir p name id _ IH _ Hl]; intros m q H.
  - destruct m; [done|]. apply at_level_parent in H as (? & ? & ? & _ & _ & Hl & _). by apply (wf_links _ _ Ht) in Hl as [? _].
  - apply (wf_links _ _ Ht) in Hl as (Hid & nd & Hn & Hp & _). destruct m as [|m]; [by inversion H|].
    apply at_level_parent in H as (dir' & q' & name' & Ha & _ & Hl' & _).
    apply (wf_links _ _ Ht) in Hl' as (_ & nd' & Hn' & Hp' & _). f_equal. apply (IH m q'). congruence.
Qed.

Lemma at_level_chain n id p : at_level n id p →
  ∃ l, length l = S n ∧ NoDup l ∧ (∀ x, x ∈ l → ∃ k q, (k ≤ n)%nat ∧ at_level k x q) ∧ Forall (λ x, x ∈ dom (inodes d)) l.
Proof using Hd.
  pose proof (inv_tree _ Hd) as Ht. intros H. induction H as [|n dir p name id Ha (l & Hlen & Hnd & Hl & Hin) Hs Hlk].
  - exists ["1"]. split_and!; [done|apply NoDup_singleton|intros x ->%list_elem_of_singleton; exists O, "/"; split; [done|constructor]|].
    constructor; [|done]. destruct (wf_root _ _ Ht) as (nd & Hn & _). apply fmap_lookup_static in Hn as (h & Hh & _).
    by apply elem_of_dom.
  - exists (id :: l). split_and!; [simpl; lia| | |].
    + constructor; [|done]. intros (k & q & Hkn & Hq)%Hl.
      assert (S n = k); [|lia]. eapply at_level_unique; [|exact Hq]. econstructor; eauto.
    + intros x [->|Hx]%elem_of_cons; [exists (S n), (joinPath p name); split; [done|by econstructor]|].
      destruct (Hl x Hx) as (k & q & ? & ?). exists k, q. split; [lia|done].
    + constructor; [|done]. apply (wf_links _ _ Ht) in Hlk as (_ & nd & Hn & _).
      apply fmap_lookup_static in Hn as (h & Hh & _). by apply elem_of_dom.
Qed.

Lemma at_level_bound n id p : at_level n id p → (n < size (inodes d))%nat.
Proof using Hd.
  intros (l & Hlen & Hnd & _ & Hin)%at_level_chain.
  assert (length l ≤ size (dom (inodes d)))%nat; [|rewrite size_dom in *; lia].
  rewrite <- (size_list_to_set (C := gset string) l Hnd). apply subseteq_size. intros x Hx%elem_of_list_to_set.
  by eapply Forall_forall in Hin.
Qed.

(** ** The whole scan *)

Definition on_level (n : nat) (queue : list bfsItem) : Prop :=
  ∀ item, item ∈ queue ↔ at_level n (bi_inodeID item) (bi_path item).

Lemma next_level n queue dirs : on_level n queue →
  (∀ item, item ∈ dirs ↔ item ∈ queue ∧ shownDir (bi_inodeID item) (bi_path item)) →
  on_level (S n) (concat (zip_with (childItems keys) dirs (map (λ item, default ∅ (dirents d !! bi_inodeID item)) dirs))).
Proof using Hk.
  intros Hq Hdirs x. unfold on_level in Hq.
  assert (x ∈ concat (zip_with (childItems keys) dirs (map (λ item, default ∅ (dirents d !! bi_inodeID item)) dirs)) ↔
    ∃ item, item ∈ dirs ∧ x ∈ childItems keys item (default ∅ (dirents d !! bi_inodeID item))) as ->.
  { clear Hdirs. induction dirs as [|item dirs IH]; simpl; [rewrite elem_of_nil; split; [done|intros (? & ?%elem_of_nil & _); done]|].
    rewrite elem_of_app, IH. split.
    - intros [Hx|(i & Hi & Hx)]; [exists item; split; [by left|done]|exists i; split; [by right|done]].
    - intros (i & [->|Hi]%elem_of_cons & Hx); [by left|right; eauto]. }
  setoid_rewrite childItems_spec. setoid_rewrite Hdirs. setoid_rewrite Hq. split.
  - intros (item & [Ha Hs] & name & id & Hid & E1 & E2). rewrite E1, E2. econstructor; [done..|].
    unfold lk. destruct (dirents d !! bi_inodeID item) as [c|] eqn:Ec; [done|]. simpl in Hid. by rewrite lookup_empty in Hid.
  - intros H. apply at_level_parent in H as (dir & q & name & Ha & Hs & Hl & E).
    exists {| bi_inodeID := dir; bi_path := q |}. split; [done|]. exists name, (bi_inodeID x). split_and!; [|done|done].
    simpl. unfold lk in Hl. by destruct (dirents d !! dir) as [c|] eqn:Ec.
Qed.

Record scanned (n : nat) (st st' : scanState) : Prop := {
  sn_sound p e : sc_entries st' !! p = Some e → sc_entries st !! p = Some e ∨
    ∃ m id i, at_level m id p ∧ viewOf id = Some i ∧ entryOf p i = Some e;
  sn_complete m id p i : (n ≤ m)%nat → at_level m id p → viewOf id = Some i → is_Some (entryOf p i) → is_Some (sc_entries st' !! p);
  sn_keeps p : is_Some (sc_entries st !! p) → is_Some (sc_entries st' !! p);
  sn_blobs k v : sc_blobs st' !! k = Some v → sc_blobs st !! k = Some v ∨ k = blobSHA256 v;
  sn_bodies m id p i : (n ≤ m)%nat → at_level m id p → viewOf id = Some i → bigFile p i →
    is_Some (sc_blobs st' !! blobSHA256 (pi_content i));
  sn_keeps_blobs k : is_Some (sc_blobs st !! k) → is_Some (sc_blobs st' !! k)
}.

Lemma no_level n m id p : (∀ id p, ¬ at_level n id p) → (n ≤ m)%nat → ¬ at_level m id p.
Proof.
  intros Hno Hle. revert id p. induction Hle as [|m _ IH]; [done|]. intros id p (dir & q & name & Ha & _)%at_level_parent.
  by eapply IH.
Qed.

Lemma scanLevels_spec fuel n queue st t : on_level n queue → (size (inodes d) ≤ fuel + n)%nat →
  (∃ st' t', scanLevels arrays blobSHA256 keys (λ _, d) fuel queue st t = Some (Ok st', t') ∧ scanned n st st') ∨
  ∃ m id p e t', at_level m id p ∧ loadedOf id = Err e ∧
    scanLevels arrays blobSHA256 keys (λ _, d) fuel queue st t = Some (Err (LoadFailed e), t').
Proof using Hd Hk.
  revert n queue st t. induction fuel as [|fuel IH]; intros n queue st t Hq Hfuel; destruct queue as [|item0 queue0] eqn:Eq;
    try (left; exists st, t; split; [done|]; split; [by left| |done|by left| |done];
      intros m id p i Hle Ha; exfalso; revert Ha; (apply (no_level n); [|done]); intros id' p' Ha;
      apply (Hq {| bi_inodeID := id'; bi_path := p' |}) in Ha; by apply elem_of_nil in Ha).
  { assert (at_level n (bi_inodeID item0) (bi_path item0)) as Ha%at_level_bound by (apply Hq; by left). lia. }
  cbn [scanLevels]. rewrite <- Eq in *. clear item0 queue0 Eq.
  destruct (readAll_const (λ item d, inodes d !! bi_inodeID item) queue t) as [t1 ->].
  destruct (loadContents_const queue t1) as [[t2 ->]|(item & e & t2 & Hin & He & ->)].
  2:{ right. exists n, (bi_inodeID item), (bi_path item), e, t2. split; [by apply Hq|done]. }
  destruct (scanItems_spec st queue) as (HA & HB & HC & HD). destruct (scanItems_blobs st queue) as (HE & HF & HG).
  destruct (scanItems blobSHA256 st (levelItems queue)) as [st1 dirs]. simpl in HA, HB, HC, HD, HE, HF, HG.
  assert (∀ p e, sc_entries st1 !! p = Some e → sc_entries st !! p = Some e ∨
    ∃ m id i, at_level m id p ∧ viewOf id = Some i ∧ entryOf p i = Some e) as HA'.
  { intros p e He. apply HA in He as [?|(item & i & Hin & <- & ? & ?)]; [by left|]. right.
    exists n, (bi_inodeID item), i. split; [by apply Hq|done]. }
  assert (∀ id p i, at_level n id p → viewOf id = Some i → is_Some (entryOf p i) → is_Some (sc_entries st1 !! p)) as HB'.
  { intros id p i Ha Hv He. apply (Hq {| bi_inodeID := id; bi_path := p |}) in Ha. by apply (HB _ i Ha). }
  assert (∀ id p i, at_level n id p → viewOf id = Some i → bigFile p i → is_Some (sc_blobs st1 !! blobSHA256 (pi_content i))) as HF'.
  { intros id p i Ha Hv Hb. apply (Hq {| bi_inodeID := id; bi_path := p |}) in Ha. by apply (HF _ i Ha). }
  destruct dirs as [|dir0 dirs0] eqn:Ed.
  { left. exists st1, t2. split; [done|].
    split; [done| |done|done| |done]; intros m id p i Hle Ha Hv He;
      (destruct (decide (m = n)) as [->|Hne]; [by (eapply HB' || eapply HF')|]);
      exfalso; revert Ha; (apply (no_level (S n)); [|lia]);
      intros id' p' (dir & q & name & Ha & Hs & _)%at_level_parent;
      assert ({| bi_inodeID := dir; bi_path := q |} ∈ (@nil bfsItem)) as Hx%elem_of_nil by (by apply HD; split; [apply Hq|]);
      done. }
  cbv iota. rewrite <- Ed in *. destruct (readAll_const (λ item d, default ∅ (dirents d !! bi_inodeID item)) dirs t2) as [t3 Hr].
  rewrite Hr.
  destruct (IH (S n) _ st1 t3 (next_level n queue dirs Hq HD) ltac:(lia)) as [(st' & t' & Hs & [S1 S2 S3 S4 S5 S6])|(m & id & p & e & t' & H)].
  - left. exists st', t'. split; [exact Hs|]. split; [|..|by intros; apply S6, HG].
    + intros p e He. apply S1 in He as [He|?]; [by apply HA'|by right].
    + intros m id p i Hle Ha Hv He. destruct (decide (m = n)) as [->|Hne]; [by eapply S3, HB'|]. eapply S2; [|done..]. lia.
    + by intros; apply S3, HC.
    + intros k v [?|?]%S4; [by apply HE|by right].
    + intros m id p i Hle Ha Hv Hb. destruct (decide (m = n)) as [->|Hne]; [by eapply S6, HF'|]. eapply S5; [|done..]. lia.
  - right. by exists m, id, p, e, t'.
Qed.

(** ** Paths are places *)

Definition names_ok : Prop := ∀ dir name id, lk (dirents d) dir name = Some id → valid_name name = true.

Lemma at_level_path n id p : names_ok → at_level n id p → ∃ ws, valid_names ws ∧ p = abs ws ∧ length ws = n.
Proof.
  intros Hn H. induction H as [|n dir p name id _ (ws & Hv & -> & Hlen) _ Hl]; [exists []; split_and!; [constructor|done..]|].
  assert (valid_name name = true) as Hname by (by eapply Hn). exists (ws ++ [name]).
  split_and!; [apply valid_names_app; split; [done|by repeat constructor]|by apply joinPath_abs|rewrite length_app; simpl; lia].
Qed.

Lemma at_level_functional n m id id' p : names_ok → at_level n id p → at_level m id' p → id = id' ∧ n = m.
Proof.
  intros Hn H. revert m id'. induction H as [|n dir p name id Ha IH _ Hl]; intros m id' H'.
  - destruct (at_level_path m id' "/" Hn H') as (ws & Hv & E & Hlen). change "/" with (abs []) in E.
    apply abs_inj in E; [|constructor|done]. subst ws. simpl in Hlen. subst m. by inversion H'.
  - destruct (at_level_path n dir p Hn Ha) as (ws & Hv & -> & Hlen). rewrite joinPath_abs in H' by done.
    assert (valid_name name = true) as Hname by (by eapply Hn).
    assert (valid_names (ws ++ [name])) as Hv1 by (apply valid_names_app; split; [done|by repeat constructor]).
    destruct m as [|m].
    { inversion H' as [E1 E2 E3|]. destruct (JoinWith_valid_ne (ws ++ [name])); [by destruct ws|done|exact (eq_sym E3)]. }
    apply at_level_parent in H' as (dir' & q & name' & Ha' & _ & Hl' & E).
    destruct (at_level_path m dir' q Hn Ha') as (ws' & Hv' & -> & _). rewrite joinPath_abs in E by done.
    assert (valid_name name' = true) as Hname' by (by eapply Hn).
    apply abs_inj in E; [|done|apply valid_names_app; split; [done|by repeat constructor]].
    apply app_inj_tail in E as [-> ->]. destruct (IH m dir' Ha') as [-> ->]. split; [congruence|done].
Qed.

(** ** The result *)

Definition live_entries (entries : manifest) : Prop :=
  ∀ p e, entries !! p = Some e ↔ ∃ n id i, at_level n id p ∧ viewOf id = Some i ∧ entryOf p i = Some e.

Definition readable : Prop := ∀ n id p e, at_level n id p → loadedOf id ≠ Err e.

Lemma scan_spec fuel workspace savepoint t : (size (inodes d) ≤ fuel)%nat →
  (∃ st t', BuildManifestFromWorkspaceRoot arrays blobSHA256 keys (λ _, d) fuel workspace savepoint t =
     Some (Ok ({| mn_Version := formatVersion; mn_Workspace := workspace; mn_Savepoint := savepoint;
                  mn_Entries := sc_entries st |}, st), t') ∧ (names_ok → live_entries (sc_entries st)) ∧
     (∀ k v, sc_blobs st !! k = Some v → k = blobSHA256 v) ∧
     (∀ n id p i, at_level n id p → viewOf id = Some i → bigFile p i → is_Some (sc_blobs st !! blobSHA256 (pi_content i)))) ∨
  ∃ n id p e t', at_level n id p ∧ loadedOf id = Err e ∧
    BuildManifestFromWorkspaceRoot arrays blobSHA256 keys (λ _, d) fuel workspace savepoint t = Some (Err (LoadFailed e), t').
Proof using Hd Hk.
  intros Hfuel. unfold BuildManifestFromWorkspaceRoot. set (st0 := Build_scanState _ _ _ _ _).
  assert (∀ p, sc_entries st0 !! p = None) as Hnone by (intros; apply lookup_empty).
  assert (∀ k, sc_blobs st0 !! k = None) as Hnoblob by (intros; apply lookup_empty).
  assert (on_level 0 [{| bi_inodeID := workspaceFSRootInodeID; bi_path := "/" |}]) as H0.
  { intros [id p]. rewrite list_elem_of_singleton. simpl. split; [intros [= -> ->]; constructor|by inversion 1]. }
  destruct (scanLevels_spec fuel 0 _ st0 t H0 ltac:(lia)) as [(st & t' & -> & [S1 S2 _ S4 S5 _])|(m & id & p & e & t' & Ha & He & ->)];
    [left|right; by exists m, id, p, e, t'].
  exists st, t'. destruct (sc_entries st !! "/") as [e|] eqn:Er.
  - split; [done|]. split; [|split; [intros k v [Hx|?]%S4; [by rewrite Hnoblob in Hx|done]|intros; eapply S5; [lia|done..]]].
    intros Hn p e'. split.
    + intros [Hp|?]%S1; [by rewrite Hnone in Hp|done].
    + intros (n & id & i & Ha & Hv & He). destruct (S2 n id p i ltac:(lia) Ha Hv) as [e'' He'']; [eauto|].
      rewrite He''. apply S1 in He'' as [Hp|(n' & id' & i' & Ha' & Hv' & He'')]; [by rewrite Hnone in Hp|].
      destruct (at_level_functional _ _ _ _ _ Hn Ha Ha') as [<- _]. congruence.
  - exfalso. destruct (wf_root _ _ (inv_tree _ Hd)) as (nd & Hl & Hty). apply fmap_lookup_static in Hl as (h & Hh & ->).
    simpl in Hty. assert (viewOf "1" = parseInode (Some h)) as Hv.
    { unfold viewOf, loadedOf. rewrite Hh. unfold parseInode. simpl. by rewrite Hty. }
    unfold parseInode in Hv. simpl in Hv. rewrite Hty in Hv. simpl in Hv.
    destruct (S2 0%nat "1" "/" _ ltac:(lia) al_root Hv) as [e He]; [by eexists|]. congruence.
Qed.
End live.
