(* ===== verification/RootProps.v ===== *)
(** A checkpoint is what it was taken of: reading the live tree ends, lists exactly what
    is in it, and writing the manifest out gives a well-formed tree that reads back as
    the same manifest (workspace_root.go and workspace_root_manifest.go together;
    C17, C18). *)
From Stdlib Require Import Strings.Byte.
From stdpp Require Import pretty.
From S2P Require Import Prelude Content Paths FsState FsTree FsScripts FsClient FsInv FsProps ServerDiff Base64 RootNodes RootBuild RootTree RootScan RootLive.
#[local] Open Scope string_scope.
#[local] Open Scope list_scope.
#[local] Open Scope Z_scope.

Lemma Load_written {arr} `{!RedisArray arr} arrays data : len data ≤ MaxArraySize →
  Load arrays (QueueWriteFull (PreferredRef arrays) data) (PreferredRef arrays) (len data) = Ok data.
Proof.
  intros Hm. unfold PreferredRef. destruct arrays.
  - apply Load_repr; [reflexivity|done|]. apply QueueWriteFull_repr.
  - reflexivity.
Qed.

Section restored.
Context {arr : Type} `{!RedisArray arr} (arrays : bool) (blobSHA256 : bytes → string).
Context (cached blobs : string → option bytes).
Local Abbreviation ref := (PreferredRef arrays).

(** An entry as a scan makes it, whose body can be fetched. *)
Inductive scannedEntry : ManifestEntry → Prop :=
| se_dir mode mtime : scannedEntry (scanEntry "dir" mode mtime 0 "" "" "")
| se_inline mode mtime data : len data ≤ inlineThreshold →
    scannedEntry (scanEntry "file" mode mtime (len data) "" (EncodeToString data) "")
| se_blob mode mtime data : inlineThreshold < len data → blobSHA256 data ≠ "" →
    fetchBlob cached blobs (blobSHA256 data) = Ok data →
    scannedEntry (scanEntry "file" mode mtime (len data) (blobSHA256 data) "" "")
| se_link mode mtime target :
    scannedEntry (scanEntry "symlink" mode mtime (Z.of_nat (String.length target)) "" "" target).

Record scannedManifest (E : manifest) : Prop := {
  sm_complete : complete E;
  sm_entry p e : E !! p = Some e → scannedEntry e ∧ shouldIgnoreMountPath p = false;
  sm_mode p e : E !! p = Some e → mf_Mode e ≠ 0 ∧ u32 (mf_Mode e) = mf_Mode e;
  sm_size p e : E !! p = Some e → mf_Type e = "file" → mf_Size e ≤ MaxArraySize
}.

Lemma scannedEntry_writable e : scannedEntry e → writable cached blobs e.
Proof.
  intros H. split.
  - split; [destruct H; simpl; auto|]. destruct H; simpl; try lia; apply len_nonneg.
  - destruct H; simpl; try done; intros _; unfold ManifestEntryData; simpl.
    + destruct (bool_decide_reflect (EncodeToString data = "")) as [E|E]; simpl.
      * apply EncodeToString_empty in E as ->. eauto.
      * rewrite DecodeString_EncodeToString. eauto.
    + rewrite (bool_decide_eq_false_2 (blobSHA256 data = "")) by done. eauto.
Qed.

(** The body a file entry stands for. *)
Lemma scannedEntry_data mode mtime size blob inline target e :
  e = scanEntry "file" mode mtime size blob inline target → scannedEntry e →
  ∃ data, ManifestEntryData e (fetchBlob cached blobs) = Ok data ∧ target = "" ∧ size = len data ∧
    blob = (if len data <=? inlineThreshold then "" else blobSHA256 data) ∧
    inline = (if len data <=? inlineThreshold then EncodeToString data else "").
Proof.
  intros -> H. inversion H; subst; exists data; unfold ManifestEntryData; simpl.
  - replace (len data <=? inlineThreshold) with true by (symmetry; by apply Z.leb_le).
    split_and!; try done. destruct (bool_decide_reflect (EncodeToString data = "")) as [E|E]; simpl.
    + by apply EncodeToString_empty in E as ->.
    + by rewrite DecodeString_EncodeToString.
  - replace (len data <=? inlineThreshold) with false by (symmetry; by apply Z.leb_gt).
    rewrite (bool_decide_eq_false_2 (blobSHA256 data = "")) by done. split_and!; done.
Qed.

Context (E : manifest) (HE : scannedManifest E) (ns : list workspaceFSNode) (d : db arr).
Context (Hd : materialized cached blobs ref E ns d).

(** Reading the inode of a node gives the entry back. *)
Lemma restored_view n : n ∈ ns →
  ∃ i, viewOf arrays d (wn_ID n) = Some i ∧ entryOf blobSHA256 (wn_Path n) i = Some (wn_Entry n) ∧
    pi_typ i = mf_Type (wn_Entry n) ∧ loadedOf arrays d (wn_ID n) = Ok (Some i).
Proof using HE Hd.
  intros Hn. destruct Hd as [Hno _ [_ _ _ Hi Hco] _].
  pose proof (no_entry _ _ Hno n Hn) as He. destruct (sm_entry E HE _ _ He) as [Hs Hig]. destruct (sm_mode E HE _ _ He) as [Hm0 Hmu].
  pose proof (sm_size E HE _ _ He) as Hsize.
  destruct (fields_writable cached blobs ref n (scannedEntry_writable _ Hs)) as (f & c & s & Hf).
  assert (inodes d !! wn_ID n = Some (nodeHash f)) as Hh by (apply Hi; exists n, f, c, s; auto).
  pose proof (Hco n f c s Hn Hf) as Hcell.
  assert (loadedOf arrays d (wn_ID n) = Ok (viewOf arrays d (wn_ID n)) ∧
    ∃ i, viewOf arrays d (wn_ID n) = Some i ∧ entryOf blobSHA256 (wn_Path n) i = Some (wn_Entry n) ∧
      pi_typ i = mf_Type (wn_Entry n)) as [El (i & Hv & Ho & Ht)]; [|exists i; rewrite El, Hv; done].
  unfold viewOf, loadedOf. rewrite Hh. unfold workspaceFSNodeFields in Hf. cbv zeta in Hf.
  unfold manifestEntryModeForWorkspaceFS in Hf. rewrite (proj2 (Z.eqb_neq _ _) Hm0) in Hf.
  unfold entryOf. rewrite Hig. assert (bool_decide (ref = "") = false) as Hnoref by (by destruct arrays).
  destruct (wn_Entry n) as [ty mode mtime size blob inline target] eqn:En. simpl in *. inversion Hs; subst; simpl in *.
  - injection Hf as <- <- <-. unfold nodeHash, parseInode. simpl. split; [done|]. eexists. split; [done|].
    simpl. rewrite Hmu. done.
  - destruct (scannedEntry_data _ _ _ _ _ _ _ eq_refl Hs) as (data' & Hdata & _ & Hsz & Hbl & Hin). unfold scanEntry in Hdata.
    rewrite Hdata in Hf. injection Hf as <- <- <-. unfold nodeHash, parseInode. simpl. rewrite (Hcell eq_refl), Hnoref, Load_written by (rewrite <- Hsz; by apply Hsize).
    split; [done|]. eexists. split; [done|]. simpl. by rewrite Hmu, <- Hbl, <- Hin, Hsz.
  - destruct (scannedEntry_data _ _ _ _ _ _ _ eq_refl Hs) as (data' & Hdata & _ & Hsz & Hbl & Hin). unfold scanEntry in Hdata.
    rewrite Hdata in Hf. injection Hf as <- <- <-. unfold nodeHash, parseInode. simpl. rewrite (Hcell eq_refl), Hnoref, Load_written by (rewrite <- Hsz; by apply Hsize).
    split; [done|]. eexists. split; [done|]. simpl. by rewrite Hmu, <- Hbl, <- Hin, Hsz.
  - injection Hf as <- <- <-. unfold nodeHash, parseInode. simpl. split; [done|]. eexists. split; [done|].
    simpl. rewrite Hmu. done.
Qed.

Lemma restored_node id h : inodes d !! id = Some h → ∃ n, n ∈ ns ∧ wn_ID n = id ∧ h_parent h = wn_ParentID n ∧ h_name h = wn_Name n.
Proof using Hd.
  intros Hh. apply (hn_inodes _ _ _ _ _ _ (mt_holds _ _ _ _ _ _ Hd)) in Hh as (n & f & c & s & Hn & Hid & Hf & ->).
  destruct (node_place cached blobs ref n f c s Hf) as (? & ? & _). eauto 6.
Qed.

Lemma restored_ids n m : n ∈ ns → m ∈ ns → wn_ID n = wn_ID m → n = m.
Proof using Hd.
  intros [i Hi]%list_elem_of_lookup [j Hj]%list_elem_of_lookup Eid. pose proof (mt_nodes _ _ _ _ _ _ Hd) as Hno.
  rewrite (no_ids _ _ Hno i n Hi), (no_ids _ _ Hno j m Hj) in Eid. unfold FormatInt in Eid. apply (inj pretty) in Eid.
  assert (i = j) as <- by lia. congruence.
Qed.

Lemma restored_root n i : ns !! i = Some n → wn_ID n = "1" ↔ i = O.
Proof using Hd.
  intros Hi. pose proof (mt_nodes _ _ _ _ _ _ Hd) as Hno. destruct (no_root _ _ Hno) as (e & rest & Ens).
  split; [|intros ->; rewrite Ens in Hi; by injection Hi as <-]. intros E1.
  rewrite (no_ids _ _ Hno i n Hi) in E1. change "1" with (FormatInt 1) in E1. unfold FormatInt in E1. apply (inj pretty) in E1. lia.
Qed.

(** The links are the nodes below their directories. *)
Lemma restored_link dir name id : lk (dirents d) dir name = Some id →
  ∃ n m, n ∈ ns ∧ m ∈ ns ∧ wn_ID n = id ∧ wn_ID m = dir ∧ wn_Path m = workspaceFSParentPath (wn_Path n) ∧
    wn_Path n ≠ "/" ∧ name = Base (wn_Path n).
Proof using Hd.
  intros Hl. destruct (mt_holds _ _ _ _ _ _ Hd) as [Ht _ _ _ _]. apply (wf_links _ _ Ht) in Hl as (Hid & nd & Hn & <- & <-).
  apply fmap_lookup_static in Hn as (h & Hh & ->). simpl. destruct (restored_node id h Hh) as (n & Hn & <- & -> & ->).
  pose proof Hn as [i Hi]%list_elem_of_lookup. destruct (decide (i = O)) as [E0|Hi0]; [by apply (restored_root n i Hi) in E0|].
  destruct (no_parent _ _ (mt_nodes _ _ _ _ _ _ Hd) i n Hi ltac:(lia)) as (Hroot & -> & j & m & _ & Hm & Hp & -> & _).
  exists n, m. split_and!; try done. by eapply list_elem_of_lookup_2.
Qed.

Lemma restored_canon n : n ∈ ns → canon (wn_Path n).
Proof using HE Hd.
  intros Hn. eapply (cm_canon E (sm_complete E HE)). by apply (no_entry _ _ (mt_nodes _ _ _ _ _ _ Hd)).
Qed.

Lemma restored_names : names_ok d.
Proof using HE Hd.
  intros dir name id (n & m & Hn & _ & _ & _ & _ & Hroot & ->)%restored_link.
  destruct (canon_cases _ (restored_canon n Hn)) as [?|(ws & w & Hv & Ep)]; [done|]. rewrite Ep, base_snoc by done.
  apply valid_names_app in Hv as [_ Hv]. by apply Forall_cons in Hv as [? _].
Qed.

Lemma restored_levels k id p : at_level arrays d k id p → ∃ n, n ∈ ns ∧ wn_ID n = id ∧ wn_Path n = p.
Proof using HE Hd.
  induction 1 as [|k dir p name id _ (m & Hm & <- & <-) _ Hl].
  - destruct (no_root _ _ (mt_nodes _ _ _ _ _ _ Hd)) as (e & rest & ->). eexists. split; [by left|done].
  - apply restored_link in Hl as (n & m' & Hn & Hm' & <- & Eid & Hp & Hroot & ->).
    apply restored_ids in Eid as ->; [|done..]. exists n. split_and!; [done..|]. rewrite Hp. symmetry.
    apply parent_base; [by apply restored_canon|done].
Qed.

Lemma levels_restored i n : ns !! i = Some n → ∃ k, at_level arrays d k (wn_ID n) (wn_Path n).
Proof using HE Hd.
  revert n. induction (lt_wf i) as [i _ IH]. intros n Hi. pose proof (mt_nodes _ _ _ _ _ _ Hd) as Hno.
  destruct (decide (i = O)) as [->|Hi0].
  { destruct (no_root _ _ Hno) as (e & rest & Ens). rewrite Ens in Hi. injection Hi as <-. exists O. constructor. }
  destruct (no_parent _ _ Hno i n Hi ltac:(lia)) as (Hroot & Hname & j & m & Hj & Hm & Hp & Hpid & Hdir).
  destruct (IH j Hj m Hm) as [k Hk]. exists (S k).
  assert (n ∈ ns) as Hin by (by eapply list_elem_of_lookup_2). assert (m ∈ ns) as Hmin by (by eapply list_elem_of_lookup_2).
  rewrite <- (parent_base (wn_Path n)) by (done || by apply restored_canon). rewrite <- Hp. econstructor; [exact Hk| |].
  - destruct (restored_view m Hmin) as (im & Hv & _ & Ht & _). exists im. split_and!; [done|congruence|].
    apply (sm_entry E HE (wn_Path m) (wn_Entry m)). by apply (no_entry _ _ Hno).
  - destruct (mt_holds _ _ _ _ _ _ Hd) as [Ht _ _ Hino _]. apply (wf_links _ _ Ht).
    split; [intros E1; by apply (restored_root n i Hi) in E1|].
    destruct (fields_writable cached blobs ref n) as (f & c & s & Hf).
    { apply scannedEntry_writable, (sm_entry E HE (wn_Path n)). by apply (no_entry _ _ Hno). }
    destruct (node_place cached blobs ref n f c s Hf) as (E1 & E2 & _).
    exists (static (nodeHash f)). split; [apply static_lookup, Hino; by exists n, f, c, s|]. simpl. rewrite E1, E2. by rewrite <- Hpid.
Qed.

(** The restored tree shows exactly the manifest. *)
Lemma restored_live : live_entries arrays blobSHA256 d E.
Proof using HE Hd.
  pose proof (mt_nodes _ _ _ _ _ _ Hd) as Hno. intros p e. split.
  - intros He. destruct (proj1 (mt_cover _ _ _ _ _ _ Hd p) ltac:(eauto)) as (n & Hn & <-).
    rewrite (no_entry _ _ Hno n Hn) in He. injection He as <-.
    pose proof Hn as [i Hi]%list_elem_of_lookup. destruct (levels_restored i n Hi) as [k Hk].
    destruct (restored_view n Hn) as (v & Hv & Ho & _). by exists k, (wn_ID n), v.
  - intros (k & id & v & Hk & Hv & Ho). destruct (restored_levels k id p Hk) as (n & Hn & <- & <-).
    destruct (restored_view n Hn) as (v' & Hv' & Ho' & _). rewrite (no_entry _ _ Hno n Hn). congruence.
Qed.

Lemma restored_readable : readable arrays d.
Proof using HE Hd.
  intros k id p e (n & Hn & <- & <-)%restored_levels. destruct (restored_view n Hn) as (v & _ & _ & _ & ->). done.
Qed.
End restored.

(** What is assumed of SHA-256 in hexadecimal: no two bodies with one name, and a name
    is not empty. *)
Class BlobHash (blobSHA256 : bytes → string) := {
  blob_inj : Inj (=) (=) blobSHA256;
  blob_named data : blobSHA256 data ≠ ""
}.

Section captured.
Context {arr : Type} `{!RedisArray arr} (arrays : bool) (blobSHA256 : bytes → string) `{!BlobHash blobSHA256}.
Context (cached blobs : string → option bytes) (d : db arr) (Hd : fs_inv d) (Hn : names_ok d).

Definition modes_ok : Prop := ∀ id h, inodes d !! id = Some h → u32 (h_mode h) ≠ 0.

Lemma view_inode id i : viewOf arrays d id = Some i → ∃ h, inodes d !! id = Some h ∧ h_type h = Some (pi_typ i) ∧ pi_mode i = u32 (h_mode h).
Proof.
  unfold viewOf, loadedOf. destruct (inodes d !! id) as [h|]; [|done]. unfold parseInode. simpl.
  destruct (h_type h) as [ty|] eqn:Et; [|done]. simpl. intros H. exists h. split; [done|].
  repeat case_match; simplify_eq/=; done.
Qed.

(** No body larger than an array can hold. *)
Definition sizes_ok (entries : manifest) : Prop := ∀ p e, entries !! p = Some e → mf_Type e = "file" → mf_Size e ≤ MaxArraySize.

(** What a scan lists is a manifest that can be written out. *)
Lemma captured_manifest entries (Hl : live_entries arrays blobSHA256 d entries) (Hm : modes_ok) : sizes_ok entries →
  (∀ n id p i, at_level arrays d n id p → viewOf arrays d id = Some i → bigFile p i →
     fetchBlob cached blobs (blobSHA256 (pi_content i)) = Ok (pi_content i)) →
  scannedManifest blobSHA256 cached blobs entries.
Proof using BlobHash0 Hd Hn.
  intros Hsizes Hb.
  assert (∀ p e, entries !! p = Some e → ∃ n id i, at_level arrays d n id p ∧ viewOf arrays d id = Some i ∧
    entryOf blobSHA256 p i = Some e ∧ shouldIgnoreMountPath p = false ∧ mf_Mode e = pi_mode i) as Hent.
  { intros p e (n & id & i & Ha & Hv & He)%Hl. exists n, id, i. split_and!; try done; unfold entryOf in He;
      destruct (shouldIgnoreMountPath p); try done. repeat case_bool_decide; by simplify_eq/=. }
  split.
  - split.
    + destruct (wf_root _ _ (inv_tree _ Hd)) as (nd & Hlk & Hty). apply fmap_lookup_static in Hlk as (h & Hh & ->). simpl in Hty.
      exists (scanEntry "dir" (u32 (h_mode h)) (h_mtime h) 0 "" "" ""). split; [|split; [done|by apply (Hm "1" h)]].
      apply Hl. exists O, "1". eexists. split; [constructor|].
      unfold viewOf, loadedOf. rewrite Hh. unfold parseInode. simpl. rewrite Hty. simpl. split; [done|].
      unfold entryOf. simpl. done.
    + intros p e (n & id & i & Ha & _)%Hent. destruct (at_level_path arrays d n id p Hn Ha) as (ws & ? & ? & _). by exists ws.
    + intros p e (n & id & i & Ha & _)%Hent Hp. destruct n as [|n]; [by inversion Ha; subst|].
      apply at_level_parent in Ha as (dir & q & name & Ha & (j & Hj & Hjt & Hjig) & Hlk & ->).
      destruct (at_level_path arrays d n dir q Hn Ha) as (ws & Hv & -> & _).
      assert (valid_name name = true) as Hname by (by eapply Hn).
      assert (valid_names (ws ++ [name])) as Hv1 by (apply valid_names_app; split; [done|by repeat constructor]).
      rewrite joinPath_abs, parent_snoc by done.
      exists (scanEntry "dir" (pi_mode j) (pi_mtimeMs j) 0 "" "" ""). split; [|done].
      apply Hl. exists n, dir, j. split_and!; [done..|]. unfold entryOf. by rewrite Hjig, Hjt.
  - intros p e (n & id & i & Ha & Hv & He & Hig & _)%Hent. split; [|done]. unfold entryOf in He. rewrite Hig in He.
    repeat case_bool_decide; simplify_eq; cbv zeta; [constructor| |constructor].
    destruct (Z.leb_spec (len (pi_content i)) inlineThreshold); constructor; [done|done|apply blob_named|].
    eapply Hb; [done|done|]. by split_and!.
  - intros p e (n & id & i & Ha & Hv & He & Hig & ->)%Hent. destruct (view_inode id i Hv) as (h & Hh & _ & ->).
    split; [by eapply Hm|]. unfold u32. by rewrite Z.mod_mod.
  - exact Hsizes.
Qed.
End captured.

(** * Properties *)

(** C17: Reading the live root ends: on a workspace that nobody changes meanwhile the scan
    needs no more levels than there are inodes.  It fails only over a body it cannot
    load; otherwise the manifest has an entry for exactly the paths that lead through
    shown directories to an inode of a known type, with what that inode holds. *)
Theorem live_scan_ends {arr} `{!RedisArray arr} arrays blobSHA256 `{!SliceSort stringLess} (keys : mapOrder) (d : db arr)
    fuel workspace savepoint t : is_order keys → fs_inv d → (size (inodes d) ≤ fuel)%nat →
  ∃ r t', BuildManifestFromWorkspaceRoot arrays blobSHA256 keys (λ _, d) fuel workspace savepoint t = Some (r, t') ∧
    match r with
    | Ok (m, st) => mn_Entries m = sc_entries st ∧ (names_ok d → live_entries arrays blobSHA256 d (mn_Entries m))
    | Err e => ∃ n id p e', at_level arrays d n id p ∧ loadedOf arrays d id = Err e' ∧ e = LoadFailed e'
    end.
Proof.
  intros Hk Hd Hfuel. destruct (scan_spec arrays blobSHA256 keys Hk d Hd fuel workspace savepoint t Hfuel)
    as [(st & t' & -> & Hl & _)|(n & id & p & e & t' & Ha & He & ->)].
  - by exists (Ok ({| mn_Version := formatVersion; mn_Workspace := workspace; mn_Savepoint := savepoint; mn_Entries := sc_entries st |}, st)), t'.
  - exists (Err (LoadFailed e)), t'. split; [done|]. by exists n, id, p, e.
Qed.

Definition sampleWorld : world (gmap Z bytes) := run_ops (P := solo_params) demo_ops root_world.

Lemma sampleWorld_inv : fs_inv (w_db sampleWorld).
Proof. apply (wi_fs (P := solo_params)), (run_ops_steps (RL := solo_rely solo_params solo_is_solo)), root_world_inv. Qed.

(** A name of a body for the samples: its text in base64, marked. *)
Definition sampleSHA (data : bytes) : string := "b" +:+ EncodeToString data.

Lemma live_scan_ends_witness :
  ∃ r t', BuildManifestFromWorkspaceRoot true sampleSHA sample_keys (λ _, w_db sampleWorld) 5 "w" "cp" 0 = Some (r, t') ∧
    match r with
    | Ok (m, st) => mn_Entries m = sc_entries st ∧ (names_ok (w_db sampleWorld) → live_entries true sampleSHA (w_db sampleWorld) (mn_Entries m))
    | Err e => ∃ n id p e', at_level true (w_db sampleWorld) n id p ∧ loadedOf true (w_db sampleWorld) id = Err e' ∧ e = LoadFailed e'
    end.
Proof.
  apply live_scan_ends; [intros A m; reflexivity|apply sampleWorld_inv|]. vm_compute. lia.
Defined.

(** C18: A checkpoint restores what it was taken of, for a sound live tree without
    inodes of mode 0, whose names are proper ones and whose bodies are no larger than
    an array can hold: write the manifest of its scan, as built in memory, out again,
    over whatever the namespace held before, and the new tree is sound, has only proper
    names, and reads back as the very same manifest.  The bodies of large files are
    those the scan handed over, and names of bodies do not collide
    ([mode_zero_is_widened] shows what happens to an inode of mode 0). *)
Theorem checkpoint_roundtrip {arr} `{!RedisArray arr} arrays blobSHA256 `{!BlobHash blobSHA256} `{!SliceSort stringLess}
    `{!SliceSort depthLess} (keys : mapOrder) (d d0 : db arr) fuel workspace savepoint t m st t' cached blobs :
  is_order keys → fs_inv d → names_ok d → modes_ok d → (size (inodes d) ≤ fuel)%nat →
  BuildManifestFromWorkspaceRoot arrays blobSHA256 keys (λ _, d) fuel workspace savepoint t = Some (Ok (m, st), t') →
  Z.of_nat (size (mn_Entries m)) ≤ max_uint64 → sizes_ok (mn_Entries m) →
  (∀ k v, sc_blobs st !! k = Some v → cached k = None ∧ blobs k = Some v) →
  ∃ d', rewriteWorkspaceRoot keys cached blobs (PreferredRef arrays) false m d0 = (None, d') ∧
    fs_inv d' ∧ names_ok d' ∧
    ∀ fuel' t1, (size (inodes d') ≤ fuel')%nat → ∃ st' t1',
      BuildManifestFromWorkspaceRoot arrays blobSHA256 keys (λ _, d') fuel' workspace savepoint t1 = Some (Ok (m, st'), t1').
Proof.
  intros Hk Hd Hn Hm Hfuel Hscan Hsz Hsizes Hblobs.
  destruct (scan_spec arrays blobSHA256 keys Hk d Hd fuel workspace savepoint t Hfuel)
    as [(st0 & t0 & E & Hl & Hb1 & Hb2)|(? & ? & ? & ? & ? & _ & _ & E)]; [|congruence].
  rewrite Hscan in E. injection E as -> <- _. simpl in Hsz. specialize (Hl Hn).
  assert (scannedManifest blobSHA256 cached blobs (sc_entries st)) as HE.
  { apply (captured_manifest arrays blobSHA256 cached blobs d Hd Hn _ Hl Hm Hsizes). intros n id p i Ha Hv Hbig.
    destruct (Hb2 n id p i Ha Hv Hbig) as [v Hv']. pose proof (Hb1 _ _ Hv') as E. apply blob_inj in E as <-.
    apply Hblobs in Hv' as [Ec Eb]. unfold fetchBlob. by rewrite Ec, Eb. }
  set (m := Build_Manifest _ _ _ _).
  destruct (rewrite_complete keys Hk cached blobs (PreferredRef arrays) m d0) as (ns & d' & Hw & Hmat);
    [apply HE|intros p e He; apply (scannedEntry_writable blobSHA256), (sm_entry _ _ _ _ HE p e He)|done|].
  exists d'. split; [done|]. split; [by eapply materialized_inv|].
  split; [by eapply restored_names|]. intros fuel' t1 Hf'.
  destruct (scan_spec arrays blobSHA256 keys Hk d' (materialized_inv _ _ _ _ _ _ Hmat) fuel' workspace savepoint t1 Hf')
    as [(st' & t1' & -> & Hl' & _)|(n & id & p & e & t1' & Ha & He & _)];
    [|by destruct (restored_readable arrays blobSHA256 cached blobs (sc_entries st) HE ns d' Hmat n id p e Ha)].
  exists st', t1'. do 4 f_equal. unfold m. f_equal. apply map_eq. intros p. apply option_eq. intros e.
  rewrite (Hl' (restored_names arrays blobSHA256 cached blobs (sc_entries st) HE ns d' Hmat) p e).
  symmetry. apply (restored_live arrays blobSHA256 cached blobs (sc_entries st) HE ns d' Hmat).
Qed.

(** ** Witness *)

Lemma names_ok_check {arr} (d : db arr) :
  bool_decide (map_Forall (λ _ m, map_Forall (λ name _, valid_name name = true) m) (dirents d)) = true → names_ok d.
Proof.
  intros H%bool_decide_eq_true dir name id. unfold lk. destruct (dirents d !! dir) as [m|] eqn:E; [|done]. simpl.
  apply (H dir m E).
Qed.

Lemma modes_ok_check {arr} (d : db arr) : bool_decide (map_Forall (λ _ h, u32 (h_mode h) ≠ 0) (inodes d)) = true → modes_ok d.
Proof. intros H%bool_decide_eq_true id h. apply H. Qed.

Lemma sizes_ok_check (E : manifest) : bool_decide (map_Forall (λ _ e, mf_Size e ≤ 4096) E) = true →
  ∀ p e, E !! p = Some e → mf_Size e ≤ MaxArraySize.
Proof. intros H%bool_decide_eq_true p e He. specialize (H p e He). simpl in H. unfold MaxArraySize, max_int64, ArrayChunkBytes; lia. Qed.

#[export] Instance sampleSHA_hash : BlobHash sampleSHA.
Proof.
  split; [|done]. intros x y E. unfold sampleSHA in E. apply (string_app_inj_l "b") in E.
  pose proof (DecodeString_EncodeToString x) as Hx. rewrite E, DecodeString_EncodeToString in Hx. congruence.
Qed.

Definition sampleScan : option (result rootError (Manifest * scanState) * nat) :=
  BuildManifestFromWorkspaceRoot true sampleSHA sample_keys (λ _, w_db sampleWorld) 5 "w" "cp" 0.
Definition sampleManifest : Manifest * scanState :=
  match sampleScan with
  | Some (Ok r, _) => r
  | _ => ({| mn_Version := 0; mn_Workspace := ""; mn_Savepoint := ""; mn_Entries := ∅ |},
          {| sc_entries := ∅; sc_blobs := ∅; sc_fileCount := 0; sc_dirCount := 0; sc_totalBytes := 0 |})
  end.

Example sampleManifest_paths :
  map (λ pe, (pe.1, mf_Type pe.2, mf_Inline pe.2)) (map_to_list (mn_Entries sampleManifest.1)) =
  [("/a/f", "file", "AQ=="); ("/a", "dir", ""); ("/l", "symlink", ""); ("/", "dir", "")].
Proof. vm_compute. reflexivity. Qed.

Lemma checkpoint_roundtrip_witness :
  ∃ d', rewriteWorkspaceRoot sample_keys (λ _, None) (λ k, sc_blobs sampleManifest.2 !! k) (PreferredRef true) false
          sampleManifest.1 (w_db sampleWorld) = (None, d') ∧
    fs_inv d' ∧ names_ok d' ∧
    ∀ fuel' t1, (size (inodes d') ≤ fuel')%nat → ∃ st' t1',
      BuildManifestFromWorkspaceRoot true sampleSHA sample_keys (λ _, d') fuel' "w" "cp" t1 = Some (Ok (sampleManifest.1, st'), t1').
Proof.
  apply (checkpoint_roundtrip true sampleSHA sample_keys (w_db sampleWorld) (w_db sampleWorld) 5 "w" "cp" 0
           sampleManifest.1 sampleManifest.2 (default 0%nat (snd <$> sampleScan))).
  - exact sample_keys_order.
  - apply sampleWorld_inv.
  - apply names_ok_check. by vm_compute.
  - apply modes_ok_check. by vm_compute.
  - vm_compute. lia.
  - vm_compute. reflexivity.
  - vm_compute. congruence.
  - intros p e H _. revert p e H. apply sizes_ok_check. vm_compute. reflexivity.
  - intros k v H. by split.
Defined.

(** ** Mode 0 *)

(** A file nobody may read is restored as one everybody may: mode 0 stands for "no mode"
    in a manifest, and the scan writes it for an inode that has it. *)
Lemma mode_zero_is_widened :
  let d := w_db (run_ops (P := solo_params) [(plain, CEcho "/f" [x01]); (plain, CChmod "/f" 0)] root_world) in
  ∃ m st t, BuildManifestFromWorkspaceRoot true sampleSHA sample_keys (λ _, d) 5 "w" "cp" 0 = Some (Ok (m, st), t) ∧
    let r := rewriteWorkspaceRoot sample_keys (λ _, None) (λ k, sc_blobs st !! k) (PreferredRef true) false m d in
    r.1 = None ∧ (h_name <$> inodes d !! "2") = Some "f" ∧ (h_mode <$> inodes d !! "2") = Some 0 ∧
    (h_name <$> inodes r.2 !! "2") = Some "f" ∧ (h_mode <$> inodes r.2 !! "2") = Some 420.
Proof.
  cbv zeta. eexists _, _, _. split; [vm_compute; reflexivity|]. split_and!; vm_compute; reflexivity.
Qed.
