(* ===== verification/CheckpointState.v ===== *)
(** The state the control plane keeps of one workspace in Redis
    (internal/controlplane/store.go, generation.go, import_lock.go), with the live tree
    of FsState in it, and the monad its operations are written in.

    A command is one step: others act before it, by the function [env].  WATCH and
    EXEC compare how often the keys were touched, key by key, by their names.  Records
    kept as JSON are what reading them gives (CheckpointJson).  The
    record carries two sets the code does not keep, the generations and the lock
    tokens of the past; nothing reads them. *)
From Stdlib Require Import Strings.Byte.
From S2P Require Import Prelude Content Paths FsState FsTree FsScripts FsClient ServerDiff Base64 RootNodes RootScan.
#[local] Open Scope string_scope.
#[local] Open Scope list_scope.
#[local] Open Scope Z_scope.

(** * Data (store.go) *)

Record WorkspaceMeta := {
  wm_Version : Z; wm_ID : string; wm_Name : string; wm_Description : string; wm_CreatedAt : Z; wm_UpdatedAt : Z;
  wm_HeadSavepoint : string; wm_DefaultSavepoint : string; wm_DirtyHint : bool; wm_LastMaterializedAt : Z;
  wm_LastKnownMaterializedAt : string
}.

Record SavepointMeta := {
  sm_Version : Z; sm_ID : string; sm_Name : string; sm_Description : string; sm_Kind : string; sm_Source : string;
  sm_Author : string; sm_CreatedBy : string; sm_Workspace : string; sm_ParentSavepoint : string;
  sm_ManifestHash : string; sm_CreatedAt : Z; sm_FileCount : Z; sm_DirCount : Z; sm_TotalBytes : Z
}.

Record blobRef := { br_BlobID : string; br_Size : Z; br_RefCount : Z; br_CreatedAt : Z }.

Inductive cpError :=
| ErrNotExist
| NilReply
| ErrImportInProgress
| ErrWorkspaceConflict
| TxFailed
| WrongTypeReply
| InvalidName (kind value : string)
| SavepointExists (savepoint : string)
| DeleteCurrent (savepoint : string)
| DeleteBaseline (savepoint : string)
| NoCheckpoints
| BeingRestored
| LiveRootMissing
| LockLost
| RestoreRefused
| BadInlineData
| BadRoot (e : rootError)
| TooDeep.

(** * Names *)

(** [namePattern]: a letter or a digit, then letters, digits, dots, underscores and dashes. *)
Definition name_start (c : ascii) : bool :=
  let n := nat_of_ascii c in
  ((48 <=? n) && (n <=? 57) || (65 <=? n) && (n <=? 90) || (97 <=? n) && (n <=? 122))%nat.
Definition name_char (c : ascii) : bool :=
  name_start c || bool_decide (c = "."%char) || bool_decide (c = "_"%char) || bool_decide (c = "-"%char).

Definition ValidateName (kind value : string) : result cpError () :=
  match String.list_ascii_of_string value with
  | [] => Err (InvalidName kind value)
  | c :: cs => if name_start c && forallb name_char cs then Ok () else Err (InvalidName kind value)
  end.

Definition workspaceStorageID (meta : WorkspaceMeta) : string :=
  let id := TrimSpace (wm_ID meta) in if bool_decide (id = "") then TrimSpace (wm_Name meta) else id.

Definition defaultString (value fallback : string) : string := if bool_decide (value = "") then fallback else value.

Definition initialCheckpointName : string := "initial".
Definition CheckpointKindManual : string := "manual".
Definition CheckpointKindSafety : string := "safety".
Definition CheckpointSourceCLI : string := "cli".

Definition wsKey (workspace rest : string) : string := "afs:{" +:+ workspace +:+ "}:" +:+ rest.
Definition workspaceMetaKey (workspace : string) : string := wsKey workspace "workspace:meta".
Definition workspaceSavepointsKey (workspace : string) : string := wsKey workspace "workspace:savepoints".
Definition savepointMetaKey (workspace savepoint : string) : string := wsKey workspace ("savepoint:" +:+ savepoint +:+ ":meta").
Definition savepointManifestKey (workspace savepoint : string) : string :=
  wsKey workspace ("savepoint:" +:+ savepoint +:+ ":manifest").
Definition blobKey (workspace blobID : string) : string := wsKey workspace ("blob:" +:+ blobID).
Definition blobRefKey (workspace blobID : string) : string := wsKey workspace ("blobref:" +:+ blobID).
Definition WorkspaceGenerationKey (workspace : string) : string := wsKey workspace "generation".
Definition ImportLockKey (workspace : string) : string := wsKey workspace "import_lock".
Definition changesKey (workspace : string) : string := wsKey workspace "changes".
Definition workspaceRootHeadKey (workspace : string) : string := wsKey workspace "root_head_savepoint".
Definition workspaceRootDirtyKey (workspace : string) : string := wsKey workspace "root_dirty".
Definition restoreActivityBeforeKey (workspace : string) : string := wsKey workspace "history:restore-before-checkpoint".

(** * The state *)

Record cp {arr : Type} := Cp {
  c_db : db arr;
  c_meta : option WorkspaceMeta;
  c_points : gmap string SavepointMeta;
  c_manifests : gmap string Manifest;
  c_index : gmap string Z;          (* the sorted set of checkpoints, with its scores *)
  c_blobs : gmap string bytes;
  c_refs : gmap string blobRef;
  c_lock : option string;
  c_rootHead : option string;
  c_before : option string;
  c_now : Z;
  c_touched : gmap string nat;
  c_past : gset string;             (* generations of the past *)
  c_pastLocks : gset string         (* lock tokens of the past *)
}.
Arguments cp : clear implicits.

Section state.
Context {arr : Type}.
Implicit Types s : cp arr.

Definition touches (s : cp arr) (k : string) : nat := default O (c_touched s !! k).
Definition touchAll (ks : list string) (t : gmap string nat) : gmap string nat :=
  foldr (λ k t, <[k := S (default O (t !! k))]> t) t ks.

Definition with_db (f : db arr → db arr) s : cp arr :=
  Cp _ (f (c_db s)) (c_meta s) (c_points s) (c_manifests s) (c_index s) (c_blobs s) (c_refs s) (c_lock s) (c_rootHead s)
     (c_before s) (c_now s) (c_touched s) (c_past s) (c_pastLocks s).
Definition with_meta (m : option WorkspaceMeta) s : cp arr :=
  Cp _ (c_db s) m (c_points s) (c_manifests s) (c_index s) (c_blobs s) (c_refs s) (c_lock s) (c_rootHead s)
     (c_before s) (c_now s) (c_touched s) (c_past s) (c_pastLocks s).
Definition with_points (points : gmap string SavepointMeta) (manifests : gmap string Manifest) (index : gmap string Z) s : cp arr :=
  Cp _ (c_db s) (c_meta s) points manifests index (c_blobs s) (c_refs s) (c_lock s) (c_rootHead s)
     (c_before s) (c_now s) (c_touched s) (c_past s) (c_pastLocks s).
Definition with_blobs (blobs : gmap string bytes) s : cp arr :=
  Cp _ (c_db s) (c_meta s) (c_points s) (c_manifests s) (c_index s) blobs (c_refs s) (c_lock s) (c_rootHead s)
     (c_before s) (c_now s) (c_touched s) (c_past s) (c_pastLocks s).
Definition with_refs (refs : gmap string blobRef) s : cp arr :=
  Cp _ (c_db s) (c_meta s) (c_points s) (c_manifests s) (c_index s) (c_blobs s) refs (c_lock s) (c_rootHead s)
     (c_before s) (c_now s) (c_touched s) (c_past s) (c_pastLocks s).
Definition with_lock (lock : option string) s : cp arr :=
  Cp _ (c_db s) (c_meta s) (c_points s) (c_manifests s) (c_index s) (c_blobs s) (c_refs s) lock (c_rootHead s)
     (c_before s) (c_now s) (c_touched s) (c_past s)
     (match c_lock s with Some t => if bool_decide (lock = Some t) then c_pastLocks s else {[t]} ∪ c_pastLocks s
                        | None => c_pastLocks s end).
Definition with_rootHead (head : option string) s : cp arr :=
  Cp _ (c_db s) (c_meta s) (c_points s) (c_manifests s) (c_index s) (c_blobs s) (c_refs s) (c_lock s) head
     (c_before s) (c_now s) (c_touched s) (c_past s) (c_pastLocks s).
Definition with_before (before : option string) s : cp arr :=
  Cp _ (c_db s) (c_meta s) (c_points s) (c_manifests s) (c_index s) (c_blobs s) (c_refs s) (c_lock s) (c_rootHead s)
     before (c_now s) (c_touched s) (c_past s) (c_pastLocks s).
Definition touch (ks : list string) s : cp arr :=
  Cp _ (c_db s) (c_meta s) (c_points s) (c_manifests s) (c_index s) (c_blobs s) (c_refs s) (c_lock s) (c_rootHead s)
     (c_before s) (c_now s) (touchAll ks (c_touched s)) (c_past s) (c_pastLocks s).

(** [SET generation]; the one before joins the past. *)
Definition db_generation (g : option string) (d : db arr) : db arr :=
  Db (inodes d) (dirents d) (contents d) (stages d) (info d) (next_inode d) (root_dirty d) (changes d) g (leases d).
Definition db_dirty (b : bool) (d : db arr) : db arr :=
  Db (inodes d) (dirents d) (contents d) (stages d) (info d) (next_inode d) b (changes d) (generation d) (leases d).
Definition set_generation (g : string) s : cp arr :=
  let past := match generation (c_db s) with
              | Some g0 => if bool_decide (g0 = g) then c_past s else {[g0]} ∪ c_past s
              | None => c_past s end in
  Cp _ (db_generation (Some g) (c_db s)) (c_meta s) (c_points s) (c_manifests s) (c_index s) (c_blobs s) (c_refs s)
     (c_lock s) (c_rootHead s) (c_before s) (c_now s) (c_touched s) past (c_pastLocks s).
End state.

(** * The monad *)

Definition CM (arr A : Type) : Type := cp arr → result cpError A * cp arr.

Section monad.
Context {arr : Type} (env : cp arr → cp arr).

Definition retC {A} (a : A) : CM arr A := λ s, (Ok a, s).
Definition failC {A} (e : cpError) : CM arr A := λ s, (Err e, s).
Definition liftC {A} (r : result cpError A) : CM arr A := λ s, (r, s).
Definition bindC {A B} (m : CM arr A) (k : A → CM arr B) : CM arr B := λ s,
  match m s with
  | (Ok a, s) => k a s
  | (Err e, s) => (Err e, s)
  end.

(** A command that reads, one that writes, and [time.Now]. *)
Definition readC {A} (f : cp arr → A) : CM arr A := λ s, let s := env s in (Ok (f s), s).
Definition writeC (f : cp arr → cp arr) : CM arr () := λ s, (Ok (), f (env s)).
Definition nowC : CM arr Z := λ s, (Ok (c_now s), s).

Definition orElse {A} (e : cpError) (o : option A) : CM arr A :=
  match o with Some a => retC a | None => failC e end.
Definition failIf (b : bool) (e : cpError) : CM arr () := if b then failC e else retC ().

(** [WATCH] remembers how often each key was touched; [EXEC] runs the queued
    commands at once if none of the watched keys was touched since. *)
Definition WATCH : CM arr (gmap string nat) := λ s, let s := env s in (Ok (c_touched s), s).
Definition untouched (seen : gmap string nat) (ks : list string) (s : cp arr) : bool :=
  forallb (λ k, bool_decide (default O (seen !! k) = touches s k)) ks.
Definition EXEC (seen : gmap string nat) (ks : list string) (f : cp arr → cp arr) : CM arr () := λ s,
  let s := env s in
  if untouched seen ks s then (Ok (), f s) else (Err TxFailed, s).

Fixpoint mapC {A B} (f : A → CM arr B) (l : list A) : CM arr (list B) :=
  match l with
  | [] => retC []
  | a :: l => bindC (f a) (λ b, bindC (mapC f l) (λ bs, retC (b :: bs)))
  end.

(** [defer]: the last command runs whatever the result; its own error is dropped. *)
Definition deferC {A} (m : CM arr A) (last : CM arr ()) : CM arr A := λ s,
  let '(r, s) := m s in let '(_, s) := last s in (r, s).
End monad.
