(* ===== verification/CheckpointJson.v ===== *)
(** The records of a workspace as their JSON gives them back (internal/controlplane/
    store.go, [setJSON] and [getJSON]): strings are coerced to UTF-8, the keys of the
    entries of a manifest among them. *)
From Stdlib Require Import Strings.Byte.
From S2P Require Import Prelude Glob Json ServerDiff RootNodes RootScan CheckpointState.
#[local] Open Scope string_scope.
#[local] Open Scope list_scope.
#[local] Open Scope Z_scope.

Definition jsonEntry (e : ManifestEntry) : ManifestEntry :=
  {| mf_Type := jsonString (mf_Type e); mf_Mode := mf_Mode e; mf_MtimeMs := mf_MtimeMs e; mf_Size := mf_Size e;
     mf_BlobID := jsonString (mf_BlobID e); mf_Inline := jsonString (mf_Inline e); mf_Target := jsonString (mf_Target e) |}.

(** A map is written in the order of its keys; of two keys that read the same the later
    one wins. *)
Definition jsonEntries `{!SliceSort stringLess} (E : manifest) : manifest :=
  foldl (λ E' p, match E !! p with Some e => <[jsonString p := jsonEntry e]> E' | None => E' end) ∅
    (sort_slice (less := stringLess) (map fst (map_to_list E))).

Definition jsonManifest `{!SliceSort stringLess} (m : Manifest) : Manifest :=
  {| mn_Version := mn_Version m; mn_Workspace := jsonString (mn_Workspace m); mn_Savepoint := jsonString (mn_Savepoint m);
     mn_Entries := jsonEntries (mn_Entries m) |}.

Definition jsonSavepoint (p : SavepointMeta) : SavepointMeta :=
  {| sm_Version := sm_Version p; sm_ID := jsonString (sm_ID p); sm_Name := jsonString (sm_Name p);
     sm_Description := jsonString (sm_Description p); sm_Kind := jsonString (sm_Kind p); sm_Source := jsonString (sm_Source p);
     sm_Author := jsonString (sm_Author p); sm_CreatedBy := jsonString (sm_CreatedBy p);
     sm_Workspace := jsonString (sm_Workspace p); sm_ParentSavepoint := jsonString (sm_ParentSavepoint p);
     sm_ManifestHash := jsonString (sm_ManifestHash p); sm_CreatedAt := sm_CreatedAt p; sm_FileCount := sm_FileCount p;
     sm_DirCount := sm_DirCount p; sm_TotalBytes := sm_TotalBytes p |}.

Definition jsonMeta (m : WorkspaceMeta) : WorkspaceMeta :=
  {| wm_Version := wm_Version m; wm_ID := jsonString (wm_ID m); wm_Name := jsonString (wm_Name m);
     wm_Description := jsonString (wm_Description m); wm_CreatedAt := wm_CreatedAt m; wm_UpdatedAt := wm_UpdatedAt m;
     wm_HeadSavepoint := jsonString (wm_HeadSavepoint m); wm_DefaultSavepoint := jsonString (wm_DefaultSavepoint m);
     wm_DirtyHint := wm_DirtyHint m; wm_LastMaterializedAt := wm_LastMaterializedAt m;
     wm_LastKnownMaterializedAt := jsonString (wm_LastKnownMaterializedAt m) |}.

Definition jsonRef (r : blobRef) : blobRef :=
  {| br_BlobID := jsonString (br_BlobID r); br_Size := br_Size r; br_RefCount := br_RefCount r; br_CreatedAt := br_CreatedAt r |}.

(** ** Records in valid UTF-8 *)

Definition text (s : string) : Prop := ValidString s = true.

Record entry_text (e : ManifestEntry) : Prop := {
  et_type : text (mf_Type e); et_blob : text (mf_BlobID e); et_inline : text (mf_Inline e); et_target : text (mf_Target e)
}.

Record manifest_text (m : Manifest) : Prop := {
  mt_workspace : text (mn_Workspace m);
  mt_savepoint : text (mn_Savepoint m);
  mt_entries p e : mn_Entries m !! p = Some e → text p ∧ entry_text e
}.

Lemma jsonEntry_text e : entry_text e → jsonEntry e = e.
Proof. intros [? ? ? ?]. unfold jsonEntry. rewrite !jsonString_valid by done. by destruct e. Qed.

Section entries.
Context `{!SliceSort stringLess} (E : manifest).
Hypothesis HE : ∀ p e, E !! p = Some e → text p ∧ entry_text e.

Lemma jsonEntries_fold l (E' : manifest) q :
  foldl (λ E' p, match E !! p with Some e => <[jsonString p := jsonEntry e]> E' | None => E' end) E' l !! q =
  if bool_decide (q ∈ l ∧ is_Some (E !! q)) then E !! q else E' !! q.
Proof using HE.
  revert E'. induction l as [|p l IH]; intros E'; cbn [foldl].
  - by rewrite bool_decide_eq_false_2 by (by intros [?%elem_of_nil _]).
  - rewrite IH. case_bool_decide as H1.
    { by rewrite bool_decide_eq_true_2 by (destruct H1; split; [by right|done]). }
    destruct (E !! p) as [e|] eqn:Ep.
    + destruct (HE p e Ep) as [Hp He]. rewrite (jsonString_valid p Hp), (jsonEntry_text e He).
      destruct (decide (p = q)) as [->|Hne].
      * rewrite lookup_insert_eq, bool_decide_eq_true_2 by (split; [by left|by eexists]). done.
      * rewrite lookup_insert_ne by done. rewrite bool_decide_eq_false_2; [done|]. set_solver.
    + rewrite bool_decide_eq_false_2; [done|]. intros [[->|?]%elem_of_cons [? ?]]; [congruence|]. by destruct H1.
Qed.

Lemma jsonEntries_text : jsonEntries E = E.
Proof using HE.
  apply map_eq. intros q. unfold jsonEntries. rewrite jsonEntries_fold. case_bool_decide as H; [done|]. rewrite lookup_empty.
  destruct (E !! q) as [e|] eqn:Eq; [|done]. exfalso. apply H. split; [|by eexists].
  rewrite sort_slice_perm, list_elem_of_fmap. exists (q, e). split; [done|]. by apply elem_of_map_to_list.
Qed.
End entries.

(** A manifest in valid UTF-8 is stored as it is. *)
Lemma jsonManifest_text `{!SliceSort stringLess} m : manifest_text m → jsonManifest m = m.
Proof.
  intros [Hw Hs He]. unfold jsonManifest. rewrite !jsonString_valid, jsonEntries_text by done. by destruct m.
Qed.
