(* ===== verification/Checkpoint.v ===== *)
(** Checkpoints (internal/controlplane: service.go, checkpoint_commit.go, store.go,
    history_restore_activity.go): taking one of the live tree, restoring one, deleting
    one, as programs over CheckpointState, every command with whatever others do
    before it.

    The workspace is addressed by its storage identifier; the index of names is not
    modelled, nor are the audit stream and the events of the server.  A restore is
    that of a workspace without file history.  The batches of SCAN and DEL that reset
    a namespace are one command, and the bodies a restore needs are read when it
    starts to write. *)
From Stdlib Require Import Strings.Byte.
From S2P Require Import Prelude Content Paths FsState FsTree FsScripts FsClient ServerDiff Base64 RootNodes RootScan CheckpointState CheckpointJson.
#[local] Open Scope go_scope.
#[local] Open Scope string_scope.
#[local] Open Scope list_scope.
#[local] Open Scope Z_scope.

#[local] Notation "x ⟵ m ; k" := (bindC m (λ x, k)) (at level 90, m at next level, k at level 200, right associativity).

(** What the operations take from elsewhere: the server's array commands, the two
    hashes, the order of map ranges, the stream's identifiers, the format of times,
    the workspace, what others do, and whether the heartbeat has missed the lock. *)
Class CPParams (arr : Type) := {
  cq_arrays : bool;
  cq_blobSHA256 : bytes → string;
  cq_HashManifest : Manifest → string;
  cq_keys : mapOrder;
  cq_entryID : nat → string;
  cq_timeName : Z → string;
  cq_id : string;
  cq_env : cp arr → cp arr;
  cq_lost : cp arr → bool
}.

Record SaveCheckpointRequest := {
  sr_ExpectedChangesID : string; sr_ImportLockToken : string; sr_ExpectedGeneration : string;
  sr_ExpectedHead : string; sr_CheckpointID : string; sr_Description : string; sr_Kind : string; sr_Source : string;
  sr_Author : string; sr_CreatedBy : string; sr_Manifest : Manifest; sr_Blobs : gmap string bytes; sr_FileCount : Z;
  sr_DirCount : Z; sr_TotalBytes : Z; sr_SkipWorkspaceRootSync : bool; sr_AllowUnchanged : bool
}.

Record CheckpointOptions := { co_Description : string; co_Source : string; co_Author : string; co_AllowUnchanged : bool }.

Record RestoreCheckpointResult := {
  rr_Restored : bool; rr_CheckpointID : string; rr_WorkspaceID : string; rr_WorkspaceName : string;
  rr_SafetyCheckpointID : string; rr_SafetyCheckpointCreated : bool
}.

Section programs.
Context {arr : Type} {RA : RedisArray arr} {P : CPParams arr} `{!SliceSort stringLess, !SliceSort depthLess}.
Local Abbreviation M := (CM arr).
Local Abbreviation read := (readC cq_env).
Local Abbreviation write := (writeC cq_env).
Local Abbreviation id := cq_id.

(** * The store *)

(** [GetWorkspaceMeta], [resolveWorkspaceMeta]. *)
Definition GetWorkspaceMeta : M WorkspaceMeta := m ⟵ read c_meta; orElse ErrNotExist m.
Definition resolveWorkspaceStorageOrRaw : M string := m ⟵ read c_meta; retC match m with Some meta => workspaceStorageID meta | None => id end.

Definition GetSavepointMeta (savepoint : string) : M SavepointMeta :=
  _ ⟵ GetWorkspaceMeta; p ⟵ read (λ s, c_points s !! savepoint); orElse ErrNotExist p.
Definition GetManifest (savepoint : string) : M Manifest :=
  _ ⟵ GetWorkspaceMeta; m ⟵ read (λ s, c_manifests s !! savepoint); orElse ErrNotExist m.

(** [ZREVRANGE]: by score, then by name, from the greatest. *)
Definition index_before (index : gmap string Z) (a b : string) : bool :=
  let sa := default 0 (index !! a) in let sb := default 0 (index !! b) in
  (sb <? sa) || ((sa =? sb) && stringLess b a).
Definition ZREVRANGE (index : gmap string Z) (limit : Z) : list string :=
  let ids := insertion_sort (index_before index) (map fst (map_to_list index)) in
  if 0 <? limit then take (Z.to_nat limit) ids else ids.

Definition ListSavepoints (limit : Z) : M (list SavepointMeta) :=
  _ ⟵ GetWorkspaceMeta;
  ids ⟵ read (λ s, ZREVRANGE (c_index s) limit);
  ps ⟵ mapC (λ i, read (λ s, c_points s !! i)) ids;
  retC (omap (λ p, p) ps).

(** [SETNX] of one body. *)
Definition putBlob (blobs : gmap string bytes) (b : string) : M () :=
  write (λ s, match c_blobs s !! b with
              | Some _ => s
              | None => touch [blobKey id b] (with_blobs (<[b := default [] (blobs !! b)]> (c_blobs s)) s)
              end).
Definition SaveBlobs (blobs : gmap string bytes) : M () :=
  _ ⟵ resolveWorkspaceStorageOrRaw; _ ⟵ mapC (putBlob blobs) (cq_keys _ blobs); retC ().

Definition GetBlob (blobID : string) : M bytes :=
  _ ⟵ resolveWorkspaceStorageOrRaw; b ⟵ read (λ s, c_blobs s !! blobID); orElse ErrNotExist b.

(** [WorkspaceGeneration]. *)
Definition WorkspaceGeneration : M string :=
  _ ⟵ GetWorkspaceMeta;
  g ⟵ read (λ s, generation (c_db s));
  g ⟵ orElse NilReply g;
  _ ⟵ failIf (bool_decide (g = "deleted")) ErrNotExist;
  _ ⟵ failIf (negb (HasPrefix g "g_")) BeingRestored;
  retC g.

(** [latestServerChange]: the identifier of the last entry of the journal. *)
Definition latest_of (l : list event) : string := match l with [] => "0-0" | _ => cq_entryID (length l) end.
Definition latestServerChange : M string :=
  l ⟵ read (λ s, changes (c_db s)); l ⟵ orElse WrongTypeReply l; retC (latest_of l).

Definition serverRequireLiveRoot : M () :=
  h ⟵ read (λ s, inodes (c_db s) !! workspaceFSRootInodeID); failIf (bool_decide (h = None)) LiveRootMissing.

Definition Audit : M () := _ ⟵ GetWorkspaceMeta; retC ().

(** [MoveWorkspaceHead]. *)
Definition moved_head (savepoint : string) (now : Z) (m : WorkspaceMeta) : WorkspaceMeta :=
  {| wm_Version := wm_Version m; wm_ID := wm_ID m; wm_Name := wm_Name m; wm_Description := wm_Description m;
     wm_CreatedAt := wm_CreatedAt m; wm_UpdatedAt := now; wm_HeadSavepoint := savepoint;
     wm_DefaultSavepoint := wm_DefaultSavepoint m; wm_DirtyHint := false;
     wm_LastMaterializedAt := wm_LastMaterializedAt m; wm_LastKnownMaterializedAt := wm_LastKnownMaterializedAt m |}.

Definition MoveWorkspaceHead (savepoint : string) (updatedAt : Z) : M () :=
  _ ⟵ GetWorkspaceMeta;
  seen ⟵ WATCH cq_env;
  current ⟵ read c_meta;
  current ⟵ orElse ErrNotExist current;
  EXEC cq_env seen [workspaceMetaKey id]
    (λ s, touch [workspaceMetaKey id] (with_meta (Some (jsonMeta (moved_head savepoint updatedAt current))) s)).

(** * Manifests (checkpoint_commit.go) *)

Definition manifestEquivalent (a b : Manifest) : bool :=
  bool_decide (size (mn_Entries a) = size (mn_Entries b)) &&
  forallb (λ '(p, l), match mn_Entries b !! p with Some r => manifestEntryEquivalent l r | None => false end)
    (map_to_list (mn_Entries a)).

Definition manifestBlobRefs (m : Manifest) : gmap string Z :=
  foldl (λ refs p, match mn_Entries m !! p with
                   | Some e => if bool_decide (mf_BlobID e = "") then refs else <[mf_BlobID e := mf_Size e]> refs
                   | None => refs end) ∅ (cq_keys _ (mn_Entries m)).

(** * [saveCheckpoint] *)

(** The lock, outside the transaction and in it. *)
Definition checkToken (token : string) : M () :=
  t ⟵ read c_lock; t ⟵ orElse NilReply t; failIf (negb (bool_decide (t = token))) ErrImportInProgress.
Definition checkNoLock : M () := t ⟵ read c_lock; failIf (bool_decide (is_Some t)) ErrImportInProgress.

Definition savepointMeta (i : SaveCheckpointRequest) (now : Z) : SavepointMeta :=
  {| sm_Version := formatVersion; sm_ID := sr_CheckpointID i; sm_Name := sr_CheckpointID i;
     sm_Description := TrimSpace (sr_Description i); sm_Kind := sr_Kind i; sm_Source := sr_Source i;
     sm_Author := sr_Author i; sm_CreatedBy := sr_CreatedBy i; sm_Workspace := id;
     sm_ParentSavepoint := sr_ExpectedHead i; sm_ManifestHash := cq_HashManifest (sr_Manifest i);
     sm_CreatedAt := now; sm_FileCount := sr_FileCount i; sm_DirCount := sr_DirCount i;
     sm_TotalBytes := sr_TotalBytes i |}.

(** The reference of one blob, counted up. *)
Definition raisedRef (blobID : string) (size now : Z) (ref : option blobRef) : blobRef :=
  let r := default {| br_BlobID := blobID; br_Size := size; br_RefCount := 0; br_CreatedAt := now |} ref in
  {| br_BlobID := br_BlobID r; br_Size := if br_Size r =? 0 then size else br_Size r; br_RefCount := br_RefCount r + 1;
     br_CreatedAt := br_CreatedAt r |}.

Definition putRefs (rs : list (string * blobRef)) (refs : gmap string blobRef) : gmap string blobRef :=
  foldr (λ r, <[r.1 := jsonRef r.2]>) refs rs.

(** The queued commands. *)
Definition commitCheckpoint (i : SaveCheckpointRequest) (now : Z) (current : WorkspaceMeta)
    (updatedRefs : list (string * blobRef)) (s : cp arr) : cp arr :=
  let cid := sr_CheckpointID i in
  let tracked := negb (bool_decide (sr_ExpectedChangesID i = "")) in
  let meta := {| wm_Version := wm_Version current; wm_ID := wm_ID current; wm_Name := wm_Name current;
                 wm_Description := wm_Description current; wm_CreatedAt := wm_CreatedAt current; wm_UpdatedAt := now;
                 wm_HeadSavepoint := cid; wm_DefaultSavepoint := wm_DefaultSavepoint current; wm_DirtyHint := negb tracked;
                 wm_LastMaterializedAt := wm_LastMaterializedAt current;
                 wm_LastKnownMaterializedAt := wm_LastKnownMaterializedAt current |} in
  let s := with_points (<[cid := jsonSavepoint (savepointMeta i now)]> (c_points s))
             (<[cid := jsonManifest (sr_Manifest i)]> (c_manifests s))
             (<[cid := now]> (c_index s)) s in
  let s := with_meta (Some (jsonMeta meta)) s in
  let s := with_db (db_dirty (negb tracked)) (if tracked then with_rootHead (Some cid) s else s) in
  let s := with_refs (putRefs updatedRefs (c_refs s)) s in
  touch ([savepointMetaKey id cid; savepointManifestKey id cid; workspaceMetaKey id; workspaceSavepointsKey id;
          workspaceRootDirtyKey id] ++ (if tracked then [workspaceRootHeadKey id] else []) ++
         map (λ r, blobRefKey id r.1) updatedRefs) s.

Definition saveKeys : list string :=
  [workspaceMetaKey id; WorkspaceGenerationKey id; changesKey id; ImportLockKey id].

Definition saveTransaction (i : SaveCheckpointRequest) (now : Z) : M () :=
  seen ⟵ WATCH cq_env;
  current ⟵ read c_meta;
  current ⟵ orElse ErrNotExist current;
  _ ⟵ (if bool_decide (sr_ExpectedGeneration i = "") then retC ()
        else g ⟵ read (λ s, generation (c_db s)); g ⟵ orElse NilReply g;
             failIf (negb (bool_decide (g = sr_ExpectedGeneration i))) ErrWorkspaceConflict);
  _ ⟵ (if bool_decide (sr_ExpectedChangesID i = "") then retC ()
        else latest ⟵ latestServerChange; failIf (negb (bool_decide (latest = sr_ExpectedChangesID i))) ErrWorkspaceConflict);
  _ ⟵ (if bool_decide (sr_ImportLockToken i = "") then checkNoLock else checkToken (sr_ImportLockToken i));
  _ ⟵ failIf (negb (bool_decide (wm_HeadSavepoint current = sr_ExpectedHead i))) ErrWorkspaceConflict;
  e ⟵ read (λ s, c_points s !! sr_CheckpointID i);
  _ ⟵ failIf (bool_decide (is_Some e)) (SavepointExists (sr_CheckpointID i));
  let refs := manifestBlobRefs (sr_Manifest i) in
  updatedRefs ⟵ mapC (λ b, r ⟵ read (λ s, c_refs s !! b); retC (b, raisedRef b (default 0 (refs !! b)) now r))
                  (cq_keys _ refs);
  EXEC cq_env seen saveKeys (commitCheckpoint i now current updatedRefs).

(** A lost race is a conflict. *)
Definition asConflict {A} (m : M A) : M A := λ s,
  match m s with
  | (Err TxFailed, s) => (Err ErrWorkspaceConflict, s)
  | r => r
  end.

(** * The live root *)

Definition MarkWorkspaceRootClean (head : string) : M () :=
  _ ⟵ resolveWorkspaceStorageOrRaw;
  write (λ s, touch [workspaceRootHeadKey id; workspaceRootDirtyKey id] (with_db (db_dirty false) (with_rootHead (Some head) s))).

(** [SyncWorkspaceRoot]: [SyncWorkspaceRootWithOptions] of RootNodes command by command,
    with the markers. *)
Definition resetRoot (s : cp arr) : cp arr :=
  touch [workspaceRootHeadKey id; workspaceRootDirtyKey id] (with_rootHead None (with_db resetWorkspaceFSNamespace s)).

Definition SyncWorkspaceRoot (m : Manifest) : M () :=
  _ ⟵ resolveWorkspaceStorageOrRaw;
  _ ⟵ write resetRoot;
  blobs ⟵ read c_blobs;
  match buildWorkspaceFSNodes cq_keys m with
  | Err e => failC (BadRoot e)
  | Ok nodes =>
      let '(batches, err) := writeWorkspaceFSNodes (λ _, None) (λ b, blobs !! b) (PreferredRef cq_arrays) nodes in
      _ ⟵ mapC (λ c, write (with_db (λ d, execCmd d c))) (concat batches);
      match err with
      | Some e => failC (BadRoot e)
      | None => MarkWorkspaceRootClean (mn_Savepoint m)
      end
  end.

(** [saveCheckpoint]; false when there was nothing to save. *)
Definition saveCheckpoint (i : SaveCheckpointRequest) : M bool :=
  _ ⟵ liftC (ValidateName "workspace" id);
  _ ⟵ liftC (ValidateName "checkpoint" (sr_CheckpointID i));
  _ ⟵ liftC (ValidateName "checkpoint" (sr_ExpectedHead i));
  _ ⟵ GetWorkspaceMeta;
  _ ⟵ (if bool_decide (sr_ImportLockToken i = "") then _ ⟵ resolveWorkspaceStorageOrRaw; checkNoLock
        else checkToken (sr_ImportLockToken i));
  headManifest ⟵ GetManifest (sr_ExpectedHead i);
  if manifestEquivalent headManifest (sr_Manifest i) && negb (sr_AllowUnchanged i) then retC false
  else
    now ⟵ nowC;
    _ ⟵ SaveBlobs (sr_Blobs i);
    _ ⟵ asConflict (saveTransaction i now);
    _ ⟵ (if sr_SkipWorkspaceRootSync i then retC () else SyncWorkspaceRoot (sr_Manifest i));
    _ ⟵ Audit;
    retC true.

(** * [captureCheckpoint] *)

(** The scan: its n-th command sees what others have left by then. *)
Definition scanRoot (fuel : nat) (workspace savepoint : string) : M (Manifest * scanState) := λ s,
  match BuildManifestFromWorkspaceRoot cq_arrays cq_blobSHA256 cq_keys (λ n, c_db (Nat.iter (S n) cq_env s))
          fuel workspace savepoint 0 with
  | None => (Err TooDeep, s)
  | Some (r, n) => (match r with Ok m => Ok m | Err e => Err (BadRoot e) end, Nat.iter n cq_env s)
  end.

Definition captureRequest (options : CheckpointOptions) (name generation lockToken : string) (allowUnchanged : bool)
    (changes head : string) (r : Manifest * scanState) : SaveCheckpointRequest :=
  let '(m, st) := r in
  {| sr_ExpectedChangesID := changes; sr_ImportLockToken := lockToken; sr_ExpectedGeneration := generation;
     sr_ExpectedHead := head; sr_CheckpointID := name; sr_Description := co_Description options;
     sr_Kind := if bool_decide (lockToken = "") then CheckpointKindManual else CheckpointKindSafety;
     sr_Source := defaultString (co_Source options) CheckpointSourceCLI; sr_Author := defaultString (co_Author options) "afs";
     sr_CreatedBy := ""; sr_Manifest := m; sr_Blobs := sc_blobs st; sr_FileCount := sc_fileCount st;
     sr_DirCount := sc_dirCount st; sr_TotalBytes := sc_totalBytes st; sr_SkipWorkspaceRootSync := true;
     sr_AllowUnchanged := allowUnchanged |}.

Definition captureCheckpoint (fuel : nat) (options : CheckpointOptions) (name generation lockToken : string)
    (allowUnchanged : bool) : M (option SavepointMeta) :=
  now ⟵ nowC;
  let name := if bool_decide (name = "") then "cp-" +:+ cq_timeName now else name in
  _ ⟵ liftC (ValidateName "checkpoint" name);
  meta ⟵ GetWorkspaceMeta;
  _ ⟵ serverRequireLiveRoot;
  changes ⟵ latestServerChange;
  r ⟵ scanRoot fuel id name;
  latest ⟵ latestServerChange;
  _ ⟵ failIf (negb (bool_decide (latest = changes))) ErrWorkspaceConflict;
  saved ⟵ saveCheckpoint (captureRequest options name generation lockToken allowUnchanged changes (wm_HeadSavepoint meta) r);
  if saved : bool then p ⟵ GetSavepointMeta name; retC (Some p) else retC None.

(** [SaveCheckpointFromLiveWithOptions], and [SaveCheckpointFromLive] with no options. *)
Definition SaveCheckpointFromLiveWithOptions (fuel : nat) (name : string) (options : CheckpointOptions) : M (option SavepointMeta) :=
  generation ⟵ WorkspaceGeneration;
  captureCheckpoint fuel options name generation "" (co_AllowUnchanged options).

Definition noOptions : CheckpointOptions := {| co_Description := ""; co_Source := ""; co_Author := ""; co_AllowUnchanged := true |}.
Definition SaveCheckpointFromLive (fuel : nat) (name : string) : M (option SavepointMeta) :=
  SaveCheckpointFromLiveWithOptions fuel name noOptions.

(** What [errors.Is(err, os.ErrNotExist)] asks. *)
Definition ifNotExist {A} (m other : M A) : M A := λ s,
  match m s with
  | (Err ErrNotExist, s) => other s
  | r => r
  end.

(** [GetCheckpoint]: by identifier, by name, or the newest. *)
Definition GetCheckpoint (ref : string) : M (SavepointMeta * Manifest) :=
  _ ⟵ GetWorkspaceMeta;
  ref ⟵ (if bool_decide (ref = "" ∨ ref = "latest")
          then ps ⟵ ListSavepoints 1; p ⟵ orElse NoCheckpoints (head ps); retC (sm_ID p)
          else retC ref);
  _ ⟵ liftC (ValidateName "checkpoint" ref);
  p ⟵ ifNotExist (GetSavepointMeta ref)
        (ps ⟵ ListSavepoints 0; orElse ErrNotExist (find (λ q, bool_decide (sm_Name q = ref)) ps));
  m ⟵ GetManifest (sm_ID p);
  retC (p, m).

(** * Activity of a restore (history_restore_activity.go) *)

Record activityChange := {
  ac_op : string; ac_path : string; ac_kind : string; ac_size : Z; ac_delta : Z; ac_mode : Z; ac_hash : string; ac_prev : string
}.

Definition activityEntryHash (e : ManifestEntry) : result cpError string :=
  if bool_decide (mf_Type e = "symlink") then Ok ("symlink:" +:+ mf_Target e)
  else if negb (bool_decide (mf_Type e = "file")) then Ok ""
  else if negb (bool_decide (mf_BlobID e = "")) then Ok (mf_BlobID e)
  else match DecodeString (mf_Inline e) with
       | Some data => Ok (cq_blobSHA256 data)
       | None => Err BadInlineData
       end.

Definition isFileEntry (e : ManifestEntry) : bool := bool_decide (mf_Type e = "file" ∨ mf_Type e = "symlink").
Definition entrySize (e : ManifestEntry) : Z :=
  if bool_decide (mf_Type e = "symlink") then Z.of_nat (String.length (mf_Target e)) else mf_Size e.

(** What one path shows; an absent entry is the zero one. *)
Definition activityOf (before after : manifest) (name : string) : result cpError (list activityChange) :=
  let old := default zeroManifestEntry (before !! name) in
  let next := default zeroManifestEntry (after !! name) in
  if negb (isFileEntry old) && negb (isFileEntry next) then Ok []
  else
    do oldHash <- activityEntryHash old;
    do nextHash <- activityEntryHash next;
    let oldMode := manifestEntryModeForWorkspaceFS old in
    let nextMode := manifestEntryModeForWorkspaceFS next in
    if bool_decide (mf_Type old = mf_Type next) && (oldMode =? nextMode) && bool_decide (oldHash = nextHash)
       && (entrySize old =? entrySize next)
    then Ok []
    else
      let '(op, kind, size, mode) :=
        if negb (isFileEntry next) then ("delete", "tombstone", 0, oldMode)
        else if bool_decide (mf_Type old = mf_Type next) && bool_decide (oldHash = nextHash)
        then ("chmod", mf_Type next, entrySize next, nextMode)
        else if bool_decide (mf_Type next = "symlink") then ("symlink", mf_Type next, entrySize next, nextMode)
        else ("put", mf_Type next, entrySize next, nextMode) in
      Ok [{| ac_op := op; ac_path := name; ac_kind := kind; ac_size := size; ac_delta := size - entrySize old;
             ac_mode := mode; ac_hash := nextHash; ac_prev := oldHash |}].

Fixpoint activityList (before after : manifest) (names : list string) : result cpError (list activityChange) :=
  match names with
  | [] => Ok []
  | name :: names => do c <- activityOf before after name; do cs <- activityList before after names; Ok (c ++ cs)
  end.

(** The changes from the tree before to the one after; none without a baseline. *)
Definition activityChanges (before : option Manifest) (after : Manifest) : result cpError (list activityChange) :=
  match before with
  | None => Ok []
  | Some before =>
      activityList (mn_Entries before) (mn_Entries after)
        (sort_slice (less := stringLess) (cq_keys _ ((λ _, ()) <$> (mn_Entries before ∪ mn_Entries after))))
  end.

(** [prepareRestoreActivity]. *)
Definition prepareRestoreActivity (recovering : bool) : M (option Manifest) :=
  if recovering then
    b ⟵ read c_before;
    match b with
    | None => retC None
    | Some savepoint => m ⟵ GetManifest savepoint; retC (Some m)
    end
  else
    meta ⟵ GetWorkspaceMeta;
    _ ⟵ write (λ s, touch [restoreActivityBeforeKey id] (with_before (Some (wm_HeadSavepoint meta)) s));
    m ⟵ GetManifest (wm_HeadSavepoint meta);
    retC (Some m).

(** [completeRestoreActivityScript]. *)
Definition db_changes (l : list event) (d : db arr) : db arr :=
  Db (inodes d) (dirents d) (contents d) (stages d) (info d) (next_inode d) (root_dirty d) (Some l) (generation d) (leases d).

Definition completeRestore (generation_ token : string) (cs : list activityChange) (s : cp arr) : result cpError () * cp arr :=
  if bool_decide (generation (c_db s) = Some generation_) then (Ok (), s)
  else if negb (bool_decide (generation (c_db s) = Some ("restoring:" +:+ generation_))) || negb (bool_decide (c_lock s = Some token))
  then (Err RestoreRefused, s)
  else match changes (c_db s) with
       | None => (Err WrongTypeReply, s)
       | Some l =>
           let evs := map (λ c, Event "afs" "inode" [ac_path c]) cs ++ [Event "afs" "root-replace" ["/"]] in
           (Ok (), touch [WorkspaceGenerationKey id; changesKey id; restoreActivityBeforeKey id]
                     (with_before None (set_generation generation_ (with_db (db_changes (l ++ evs)) s))))
       end.

Definition completeRestoreWithActivity (generation_ token : string) (before : option Manifest) (after : Manifest) : M () :=
  cs ⟵ liftC (activityChanges before after);
  λ s, completeRestore generation_ token cs (cq_env s).

(** * [RestoreCheckpoint] *)

Definition AcquireImportLock (token : string) : M () :=
  _ ⟵ resolveWorkspaceStorageOrRaw;
  λ s, let s := cq_env s in
       match c_lock s with
       | Some _ => (Err ErrImportInProgress, s)
       | None => (Ok (), touch [ImportLockKey id] (with_lock (Some token) s))
       end.

(** [importLockReleaseScript]. *)
Definition releaseLock (token : string) : M () :=
  write (λ s, if bool_decide (c_lock s = Some token) then touch [ImportLockKey id] (with_lock None s) else s).

Definition Lost : M () := l ⟵ (λ s, (Ok (cq_lost s), s)); failIf l LockLost.

Definition setGeneration (g : string) : M () := write (λ s, touch [WorkspaceGenerationKey id] (set_generation g s)).

(** The random parts of a restore's names: [token] of the lock, [draw] of the generation. *)
Definition restoreLocked (fuel : nat) (token draw : string) (p : SavepointMeta) (m : Manifest) (meta : WorkspaceMeta) :
    M RestoreCheckpointResult :=
  previous ⟵ read (λ s, generation (c_db s));
  previous ⟵ orElse NilReply previous;
  let generation_ := "g_" +:+ draw in
  let recovering := HasPrefix previous "restoring:" in
  let fencing := (if recovering then "restoring:" else "fencing:") +:+ generation_ in
  _ ⟵ setGeneration fencing;
  root ⟵ read (λ s, inodes (c_db s) !! workspaceFSRootInodeID);
  safety ⟵ (if negb recovering && bool_decide (is_Some root)
             then now ⟵ nowC; captureCheckpoint fuel noOptions ("before-restore-" +:+ cq_timeName now) fencing token false
             else retC None);
  _ ⟵ Lost;
  before ⟵ prepareRestoreActivity recovering;
  _ ⟵ setGeneration ("restoring:" +:+ generation_);
  now ⟵ nowC;
  _ ⟵ MoveWorkspaceHead (sm_ID p) now;
  _ ⟵ SyncWorkspaceRoot m;
  _ ⟵ Lost;
  _ ⟵ completeRestoreWithActivity generation_ token before m;
  retC {| rr_Restored := true; rr_CheckpointID := sm_ID p; rr_WorkspaceID := id; rr_WorkspaceName := wm_Name meta;
          rr_SafetyCheckpointID := match safety with Some q => sm_ID q | None => "" end;
          rr_SafetyCheckpointCreated := bool_decide (is_Some safety) |}.

Definition RestoreCheckpoint (fuel : nat) (token draw ref : string) : M RestoreCheckpointResult :=
  r ⟵ GetCheckpoint ref;
  let '(p, m) := r in
  meta ⟵ GetWorkspaceMeta;
  _ ⟵ AcquireImportLock token;
  deferC (restoreLocked fuel token draw p m meta) (releaseLock token).

(** * [DeleteCheckpoint] *)

Definition loweredRef (r : blobRef) : blobRef :=
  {| br_BlobID := br_BlobID r; br_Size := br_Size r;
     br_RefCount := if 0 <? br_RefCount r then br_RefCount r - 1 else br_RefCount r; br_CreatedAt := br_CreatedAt r |}.

Definition deleteEffects (savepoint : string) (refs : list (string * blobRef)) (s : cp arr) : cp arr :=
  touch ([savepointMetaKey id savepoint; savepointManifestKey id savepoint; workspaceSavepointsKey id] ++
         map (λ r, blobRefKey id r.1) refs)
    (with_refs (putRefs refs (c_refs s))
      (with_points (delete savepoint (c_points s)) (delete savepoint (c_manifests s)) (delete savepoint (c_index s)) s)).

Definition DeleteCheckpoint (ref : string) : M () :=
  r ⟵ GetCheckpoint ref;
  let '(p, m) := r in
  _ ⟵ GetWorkspaceMeta;
  let blobs := cq_keys _ (manifestBlobRefs m) in
  seen ⟵ WATCH cq_env;
  current ⟵ read c_meta;
  current ⟵ orElse ErrNotExist current;
  _ ⟵ failIf (bool_decide (wm_HeadSavepoint current = sm_ID p ∨ wm_DefaultSavepoint current = sm_ID p)) (DeleteCurrent (sm_ID p));
  baseline ⟵ read c_before;
  _ ⟵ failIf (bool_decide (default "" baseline = sm_ID p)) (DeleteBaseline (sm_ID p));
  e ⟵ read (λ s, c_points s !! sm_ID p);
  _ ⟵ failIf (bool_decide (e = None)) ErrNotExist;
  refs ⟵ mapC (λ b, r ⟵ read (λ s, c_refs s !! b); r ⟵ orElse ErrNotExist r; retC (b, loweredRef r)) blobs;
  EXEC cq_env seen ([workspaceMetaKey id; savepointMetaKey id (sm_ID p); restoreActivityBeforeKey id] ++ map (blobRefKey id) blobs)
    (deleteEffects (sm_ID p) refs).

(** * [DeleteWorkspace] *)

(** The batches of SCAN and DEL: all keys of the workspace but its metadata, its
    generation and its lock. *)
Definition deleteKeys (s : cp arr) : cp arr :=
  let d := c_db s in
  let names {A} (m : gmap string A) := map fst (map_to_list m) in
  touch ([changesKey id; workspaceSavepointsKey id; restoreActivityBeforeKey id; workspaceRootHeadKey id;
          workspaceRootDirtyKey id] ++ map (savepointMetaKey id) (names (c_points s)) ++
         map (savepointManifestKey id) (names (c_manifests s)) ++ map (blobRefKey id) (names (c_refs s)) ++
         map (blobKey id) (names (c_blobs s)))
    (Cp _ (Db ∅ ∅ ∅ ∅ (InfoHash 0 0 0 0) None false (Some []) (generation d) ∅) (c_meta s) ∅ ∅ ∅ ∅ ∅ (c_lock s) None None
       (c_now s) (c_touched s) (c_past s) (c_pastLocks s)).

Definition storeDeleteWorkspace : M () :=
  _ ⟵ GetWorkspaceMeta;
  _ ⟵ setGeneration "deleted";
  _ ⟵ write deleteKeys;
  write (λ s, touch [workspaceMetaKey id] (with_meta None s)).

Definition DeleteWorkspace (token : string) : M () :=
  _ ⟵ AcquireImportLock token;
  deferC (_ ⟵ GetWorkspaceMeta; storeDeleteWorkspace) (releaseLock token).
End programs.
