(* ===== verification/CheckpointRely.v ===== *)
(** What others do to a workspace while the control plane works on it, as steps, and
    what a caller may conclude from two states between which only they acted.

    [act] lists the steps: commands of clients, changes of records, the import lock
    taken, released or expired, and the restores and deletions of other servers.
    Clients journal what they do to the tree, but for the path hints a rename refreshes
    afterwards, and are turned away while a restore runs (FsState's guard); a server
    rewrites a tree only under a generation that says so, that is, it stops when it has
    lost its lock.  Nobody uses the caller's lock token or generations again.  What
    clients that do not publish and servers that go on without their lock can do is in
    CheckpointRaces. *)
From Stdlib Require Import Strings.Byte.
From S2P Require Import Prelude Content Paths FsState FsTree FsScripts FsClient ServerDiff Base64 RootNodes RootScan RootLive CheckpointState Checkpoint.
#[local] Open Scope string_scope.
#[local] Open Scope list_scope.
#[local] Open Scope Z_scope.

(** The generation of a workspace clients work in, and of one whose tree is whole. *)
Definition liveGen (g : option string) : bool := match g with Some g => HasPrefix g "g_" | None => false end.
Definition intactGen (g : option string) : bool := match g with Some g => HasPrefix g "g_" || HasPrefix g "fencing:" | None => false end.

Section rely.
Context {arr : Type} {RA : RedisArray arr} {P : CPParams arr}.
Implicit Types s : cp arr.
Implicit Types d : db arr.
Local Abbreviation id := cq_id.
Local Abbreviation gen s := (generation (c_db s)).

Definition same_tree d d' : Prop := inodes d' = inodes d ∧ dirents d' = dirents d ∧ contents d' = contents d.
Definition same_core d d' : Prop := same_tree d d' ∧ info d' = info d ∧ next_inode d' = next_inode d ∧ changes d' = changes d.

(** A rename writes the path hints of what it moved after the fact, without an entry in
    the journal ([refreshIndexedSubtree] of FsClient); a hint for an inode that is gone by
    then makes a hash with nothing but the hint.  Neither is seen by who reads the
    tree: [settled] is a tree without hints. *)
Definition refreshed (updates : list (string * string)) d : db arr :=
  with_inodes (λ m, foldl (λ m u, hset u.1 [FPath u.2; FPathAncestors (indexedPathAncestors u.2)] m) m updates) d.

Definition settledHash (h : inodeHash) : option inodeHash :=
  if h_type h then Some (foldl hset1 h [FPath ""; FPathAncestors ""]) else None.
Definition settled d : db arr := with_inodes (omap settledHash) d.
Definition same_view d d' : Prop := same_tree (settled d) (settled d').

Lemma hint_settled h p a : settledHash (foldl hset1 h [FPath p; FPathAncestors a]) = settledHash h.
Proof. by destruct h as [[ty|]]. Qed.

Lemma hset_settled (m : gmap string inodeHash) i p a : omap settledHash (hset i [FPath p; FPathAncestors a] m) = omap settledHash m.
Proof.
  apply map_eq. intros j. rewrite !lookup_omap. unfold hset. destruct (decide (i = j)) as [->|Hne].
  - rewrite lookup_insert_eq. cbn [mbind option_bind]. rewrite hint_settled. by destruct (m !! j).
  - by rewrite lookup_insert_ne.
Qed.

Lemma refreshed_view us d : same_view d (refreshed us d).
Proof.
  split; [|done]. unfold settled, refreshed. destruct d; cbn. generalize inodes. induction us as [|u us IH]; intros m; [done|].
  cbn [foldl]. by rewrite IH, hset_settled.
Qed.

#[export] Instance same_tree_preorder : PreOrder same_tree.
Proof. split; [done|]. intros a b c (? & ? & ?) (? & ? & ?). repeat split; congruence. Qed.
#[export] Instance same_view_equiv : Equivalence same_view.
Proof.
  split; [intros d; unfold same_view; reflexivity|intros a b (? & ? & ?); by split_and!|]. intros a b c. unfold same_view. apply transitivity.
Qed.
#[export] Instance same_core_preorder : PreOrder same_core.
Proof. split; [done|]. intros a b c ((? & ? & ?) & ? & ? & ?) ((? & ? & ?) & ? & ? & ?). repeat split; congruence. Qed.

(** The caller's token, and the generations it sets. *)
Context (token : string) (mine : list string).

Inductive act : cp arr → cp arr → Prop :=
| act_client s d l e evs ks : liveGen (gen s) = true → changes (c_db s) = Some l → changes d = Some (l ++ e :: evs) →
    generation d = gen s → (fs_inv (settled (c_db s)) ∧ names_ok (c_db s) → fs_inv (settled d) ∧ names_ok d) → act s (touch (changesKey id :: ks) (with_db (λ _, d) s))
| act_quiet s d ks : same_tree (c_db s) d → info d = info (c_db s) → changes d = changes (c_db s) → generation d = gen s →
    (liveGen (gen s) = true ∨ next_inode d = next_inode (c_db s)) → act s (touch ks (with_db (λ _, d) s))
| act_refresh s us ks : liveGen (gen s) = true → act s (touch ks (with_db (refreshed us) s))
| act_records s s' b : c_db s' = db_dirty b (c_db s) → c_lock s' = c_lock s → c_past s' = c_past s →
    c_pastLocks s' = c_pastLocks s → c_blobs s ⊆ c_blobs s' →
    (∀ k v, c_blobs s' !! k = Some v → c_blobs s !! k = Some v ∨ k = cq_blobSHA256 v) →
    (∀ k, (touches s k ≤ touches s' k)%nat) →
    (touches s (workspaceMetaKey id) = touches s' (workspaceMetaKey id) → c_meta s' = c_meta s) →
    (∀ p, touches s (savepointMetaKey id p) = touches s' (savepointMetaKey id p) → c_points s' !! p = c_points s !! p) →
    (∀ b, touches s (blobRefKey id b) = touches s' (blobRefKey id b) → c_refs s' !! b = c_refs s !! b) →
    act s s'
| act_lock s t : c_lock s = None → t ∉ c_pastLocks s → t ≠ token → act s (touch [ImportLockKey id] (with_lock (Some t) s))
| act_unlock s : act s (touch [ImportLockKey id] (with_lock None s))
| act_generation s g : c_lock s ≠ Some token → g ∉ c_past s → gen s ≠ Some g → g ∉ mine → HasPrefix g "g_" = false →
    (HasPrefix g "fencing:" = true → intactGen (gen s) = true) →
    act s (touch [WorkspaceGenerationKey id] (set_generation g s))
| act_complete s g l evs : c_lock s ≠ Some token → g ∉ c_past s → gen s ≠ Some g → g ∉ mine → HasPrefix g "g_" = true →
    changes (c_db s) = Some l → fs_inv (settled (c_db s)) → names_ok (c_db s) →
    act s (touch [WorkspaceGenerationKey id; changesKey id; restoreActivityBeforeKey id]
             (with_before None (set_generation g (with_db (db_changes (l ++ evs)) s))))
| act_rewrite s s' : c_lock s ≠ Some token → intactGen (gen s) = false → gen s' = gen s → c_lock s' = c_lock s →
    c_past s' = c_past s → c_pastLocks s' = c_pastLocks s → (∀ k v, c_blobs s' !! k = Some v → k = cq_blobSHA256 v) →
    (∀ k, (touches s k ≤ touches s' k)%nat) → (touches s (changesKey id) < touches s' (changesKey id))%nat →
    (touches s (workspaceMetaKey id) < touches s' (workspaceMetaKey id))%nat → act s s'.

(** ** What holds of every state *)

Record cp_ok s : Prop := {
  ok_gen g : gen s = Some g → g ∉ c_past s;
  ok_lock t : c_lock s = Some t → t ∉ c_pastLocks s;
  ok_blobs k v : c_blobs s !! k = Some v → k = cq_blobSHA256 v
}.

(** Where the generation says so, the tree is whole. *)
Definition tree_ok s : Prop := intactGen (gen s) = true → fs_inv (settled (c_db s)) ∧ names_ok (c_db s).

(** ** What two states have in common *)

Record later s s' : Prop := {
  lt_past : c_past s ⊆ c_past s';
  lt_gen g : gen s = Some g → gen s' ≠ Some g → g ∈ c_past s';
  lt_pastLocks : c_pastLocks s ⊆ c_pastLocks s';
  lt_lock t : c_lock s = Some t → c_lock s' ≠ Some t → t ∈ c_pastLocks s';
  lt_tree l : intactGen (gen s) = true → gen s' = gen s → changes (c_db s) = Some l →
    c_blobs s ⊆ c_blobs s' ∧ ∃ evs, changes (c_db s') = Some (l ++ evs) ∧ (evs = [] → same_view (c_db s) (c_db s'));
  lt_mine : c_lock s = Some token → c_lock s' = Some token →
    gen s' = gen s ∧ c_blobs s ⊆ c_blobs s' ∧ (liveGen (gen s) = false → same_core (c_db s) (c_db s'));
  lt_unused g : g ∈ mine → g ∉ c_past s → gen s ≠ Some g → g ∉ c_past s' ∧ gen s' ≠ Some g;
  lt_newlock : token ∉ c_pastLocks s → c_lock s ≠ Some token → token ∉ c_pastLocks s' ∧ c_lock s' ≠ Some token;
  lt_touch k : (touches s k ≤ touches s' k)%nat;
  lt_watch_gen : touches s (WorkspaceGenerationKey id) = touches s' (WorkspaceGenerationKey id) → gen s' = gen s;
  lt_watch_changes : touches s (changesKey id) = touches s' (changesKey id) → changes (c_db s') = changes (c_db s);
  lt_watch_meta : touches s (workspaceMetaKey id) = touches s' (workspaceMetaKey id) → c_meta s' = c_meta s;
  lt_watch_lock : touches s (ImportLockKey id) = touches s' (ImportLockKey id) → c_lock s' = c_lock s
}.

Lemma touches_touch ks s k : touches (touch ks s) k = (touches s k + count_occ String.string_dec ks k)%nat.
Proof.
  unfold touches, touch. simpl. induction ks as [|k' ks IH]; simpl; [lia|]. destruct (String.string_dec k' k) as [->|Hne].
  - rewrite lookup_insert_eq. simpl. lia.
  - by rewrite lookup_insert_ne by done.
Qed.

Lemma touch_le ks s k : (touches s k ≤ touches (touch ks s) k)%nat.
Proof. rewrite touches_touch. lia. Qed.

Lemma touch_lt ks s k : k ∈ ks → (touches s k < touches (touch ks s) k)%nat.
Proof. intros Hk. rewrite touches_touch. apply list_elem_of_In, (count_occ_In String.string_dec) in Hk. lia. Qed.

Lemma fs_inv_same d d' : same_tree d d' → info d' = info d → fs_inv d → fs_inv d'.
Proof. intros (E1 & E2 & _) E3 [H1 H2 H3]. split; rewrite ?E1, ?E2, ?E3; done. Qed.

Lemma settled_same d d' : same_tree d d' → same_view d d'.
Proof. intros (E1 & E2 & E3). destruct d, d'. simpl in *. by subst. Qed.

(** A tree that is whole has nothing but hints to lose. *)
Lemma static_settled d : fs_inv d → static <$> inodes (settled d) = static <$> inodes d.
Proof.
  intros [Ht _ _]. apply map_eq. intros i. unfold settled. cbn [with_inodes inodes]. rewrite !lookup_fmap, lookup_omap.
  destruct (inodes d !! i) as [h|] eqn:E; [|done]. cbn.
  assert (known_type (h_type h)) as Hty by (apply (wf_types _ _ Ht i (static h)); by apply static_lookup).
  destruct h as [[ty|]]; [done|]. exfalso. revert Hty. unfold known_type. cbn. intuition congruence.
Qed.

Lemma fs_inv_settled d : fs_inv d → fs_inv (settled d).
Proof. intros H. pose proof (static_settled d H) as E. destruct H as [H1 H2 H3]. split; rewrite ?E; done. Qed.

Lemma fs_inv_view d d' : same_view d d' → info d' = info d → fs_inv (settled d) → fs_inv (settled d').
Proof. intros Hv E. by apply fs_inv_same. Qed.

Lemma names_ok_same d d' : same_tree d d' → names_ok d → names_ok d'.
Proof. intros (_ & E & _) H dir name i. rewrite E. apply H. Qed.

Lemma past_set g s g' : g' ∈ c_past (set_generation g s) ↔ g' ∈ c_past s ∨ (gen s = Some g' ∧ g' ≠ g).
Proof.
  unfold set_generation. simpl. destruct (gen s) as [g0|]; [|split; [by left|by intros [?|[? _]]]].
  case_bool_decide as E; [|set_solver]. split; [by left|]. intros [?|[[= ->] ?]]; [done|congruence].
Qed.

Lemma past_lock t s t' : t' ∈ c_pastLocks (with_lock t s) ↔ t' ∈ c_pastLocks s ∨ (c_lock s = Some t' ∧ t ≠ Some t').
Proof.
  unfold with_lock. simpl. destruct (c_lock s) as [t0|]; [|split; [by left|by intros [?|[? _]]]].
  case_bool_decide as E; [|set_solver]. split; [by left|]. intros [?|[[= ->] ?]]; [done|congruence].
Qed.

Lemma act_ok s s' : act s s' → cp_ok s → cp_ok s'.
Proof.
  intros H [H1 H2 H3]. destruct H as [s d l e evs ks ? ? ? E|s d ks HT HI ? E|s us ks|s s' b E1 E2 E3 E4 ? HB|s t Hl Ht|s|s g ? Hg Hne _ Hg1 Hg2
    |s g l evs ? Hg Hne _ Hg1|s s' ? Hi E1 E2 E3 E4 HB].
  - split; simpl; [by rewrite E|done|done].
  - split; simpl; [by rewrite E|done|done].
  - by split.
  - split; rewrite ?E1, ?E2, ?E3, ?E4; simpl; [done|done|intros k v [?|?]%HB; eauto].
  - split; try done. simpl. intros t' [= <-]. by rewrite Hl.
  - by split.
  - split; try done. simpl. intros g' [= <-] [?|[? ?]]%past_set; done.
  - split; try done. simpl. intros g' [= <-] [?|[? ?]]%past_set; done.
  - split; rewrite ?E1, ?E2, ?E3, ?E4; done.
Qed.

Lemma act_tree s s' : act s s' → tree_ok s → tree_ok s'.
Proof.
  unfold tree_ok. intros H HT. destruct H as [s d l e evs ks ? ? ? E Hd|s d ks Hs HI ? E|s us ks|s s' b E1|s t Hl Ht|s|s g ? Hg Hne _ Hg1 Hg2
    |s g l evs ? Hg Hne _ Hg1|s s' ? Hi E1 E2 E3 E4 HB]; simpl; try done.
  - rewrite E. auto.
  - rewrite E. intros Hi. destruct (HT Hi) as [? ?]. split; [by eapply fs_inv_view; [apply settled_same| |]|by eapply names_ok_same].
  - intros Hi. destruct (HT Hi) as [? ?]. split; [by eapply fs_inv_view; [apply refreshed_view| |]|done].
  - rewrite E1. simpl. intros Hi. destruct (HT Hi) as [? ?]. split; [by apply (fs_inv_view (c_db s))|by apply (names_ok_same (c_db s))].
  - rewrite Hg1. intros Hi. destruct (HT (Hg2 Hi)) as [? ?]. split; [by apply (fs_inv_view (c_db s))|by apply (names_ok_same (c_db s))].
  - intros _. split; [by apply (fs_inv_view (c_db s))|by apply (names_ok_same (c_db s))].
  - by rewrite E1, Hi.
Qed.

Lemma later_refl s : later s s.
Proof. split; try done. intros l _ _ ->. split; [done|]. exists []. by rewrite app_nil_r. Qed.

Lemma later_trans s1 s2 s3 : cp_ok s3 → later s1 s2 → later s2 s3 → later s1 s3.
Proof.
  intros Hok A B.
  assert (∀ g, gen s1 = Some g → gen s3 = Some g → gen s2 = Some g) as Hgen.
  { intros g H1 H3. destruct (decide (gen s2 = Some g)) as [|Hne]; [done|]. exfalso.
    apply (ok_gen _ Hok g H3), (lt_past _ _ B), (lt_gen _ _ A g H1 Hne). }
  assert (∀ k, touches s1 k = touches s3 k → touches s1 k = touches s2 k ∧ touches s2 k = touches s3 k) as Ht.
  { intros k E. pose proof (lt_touch _ _ A k). pose proof (lt_touch _ _ B k). lia. }
  split.
  - etrans; [apply A|apply B].
  - intros g H1 H3. destruct (decide (gen s2 = Some g)) as [E|Hne]; [by apply (lt_gen _ _ B)|]. apply (lt_past _ _ B). by apply (lt_gen _ _ A).
  - etrans; [apply A|apply B].
  - intros t H1 H3. destruct (decide (c_lock s2 = Some t)) as [E|Hne]; [by apply (lt_lock _ _ B)|].
    apply (lt_pastLocks _ _ B). by apply (lt_lock _ _ A).
  - intros l Hi Hg Hl. destruct (gen s1) as [g|] eqn:E1; [|done]. pose proof (Hgen g eq_refl Hg) as E2.
    destruct (lt_tree _ _ A l) as (HB1 & evs1 & Hc1 & HT1); [by rewrite E1|by rewrite E2|done|].
    destruct (lt_tree _ _ B (l ++ evs1)) as (HB2 & evs2 & Hc2 & HT2); [by rewrite E2|by rewrite E2, Hg|done|].
    split; [by etrans|]. exists (evs1 ++ evs2). split; [by rewrite app_assoc|].
    intros [-> ->]%app_nil. by etrans; [apply HT1|apply HT2].
  - intros H1 H3. assert (c_lock s2 = Some token) as H2.
    { destruct (decide (c_lock s2 = Some token)) as [|Hne]; [done|]. exfalso.
      apply (ok_lock _ Hok token H3), (lt_pastLocks _ _ B), (lt_lock _ _ A token H1 Hne). }
    destruct (lt_mine _ _ A H1 H2) as (E1 & B1 & C1). destruct (lt_mine _ _ B H2 H3) as (E2 & B2 & C2).
    split; [congruence|]. split; [by etrans|]. intros Hl. etrans; [by apply C1|]. apply C2. by rewrite E1.
  - intros g Hg H1 H2. destruct (lt_unused _ _ A g Hg H1 H2). by apply (lt_unused _ _ B).
  - intros H1 H2. destruct (lt_newlock _ _ A H1 H2). by apply (lt_newlock _ _ B).
  - intros k. etrans; [apply A|apply B].
  - intros [H1 H2]%Ht. rewrite (lt_watch_gen _ _ B H2). apply (lt_watch_gen _ _ A H1).
  - intros [H1 H2]%Ht. rewrite (lt_watch_changes _ _ B H2). apply (lt_watch_changes _ _ A H1).
  - intros [H1 H2]%Ht. rewrite (lt_watch_meta _ _ B H2). apply (lt_watch_meta _ _ A H1).
  - intros [H1 H2]%Ht. rewrite (lt_watch_lock _ _ B H2). apply (lt_watch_lock _ _ A H1).
Qed.

(** Steps that leave a part alone say little about it. *)
Lemma later_same s s' : c_past s' = c_past s → gen s' = gen s → c_pastLocks s' = c_pastLocks s → c_lock s' = c_lock s →
  (∀ l, intactGen (gen s) = true → changes (c_db s) = Some l → c_blobs s ⊆ c_blobs s' ∧
    ∃ evs, changes (c_db s') = Some (l ++ evs) ∧ (evs = [] → same_view (c_db s) (c_db s'))) →
  (c_lock s = Some token → c_blobs s ⊆ c_blobs s' ∧ (liveGen (gen s) = false → same_core (c_db s) (c_db s'))) →
  (∀ k, (touches s k ≤ touches s' k)%nat) →
  (touches s (changesKey id) = touches s' (changesKey id) → changes (c_db s') = changes (c_db s)) →
  (touches s (workspaceMetaKey id) = touches s' (workspaceMetaKey id) → c_meta s' = c_meta s) → later s s'.
Proof.
  intros E1 E2 E3 E4 HT HM Ht Hc Hm. split; rewrite ?E1, ?E2, ?E3, ?E4; auto; try congruence.
Qed.

(** A step that only sets the lock. *)
Lemma lock_later s l : (∀ t, l = Some t → t ≠ token) → later s (touch [ImportLockKey id] (with_lock l s)).
Proof.
  intros Hl. set (s' := touch _ _). assert (∀ k, (touches s k ≤ touches s' k)%nat) as Ht by (intros; apply (touch_le _ (with_lock l s))).
  assert (c_pastLocks s' = c_pastLocks (with_lock l s)) as Ep by done. assert (c_lock s' = l) as El by done.
  split; rewrite ?Ep, ?El; try done.
  - intros t Ht'. apply past_lock. by left.
  - intros t H1 H2. apply past_lock. right. done.
  - intros ls _ _ Hc. split; [done|]. exists []. by rewrite app_nil_r.
  - intros H1 H2. split; [|intros E0; by apply (Hl token E0)]. intros [?|[? _]]%past_lock; done.
  - intros E. pose proof (touch_lt [ImportLockKey id] (with_lock l s) (ImportLockKey id) ltac:(by left)) as H.
    change (touches (with_lock l s) (ImportLockKey id)) with (touches s (ImportLockKey id)) in H. fold s' in H. lia.
Qed.

(** A step that sets the generation, without the lock of the caller. *)
Lemma generation_later s s' g ks : c_lock s ≠ Some token → gen s ≠ Some g → g ∉ mine → WorkspaceGenerationKey id ∈ ks →
  (changes (c_db s') = changes (c_db s) ∨ changesKey id ∈ ks) →
  gen s' = Some g → c_past s' = c_past (set_generation g s) → c_pastLocks s' = c_pastLocks s → c_lock s' = c_lock s →
  c_meta s' = c_meta s → (∀ k, touches s' k = touches (touch ks s) k) → later s s'.
Proof.
  intros Hl Hne Hmine Hk Hc Hg E1 E2 E3 E4 Et. assert (∀ k, (touches s k ≤ touches s' k)%nat) as Ht by (intros; rewrite Et; apply touch_le).
  split; rewrite ?E2, ?E3, ?Hg; try done.
  - rewrite E1. intros g' Hg'. apply past_set. by left.
  - rewrite E1. intros g' Hg' Hn. apply past_set. right. split; [done|congruence].
  - rewrite E1. intros g' Hg' H1 H2. split; [|intros [= ->]; done]. by intros [?|[? _]]%past_set.
  - rewrite Et. intros E. pose proof (touch_lt ks s _ Hk). lia.
  - rewrite Et. intros E. destruct Hc as [|Hc]; [done|]. pose proof (touch_lt ks s _ Hc). lia.
Qed.

Lemma act_later s s' : act s s' → later s s'.
Proof.
  intros H. destruct H as [s d l e evs ks Hlive Hl Hd E|s d ks HT HI HC E HN|s us ks Hlive|s s' b E1 E2 E3 E4 HB1 HB Ht Hm|s t Hl Ht Hn|s|s g ? Hg Hne ? Hg1 Hg2
    |s g l evs ? Hg Hne ? Hg1 Hl|s s' ? Hi E1 E2 E3 E4 HB Ht Hc Hm].
  - apply later_same; simpl; [done|done|done|done| | |intros k; apply (touch_le _ (with_db _ s))| |done].
    + rewrite Hl, Hd. intros l' _ [= <-]. split; [done|]. by exists (e :: evs).
    + intros _. split; [done|]. by rewrite Hlive.
    + intros Ek. exfalso. pose proof (touch_lt (changesKey id :: ks) (with_db (λ _, d) s) (changesKey id) ltac:(by left)) as Hlt.
      change (touches (with_db (λ _, d) s) (changesKey id)) with (touches s (changesKey id)) in Hlt. lia.
  - apply later_same; simpl; [done|done|done|done| | |intros k; apply (touch_le _ (with_db _ s))|done|done].
    + intros l _ Hl. rewrite HC. split; [done|]. exists []. rewrite app_nil_r. split; [done|]. intros _. by apply settled_same.
    + intros _. split; [done|]. intros Hlive. rewrite Hlive in HN. destruct HN as [|HN]; [done|]. split; [done|]. by rewrite HI, HN, HC.
  - apply later_same; simpl; [done|done|done|done| | |intros k; apply (touch_le _ (with_db _ s))|done|done].
    + intros l _ Hl. split; [done|]. exists []. rewrite app_nil_r. split; [done|]. intros _. apply refreshed_view.
    + intros _. split; [done|]. by rewrite Hlive.
  - apply later_same; rewrite ?E1; try done.
    + intros l _ Hl. split; [done|]. exists []. by rewrite app_nil_r.
  - apply lock_later. by intros ? [= <-].
  - by apply lock_later.
  - apply (generation_later s _ g [WorkspaceGenerationKey id]); try done; [by left|by left].
  - apply (generation_later s _ g [WorkspaceGenerationKey id; changesKey id; restoreActivityBeforeKey id]); try done; [by left|].
    right. set_solver.
  - apply later_same; try done; [by rewrite Hi|lia|lia].
Qed.

(** ** Runs of others *)

Definition evolves s s' : Prop := cp_ok s → cp_ok s' ∧ later s s' ∧ (tree_ok s → tree_ok s').

#[export] Instance evolves_preorder : PreOrder evolves.
Proof.
  split; [intros s Hs; split; [done|split; [apply later_refl|done]]|]. intros a b c H1 H2 Ha. destruct (H1 Ha) as (Hb & L1 & T1).
  destruct (H2 Hb) as (Hc & L2 & T2). split; [done|]. split; [by eapply later_trans|auto].
Qed.

Lemma acts_evolve s s' : rtc act s s' → evolves s s'.
Proof.
  induction 1 as [s|s s1 s2 H _ IH]; [reflexivity|]. etrans; [|exact IH]. intros Hs.
  split; [by eapply act_ok|]. split; [by apply act_later|by apply act_tree].
Qed.
End rely.
