(* ===== verification/CheckpointScan.v ===== *)
(** The scan of the live root under interference (workspace_root_manifest.go): it sees
    what it would see of one tree, if the tree is that one at every command; and more
    levels than it needs change nothing. *)
From Stdlib Require Import Strings.Byte.
From S2P Require Import Prelude Content Paths FsState FsTree FsScripts FsClient ServerDiff Base64 RootNodes RootScan RootLive CheckpointState Checkpoint CheckpointRely.
#[local] Open Scope string_scope.
#[local] Open Scope list_scope.
#[local] Open Scope Z_scope.

Section frozen.
Context {arr : Type} `{!RedisArray arr} (arrays : bool) (blobSHA256 : bytes → string).
Context `{!SliceSort stringLess} (keys : mapOrder) (at_ : nat → db arr) (d : db arr).

(** The tree is [d]'s from one command to another, but for path hints. *)
Definition frozen (t t' : nat) : Prop := ∀ n, (t ≤ n < t')%nat → same_view d (at_ n).

Lemma parseInode_settled i (d' : db arr) : parseInode (inodes (settled d') !! i) = parseInode (inodes d' !! i).
Proof.
  unfold settled. cbn [with_inodes inodes]. rewrite lookup_omap. destruct (inodes d' !! i) as [h|]; [|done].
  by destruct h as [[ty|]].
Qed.

Lemma parseInode_view (d1 d2 : db arr) i : same_view d1 d2 → parseInode (inodes d2 !! i) = parseInode (inodes d1 !! i).
Proof. intros (E & _). by rewrite <- (parseInode_settled i d2), E, parseInode_settled. Qed.

Lemma readAll_time {A B} (f : A → db arr → B) l t bs t' : readAll at_ f l t = (bs, t') → (t ≤ t')%nat.
Proof.
  revert t bs. induction l as [|a l IH]; intros t bs; simpl; [by intros [= <- <-]|].
  destruct (readAll at_ f l (S t)) as [bs' t''] eqn:E. intros [= <- <-]. apply IH in E. lia.
Qed.

Lemma readAll_frozen {A B C} (f : A → db arr → B) (g : B → C) l t bs t' : (∀ a d', same_view d d' → g (f a d') = g (f a d)) →
  readAll at_ f l t = (bs, t') → frozen t t' → ∃ bs', readAll (λ _, d) f l t = (bs', t') ∧ map g bs' = map g bs.
Proof.
  intros Hf. revert t bs. induction l as [|a l IH]; intros t bs; simpl; [intros [= <- <-] _; by exists []|].
  destruct (readAll at_ f l (S t)) as [bs' t''] eqn:E. intros [= <- <-] Hfr. pose proof (readAll_time _ _ _ _ _ E).
  destruct (IH (S t) bs') as (bs1 & -> & Em); [done|intros n Hn; apply Hfr; lia|]. exists (f a d :: bs1). split; [done|].
  simpl. rewrite Em. f_equal. symmetry. apply Hf, Hfr. lia.
Qed.

Lemma contentCell_same d' i : same_view d d' → contentCell d' i = contentCell d i.
Proof. intros (_ & _ & E). unfold contentCell. destruct d, d'. cbn in *. by rewrite E. Qed.

Lemma dirents_same d' : same_view d d' → dirents d' = dirents d.
Proof. intros (_ & E & _). by destruct d, d'. Qed.

Lemma loadContents_time queue t r t' : loadContents arrays at_ queue t = (r, t') → (t ≤ t')%nat.
Proof.
  revert t r. induction queue as [|[item p] queue IH]; intros t r; simpl; [by intros [= <- <-]|].
  destruct p as [i|]; [destruct (_ && _); [destruct (Load _ _ _ _)|]|]; try (intros [= <- <-]; lia);
    destruct (loadContents arrays at_ queue _) as [[rest|e] t''] eqn:E; intros [= <- <-]; apply IH in E; lia.
Qed.

Lemma loadContents_frozen queue t r t' : loadContents arrays at_ queue t = (r, t') → frozen t t' →
  loadContents arrays (λ _, d) queue t = (r, t').
Proof.
  revert t r. induction queue as [|[item p] queue IH]; intros t r; simpl; [done|].
  assert (∀ u rest, (t ≤ u)%nat → loadContents arrays at_ queue u = (rest, t') → frozen t t' →
    loadContents arrays (λ _, d) queue u = (rest, t')) as Hrest.
  { intros u rest Hu E Hfr. apply IH; [done|]. intros n Hn. apply Hfr. lia. }
  destruct p as [i|]; [destruct (_ && _)|].
  - destruct (Load arrays (contentCell (at_ t) (bi_inodeID item)) (pi_contentRef i) (pi_size i)) as [data|e] eqn:El.
    + destruct (loadContents arrays at_ queue (S t)) as [rest t''] eqn:E. intros Hr Hfr. pose proof (loadContents_time _ _ _ _ E) as Ht.
      assert (t'' = t') as -> by (destruct rest; congruence).
      rewrite (contentCell_same (at_ t)) in El by (apply Hfr; lia). by rewrite El, (Hrest (S t) rest) by (done || lia).
    + intros [= <- <-] Hfr. rewrite (contentCell_same (at_ t)) in El by (apply Hfr; lia). by rewrite El.
  - destruct (loadContents arrays at_ queue t) as [rest t''] eqn:E. intros Hr Hfr.
    assert (t'' = t') as -> by (destruct rest; congruence). by rewrite (Hrest t rest).
  - destruct (loadContents arrays at_ queue t) as [rest t''] eqn:E. intros Hr Hfr.
    assert (t'' = t') as -> by (destruct rest; congruence). by rewrite (Hrest t rest).
Qed.

Lemma scanLevels_time fuel queue st t r t' : scanLevels arrays blobSHA256 keys at_ fuel queue st t = Some (r, t') → (t ≤ t')%nat.
Proof.
  revert queue st t. induction fuel as [|fuel IH]; intros [|item queue] st t; cbn [scanLevels]; try by intros [= <- <-].
  destruct (readAll at_ _ (item :: queue) t) as [hs t1] eqn:E1. apply readAll_time in E1.
  destruct (loadContents arrays at_ _ t1) as [[parsed|e] t2] eqn:E2; apply loadContents_time in E2; [|intros [= <- <-]; lia].
  destruct (scanItems _ _ _) as [st1 [|dir dirs]]; [intros [= <- <-]; lia|].
  destruct (readAll at_ _ (dir :: dirs) t2) as [cs t3] eqn:E3. apply readAll_time in E3. intros H%IH. lia.
Qed.

Lemma scanLevels_frozen fuel queue st t r t' : scanLevels arrays blobSHA256 keys at_ fuel queue st t = Some (r, t') →
  frozen t t' → scanLevels arrays blobSHA256 keys (λ _, d) fuel queue st t = Some (r, t').
Proof.
  revert queue st t. induction fuel as [|fuel IH]; intros [|item queue] st t; cbn [scanLevels]; try done.
  set (q := item :: queue). intros H Hfr.
  destruct (readAll at_ (λ item d, inodes d !! bi_inodeID item) q t) as [hs t1] eqn:E1. pose proof (readAll_time _ _ _ _ _ E1) as T1.
  destruct (loadContents arrays at_ (zip q (map parseInode hs)) t1) as [ld t2] eqn:E2. pose proof (loadContents_time _ _ _ _ E2) as T2.
  assert (t2 ≤ t')%nat as T3.
  { destruct ld as [parsed|e]; [|by injection H as <- <-]. destruct (scanItems _ _ _) as [st1 [|dir dirs]]; [by injection H as <- <-|].
    destruct (readAll at_ _ (dir :: dirs) t2) as [cs t3] eqn:E3. apply readAll_time in E3. apply scanLevels_time in H. lia. }
  destruct (readAll_frozen (λ item d, inodes d !! bi_inodeID item) parseInode q t hs t1) as (hs' & -> & Ehs); [by intros a d' Hv; apply parseInode_view|done|intros n Hn; apply Hfr; lia|].
  rewrite Ehs, (loadContents_frozen _ t1 ld t2) by (done || (intros n Hn; apply Hfr; lia)).
  destruct ld as [parsed|e]; [|done]. destruct (scanItems _ _ _) as [st1 [|dir dirs]]; [done|].
  destruct (readAll at_ (λ item d, default ∅ (dirents d !! bi_inodeID item)) (dir :: dirs) t2) as [cs t3] eqn:E3.
  pose proof (readAll_time _ _ _ _ _ E3) as T4. pose proof (scanLevels_time _ _ _ _ _ _ H) as T5.
  destruct (readAll_frozen (λ item d, default ∅ (dirents d !! bi_inodeID item)) (λ c, c) (dir :: dirs) t2 cs t3) as (cs' & -> & Ecs);
    [by intros a d' Hv; rewrite (dirents_same d' Hv)|done|intros n Hn; apply Hfr; lia|].
  rewrite !map_id in Ecs. subst cs'. apply IH; [done|]. intros n Hn. apply Hfr. lia.
Qed.

Lemma scanLevels_more (h : nat → db arr) fuel fuel' queue st t r : (fuel ≤ fuel')%nat →
  scanLevels arrays blobSHA256 keys h fuel queue st t = Some r → scanLevels arrays blobSHA256 keys h fuel' queue st t = Some r.
Proof.
  intros Hle H. revert Hle.
  revert fuel' queue st t H. induction fuel as [|fuel IH]; intros fuel' [|item queue] st t H Hle; try by destruct fuel'.
  destruct fuel' as [|fuel']; [lia|]. cbn [scanLevels] in *. destruct (readAll h _ (item :: queue) t) as [hs t1].
  destruct (loadContents arrays h _ t1) as [[parsed|e] t2]; [|done]. destruct (scanItems _ _ _) as [st1 [|dir dirs]]; [done|].
  destruct (readAll h _ (dir :: dirs) t2) as [cs t3]. apply IH; [done|lia].
Qed.

Lemma scan_frozen fuel workspace savepoint t r t' :
  BuildManifestFromWorkspaceRoot arrays blobSHA256 keys at_ fuel workspace savepoint t = Some (r, t') → frozen t t' →
  ∀ fuel', (fuel ≤ fuel')%nat → BuildManifestFromWorkspaceRoot arrays blobSHA256 keys (λ _, d) fuel' workspace savepoint t = Some (r, t').
Proof.
  unfold BuildManifestFromWorkspaceRoot. intros H Hfr fuel' Hle. destruct (scanLevels arrays blobSHA256 keys at_ fuel _ _ t) as [[r0 t0]|] eqn:E; [|done].
  assert (t0 = t') as -> by (destruct r0; congruence). apply scanLevels_frozen in E; [|done].
  rewrite (scanLevels_more _ _ _ _ _ _ _ Hle E). exact H.
Qed.

(** What is live does not depend on hints. *)
Lemma viewOf_view (d1 d2 : db arr) i : same_view d1 d2 → viewOf arrays d2 i = viewOf arrays d1 i.
Proof.
  intros Hv. unfold viewOf, loadedOf. rewrite (parseInode_view d1 d2 i Hv). destruct Hv as (_ & _ & E).
  unfold contentCell. destruct d1, d2. cbn in *. by rewrite E.
Qed.

Lemma at_level_view (d1 d2 : db arr) n i q : same_view d1 d2 → at_level arrays d1 n i q → at_level arrays d2 n i q.
Proof.
  intros Hv. induction 1 as [|k dir q name i _ IH (v & Hi & ? & ?) Hlk]; [constructor|]. econstructor; [exact IH| |].
  - exists v. by rewrite (viewOf_view d1 d2).
  - destruct Hv as (_ & E & _). destruct d1, d2. cbn in *. by rewrite E.
Qed.

Lemma live_entries_view (d1 d2 : db arr) E : same_view d1 d2 → live_entries arrays blobSHA256 d1 E → live_entries arrays blobSHA256 d2 E.
Proof.
  intros Hv HL q e. assert (same_view d2 d1) as Hv' by by symmetry.
  split; [intros (n & i & pi & Ha & Hi & He)%HL|intros (n & i & pi & Ha & Hi & He); apply HL]; exists n, i, pi.
  - split; [by eapply at_level_view|]. by rewrite (viewOf_view d1 d2).
  - split; [by eapply at_level_view|]. by rewrite (viewOf_view d2 d1).
Qed.

Lemma settled_view (d' : db arr) : same_view (settled d') d'.
Proof.
  split; [|done]. unfold settled. cbn [with_inodes inodes]. apply map_eq. intros i. rewrite !lookup_omap.
  destruct (inodes d' !! i) as [h|]; [|done]. by destruct h as [[ty|]].
Qed.

(** Bodies go by their names, whatever the scan has seen. *)
Definition hashed (st : scanState) : Prop := ∀ k v, sc_blobs st !! k = Some v → k = blobSHA256 v.

Lemma scanItems_hashed st queue : hashed st → hashed (scanItems blobSHA256 st queue).1.
Proof.
  revert st. induction queue as [|[item [i|]] queue IH]; intros st Hst; simpl; [done| |by apply IH].
  destruct (scanItem_blobs blobSHA256 st item i) as (HB & _). destruct (scanItem blobSHA256 st item i) as [st1 dirs]. simpl in HB.
  assert (hashed st1) as H1 by (intros k v [?|?]%HB; auto). specialize (IH st1 H1). by destruct (scanItems _ _ _).
Qed.

Lemma scanLevels_hashed fuel queue st t st' t' : hashed st → scanLevels arrays blobSHA256 keys at_ fuel queue st t = Some (Ok st', t') → hashed st'.
Proof.
  revert queue st t. induction fuel as [|fuel IH]; intros [|item queue] st t Hst; cbn [scanLevels]; try done; try by intros [= <- <-].
  destruct (readAll at_ _ (item :: queue) t) as [hs t1]. destruct (loadContents arrays at_ _ t1) as [[parsed|e] t2]; [|done].
  pose proof (scanItems_hashed st parsed Hst) as H1. destruct (scanItems _ _ _) as [st1 [|dir dirs]]; [by intros [= <- <-]|].
  destruct (readAll at_ _ (dir :: dirs) t2) as [cs t3]. by apply IH.
Qed.

Lemma scan_hashed fuel workspace savepoint t m st t' :
  BuildManifestFromWorkspaceRoot arrays blobSHA256 keys at_ fuel workspace savepoint t = Some (Ok (m, st), t') → hashed st.
Proof.
  unfold BuildManifestFromWorkspaceRoot. destruct (scanLevels _ _ _ _ _ _ _ _) as [[[st0|e] t0]|] eqn:E; [|done|done].
  intros [= _ <- _]. eapply scanLevels_hashed; [|exact E]. intros k v. simpl. by rewrite lookup_empty.
Qed.
End frozen.
