(* ===== verification/CheckpointProps.v ===== *)
(** What a checkpoint is a snapshot of: the transaction that saves it commits over the
    head, the generation, the journal and the lock it has read, and by the journal and
    the generation the tree it has scanned is the tree at that moment. *)
From Stdlib Require Import Strings.Byte.
From stdpp Require Import pretty.
From S2P Require Import Prelude Content Paths FsState FsTree FsScripts FsClient ServerDiff Base64 RootNodes RootBuild RootScan RootLive RootProps CheckpointState CheckpointJson Checkpoint CheckpointRely CheckpointScan.
#[local] Open Scope string_scope.
#[local] Open Scope list_scope.
#[local] Open Scope Z_scope.

(** Identifiers of stream entries: as many as there are positions, and none of them the
    one that stands for the empty stream or for none. *)
Class StreamIDs (f : nat → string) := {
  si_inj n m : f n = f m → n = m;
  si_first n : f n ≠ "0-0";
  si_some n : f n ≠ ""
}.

Create HintDb quiet.

Section props.
Context {arr : Type} {RA : RedisArray arr} {P : CPParams arr} `{!SliceSort stringLess, !SliceSort depthLess}.
Implicit Types s : cp arr.
Local Abbreviation id := cq_id.
Local Abbreviation gen s := (generation (c_db s)).

(** What the caller relies on. *)
Context (token : string) (mine : list string).
Class Others := env_acts s : rtc (act token mine) s (cq_env s).
Context {HO : Others}.
Local Abbreviation evolves := (evolves token mine).

Lemma env_evolves s : evolves s (cq_env s).
Proof. apply acts_evolve, env_acts. Qed.

(** ** Programs after which only others have acted, or as if *)

Definition quiet {A} (m : CM arr A) : Prop := ∀ s, rtc (act token mine) s (m s).2.

Lemma quiet_ret {A} (a : A) : quiet (retC a).
Proof. intros s. reflexivity. Qed.
Lemma quiet_fail {A} e : quiet (failC (A := A) e).
Proof. intros s. reflexivity. Qed.
Lemma quiet_lift {A} (r : result cpError A) : quiet (liftC r).
Proof. intros s. reflexivity. Qed.
Lemma quiet_now : quiet nowC.
Proof. intros s. reflexivity. Qed.
Lemma quiet_orElse {A} e (o : option A) : quiet (orElse e o).
Proof. destruct o; [apply quiet_ret|apply quiet_fail]. Qed.
Lemma quiet_failIf b e : quiet (failIf b e).
Proof. destruct b; [apply quiet_fail|apply quiet_ret]. Qed.
Lemma quiet_read {A} (f : cp arr → A) : quiet (readC cq_env f).
Proof. intros s. apply env_acts. Qed.
Lemma quiet_WATCH : quiet (WATCH cq_env).
Proof. intros s. apply env_acts. Qed.
Lemma quiet_bind {A B} (m : CM arr A) (k : A → CM arr B) : quiet m → (∀ a, quiet (k a)) → quiet (bindC m k).
Proof.
  intros Hm Hk s. unfold bindC. specialize (Hm s). destruct (m s) as [[a|e] s1]; [|done]. etrans; [exact Hm|apply Hk].
Qed.
Lemma quiet_map_in {A B} (f : A → CM arr B) l : (∀ a, a ∈ l → quiet (f a)) → quiet (mapC f l).
Proof.
  induction l as [|a l IH]; intros Hf; [apply quiet_ret|]. apply quiet_bind; [apply Hf; by left|]. intros b.
  apply quiet_bind; [apply IH; intros; apply Hf; by right|]. intros bs. apply quiet_ret.
Qed.
Lemma quiet_map {A B} (f : A → CM arr B) l : (∀ a, quiet (f a)) → quiet (mapC f l).
Proof. intros Hf. by apply quiet_map_in. Qed.
Lemma acts_iter n s : rtc (act token mine) s (Nat.iter n cq_env s).
Proof. induction n as [|n IH]; [reflexivity|]. etrans; [exact IH|apply env_acts]. Qed.
Lemma quiet_iter n s : evolves s (Nat.iter n cq_env s).
Proof. apply acts_evolve, acts_iter. Qed.
Lemma quiet_scan fuel workspace savepoint : quiet (scanRoot fuel workspace savepoint).
Proof.
  intros s. unfold scanRoot. destruct (BuildManifestFromWorkspaceRoot _ _ _ _ _ _ _ _) as [[[m|e] n]|]; try reflexivity; apply acts_iter.
Qed.

#[local] Hint Resolve quiet_ret quiet_fail quiet_lift quiet_now quiet_orElse quiet_failIf quiet_read quiet_WATCH quiet_scan : quiet.
Local Ltac quiet := repeat first [progress auto with quiet | apply quiet_bind; [|intros ?] | apply quiet_map; intros ? | case_match].

Lemma quiet_meta : quiet GetWorkspaceMeta. Proof. unfold GetWorkspaceMeta. quiet. Qed.
Lemma quiet_resolve : quiet resolveWorkspaceStorageOrRaw. Proof. unfold resolveWorkspaceStorageOrRaw. quiet. Qed.
#[local] Hint Resolve quiet_meta quiet_resolve : quiet.
Lemma quiet_point p : quiet (GetSavepointMeta p). Proof. unfold GetSavepointMeta. quiet. Qed.
Lemma quiet_manifest p : quiet (GetManifest p). Proof. unfold GetManifest. quiet. Qed.
Lemma quiet_list n : quiet (ListSavepoints n). Proof. unfold ListSavepoints. quiet. Qed.
Lemma quiet_latest : quiet latestServerChange. Proof. unfold latestServerChange. quiet. Qed.
Lemma quiet_root : quiet serverRequireLiveRoot. Proof. unfold serverRequireLiveRoot. quiet. Qed.
Lemma quiet_audit : quiet Audit. Proof. unfold Audit. quiet. Qed.
Lemma quiet_token t : quiet (checkToken t). Proof. unfold checkToken. quiet. Qed.
Lemma quiet_noLock : quiet checkNoLock. Proof. unfold checkNoLock. quiet. Qed.
#[local] Hint Resolve quiet_point quiet_manifest quiet_list quiet_latest quiet_root quiet_audit quiet_token quiet_noLock : quiet.
Lemma quiet_ifNotExist {A} (m other : CM arr A) : quiet m → quiet other → quiet (ifNotExist m other).
Proof.
  intros H1 H2 s. unfold ifNotExist. specialize (H1 s). destruct (m s) as [[a|[]] s1]; try exact H1. etrans; [exact H1|apply H2].
Qed.
#[local] Hint Resolve quiet_ifNotExist : quiet.
Lemma quiet_find ref : quiet (bindC (ListSavepoints 0) (λ ps, orElse ErrNotExist (find (λ q, bool_decide (sm_Name q = ref)) ps))).
Proof. quiet. Qed.
#[local] Hint Resolve quiet_find : quiet.
Lemma quiet_get ref : quiet (GetCheckpoint ref). Proof. unfold GetCheckpoint. quiet. Qed.
#[local] Hint Resolve quiet_get : quiet.

(** Bodies go in under their names. *)
Lemma store_blob_act s k v : k = cq_blobSHA256 v → c_blobs s !! k = None →
  act token mine s (touch [blobKey id k] (with_blobs (<[k := v]> (c_blobs s)) s)).
Proof using Type.
  intros -> Hn. apply (act_records _ _ _ _ (root_dirty (c_db s))); simpl; try done.
  - by destruct (c_db s).
  - by apply insert_subseteq.
  - intros k' v' [[<- <-]|[_ ?]]%lookup_insert_Some; [by right|by left].
  - intros k'. apply (touch_le _ (with_blobs _ s)).
Qed.

Lemma quiet_putBlob blobs b : (∀ k v, blobs !! k = Some v → k = cq_blobSHA256 v) → is_Some (blobs !! b) → quiet (putBlob blobs b).
Proof.
  intros Hb [v Hv] s. etrans; [apply env_acts|]. simpl. destruct (c_blobs (cq_env s) !! b) eqn:E; [reflexivity|].
  rewrite Hv. apply rtc_once, store_blob_act; [|done]. by apply Hb.
Qed.

Lemma quiet_SaveBlobs blobs : (∀ k v, blobs !! k = Some v → k = cq_blobSHA256 v) → is_order cq_keys → quiet (SaveBlobs blobs).
Proof.
  intros Hb Hk. unfold SaveBlobs. apply quiet_bind; [quiet|]. intros _. apply quiet_bind; [|quiet].
  apply quiet_map_in. intros b Hin. apply quiet_putBlob; [done|]. by apply (order_elem _ _ _ b Hk) in Hin.
Qed.

(** ** Runs that succeed *)

Lemma bindC_Ok {A B} (m : CM arr A) (k : A → CM arr B) s b s' :
  bindC m k s = (Ok b, s') → ∃ a s1, m s = (Ok a, s1) ∧ k a s1 = (Ok b, s').
Proof. unfold bindC. destruct (m s) as [[a|e] s1]; [eauto|done]. Qed.

Lemma readC_Ok {A} (f : cp arr → A) s a s' : readC cq_env f s = (Ok a, s') → s' = cq_env s ∧ a = f (cq_env s).
Proof. unfold readC. by intros [= <- <-]. Qed.

Lemma orElse_Ok {A} e (o : option A) s a s' : orElse e o s = (Ok a, s') → o = Some a ∧ s' = s.
Proof. destruct o; simpl; [by intros [= -> ->]|done]. Qed.

Lemma failIf_Ok b e s u s' : failIf (arr := arr) b e s = (Ok u, s') → b = false ∧ s' = s.
Proof. destruct b; simpl; [done|]. by intros [= <- <-]. Qed.

Lemma quiet_Ok {A} (m : CM arr A) s r s' : quiet m → m s = (r, s') → evolves s s'.
Proof. intros Hm E. specialize (Hm s). rewrite E in Hm. by apply acts_evolve. Qed.

Lemma WATCH_Ok s seen s' : WATCH cq_env s = (Ok seen, s') → s' = cq_env s ∧ seen = c_touched s'.
Proof. unfold WATCH. by intros [= <- <-]. Qed.

Lemma EXEC_Ok seen ks f s u s' : EXEC cq_env seen ks f s = (Ok u, s') →
  s' = f (cq_env s) ∧ ∀ k, k ∈ ks → default O (seen !! k) = touches (cq_env s) k.
Proof.
  unfold EXEC. destruct (untouched _ _ _) eqn:E; [|done]. intros [= <- <-]. split; [done|]. intros k Hk.
  unfold untouched in E. rewrite forallb_forall in E. apply list_elem_of_In in Hk. by specialize (E k Hk); apply bool_decide_eq_true in E.
Qed.

(** A key untouched from the first of three states to the last is untouched in between. *)
Lemma watched s0 s1 s2 k : cp_ok s0 → evolves s0 s1 → evolves s1 s2 → touches s0 k = touches s2 k →
  cp_ok s2 ∧ later token mine s1 s2 ∧ touches s1 k = touches s2 k.
Proof.
  intros H0 H1 H2 E. destruct (H1 H0) as (Hs1 & L1 & _). destruct (H2 Hs1) as (Hs2 & L2 & _). split; [done|]. split; [done|].
  pose proof (lt_touch _ _ _ _ L1 k). pose proof (lt_touch _ _ _ _ L2 k). lia.
Qed.

Lemma expectGeneration_Ok g s u s' :
  (if bool_decide (g = "") then retC () else bindC (readC cq_env (λ s, gen s)) (λ x, bindC (orElse NilReply x)
     (λ x, failIf (negb (bool_decide (x = g))) ErrWorkspaceConflict))) s = (Ok u, s') →
  evolves s s' ∧ (g ≠ "" → gen s' = Some g).
Proof.
  case_bool_decide as E; [intros [= <- <-]; by split|]. intros (o & s1 & [-> ->]%readC_Ok & (x & s2 & [Hx ->]%orElse_Ok & [Hb ->]%failIf_Ok)%bindC_Ok)%bindC_Ok.
  split; [apply env_evolves|]. intros _. apply negb_false_iff, bool_decide_eq_true in Hb. congruence.
Qed.

Lemma latest_Ok s x s' : latestServerChange s = (Ok x, s') → s' = cq_env s ∧ ∃ l, changes (c_db s') = Some l ∧ x = latest_of l.
Proof. intros (o & s1 & [-> ->]%readC_Ok & (l & s2 & [Hl ->]%orElse_Ok & [= <- <-])%bindC_Ok)%bindC_Ok. split; [done|]. by exists l. Qed.

Lemma expectChanges_Ok g s u s' :
  (if bool_decide (g = "") then retC () else bindC latestServerChange
     (λ x, failIf (negb (bool_decide (x = g))) ErrWorkspaceConflict)) s = (Ok u, s') →
  evolves s s' ∧ (g ≠ "" → ∃ l, changes (c_db s') = Some l ∧ latest_of l = g).
Proof.
  case_bool_decide as E; [intros [= <- <-]; by split|]. intros (x & s1 & [-> (l & Hl & ->)]%latest_Ok & [Hb ->]%failIf_Ok)%bindC_Ok.
  split; [apply env_evolves|]. intros _. apply negb_false_iff, bool_decide_eq_true in Hb. eauto.
Qed.

Lemma lockChecked_Ok t s u s' : (if bool_decide (t = "") then checkNoLock else checkToken t) s = (Ok u, s') →
  evolves s s' ∧ c_lock s' = if bool_decide (t = "") then None else Some t.
Proof.
  case_bool_decide as E.
  - intros (o & s1 & [-> ->]%readC_Ok & [Hb ->]%failIf_Ok)%bindC_Ok. split; [apply env_evolves|].
    apply bool_decide_eq_false in Hb. by apply eq_None_not_Some.
  - intros (o & s1 & [-> ->]%readC_Ok & (x & s2 & [Hx ->]%orElse_Ok & [Hb ->]%failIf_Ok)%bindC_Ok)%bindC_Ok.
    split; [apply env_evolves|]. apply negb_false_iff, bool_decide_eq_true in Hb. congruence.
Qed.

(** What holds where the transaction commits. *)
Record commits (i : SaveCheckpointRequest) (current : WorkspaceMeta) s : Prop := {
  cm_meta : c_meta s = Some current;
  cm_head : wm_HeadSavepoint current = sr_ExpectedHead i;
  cm_generation : sr_ExpectedGeneration i ≠ "" → gen s = Some (sr_ExpectedGeneration i);
  cm_changes : sr_ExpectedChangesID i ≠ "" → ∃ l, changes (c_db s) = Some l ∧ latest_of l = sr_ExpectedChangesID i;
  cm_lock : c_lock s = if bool_decide (sr_ImportLockToken i = "") then None else Some (sr_ImportLockToken i)
}.

Lemma saveTransaction_Ok i now s u s' : cp_ok s → saveTransaction i now s = (Ok u, s') →
  ∃ current refs sc, evolves s sc ∧ commits i current sc ∧ s' = commitCheckpoint i now current refs sc.
Proof.
  intros Hs (seen & s1 & [E1 ->]%WATCH_Ok & H)%bindC_Ok.
  apply bindC_Ok in H as (om & s2 & [E2 ->]%readC_Ok & H). apply bindC_Ok in H as (current & ? & [Hm ->]%orElse_Ok & H).
  apply bindC_Ok in H as (? & s3 & [V3 Hg]%expectGeneration_Ok & H). apply bindC_Ok in H as (? & s4 & [V4 Hc]%expectChanges_Ok & H).
  apply bindC_Ok in H as (? & s5 & [V5 Hl]%lockChecked_Ok & H). apply bindC_Ok in H as (? & ? & [Hh ->]%failIf_Ok & H).
  apply negb_false_iff, bool_decide_eq_true in Hh.
  apply bindC_Ok in H as (e & s6 & E6%readC_Ok & H). apply bindC_Ok in H as (? & ? & [_ ->]%failIf_Ok & H). destruct E6 as [E6 _].
  apply bindC_Ok in H as (refs & s7 & E7 & [-> Hw]%EXEC_Ok).
  assert (evolves s6 s7) as V7.
  { eapply quiet_Ok; [|exact E7]. apply quiet_map. intros b. quiet. }
  set (sc := cq_env s7) in *. assert (evolves s5 sc) as V8 by (etrans; [rewrite E6 in V7; apply env_evolves|etrans; [rewrite E6 in V7; exact V7|apply env_evolves]]).
  assert (evolves s s1) as V1 by (rewrite E1; apply env_evolves). assert (evolves s1 s2) as V2 by (rewrite E2; apply env_evolves).
  assert (cp_ok s1) as H1 by (by apply V1). change (touches s1) with (λ k, default O (c_touched s1 !! k)) in *.
  assert (∀ k, k ∈ saveKeys → touches s1 k = touches sc k) as Hwk by (intros k Hk; apply (Hw k Hk)).
  exists current, refs, sc. split; [by repeat (etrans; [eassumption|])|]. split; [|done].
  assert (evolves s2 sc) as V2c by (by repeat (etrans; [eassumption|])).
  assert (evolves s3 sc) as V3c by (by repeat (etrans; [eassumption|])). assert (evolves s4 sc) as V4c by (by repeat (etrans; [eassumption|])).
  assert (evolves s1 s3) as V13 by (by etrans). assert (evolves s1 s4) as V14 by (by etrans). assert (evolves s1 s5) as V15 by (by etrans).
  split.
  - destruct (watched s1 s2 sc (workspaceMetaKey id)) as (_ & L & E); [done..|apply Hwk; set_solver|]. rewrite (lt_watch_meta _ _ _ _ L E). by rewrite E2.
  - done.
  - intros Hne. destruct (watched s1 s3 sc (WorkspaceGenerationKey id)) as (_ & L & E); [done..|apply Hwk; set_solver|].
    rewrite (lt_watch_gen _ _ _ _ L E). by apply Hg.
  - intros Hne. destruct (watched s1 s4 sc (changesKey id)) as (_ & L & E); [done..|apply Hwk; set_solver|].
    rewrite (lt_watch_changes _ _ _ _ L E). by apply Hc.
  - destruct (watched s1 s5 sc (ImportLockKey id)) as (_ & L & E); [done..|apply Hwk; set_solver|]. by rewrite (lt_watch_lock _ _ _ _ L E).
Qed.

(** The commit is a step as others take them. *)
Lemma putRefs_other rs refs b : b ∉ map fst rs → putRefs rs refs !! b = refs !! b.
Proof.
  induction rs as [|[k r] rs IH]; [done|]. simpl. intros [Hne Hn]%not_elem_of_cons. rewrite lookup_insert_ne by done. by apply IH.
Qed.

Lemma commit_act i now current refs s : act token mine s (commitCheckpoint i now current refs s).
Proof using Type.
  clear HO. unfold commitCheckpoint. set (tracked := negb _). set (ks := _ ++ _ ++ map _ refs). set (s1 := with_refs _ _).
  assert (c_touched s1 = c_touched s) as Et by (unfold s1; by destruct tracked).
  assert (∀ k, k ∈ ks → touches s k ≠ touches (touch ks s1) k) as Hk.
  { intros k Hin E. pose proof (touch_lt ks s1 k Hin) as H. revert H. unfold touches at 1. rewrite Et. fold (touches s k). lia. }
  apply (act_records _ _ _ _ (negb tracked)).
  - unfold s1. by destruct tracked.
  - unfold s1. by destruct tracked.
  - unfold s1. by destruct tracked.
  - unfold s1. by destruct tracked.
  - unfold s1. by destruct tracked.
  - unfold s1. destruct tracked; by left.
  - intros k. pose proof (touch_le ks s1 k) as H. revert H. unfold touches at 1. rewrite Et. done.
  - intros E. exfalso. eapply Hk; [|exact E]. unfold ks. set_solver.
  - intros p E. destruct (decide (p = sr_CheckpointID i)) as [->|Hne].
    + exfalso. eapply Hk; [|exact E]. unfold ks. set_solver.
    + unfold s1. destruct tracked; simpl; by rewrite lookup_insert_ne.
  - intros b E. assert (b ∉ map fst refs) as Hb.
    { intros ([b' r] & -> & Hin)%list_elem_of_fmap. eapply Hk; [|exact E]. unfold ks. apply elem_of_app. right. apply elem_of_app. right.
      apply list_elem_of_fmap. by exists (b', r). }
    unfold s1. destruct tracked; simpl; by apply putRefs_other.
Qed.

Lemma commit_evolves i now current refs s : evolves s (commitCheckpoint i now current refs s).
Proof. apply acts_evolve, rtc_once, commit_act. Qed.

(** ** The bodies are in the store *)

Lemma SaveBlobs_puts blobs s u s' : (∀ k v, blobs !! k = Some v → k = cq_blobSHA256 v) → is_order cq_keys →
  SaveBlobs blobs s = (Ok u, s') → ∀ b, is_Some (blobs !! b) → ∃ sb, evolves s sb ∧ is_Some (c_blobs sb !! b) ∧ evolves sb s'.
Proof.
  intros Hb Hk (i & s1 & E1 & H)%bindC_Ok b Hin. assert (evolves s s1) as V1 by (eapply quiet_Ok; [|exact E1]; quiet).
  apply bindC_Ok in H as (us & s2 & H & [= <- <-]). apply (order_elem _ _ _ b Hk) in Hin.
  enough (∃ sb, evolves s1 sb ∧ is_Some (c_blobs sb !! b) ∧ evolves sb s2) as (sb & ? & ? & ?) by (exists sb; split_and!; [by etrans|done..]).
  assert (∀ k, k ∈ cq_keys bytes blobs → is_Some (blobs !! k)) as Hks by (intros k; by apply order_elem).
  clear E1 V1. revert s1 us H Hin Hks. generalize (cq_keys bytes blobs). induction l as [|k l IH]; intros s1 us H Hin Hks; [by apply elem_of_nil in Hin|].
  apply bindC_Ok in H as (u0 & s3 & E3 & H). apply bindC_Ok in H as (us' & s4 & H & [= <- <-]).
  assert (evolves s1 s3) as V3 by (eapply quiet_Ok; [|exact E3]; apply quiet_putBlob; [done|apply Hks; by left]).
  apply elem_of_cons in Hin as [->|Hin].
  - exists s3. split_and!; [done| |].
    + unfold putBlob, writeC in E3. injection E3 as _ <-. destruct (c_blobs (cq_env s1) !! k) eqn:E; [by rewrite E|]. simpl. by rewrite lookup_insert_eq.
    + eapply quiet_Ok; [|exact H]. apply quiet_map_in. intros a Ha. apply quiet_putBlob; [done|]. apply Hks. by right.
  - destruct (IH s3 us' H Hin) as (sb & ? & ? & ?); [intros; apply Hks; by right|]. exists sb. split_and!; [by etrans|done..].
Qed.

Lemma saveCheckpoint_Ok i s s' : cp_ok s → is_order cq_keys → (∀ k v, sr_Blobs i !! k = Some v → k = cq_blobSHA256 v) →
  sr_SkipWorkspaceRootSync i = true → saveCheckpoint i s = (Ok true, s') →
  ∃ now current refs sc, evolves s sc ∧ commits i current sc ∧ evolves (commitCheckpoint i now current refs sc) s' ∧
    ∀ b, is_Some (sr_Blobs i !! b) → ∃ sb, evolves s sb ∧ is_Some (c_blobs sb !! b) ∧ evolves sb sc.
Proof.
  intros Hs Hk Hb Hskip H. unfold saveCheckpoint in H. rewrite Hskip in H. apply bindC_Ok in H as (? & s0 & E0 & H).
  apply bindC_Ok in H as (? & s1 & E1 & H). apply bindC_Ok in H as (? & s2 & E2 & H). apply bindC_Ok in H as (? & s3 & E3 & H).
  apply bindC_Ok in H as (? & s4 & E4 & H). apply bindC_Ok in H as (hm & s5 & E5 & H).
  assert (evolves s s5) as V5.
  { etrans; [eapply quiet_Ok; [|exact E0]; quiet|]. etrans; [eapply quiet_Ok; [|exact E1]; quiet|]. etrans; [eapply quiet_Ok; [|exact E2]; quiet|]. etrans; [eapply quiet_Ok; [|exact E3]; quiet|].
    etrans; [eapply quiet_Ok; [|exact E4]; quiet|]. eapply quiet_Ok; [|exact E5]; quiet. }
  destruct (_ && _); [done|]. apply bindC_Ok in H as (now & s6 & [= <- <-] & H). apply bindC_Ok in H as (? & s7 & E7 & H).
  assert (evolves s5 s7) as V7 by (eapply quiet_Ok; [|exact E7]; by apply quiet_SaveBlobs).
  assert (cp_ok s7) as H7 by (by apply V7, V5).
  apply bindC_Ok in H as (u & s8 & E8 & H). unfold asConflict in E8.
  destruct (saveTransaction i (c_now s5) s7) as [[u'|e] s8'] eqn:Et; [|by destruct e]. injection E8 as _ ->.
  destruct (saveTransaction_Ok _ _ _ _ _ H7 Et) as (current & refs & sc & Vc & Hc & ->).
  exists (c_now s5), current, refs, sc. split; [by repeat (etrans; [eassumption|])|]. split; [done|].
  split.
  { apply bindC_Ok in H as (? & s9 & [= _ <-] & H). apply bindC_Ok in H as (? & s10 & E10 & [= <-]). eapply quiet_Ok; [|exact E10]. quiet. }
  intros b Hin. destruct (SaveBlobs_puts _ _ _ _ Hb Hk E7 b Hin) as (sb & V1 & Hp & V2). exists sb.
  split_and!; [by etrans|done|by etrans].
Qed.

(** ** The journal tells whether the tree has changed *)

Context `{!StreamIDs cq_entryID}.

Lemma latest_extends l evs : latest_of (l ++ evs) = latest_of l → evs = [].
Proof.
  destruct evs as [|e evs]; [done|]. intros E. exfalso. destruct l as [|e0 l].
  - exact (si_first (f := cq_entryID) _ E).
  - change (cq_entryID (length ((e0 :: l) ++ e :: evs)) = cq_entryID (length (e0 :: l))) in E.
    apply (si_inj (f := cq_entryID)) in E. rewrite length_app in E. simpl in E. lia.
Qed.

Lemma latest_nonempty l : latest_of l ≠ "".
Proof. destruct l; [done|]. exact (si_some (f := cq_entryID) _). Qed.

(** Between two states with one generation under which the tree is whole, and one
    journal, there is one tree, and no body is lost. *)
Lemma one_tree s s1 s2 g l : cp_ok s → evolves s s1 → evolves s1 s2 → gen s = Some g → gen s2 = Some g → intactGen (Some g) = true →
  changes (c_db s) = Some l → (∃ l2, changes (c_db s2) = Some l2 ∧ latest_of l2 = latest_of l) →
  same_view (c_db s1) (c_db s2) ∧ c_blobs s1 ⊆ c_blobs s2.
Proof.
  intros Hs V1 V2 Hg Hg2 Hi Hl (l2 & Hl2 & E2). destruct (V1 Hs) as (H1 & L1 & _). destruct (V2 H1) as (H2 & L2 & _).
  assert (gen s1 = Some g) as Hg1.
  { destruct (decide (gen s1 = Some g)) as [|Hne]; [done|]. exfalso. apply (ok_gen _ H2 g Hg2), (lt_past _ _ _ _ L2), (lt_gen _ _ _ _ L1 g Hg Hne). }
  destruct (lt_tree _ _ _ _ L1 l) as (_ & evs1 & Hc1 & _); [by rewrite Hg|congruence|done|].
  destruct (lt_tree _ _ _ _ L2 (l ++ evs1)) as (HB & evs2 & Hc2 & HT); [by rewrite Hg1|congruence|done|].
  split; [|done]. apply HT. rewrite Hl2 in Hc2. injection Hc2 as ->. rewrite <- app_assoc in E2. apply latest_extends in E2.
  by apply app_nil in E2 as [_ ?].
Qed.

(** ** The theorem *)

(** A manifest lists the live tree of a state, and its bodies are in the store. *)
Definition snapshot_of (m : Manifest) s : Prop :=
  live_entries cq_arrays cq_blobSHA256 (c_db s) (mn_Entries m) ∧
  ∀ p e, mn_Entries m !! p = Some e → mf_BlobID e ≠ "" →
    ∃ data, c_blobs s !! mf_BlobID e = Some data ∧ mf_BlobID e = cq_blobSHA256 data.

Lemma big_entry p i e : entryOf cq_blobSHA256 p i = Some e → mf_BlobID e ≠ "" →
  bigFile p i ∧ mf_BlobID e = cq_blobSHA256 (pi_content i).
Proof.
  unfold entryOf, bigFile. destruct (shouldIgnoreMountPath p); [done|]. repeat case_bool_decide; [by intros [= <-]| |by intros [= <-]|done].
  intros [= <-]. simpl. destruct (Z.leb_spec (len (pi_content i)) inlineThreshold); [done|]. by split.
Qed.

Lemma scan_snapshot fuel workspace savepoint s3 n m st sc g l : cp_ok s3 → tree_ok s3 → is_order cq_keys → gen s3 = Some g → intactGen (Some g) = true →
  changes (c_db s3) = Some l →
  BuildManifestFromWorkspaceRoot cq_arrays cq_blobSHA256 cq_keys (λ n, c_db (Nat.iter (S n) cq_env s3)) fuel workspace savepoint 0
    = Some (Ok (m, st), n) →
  evolves (Nat.iter n cq_env s3) sc → gen sc = Some g → (∃ l2, changes (c_db sc) = Some l2 ∧ latest_of l2 = latest_of l) →
  live_entries cq_arrays cq_blobSHA256 (c_db sc) (mn_Entries m) ∧ (∀ k v, sc_blobs st !! k = Some v → k = cq_blobSHA256 v) ∧
  ∀ p e, mn_Entries m !! p = Some e → mf_BlobID e ≠ "" → is_Some (sc_blobs st !! mf_BlobID e).
Proof.
  intros H3 HT Hk Hg Hi Hl Hscan Vc Hgc Hlc. assert (evolves s3 sc) as V3 by (etrans; [apply quiet_iter|exact Vc]).
  destruct (V3 H3) as (_ & _ & Hc). destruct (Hc HT) as [Hinv Hn]; [by rewrite Hgc|].
  set (d := settled (c_db sc)) in *.
  apply (scan_frozen _ _ _ _ d) with (fuel' := Nat.max fuel (size (inodes d))) in Hscan; [|..|lia].
  2:{ intros j Hj. assert (evolves s3 (Nat.iter (S j) cq_env s3)) as Va by apply quiet_iter.
      assert (evolves (Nat.iter (S j) cq_env s3) sc) as Vb.
      { etrans; [|exact Vc]. replace n with ((n - S j) + S j)%nat by lia. rewrite Nat.iter_add. apply quiet_iter. }
      destruct (one_tree _ _ _ g l H3 Va Vb) as (Hv & _); try done. etrans; [apply settled_view|]. by symmetry. }
  destruct (scan_spec cq_arrays cq_blobSHA256 cq_keys Hk d Hinv _ workspace savepoint 0%nat (Nat.le_max_r fuel _))
    as [(st0 & t0 & E & Hlive & Hb1 & Hb2)|(? & ? & ? & ? & ? & _ & _ & E)]; rewrite Hscan in E; [|done].
  injection E as -> <- _. simpl in *. split; [by eapply live_entries_view; [apply settled_view|apply Hlive]|]. split; [done|]. intros p e He Hne.
  apply (Hlive Hn) in He as (k & i & pi & Ha & Hv & He). destruct (big_entry p pi e He Hne) as [Hbig ->]. by eapply Hb2.
Qed.

(** What a capture that reports a checkpoint has run through: the journal read, the
    scan, and the request it saved. *)
Lemma capture_Ok fuel options name generation lockToken allow s p s' :
  captureCheckpoint fuel options name generation lockToken allow s = (Ok (Some p), s') →
  ∃ nm head l r s3 n s6, evolves s s3 ∧ changes (c_db s3) = Some l ∧
    BuildManifestFromWorkspaceRoot cq_arrays cq_blobSHA256 cq_keys (λ n, c_db (Nat.iter (S n) cq_env s3)) fuel id nm 0 = Some (Ok r, n) ∧
    saveCheckpoint (captureRequest options nm generation lockToken allow (latest_of l) head r) (cq_env (Nat.iter n cq_env s3)) = (Ok true, s6) ∧
    evolves s6 s'.
Proof.
  intros H. apply bindC_Ok in H as (now0 & ? & [= <- <-] & H). set (nm := if bool_decide (name = "") then _ else _) in H.
  apply bindC_Ok in H as (? & s1 & E1 & H). apply bindC_Ok in H as (meta & s2 & E2 & H). apply bindC_Ok in H as (? & s2' & E2' & H).
  apply bindC_Ok in H as (chg & s3 & [E3 (l & Hl & ->)]%latest_Ok & H).
  assert (evolves s s3) as V3.
  { etrans; [eapply quiet_Ok; [|exact E1]; quiet|]. etrans; [eapply quiet_Ok; [|exact E2]; quiet|].
    etrans; [eapply quiet_Ok; [|exact E2']; quiet|]. rewrite E3. apply env_evolves. }
  apply bindC_Ok in H as ([m st] & s4 & E4 & H). apply bindC_Ok in H as (lt & s5 & [E5 _]%latest_Ok & H).
  apply bindC_Ok in H as (? & ? & [_ ->]%failIf_Ok & H). apply bindC_Ok in H as (saved & s6 & E6 & H). destruct saved; [|done].
  assert (evolves s6 s') as V6 by (apply bindC_Ok in H as (q & s7 & E7 & [= _ <-]); eapply quiet_Ok; [|exact E7]; quiet).
  unfold scanRoot in E4. destruct (BuildManifestFromWorkspaceRoot _ _ _ _ _ _ _ _) as [[[r|e] n]|] eqn:Eb; [|done|done].
  injection E4 as -> <-. subst s5. exists nm, (wm_HeadSavepoint meta), l, (m, st), s3, n, s6. by split_and!.
Qed.

Lemma commit_stores i now current refs s :
  c_manifests (commitCheckpoint i now current refs s) !! sr_CheckpointID i = Some (jsonManifest (sr_Manifest i)).
Proof. unfold commitCheckpoint. case_match; apply lookup_insert_eq. Qed.

(** C9: A checkpoint is a snapshot.  Whatever well-behaved clients and servers do between
    the commands of [captureCheckpoint]: a checkpoint that is reported was committed at
    a moment at which the head, the generation and the lock were the expected ones, its
    parent is the head of that moment, and its manifest lists exactly the live tree of
    that moment, although the scan took many commands before; every body it names is
    in the store.  What is stored is the JSON of that manifest, which is read back as
    that very manifest if its names and link targets are valid UTF-8.  Well-behaved
    ([act]) are clients that journal what they change, but for the path hints a rename
    refreshes later, and servers that rewrite no tree after they have lost their lock:
    a client told not to publish is not noticed ([silent_write_escapes_guards]), nor is
    a server that goes on without its lock ([stale_server_writes_through]). *)
Theorem checkpoint_is_snapshot fuel options name generation lockToken allow s p s' :
  is_order cq_keys → cp_ok s → tree_ok s → gen s = Some generation → intactGen (Some generation) = true →
  captureCheckpoint fuel options name generation lockToken allow s = (Ok (Some p), s') →
  ∃ i now current refs sc, evolves s sc ∧ commits i current sc ∧ snapshot_of (sr_Manifest i) sc ∧ gen sc = Some generation ∧
    c_manifests (commitCheckpoint i now current refs sc) !! sr_CheckpointID i = Some (jsonManifest (sr_Manifest i)) ∧
    (manifest_text (sr_Manifest i) → jsonManifest (sr_Manifest i) = sr_Manifest i) ∧
    evolves (commitCheckpoint i now current refs sc) s'.
Proof.
  intros Hk Hs HT Hg Hi H. destruct (capture_Ok _ _ _ _ _ _ _ _ _ H) as (nm & head & l & [m st] & s3 & n & s6 & V3 & Hl & Eb & E6 & V6).
  assert (cp_ok s3) as H3 by (by apply V3). assert (tree_ok s3) as HT3 by (by apply V3).
  set (i := captureRequest _ _ _ _ _ _ _ _) in *. set (s5 := cq_env (Nat.iter n cq_env s3)) in *.
  assert (evolves (Nat.iter n cq_env s3) s5) as V5 by apply env_evolves.
  assert (cp_ok s5) as H5 by (apply V5, quiet_iter, H3).
  assert (∀ k v, sr_Blobs i !! k = Some v → k = cq_blobSHA256 v) as Hhash by (intros k v; by apply (scan_hashed _ _ _ _ _ _ _ _ _ _ _ Eb)).
  destruct (saveCheckpoint_Ok i s5 s6 H5 Hk Hhash eq_refl E6) as (now & current & refs & sc & Vc & Hc & Vr & Hbl).
  assert (evolves s3 sc) as V3c by (etrans; [apply quiet_iter|]; etrans; eassumption).
  assert (generation ≠ "") as Hne by (by intros ->).
  assert (gen sc = Some generation) as Hgc by (by apply (cm_generation _ _ _ Hc)).
  assert (∃ l2, changes (c_db sc) = Some l2 ∧ latest_of l2 = latest_of l) as Hlc by (apply (cm_changes _ _ _ Hc), latest_nonempty).
  assert (gen s3 = Some generation) as Hg3.
  { destruct (V3 Hs) as (_ & L & _). destruct (V3c H3) as (Hcc & L' & _). destruct (decide (gen s3 = Some generation)) as [|Hn]; [done|].
    exfalso. apply (ok_gen _ Hcc _ Hgc), (lt_past _ _ _ _ L'), (lt_gen _ _ _ _ L _ Hg Hn). }
  destruct (scan_snapshot fuel id nm s3 n m st sc generation l) as (Hlive & _ & Hin); try done; [by etrans|].
  exists i, now, current, refs, sc. split; [by etrans|]. split; [done|].
  split; [|split; [done|split; [apply commit_stores|split; [apply jsonManifest_text|by etrans]]]].
  split; [done|]. intros q e He Hbe. destruct (Hbl (mf_BlobID e)) as (sb & V1 & [v Hv] & V2); [by eapply Hin|].
  assert (evolves s3 sb) as V3b by (etrans; [apply quiet_iter|]; etrans; eassumption).
  destruct (one_tree s3 sb sc generation l) as [_ HB]; try done. exists v.
  assert (c_blobs sc !! mf_BlobID e = Some v) as Hv' by (by eapply lookup_weaken). split; [done|]. apply (ok_blobs sc); [by apply V3c|done].
Qed.
End props.

#[export] Hint Resolve quiet_ret quiet_fail quiet_lift quiet_now quiet_orElse quiet_failIf quiet_read quiet_WATCH quiet_scan
  quiet_meta quiet_resolve quiet_point quiet_manifest quiet_list quiet_latest quiet_root quiet_audit quiet_token quiet_noLock
  quiet_get : quiet.

(** ** A sample: clients that come and go *)

Definition sampleEntryID (n : nat) : string := "1-" +:+ pretty (Z.of_nat n).

#[export] Instance sampleEntryID_ok : StreamIDs sampleEntryID.
Proof. split; [|done|done]. intros n m E. apply (string_app_inj_l "1-"), (inj pretty) in E. lia. Qed.

(** A client creates a file and removes it again, as long as the journal is short and the
    workspace is open. *)
Definition cameAndWent (d : db (gmap Z bytes)) (l : list event) : db (gmap Z bytes) :=
  Db (inodes d) (dirents d) (contents d) (stages d) (info d) (Some (default 1 (next_inode d) + 1)) true
     (Some (l ++ [Event "c" "create" ["/tmp"]; Event "c" "remove" ["/tmp"]])) (generation d) (leases d).
Definition sampleOthers (s : cp (gmap Z bytes)) : cp (gmap Z bytes) :=
  match changes (c_db s) with
  | Some l => if (length l <=? 17)%nat && liveGen (generation (c_db s))
              then touch [changesKey "w"; "root_dirty"] (with_db (λ _, cameAndWent (c_db s) l) s) else s
  | None => s
  end.

#[export] Instance sampleCP : CPParams (gmap Z bytes) := {|
  cq_arrays := true; cq_blobSHA256 := sampleSHA; cq_HashManifest m := "h" +:+ pretty (Z.of_nat (size (mn_Entries m)));
  cq_keys := sample_keys; cq_entryID := sampleEntryID; cq_timeName := pretty; cq_id := "w"; cq_env := sampleOthers;
  cq_lost _ := false
|}.

Lemma cameAndWent_act token mine s l : changes (c_db s) = Some l → liveGen (generation (c_db s)) = true →
  act (P := sampleCP) token mine s (touch [changesKey "w"; "root_dirty"] (with_db (λ _, cameAndWent (c_db s) l) s)).
Proof.
  intros Hl Hg. refine (act_client (P := sampleCP) token mine s (cameAndWent (c_db s) l) l _ _ ["root_dirty"] Hg Hl _ _ _); [reflexivity|reflexivity|].
  intros [H1 H2]. split; [by apply (fs_inv_view (c_db s))|by apply (names_ok_same (c_db s))].
Qed.

Lemma sampleOthers_ok token mine : Others token mine.
Proof.
  intros s. unfold cq_env, sampleCP, sampleOthers. destruct (changes (c_db s)) as [l|] eqn:El; [|reflexivity].
  destruct (_ && _) eqn:E; [|reflexivity]. apply andb_true_iff in E as [_ E]. apply rtc_once. by apply cameAndWent_act.
Qed.

Definition sampleMeta : WorkspaceMeta :=
  {| wm_Version := 1; wm_ID := "w"; wm_Name := "w"; wm_Description := ""; wm_CreatedAt := 0; wm_UpdatedAt := 0;
     wm_HeadSavepoint := "initial"; wm_DefaultSavepoint := "initial"; wm_DirtyHint := false; wm_LastMaterializedAt := 0;
     wm_LastKnownMaterializedAt := "" |}.
Definition sampleInitial : SavepointMeta :=
  {| sm_Version := 1; sm_ID := "initial"; sm_Name := "initial"; sm_Description := ""; sm_Kind := "manual"; sm_Source := "cli";
     sm_Author := "afs"; sm_CreatedBy := ""; sm_Workspace := "w"; sm_ParentSavepoint := ""; sm_ManifestHash := "h0"; sm_CreatedAt := 0;
     sm_FileCount := 0; sm_DirCount := 0; sm_TotalBytes := 0 |}.
Definition emptyManifest : Manifest :=
  {| mn_Version := 1; mn_Workspace := "w"; mn_Savepoint := "initial"; mn_Entries := {["/" := manifestDir 493]} |}.

Definition sampleState : cp (gmap Z bytes) :=
  Cp _ (db_generation (Some "g_1") (w_db sampleWorld)) (Some sampleMeta) {["initial" := sampleInitial]} {["initial" := emptyManifest]}
     {["initial" := 0]} ∅ ∅ None (Some "initial") None 7 ∅ ∅ ∅.

Lemma generation_sound {arr} (d : db arr) g : fs_inv d → names_ok d → fs_inv (db_generation g d) ∧ names_ok (db_generation g d).
Proof. intros H1 H2. split; [by apply (fs_inv_same d)|by apply (names_ok_same d)]. Qed.

Lemma sampleWorld_names : names_ok (w_db sampleWorld).
Proof. apply names_ok_check. by vm_compute. Qed.

Lemma sampleState_ok : cp_ok sampleState ∧ tree_ok sampleState.
Proof. split; [by split|]. intros _.
  destruct (generation_sound _ (Some "g_1") sampleWorld_inv sampleWorld_names). split; [by apply fs_inv_settled|done]. Qed.

Definition sampleCapture := captureCheckpoint 9 noOptions "cp1" "g_1" "" true sampleState.
Definition sampleTaken : SavepointMeta := match sampleCapture.1 with Ok (Some p) => p | _ => sampleInitial end.

Lemma sampleCapture_taken : sampleCapture = (Ok (Some sampleTaken), sampleCapture.2).
Proof.
  refine (eq_trans (surjective_pairing _) (f_equal (λ r, (r, sampleCapture.2)) _)). vm_compute. reflexivity.
Qed.

Lemma checkpoint_is_snapshot_witness :
  length (default [] (changes (c_db sampleState))) = 17%nat ∧ length (default [] (changes (c_db sampleCapture.2))) = 19%nat ∧
  ∃ i now current refs sc, evolves "" [] sampleState sc ∧ commits i current sc ∧ snapshot_of (sr_Manifest i) sc ∧
    generation (c_db sc) = Some "g_1" ∧
    c_manifests (commitCheckpoint i now current refs sc) !! sr_CheckpointID i = Some (jsonManifest (sr_Manifest i)) ∧
    (manifest_text (sr_Manifest i) → jsonManifest (sr_Manifest i) = sr_Manifest i) ∧
    evolves "" [] (commitCheckpoint i now current refs sc) sampleCapture.2.
Proof.
  split; [by vm_compute|]. split; [by vm_compute|].
  apply (checkpoint_is_snapshot "" [] (HO := sampleOthers_ok "" []) 9 noOptions "cp1" "g_1" "" true sampleState sampleTaken sampleCapture.2).
  - exact sample_keys_order.
  - apply sampleState_ok.
  - apply sampleState_ok.
  - reflexivity.
  - reflexivity.
  - exact sampleCapture_taken.
Defined.
