(* ===== verification/CheckpointRestore.v ===== *)
(** What a restore leaves (service.go, [RestoreCheckpoint]): a restore that succeeds has
    held the lock and kept clients out from the fence to the end, so that the tree it
    opens again is exactly the one its manifest describes, and nothing of the one
    before. *)
From Stdlib Require Import Strings.Byte.
From S2P Require Import Prelude Content Paths FsState FsTree FsScripts FsClient ServerDiff Base64 RootNodes RootBuild RootTree RootScan RootLive RootProps CheckpointState Checkpoint CheckpointRely CheckpointScan CheckpointProps.
#[local] Open Scope string_scope.
#[local] Open Scope list_scope.
#[local] Open Scope Z_scope.

Definition restoreGenerations (draw : string) : list string := ["fencing:" +:+ "g_" +:+ draw; "restoring:" +:+ "g_" +:+ draw; "g_" +:+ draw].

Section restore.
Context {arr : Type} {RA : RedisArray arr} {P : CPParams arr} `{!SliceSort stringLess, !SliceSort depthLess}.
Implicit Types s : cp arr.
Implicit Types d : db arr.
Local Abbreviation id := cq_id.
Local Abbreviation gen s := (generation (c_db s)).
Context (token draw : string).
Context {HO : Others token (restoreGenerations draw)} (Hk : is_order cq_keys).
Local Abbreviation mine := (restoreGenerations draw).
Local Abbreviation evolves := (evolves token mine).
Local Abbreviation quiet := (quiet token mine).
Local Ltac quiet := repeat first [progress auto with quiet | apply quiet_bind; [|intros ?] | apply quiet_map; intros ? | case_match].

Lemma env_runs s : rtc (act token mine) s (cq_env s).
Proof. exact (HO s). Qed.

(** ** Programs all whose steps are steps others take *)

Lemma quiet_EXEC seen ks f : (∀ s, act token mine s (f s)) → quiet (EXEC cq_env seen ks f).
Proof.
  intros Hf s. unfold EXEC. etrans; [apply env_runs|]. destruct (untouched seen ks (cq_env s)); [|reflexivity]. apply rtc_once, Hf.
Qed.

Lemma quiet_write f : (∀ s, act token mine s (f s)) → quiet (writeC cq_env f).
Proof. intros Hf s. etrans; [apply env_runs|]. apply rtc_once, Hf. Qed.

Lemma quiet_bind_Ok {A B} (m : CM arr A) (k : A → CM arr B) : quiet m → (∀ a s s', m s = (Ok a, s') → quiet (k a)) → quiet (bindC m k).
Proof.
  intros Hm Hq s. unfold bindC. specialize (Hm s). destruct (m s) as [[a|e] s1] eqn:E; [|done]. etrans; [exact Hm|by eapply Hq].
Qed.

Lemma quiet_conflict {A} (m : CM arr A) : quiet m → quiet (asConflict m).
Proof. intros Hm s. unfold asConflict. specialize (Hm s). by destruct (m s) as [[a|[]] s1]. Qed.

Lemma quiet_transaction i now : quiet (saveTransaction i now).
Proof. unfold saveTransaction. quiet; apply quiet_EXEC; intros s; apply commit_act. Qed.

Lemma quiet_save i : sr_SkipWorkspaceRootSync i = true → (∀ k v, sr_Blobs i !! k = Some v → k = cq_blobSHA256 v) → quiet (saveCheckpoint i).
Proof.
  intros Hs Hb. pose proof (quiet_SaveBlobs token mine (sr_Blobs i) Hb Hk) as HB.
  assert (∀ now, quiet (asConflict (saveTransaction i now))) as HT by (intros; apply quiet_conflict, quiet_transaction).
  unfold saveCheckpoint. rewrite Hs. quiet.
Qed.

Lemma quiet_capture fuel options name g t allow : quiet (captureCheckpoint fuel options name g t allow).
Proof.
  unfold captureCheckpoint. do 4 (apply quiet_bind; [quiet|intros ?]). apply quiet_bind; [quiet|intros ?].
  apply quiet_bind_Ok; [quiet|]. intros [m st] s s' Hscan. apply quiet_bind; [quiet|intros ?]. apply quiet_bind; [quiet|intros ?].
  apply quiet_bind; [|intros saved; quiet]. apply quiet_save; [done|]. simpl. unfold scanRoot in Hscan.
  destruct (BuildManifestFromWorkspaceRoot _ _ _ _ _ _ _ _) as [[[[m0 st0]|e] n]|] eqn:E; [|done|done].
  injection Hscan as -> -> _. by apply (scan_hashed _ _ _ _ _ _ _ _ _ _ _ E).
Qed.

(** Writes of records. *)
Lemma record_act s s' b : c_db s' = db_dirty b (c_db s) → c_lock s' = c_lock s → c_past s' = c_past s → c_pastLocks s' = c_pastLocks s →
  c_blobs s' = c_blobs s → c_points s' = c_points s → c_refs s' = c_refs s →
  (∀ k, (touches s k ≤ touches s' k)%nat) → (touches s (workspaceMetaKey id) = touches s' (workspaceMetaKey id) → c_meta s' = c_meta s) →
  act token mine s s'.
Proof.
  intros E1 E2 E3 E4 E5 E6 E7 Ht Hm. apply (act_records _ _ _ _ b); rewrite ?E5, ?E6, ?E7; try done. by left.
Qed.

Lemma quiet_move p now : quiet (MoveWorkspaceHead p now).
Proof.
  unfold MoveWorkspaceHead. quiet. apply quiet_EXEC. intros s. apply (record_act _ _ (root_dirty (c_db s))); try done.
  - simpl. by destruct (c_db s).
  - intros k. apply (touch_le _ (with_meta _ s)).
  - intros E. match type of E with _ = touches (touch ?ks ?s0) ?k => pose proof (touch_lt ks s0 k ltac:(by left)) as Hlt; change (touches s0 k) with (touches s k) in Hlt end. lia.
Qed.

Lemma quiet_prepare b : quiet (prepareRestoreActivity b).
Proof.
  unfold prepareRestoreActivity. destruct b; quiet. apply quiet_write. intros s. apply (record_act _ _ (root_dirty (c_db s))); try done.
  - simpl. by destruct (c_db s).
  - intros k. apply (touch_le _ (with_before _ s)).
Qed.

Lemma quiet_clean h : quiet (MarkWorkspaceRootClean h).
Proof.
  unfold MarkWorkspaceRootClean. quiet. apply quiet_write. intros s. apply (record_act _ _ false); try done.
  intros k. apply (touch_le _ (with_db _ (with_rootHead _ s))).
Qed.

Lemma quiet_Lost : quiet Lost.
Proof. unfold Lost. apply quiet_bind; [intros s; reflexivity|]. intros ?. quiet. Qed.

(** ** From the lock on *)

Definition unused (g : string) s : Prop := g ∉ c_past s ∧ gen s ≠ Some g.
Definition locks_ok s : Prop := ∀ t, c_lock s = Some t → t ∉ c_pastLocks s.

(** What any step keeps, those of this restore included. *)
Record since s s' : Prop := {
  si_ok : locks_ok s → locks_ok s';
  si_locks : c_pastLocks s ⊆ c_pastLocks s';
  si_lock t : c_lock s = Some t → c_lock s' ≠ Some t → t ∈ c_pastLocks s'
}.

#[export] Instance since_preorder : PreOrder since.
Proof.
  split; [by split|]. intros a b c [O1 P1 L1] [O2 P2 L2]. split; [auto|by etrans|]. intros t Ht Hn.
  destruct (decide (c_lock b = Some t)) as [|Hne]; [by apply L2|]. apply P2. by apply L1.
Qed.

Lemma act_locks s s' : act token mine s s' → locks_ok s → locks_ok s'.
Proof.
  unfold locks_ok. intros H. destruct H as [| | |s s' b E1 E2 E3 E4|s t Hn Hp| | | |s s' ? Hi E1 E2 E3 E4]; simpl; try done; rewrite ?E2, ?E4; try done.
  intros _ t' [= <-]. by rewrite Hn.
Qed.

Lemma acts_since s s' : rtc (act token mine) s s' → since s s'.
Proof.
  induction 1 as [|s s1 s2 H _ IH]; [reflexivity|]. etrans; [|exact IH]. pose proof (act_later _ _ _ _ H) as L.
  split; [by apply act_locks|apply L|apply L].
Qed.

Lemma acts_unused g s s' : g ∈ mine → rtc (act token mine) s s' → unused g s → unused g s'.
Proof.
  intros Hg H. induction H as [|s s1 s2 Ha _ IH]; [done|]. intros [H1 H2]. apply IH. by apply (lt_unused _ _ _ _ (act_later _ _ _ _ Ha)).
Qed.

Lemma quiet_run {A} (m : CM arr A) s r s' : quiet m → m s = (r, s') → rtc (act token mine) s s'.
Proof. intros Hm E. specialize (Hm s). by rewrite E in Hm. Qed.

(** Who holds a token at the end has held it throughout. *)
Lemma since_lock s s1 s2 t : locks_ok s → since s s1 → since s1 s2 → c_lock s = Some t → c_lock s2 = Some t → c_lock s1 = Some t.
Proof.
  intros Hs H1 H2 Ht Ht2. destruct (decide (c_lock s1 = Some t)) as [|Hne]; [done|]. exfalso.
  apply (si_ok _ _ H2 (si_ok _ _ H1 Hs) t Ht2), (si_locks _ _ H2), (si_lock _ _ H1 t Ht Hne).
Qed.

(** Steps of this restore that leave locks alone. *)
Lemma cp_locks s : cp_ok s → locks_ok s.
Proof. intros Hs. exact (ok_lock _ Hs). Qed.

Lemma same_since s s' : c_lock s' = c_lock s → c_pastLocks s' = c_pastLocks s → since s s'.
Proof. intros E1 E2. split; unfold locks_ok; rewrite ?E1, ?E2; done. Qed.

Lemma same_ok s s' : gen s' = gen s → c_past s' = c_past s → c_lock s' = c_lock s → c_pastLocks s' = c_pastLocks s → c_blobs s' = c_blobs s →
  cp_ok s → cp_ok s'.
Proof. intros E1 E2 E3 E4 E5 [H1 H2 H3]. split; rewrite ?E1, ?E2, ?E3, ?E4, ?E5; done. Qed.

Lemma unused_same g s s' : gen s' = gen s → c_past s' = c_past s → unused g s → unused g s'.
Proof. unfold unused. by intros -> ->. Qed.

Lemma set_since g s : since s (touch [WorkspaceGenerationKey id] (set_generation g s)).
Proof. by apply same_since. Qed.

Lemma set_ok g s : unused g s ∨ gen s = Some g → cp_ok s → cp_ok (touch [WorkspaceGenerationKey id] (set_generation g s)).
Proof.
  intros Hg [H1 H2 H3]. split; try done. simpl. intros g' [= <-] [Hp|[? ?]]%past_set; [|done].
  destruct Hg as [[? _]|Hg]; [done|by apply (H1 g)].
Qed.

Lemma unused_set g g' s : g ≠ g' → unused g s → unused g (touch [WorkspaceGenerationKey id] (set_generation g' s)).
Proof. intros Hne [H1 H2]. split; [|simpl; congruence]. simpl. intros [?|[? _]]%past_set; done. Qed.

(** While the lock is held and clients are kept out. *)
Lemma acts_held s s' : cp_ok s → rtc (act token mine) s s' → c_lock s = Some token → c_lock s' = Some token →
  cp_ok s' ∧ gen s' = gen s ∧ c_blobs s ⊆ c_blobs s' ∧ (liveGen (gen s) = false → same_core (c_db s) (c_db s')).
Proof. intros Hs H H1 H2. destruct (acts_evolve _ _ _ _ H Hs) as (? & L & _). split; [done|]. by apply (lt_mine _ _ _ _ L). Qed.

(** ** Writing the tree *)

Lemma execCmd_core d d' c : same_core d d' → same_core (execCmd d c) (execCmd d' c).
Proof.
  intros ((E1 & E2 & E3) & E4 & E5 & E6). destruct c; repeat split; simpl; rewrite ?E1, ?E2, ?E3, ?E4, ?E5, ?E6; done.
Qed.

Lemma execAll_core cs d d' : same_core d d' → same_core (foldl execCmd d cs) (foldl execCmd d' cs).
Proof. revert d d'. induction cs as [|c cs IH]; intros d d' H; [done|]. by apply IH, execCmd_core. Qed.

Lemma execCmd_generation d c : generation (execCmd (arr := arr) d c) = generation d.
Proof. by destruct c. Qed.

(** What a program of this restore leaves: the locks are kept, no generation is used;
    and if the lock is held at the end, [Q] holds of the two states. *)
Record writes_tree s s' (Q : Prop) : Prop := {
  wt_since : since s s';
  wt_unused g : g ∈ mine → unused g s → unused g s';
  wt_held : cp_ok s → c_lock s = Some token → c_lock s' = Some token → liveGen (gen s) = false →
    cp_ok s' ∧ gen s' = gen s ∧ c_blobs s ⊆ c_blobs s' ∧ Q
}.

Lemma acts_writes s s' : rtc (act token mine) s s' → writes_tree s s' (c_blobs s ⊆ c_blobs s' ∧ same_core (c_db s) (c_db s')).
Proof.
  intros H. split; [by apply acts_since|intros; by eapply acts_unused|]. intros Hs Hl Hl' Hlive.
  destruct (acts_held _ _ Hs H Hl Hl') as (? & ? & ? & HC). split_and!; auto.
Qed.

Lemma own_writes s s' (Q : Prop) : gen s' = gen s → c_past s' = c_past s → c_lock s' = c_lock s → c_pastLocks s' = c_pastLocks s →
  c_blobs s' = c_blobs s → Q → writes_tree s s' Q.
Proof.
  intros E1 E2 E3 E4 E5 HQ. split; [by apply same_since|intros; by eapply unused_same|]. intros Hs _ _ _.
  split_and!; [by eapply same_ok|done|by rewrite E5|done].
Qed.

Lemma writes_trans s s1 s2 (Q1 Q2 Q : Prop) : writes_tree s s1 Q1 → writes_tree s1 s2 Q2 → (Q1 → Q2 → Q) → writes_tree s s2 Q.
Proof.
  intros W1 W2 HQ. split; [etrans; [apply W1|apply W2]|intros g Hg Hu; apply W2, W1; done|]. intros Hs Hl Hl' Hlive.
  assert (c_lock s1 = Some token) as Hl1 by (apply (since_lock s s1 s2); [by apply cp_locks|apply W1|apply W2|done|done]).
  destruct (wt_held _ _ _ W1 Hs Hl Hl1 Hlive) as (H1 & G1 & B1 & HQ1). rewrite <- G1 in Hlive.
  destruct (wt_held _ _ _ W2 H1 Hl1 Hl' Hlive) as (H2 & G2 & B2 & HQ2). split_and!; [done|congruence|by etrans|auto].
Qed.

Lemma commands_Ok cs s us s' : mapC (λ c, writeC cq_env (with_db (λ d, execCmd d c))) cs s = (Ok us, s') →
  writes_tree s s' (same_core (foldl execCmd (c_db s) cs) (c_db s')).
Proof.
  revert s us. induction cs as [|c cs IH]; intros s us H; simpl in H.
  { injection H as _ <-. by apply own_writes. }
  apply bindC_Ok in H as (u & s2 & [= _ <-] & H). apply bindC_Ok in H as (us' & s3 & H & [= _ <-]).
  set (s1 := cq_env s) in *. set (s2 := with_db _ s1) in *. eapply writes_trans; [apply acts_writes, env_runs| |].
  - eapply (writes_trans _ s2); [|exact (IH s2 us' H)|exact (λ _ q, q)]. apply (own_writes _ _ True); try done. apply execCmd_generation.
  - intros [_ HC] HD. etrans; [|exact HD]. simpl. by apply execAll_core, execCmd_core.
Qed.

Lemma sync_Ok m s u s' : SyncWorkspaceRoot m s = (Ok u, s') →
  writes_tree s s' (∃ (sb : cp arr) (d0 d1 : db arr), c_blobs s ⊆ c_blobs sb ∧ same_core d1 (c_db s') ∧
    rewriteWorkspaceRoot cq_keys (λ _, None) (λ b, c_blobs sb !! b) (PreferredRef cq_arrays) false m d0 = (None, d1)).
Proof.
  intros H. apply bindC_Ok in H as (? & s1 & E1 & H). assert (rtc (act token mine) s s1) as V1 by (eapply quiet_run; [|exact E1]; quiet).
  apply bindC_Ok in H as (? & s3 & [= _ <-] & H). set (s2 := cq_env s1) in *. set (s3 := resetRoot s2) in *.
  apply bindC_Ok in H as (blobs & s4 & [-> ->]%readC_Ok & H). set (s4 := cq_env s3) in *.
  destruct (buildWorkspaceFSNodes cq_keys m) as [nodes|e] eqn:Eb; [|done].
  destruct (writeWorkspaceFSNodes (λ _, None) (λ b, c_blobs s4 !! b) (PreferredRef cq_arrays) nodes) as [batches err] eqn:Ew.
  apply bindC_Ok in H as (us & s5 & H5 & H). destruct err as [e|]; [done|].
  assert (rtc (act token mine) s s2) as V2 by (etrans; [exact V1|apply env_runs]). assert (rtc (act token mine) s3 s4) as V4 by apply env_runs.
  assert (writes_tree s s4 (c_blobs s ⊆ c_blobs s4 ∧ same_core (resetWorkspaceFSNamespace (c_db s2)) (c_db s4))) as W4.
  { eapply writes_trans; [exact (acts_writes _ _ V2)|eapply (writes_trans _ s3); [by apply (own_writes _ _ True)|exact (acts_writes _ _ V4)|exact (λ _ q, q)]|].
    intros [HB _] [HB' HC]. split; [by etrans|exact HC]. }
  eapply writes_trans; [exact W4| |].
  { eapply writes_trans; [exact (commands_Ok _ _ _ _ H5)|apply acts_writes; eapply quiet_run; [|exact H]; apply quiet_clean|].
    intros C5 [_ C6]. exact (transitivity C5 C6). }
  intros [HB HC] HD. exists s4, (c_db s2). eexists. split; [done|].
  split; [|unfold rewriteWorkspaceRoot, materializeManifestToWorkspaceFS; rewrite Eb, Ew; reflexivity].
  etrans; [|exact HD]. rewrite execBatches_concat. by apply execAll_core.
Qed.

(** ** The whole restore *)

Lemma set_Ok g s u s' : setGeneration g s = (Ok u, s') → s' = touch [WorkspaceGenerationKey id] (set_generation g (cq_env s)).
Proof. unfold setGeneration, writeC. by intros [= _ <-]. Qed.

(** The script opens the workspace again only for the holder of the lock, and only if
    its own generation was still there. *)
Lemma complete_Ok g before after s u s' : completeRestoreWithActivity g token before after s = (Ok u, s') → gen (cq_env s) ≠ Some g →
  gen (cq_env s) = Some ("restoring:" +:+ g) ∧ c_lock (cq_env s) = Some token ∧ gen s' = Some g ∧
  same_tree (c_db (cq_env s)) (c_db s') ∧ info (c_db s') = info (c_db (cq_env s)) ∧ next_inode (c_db s') = next_inode (c_db (cq_env s)).
Proof.
  intros (cs & s1 & [= E <-] & H)%bindC_Ok Hne. unfold completeRestore in H. rewrite (bool_decide_eq_false_2 _ Hne) in H.
  destruct (bool_decide (gen (cq_env s) = Some ("restoring:" +:+ g))) eqn:E1; [|done]. apply bool_decide_eq_true in E1.
  destruct (bool_decide (c_lock (cq_env s) = Some token)) eqn:E2; [|done]. apply bool_decide_eq_true in E2. simpl in H.
  destruct (changes (c_db (cq_env s))) as [l|]; [|done]. by injection H as _ <-.
Qed.

(** From the lock to the moment the restore begins to write: the fence, what is done
    behind it, and the second generation.  A restore that takes up an earlier one has
    one generation for both. *)
Definition fence g s : cp arr := touch [WorkspaceGenerationKey id] (set_generation g (cq_env s)).

Lemma fence_since g s : since s (fence g s).
Proof. etrans; [apply acts_since, env_runs|apply set_since]. Qed.

Lemma fence_unused g g' s : g' ∈ mine → g ≠ g' → unused g' s → unused g' (fence g s).
Proof. intros Hg Hne Hu. apply unused_set; [done|]. eapply acts_unused; [done|apply env_runs|done]. Qed.

Lemma fence_held g s : g ∈ mine → cp_ok s → unused g s ∨ gen s = Some g → c_lock s = Some token → c_lock (fence g s) = Some token →
  cp_ok (fence g s) ∧ gen (fence g s) = Some g ∧ c_blobs s ⊆ c_blobs (fence g s).
Proof.
  intros Hg Hs Hu Hl Hl'. set (s1 := cq_env s). assert (rtc (act token mine) s s1) as V1 by apply env_runs.
  destruct (acts_held s s1 Hs V1 Hl Hl') as (H1 & G & B & _). split; [|done]. apply set_ok; [|done].
  destruct Hu as [Hu|Hu]; [left; by eapply acts_unused|right; unfold s1 in *; congruence].
Qed.

Lemma fences g1 g2 s s1 : g1 ∈ mine → g2 ∈ mine → cp_ok s → unused g1 s → unused g2 s → rtc (act token mine) (fence g1 s) s1 →
  c_lock s = Some token → c_lock (fence g2 s1) = Some token →
  cp_ok (fence g2 s1) ∧ gen (fence g2 s1) = Some g2 ∧ c_blobs s ⊆ c_blobs (fence g2 s1).
Proof.
  intros Hg1 Hg2 Hs Hu1 Hu2 V Hl Hl'.
  assert (c_lock (fence g1 s) = Some token) as Hl1.
  { apply (since_lock s _ (fence g2 s1)); [by apply cp_locks|apply fence_since| |done|done]. etrans; [by apply acts_since|apply fence_since]. }
  assert (c_lock s1 = Some token) as Hl2.
  { apply (since_lock s _ (fence g2 s1)); [by apply cp_locks| |apply fence_since|done|done]. etrans; [apply fence_since|by apply acts_since]. }
  destruct (fence_held g1 s) as (H1 & G1 & B1); [auto..|]. destruct (acts_held _ _ H1 V Hl1 Hl2) as (H2 & G2 & B2 & _).
  destruct (fence_held g2 s1) as (H3 & G3 & B3); try done; [|split_and!; [done..|]; by repeat (etrans; [eassumption|])].
  destruct (decide (g1 = g2)) as [<-|Hne]; [right; congruence|left].
  eapply acts_unused; [done|exact V|]. by apply fence_unused.
Qed.

(** The tree of [d], written from manifest [m] with the bodies in the store of [s]. *)
Definition written (m : Manifest) s d : Prop := ∃ (sb : cp arr) (d0 d1 : db arr), c_blobs s ⊆ c_blobs sb ∧
  rewriteWorkspaceRoot cq_keys (λ _, None) (λ b, c_blobs sb !! b) (PreferredRef cq_arrays) false m d0 = (None, d1) ∧
  same_tree d1 d ∧ info d = info d1 ∧ next_inode d = next_inode d1.

(** From the second generation to the end. *)
Lemma rewrite_Ok m p now s u1 s1 u2 s2 u3 s3 g before u4 s4 :
  MoveWorkspaceHead p now s = (Ok u1, s1) → SyncWorkspaceRoot m s1 = (Ok u2, s2) → Lost s2 = (Ok u3, s3) →
  completeRestoreWithActivity g token before m s3 = (Ok u4, s4) → g = "g_" +:+ draw → unused g s →
  since s (cq_env s3) ∧ c_lock (cq_env s3) = Some token ∧
  (cp_ok s → c_lock s = Some token → gen s = Some ("restoring:" +:+ g) → gen s4 = Some g ∧ written m s (c_db s4)).
Proof.
  intros E1 E2 E3 E4 Eg Hu. set (s5 := cq_env s3). assert (rtc (act token mine) s2 s5) as V3.
  { etrans; [eapply quiet_run; [apply quiet_Lost|exact E3]|apply env_runs]. }
  pose proof (acts_writes s s1 (quiet_run _ _ _ _ (quiet_move _ _) E1)) as W1.
  pose proof (writes_trans _ _ _ _ _ _ W1 (writes_trans _ _ _ _ _ _ (sync_Ok _ _ _ _ E2) (acts_writes _ _ V3) (λ a b, conj a b)) (λ a b, conj a b)) as W.
  assert (unused g s5) as Hu5 by (apply (wt_unused _ _ _ W); [|done]; rewrite Eg; set_solver).
  destruct (complete_Ok _ _ _ _ _ _ E4 (proj2 Hu5)) as (_ & Hl & Hg & HT & HI & HN).
  split; [apply W|]. split; [done|]. intros Hs Hls Hgs.
  destruct (wt_held _ _ _ W Hs Hls Hl) as (_ & _ & _ & [HB _] & (sb & d0 & d1 & HB1 & HC1 & Hrw) & [_ HC2]).
  { by rewrite Hgs. }
  split; [done|]. assert (same_core d1 (c_db s5)) as (HT5 & HI5 & HN5 & _) by (by etrans).
  exists sb, d0, d1. split; [by etrans|]. split; [done|]. split; [by etrans|]. split; [by rewrite HI|by rewrite HN].
Qed.

Lemma restoreLocked_Ok fuel p m meta s r s' : cp_ok s → c_lock s = Some token → (∀ g, g ∈ mine → unused g s) →
  restoreLocked fuel token draw p m meta s = (Ok r, s') →
  gen s' = Some ("g_" +:+ draw) ∧ written m s (c_db s') ∧ rr_CheckpointID r = sm_ID p.
Proof.
  intros Hs Hl Hu H. apply bindC_Ok in H as (o & s1 & [-> ->]%readC_Ok & H). apply bindC_Ok in H as (previous & ? & [_ ->]%orElse_Ok & H).
  set (s1 := cq_env s) in *. cbv zeta in H. set (g1 := _ +:+ _) in H.
  apply bindC_Ok in H as (? & s2 & ->%set_Ok & H). fold (fence g1 s1) in H. set (s2 := fence g1 s1) in *.
  apply bindC_Ok in H as (root & s3 & [-> E3]%readC_Ok & H). apply bindC_Ok in H as (safety & s4 & E4 & H).
  apply bindC_Ok in H as (? & s5 & E5 & H). apply bindC_Ok in H as (before & s6 & E6 & H).
  apply bindC_Ok in H as (? & s7 & ->%set_Ok & H). fold (fence ("restoring:" +:+ "g_" +:+ draw) s6) in H. set (g2 := "restoring:" +:+ _) in H.
  set (s7 := fence g2 s6) in *. apply bindC_Ok in H as (now & ? & [= _ <-] & H). apply bindC_Ok in H as (? & s8 & E8 & H).
  apply bindC_Ok in H as (? & s9 & E9 & H). apply bindC_Ok in H as (? & s10 & E10 & H). apply bindC_Ok in H as (? & s11 & E11 & [= <- <-]).
  assert (rtc (act token mine) s s1) as V1 by apply env_runs. assert (rtc (act token mine) s2 s6) as V2.
  { etrans; [apply env_runs|]. etrans; [eapply quiet_run; [|exact E4]|etrans; [eapply quiet_run; [apply quiet_Lost|exact E5]|eapply quiet_run; [apply quiet_prepare|exact E6]]].
    destruct (negb _ && _); [|quiet]. apply quiet_bind; [quiet|intros ?]. apply quiet_capture. }
  assert (g1 ∈ mine) as Hg1 by (unfold g1; destruct (HasPrefix previous "restoring:"); set_solver).
  assert (g2 ∈ mine) as Hg2 by set_solver. assert ("g_" +:+ draw ∈ mine) as Hg3 by set_solver.
  assert (∀ g, g ∈ mine → unused g s1) as Hu1 by (intros g Hg; eapply acts_unused; eauto).
  assert (g1 ≠ "g_" +:+ draw) as Hne1 by (unfold g1; by destruct (HasPrefix previous "restoring:")).
  assert (unused ("g_" +:+ draw) s7) as Hu7.
  { apply fence_unused; [done..|]. eapply acts_unused; [done|exact V2|]. by apply fence_unused; auto. }
  destruct (rewrite_Ok m _ _ _ _ _ _ _ _ _ _ _ _ _ E8 E9 E10 E11 eq_refl Hu7) as (Hsi & Hl5 & HR).
  assert (since s s7) as Hs7 by (etrans; [by apply acts_since|etrans; [apply fence_since|etrans; [by apply acts_since|apply fence_since]]]).
  assert (c_lock s7 = Some token) as Hl7 by (eapply (since_lock s); [by apply cp_locks|exact Hs7|exact Hsi|done|done]).
  assert (c_lock s1 = Some token) as Hl1.
  { eapply (since_lock s _ s7); [by apply cp_locks|by apply acts_since| |done|done]. etrans; [apply fence_since|etrans; [by apply acts_since|apply fence_since]]. }
  destruct (acts_held _ _ Hs V1 Hl Hl1) as (Hs1 & _ & B1 & _).
  destruct (fences g1 g2 s1 s6) as (H7 & G7 & B7); auto. destruct (HR H7 Hl7 G7) as (Hg & sb & d0 & d1 & HB & Hw).
  split; [done|]. split; [|done]. exists sb, d0, d1. split; [|done]. by repeat (etrans; [eassumption|]).
Qed.

(** ** What the tree shows *)

Lemma scannedManifest_weaken (B B' : gmap string bytes) E : B ⊆ B' → scannedManifest cq_blobSHA256 (λ _, None) (λ b, B !! b) E →
  scannedManifest cq_blobSHA256 (λ _, None) (λ b, B' !! b) E.
Proof.
  intros HB [H1 H2 H3 H4]. split; [done| |done|done]. intros q e He. destruct (H2 q e He) as [Hs ?]. split; [|done].
  destruct Hs as [| |mode mtime data Hlen Hne Hf|]; constructor; try done. revert Hf. unfold fetchBlob.
  destruct (B !! cq_blobSHA256 data) as [v|] eqn:E0; [|done]. by rewrite (lookup_weaken _ _ _ _ E0 HB).
Qed.

Lemma written_shows m s d : written m s d → scannedManifest cq_blobSHA256 (λ _, None) (λ b, c_blobs s !! b) (mn_Entries m) →
  Z.of_nat (size (mn_Entries m)) ≤ max_uint64 →
  fs_inv d ∧ names_ok d ∧ live_entries cq_arrays cq_blobSHA256 d (mn_Entries m).
Proof using Hk.
  intros (sb & d0 & d1 & HB & Hw & HT & HI & _) HE Hsz. apply (scannedManifest_weaken _ (c_blobs sb)) in HE; [|done].
  destruct (rewrite_complete cq_keys Hk (λ _, None) (λ b, c_blobs sb !! b) (PreferredRef cq_arrays) m d0) as (ns & d' & Hw' & Hmat);
    [apply HE|intros q e He; apply (scannedEntry_writable cq_blobSHA256), (sm_entry _ _ _ _ HE q e He)|done|].
  rewrite Hw in Hw'. injection Hw' as <-. split; [|split].
  - eapply fs_inv_same; [done|done|]. by eapply materialized_inv.
  - eapply names_ok_same; [done|]. by eapply restored_names.
  - eapply live_entries_view; [by apply settled_same|]. by eapply restored_live.
Qed.

(** C22: A restore is exact and exclusive among well-behaved clients and servers, those
    whose steps are [act]'s: clients journal what they change, but for the path hints of
    a rename, and obey the generation, and a server that has lost its lock rewrites no
    tree any more (one that goes on is not kept out, and the restore still reports
    success: [stale_server_writes_through]).  Whatever they do between its commands:
    when [RestoreCheckpoint] reports success, then at the moment it opens the workspace
    again, under its own generation, the tree is the one written from the manifest of
    the checkpoint, as read from its JSON, alone, over an emptied namespace, with the
    bodies of the store; nobody has changed it in between, though the import lock may
    have expired at any time; for a manifest of the shape a scan makes, without inodes of
    mode 0 and with bodies an array can hold, the tree is sound
    and lists exactly the manifest's entries.  Only others have acted after that
    moment. *)
Theorem restore_is_exact fuel ref s r s' :
  cp_ok s → token ∉ c_pastLocks s → c_lock s ≠ Some token → (∀ g, g ∈ mine → g ∉ c_past s ∧ gen s ≠ Some g) →
  RestoreCheckpoint fuel token draw ref s = (Ok r, s') →
  ∃ p m s0 sd, (GetCheckpoint ref s).1 = Ok (p, m) ∧ rr_CheckpointID r = sm_ID p ∧
    rtc (act token mine) s s0 ∧ c_lock s0 = None ∧
    gen sd = Some ("g_" +:+ draw) ∧ written m s0 (c_db sd) ∧ rtc (act token mine) sd s' ∧
    (scannedManifest cq_blobSHA256 (λ _, None) (λ b, c_blobs s0 !! b) (mn_Entries m) → Z.of_nat (size (mn_Entries m)) ≤ max_uint64 →
     fs_inv (c_db sd) ∧ names_ok (c_db sd) ∧ live_entries cq_arrays cq_blobSHA256 (c_db sd) (mn_Entries m)).
Proof.
  intros Hs Ht Hn Hu H. apply bindC_Ok in H as ([p m] & s1 & E1 & H). apply bindC_Ok in H as (meta & s2 & E2 & H).
  apply bindC_Ok in H as (u & sl & E3 & H). apply bindC_Ok in E3 as (x & s3 & E3 & E4).
  assert (rtc (act token mine) s (cq_env s3)) as V.
  { etrans; [eapply quiet_run; [|exact E1]; quiet|]. etrans; [eapply quiet_run; [|exact E2]; quiet|].
    etrans; [eapply quiet_run; [|exact E3]; quiet|apply env_runs]. }
  cbv beta zeta in E4. set (s4 := cq_env s3) in *. destruct (c_lock s4) as [|] eqn:El; [done|]. injection E4 as _ <-. set (sl := touch _ _) in *.
  destruct (acts_evolve _ _ _ _ V Hs) as (H4 & L & _). destruct (lt_newlock _ _ _ _ L Ht Hn) as [Ht4 _].
  assert (c_pastLocks sl = c_pastLocks s4) as Epl by (unfold sl; simpl; by rewrite El).
  assert (cp_ok sl) as Hsl by (destruct H4 as [G _ B]; split; [done|by intros t [= <-]; rewrite Epl|done]).
  assert (∀ g, g ∈ mine → unused g sl) as Hul by (intros g Hg; exact (acts_unused g s s4 Hg V (Hu g Hg))).
  unfold deferC in H. destruct (restoreLocked fuel token draw p m meta sl) as [r0 sd] eqn:Er.
  destruct (releaseLock token sd) as [u' s5] eqn:Ed. injection H as -> <-.
  destruct (restoreLocked_Ok fuel p m meta sl r sd Hsl eq_refl Hul Er) as (Hg & Hw & Hr).
  exists p, m, s4, sd. rewrite E1. split; [done|]. split; [done|]. split; [done|]. split; [done|]. split; [done|]. split; [exact Hw|].
  split; [|by apply written_shows]. unfold releaseLock, writeC in Ed. injection Ed as _ <-. etrans; [apply env_runs|].
  case_bool_decide; [|reflexivity]. apply rtc_once. constructor.
Qed.
End restore.

(** ** Witness *)

Definition sampleRestore := RestoreCheckpoint (P := sampleCP) 9 "t1" "2" "initial" sampleState.
Definition sampleRestored : RestoreCheckpointResult :=
  match sampleRestore.1 with
  | Ok r => r
  | Err _ => {| rr_Restored := false; rr_CheckpointID := ""; rr_WorkspaceID := ""; rr_WorkspaceName := "";
                rr_SafetyCheckpointID := ""; rr_SafetyCheckpointCreated := false |}
  end.

Lemma sampleRestore_done : sampleRestore = (Ok sampleRestored, sampleRestore.2).
Proof.
  refine (eq_trans (surjective_pairing _) (f_equal (λ r, (r, sampleRestore.2)) _)). vm_compute. reflexivity.
Qed.

(** The tree before is kept in a checkpoint of its own. *)
Example sampleRestored_safety : rr_SafetyCheckpointID sampleRestored = "before-restore-7" ∧ size (inodes (c_db sampleRestore.2)) = 1%nat.
Proof. by vm_compute. Qed.

Lemma restore_is_exact_witness :
  ∃ p m s0 sd, (GetCheckpoint "initial" sampleState).1 = Ok (p, m) ∧ rr_CheckpointID sampleRestored = sm_ID p ∧
    rtc (act "t1" (restoreGenerations "2")) sampleState s0 ∧ c_lock s0 = None ∧
    generation (c_db sd) = Some "g_2" ∧ written m s0 (c_db sd) ∧ rtc (act "t1" (restoreGenerations "2")) sd sampleRestore.2 ∧
    (scannedManifest cq_blobSHA256 (λ _, None) (λ b, c_blobs s0 !! b) (mn_Entries m) → Z.of_nat (size (mn_Entries m)) ≤ max_uint64 →
     fs_inv (c_db sd) ∧ names_ok (c_db sd) ∧ live_entries cq_arrays cq_blobSHA256 (c_db sd) (mn_Entries m)).
Proof.
  apply (restore_is_exact "t1" "2" (HO := sampleOthers_ok "t1" (restoreGenerations "2")) sample_keys_order 9 "initial" sampleState sampleRestored sampleRestore.2).
  - apply sampleState_ok.
  - by intros ?%elem_of_empty.
  - done.
  - intros g Hg. split; [by intros ?%elem_of_empty|]. intros [= <-]. by repeat (apply elem_of_cons in Hg as [Hg|Hg]; [done|]); apply elem_of_nil in Hg.
  - exact sampleRestore_done.
Defined.
