(* ===== verification/CheckpointRaces.v ===== *)
(** What the steps of CheckpointRely leave out, at concrete runs: the workspace of the
    samples with one intruder who acts at a given command, by a clock that counts
    commands. *)
From Stdlib Require Import Strings.Byte.
From S2P Require Import Prelude Content Paths FsState FsTree FsScripts FsClient FsProps Glob ServerDiff Base64 RootNodes RootBuild RootScan RootLive RootProps CheckpointState CheckpointJson Checkpoint CheckpointRely CheckpointProps.
#[local] Open Scope string_scope.
#[local] Open Scope list_scope.
#[local] Open Scope Z_scope.

Local Abbreviation state := (cp (gmap Z bytes)).

Definition ticked (s : state) : state :=
  Cp _ (c_db s) (c_meta s) (c_points s) (c_manifests s) (c_index s) (c_blobs s) (c_refs s) (c_lock s) (c_rootHead s)
     (c_before s) (c_now s + 1) (c_touched s) (c_past s) (c_pastLocks s).

(** The parameters of the samples, with an intruder at one tick. *)
Definition raceCP (tick : Z) (intruder : state → state) : CPParams (gmap Z bytes) := {|
  cq_arrays := true; cq_blobSHA256 := sampleSHA; cq_HashManifest := cq_HashManifest (CPParams := sampleCP);
  cq_keys := sample_keys; cq_entryID := sampleEntryID; cq_timeName := cq_timeName (CPParams := sampleCP); cq_id := "w";
  cq_env s := let s := ticked s in if c_now s =? tick then intruder s else s;
  cq_lost _ := false
|}.

(** A second checkpoint beside the initial one. *)
Definition secondPoint : SavepointMeta :=
  {| sm_Version := 1; sm_ID := "cp0"; sm_Name := "cp0"; sm_Description := ""; sm_Kind := "manual"; sm_Source := "cli";
     sm_Author := "afs"; sm_CreatedBy := ""; sm_Workspace := "w"; sm_ParentSavepoint := "initial"; sm_ManifestHash := "h1"; sm_CreatedAt := 1;
     sm_FileCount := 0; sm_DirCount := 0; sm_TotalBytes := 0 |}.
Definition twoPoints : state :=
  Cp _ (c_db sampleState) (c_meta sampleState) (<["cp0" := secondPoint]> (c_points sampleState))
     (<["cp0" := emptyManifest]> (c_manifests sampleState)) (<["cp0" := 1]> (c_index sampleState)) ∅ ∅ None (Some "initial") None 0 ∅ ∅ ∅.

(** The same without anybody else. *)
Definition aloneCP : CPParams (gmap Z bytes) := raceCP (-1) (λ s, s).

(** A client that does not publish ([DisableInvalidationPublishing]) changes the mode of
    a file after the scan and before the commit: nothing is journaled, and the
    checkpoint is reported although it shows a tree that was no more. *)
Definition silentChmod (s : state) : state :=
  match c_points s !! "cp1" with
  | Some _ => s
  | None => with_db (λ d, with_inodes (hset "4" [FMode 384]) d) s
  end.
Definition silentRun := captureCheckpoint (P := raceCP 20 silentChmod) 9 noOptions "cp1" "g_1" "" true twoPoints.

Lemma silent_write_escapes_guards :
  (∃ p, silentRun.1 = Ok (Some p) ∧ sm_ID p = "cp1") ∧
  (m ← c_manifests silentRun.2 !! "cp1"; mf_Mode <$> mn_Entries m !! "/a/f") = Some 420 ∧
  h_mode <$> inodes (c_db silentRun.2) !! "4" = Some 384.
Proof. split; [eexists; split; vm_compute; reflexivity|]. split; vm_compute; reflexivity. Qed.

(** A checkpoint deleted between [GetCheckpoint] and [MoveWorkspaceHead], by a server that
    does all its checks: the restore succeeds, the head names a checkpoint that is not
    there, and no later checkpoint can be taken. *)
Definition deletion (s : state) : state := (DeleteCheckpoint (P := aloneCP) "cp0" s).2.
Definition danglingRun := RestoreCheckpoint (P := raceCP 20 deletion) 9 "t1" "2" "cp0" twoPoints.

Lemma deleted_checkpoint_is_restored :
  (∃ r, danglingRun.1 = Ok r ∧ rr_CheckpointID r = "cp0") ∧ wm_HeadSavepoint <$> c_meta danglingRun.2 = Some "cp0" ∧
  c_points danglingRun.2 !! "cp0" = None ∧
  (SaveCheckpointFromLive (P := aloneCP) 9 "cp2" danglingRun.2).1 = Err ErrNotExist.
Proof. split; [eexists; split; vm_compute; reflexivity|]. split_and!; vm_compute; reflexivity. Qed.

(** A server that has lost its lock goes on writing the tree it restores: its commands
    test neither the lock nor the generation ([Lost] is asked when all are sent), and
    they get into the tree of the server that holds the lock now. *)
Definition staleCommand (s : state) : state := with_db (λ d, execCmd d (CSetDirent "1" "stale" "9")) s.
Definition staleRun := RestoreCheckpoint (P := raceCP 52 staleCommand) 9 "t1" "2" "cp0" twoPoints.

Lemma stale_server_writes_through :
  (∃ r, staleRun.1 = Ok r ∧ rr_Restored r = true) ∧ generation (c_db staleRun.2) = Some "g_2" ∧
  lk (dirents (c_db staleRun.2)) "1" "stale" = Some "9" ∧ inodes (c_db staleRun.2) !! "9" = None.
Proof. split; [eexists; split; vm_compute; reflexivity|]. split_and!; vm_compute; reflexivity. Qed.

(** A workspace deleted between [GetCheckpoint] and the lock: the restore fails, but the
    tombstone that told clients of the deletion is gone. *)
Definition wholeDeletion (s : state) : state := (DeleteWorkspace (P := aloneCP) "t0" s).2.
Definition tombstoneRun := RestoreCheckpoint (P := raceCP 7 wholeDeletion) 9 "t1" "2" "cp0" twoPoints.

Lemma tombstone_is_replaced :
  generation (c_db (wholeDeletion twoPoints)) = Some "deleted" ∧ tombstoneRun.1 = Err ErrNotExist ∧
  generation (c_db tombstoneRun.2) = Some "fencing:g_2" ∧ c_meta tombstoneRun.2 = None.
Proof. split_and!; vm_compute; reflexivity. Qed.

(** A file whose name is no UTF-8: the live tree has it, the scan lists it, and the stored
    manifest names another file, so that a restore renames it. *)
Definition latin1Name : string := "/" +:+ of_codes [252].
Definition coercedName : string := "/" +:+ of_codes [239; 191; 189].
Definition latin1State : state :=
  with_db (λ _, db_generation (Some "g_1") (w_db (run_ops (P := solo_params) [(plain, CEcho latin1Name [x01])] root_world))) twoPoints.
Definition latin1Run := captureCheckpoint (P := aloneCP) 9 noOptions "cp1" "g_1" "" true latin1State.

Lemma checkpoint_coerces_names :
  (∃ p, latin1Run.1 = Ok (Some p) ∧ sm_ID p = "cp1") ∧
  (m ← c_manifests latin1Run.2 !! "cp1"; mf_Inline <$> mn_Entries m !! coercedName) = Some "AQ==" ∧
  (m ← c_manifests latin1Run.2 !! "cp1"; mf_Inline <$> mn_Entries m !! latin1Name) = None ∧
  lk (dirents (c_db latin1Run.2)) "1" (of_codes [252]) = Some "2".
Proof. split; [eexists; split; vm_compute; reflexivity|]. split_and!; vm_compute; reflexivity. Qed.
