(* ===== verification/Retention.v ===== *)
(** Retention of file history (internal/filehistory/retention.go): the script that
    examines a page of versions and removes those the limits of the policy exclude,
    with their indexes, their bodies and their share of the byte counters.

    A key holds what the capture script writes, or something else: a key of the wrong
    Redis type is listed in [hs_wrong], a value that cannot be read is [None] (a
    record, a policy, a count) or [Malformed] (a counter).  Scores and counters are
    integers below 10^14, which Lua's numbers hold exactly.  Paths are indexed under
    their SHA-1. *)
From S2P Require Import Prelude ServerDiff HistoryPolicy.
#[local] Open Scope go_scope.
#[local] Open Scope string_scope.
#[local] Open Scope list_scope.
#[local] Open Scope Z_scope.

(** * Data *)

Inductive hkey :=
| KPolicy | KRetention | KCursor | KBytes | KRecords | KBlobrefs | KBlobmeta | KPhysical
| KFile (file : string) | KVersions (file : string) | KFileTimeline (file : string) | KTimeline (sha : string).

#[export] Instance hkey_eq_dec : EqDecision hkey.
Proof. solve_decision. Defined.

Inductive counter := Absent | Digits (n : Z) | Malformed.

Record historyRecord := {
  hr_id : string; hr_file_id : string; hr_version : Z; hr_path : string; hr_previous_path : option string;
  hr_type : string; hr_size : Z; hr_deleted : bool; hr_created_at : Z; hr_blob_id : string; hr_metadata_only : bool
}.

(** The value under [blob:]: a string of some length, an array, another type. *)
Inductive blobBody := BString (length : Z) | BArray | BOther.
Record blobMeta := { bm_size : Z; bm_ref : string }.

Record hist := {
  hs_wrong : list hkey;
  hs_policy : option (option Policy);
  hs_retention : gmap string Z;
  hs_cursor : counter;
  hs_bytes : counter;
  hs_records : gmap string (option historyRecord);
  hs_files : gmap string (option string * option string);     (* head, recoverable *)
  hs_versions : gmap string (gmap string Z);
  hs_fileTimeline : gmap string (gmap string Z);
  hs_timeline : gmap string (gmap string Z);
  hs_bodies : gset string;
  hs_blobrefs : gmap string (option Z);
  hs_blobmeta : gmap string blobMeta;
  hs_blobs : gmap string blobBody;
  hs_physical : counter
}.

Inductive pruneError :=
| WrongKeyType (k : hkey)
| BadPolicy
| BadLimits
| BadBytes
| BadCursor
| BadPhysical
| BadRecord (id : string)
| NoHead
| ProtectedMissing
| ProtectedInconsistent
| NoRecoverableHead
| BadVersionIndex
| BytesInconsistent
| BadBlobOwnership
| BadBlobSize
| BadBlobBackend
| PhysicalInconsistent.

Definition historyLimit : Z := 100000000000000.

(** * The tests *)

Definition keytype (s : hist) (k : hkey) : result pruneError () :=
  if bool_decide (k ∈ hs_wrong s) then Err (WrongKeyType k) else Ok ().
Fixpoint keytypes (s : hist) (ks : list hkey) : result pruneError () :=
  match ks with
  | [] => Ok ()
  | k :: ks => check keytype s k; keytypes s ks
  end.

Definition ensure (b : bool) (e : pruneError) : result pruneError () := if b then Ok () else Err e.

Definition counterValue (c : counter) : option Z :=
  match c with Absent => Some 0 | Digits n => Some n | Malformed => None end.

Definition zscore (index : gmap string (gmap string Z)) (k id : string) : option Z := index !! k ≫= λ m, m !! id.
Definition zcard (index : gmap string (gmap string Z)) (k : string) : Z := Z.of_nat (size (default ∅ (index !! k))).

(** A value of the hash of records, read as the record [id]. *)
Definition goodRecord (id : string) (r : historyRecord) : bool :=
  negb (bool_decide (hr_file_id r = "")) && bool_decide (hr_id r = id) && bool_decide (hr_type r = "file" ∨ hr_type r = "symlink") &&
  (0 <=? hr_size r) && (hr_size r <? historyLimit).

(** A version whose bytes are counted: a file with its content. *)
Definition hasBody (r : historyRecord) : bool :=
  bool_decide (hr_type r = "file") && negb (hr_deleted r) && negb (hr_metadata_only r).

(** * The plan *)

Record lineage := { ln_head : string; ln_recoverable : option string; ln_count : Z }.
Record blobPlan := { bp_count : Z; bp_size : Z }.

Record prunePlan := {
  pp_retained : Z;
  pp_plans : list historyRecord;
  pp_stale : list string;
  pp_files : gmap string lineage;
  pp_blobs : gmap string blobPlan
}.

Record limits := { lm_versions : Z; lm_age : Z; lm_cutoff : Z; lm_bytes : Z }.

Section script.
Context (keys : mapOrder) (sha1hex : string → string).

(** A protected record: it must be there, in its lineage, and readable. *)
Definition checkPointer (s : hist) (file pointer : string) (recoverable : option string) : result pruneError () :=
  match hs_records s !! pointer with
  | None => Err ProtectedMissing
  | Some raw =>
      check ensure (bool_decide (is_Some (zscore (hs_versions s) file pointer))) ProtectedMissing;
      match raw with
      | None => Err (BadRecord pointer)
      | Some p =>
          ensure (bool_decide (hr_file_id p = file) && bool_decide (hr_id p = pointer) &&
                  negb (bool_decide (Some pointer = recoverable) && hr_deleted p)) ProtectedInconsistent
      end
  end.

Definition loadLineage (s : hist) (file : string) : result pruneError lineage :=
  check keytypes s [KFile file; KVersions file];
  let '(head, recoverable) := default (None, None) (hs_files s !! file) in
  match head with
  | None => Err NoHead
  | Some h =>
      check checkPointer s file h recoverable;
      check match recoverable with Some p => checkPointer s file p recoverable | None => Ok () end;
      Ok {| ln_head := h; ln_recoverable := recoverable; ln_count := zcard (hs_versions s) file |}
  end.

Definition goodBackend (meta : blobMeta) (body : blobBody) : bool :=
  match body with
  | BString n => bool_decide (bm_ref meta = "ext") && (n =? bm_size meta)
  | BArray => bool_decide (bm_ref meta = "array")
  | BOther => false
  end.

(** The count of a blob, read once. *)
Definition loadBlob (s : hist) (b : string) (size : Z) : result pruneError blobPlan :=
  match hs_blobrefs s !! b, hs_blobmeta s !! b, hs_blobs s !! b with
  | Some (Some count), Some meta, Some body =>
      check ensure (0 <? count) BadBlobOwnership;
      check ensure (bm_size meta =? size) BadBlobSize;
      check ensure (goodBackend meta body) BadBlobBackend;
      Ok {| bp_count := count; bp_size := size |}
  | _, _, _ => Err BadBlobOwnership
  end.

Definition releaseBlob (s : hist) (r : historyRecord) (blobs : gmap string blobPlan) : result pruneError (gmap string blobPlan) :=
  if bool_decide (hr_blob_id r = "") then Ok blobs
  else
    do blob <- match blobs !! hr_blob_id r with Some b => Ok b | None => loadBlob s (hr_blob_id r) (hr_size r) end;
    check ensure (0 <=? bp_count blob - 1) BadBlobOwnership;
    Ok (<[hr_blob_id r := {| bp_count := bp_count blob - 1; bp_size := bp_size blob |}]> blobs).

(** One candidate. *)
Definition planOne (s : hist) (lim : limits) (p : prunePlan) (id : string) : result pruneError prunePlan :=
  match hs_records s !! id with
  | None => Ok {| pp_retained := pp_retained p; pp_plans := pp_plans p; pp_stale := pp_stale p ++ [id];
                  pp_files := pp_files p; pp_blobs := pp_blobs p |}
  | Some None => Err (BadRecord id)
  | Some (Some r) =>
      check ensure (goodRecord id r) (BadRecord id);
      let file := hr_file_id r in
      check keytypes s [KFileTimeline file; KTimeline (sha1hex (hr_path r))];
      check match hr_previous_path r with Some q => keytype s (KTimeline (sha1hex q)) | None => Ok () end;
      do state <- match pp_files p !! file with Some l => Ok l | None => loadLineage s file end;
      check ensure (bool_decide (is_Some (ln_recoverable state)) || negb (hasBody r)) NoRecoverableHead;
      check ensure (bool_decide (zscore (hs_versions s) file id = Some (hr_version r))) BadVersionIndex;
      let kept := {| pp_retained := pp_retained p; pp_plans := pp_plans p; pp_stale := pp_stale p;
                     pp_files := <[file := state]> (pp_files p); pp_blobs := pp_blobs p |} in
      if bool_decide (id = ln_head state) || bool_decide (Some id = ln_recoverable state) then Ok kept
      else
        let excess := (0 <? lm_versions lim) && (lm_versions lim <? ln_count state) in
        let expired := (0 <? lm_age lim) && (hr_created_at r <? lm_cutoff lim) in
        let overBudget := (0 <? lm_bytes lim) && (lm_bytes lim <? pp_retained p) in
        if excess || expired || overBudget then
          let retained := if hasBody r then pp_retained p - hr_size r else pp_retained p in
          check ensure (0 <=? retained) BytesInconsistent;
          do blobs <- releaseBlob s r (pp_blobs p);
          Ok {| pp_retained := retained; pp_plans := pp_plans p ++ [r]; pp_stale := pp_stale p;
                pp_files := <[file := {| ln_head := ln_head state; ln_recoverable := ln_recoverable state;
                                         ln_count := ln_count state - 1 |}]> (pp_files p);
                pp_blobs := blobs |}
        else Ok kept
  end.

Fixpoint planAll (s : hist) (lim : limits) (p : prunePlan) (ids : list string) : result pruneError prunePlan :=
  match ids with
  | [] => Ok p
  | id :: ids => do p <- planOne s lim p id; planAll s lim p ids
  end.

(** * The commands *)

Definition zrem (id k : string) (index : gmap string (gmap string Z)) : gmap string (gmap string Z) := alter (delete id) k index.

Definition removeRecord (s : hist) (r : historyRecord) : hist :=
  let id := hr_id r in
  let timeline := zrem id (sha1hex (hr_path r)) (hs_timeline s) in
  {| hs_wrong := hs_wrong s; hs_policy := hs_policy s; hs_retention := delete id (hs_retention s); hs_cursor := hs_cursor s;
     hs_bytes := hs_bytes s; hs_records := delete id (hs_records s); hs_files := hs_files s;
     hs_versions := zrem id (hr_file_id r) (hs_versions s); hs_fileTimeline := zrem id (hr_file_id r) (hs_fileTimeline s);
     hs_timeline := match hr_previous_path r with Some q => zrem id (sha1hex q) timeline | None => timeline end;
     hs_bodies := if bool_decide (hr_blob_id r = "") then hs_bodies s ∖ {[id]} else hs_bodies s;
     hs_blobrefs := hs_blobrefs s; hs_blobmeta := hs_blobmeta s; hs_blobs := hs_blobs s; hs_physical := hs_physical s |}.

Definition setBlob (b : string) (count : Z) (s : hist) : hist :=
  {| hs_wrong := hs_wrong s; hs_policy := hs_policy s; hs_retention := hs_retention s; hs_cursor := hs_cursor s; hs_bytes := hs_bytes s;
     hs_records := hs_records s; hs_files := hs_files s; hs_versions := hs_versions s; hs_fileTimeline := hs_fileTimeline s;
     hs_timeline := hs_timeline s; hs_bodies := hs_bodies s;
     hs_blobrefs := if count =? 0 then delete b (hs_blobrefs s) else <[b := Some count]> (hs_blobrefs s);
     hs_blobmeta := if count =? 0 then delete b (hs_blobmeta s) else hs_blobmeta s;
     hs_blobs := if count =? 0 then delete b (hs_blobs s) else hs_blobs s; hs_physical := hs_physical s |}.

Definition dropStale (ids : list string) (s : hist) : hist :=
  {| hs_wrong := hs_wrong s; hs_policy := hs_policy s; hs_retention := foldl (λ m id, delete id m) (hs_retention s) ids;
     hs_cursor := hs_cursor s; hs_bytes := hs_bytes s; hs_records := hs_records s; hs_files := hs_files s;
     hs_versions := hs_versions s; hs_fileTimeline := hs_fileTimeline s; hs_timeline := hs_timeline s; hs_bodies := hs_bodies s;
     hs_blobrefs := hs_blobrefs s; hs_blobmeta := hs_blobmeta s; hs_blobs := hs_blobs s; hs_physical := hs_physical s |}.

Definition setCounters (cursor bytes physical : Z) (s : hist) : hist :=
  {| hs_wrong := hs_wrong s; hs_policy := hs_policy s; hs_retention := hs_retention s; hs_cursor := Digits cursor;
     hs_bytes := Digits bytes; hs_records := hs_records s; hs_files := hs_files s;
     hs_versions := hs_versions s; hs_fileTimeline := hs_fileTimeline s; hs_timeline := hs_timeline s; hs_bodies := hs_bodies s;
     hs_blobrefs := hs_blobrefs s; hs_blobmeta := hs_blobmeta s; hs_blobs := hs_blobs s; hs_physical := Digits physical |}.

(** What the blobs whose count reaches zero take up. *)
Definition releasedPhysical (blobs : gmap string blobPlan) : Z :=
  foldl (λ acc b, match blobs !! b with Some p => if bp_count p =? 0 then acc + bp_size p else acc | None => acc end) 0 (keys _ blobs).

Definition setBlobs (blobs : gmap string blobPlan) (s : hist) : hist :=
  foldl (λ s b, match blobs !! b with Some p => setBlob b (bp_count p) s | None => s end) s (keys _ blobs).

Definition execute (p : prunePlan) (cursor physical : Z) (s : hist) : hist :=
  setCounters cursor (Z.max 0 (pp_retained p)) (physical - releasedPhysical (pp_blobs p))
    (dropStale (pp_stale p) (setBlobs (pp_blobs p) (foldl removeRecord s (pp_plans p)))).

(** * The script *)

(** [ZRANGEBYSCORE] from above the cursor: by score, then by name. *)
Definition entryLess (a b : string * Z) : bool := (a.2 <? b.2) || ((a.2 =? b.2) && stringLess a.1 b.1).
Definition candidates (s : hist) (cursor : Z) (limit : nat) : list (string * Z) :=
  take limit (filter (λ e, cursor < e.2) (insertion_sort entryLess (map_to_list (hs_retention s)))).

Definition limitsOf (p : Policy) (now : Z) : limits :=
  {| lm_versions := p_MaxVersions p; lm_age := p_MaxAgeDays p; lm_cutoff := now - p_MaxAgeDays p * 86400000; lm_bytes := p_MaxBytes p |}.

Definition fixedKeys : list hkey := [KPolicy; KRetention; KCursor; KBytes; KRecords; KBlobrefs; KBlobmeta; KPhysical].

Record PruneResult := { pr_Removed : Z; pr_Scanned : Z; pr_More : bool }.
Definition nothingPruned : PruneResult := {| pr_Removed := 0; pr_Scanned := 0; pr_More := false |}.

(** [now] is the time of the server in milliseconds. *)
Definition pruneScript (limit : nat) (now : Z) (s : hist) : result pruneError PruneResult * hist :=
  let r :=
    check keytypes s fixedKeys;
    match hs_policy s with
    | None => Ok None
    | Some None => Err BadPolicy
    | Some (Some p) =>
        check ensure ((0 <=? p_MaxVersions p) && (0 <=? p_MaxAgeDays p) && (0 <=? p_MaxBytes p)) BadLimits;
        if (p_MaxVersions p =? 0) && (p_MaxAgeDays p =? 0) && (p_MaxBytes p =? 0) then Ok None
        else
          do retained <- match counterValue (hs_bytes s) with
                         | Some n => if n <? historyLimit then Ok n else Err BadBytes
                         | None => Err BadBytes
                         end;
          do cursor <- match counterValue (hs_cursor s) with Some n => Ok n | None => Err BadCursor end;
          do physical <- match counterValue (hs_physical s) with Some n => Ok n | None => Err BadPhysical end;
          let cs := candidates s cursor limit in
          do plan <- planAll s (limitsOf p now)
                       {| pp_retained := retained; pp_plans := []; pp_stale := []; pp_files := ∅; pp_blobs := ∅ |} (map fst cs);
          check ensure (releasedPhysical (pp_blobs plan) <=? physical) PhysicalInconsistent;
          let last := default cursor (snd <$> list.last cs) in
          let next := if Nat.ltb (length cs) limit then 0 else last in
          Ok (Some ({| pr_Removed := Z.of_nat (length (pp_plans plan)); pr_Scanned := Z.of_nat (length cs);
                       pr_More := negb (next =? 0) |}, execute plan next physical s))
    end in
  match r with
  | Ok (Some (res, s')) => (Ok res, s')
  | Ok None => (Ok nothingPruned, s)
  | Err e => (Err e, s)
  end.

(** [PrunePage] and [Prune]. *)
Definition pageLimit (limit : Z) : nat :=
  let limit := if limit <=? 0 then 128 else limit in Z.to_nat (if 1000 <? limit then 1000 else limit).
Definition PrunePage (limit now : Z) (s : hist) : result pruneError PruneResult * hist := pruneScript (pageLimit limit) now s.
Definition Prune (limit now : Z) (s : hist) : result pruneError Z * hist :=
  let '(r, s) := PrunePage limit now s in (match r with Ok r => Ok (pr_Removed r) | Err e => Err e end, s).

(** [afs history --prune]: batch after batch, until one says that nothing is left or all
    are used up; [now] is the time by the batches left. *)
Fixpoint pruneBatches (batches : nat) (limit : Z) (now : nat → Z) (s : hist) : result pruneError (list PruneResult) * hist :=
  match batches with
  | O => (Ok [], s)
  | S batches =>
      match PrunePage limit (now batches) s with
      | (Err e, s') => (Err e, s')
      | (Ok r, s') =>
          if pr_More r then
            match pruneBatches batches limit now s' with
            | (Ok rs, s'') => (Ok (r :: rs), s'')
            | res => res
            end
          else (Ok [r], s')
      end
  end.
Definition pruneHistory (now : nat → Z) (s : hist) : result pruneError (Z * bool) * hist :=
  let '(r, s) := pruneBatches 100 100 now s in
  (match r with
   | Ok rs => Ok (foldr (λ r n, pr_Removed r + n) 0 rs, match list.last rs with Some r => pr_More r | None => false end)
   | Err e => Err e
   end, s).
End script.
