(* ===== verification/RetentionProps.v ===== *)
(** What the retention script does (Retention): it plans first and removes afterwards,
    with caches of its own, and what it leaves is what removing one version after the
    other would leave.  The accounting of a history stays exact, protected versions
    stay, and the rotating cursor gets around. *)
From S2P Require Import Prelude ServerDiff HistoryPolicy Retention.
#[local] Open Scope string_scope.
#[local] Open Scope list_scope.
#[local] Open Scope Z_scope.

(** * Sums over maps *)

Definition mapsum {A} (w : A → Z) (m : gmap string A) : Z := map_fold (λ _ a acc, w a + acc) 0 m.

Lemma mapsum_insert {A} (w : A → Z) m k a : m !! k = None → mapsum w (<[k := a]> m) = w a + mapsum w m.
Proof. intros H. unfold mapsum. rewrite map_fold_insert_L; [done| |done]. intros. lia. Qed.

Lemma mapsum_delete {A} (w : A → Z) m k a : m !! k = Some a → mapsum w (delete k m) = mapsum w m - w a.
Proof.
  intros H. rewrite <- (insert_delete_id m k a H) at 2. rewrite mapsum_insert by apply lookup_delete_eq. lia.
Qed.

Lemma mapsum_change {A} (w : A → Z) m k a a' : m !! k = Some a → mapsum w (<[k := a']> m) = mapsum w m - w a + w a'.
Proof.
  intros H. rewrite <- insert_delete_eq, mapsum_insert by apply lookup_delete_eq. rewrite (mapsum_delete _ _ _ a) by done. lia.
Qed.

Lemma mapsum_nonneg {A} (w : A → Z) m : (∀ k a, m !! k = Some a → 0 ≤ w a) → 0 ≤ mapsum w m.
Proof.
  induction m as [|k a m Hn IH] using map_ind; intros Hw; [done|]. rewrite mapsum_insert by done.
  assert (0 ≤ w a) by (apply (Hw k); apply lookup_insert_eq). enough (0 ≤ mapsum w m) by lia.
  apply IH. intros k' a' Hk. apply (Hw k'). rewrite lookup_insert_ne; congruence.
Qed.

Lemma mapsum_elem {A} (w : A → Z) m k a : (∀ k a, m !! k = Some a → 0 ≤ w a) → m !! k = Some a → w a ≤ mapsum w m.
Proof.
  intros Hw H. pose proof (mapsum_delete w m k a H). enough (0 ≤ mapsum w (delete k m)) by lia.
  apply mapsum_nonneg. intros k' a' [_ H']%lookup_delete_Some. eauto.
Qed.

(** The sum is that of the keys in any order. *)
Lemma mapsum_list {A} (w : A → Z) (m : gmap string A) (l : list string) : l ≡ₚ map fst (map_to_list m) →
  foldl (λ acc k, match m !! k with Some a => acc + w a | None => acc end) 0 l = mapsum w m.
Proof.
  assert (∀ l acc, foldl (λ acc k, match m !! k with Some a => acc + w a | None => acc end) acc l =
    acc + foldr (λ k s, match m !! k with Some a => w a + s | None => s end) 0 l) as Hf.
  { clear l. intros l. induction l as [|k l IH]; intros acc; simpl; [lia|]. rewrite IH. destruct (m !! k); lia. }
  intros Hl. rewrite Hf. simpl. clear Hf.
  assert (∀ l l', l ≡ₚ l' → foldr (λ k s, match m !! k with Some a => w a + s | None => s end) 0 l =
    foldr (λ k s, match m !! k with Some a => w a + s | None => s end) 0 l') as Hp.
  { induction 1; simpl; repeat case_match; lia. }
  rewrite Z.add_0_l, (Hp _ _ Hl). clear l Hl Hp. unfold mapsum. rewrite map_fold_foldr.
  assert (∀ k a, (k, a) ∈ map_to_list m → m !! k = Some a) as Hin by (intros; by apply elem_of_map_to_list).
  revert Hin. generalize (map_to_list m). induction l as [|[k a] l IH]; intros Hin; [done|]. simpl.
  rewrite (Hin k a) by by left. rewrite IH; [done|]. intros; apply Hin; by right.
Qed.

(** * The history as it should be *)

Definition bytesOf (s : hist) : Z := default 0 (counterValue (hs_bytes s)).
Definition physicalOf (s : hist) : Z := default 0 (counterValue (hs_physical s)).
Definition liveSize (raw : option historyRecord) : Z := match raw with Some r => if hasBody r then hr_size r else 0 | None => 0 end.
Definition uses (b : string) (raw : option historyRecord) : Z :=
  match raw with Some r => if bool_decide (hr_blob_id r = b) then 1 else 0 | None => 0 end.
Definition usersOf (s : hist) (b : string) : Z := mapsum (uses b) (hs_records s).
Definition headOf (s : hist) (file : string) : option string := (default (None, None) (hs_files s !! file)).1.
Definition recoverableOf (s : hist) (file : string) : option string := (default (None, None) (hs_files s !! file)).2.

(** [p] stands for a version of lineage [file] that must not go. *)
Definition stands (s : hist) (file p : string) : Prop :=
  ∃ q, hs_records s !! p = Some (Some q) ∧ hr_file_id q = file ∧ is_Some (zscore (hs_versions s) file p).

Record blob_ok (s : hist) (b : string) : Prop := {
  bk_count : hs_blobrefs s !! b = (if usersOf s b =? 0 then None else Some (Some (usersOf s b)));
  bk_meta : usersOf s b ≠ 0 → ∃ meta body, hs_blobmeta s !! b = Some meta ∧ hs_blobs s !! b = Some body ∧ goodBackend meta body = true ∧
    0 ≤ bm_size meta ∧ ∀ id r, hs_records s !! id = Some (Some r) → hr_blob_id r = b → hr_size r = bm_size meta;
  bk_none : usersOf s b = 0 → hs_blobmeta s !! b = None ∧ hs_blobs s !! b = None
}.

Record hist_ok (s : hist) : Prop := {
  ho_types : hs_wrong s = [];
  ho_record id raw : hs_records s !! id = Some raw → ∃ r, raw = Some r ∧ goodRecord id r = true;
  ho_version id r : hs_records s !! id = Some (Some r) → zscore (hs_versions s) (hr_file_id r) id = Some (hr_version r);
  ho_head id r : hs_records s !! id = Some (Some r) → ∃ h, headOf s (hr_file_id r) = Some h ∧ stands s (hr_file_id r) h;
  ho_recoverable id r p : hs_records s !! id = Some (Some r) → recoverableOf s (hr_file_id r) = Some p →
    stands s (hr_file_id r) p ∧ ∀ q, hs_records s !! p = Some (Some q) → hr_deleted q = false;
  ho_body id r : hs_records s !! id = Some (Some r) → hasBody r = true → is_Some (recoverableOf s (hr_file_id r));
  ho_blobbed id r : hs_records s !! id = Some (Some r) → hr_blob_id r ≠ "" → hasBody r = true;
  ho_bytes : counterValue (hs_bytes s) = Some (mapsum liveSize (hs_records s)) ∧ mapsum liveSize (hs_records s) < historyLimit;
  ho_blobs b : b ≠ "" → blob_ok s b;
  ho_noblob : hs_blobmeta s !! "" = None;
  ho_physical : counterValue (hs_physical s) = Some (mapsum bm_size (hs_blobmeta s))
}.

Lemma good_parts id r : goodRecord id r = true → hr_file_id r ≠ "" ∧ hr_id r = id ∧ 0 ≤ hr_size r.
Proof. unfold goodRecord. intros. bools. split_and!; [done|done|lia]. Qed.

Lemma record_good s id r : hist_ok s → hs_records s !! id = Some (Some r) → goodRecord id r = true.
Proof. intros Hs H. destruct (ho_record s Hs _ _ H) as (r' & [= <-] & ?). done. Qed.

Lemma uses_01 b raw : uses b raw = 0 ∨ uses b raw = 1.
Proof. destruct raw as [r|]; simpl; [case_bool_decide; auto|auto]. Qed.

Lemma users_nonneg s b : 0 ≤ usersOf s b.
Proof. apply mapsum_nonneg. intros k a _. destruct (uses_01 b a) as [-> | ->]; lia. Qed.

Lemma users_pos s id r : hs_records s !! id = Some (Some r) → 0 < usersOf s (hr_blob_id r).
Proof.
  intros H. enough (1 ≤ usersOf s (hr_blob_id r)) by lia. unfold usersOf.
  etrans; [|apply (mapsum_elem _ _ id (Some r)); [|done]]; [simpl; by rewrite bool_decide_eq_true_2|].
  intros k a _. destruct (uses_01 (hr_blob_id r) a) as [-> | ->]; lia.
Qed.

Lemma live_nonneg s k raw : hist_ok s → hs_records s !! k = Some raw → 0 ≤ liveSize raw.
Proof.
  intros Hs H. destruct (ho_record s Hs _ _ H) as (r & -> & Hg). simpl. destruct (good_parts _ _ Hg) as (_ & _ & ?). by destruct (hasBody r).
Qed.

(** * Removing one version *)

Section sweep.
Context (keys : mapOrder) (sha1hex : string → string).

Definition settle (cursor : Z) (s : hist) : hist := setCounters cursor (bytesOf s) (physicalOf s) s.

Definition withCounts (bytes physical : Z) (s : hist) : hist :=
  {| hs_wrong := hs_wrong s; hs_policy := hs_policy s; hs_retention := hs_retention s; hs_cursor := hs_cursor s;
     hs_bytes := Digits bytes; hs_records := hs_records s; hs_files := hs_files s; hs_versions := hs_versions s;
     hs_fileTimeline := hs_fileTimeline s; hs_timeline := hs_timeline s; hs_bodies := hs_bodies s;
     hs_blobrefs := hs_blobrefs s; hs_blobmeta := hs_blobmeta s; hs_blobs := hs_blobs s; hs_physical := Digits physical |}.

(** A version goes with its indexes, its bytes, and its blob if it was the last user. *)
Definition forget (s : hist) (r : historyRecord) : hist :=
  let b := hr_blob_id r in
  withCounts (bytesOf s - liveSize (Some r))
    (if bool_decide (b = "") then physicalOf s else if usersOf s b =? 1 then physicalOf s - hr_size r else physicalOf s)
    (if bool_decide (b = "") then removeRecord sha1hex s r else setBlob b (usersOf s b - 1) (removeRecord sha1hex s r)).

(** What the limits exclude, by the history as it is now. *)
Definition protectedIn (s : hist) (file id : string) : bool :=
  bool_decide (headOf s file = Some id) || bool_decide (recoverableOf s file = Some id).
Definition excluded (lim : limits) (s : hist) (r : historyRecord) : bool :=
  ((0 <? lm_versions lim) && (lm_versions lim <? zcard (hs_versions s) (hr_file_id r))) ||
  ((0 <? lm_age lim) && (hr_created_at r <? lm_cutoff lim)) || ((0 <? lm_bytes lim) && (lm_bytes lim <? bytesOf s)).

Definition sweepOne (lim : limits) (s : hist) (id : string) : hist :=
  match hs_records s !! id with
  | None => dropStale [id] s
  | Some None => s
  | Some (Some r) => if negb (protectedIn s (hr_file_id r) id) && excluded lim s r then forget s r else s
  end.
Definition sweep (lim : limits) : hist → list string → hist := foldl (sweepOne lim).

Lemma forget_records s r : hs_records (forget s r) = delete (hr_id r) (hs_records s).
Proof. unfold forget. by destruct (bool_decide _). Qed.
Lemma forget_files s r : hs_files (forget s r) = hs_files s.
Proof. unfold forget. by destruct (bool_decide _). Qed.
Lemma forget_versions s r : hs_versions (forget s r) = zrem (hr_id r) (hr_file_id r) (hs_versions s).
Proof. unfold forget. by destruct (bool_decide _). Qed.

Lemma zscore_zrem index k id k' id' : zscore (zrem id k index) k' id' = if decide (k = k' ∧ id = id') then None else zscore index k' id'.
Proof.
  unfold zscore, zrem. destruct (decide (k = k')) as [<-|Hne].
  - rewrite lookup_alter_eq. destruct (index !! k) as [m|]; simpl; [|by case_decide]. destruct (decide (id = id')) as [<-|Hn].
    + rewrite lookup_delete_eq. by rewrite decide_True.
    + rewrite lookup_delete_ne by done. rewrite decide_False by tauto. done.
  - rewrite lookup_alter_ne by done. rewrite decide_False by tauto. done.
Qed.

Lemma zcard_zrem index k id k' : is_Some (zscore index k id) →
  zcard (zrem id k index) k' = if decide (k = k') then zcard index k' - 1 else zcard index k'.
Proof.
  unfold zscore, zcard, zrem. intros [v Hv]. case_decide as E.
  - subst k'. rewrite lookup_alter_eq. destruct (index !! k) as [m|]; simpl in *; [|done].
    rewrite map_size_delete_Some by eauto. assert (size m ≠ 0%nat) by (intros E0; by apply map_size_empty_inv in E0 as ->). lia.
  - by rewrite lookup_alter_ne.
Qed.

Lemma users_forget s id r b : hs_records s !! id = Some (Some r) → hr_id r = id →
  usersOf (forget s r) b = usersOf s b - (if bool_decide (hr_blob_id r = b) then 1 else 0).
Proof. intros H <-. unfold usersOf. rewrite forget_records. by rewrite (mapsum_delete _ _ _ (Some r)). Qed.

Lemma stands_forget s r f p : hist_ok s → stands s f p → (f = hr_file_id r → p ≠ hr_id r) → goodRecord (hr_id r) r = true →
  hs_records s !! hr_id r = Some (Some r) → stands (forget s r) f p.
Proof.
  intros Hs (q & Hq & Hf & Hv) Hne Hg Hr. exists q. assert (p ≠ hr_id r) as Hp.
  { destruct (decide (f = hr_file_id r)) as [E|E]; [by apply Hne|]. intros ->. rewrite Hr in Hq. injection Hq as <-. by apply E. }
  split; [by rewrite forget_records, lookup_delete_ne|]. split; [done|]. rewrite forget_versions, zscore_zrem, decide_False; [done|naive_solver].
Qed.

(** The blob of [b] afterwards. *)
Lemma forget_blob s r b : hist_ok s → hs_records s !! hr_id r = Some (Some r) → b ≠ "" →
  (hr_blob_id r ≠ b ∧ hs_blobrefs (forget s r) !! b = hs_blobrefs s !! b ∧ hs_blobmeta (forget s r) !! b = hs_blobmeta s !! b ∧
     hs_blobs (forget s r) !! b = hs_blobs s !! b) ∨
  (hr_blob_id r = b ∧ usersOf s b ≠ 1 ∧ hs_blobrefs (forget s r) !! b = Some (Some (usersOf s b - 1)) ∧
     hs_blobmeta (forget s r) = hs_blobmeta s ∧ hs_blobs (forget s r) = hs_blobs s) ∨
  (hr_blob_id r = b ∧ usersOf s b = 1 ∧ hs_blobrefs (forget s r) !! b = None ∧
     hs_blobmeta (forget s r) = delete b (hs_blobmeta s) ∧ hs_blobs (forget s r) = delete b (hs_blobs s)).
Proof.
  intros Hs Hr Hb. unfold forget. destruct (bool_decide_reflect (hr_blob_id r = "")) as [E|E].
  - left. split; [congruence|]. done.
  - simpl. destruct (decide (hr_blob_id r = b)) as [<-|Hne]; [|left; split; [done|]].
    + right. destruct (Z.eqb_spec (usersOf s (hr_blob_id r) - 1) 0) as [E0|E0].
      * right. split; [done|]. split; [lia|]. by rewrite lookup_delete_eq.
      * left. split; [done|]. split; [lia|]. by rewrite lookup_insert_eq.
    + destruct (usersOf s (hr_blob_id r) - 1 =? 0); rewrite ?lookup_delete_ne, ?lookup_insert_ne by done; done.
Qed.

Lemma forget_blob_ok s r b : hist_ok s → hs_records s !! hr_id r = Some (Some r) → b ≠ "" → blob_ok (forget s r) b.
Proof.
  intros Hs Hr Hb. pose proof (users_forget s (hr_id r) r b Hr eq_refl) as Hu. destruct (ho_blobs s Hs b Hb) as [K1 K2 K3].
  assert (∀ id q, hs_records (forget s r) !! id = Some (Some q) → hs_records s !! id = Some (Some q)) as Hsub.
  { intros id q. rewrite forget_records. by intros [_ ?]%lookup_delete_Some. }
  destruct (forget_blob s r b Hs Hr Hb) as [(Hne & E1 & E2 & E3)|[(<- & Hn & E1 & E2 & E3)|(<- & Hn & E1 & E2 & E3)]].
  - rewrite (bool_decide_eq_false_2 _ Hne), Z.sub_0_r in Hu. split; rewrite ?Hu, ?E1, ?E2, ?E3; [done| |done].
    intros H0. destruct (K2 H0) as (meta & body & ? & ? & ? & ? & Hsz). exists meta, body. split_and!; try done. intros id q Hq. by eapply Hsz, Hsub.
  - rewrite bool_decide_eq_true_2 in Hu by done. pose proof (users_pos s _ r Hr). split; rewrite ?Hu, ?E1, ?E2, ?E3.
    + destruct (Z.eqb_spec (usersOf s (hr_blob_id r) - 1) 0); [lia|done].
    + intros _. destruct (K2 ltac:(lia)) as (meta & body & ? & ? & ? & ? & Hsz). exists meta, body. split_and!; try done.
      intros id q Hq. by eapply Hsz, Hsub.
    + intros ?. lia.
  - rewrite bool_decide_eq_true_2 in Hu by done. rewrite Hn in Hu. split; rewrite ?Hu, ?E1, ?E2, ?E3; [done|done|].
    intros _. by rewrite !lookup_delete_eq.
Qed.

Lemma blob_size s r : hist_ok s → hs_records s !! hr_id r = Some (Some r) → hr_blob_id r ≠ "" →
  ∃ meta, hs_blobmeta s !! hr_blob_id r = Some meta ∧ hr_size r = bm_size meta.
Proof.
  intros Hs Hr Hb. pose proof (users_pos s _ r Hr). destruct (bk_meta _ _ (ho_blobs s Hs _ Hb) ltac:(lia)) as (meta & body & ? & _ & _ & _ & Hsz).
  exists meta. split; [done|]. by eapply Hsz.
Qed.

Lemma forget_physical s r : hist_ok s → hs_records s !! hr_id r = Some (Some r) →
  counterValue (hs_physical (forget s r)) = Some (mapsum bm_size (hs_blobmeta (forget s r))).
Proof.
  intros Hs Hr. pose proof (ho_physical s Hs) as Hp. unfold forget, physicalOf. rewrite Hp. simpl. f_equal.
  destruct (bool_decide_reflect (hr_blob_id r = "")) as [E|E]; simpl; [done|].
  destruct (blob_size s r Hs Hr E) as (meta & Hm & Hsz).
  destruct (Z.eqb_spec (usersOf s (hr_blob_id r)) 1) as [E1|E1].
  - rewrite E1. simpl. by rewrite (mapsum_delete _ _ _ meta), Hsz.
  - destruct (Z.eqb_spec (usersOf s (hr_blob_id r) - 1) 0); [lia|done].
Qed.

Lemma unprotected s f p : protectedIn s f p = false → headOf s f ≠ Some p ∧ recoverableOf s f ≠ Some p.
Proof. unfold protectedIn. intros. bools. done. Qed.

Lemma forget_ok s r : hist_ok s → hs_records s !! hr_id r = Some (Some r) → protectedIn s (hr_file_id r) (hr_id r) = false →
  hist_ok (forget s r).
Proof.
  intros Hs Hr [Hh Hrec]%unprotected. pose proof (record_good _ _ _ Hs Hr) as Hg.
  assert (∀ id raw, hs_records (forget s r) !! id = Some raw → id ≠ hr_id r ∧ hs_records s !! id = Some raw) as Hsub.
  { intros id raw. rewrite forget_records. intros [? ?]%lookup_delete_Some. done. }
  assert (∀ f, headOf (forget s r) f = headOf s f ∧ recoverableOf (forget s r) f = recoverableOf s f) as Hf.
  { intros f. unfold headOf, recoverableOf. by rewrite forget_files. }
  split.
  - unfold forget. rewrite <- (ho_types s Hs). by destruct (bool_decide _).
  - intros id raw [_ H]%Hsub. by apply (ho_record s Hs).
  - intros id q [Hne H]%Hsub. rewrite forget_versions, zscore_zrem, decide_False by naive_solver. by apply (ho_version s Hs).
  - intros id q [_ H]%Hsub. destruct (ho_head s Hs _ _ H) as (h & E & Hst). exists h. rewrite (proj1 (Hf _)). split; [done|].
    apply stands_forget; [done|done| |done|done]. intros Ef ->. rewrite Ef in E. done.
  - intros id q p [_ H]%Hsub. rewrite (proj2 (Hf _)). intros E. destruct (ho_recoverable s Hs _ _ _ H E) as [Hst Hd]. split.
    + apply stands_forget; [done|done| |done|done]. intros Ef ->. rewrite Ef in E. done.
    + intros q' [_ H']%Hsub. by apply Hd.
  - intros id q [_ H]%Hsub. rewrite (proj2 (Hf _)). by apply (ho_body s Hs _ _ H).
  - intros id q [_ H]%Hsub. by apply (ho_blobbed s Hs _ _ H).
  - destruct (ho_bytes s Hs) as [Hb Hlt]. rewrite forget_records, (mapsum_delete _ _ _ (Some r)) by done.
    pose proof (live_nonneg s _ _ Hs Hr) as H0. split; [|lia]. unfold forget, bytesOf. rewrite Hb. done.
  - intros b Hb. by apply forget_blob_ok.
  - unfold forget. destruct (bool_decide_reflect (hr_blob_id r = "")) as [E|E]; simpl; [apply (ho_noblob s Hs)|].
    destruct (_ =? 0); [|apply (ho_noblob s Hs)]. rewrite lookup_delete_ne by done. apply (ho_noblob s Hs).
  - by apply forget_physical.
Qed.

Lemma stale_ok s ids : hist_ok s → hist_ok (dropStale ids s).
Proof. intros [? ? ? ? ? ? ? ? Hb ? ?]. split; try done. intros b Hne. by destruct (Hb b Hne). Qed.

Lemma record_id s id r : hist_ok s → hs_records s !! id = Some (Some r) → hr_id r = id.
Proof. intros Hs H. by apply (good_parts _ _ (record_good _ _ _ Hs H)). Qed.

Lemma sweepOne_ok lim s id : hist_ok s → hist_ok (sweepOne lim s id).
Proof.
  intros Hs. unfold sweepOne. destruct (hs_records s !! id) as [[r|]|] eqn:E; [|done|by apply stale_ok].
  destruct (protectedIn _ _ _) eqn:Ep; [done|]. destruct (excluded _ _ _); [|done]. simpl.
  pose proof (record_id _ _ _ Hs E) as <-. by apply forget_ok.
Qed.

Lemma sweep_ok lim s ids : hist_ok s → hist_ok (sweep lim s ids).
Proof. revert s. induction ids as [|id ids IH]; intros s Hs; [done|]. by apply IH, sweepOne_ok. Qed.

(** * The plan follows the sweep *)

(** Equal but for the retention index, the blobs and the counters. *)
Definition core (s : hist) := (hs_wrong s, hs_policy s, hs_cursor s, hs_records s, hs_files s, hs_versions s, hs_fileTimeline s,
  hs_timeline s, hs_bodies s).

Lemma core_remove s t r : core s = core t → core (removeRecord sha1hex s r) = core (removeRecord sha1hex t r).
Proof. unfold core. intros [= E1 E2 E3 E4 E5 E6 E7 E8 E9]. simpl. by rewrite E1, E2, E3, E4, E5, E6, E7, E8, E9. Qed.
Lemma core_forget s r : core (forget s r) = core (removeRecord sha1hex s r).
Proof. unfold forget. by destruct (bool_decide _). Qed.

Definition removeAll (s : hist) (rs : list historyRecord) : hist := foldl (removeRecord sha1hex) s rs.
Definition freed (b : blobPlan) : Z := if bp_count b =? 0 then bp_size b else 0.

Definition blobTracks (s t : hist) (b : string) (o : option blobPlan) : Prop :=
  match o with
  | Some p => b ≠ "" ∧ bp_count p = usersOf t b ∧ (∃ meta, hs_blobmeta s !! b = Some meta ∧ bm_size meta = bp_size p) ∧
      hs_blobrefs t !! b = (if bp_count p =? 0 then None else Some (Some (bp_count p))) ∧
      hs_blobmeta t !! b = (if bp_count p =? 0 then None else hs_blobmeta s !! b) ∧
      hs_blobs t !! b = (if bp_count p =? 0 then None else hs_blobs s !! b)
  | None => hs_blobrefs t !! b = hs_blobrefs s !! b ∧ hs_blobmeta t !! b = hs_blobmeta s !! b ∧ hs_blobs t !! b = hs_blobs s !! b
  end.

Record tracks (s : hist) (p : prunePlan) (t : hist) : Prop := {
  tk_core : core t = core (removeAll s (pp_plans p));
  tk_retention k : hs_retention t !! k = (if decide (k ∈ map hr_id (pp_plans p) ∨ k ∈ pp_stale p) then None else hs_retention s !! k);
  tk_bytes : bytesOf t = pp_retained p;
  tk_physical : physicalOf t = physicalOf s - mapsum freed (pp_blobs p);
  tk_blob b : blobTracks s t b (pp_blobs p !! b);
  tk_file f l : pp_files p !! f = Some l → headOf s f = Some (ln_head l) ∧ recoverableOf s f = ln_recoverable l ∧ ln_count l = zcard (hs_versions t) f;
  tk_fresh f : pp_files p !! f = None → hs_versions t !! f = hs_versions s !! f;
  tk_count : Z.of_nat (length (pp_plans p)) = Z.of_nat (size (hs_records s)) - Z.of_nat (size (hs_records t))
}.

Lemma removeAll_records s rs id : hs_records (removeAll s rs) !! id = if decide (id ∈ map hr_id rs) then None else hs_records s !! id.
Proof.
  unfold removeAll. revert s. induction rs as [|r rs IH]; intros s; simpl.
  { done. }
  rewrite IH. simpl. case_decide as E1; case_decide as E2; try done.
  - destruct E2. by right.
  - apply elem_of_cons in E2 as [->|?]; [by rewrite lookup_delete_eq|done].
  - rewrite lookup_delete_ne; [done|]. intros <-. destruct E2. by left.
Qed.

Lemma removeAll_files s rs : hs_files (removeAll s rs) = hs_files s.
Proof. unfold removeAll. revert s. induction rs as [|r rs IH]; intros s; [done|]. simpl. by rewrite IH. Qed.

Lemma tracks_record s p t id : tracks s p t → id ∉ map hr_id (pp_plans p) → hs_records t !! id = hs_records s !! id.
Proof.
  intros T Hn. pose proof (tk_core _ _ _ T) as [= _ _ _ E _ _ _ _ _]. by rewrite E, removeAll_records, decide_False.
Qed.

Lemma tracks_files s p t f : tracks s p t → headOf t f = headOf s f ∧ recoverableOf t f = recoverableOf s f.
Proof.
  intros T. pose proof (tk_core _ _ _ T) as [= _ _ _ _ E _ _ _ _]. unfold headOf, recoverableOf. by rewrite E, removeAll_files.
Qed.

Lemma keytypes_ok s ks : hs_wrong s = [] → keytypes s ks = Ok ().
Proof.
  intros E. induction ks as [|k ks IH]; [done|]. simpl. unfold keytype. rewrite E, bool_decide_eq_false_2 by (by intros ?%elem_of_nil). done.
Qed.

Lemma checkPointer_ok s f p rec : hist_ok s → stands s f p → (rec = Some p → ∀ q, hs_records s !! p = Some (Some q) → hr_deleted q = false) →
  checkPointer s f p rec = Ok ().
Proof.
  intros Hs (q & Hq & <- & Hv) Hd. unfold checkPointer. rewrite Hq. rewrite (bool_decide_eq_true_2 (is_Some _)) by done. simpl.
  rewrite (bool_decide_eq_true_2 (hr_file_id q = _)) by done. rewrite (bool_decide_eq_true_2 (hr_id q = p)) by (by eapply record_id).
  simpl. case_bool_decide as E; simpl; [|done]. by rewrite (Hd (eq_sym E) q Hq).
Qed.

Lemma loadLineage_ok s id r : hist_ok s → hs_records s !! id = Some (Some r) → ∃ l, loadLineage s (hr_file_id r) = Ok l ∧
  headOf s (hr_file_id r) = Some (ln_head l) ∧ recoverableOf s (hr_file_id r) = ln_recoverable l ∧ ln_count l = zcard (hs_versions s) (hr_file_id r).
Proof.
  intros Hs Hr. destruct (ho_head s Hs _ _ Hr) as (h & Eh & Hst). pose proof (λ p, ho_recoverable s Hs id r p Hr) as Hrec.
  unfold loadLineage, headOf, recoverableOf in *. rewrite keytypes_ok by apply Hs. simpl.
  destruct (default (None, None) (hs_files s !! hr_file_id r)) as [head rec]. simpl in *. subst head.
  rewrite checkPointer_ok; [|done|done|intros ->; by apply Hrec]. simpl.
  destruct rec as [p|]; simpl; [|by eexists]. destruct (Hrec p eq_refl) as [Hsp Hdp]. rewrite checkPointer_ok by done. simpl. by eexists.
Qed.

Lemma lineage_ok s p t id r : hist_ok s → tracks s p t → hs_records s !! id = Some (Some r) → ∃ l,
  match pp_files p !! hr_file_id r with Some l => Ok l | None => loadLineage s (hr_file_id r) end = Ok l ∧
  headOf s (hr_file_id r) = Some (ln_head l) ∧ recoverableOf s (hr_file_id r) = ln_recoverable l ∧ ln_count l = zcard (hs_versions t) (hr_file_id r).
Proof.
  intros Hs T Hr. destruct (pp_files p !! hr_file_id r) as [l|] eqn:E.
  - exists l. split; [done|]. by apply (tk_file _ _ _ T).
  - destruct (loadLineage_ok s id r Hs Hr) as (l & ? & ? & ? & ?). exists l. split_and!; try done.
    unfold zcard. by rewrite (tk_fresh _ _ _ T _ E).
Qed.

Lemma releaseBlob_ok s p t r : hist_ok s → hist_ok t → tracks s p t → hs_records s !! hr_id r = Some (Some r) →
  hs_records t !! hr_id r = Some (Some r) → hr_blob_id r ≠ "" →
  releaseBlob s r (pp_blobs p) = Ok (<[hr_blob_id r := {| bp_count := usersOf t (hr_blob_id r) - 1; bp_size := hr_size r |}]> (pp_blobs p)).
Proof.
  intros Hs Ht T Hr Hrt Hb. unfold releaseBlob. rewrite bool_decide_eq_false_2 by done. pose proof (users_pos t _ r Hrt) as Hpos.
  pose proof (tk_blob _ _ _ T (hr_blob_id r)) as HB. destruct (blob_size s r Hs Hr Hb) as (meta & Hm & Hsz).
  destruct (pp_blobs p !! hr_blob_id r) as [bp|]; simpl.
  - destruct HB as (_ & Ec & (meta' & Hm' & Esz) & _). rewrite Hm in Hm'. injection Hm' as <-. rewrite Ec, Hsz, Esz.
    destruct (Z.leb_spec 0 (usersOf t (hr_blob_id r) - 1)); [done|lia].
  - destruct HB as (E1 & E2 & E3). destruct (ho_blobs t Ht _ Hb) as [K1 K2 _].
    destruct (K2 ltac:(lia)) as (m & body & Hm' & Hbody & Hg & _). rewrite E2, Hm in Hm'. injection Hm' as <-.
    rewrite (proj2 (Z.eqb_neq _ _)) in K1 by lia. rewrite E1 in K1. rewrite E3 in Hbody.
    unfold loadBlob. rewrite K1, Hm, Hbody. simpl. rewrite (proj2 (Z.ltb_lt _ _) Hpos), <- Hsz, Z.eqb_refl, Hg. simpl.
    destruct (Z.leb_spec 0 (usersOf t (hr_blob_id r) - 1)); [done|lia].
Qed.

Lemma forget_other s r b : hr_blob_id r ≠ b ∨ b = "" →
  hs_blobrefs (forget s r) !! b = hs_blobrefs s !! b ∧ hs_blobmeta (forget s r) !! b = hs_blobmeta s !! b ∧ hs_blobs (forget s r) !! b = hs_blobs s !! b.
Proof.
  intros H. unfold forget. destruct (bool_decide_reflect (hr_blob_id r = "")) as [E|E]; [done|]. simpl. assert (hr_blob_id r ≠ b) by (destruct H; congruence).
  destruct (_ =? 0); rewrite ?lookup_delete_ne, ?lookup_insert_ne by done; done.
Qed.

(** Without a removal only the lineage is remembered. *)
Lemma tracks_kept s p t f l : tracks s p t →
  headOf s f = Some (ln_head l) → recoverableOf s f = ln_recoverable l → ln_count l = zcard (hs_versions t) f →
  tracks s {| pp_retained := pp_retained p; pp_plans := pp_plans p; pp_stale := pp_stale p; pp_files := <[f := l]> (pp_files p);
              pp_blobs := pp_blobs p |} t.
Proof.
  intros T H1 H2 H3. destruct T as [? ? ? ? ? Tf Tn ?]. split; try done; simpl.
  - intros f' l' [[<- <-]|[_ ?]]%lookup_insert_Some; [done|by apply Tf].
  - intros f' [? _]%lookup_insert_None. by apply Tn.
Qed.

Lemma tracks_stale s p t id : tracks s p t →
  tracks s {| pp_retained := pp_retained p; pp_plans := pp_plans p; pp_stale := pp_stale p ++ [id]; pp_files := pp_files p;
              pp_blobs := pp_blobs p |} (dropStale [id] t).
Proof.
  intros T. destruct T as [Tc Tr ? ? Tb ? ? ?]. split; try done; simpl.
  - intros k. destruct (decide (k = id)) as [->|Hne].
    + rewrite lookup_delete_eq. rewrite decide_True; [done|]. right. apply elem_of_app. right. by left.
    + rewrite lookup_delete_ne by done. rewrite Tr. repeat case_decide; try done; exfalso; set_solver.
Qed.

(** The blobs after a removal. *)
Lemma tracks_forget_blob s p t r blobs b : hist_ok s → hist_ok t → tracks s p t → hs_records s !! hr_id r = Some (Some r) →
  hs_records t !! hr_id r = Some (Some r) → releaseBlob s r (pp_blobs p) = Ok blobs → blobTracks s (forget t r) b (blobs !! b).
Proof.
  intros Hs Ht T Hr Hrt Hrel. pose proof (tk_blob _ _ _ T b) as HB. destruct (decide (hr_blob_id r = "" ∨ hr_blob_id r ≠ b)) as [H|H].
  - assert (blobs !! b = pp_blobs p !! b) as ->.
    { destruct (decide (hr_blob_id r = "")) as [E|E].
      - unfold releaseBlob in Hrel. rewrite bool_decide_eq_true_2 in Hrel by done. congruence.
      - rewrite (releaseBlob_ok s p t r) in Hrel by done. injection Hrel as <-. rewrite lookup_insert_ne; [done|]. destruct H; [done|congruence]. }
    assert (hr_blob_id r ≠ b ∨ b = "") as H' by (destruct H as [->|]; [destruct (decide (b = "")); [by right|left; congruence]|by left]).
    destruct (forget_other t r b H') as (E1 & E2 & E3). destruct (pp_blobs p !! b) as [bp|]; simpl in *; rewrite E1, E2, E3; [|done].
    destruct HB as (Hb & Ec & ?). split; [done|]. split; [|done]. rewrite (users_forget t (hr_id r) r b Hrt eq_refl), bool_decide_eq_false_2; [lia|].
    destruct H; congruence.
  - assert (hr_blob_id r ≠ "" ∧ hr_blob_id r = b) as [Hne <-] by (split; [tauto|destruct (decide (hr_blob_id r = b)); [done|tauto]]).
    rewrite (releaseBlob_ok s p t r) in Hrel by done. injection Hrel as <-. rewrite lookup_insert_eq. cbn [blobTracks bp_count bp_size].
    destruct (blob_size s r Hs Hr Hne) as (meta & Hm & Hsz). split; [done|].
    split; [by rewrite (users_forget t (hr_id r) r _ Hrt eq_refl), bool_decide_eq_true_2|]. split; [by exists meta|].
    assert (hs_blobmeta t !! hr_blob_id r = hs_blobmeta s !! hr_blob_id r ∧ hs_blobs t !! hr_blob_id r = hs_blobs s !! hr_blob_id r) as [E2 E3].
    { pose proof (users_pos t _ r Hrt). destruct (pp_blobs p !! hr_blob_id r) as [bp|]; simpl in HB; [|by destruct HB as (_ & ? & ?)].
      destruct HB as (_ & Ec & _ & _ & Em & Eb). rewrite Ec in *. by rewrite (proj2 (Z.eqb_neq _ _)) in Em, Eb by lia. }
    destruct (forget_blob t r _ Ht Hrt Hne) as [(? & _)|[(_ & Hn & F1 & F2 & F3)|(_ & Hn & F1 & F2 & F3)]]; [done| |]; rewrite F1, F2, F3.
    + rewrite (proj2 (Z.eqb_neq _ _)) by lia. done.
    + rewrite Hn. by rewrite !lookup_delete_eq.
Qed.

Lemma tracks_forget_physical s p t r blobs : hist_ok s → hist_ok t → tracks s p t → hs_records s !! hr_id r = Some (Some r) →
  hs_records t !! hr_id r = Some (Some r) → releaseBlob s r (pp_blobs p) = Ok blobs →
  physicalOf (forget t r) = physicalOf s - mapsum freed blobs.
Proof.
  intros Hs Ht T Hr Hrt Hrel. pose proof (tk_physical _ _ _ T) as Hp.
  change (physicalOf (forget t r)) with (if bool_decide (hr_blob_id r = "") then physicalOf t
    else if usersOf t (hr_blob_id r) =? 1 then physicalOf t - hr_size r else physicalOf t).
  destruct (bool_decide_reflect (hr_blob_id r = "")) as [E|E].
  { unfold releaseBlob in Hrel. rewrite bool_decide_eq_true_2 in Hrel by done. injection Hrel as <-. done. }
  rewrite (releaseBlob_ok s p t r) in Hrel by done. injection Hrel as <-. pose proof (users_pos t _ r Hrt).
  set (bp := Build_blobPlan _ _). assert (mapsum freed (<[hr_blob_id r := bp]> (pp_blobs p)) = mapsum freed (pp_blobs p) + freed bp) as ->.
  { pose proof (tk_blob _ _ _ T (hr_blob_id r)) as HB. destruct (pp_blobs p !! hr_blob_id r) as [b0|] eqn:Eb.
    - rewrite (mapsum_change _ _ _ b0) by done. destruct HB as (_ & Ec & _). assert (freed b0 = 0) as ->; [|lia].
      unfold freed. rewrite Ec. destruct (Z.eqb_spec (usersOf t (hr_blob_id r)) 0); [lia|done].
    - rewrite mapsum_insert by done. lia. }
  unfold freed at 2. cbn [bp_count bp_size bp]. destruct (Z.eqb_spec (usersOf t (hr_blob_id r)) 1); destruct (Z.eqb_spec (usersOf t (hr_blob_id r) - 1) 0); lia.
Qed.

Lemma tracks_forget s p t r l blobs : hist_ok s → hist_ok t → tracks s p t → hs_records s !! hr_id r = Some (Some r) →
  hs_records t !! hr_id r = Some (Some r) → headOf s (hr_file_id r) = Some (ln_head l) → recoverableOf s (hr_file_id r) = ln_recoverable l →
  ln_count l = zcard (hs_versions t) (hr_file_id r) → releaseBlob s r (pp_blobs p) = Ok blobs →
  tracks s {| pp_retained := pp_retained p - liveSize (Some r); pp_plans := pp_plans p ++ [r]; pp_stale := pp_stale p;
              pp_files := <[hr_file_id r := {| ln_head := ln_head l; ln_recoverable := ln_recoverable l; ln_count := ln_count l - 1 |}]> (pp_files p);
              pp_blobs := blobs |} (forget t r).
Proof.
  intros Hs Ht T Hr Hrt H1 H2 H3 Hrel. split.
  - cbn [pp_plans]. rewrite core_forget. unfold removeAll. rewrite foldl_app. apply core_remove, T.
  - intros k. cbn [pp_plans pp_stale]. rewrite map_app. transitivity (delete (hr_id r) (hs_retention t) !! k); [unfold forget; by destruct (bool_decide _)|].
    destruct (decide (k = hr_id r)) as [->|Hne].
    + rewrite lookup_delete_eq, decide_True; [done|]. left. apply elem_of_app. right. by left.
    + rewrite lookup_delete_ne, (tk_retention _ _ _ T) by done. simpl. repeat case_decide; try done; exfalso; set_solver.
  - unfold bytesOf. simpl. by rewrite <- (tk_bytes _ _ _ T).
  - by eapply tracks_forget_physical.
  - intros b. by eapply tracks_forget_blob.
  - cbn [pp_files]. intros f l' [[<- <-]|[Hne Hl]]%lookup_insert_Some; cbn [ln_head ln_recoverable ln_count]; rewrite forget_versions.
    + split_and!; [done..|]. rewrite zcard_zrem, decide_True by (done || rewrite (ho_version t Ht _ _ Hrt); eauto). lia.
    + destruct (tk_file _ _ _ T f l' Hl) as (? & ? & ->). split_and!; [done..|].
      rewrite zcard_zrem, decide_False by (done || rewrite (ho_version t Ht _ _ Hrt); eauto). done.
  - cbn [pp_files]. intros f [Hf Hne]%lookup_insert_None. rewrite forget_versions. unfold zrem. rewrite lookup_alter_ne by done. by apply (tk_fresh _ _ _ T).
  - cbn [pp_plans]. rewrite forget_records, length_app, map_size_delete_Some by eauto. pose proof (tk_count _ _ _ T).
    assert (size (hs_records t) ≠ 0%nat) by (intros E; apply map_size_empty_inv in E; by rewrite E in Hrt). simpl. lia.
Qed.

(** One candidate is planned as the sweep treats it. *)
Lemma planOne_tracks s lim p t id : hist_ok s → hist_ok t → tracks s p t → id ∉ map hr_id (pp_plans p) →
  ∃ p', planOne sha1hex s lim p id = Ok p' ∧ tracks s p' (sweepOne lim t id) ∧ (∀ k, k ∈ map hr_id (pp_plans p') → k = id ∨ k ∈ map hr_id (pp_plans p)).
Proof.
  intros Hs Ht T Hn. pose proof (tracks_record s p t id T Hn) as Et. unfold planOne, sweepOne. rewrite Et.
  destruct (hs_records s !! id) as [[r|]|] eqn:Er.
  2:{ by destruct (ho_record s Hs _ _ Er) as (? & ? & _). }
  2:{ eexists. split; [done|]. split; [by apply tracks_stale|auto]. }
  pose proof (record_good _ _ _ Hs Er) as Hg. rewrite Hg, keytypes_ok by apply Hs. simpl.
  replace (match hr_previous_path r with Some q => keytype s (KTimeline (sha1hex q)) | None => Ok () end) with (Ok (E := pruneError) ()).
  2:{ destruct (hr_previous_path r); [|done]. unfold keytype. by rewrite (ho_types s Hs). }
  simpl. destruct (lineage_ok s p t id r Hs T Er) as (l & -> & Hh & Hrec & Hc). simpl.
  assert (bool_decide (is_Some (ln_recoverable l)) || negb (hasBody r) = true) as ->.
  { destruct (hasBody r) eqn:Eb; [|apply orb_true_r]. rewrite bool_decide_eq_true_2; [done|]. rewrite <- Hrec. by eapply ho_body. }
  rewrite (bool_decide_eq_true_2 (zscore _ _ _ = _)) by (by apply ho_version). simpl.
  assert (bool_decide (id = ln_head l) || bool_decide (Some id = ln_recoverable l) = protectedIn t (hr_file_id r) id) as ->.
  { unfold protectedIn. destruct (tracks_files s p t (hr_file_id r) T) as [-> ->]. rewrite Hh, Hrec. f_equal; apply bool_decide_ext; split; congruence. }
  destruct (protectedIn t (hr_file_id r) id) eqn:Ep; simpl; [eexists; split; [done|]; split; [by apply tracks_kept|auto]|].
  assert (((0 <? lm_versions lim) && (lm_versions lim <? ln_count l)) || ((0 <? lm_age lim) && (hr_created_at r <? lm_cutoff lim)) ||
    ((0 <? lm_bytes lim) && (lm_bytes lim <? pp_retained p)) = excluded lim t r) as -> by (unfold excluded; by rewrite <- (tk_bytes _ _ _ T), Hc).
  destruct (excluded lim t r); [|eexists; split; [done|]; split; [by apply tracks_kept|auto]].
  pose proof (record_id _ _ _ Hs Er) as <-. pose proof (forget_ok t r Ht Et Ep) as Hf. pose proof (ho_bytes _ Hf) as [Hfb _].
  assert ((if hasBody r then pp_retained p - hr_size r else pp_retained p) = pp_retained p - liveSize (Some r)) as ->.
  { simpl. destruct (hasBody r); lia. }
  assert (0 ≤ pp_retained p - liveSize (Some r)) as H0.
  { rewrite <- (tk_bytes _ _ _ T). change (Some (bytesOf t - liveSize (Some r)) = Some (mapsum liveSize (hs_records (forget t r)))) in Hfb.
    assert (bytesOf t - liveSize (Some r) = mapsum liveSize (hs_records (forget t r))) as -> by congruence. apply mapsum_nonneg. intros k raw Hk. by eapply live_nonneg. }
  rewrite (proj2 (Z.leb_le _ _) H0). simpl.
  assert (∃ blobs, releaseBlob s r (pp_blobs p) = Ok blobs) as [blobs Hrel].
  { destruct (decide (hr_blob_id r = "")) as [E|E]; [exists (pp_blobs p); unfold releaseBlob; by rewrite bool_decide_eq_true_2|].
    eexists. exact (releaseBlob_ok s p t r Hs Ht T Er Et E). }
  rewrite Hrel. simpl. eexists. split; [done|]. split; [exact (tracks_forget s p t r l blobs Hs Ht T Er Et Hh Hrec Hc Hrel)|]. simpl. intros k. rewrite map_app, elem_of_app. intros [?|[->|[]%elem_of_nil]%elem_of_cons]; auto.
Qed.

Lemma planAll_tracks s lim p t ids : hist_ok s → hist_ok t → tracks s p t → NoDup ids → (∀ id, id ∈ ids → id ∉ map hr_id (pp_plans p)) →
  ∃ p', planAll sha1hex s lim p ids = Ok p' ∧ tracks s p' (sweep lim t ids).
Proof.
  intros Hs. revert p t. induction ids as [|id ids IH]; intros p t Ht T Hnd Hn; [by exists p|]. apply NoDup_cons in Hnd as [Hid Hnd].
  destruct (planOne_tracks s lim p t id Hs Ht T) as (p1 & E & T1 & Hsub); [by apply Hn; left|]. simpl. rewrite E. simpl.
  apply IH; [by apply sweepOne_ok|done|done|]. intros k Hk [->|?]%Hsub; [done|]. by apply (Hn k); [right|].
Qed.

(** ** The commands *)

Lemma removeAll_blobs s rs : hs_blobrefs (removeAll s rs) = hs_blobrefs s ∧ hs_blobmeta (removeAll s rs) = hs_blobmeta s ∧
  hs_blobs (removeAll s rs) = hs_blobs s ∧ ∀ k, hs_retention (removeAll s rs) !! k = if decide (k ∈ map hr_id rs) then None else hs_retention s !! k.
Proof.
  unfold removeAll. revert s. induction rs as [|r rs IH]; intros s; simpl; [done|].
  destruct (IH (removeRecord sha1hex s r)) as (E1 & E2 & E3 & E4). split_and!; [done..|]. intros k. rewrite E4. simpl.
  case_decide as H1; case_decide as H2; try done.
  - destruct H2. by right.
  - apply elem_of_cons in H2 as [->|?]; [by rewrite lookup_delete_eq|done].
  - rewrite lookup_delete_ne; [done|]. intros <-. destruct H2. by left.
Qed.

Lemma dropStale_retention ids s k : hs_retention (dropStale ids s) !! k = if decide (k ∈ ids) then None else hs_retention s !! k.
Proof.
  simpl. generalize (hs_retention s) as m. induction ids as [|id ids IH]; intros m; simpl; [done|]. rewrite IH.
  case_decide as H1; case_decide as H2; try done.
  - destruct H2. by right.
  - apply elem_of_cons in H2 as [->|?]; [by rewrite lookup_delete_eq|done].
  - rewrite lookup_delete_ne; [done|]. intros <-. destruct H2. by left.
Qed.

Lemma setBlobs_core (blobs : gmap string blobPlan) l s : let s' := foldl (λ s b, match blobs !! b with Some p => setBlob b (bp_count p) s | None => s end) s l in
  core s' = core s ∧ hs_retention s' = hs_retention s.
Proof.
  revert s. induction l as [|b l IH]; intros s; [done|]. simpl in *. destruct (blobs !! b); [|apply IH].
  destruct (IH (setBlob b (bp_count b0) s)) as [-> ->]. done.
Qed.

Lemma setBlobs_lookup (blobs : gmap string blobPlan) l s b : let s' := foldl (λ s b, match blobs !! b with Some p => setBlob b (bp_count p) s | None => s end) s l in
  match (if decide (b ∈ l) then blobs !! b else None) with
  | Some p => hs_blobrefs s' !! b = (if bp_count p =? 0 then None else Some (Some (bp_count p))) ∧
      hs_blobmeta s' !! b = (if bp_count p =? 0 then None else hs_blobmeta s !! b) ∧ hs_blobs s' !! b = (if bp_count p =? 0 then None else hs_blobs s !! b)
  | None => hs_blobrefs s' !! b = hs_blobrefs s !! b ∧ hs_blobmeta s' !! b = hs_blobmeta s !! b ∧ hs_blobs s' !! b = hs_blobs s !! b
  end.
Proof.
  revert s. induction l as [|k l IH]; intros s; simpl; [done|]. specialize (IH (match blobs !! k with Some p => setBlob k (bp_count p) s | None => s end)).
  destruct (decide (b = k)) as [->|Hne].
  - rewrite decide_True by by left. destruct (blobs !! k) as [p|] eqn:E.
    + simpl in IH. case_decide; destruct (bp_count p =? 0); rewrite ?lookup_delete_eq, ?lookup_insert_eq in IH; exact IH.
    + by case_decide.
  - replace (if decide (b ∈ k :: l) then blobs !! b else None) with (if decide (b ∈ l) then blobs !! b else None).
    2:{ repeat case_decide; try done; exfalso; set_solver. }
    destruct (blobs !! k) as [p|]; [|exact IH]. simpl in IH.
    destruct (if decide (b ∈ l) then blobs !! b else None); destruct (bp_count p =? 0); rewrite ?lookup_delete_ne, ?lookup_insert_ne in IH by done; exact IH.
Qed.

Lemma hist_eq s t : core s = core t → hs_retention s = hs_retention t → hs_bytes s = hs_bytes t → hs_physical s = hs_physical t →
  hs_blobrefs s = hs_blobrefs t → hs_blobmeta s = hs_blobmeta t → hs_blobs s = hs_blobs t → s = t.
Proof. destruct s, t. unfold core. simpl. intros [= -> -> -> -> -> -> -> -> ->] -> -> -> -> -> ->. done. Qed.

Lemma released_sum (blobs : gmap string blobPlan) : is_order keys → releasedPhysical keys blobs = mapsum freed blobs.
Proof.
  intros Hk. rewrite <- (mapsum_list freed blobs (keys _ blobs) (Hk _ _)). unfold releasedPhysical.
  match goal with |- foldl ?f _ ?l = foldl ?g _ _ => enough (∀ acc, foldl f acc l = foldl g acc l) as H by apply H; generalize l end.
  intros l. induction l as [|b l IH]; intros acc; [done|]. simpl.
  rewrite IH. f_equal. destruct (blobs !! b) as [p|]; [|done]. unfold freed. destruct (bp_count p =? 0); lia.
Qed.

(** What the commands leave is what the sweep leaves. *)
Lemma execute_tracks s p t cursor : is_order keys → tracks s p t → 0 ≤ pp_retained p →
  execute keys sha1hex p cursor (physicalOf s) s = settle cursor t.
Proof.
  intros Hk T H0. unfold execute. fold (removeAll s (pp_plans p)). set (u := removeAll s (pp_plans p)).
  destruct (removeAll_blobs s (pp_plans p)) as (U1 & U2 & U3 & U4). fold u in U1, U2, U3, U4.
  destruct (setBlobs_core (pp_blobs p) (keys _ (pp_blobs p)) u) as [V1 V2]. fold (setBlobs keys (pp_blobs p) u) in V1, V2.
  assert (∀ b, match pp_blobs p !! b with
    | Some q => hs_blobrefs (setBlobs keys (pp_blobs p) u) !! b = (if bp_count q =? 0 then None else Some (Some (bp_count q))) ∧
        hs_blobmeta (setBlobs keys (pp_blobs p) u) !! b = (if bp_count q =? 0 then None else hs_blobmeta s !! b) ∧
        hs_blobs (setBlobs keys (pp_blobs p) u) !! b = (if bp_count q =? 0 then None else hs_blobs s !! b)
    | None => hs_blobrefs (setBlobs keys (pp_blobs p) u) !! b = hs_blobrefs s !! b ∧
        hs_blobmeta (setBlobs keys (pp_blobs p) u) !! b = hs_blobmeta s !! b ∧ hs_blobs (setBlobs keys (pp_blobs p) u) !! b = hs_blobs s !! b
    end) as W.
  { intros b. pose proof (setBlobs_lookup (pp_blobs p) (keys _ (pp_blobs p)) u b) as W. fold (setBlobs keys (pp_blobs p) u) in W. cbv zeta in W.
    rewrite U1, U2, U3 in W. destruct (pp_blobs p !! b) as [q|] eqn:E; [|by destruct (decide _)].
    rewrite decide_True in W; [done|]. rewrite (Hk _ (pp_blobs p)). apply list_elem_of_fmap. exists (b, q). split; [done|]. by apply elem_of_map_to_list. }
  assert (∀ k, hs_retention (dropStale (pp_stale p) (setBlobs keys (pp_blobs p) u)) !! k = hs_retention t !! k) as HR.
  { intros k. rewrite dropStale_retention, V2, U4, (tk_retention _ _ _ T). repeat case_decide; try done; tauto. }
  apply hist_eq; simpl.
  - pose proof (tk_core _ _ _ T) as HC. fold u in HC. rewrite <- V1 in HC. revert HC. unfold core. simpl. congruence.
  - apply map_eq, HR.
  - f_equal. rewrite (tk_bytes _ _ _ T). lia.
  - f_equal. by rewrite released_sum, (tk_physical _ _ _ T).
  - apply map_eq. intros b. pose proof (tk_blob _ _ _ T b) as HB. specialize (W b). destruct (pp_blobs p !! b); simpl in HB.
    + destruct HB as (_ & _ & _ & -> & _). apply W.
    + destruct HB as (-> & _). apply W.
  - apply map_eq. intros b. pose proof (tk_blob _ _ _ T b) as HB. specialize (W b). destruct (pp_blobs p !! b); simpl in HB.
    + destruct HB as (_ & _ & _ & _ & -> & _). apply W.
    + destruct HB as (_ & -> & _). apply W.
  - apply map_eq. intros b. pose proof (tk_blob _ _ _ T b) as HB. specialize (W b). destruct (pp_blobs p !! b); simpl in HB.
    + destruct HB as (_ & _ & _ & _ & _ & ->). apply W.
    + destruct HB as (_ & _ & ->). apply W.
Qed.

(** ** The script *)

Definition limited (p : Policy) : Prop :=
  0 ≤ p_MaxVersions p ∧ 0 ≤ p_MaxAgeDays p ∧ 0 ≤ p_MaxBytes p ∧ ¬ (p_MaxVersions p = 0 ∧ p_MaxAgeDays p = 0 ∧ p_MaxBytes p = 0).

Lemma tracks_start s : tracks s {| pp_retained := bytesOf s; pp_plans := []; pp_stale := []; pp_files := ∅; pp_blobs := ∅ |} s.
Proof.
  split; simpl; try done.
  - unfold mapsum. rewrite map_fold_empty. lia.
  - lia.
Qed.

Lemma physical_nonneg s : hist_ok s → 0 ≤ physicalOf s.
Proof.
  intros Hs. unfold physicalOf. rewrite (ho_physical s Hs). apply mapsum_nonneg. intros b meta Hm.
  destruct (decide (b = "")) as [->|Hb]; [by rewrite (ho_noblob s Hs) in Hm|]. destruct (ho_blobs s Hs b Hb) as [_ K2 K3].
  destruct (decide (usersOf s b = 0)) as [E|E]; [destruct (K3 E); congruence|].
  destruct (K2 E) as (m & body & Hm' & _ & _ & ? & _). congruence.
Qed.

Lemma candidates_NoDup s c limit : NoDup (map fst (candidates s c limit)).
Proof.
  unfold candidates. assert (NoDup (map fst (filter (λ e, c < e.2) (insertion_sort entryLess (map_to_list (hs_retention s)))))) as H.
  { assert (NoDup (map fst (insertion_sort entryLess (map_to_list (hs_retention s))))) as H.
    { rewrite insertion_sort_perm. apply NoDup_fst_map_to_list. }
    revert H. generalize (insertion_sort entryLess (map_to_list (hs_retention s))). induction l as [|e l IH]; simpl; intros H; [done|].
    apply NoDup_cons in H as [Hn H]. rewrite filter_cons. case_decide; [|by apply IH]. simpl. apply NoDup_cons. split; [|by apply IH].
    intros (e' & E & [_ Hin]%list_elem_of_filter)%list_elem_of_fmap. apply Hn. rewrite E. by apply list_elem_of_fmap_2. }
  rewrite <- (take_drop limit (filter _ _)), map_app in H. by apply NoDup_app in H as (? & _ & _).
Qed.

Lemma prune_sweeps limit now s p c : is_order keys → hist_ok s → hs_policy s = Some (Some p) → limited p → counterValue (hs_cursor s) = Some c →
  let cs := candidates s c limit in
  let t := sweep (limitsOf p now) s (map fst cs) in
  let next := if Nat.ltb (length cs) limit then 0 else default c (snd <$> list.last cs) in
  pruneScript keys sha1hex limit now s =
    (Ok {| pr_Removed := Z.of_nat (size (hs_records s)) - Z.of_nat (size (hs_records t)); pr_Scanned := Z.of_nat (length cs);
           pr_More := negb (next =? 0) |}, settle next t).
Proof.
  intros Hk Hs Hp (H1 & H2 & H3 & H4) Hc. cbv zeta. unfold pruneScript. rewrite keytypes_ok by apply Hs. cbn [result_bind]. rewrite Hp.
  rewrite (proj2 (Z.leb_le _ _) H1), (proj2 (Z.leb_le _ _) H2), (proj2 (Z.leb_le _ _) H3). cbn [andb ensure result_bind].
  replace ((p_MaxVersions p =? 0) && (p_MaxAgeDays p =? 0) && (p_MaxBytes p =? 0)) with false.
  2:{ symmetry. apply not_true_iff_false. intros E. bools. apply H4. lia. }
  destruct (ho_bytes s Hs) as [Hb Hlt]. rewrite Hb, (proj2 (Z.ltb_lt _ _) Hlt). cbn [result_bind]. rewrite Hc. cbn [result_bind].
  rewrite (ho_physical s Hs). cbn [result_bind]. set (cs := candidates s c limit).
  replace (mapsum liveSize (hs_records s)) with (bytesOf s) by (unfold bytesOf; by rewrite Hb).
  replace (mapsum bm_size (hs_blobmeta s)) with (physicalOf s) by (unfold physicalOf; by rewrite (ho_physical s Hs)).
  destruct (planAll_tracks s (limitsOf p now) _ s (map fst cs) Hs Hs (tracks_start s)) as (q & -> & T);
    [apply candidates_NoDup|intros ? _ ?%elem_of_nil; done|]. cbn [result_bind].
  pose proof (sweep_ok (limitsOf p now) s (map fst cs) Hs) as Ht. set (t := sweep _ _ _) in *.
  pose proof (physical_nonneg t Ht) as Hphys. rewrite (tk_physical _ _ _ T) in Hphys.
  rewrite released_sum, (proj2 (Z.leb_le _ _)) by (done || lia). cbn [ensure result_bind].
  assert (0 ≤ pp_retained q) as H0.
  { rewrite <- (tk_bytes _ _ _ T). unfold bytesOf. rewrite (proj1 (ho_bytes t Ht)). apply mapsum_nonneg. intros. by eapply live_nonneg. }
  rewrite (execute_tracks s q t) by done. by rewrite (tk_count _ _ _ T).
Qed.

(** ** What a sweep leaves *)

Lemma sweepOne_files lim s id : hs_files (sweepOne lim s id) = hs_files s ∧ hs_policy (sweepOne lim s id) = hs_policy s.
Proof.
  unfold sweepOne. destruct (hs_records s !! id) as [[r|]|]; [|done|done]. destruct (_ && _); [|done].
  split; [apply forget_files|]. unfold forget. by destruct (bool_decide _).
Qed.

Lemma sweep_files lim s ids : hs_files (sweep lim s ids) = hs_files s ∧ hs_policy (sweep lim s ids) = hs_policy s.
Proof.
  unfold sweep. revert s. induction ids as [|id ids IH]; intros s; [done|]. simpl. destruct (IH (sweepOne lim s id)) as [-> ->]. apply sweepOne_files.
Qed.

Lemma sweepOne_record lim s id k q : hist_ok s → hs_records s !! k = Some (Some q) →
  hs_records (sweepOne lim s id) !! k = Some (Some q) ∨
  (id = k ∧ hs_records (sweepOne lim s id) !! k = None ∧ protectedIn s (hr_file_id q) k = false ∧ excluded lim s q = true).
Proof.
  intros Hs Hk. unfold sweepOne. destruct (hs_records s !! id) as [[r|]|] eqn:E; [|by left|by left].
  destruct (negb _ && _) eqn:Ec; [|by left]. pose proof (record_id _ _ _ Hs E) as <-. rewrite forget_records.
  destruct (decide (k = hr_id r)) as [->|Hne]; [|left; by rewrite lookup_delete_ne]. right. rewrite E in Hk. injection Hk as <-.
  rewrite lookup_delete_eq. bools. done.
Qed.

Lemma sweep_gone lim s ids k : hist_ok s → hs_records s !! k = None → hs_records (sweep lim s ids) !! k = None.
Proof.
  revert s. induction ids as [|id ids IH]; intros s Hs Hk; [done|]. apply IH; [by apply sweepOne_ok|]. unfold sweepOne.
  destruct (hs_records s !! id) as [[r|]|]; [|done|done]. destruct (_ && _); [|done]. rewrite forget_records. by apply lookup_delete_None; right.
Qed.

Lemma sweep_record lim s ids k q : hist_ok s → hs_records s !! k = Some (Some q) →
  hs_records (sweep lim s ids) !! k = Some (Some q) ∨
  (hs_records (sweep lim s ids) !! k = None ∧ protectedIn s (hr_file_id q) k = false ∧ ∃ n, excluded lim (sweep lim s (take n ids)) q = true).
Proof.
  revert s. induction ids as [|id ids IH]; intros s Hs Hk; [by left|]. pose proof (sweepOne_ok lim s id Hs) as Hs1.
  destruct (sweepOne_record lim s id k q Hs Hk) as [H1|(-> & Hn & Hp & He)].
  - destruct (IH _ Hs1 H1) as [|(Hn & Hp & n & He)]; [by left|]. right. split; [done|]. split; [|by exists (S n)].
    unfold protectedIn, headOf, recoverableOf in *. by rewrite (proj1 (sweepOne_files lim s id)) in Hp.
  - right. split; [exact (sweep_gone lim _ ids _ Hs1 Hn)|]. split; [done|]. by exists 0%nat.
Qed.

Lemma settle_ok c s : hist_ok s → hist_ok (settle c s).
Proof.
  intros Hs. pose proof (ho_bytes s Hs) as [Eb ?]. pose proof (ho_physical s Hs) as Ep. destruct Hs as [? ? ? ? ? ? ? ? Hb ? ?]. split; try done.
  - split; [|done]. simpl. unfold bytesOf. by rewrite Eb.
  - intros b Hne. by destruct (Hb b Hne).
  - simpl. unfold physicalOf. by rewrite Ep.
Qed.

(** A page either fails, or has nothing to do, or sweeps. *)
Lemma prune_cases limit now s : is_order keys → hist_ok s →
  (∃ e, pruneScript keys sha1hex limit now s = (Err e, s)) ∨ pruneScript keys sha1hex limit now s = (Ok nothingPruned, s) ∨
  (∃ p c, hs_policy s = Some (Some p) ∧ limited p ∧ counterValue (hs_cursor s) = Some c).
Proof.
  intros Hk Hs. destruct (pruneScript keys sha1hex limit now s) as [r s'] eqn:E. revert E. unfold pruneScript. rewrite keytypes_ok by apply Hs.
  cbn [result_bind]. destruct (hs_policy s) as [[p|]|]; [|intros [= <- <-]; eauto|intros [= <- <-]; auto].
  destruct ((0 <=? p_MaxVersions p) && (0 <=? p_MaxAgeDays p) && (0 <=? p_MaxBytes p)) eqn:E1; cbn [ensure result_bind]; [|intros [= <- <-]; eauto].
  destruct ((p_MaxVersions p =? 0) && (p_MaxAgeDays p =? 0) && (p_MaxBytes p =? 0)) eqn:E2; [intros [= <- <-]; auto|].
  destruct (ho_bytes s Hs) as [-> Hlt]. rewrite (proj2 (Z.ltb_lt _ _) Hlt). cbn [result_bind].
  destruct (counterValue (hs_cursor s)) as [c|]; [|intros [= <- <-]; eauto]. intros _. right. right. exists p, c. split; [done|]. split; [|done].
  split_and!; lia.
Qed.
End sweep.

Lemma pageLimit_pos limit : (0 < pageLimit limit ≤ 1000)%nat.
Proof. unfold pageLimit. destruct (Z.leb_spec limit 0); simpl; [lia|]. destruct (Z.ltb_spec 1000 limit); lia. Qed.

(** * Page after page *)

#[export] Instance entryLess_order : StrictWeak entryLess.
Proof.
  split.
  - intros [a x] [b y]. unfold entryLess. simpl. intros H. destruct (Z.ltb_spec x y); [destruct (Z.ltb_spec y x); [lia|]; destruct (Z.eqb_spec y x); [lia|done]|].
    simpl in H. destruct (Z.eqb_spec x y) as [->|]; [|done]. simpl in H. rewrite Z.ltb_irrefl, Z.eqb_refl. simpl. by apply sw_asym.
  - intros [a x] [b y] [c z]. unfold entryLess. simpl. intros H1 H2.
    assert (x ≤ y ∧ (x = y → stringLess b a = false)) as [L1 E1].
    { destruct (Z.ltb_spec y x); [done|]. split; [lia|]. intros ->. rewrite Z.eqb_refl in H1. done. }
    assert (y ≤ z ∧ (y = z → stringLess c b = false)) as [L2 E2].
    { destruct (Z.ltb_spec z y); [done|]. split; [lia|]. intros ->. rewrite Z.eqb_refl in H2. done. }
    destruct (Z.ltb_spec z x); [lia|]. destruct (Z.eqb_spec z x) as [->|]; [|done]. simpl.
    apply (sw_trans a b c); [apply E1|apply E2]; lia.
Qed.

Definition ordered (l : list (string * Z)) : Prop := StronglySorted (λ x y, entryLess y x = false) l.
Definition above (c : Z) (m : gmap string Z) : list (string * Z) := filter (λ e, c < e.2) (insertion_sort entryLess (map_to_list m)).

Lemma ordered_filter (P : string * Z → Prop) `{∀ e, Decision (P e)} l : ordered l → ordered (filter P l).
Proof.
  unfold ordered. induction 1 as [|e l Hl IH He]; [constructor|]. rewrite filter_cons. case_decide; [|done]. constructor; [done|].
  rewrite Forall_forall in *. intros e' [_ ?]%list_elem_of_filter. auto.
Qed.

Lemma above_ordered c m : ordered (above c m).
Proof. apply ordered_filter. exact (insertion_sort_sorted entryLess _). Qed.

Lemma above_elem c m k v : (k, v) ∈ above c m ↔ m !! k = Some v ∧ c < v.
Proof. unfold above. rewrite list_elem_of_filter, insertion_sort_perm, elem_of_map_to_list. simpl. tauto. Qed.

Lemma above_NoDup c m : NoDup (above c m).
Proof. unfold above. apply NoDup_filter. rewrite insertion_sort_perm. apply NoDup_map_to_list. Qed.

(** Every entry has a number of its own, from one on ([sequence] of the capture script). *)
Record sequenced (m : gmap string Z) : Prop := {
  sq_pos k v : m !! k = Some v → 0 < v;
  sq_inj k k' v : m !! k = Some v → m !! k' = Some v → k = k'
}.

Lemma sequenced_sub m m' : sequenced m → (∀ k v, m' !! k = Some v → m !! k = Some v) → sequenced m'.
Proof. intros [H1 H2] Hs. split; [intros k v ?%Hs; eauto|intros k k' v ?%Hs ?%Hs; eauto]. Qed.

(** Behind a full page come the entries above its last number. *)
Lemma above_split c m l k v rest : sequenced m → above c m = l ++ (k, v) :: rest → above v m = rest ∧ c < v ∧ ∀ k' v', (k', v') ∈ l → v' < v.
Proof.
  intros Hm E. pose proof (above_ordered c m) as Ho. rewrite E in Ho. unfold ordered in Ho.
  pose proof (above_NoDup c m) as Hn. rewrite E in Hn.
  assert (∀ e, e ∈ above c m → m !! e.1 = Some e.2 ∧ c < e.2) as Hel by (intros [k' v']; apply above_elem). rewrite E in Hel.
  assert (∀ e, e ∈ l ++ (k, v) :: rest → e.2 = v → e = (k, v)) as Hinj.
  { intros [k' v'] He Ev. simpl in Ev. subst v'. f_equal. apply (sq_inj m Hm _ _ v); [apply (Hel _ He)|]. apply (Hel (k, v)). set_solver. }
  destruct (Hel (k, v)) as [_ Hcv]; [set_solver|]. simpl in Hcv.
  assert (∀ e, e ∈ l → e.2 < v) as Hl.
  { intros e He. pose proof (StronglySorted_app_1_elem_of _ _ _ _ _ Ho He (list_elem_of_here _ _)) as Hless. unfold entryLess in Hless. simpl in Hless.
    destruct (Z.ltb_spec v e.2); [done|]. destruct (decide (e.2 = v)) as [Ev|]; [|lia]. exfalso.
    apply NoDup_app in Hn as (_ & Hd & _). apply (Hd e He). rewrite (Hinj e); [by left|set_solver|done]. }
  assert (∀ e, e ∈ rest → v < e.2) as Hr.
  { intros e He. apply StronglySorted_app_1_r, StronglySorted_inv in Ho as [_ Ho]. rewrite Forall_forall in Ho. specialize (Ho e He).
    unfold entryLess in Ho. simpl in Ho. destruct (Z.ltb_spec e.2 v); [done|]. destruct (decide (e.2 = v)) as [Ev|]; [|lia]. exfalso.
    apply NoDup_app in Hn as (_ & _ & Hn%NoDup_cons). apply Hn. rewrite <- (Hinj e); [done|set_solver|done]. }
  split; [|split; [done|intros k' v' H; exact (Hl _ H)]].
  transitivity (filter (λ e : string * Z, v < e.2) (above c m)).
  - unfold above. rewrite list_filter_filter. apply list_filter_iff. intros e. lia.
  - rewrite E, filter_app, filter_cons, decide_False by (simpl; lia).
    assert (filter (λ e : string * Z, v < e.2) l = []) as ->.
    { clear -Hl. induction l as [|e l IH]; [done|]. rewrite filter_cons, decide_False by (specialize (Hl e ltac:(by left)); lia).
      apply IH. intros e' He'. apply Hl. by right. }
    simpl. clear -Hr. induction rest as [|e rest IH]; [done|]. rewrite filter_cons, decide_True by (apply Hr; by left).
    f_equal. apply IH. intros e' He'. apply Hr. by right.
Qed.

(** What a sweep takes from the index is what it has looked at. *)
Lemma sweep_retention sha1hex lim s ids : hist_ok s →
  (∀ k v, hs_retention (sweep sha1hex lim s ids) !! k = Some v → hs_retention s !! k = Some v) ∧
  (∀ k, k ∉ ids → hs_retention (sweep sha1hex lim s ids) !! k = hs_retention s !! k).
Proof.
  revert s. induction ids as [|id ids IH]; intros s Hs; [done|]. pose proof (sweepOne_ok sha1hex lim s id Hs) as Hs1.
  destruct (IH _ Hs1) as [I1 I2]. change (sweep sha1hex lim s (id :: ids)) with (sweep sha1hex lim (sweepOne sha1hex lim s id) ids).
  assert (hs_retention (sweepOne sha1hex lim s id) = hs_retention s ∨ hs_retention (sweepOne sha1hex lim s id) = delete id (hs_retention s)) as E.
  { unfold sweepOne. destruct (hs_records s !! id) as [[r|]|] eqn:Er; [|by left|by right]. destruct (_ && _); [|by left].
    right. pose proof (record_id _ _ _ Hs Er) as <-. unfold forget. by destruct (bool_decide _). }
  split.
  - intros k v H%I1. destruct E as [E|E]; rewrite E in H; [done|]. by apply lookup_delete_Some in H as [_ ?].
  - intros k [Hne Hk]%not_elem_of_cons. rewrite I2 by done. destruct E as [-> | ->]; [done|]. by rewrite lookup_delete_ne.
Qed.

Lemma above_same v m m' : (∀ k w, m' !! k = Some w → m !! k = Some w) → (∀ k w, m !! k = Some w → v < w → m' !! k = Some w) →
  length (above v m') = length (above v m).
Proof.
  intros H1 H2. apply Permutation_length, NoDup_Permutation; [apply above_NoDup|apply above_NoDup|].
  intros [k w]. rewrite !above_elem. split; intros [? ?]; split; auto.
Qed.

Definition scanned (rs : list PruneResult) : Z := foldr (λ r n, pr_Scanned r + n) 0 rs.

Lemma page_step keys sha1hex limit now s p c : is_order keys → hist_ok s → hs_policy s = Some (Some p) → limited p →
  counterValue (hs_cursor s) = Some c → 0 ≤ c → sequenced (hs_retention s) →
  let n := length (above c (hs_retention s)) in
  ∃ r s', PrunePage keys sha1hex limit now s = (Ok r, s') ∧ pr_Scanned r = Z.of_nat (Nat.min (pageLimit limit) n) ∧
    hist_ok s' ∧ hs_policy s' = Some (Some p) ∧ sequenced (hs_retention s') ∧
    if (n <? pageLimit limit)%nat then pr_More r = false ∧ hs_cursor s' = Digits 0
    else ∃ c', pr_More r = true ∧ hs_cursor s' = Digits c' ∧ 0 ≤ c' ∧ length (above c' (hs_retention s')) = (n - pageLimit limit)%nat.
Proof.
  intros Hk Hs Hp Hl Hc H0 Hq. cbv zeta. pose proof (pageLimit_pos limit) as Hpos. unfold PrunePage.
  rewrite (prune_sweeps keys sha1hex (pageLimit limit) now s p c Hk Hs Hp Hl Hc). set (lim := pageLimit limit) in *.
  change (candidates s c lim) with (take lim (above c (hs_retention s))). set (cs := take lim _). set (t := sweep _ _ _ _). set (next := if Nat.ltb _ _ then _ else _).
  destruct (sweep_retention sha1hex (limitsOf p now) s (map fst cs) Hs) as [R1 R2]. fold t in R1, R2.
  eexists _, _. split; [reflexivity|]. split; [simpl; unfold cs; by rewrite length_take|]. split; [by apply settle_ok, sweep_ok|].
  split; [simpl; unfold t; by rewrite (proj2 (sweep_files _ _ _ _))|]. split; [by eapply sequenced_sub|].
  assert (length cs = Nat.min lim (length (above c (hs_retention s)))) as Hcs by (unfold cs; apply length_take).
  destruct (Nat.ltb_spec (length (above c (hs_retention s))) lim) as [Hlt|Hge].
  { assert (next = 0) as E by (unfold next; rewrite (proj2 (Nat.ltb_lt _ _)) by lia; done). simpl. by rewrite E. }
  assert (next = default c (snd <$> list.last cs)) as E by (unfold next; rewrite (proj2 (Nat.ltb_ge _ _)) by lia; done).
  destruct cs as [|e cs0 _] eqn:Ecs using rev_ind; [simpl in Hcs; lia|]. destruct e as [k v]. rewrite last_snoc in E. simpl in E.
  assert (above c (hs_retention s) = cs0 ++ (k, v) :: drop lim (above c (hs_retention s))) as Esplit.
  { rewrite <- (take_drop lim (above c (hs_retention s))) at 1. fold cs. rewrite Ecs. by rewrite <- app_assoc. }
  destruct (above_split _ _ _ _ _ _ Hq Esplit) as (Erest & Hv & Hlow). exists v. simpl. rewrite E.
  split; [destruct (Z.eqb_spec v 0); [lia|done]|]. split; [done|]. split; [lia|].
  rewrite (above_same v (hs_retention s)), Erest, length_drop; [done|exact R1|].
  intros k' w Hw Hvw. rewrite R2; [done|]. rewrite map_app, elem_of_app. simpl.
  assert (∀ w', (k', w') ∈ cs0 ++ [(k, v)] → False) as Hno.
  { intros w' Hin. assert ((k', w') ∈ above c (hs_retention s)) as [Hw' _]%above_elem.
    { rewrite Esplit. apply elem_of_app in Hin as [?|Hkw%list_elem_of_singleton]; apply elem_of_app; [by left|right; rewrite Hkw; by left]. }
    assert (w' = w) as -> by congruence. apply elem_of_app in Hin as [Hin|Hin%list_elem_of_singleton]; [specialize (Hlow _ _ Hin); lia|].
    injection Hin as -> ->. lia. }
  intros [([k1 w1] & -> & Hin)%list_elem_of_fmap| ->%list_elem_of_singleton]; eapply Hno; apply elem_of_app; [by left|right; by left].
Qed.

(** * Properties *)

(** C12: The script that plans first and removes afterwards does what a sweep does that
    looks at one version after the other and removes those the limits exclude in the
    history as it is then: same records, indexes, bodies, blobs and counters, and the
    number removed.  The plan's own copies of counts and of the retained bytes, and the
    validation of the whole page before the first command, make no difference. *)
Theorem prune_refines_sweep keys sha1hex limit now s p c : is_order keys → hist_ok s → hs_policy s = Some (Some p) → limited p →
  counterValue (hs_cursor s) = Some c →
  let cs := candidates s c (pageLimit limit) in
  let t := sweep sha1hex (limitsOf p now) s (map fst cs) in
  let next := if Nat.ltb (length cs) (pageLimit limit) then 0 else default c (snd <$> list.last cs) in
  PrunePage keys sha1hex limit now s =
    (Ok {| pr_Removed := Z.of_nat (size (hs_records s)) - Z.of_nat (size (hs_records t)); pr_Scanned := Z.of_nat (length cs);
           pr_More := negb (next =? 0) |}, settle next t).
Proof. apply prune_sweeps. Qed.

(** C19: Retention keeps the history sound: whatever a page answers, errors included, the
    byte counter is the sum of the bodies there are, every blob is counted by its users
    and the physical bytes are those of the blobs, the indexes fit the records, and the
    newest version and the newest recoverable one of every lineage are still there.
    A version that goes was neither, and the limits excluded it in the history as the
    sweep found it. *)
Theorem prune_keeps_history keys sha1hex limit now s : is_order keys → hist_ok s →
  let s' := (PrunePage keys sha1hex limit now s).2 in
  hist_ok s' ∧ hs_files s' = hs_files s ∧
  ∀ id q, hs_records s !! id = Some (Some q) →
    hs_records s' !! id = Some (Some q) ∨
    (hs_records s' !! id = None ∧ headOf s (hr_file_id q) ≠ Some id ∧ recoverableOf s (hr_file_id q) ≠ Some id ∧
     ∃ p ids, hs_policy s = Some (Some p) ∧ excluded (limitsOf p now) (sweep sha1hex (limitsOf p now) s ids) q = true).
Proof.
  intros Hk Hs. cbv zeta. unfold PrunePage. destruct (prune_cases keys sha1hex (pageLimit limit) now s Hk Hs) as [[e ->]|[->|(p & c & Hp & Hl & Hc)]];
    [by auto|by auto|]. rewrite (prune_sweeps keys sha1hex (pageLimit limit) now s p c Hk Hs Hp Hl Hc). cbn [snd].
  set (ids := map fst _). split; [by apply settle_ok, sweep_ok|]. split; [exact (proj1 (sweep_files sha1hex _ s ids))|]. intros id q Hq.
  destruct (sweep_record sha1hex (limitsOf p now) s ids id q Hs Hq) as [|(Hn & [? ?]%unprotected & n & He)]; [by left|].
  right. split; [done|]. split; [done|]. split; [done|]. by exists p, (take n ids).
Qed.

(** C34: Pruning gets around: with numbers of their own the entries above the cursor are
    each inspected once, page after page, although versions go meanwhile; [n / limit + 1]
    pages are enough, the last one says that nothing is left, and the cursor is back at
    the start.  ([pruneHistory] has 100 batches of 100.) *)
Theorem prune_gets_around keys sha1hex limit now batches s p c : is_order keys → hist_ok s → hs_policy s = Some (Some p) → limited p →
  counterValue (hs_cursor s) = Some c → 0 ≤ c → sequenced (hs_retention s) →
  let n := length (above c (hs_retention s)) in
  (n < batches * pageLimit limit)%nat →
  ∃ rs r s', pruneBatches keys sha1hex batches limit now s = (Ok (rs ++ [r]), s') ∧ pr_More r = false ∧
    length rs = (n / pageLimit limit)%nat ∧ scanned (rs ++ [r]) = Z.of_nat n ∧ hist_ok s' ∧ hs_cursor s' = Digits 0.
Proof.
  intros Hk. revert s c. induction batches as [|b IH]; intros s c Hs Hp Hl Hc H0 Hq; cbv zeta; intros Hn; [lia|].
  pose proof (pageLimit_pos limit) as Hpos. simpl.
  destruct (page_step keys sha1hex limit (now b) s p c Hk Hs Hp Hl Hc H0 Hq) as (r & s' & -> & Hsc & Hs' & Hp' & Hq' & Hr).
  destruct (Nat.ltb_spec (length (above c (hs_retention s))) (pageLimit limit)) as [Hlt|Hge].
  - destruct Hr as [Hm Hcur]. rewrite Hm. exists [], r, s'. split_and!; try done; [symmetry; by apply Nat.div_small|]. simpl. lia.
  - destruct Hr as (c' & -> & Hcur & Hc0 & Hn').
    destruct (IH s' c' Hs' Hp' Hl) as (rs & r' & s'' & -> & Hm & Hlen & Hsum & Hs'' & Hcur''); [by rewrite Hcur|done|done|lia|].
    exists (r :: rs), r', s''. split_and!; try done.
    + simpl. rewrite Hlen, Hn'. generalize dependent (length (above c (hs_retention s))). intros n. intros.
      transitivity (((n - pageLimit limit) + 1 * pageLimit limit) / pageLimit limit)%nat; [rewrite Nat.div_add by lia; lia|f_equal; lia].
    + change (scanned ((r :: rs) ++ [r'])) with (pr_Scanned r + scanned (rs ++ [r'])). lia.
Qed.

(** * Witnesses *)

(** The invariant as a test. *)
Definition rec_check (s : hist) (id : string) (raw : option historyRecord) : bool :=
  match raw with
  | None => false
  | Some r =>
      let stands p := match hs_records s !! p with
                      | Some (Some q) => bool_decide (hr_file_id q = hr_file_id r) && bool_decide (is_Some (zscore (hs_versions s) (hr_file_id r) p))
                      | _ => false end in
      goodRecord id r && bool_decide (zscore (hs_versions s) (hr_file_id r) id = Some (hr_version r)) &&
      match headOf s (hr_file_id r) with Some h => stands h | None => false end &&
      match recoverableOf s (hr_file_id r) with
      | Some p => stands p && match hs_records s !! p with Some (Some q) => negb (hr_deleted q) | _ => false end
      | None => negb (hasBody r) end &&
      (bool_decide (hr_blob_id r = "") ||
       (hasBody r && match hs_blobmeta s !! hr_blob_id r with Some m => hr_size r =? bm_size m | None => false end &&
        bool_decide (is_Some (hs_blobrefs s !! hr_blob_id r))))
  end.
Definition blob_check (s : hist) (b : string) (count : option Z) : bool :=
  bool_decide (count = Some (usersOf s b)) && negb (usersOf s b =? 0) &&
  match hs_blobmeta s !! b, hs_blobs s !! b with Some m, Some body => goodBackend m body && (0 <=? bm_size m) | _, _ => false end.
Definition hist_check (s : hist) : bool :=
  bool_decide (hs_wrong s = []) && forallb (λ e, rec_check s e.1 e.2) (map_to_list (hs_records s)) &&
  forallb (λ e, negb (bool_decide (e.1 = "")) && blob_check s e.1 e.2) (map_to_list (hs_blobrefs s)) &&
  forallb (λ e, bool_decide (is_Some (hs_blobrefs s !! e.1))) (map_to_list (hs_blobmeta s)) &&
  forallb (λ e, bool_decide (is_Some (hs_blobrefs s !! e.1))) (map_to_list (hs_blobs s)) &&
  bool_decide (counterValue (hs_bytes s) = Some (mapsum liveSize (hs_records s))) && (mapsum liveSize (hs_records s) <? historyLimit) &&
  bool_decide (counterValue (hs_physical s) = Some (mapsum bm_size (hs_blobmeta s))).

Lemma forallb_map {A} (f : string * A → bool) (m : gmap string A) k a : forallb f (map_to_list m) = true → m !! k = Some a → f (k, a) = true.
Proof. rewrite forallb_forall. intros H Ha. apply H, list_elem_of_In. by apply elem_of_map_to_list. Qed.

Lemma mapsum_zero {A} (w : A → Z) m : (∀ k a, m !! k = Some a → w a = 0) → mapsum w m = 0.
Proof.
  induction m as [|k a m Hn IH] using map_ind; intros Hw; [done|]. rewrite mapsum_insert by done. rewrite (Hw k a) by apply lookup_insert_eq.
  rewrite IH; [done|]. intros k' a' H. apply (Hw k'). rewrite lookup_insert_ne; congruence.
Qed.

Lemma blob_check_ok s b :
  (∀ id r, hs_records s !! id = Some (Some r) → rec_check s id (Some r) = true) → (∀ id raw, hs_records s !! id = Some raw → is_Some raw) →
  forallb (λ e, negb (bool_decide (e.1 = "")) && blob_check s e.1 e.2) (map_to_list (hs_blobrefs s)) = true →
  forallb (λ e, bool_decide (is_Some (hs_blobrefs s !! e.1))) (map_to_list (hs_blobmeta s)) = true →
  forallb (λ e, bool_decide (is_Some (hs_blobrefs s !! e.1))) (map_to_list (hs_blobs s)) = true → b ≠ "" → blob_ok s b.
Proof.
  intros HR HS Hrefs Hmeta Hblobs Hb.
  assert (∀ id r, hs_records s !! id = Some (Some r) → hr_blob_id r = b →
    is_Some (hs_blobrefs s !! b) ∧ ∃ m, hs_blobmeta s !! b = Some m ∧ hr_size r = bm_size m) as Huse.
  { intros id r Hr <-. pose proof (HR id r Hr) as Hc. unfold rec_check in Hc. rewrite (bool_decide_eq_false_2 _ Hb) in Hc. simpl in Hc. bools.
    destruct (hs_blobmeta s !! hr_blob_id r) as [m|]; [|done]. split; [done|]. exists m. split; [done|]. lia. }
  destruct (hs_blobrefs s !! b) as [o|] eqn:Eb.
  - pose proof (forallb_map _ _ _ _ Hrefs Eb) as Hc. unfold blob_check in Hc. simpl in Hc. bools. subst o.
    destruct (hs_blobmeta s !! b) as [m|] eqn:Em; [|done]. destruct (hs_blobs s !! b) as [body|] eqn:Ebody; [|done]. bools.
    assert (usersOf s b ≠ 0) as Hne by lia. split.
    + by rewrite Eb, (proj2 (Z.eqb_neq _ _) Hne).
    + intros _. exists m, body. split_and!; try done; [lia|]. intros id r Hr Hrb. destruct (Huse id r Hr Hrb) as (_ & m' & Hm' & ->). congruence.
    + done.
  - assert (usersOf s b = 0) as H0.
    { apply mapsum_zero. intros id raw Hr. destruct (HS id raw Hr) as [r ->]. simpl. case_bool_decide as E; [|done].
      by destruct (Huse id r Hr E) as [[? ?] _]. }
    split; [by rewrite Eb, H0|done|]. intros _. split.
    + destruct (hs_blobmeta s !! b) as [m|] eqn:Em; [|done]. pose proof (forallb_map _ _ _ _ Hmeta Em) as Hc. simpl in Hc. rewrite Eb in Hc. bools. by destruct Hc.
    + destruct (hs_blobs s !! b) as [m|] eqn:Em; [|done]. pose proof (forallb_map _ _ _ _ Hblobs Em) as Hc. simpl in Hc. rewrite Eb in Hc. bools. by destruct Hc.
Qed.

Lemma hist_check_ok s : hist_check s = true → hist_ok s.
Proof.
  unfold hist_check. intros H. repeat (apply andb_true_iff in H as [H ?]). apply bool_decide_eq_true in H.
  repeat match goal with H : bool_decide _ = true |- _ => apply bool_decide_eq_true in H end.
  rename H0 into Hphys, H1 into Hlt, H2 into Hbytes, H3 into Hblobs, H4 into Hmeta, H5 into Hrefs, H6 into Hrecs.
  assert (∀ id raw, hs_records s !! id = Some raw → ∃ r, raw = Some r ∧ rec_check s id (Some r) = true) as HR.
  { intros id raw Hr. pose proof (forallb_map _ _ _ _ Hrecs Hr) as Hc. simpl in Hc. destruct raw as [r|]; [by exists r|done]. }
  assert (∀ id r, hs_records s !! id = Some (Some r) → rec_check s id (Some r) = true) as HR'.
  { intros id r Hr. destruct (HR id _ Hr) as (r' & [= <-] & ?). done. }
  assert (∀ p f, match hs_records s !! p with
                 | Some (Some q) => bool_decide (hr_file_id q = f) && bool_decide (is_Some (zscore (hs_versions s) f p))
                 | _ => false end = true → stands s f p) as HS.
  { intros p f. destruct (hs_records s !! p) as [[q|]|] eqn:E; [|done|done]. intros. bools. by exists q. }
  split.
  - done.
  - intros id raw Hr. destruct (HR id raw Hr) as (r & -> & Hc). exists r. split; [done|]. unfold rec_check in Hc. by bools.
  - intros id r Hr. pose proof (HR' id r Hr) as Hc. unfold rec_check in Hc. by bools.
  - intros id r Hr. pose proof (HR' id r Hr) as Hc. unfold rec_check in Hc. bools. destruct (headOf s (hr_file_id r)) as [h|]; [|done]. exists h. auto.
  - intros id r p Hr Hp. pose proof (HR' id r Hr) as Hc. unfold rec_check in Hc. rewrite Hp in Hc. bools. split; [auto|].
    intros q Hq. rewrite Hq in *. by bools.
  - intros id r Hr Hb. pose proof (HR' id r Hr) as Hc. unfold rec_check in Hc. bools. destruct (recoverableOf s (hr_file_id r)); [done|]. by rewrite Hb in *.
  - intros id r Hr Hb. pose proof (HR' id r Hr) as Hc. unfold rec_check in Hc. rewrite (bool_decide_eq_false_2 _ Hb) in Hc. simpl in Hc. by bools.
  - split; [done|]. lia.
  - intros b Hb. apply blob_check_ok; try done. intros id raw Hr. destruct (HR id raw Hr) as (r & -> & _). done.
  - destruct (hs_blobmeta s !! "") as [m|] eqn:E; [|done]. pose proof (forallb_map _ _ _ _ Hmeta E) as Hc. simpl in Hc. bools.
    destruct Hc as [o Ho]. by pose proof (forallb_map _ _ _ _ Hrefs Ho) as Hc.
  - done.
Qed.

(** A history of one file with three versions, the first two with the same content. *)
Definition sampleVersion (id : string) (n : Z) (blob : string) (size : Z) : historyRecord :=
  {| hr_id := id; hr_file_id := "f"; hr_version := n; hr_path := "/a"; hr_previous_path := None; hr_type := "file"; hr_size := size;
     hr_deleted := false; hr_created_at := n; hr_blob_id := blob; hr_metadata_only := false |}.
Definition samplePolicy (versions : Z) : Policy :=
  {| p_Mode := ModeAll; p_Include := []; p_Exclude := []; p_MaxVersions := versions; p_MaxAgeDays := 0; p_MaxBytes := 0; p_MaxFileBytes := 0 |}.
Definition sampleIndex : gmap string Z := {["v1" := 1; "v2" := 2; "v3" := 3]}.
Definition sampleHist : hist :=
  {| hs_wrong := []; hs_policy := Some (Some (samplePolicy 2)); hs_retention := {["v1" := 1; "v2" := 2; "gone" := 3; "v3" := 4]};
     hs_cursor := Absent; hs_bytes := Digits 8;
     hs_records := {["v1" := Some (sampleVersion "v1" 1 "x" 3); "v2" := Some (sampleVersion "v2" 2 "x" 3); "v3" := Some (sampleVersion "v3" 3 "y" 2)]};
     hs_files := {["f" := (Some "v3", Some "v3")]}; hs_versions := {["f" := sampleIndex]}; hs_fileTimeline := {["f" := sampleIndex]};
     hs_timeline := {["/a" := sampleIndex]}; hs_bodies := ∅; hs_blobrefs := {["x" := Some 2; "y" := Some 1]};
     hs_blobmeta := {["x" := {| bm_size := 3; bm_ref := "ext" |}; "y" := {| bm_size := 2; bm_ref := "array" |}]};
     hs_blobs := {["x" := BString 3; "y" := BArray]}; hs_physical := Digits 5 |}.

Lemma sampleHist_ok : hist_ok sampleHist.
Proof. apply hist_check_ok. by vm_compute. Qed.

Lemma samplePolicy_limited n : 0 < n → limited (samplePolicy n).
Proof. intros H. unfold limited. simpl. lia. Qed.

(** The oldest version goes, its content stays for the second. *)
Example sampleHist_pruned : let r := PrunePage sample_keys id 2 10 sampleHist in
  r.1 = Ok {| pr_Removed := 1; pr_Scanned := 2; pr_More := true |} ∧ hs_records r.2 !! "v1" = None ∧
  hs_blobrefs r.2 !! "x" = Some (Some 1) ∧ hs_bytes r.2 = Digits 5 ∧ hs_physical r.2 = Digits 5.
Proof. by vm_compute. Qed.

Lemma prune_refines_sweep_witness :
  let cs := candidates sampleHist 0 (pageLimit 2) in
  let t := sweep id (limitsOf (samplePolicy 2) 10) sampleHist (map fst cs) in
  let next := if Nat.ltb (length cs) (pageLimit 2) then 0 else default 0 (snd <$> list.last cs) in
  PrunePage sample_keys id 2 10 sampleHist =
    (Ok {| pr_Removed := Z.of_nat (size (hs_records sampleHist)) - Z.of_nat (size (hs_records t)); pr_Scanned := Z.of_nat (length cs);
           pr_More := negb (next =? 0) |}, settle next t).
Proof.
  apply (prune_refines_sweep sample_keys id 2 10 sampleHist (samplePolicy 2) 0).
  - exact sample_keys_order.
  - exact sampleHist_ok.
  - reflexivity.
  - apply samplePolicy_limited. lia.
  - reflexivity.
Defined.

Lemma prune_keeps_history_witness :
  let s' := (PrunePage sample_keys id 2 10 sampleHist).2 in
  hist_ok s' ∧ hs_files s' = hs_files sampleHist ∧
  ∀ k q, hs_records sampleHist !! k = Some (Some q) →
    hs_records s' !! k = Some (Some q) ∨
    (hs_records s' !! k = None ∧ headOf sampleHist (hr_file_id q) ≠ Some k ∧ recoverableOf sampleHist (hr_file_id q) ≠ Some k ∧
     ∃ p ids, hs_policy sampleHist = Some (Some p) ∧ excluded (limitsOf p 10) (sweep id (limitsOf p 10) sampleHist ids) q = true).
Proof.
  apply (prune_keeps_history sample_keys id 2 10 sampleHist); [exact sample_keys_order|exact sampleHist_ok].
Defined.

Lemma sampleHist_sequenced : sequenced (hs_retention sampleHist).
Proof.
  assert (∀ k v, hs_retention sampleHist !! k = Some v → (k, v) ∈ [("v1", 1); ("v2", 2); ("gone", 3); ("v3", 4)]) as H.
  { intros k v Hk. simpl in Hk. repeat (apply lookup_insert_Some in Hk as [[<- <-]|[_ Hk]]; [set_solver|]). apply lookup_singleton_Some in Hk as [<- <-]. set_solver. }
  split.
  - intros k v Hk%H. repeat (apply elem_of_cons in Hk as [[= -> ->]|Hk]; [lia|]). by apply elem_of_nil in Hk.
  - intros k k' v Hk%H Hk'%H. repeat (apply elem_of_cons in Hk as [[= -> ->]|Hk]; [|]); try (by apply elem_of_nil in Hk);
      repeat (apply elem_of_cons in Hk' as [E|Hk']; [by simplify_eq|]); by apply elem_of_nil in Hk'.
Qed.

Lemma prune_gets_around_witness :
  let n := length (above 0 (hs_retention sampleHist)) in
  n = 4%nat ∧ ∃ rs r s', pruneBatches sample_keys id 3 2 (λ _, 10) sampleHist = (Ok (rs ++ [r]), s') ∧ pr_More r = false ∧
    length rs = (n / pageLimit 2)%nat ∧ scanned (rs ++ [r]) = Z.of_nat n ∧ hist_ok s' ∧ hs_cursor s' = Digits 0.
Proof.
  cbv zeta. split; [by vm_compute|]. apply (prune_gets_around sample_keys id 2 (λ _, 10) 3 sampleHist (samplePolicy 2) 0).
  - exact sample_keys_order.
  - exact sampleHist_ok.
  - reflexivity.
  - apply samplePolicy_limited. lia.
  - reflexivity.
  - lia.
  - exact sampleHist_sequenced.
  - vm_compute. lia.
Defined.
