(* ===== verification/HistoryQuery.v ===== *)
(** Queries of file history (internal/filehistory/query.go): the lineages and
    versions of a path, page by page, one version with its content, and the current
    path of a file.

    Every script is one command and sees one state.  A function that sends several
    commands takes the states they meet one after the other.  A record is what
    [json.Unmarshal] makes of it, and [None] when it is refused.  Paths are indexed
    under their SHA-1.  A private copy of a body can expire while it is read. *)
From Stdlib Require Import Strings.Byte.
From S2P Require Import Prelude Paths Content FsState FsTree FsScripts FsClient HistoryPolicy Retention RetentionProps.
#[local] Open Scope go_scope.
#[local] Open Scope string_scope.
#[local] Open Scope list_scope.
#[local] Open Scope Z_scope.

(** * Data *)

Record HistoryRecord := {
  rc_ID : string; rc_FileID : string; rc_Version : Z; rc_Path : string; rc_PreviousPath : string; rc_Operation : string;
  rc_Type : string; rc_Mode : Z; rc_Size : Z; rc_Target : string; rc_Deleted : bool; rc_CreatedAt : Z; rc_Origin : string;
  rc_ContentRef : string; rc_ContentHash : string; rc_PrevHash : string; rc_BlobID : string; rc_DeltaBytes : Z;
  rc_Source : string; rc_SessionID : string; rc_AgentID : string; rc_User : string; rc_CheckpointIDs : list string;
  rc_MetadataOnly : bool; rc_Sequence : Z
}.

(** The hash of a lineage. *)
Record lineageHash := { lh_head : option string; lh_recoverable : option string; lh_inode_id : option string }.

(** The keys the queries read.  [hq_bodies] has the bodies and blobs under the rest of
    their key, [hq_history_id] the field of that name of the inodes. *)
Record history (arr : Type) := {
  hq_fs : db arr;
  hq_history_id : gmap string string;
  hq_path : gmap string (gmap string Z);
  hq_timeline : gmap string (gmap string Z);
  hq_fileTimeline : gmap string (gmap string Z);
  hq_versions : gmap string (gmap string Z);
  hq_retention : gmap string Z;
  hq_records : gmap string (option HistoryRecord);
  hq_files : gmap string lineageHash;
  hq_bodies : gmap string (cell arr)
}.
Arguments hq_fs {arr} _.
Arguments hq_history_id {arr} _.
Arguments hq_path {arr} _.
Arguments hq_timeline {arr} _.
Arguments hq_fileTimeline {arr} _.
Arguments hq_versions {arr} _.
Arguments hq_retention {arr} _.
Arguments hq_records {arr} _.
Arguments hq_files {arr} _.
Arguments hq_bodies {arr} _.

Inductive queryError :=
| QBadPath (e : string)
| QBadCursor
| QNotExist
| QBadRecord
| QBodyMissing
| QBadSize
| QLoad (e : contentError)
| QPinExpired
| QBadHash
| QBadAncestry.

Record Page := { pg_Versions : list HistoryRecord; pg_FileID : string; pg_NextBefore : Z }.
Record Lineage := { li_FileID : string; li_Sequence : Z }.
Record LineagePage := { lp_Files : list Lineage; lp_NextBefore : Z }.
Record PathPageResult := { pr_Versions : list HistoryRecord; pr_NextCursor : string }.
Record pathCursor := { pc_FileID : string; pc_Ordinal : Z; pc_Sequence : Z }.

(** The text of a cursor: base64 of JSON.  A text that does not decode is [None]. *)
Class CursorCodec := {
  encodeCursor : pathCursor → string;
  decodeCursor : string → option pathCursor;
  encodeCursor_nonempty c : encodeCursor c ≠ "";
  decode_encodeCursor c : ascii_text (pc_FileID c) → decodeCursor (encodeCursor c) = Some c
}.

Definition pageLimit (limit : Z) : nat :=
  Z.to_nat (if limit <=? 0 then 50 else if 1000 <? limit then 1000 else limit).

Definition BodyKey (r : HistoryRecord) : string :=
  if bool_decide (rc_BlobID r = "") then "body:" +:+ rc_ID r else "blob:" +:+ rc_BlobID r.

(** * Sorted sets *)

(** [ZRANGEBYSCORE key (min +inf LIMIT 0 count], all of it for [min] zero, and the
    reverse order below [max]. *)
Definition zrange (m : gmap string Z) (min : Z) (count : nat) : list (string * Z) :=
  take count (filter (λ e, min = 0 ∨ min < e.2) (insertion_sort entryLess (map_to_list m))).
Definition zrevrange (m : gmap string Z) (max : Z) (count : nat) : list (string * Z) :=
  take count (filter (λ e, max = 0 ∨ e.2 < max) (insertion_sort (flip entryLess) (map_to_list m))).

Definition zset (index : gmap string (gmap string Z)) (k : string) : gmap string Z := default ∅ (index !! k).

(** Numbers of Lua's pattern [^%d+$]. *)
Definition isDigit (c : ascii) : bool := let n := nat_of_ascii c in (48 <=? n)%nat && (n <=? 57)%nat.
Definition allDigits (s : string) : bool := negb (bool_decide (s = "")) && forallb isDigit (String.list_ascii_of_string s).
Definition digitsValue (s : string) : Z :=
  foldl (λ n c, 10 * n + Z.of_nat (nat_of_ascii c - 48)) 0 (String.list_ascii_of_string s).

Section Query.
Context {arr : Type} {RA : RedisArray arr} {CC : CursorCodec} (sha1hex : string → string) (sha256hex : bytes → string) (arrays : bool).
Notation state := (history arr).

(** * Scripts *)

(** [liveFile]: the lineage of the inode the path leads to, through directories only. *)
Fixpoint liveInode (d : db arr) (inode : string) (parts : list string) : option string :=
  match parts with
  | [] => Some inode
  | part :: parts => match dirent d inode part with Some next => liveInode d next parts | None => None end
  end.
Definition liveFile (s : state) (path : string) : option string :=
  match liveInode (hq_fs s) "1" (filter (λ part, part ≠ "") (Split path "/")) with
  | Some inode => hq_history_id s !! inode
  | None => None
  end.

(** Where [table.insert] puts the live lineage: before the first older one. *)
Fixpoint insertLive (file : string) (sequence : Z) (values : list (string * Z)) : list (string * Z) :=
  match values with
  | [] => [(file, sequence)]
  | v :: values => if v.2 <? sequence then (file, sequence) :: v :: values else v :: insertLive file sequence values
  end.

Definition headVersion (s : state) (file : string) : option string := hq_files s !! file ≫= lh_head.

Definition lineagesScript (s : state) (path : string) (before : Z) (count : nat) : list (string * Z) :=
  let index := zset (hq_path s) (sha1hex path) in
  let values := zrevrange index before (S count) in
  match liveFile s path with
  | Some file =>
      if bool_decide (index !! file = None) then
        match headVersion s file ≫= λ head, hq_retention s !! head with
        | Some sequence => if (before =? 0) || (sequence <? before) then insertLive file sequence values else values
        | None => values
        end
      else values
  | None => values
  end.

(** The lineage a script works on: the given one when it belongs to the path, else
    the live one, else the newest. *)
Definition selectLineage (s : state) (path file : string) : option string :=
  let index := zset (hq_path s) (sha1hex path) in
  let live := liveFile s path in
  if bool_decide (file = "") then
    match live with Some f => Some f | None => fst <$> head (zrevrange index 0 1) end
  else if bool_decide (Some file ≠ live) && bool_decide (index !! file = None) then None
  else Some file.

Definition listScript (s : state) (path file : string) (before : Z) (count : nat) : option (string * list (option HistoryRecord)) :=
  match selectLineage s path file with
  | None => None
  | Some file =>
      let ids := map fst (zrevrange (zset (hq_versions s) file) before (S count)) in
      Some (file, omap (λ id, hq_records s !! id) ids)
  end.

(** What a selector names in a lineage. *)
Definition selectVersion (s : state) (file selector : string) : option string :=
  if bool_decide (selector = "" ∨ selector = "latest") then hq_files s !! file ≫= lh_recoverable
  else if allDigits selector then
    fst <$> head (filter (λ e, e.2 = digitsValue selector) (insertion_sort entryLess (map_to_list (zset (hq_versions s) file))))
  else Some selector.

(** A version whose body is pinned. *)
Definition wantsBody (r : HistoryRecord) : bool := bool_decide (rc_Type r = "file") && negb (rc_Deleted r) && negb (rc_MetadataOnly r).

(** The record and the private copy of its body. *)
Definition pinScript (s : state) (path file selector : string) : result queryError (option (HistoryRecord * cell arr)) :=
  match selectLineage s path file with
  | None => Ok None
  | Some file =>
      match selectVersion s file selector with
      | None => Ok None
      | Some id =>
          match hq_records s !! id with
          | None => Ok None
          | Some None => Err QBadRecord
          | Some (Some r) =>
              if negb (bool_decide (rc_FileID r = file)) then Ok None
              else if wantsBody r then
                match hq_bodies s !! (if bool_decide (rc_BlobID r = "") then "body:" +:+ id else "blob:" +:+ rc_BlobID r) with
                | Some c => Ok (Some (r, c))
                | None => Err QBodyMissing
                end
              else Ok (Some (r, CellNone))
          end
      end
  end.

Definition itemLess (desc : bool) (a b : option HistoryRecord * Z) : bool := if desc then b.2 <? a.2 else a.2 <? b.2.

(** The first of every identity, with its record. *)
Fixpoint freshItems (s : state) (seen : list string) (values : list (string * Z)) : list (option HistoryRecord * Z) :=
  match values with
  | [] => []
  | v :: values =>
      if bool_decide (v.1 ∈ seen) then freshItems s seen values
      else
        let rest := freshItems s (v.1 :: seen) values in
        match hq_records s !! v.1 with Some raw => (raw, v.2) :: rest | None => rest end
  end.

Definition pathPageScript `{!∀ desc, SliceSort (itemLess desc)} (s : state) (path : string) (limit : nat) (cursor : Z) (desc : bool) :
    list (option HistoryRecord) :=
  let candidates m := if desc then zrevrange m cursor (S limit) else zrange m cursor (S limit) in
  let values := candidates (zset (hq_timeline s) (sha1hex path)) ++
                match liveFile s path with Some file => candidates (zset (hq_fileTimeline s) file) | None => [] end in
  map fst (take (S limit) (sort_slice (less := itemLess desc) (freshItems s [] values))).

(** The loop of [currentPathScript]: 4098 turns are one more than the names it accepts. *)
Fixpoint ancestry (fuel : nat) (d : db arr) (inode : string) (parts seen : list string) : result queryError (list string) :=
  match fuel with
  | O => Err QBadAncestry
  | S fuel =>
      if bool_decide (inode = "1") then Ok parts
      else if bool_decide (inode ∈ seen) || (4096 <? Z.of_nat (length parts)) then Err QBadAncestry
      else match inodes d !! inode with
           | Some h => ancestry fuel d (h_parent h) (h_name h :: parts) (inode :: seen)
           | None => Err QNotExist
           end
  end.

Definition currentPathScript (s : state) (file : string) : result queryError string :=
  match hq_files s !! file ≫= lh_inode_id with
  | None => Err QNotExist
  | Some inode =>
      if negb (bool_decide (hq_history_id s !! inode = Some file)) then Err QNotExist
      else match ancestry (Z.to_nat 4098) (hq_fs s) inode [] [] with
           | Ok parts => Ok ("/" +:+ JoinWith "/" parts)
           | Err e => Err e
           end
  end.

(** * Functions *)

Definition onPath {A} (name : string) (k : string → result queryError A) : result queryError A :=
  match NormalizePath name with Ok p => k p | Err e => Err (QBadPath e) end.

Definition Lineages (s : state) (name : string) (limit before : Z) : result queryError LineagePage :=
  onPath name (λ path,
    if before <? 0 then Err QBadCursor
    else
      let n := pageLimit limit in
      let items := lineagesScript s path before n in
      let files := map (λ v, {| li_FileID := v.1; li_Sequence := v.2 |}) (take n items) in
      Ok {| lp_Files := files;
            lp_NextBefore := if (n <? length items)%nat then match last files with Some l => li_Sequence l | None => 0 end else 0 |}).

(** The records of a page, each readable. *)
Fixpoint readRecords (raws : list (option HistoryRecord)) : result queryError (list HistoryRecord) :=
  match raws with
  | [] => Ok []
  | None :: _ => Err QBadRecord
  | Some r :: raws => do rs <- readRecords raws; Ok (r :: rs)
  end.

Definition List (s : state) (name : string) (limit before : Z) (fileID : string) : result queryError Page :=
  onPath name (λ path,
    if before <? 0 then Err QBadCursor
    else
      let n := pageLimit limit in
      match listScript s path fileID before n with
      | None => Ok {| pg_Versions := []; pg_FileID := ""; pg_NextBefore := 0 |}
      | Some (file, raws) =>
          do versions <- readRecords (take n raws);
          Ok {| pg_Versions := versions; pg_FileID := file;
                pg_NextBefore := if (n <? length raws)%nat then match last versions with Some r => rc_Version r | None => 0 end else 0 |}
      end).

(** The content of a version from its private copy.  [pinned] says whether the copy is
    still there after it was read; when it is not, [other] is what the load has
    answered. *)
Definition readPinned (record : HistoryRecord) (pin : cell arr) (pinned : bool) (other : result contentError bytes) :
    result queryError (HistoryRecord * option bytes) :=
  if rc_Deleted record || rc_MetadataOnly record || negb (bool_decide (rc_Type record = "file")) then Ok (record, None)
  else if rc_Size record <? 0 then Err QBadSize
  else match (if pinned then Load arrays pin (rc_ContentRef record) (rc_Size record) else other) with
       | Err e => Err (QLoad e)
       | Ok data =>
           if negb pinned || negb (len data =? rc_Size record) then Err QPinExpired
           else if negb (bool_decide (rc_ContentHash record = "")) && negb (bool_decide (sha256hex data = rc_ContentHash record))
           then Err QBadHash
           else Ok (record, Some data)
       end.

Definition Get (s : state) (name selector fileID : string) (pinned : bool) (other : result contentError bytes) :
    result queryError (HistoryRecord * option bytes) :=
  onPath name (λ path,
    do reply <- pinScript s path fileID selector;
    match reply with
    | None => Err QNotExist
    | Some (record, pin) => readPinned record pin pinned other
    end).

Definition RecordByID (s : state) (versionID : string) : result queryError HistoryRecord :=
  match hq_records s !! versionID with
  | None => Err QNotExist
  | Some None => Err QBadRecord
  | Some (Some r) => Ok r
  end.

Definition RecordAtOrdinal (at_ : nat → state) (fileID : string) (ordinal : Z) : result queryError HistoryRecord :=
  if ordinal <=? 0 then Err QNotExist
  else match head (filter (λ e, e.2 = ordinal) (insertion_sort entryLess (map_to_list (zset (hq_versions (at_ 0%nat)) fileID)))) with
       | None => Err QNotExist
       | Some e => RecordByID (at_ 1%nat) e.1
       end.

Definition LineageHead (at_ : nat → state) (fileID : string) : result queryError HistoryRecord :=
  match headVersion (at_ 0%nat) fileID with None => Err QNotExist | Some head => RecordByID (at_ 1%nat) head end.

Definition CurrentPath (s : state) (fileID : string) : result queryError string := currentPathScript s fileID.

(** The sequence a cursor stands for; an old one names a version only. *)
Definition cursorSequence (at_ : nat → state) (cursor : string) : result queryError Z :=
  if bool_decide (cursor = "") then Ok 0
  else match decodeCursor cursor with
       | None => Err QBadCursor
       | Some c =>
           if bool_decide (pc_FileID c = "") || (pc_Ordinal c <=? 0) || (pc_Sequence c <? 0) then Err QBadCursor
           else if pc_Sequence c =? 0 then
             do record <- RecordAtOrdinal at_ (pc_FileID c) (pc_Ordinal c);
             if rc_Sequence record =? 0 then
               match hq_retention (at_ 2%nat) !! rc_ID record with Some score => Ok score | None => Err QNotExist end
             else Ok (rc_Sequence record)
           else Ok (pc_Sequence c)
       end.

Definition PathPage `{!∀ desc, SliceSort (itemLess desc)} (at_ : nat → state) (name : string) (limit : Z) (cursor : string)
    (newestFirst : bool) : result queryError PathPageResult :=
  onPath name (λ path,
    do before <- cursorSequence at_ cursor;
    let n := pageLimit limit in
    let items := pathPageScript (at_ 3%nat) path n before newestFirst in
    do versions <- readRecords (take n items);
    Ok {| pr_Versions := versions;
          pr_NextCursor := if (n <? length items)%nat then
                             match last versions with
                             | Some r => encodeCursor {| pc_FileID := rc_FileID r; pc_Ordinal := rc_Version r; pc_Sequence := rc_Sequence r |}
                             | None => ""
                             end
                           else "" |}).

(** A reader who follows the cursors: the versions of all pages, and whether the last
    page said that it is the last. *)
Fixpoint pathPages `{!∀ desc, SliceSort (itemLess desc)} (visits : list (nat → state)) (name : string) (limit : Z) (cursor : string)
    (newestFirst : bool) : result queryError (list HistoryRecord * bool) :=
  match visits with
  | [] => Ok ([], false)
  | at_ :: visits =>
      do page <- PathPage at_ name limit cursor newestFirst;
      if bool_decide (pr_NextCursor page = "") then Ok (pr_Versions page, true)
      else
        do rest <- pathPages visits name limit (pr_NextCursor page) newestFirst;
        Ok (pr_Versions page ++ rest.1, rest.2)
  end.
End Query.
