(* ===== verification/HistoryQueryProps.v ===== *)
(** File history as its readers see it: paging through the versions of a path
    misses and repeats nothing although versions come and go meanwhile (C6), a
    version is read with the content it was recorded with, and the current path of
    a file leads back to the file. *)
From Stdlib Require Import Strings.Byte.
From S2P Require Import Prelude Paths Content FsState FsTree FsScripts FsClient FsInv FsOps FsRange FsSpec Glob GlobProps HistoryPolicy Retention RetentionProps HistoryQuery.
#[local] Open Scope go_scope.
#[local] Open Scope string_scope.
#[local] Open Scope list_scope.
#[local] Open Scope Z_scope.

(** * The head of a sorted list *)

Section Sorted.
Context {A : Type} (key : A → Z).

Definition ranked (l : list A) : Prop := StronglySorted (λ x y, key x ≤ key y) l.

Lemma ranked_take n l : ranked l → ranked (take n l).
Proof.
  unfold ranked. intros H. revert n. induction H as [|x l Hl IH Hx]; intros [|n]; simpl; try constructor; [apply IH|].
  by apply Forall_take.
Qed.

Lemma ranked_filter (P : A → Prop) `{∀ x, Decision (P x)} l : ranked l → ranked (filter P l).
Proof.
  unfold ranked. induction 1 as [|x l Hl IH Hx]; [constructor|]. rewrite filter_cons. case_decide; [|done].
  constructor; [done|]. apply Forall_forall. intros y [_ Hy]%list_elem_of_filter. by eapply Forall_forall in Hx.
Qed.

(** What is not among the first [n] comes after all of them. *)
Lemma ranked_beyond n l e : ranked l → e ∈ l → e ∈ take n l ∨ length (take n l) = n ∧ ∀ x, x ∈ take n l → key x ≤ key e.
Proof.
  unfold ranked. intros H. revert n. induction H as [|x l Hl IH Hx]; intros n He; [by apply elem_of_nil in He|].
  destruct n as [|n]; [right; split; [done|]; by intros y ?%elem_of_nil|]. simpl.
  apply elem_of_cons in He as [->|He]; [left; by left|].
  destruct (IH n He) as [Hin|[Hn Hb]]; [left; by right|]. right. split; [by rewrite Hn|].
  intros y [->|Hy]%elem_of_cons; [by eapply Forall_forall in Hx|by apply Hb].
Qed.

(** Elements strictly below one of the first [n] are fewer than [n]. *)
Lemma ranked_count n l x ys : ranked l → x ∈ take n l → NoDup ys → (∀ y, y ∈ ys → y ∈ l ∧ key y < key x) → (length ys < n)%nat.
Proof.
  intros Hl Hx Hnd Hys. assert (length (x :: ys) ≤ length (take n l))%nat as Hle.
  { apply submseteq_length, NoDup_submseteq.
    - constructor; [|done]. intros Hin. destruct (Hys x Hin). lia.
    - intros y [->|Hy]%elem_of_cons; [done|]. destruct (Hys y Hy) as [Hin Hlt].
      destruct (ranked_beyond n l y Hl Hin) as [?|[_ Hb]]; [done|]. specialize (Hb x Hx). lia. }
  rewrite length_take in Hle. simpl in Hle. lia.
Qed.
End Sorted.

(** * The candidates of a page *)

#[export] Instance flip_order {A} (less : A → A → bool) `{!StrictWeak less} : StrictWeak (flip less).
Proof. split; unfold flip; [intros x y; apply sw_asym|intros x y z H1 H2; by apply (sw_trans z y x)]. Qed.

(** The place of a sequence in the direction of reading, and what lies behind a cursor. *)
Definition rank (desc : bool) (z : Z) : Z := if desc then - z else z.
Definition behind (desc : bool) (cursor z : Z) : Prop := cursor = 0 ∨ rank desc cursor < rank desc z.

#[export] Instance behind_dec desc cursor z : Decision (behind desc cursor z).
Proof. unfold behind. apply _. Defined.

Definition page_of (desc : bool) (m : gmap string Z) (cursor : Z) (count : nat) : list (string * Z) :=
  if desc then zrevrange m cursor count else zrange m cursor count.

Definition all_of (desc : bool) (m : gmap string Z) (cursor : Z) : list (string * Z) :=
  filter (λ e, behind desc cursor e.2) (if desc then insertion_sort (flip entryLess) (map_to_list m) else insertion_sort entryLess (map_to_list m)).

Lemma filter_same {A} (P Q : A → Prop) `{∀ x, Decision (P x)} `{∀ x, Decision (Q x)} (l : list A) :
  (∀ x, P x ↔ Q x) → filter P l = filter Q l.
Proof.
  intros HPQ. induction l as [|x l IH]; [done|]. rewrite !filter_cons, IH.
  destruct (decide (P x)) as [p|p], (decide (Q x)) as [q|q]; try done; by destruct p || destruct q; apply HPQ.
Qed.

Lemma page_take desc m cursor count : page_of desc m cursor count = take count (all_of desc m cursor).
Proof.
  unfold page_of, all_of, zrevrange, zrange. destruct desc; f_equal; apply filter_same; intros x; unfold behind, rank; lia.
Qed.

Lemma entry_le a b : entryLess a b = false → b.2 ≤ a.2.
Proof. unfold entryLess. intros H. apply orb_false_iff in H as [H _]. lia. Qed.

Lemma ranked_sorted {A} (less : A → A → bool) (key : A → Z) l : (∀ a b, less a b = false → key b ≤ key a) →
  StronglySorted (λ x y, less y x = false) l → ranked key l.
Proof.
  unfold ranked. intros Hk. induction 1 as [|x l Hl IH Hx]; [constructor|]. constructor; [done|].
  eapply Forall_impl; [exact Hx|]. intros y Hy. by apply Hk.
Qed.

Lemma all_ranked desc m cursor : ranked (λ e, rank desc e.2) (all_of desc m cursor).
Proof.
  apply ranked_filter. destruct desc; (eapply ranked_sorted; [|apply insertion_sort_sorted; apply _]); intros a b H; unfold rank.
  - apply entry_le in H. lia.
  - by apply entry_le.
Qed.

Lemma all_elem desc m cursor id z : (id, z) ∈ all_of desc m cursor ↔ m !! id = Some z ∧ behind desc cursor z.
Proof.
  unfold all_of. rewrite list_elem_of_filter. destruct desc; rewrite insertion_sort_perm, elem_of_map_to_list; simpl; tauto.
Qed.

Lemma all_ids_nodup desc m cursor count : NoDup (map fst (take count (all_of desc m cursor))).
Proof.
  assert (NoDup (map fst (all_of desc m cursor))) as H.
  { unfold all_of. assert (∀ l : list (string * Z), NoDup (map fst l) → NoDup (map fst (filter (λ e, behind desc cursor e.2) l))) as Hf.
    { induction l as [|e l IH]; intros Hl; [constructor|]. apply NoDup_cons in Hl as [Hn Hl]. rewrite filter_cons.
      case_decide; [|by apply IH]. simpl. apply NoDup_cons. split; [|by apply IH].
      intros (x & E & [_ Hx]%list_elem_of_filter)%list_elem_of_fmap. apply Hn, list_elem_of_fmap. eauto. }
    apply Hf. destruct desc; rewrite insertion_sort_perm; apply NoDup_fst_map_to_list. }
  change (NoDup (fst <$> take count (all_of desc m cursor))). rewrite fmap_take. eapply sublist_NoDup; [exact H|apply sublist_take].
Qed.

(** * A page *)

Section Pages.
Context {arr : Type} {RA : RedisArray arr} {CC : CursorCodec} (sha1hex : string → string).
Context {SS : ∀ desc, SliceSort (itemLess desc)}.
Notation state := (history arr).
Implicit Types s : state.

(** The versions of a path: those recorded under the path, and those of the file that
    is there now, whatever they were called. *)
Definition in_history s (path id : string) (z : Z) : Prop :=
  zset (hq_timeline s) (sha1hex path) !! id = Some z ∨
  ∃ file, liveFile s path = Some file ∧ zset (hq_fileTimeline s) file !! id = Some z.

(** What the capture script keeps: an indexed version has a record that bears its
    number, and no two versions have one number. *)
Record history_ok s (path : string) : Prop := {
  ho_record id z : in_history s path id z →
    ∃ r, hq_records s !! id = Some (Some r) ∧ rc_ID r = id ∧ rc_Sequence r = z ∧ 0 < z ∧
         rc_FileID r ≠ "" ∧ ascii_text (rc_FileID r) ∧ 0 < rc_Version r;
  ho_unique id id' z : in_history s path id z → in_history s path id' z → id = id'
}.

Definition page_values s (path : string) (count : nat) (cursor : Z) (desc : bool) : list (string * Z) :=
  page_of desc (zset (hq_timeline s) (sha1hex path)) cursor count ++
  match liveFile s path with Some file => page_of desc (zset (hq_fileTimeline s) file) cursor count | None => [] end.

Lemma page_values_sound s path count cursor desc id z : (id, z) ∈ page_values s path count cursor desc →
  in_history s path id z ∧ behind desc cursor z.
Proof.
  unfold page_values. intros [H|H]%elem_of_app.
  - rewrite page_take in H. apply elem_of_take in H as (k & H & _). apply list_elem_of_lookup_2, all_elem in H as [H ?].
    split; [by left|done].
  - destruct (liveFile s path) as [f|] eqn:E; [|by apply elem_of_nil in H].
    rewrite page_take in H. apply elem_of_take in H as (k & H & _). apply list_elem_of_lookup_2, all_elem in H as [H ?].
    split; [right; eauto|done].
Qed.

(** A version that is left out is behind a whole list of others. *)
Lemma page_values_complete s path count cursor desc id z : in_history s path id z → behind desc cursor z →
  (id, z) ∈ page_values s path count cursor desc ∨
  ∃ ys, NoDup (map fst ys) ∧ length ys = count ∧
        ∀ y, y ∈ ys → y ∈ page_values s path count cursor desc ∧ rank desc y.2 ≤ rank desc z.
Proof.
  intros H Hb. unfold page_values. assert (∀ (m : gmap string Z) (rest : list (string * Z)), m !! id = Some z → (∀ x, x ∈ page_of desc m cursor count → x ∈ rest) →
    (id, z) ∈ rest ∨ ∃ ys, NoDup (map fst ys) ∧ length ys = count ∧ ∀ y, y ∈ ys → y ∈ rest ∧ rank desc y.2 ≤ rank desc z) as Hone.
  { intros m rest Hm Hin. assert ((id, z) ∈ all_of desc m cursor) as Ha by (by apply all_elem).
    destruct (ranked_beyond _ count _ _ (all_ranked desc m cursor) Ha) as [Ht|[Hn Hle]].
    - left. apply Hin. by rewrite page_take.
    - right. exists (take count (all_of desc m cursor)). split_and!; [apply all_ids_nodup|done|].
      intros y Hy. split; [apply Hin; by rewrite page_take|by apply Hle]. }
  destruct H as [H|(f & E & H)].
  - apply (Hone _ _ H). intros x Hx. apply elem_of_app. by left.
  - rewrite E. apply (Hone _ _ H). intros x Hx. apply elem_of_app. by right.
Qed.

(** The items of a list of values all of which have records. *)
Lemma fresh_elem s values : ∀ seen raw z, (raw, z) ∈ freshItems s seen values →
  ∃ id, (id, z) ∈ values ∧ id ∉ seen ∧ hq_records s !! id = Some raw.
Proof.
  induction values as [|v values IH]; intros seen raw z; simpl; [by intros ?%elem_of_nil|].
  case_bool_decide as E; [intros H; destruct (IH _ _ _ H) as (id & ? & ? & ?); exists id; split_and!; [by right|done|done]|].
  intros H. assert ((raw, z) ∈ freshItems s (v.1 :: seen) values ∨ hq_records s !! v.1 = Some raw ∧ z = v.2) as [H'|[Hr ->]].
  { destruct (hq_records s !! v.1) as [raw'|]; [|by left]. apply elem_of_cons in H as [[= -> ->]|H]; [by right|by left]. }
  - destruct (IH _ _ _ H') as (id & ? & Hn & ?). exists id. split_and!; [by right|set_solver|done].
  - exists v.1. split_and!; [rewrite <- surjective_pairing; by left|done|done].
Qed.

Lemma fresh_complete s values : ∀ seen id z raw, (id, z) ∈ values → id ∉ seen → hq_records s !! id = Some raw →
  ∃ z', (raw, z') ∈ freshItems s seen values ∧ (id, z') ∈ values.
Proof.
  induction values as [|v values IH]; intros seen id z raw Hin Hn Hr; [by apply elem_of_nil in Hin|]. simpl.
  destruct (decide (v.1 = id)) as [E|E].
  - rewrite bool_decide_eq_false_2 by (by rewrite E). rewrite E, Hr. exists v.2. split; [by left|]. rewrite <- E, <- surjective_pairing. by left.
  - assert ((id, z) ∈ values) as Hin' by (apply elem_of_cons in Hin as [<-|?]; [done|done]).
    case_bool_decide as Es.
    + destruct (IH seen id z raw Hin' Hn Hr) as (z' & ? & ?). exists z'. split; [done|by right].
    + destruct (IH (v.1 :: seen) id z raw Hin') as (z' & ? & ?); [set_solver|done|]. exists z'. split; [|by right].
      destruct (hq_records s !! v.1); [by right|done].
Qed.

Lemma fresh_nodup s values : (∀ id id' z, (id, z) ∈ values → (id', z) ∈ values → id = id') →
  ∀ seen, NoDup (map snd (freshItems s seen values)).
Proof.
  intros Hu. induction values as [|v values IH]; intros seen; simpl; [constructor|].
  assert (∀ seen, NoDup (map snd (freshItems s seen values))) as IH' by (apply IH; intros id id' z ? ?; apply (Hu id id' z); by right).
  case_bool_decide; [apply IH'|]. destruct (hq_records s !! v.1); [|apply IH']. simpl. constructor; [|apply IH'].
  intros ([raw z] & Hz & H')%list_elem_of_fmap. simpl in Hz. subst z. apply fresh_elem in H' as (id & Hin & Hn & _).
  assert (id = v.1) as -> by (apply (Hu _ _ v.2); [by right|rewrite <- surjective_pairing; by left]). apply Hn. by left.
Qed.

Lemma item_le desc (a b : option HistoryRecord * Z) : itemLess desc a b = false → rank desc b.2 ≤ rank desc a.2.
Proof. unfold itemLess, rank. destruct desc; lia. Qed.

(** The items of a page, in the order the script gives them. *)
Definition page_items s (path : string) (limit : nat) (cursor : Z) (desc : bool) : list (option HistoryRecord * Z) :=
  sort_slice (less := itemLess desc) (freshItems s [] (page_values s path (S limit) cursor desc)).

Lemma page_items_script s path limit cursor desc :
  pathPageScript sha1hex s path limit cursor desc = map fst (take (S limit) (page_items s path limit cursor desc)).
Proof. unfold page_items, page_values, page_of, pathPageScript. by destruct desc, (liveFile s path). Qed.

Section One.
Context s path (limit : nat) (cursor : Z) (desc : bool) (Hok : history_ok s path).
Notation items := (page_items s path limit cursor desc).
Notation values := (page_values s path (S limit) cursor desc).

Lemma items_ranked : ranked (λ e, rank desc e.2) items.
Proof. eapply ranked_sorted; [|apply sort_slice_sorted]. apply item_le. Qed.

Lemma items_elem raw z : (raw, z) ∈ items ↔ (raw, z) ∈ freshItems s [] values.
Proof. unfold page_items. by rewrite sort_slice_perm. Qed.

Lemma items_sound raw z : (raw, z) ∈ items →
  ∃ r, raw = Some r ∧ rc_Sequence r = z ∧ in_history s path (rc_ID r) z ∧ behind desc cursor z ∧ 0 < z ∧
       rc_FileID r ≠ "" ∧ ascii_text (rc_FileID r) ∧ 0 < rc_Version r ∧ hq_records s !! rc_ID r = Some (Some r).
Proof.
  rewrite items_elem. intros (id & Hin & _ & Hr)%fresh_elem. apply page_values_sound in Hin as [Hin Hb].
  destruct (ho_record _ _ Hok _ _ Hin) as (r & Hr' & Hid & Hz & Hp & ? & ? & ?). assert (raw = Some r) as -> by congruence.
  subst id. exists r. by split_and!.
Qed.

Lemma items_value id z : (id, z) ∈ values → ∃ r, (Some r, z) ∈ items ∧ rc_ID r = id.
Proof.
  intros Hin. destruct (page_values_sound _ _ _ _ _ _ _ Hin) as [Hh _].
  destruct (ho_record _ _ Hok _ _ Hh) as (r & Hr & Hid & Hz & _).
  destruct (fresh_complete s values [] id z (Some r) Hin ltac:(apply not_elem_of_nil) Hr) as (z' & Hi & Hv).
  destruct (page_values_sound _ _ _ _ _ _ _ Hv) as [Hh' _]. destruct (ho_record _ _ Hok _ _ Hh') as (r' & Hr' & _ & Hz' & _).
  exists r. split; [|done]. rewrite items_elem. by replace z with z' by congruence.
Qed.

Lemma items_nodup : NoDup (map snd items).
Proof.
  unfold page_items. rewrite sort_slice_perm. apply fresh_nodup. intros id id' z H1 H2.
  apply page_values_sound in H1 as [H1 _]. apply page_values_sound in H2 as [H2 _]. by apply (ho_unique _ _ Hok _ _ z).
Qed.

(** Values of different versions are items of different numbers. *)
Lemma values_items ys : NoDup (map fst ys) → (∀ y, y ∈ ys → y ∈ values) →
  ∃ its, length its = length ys ∧ NoDup its ∧ ∀ it, it ∈ its → ∃ y, y ∈ ys ∧ y.2 = it.2 ∧ it ∈ items.
Proof.
  induction ys as [|[id z] ys IH]; intros Hnd Hin; [exists []; split_and!; [done|constructor|by intros it ?%elem_of_nil]|].
  simpl in Hnd. apply NoDup_cons in Hnd as [Hn Hnd]. destruct IH as (its & Hlen & Hnd' & Hits); [done|intros y Hy; apply Hin; by right|].
  destruct (items_value id z) as (r & Hi & Hid); [apply Hin; by left|].
  exists ((Some r, z) :: its). split_and!; [by simpl; rewrite Hlen| |].
  - constructor; [|done]. intros Hr. destruct (Hits _ Hr) as ([id' z'] & Hy & E & _). simpl in E. subst z'. apply Hn.
    assert (id' = id) as -> by (eapply (ho_unique _ _ Hok _ _ z); eapply page_values_sound; [apply Hin; by right|apply Hin; by left]).
    apply list_elem_of_fmap. by exists (id, z).
  - intros it [->|Hit]%elem_of_cons; [exists (id, z); split_and!; [by left|done|done]|].
    destruct (Hits it Hit) as (y & ? & ? & ?). exists y. split_and!; [by right|done|done].
Qed.

(** A version behind the cursor is in the page, or the page is full of others before it. *)
Lemma items_complete id z : in_history s path id z → behind desc cursor z →
  (∃ r, (Some r, z) ∈ take (S limit) items ∧ rc_ID r = id) ∨
  length (take (S limit) items) = S limit ∧ ∀ e, e ∈ take (S limit) items → rank desc e.2 < rank desc z.
Proof.
  intros Hh Hb. assert (∀ e, e ∈ items → e.2 = z → ∃ r, e.1 = Some r ∧ rc_ID r = id) as Hsame.
  { intros [raw z'] He Ez. simpl in Ez. subst z'. destruct (items_sound _ _ He) as (r & -> & _ & Hr & _). exists r. split; [done|].
    by apply (ho_unique _ _ Hok _ _ z). }
  assert (z ∈ map snd (take (S limit) items) → ∃ r, (Some r, z) ∈ take (S limit) items ∧ rc_ID r = id) as Hhit.
  { intros (e & -> & He)%list_elem_of_fmap. assert (e ∈ items) as Hi by (apply elem_of_take in He as (k & Hk & _); by eapply list_elem_of_lookup_2).
    destruct (Hsame e Hi eq_refl) as (r & E & Hr). exists r. split; [|done]. rewrite <- E. by destruct e. }
  destruct (page_values_complete s path (S limit) cursor desc id z Hh Hb) as [Hv|(ys & Hnd & Hn & Hys)].
  - destruct (items_value _ _ Hv) as (r & Hi & Hid).
    destruct (ranked_beyond _ (S limit) _ _ items_ranked Hi) as [Ht|[Hfull Hle]]; [left; eauto|].
    destruct (decide (z ∈ map snd (take (S limit) items))) as [Hz|Hz]; [by left; apply Hhit|]. right. split; [done|].
    intros e He. specialize (Hle e He). assert (e.2 ≠ z) by (intros <-; apply Hz, list_elem_of_fmap; eauto). cbn in Hle. unfold rank in *. destruct desc; lia.
  - destruct (decide (z ∈ map snd (take (S limit) items))) as [Hz|Hz]; [by left; apply Hhit|]. right.
    destruct (values_items ys Hnd) as (its & Hlen & Hnd' & Hits); [intros y Hy; by apply Hys|].
    assert (∀ it, it ∈ its → it ∈ items ∧ rank desc it.2 ≤ rank desc z) as Hin.
    { intros it Hit. destruct (Hits it Hit) as (y & Hy & E & Hi). split; [done|]. rewrite <- E. by apply Hys. }
    assert (length (take (S limit) items) = S limit) as Hfull.
    { rewrite length_take. assert (length its ≤ length items)%nat; [|lia].
      apply submseteq_length, NoDup_submseteq; [done|]. intros it Hit. by apply Hin. }
    split; [done|]. intros e He. destruct (decide (rank desc e.2 < rank desc z)) as [|Hge]; [done|]. exfalso.
    assert (e.2 ≠ z) by (intros <-; apply Hz, list_elem_of_fmap; eauto).
    assert (rank desc z < rank desc e.2) as Hlt by (unfold rank in *; destruct desc; lia).
    pose proof (ranked_count _ (S limit) items e its items_ranked He Hnd') as Hc.
    enough (length its < S limit)%nat by lia. apply Hc. intros it Hit. destruct (Hin it Hit). split; [done|lia].
Qed.
End One.
(** ** What [PathPage] answers *)

Definition rising (desc : bool) (zs : list Z) : Prop := StronglySorted (λ a b, rank desc a < rank desc b) zs.

Lemma ranked_rising desc (l : list (option HistoryRecord * Z)) : ranked (λ e, rank desc e.2) l → NoDup (map snd l) → rising desc (map snd l).
Proof.
  unfold ranked, rising. induction 1 as [|x l Hl IH Hx]; simpl; intros Hn; [constructor|].
  apply NoDup_cons in Hn as [Hn Hnd]. constructor; [by apply IH|]. apply Forall_forall. intros z (y & -> & Hy)%list_elem_of_fmap.
  eapply Forall_forall in Hx; [|exact Hy]. cbn in Hx.
  assert (x.2 ≠ y.2) by (intros E; apply Hn; rewrite E; apply list_elem_of_fmap; eauto). unfold rank in *. destruct desc; lia.
Qed.

Lemma rising_app desc xs ys : rising desc xs → rising desc ys → (∀ x y, x ∈ xs → y ∈ ys → rank desc x < rank desc y) → rising desc (xs ++ ys).
Proof.
  unfold rising. intros Hx Hy Hb. induction Hx as [|x xs Hxs IH Hx]; [done|]. simpl. constructor.
  - apply IH. intros a b Ha. apply Hb. by right.
  - apply Forall_app. split; [done|]. apply Forall_forall. intros y Hy'. apply Hb; [by left|done].
Qed.

Lemma rising_split desc xs ys x y : rising desc (xs ++ ys) → x ∈ xs → y ∈ ys → rank desc x < rank desc y.
Proof.
  unfold rising. induction xs as [|a xs IH]; intros H Hx Hy; [by apply elem_of_nil in Hx|]. simpl in H.
  inversion H as [|? ? Hs Hf]; subst. apply elem_of_cons in Hx as [->|Hx]; [|by apply IH].
  eapply Forall_forall in Hf; [exact Hf|]. apply elem_of_app. by right.
Qed.

Lemma rising_max desc zs l : rising desc zs → last zs = Some l → ∀ z, z ∈ zs → rank desc z ≤ rank desc l.
Proof.
  intros Hr Hl z Hz. apply last_Some in Hl as (xs & ->). apply elem_of_app in Hz as [Hz|Hz].
  - pose proof (rising_split desc xs [l] z l Hr Hz ltac:(by left)). lia.
  - apply list_elem_of_singleton in Hz as ->. done.
Qed.

(** [n] rising numbers above a bound end at least [n] above it. *)
Lemma rising_last desc zs b l : rising desc zs → (∀ z, z ∈ zs → b < rank desc z) → last zs = Some l →
  b + Z.of_nat (length zs) ≤ rank desc l.
Proof.
  unfold rising. intros H. revert b l. induction H as [|x zs Hzs IH Hx]; intros b l Hb Hl; [done|].
  specialize (Hb x ltac:(by left)). destruct zs as [|y zs]; [injection Hl as <-; simpl; lia|].
  pose proof (IH (rank desc x) l ltac:(by apply Forall_forall) Hl). cbn [length] in *. lia.
Qed.

(** One full page less. *)
Lemma page_count x y n m : 0 < n ≤ y → x ≤ y - n → Z.max 0 y / n < m + 1 → Z.max 0 x / n < m.
Proof.
  intros Hn Hxy Hm. assert (Z.max 0 x / n ≤ (y - n) / n) as Hle by (apply Z.div_le_mono; lia).
  replace (y - n) with (y + -1 * n) in Hle by lia. rewrite Z.div_add in Hle by lia. rewrite Z.max_r in Hm by lia. lia.
Qed.

Lemma page_records (l : list (option HistoryRecord * Z)) : (∀ raw z, (raw, z) ∈ l → ∃ r, raw = Some r ∧ rc_Sequence r = z) →
  ∃ rs, readRecords (map fst l) = Ok rs ∧ map rc_Sequence rs = map snd l ∧ ∀ r, r ∈ rs ↔ (Some r, rc_Sequence r) ∈ l.
Proof.
  induction l as [|[raw z] l IH]; intros H; [exists []; split_and!; [done|done|]; intros r; split; by intros ?%elem_of_nil|].
  destruct (H raw z) as (r & -> & Hz); [by left|]. destruct IH as (rs & E & Es & Hin); [intros; apply H; by right|].
  exists (r :: rs). simpl. rewrite E. split_and!; [done|by rewrite Hz, Es|]. intros x. rewrite !elem_of_cons, Hin. split.
  - intros [->|?]; [left; by rewrite Hz|by right].
  - intros [[= -> _]|?]; [by left|by right].
Qed.

Lemma queryLimit_pos limit : (0 < HistoryQuery.pageLimit limit)%nat.
Proof. unfold HistoryQuery.pageLimit. destruct (limit <=? 0) eqn:E; [lia|]. destruct (1000 <? limit) eqn:E2; lia. Qed.

(** A cursor stands for the number [c] at any moment. *)
Definition cursor_is (cursor : string) (c : Z) : Prop := 0 ≤ c ∧ ∀ at_ : nat → state, cursorSequence at_ cursor = Ok c.

Lemma cursor_start : cursor_is "" 0.
Proof. by split. Qed.

Lemma cursor_next r : rc_FileID r ≠ "" → ascii_text (rc_FileID r) → 0 < rc_Version r → 0 < rc_Sequence r →
  cursor_is (encodeCursor {| pc_FileID := rc_FileID r; pc_Ordinal := rc_Version r; pc_Sequence := rc_Sequence r |}) (rc_Sequence r).
Proof.
  intros Hf Ha Hv Hs. split; [lia|]. intros at_. unfold cursorSequence. rewrite bool_decide_eq_false_2 by apply encodeCursor_nonempty.
  rewrite decode_encodeCursor by done. simpl. rewrite bool_decide_eq_false_2 by done.
  replace (rc_Version r <=? 0) with false by lia. replace (rc_Sequence r <? 0) with false by lia.
  by replace (rc_Sequence r =? 0) with false by lia.
Qed.

(** A page from the cursor [c]: rising numbers behind it; when there is a next cursor the
    page is full and what is left out comes after it, else nothing is left out. *)
Record page_from s (path : string) (n : nat) (desc : bool) (c : Z) (page : PathPageResult) : Prop := {
  pf_rising : rising desc (map rc_Sequence (pr_Versions page));
  pf_sound r : r ∈ pr_Versions page → in_history s path (rc_ID r) (rc_Sequence r) ∧ behind desc c (rc_Sequence r) ∧ 0 < rc_Sequence r;
  pf_last : pr_NextCursor page = "" → ∀ id z, in_history s path id z → behind desc c z →
    ∃ r, r ∈ pr_Versions page ∧ rc_ID r = id ∧ rc_Sequence r = z;
  pf_more : pr_NextCursor page ≠ "" → length (pr_Versions page) = n ∧
    ∃ l, last (map rc_Sequence (pr_Versions page)) = Some l ∧ 0 < l ∧ cursor_is (pr_NextCursor page) l ∧
      ∀ id z, in_history s path id z → behind desc c z →
        (∃ r, r ∈ pr_Versions page ∧ rc_ID r = id ∧ rc_Sequence r = z) ∨ rank desc l < rank desc z
}.
Section Answer.
Context s path (n : nat) (cursor : Z) (desc : bool) (Hok : history_ok s path).
Notation items := (page_items s path n cursor desc).

Lemma take_in k (e : option HistoryRecord * Z) : e ∈ take k items → e ∈ items.
Proof. intros (j & Hj & _)%elem_of_take. by eapply list_elem_of_lookup_2. Qed.

Lemma taken_records k : ∃ rs, readRecords (map fst (take k items)) = Ok rs ∧ map rc_Sequence rs = map snd (take k items) ∧
  ∀ r, r ∈ rs ↔ (Some r, rc_Sequence r) ∈ take k items.
Proof. apply page_records. intros raw z Hin%take_in. destruct (items_sound _ _ _ _ _ Hok _ _ Hin) as (r & ? & ? & _). eauto. Qed.

Lemma taken_rising k : rising desc (map snd (take k items)).
Proof.
  apply ranked_rising; [apply ranked_take, items_ranked|]. eapply sublist_NoDup; [apply (items_nodup s path n cursor desc Hok)|].
  change (snd <$> take k items `sublist_of` snd <$> items). rewrite fmap_take. apply sublist_take.
Qed.

Lemma script_page (page : PathPageResult) rs : readRecords (map fst (take n items)) = Ok rs → map rc_Sequence rs = map snd (take n items) →
  (∀ r, r ∈ rs ↔ (Some r, rc_Sequence r) ∈ take n items) → (0 < n)%nat →
  page = {| pr_Versions := rs;
            pr_NextCursor := if (n <? length (take (S n) items))%nat then
                               match last rs with
                               | Some r => encodeCursor {| pc_FileID := rc_FileID r; pc_Ordinal := rc_Version r; pc_Sequence := rc_Sequence r |}
                               | None => ""
                               end
                             else "" |} →
  page_from s path n desc cursor page.
Proof.
  intros _ Hseq Hin Hn ->. assert (∀ r, r ∈ rs → in_history s path (rc_ID r) (rc_Sequence r) ∧ behind desc cursor (rc_Sequence r) ∧ 0 < rc_Sequence r ∧
      rc_FileID r ≠ "" ∧ ascii_text (rc_FileID r) ∧ 0 < rc_Version r) as Hs.
  { intros r Hr%Hin%take_in. destruct (items_sound _ _ _ _ _ Hok _ _ Hr) as (r' & [= <-] & ? & ? & ? & ? & ? & ? & ? & _). by split_and!. }
  assert (length rs = length (take n items)) as Hlen by (by rewrite <- (length_map rc_Sequence rs), Hseq, length_map).
  constructor; simpl.
  - rewrite Hseq. apply taken_rising.
  - intros r Hr. destruct (Hs r Hr) as (? & ? & ? & _). done.
  - intros Hc id z Hh Hb. assert (length (take (S n) items) ≤ n)%nat as Hle.
    { destruct (n <? length (take (S n) items))%nat eqn:E; [|lia]. destruct (last rs) as [r|] eqn:El; [by apply encodeCursor_nonempty in Hc|].
      apply last_None in El. subst rs. rewrite length_take in *. simpl in Hlen. lia. }
    destruct (items_complete s path n cursor desc Hok id z Hh Hb) as [(r & Hr & Hid)|[Hf _]]; [|lia].
    exists r. assert (rc_Sequence r = z) as Hz by (apply take_in in Hr; destruct (items_sound _ _ _ _ _ Hok _ _ Hr) as (r' & [= <-] & ? & _); done).
    split_and!; [|done|done]. apply Hin. rewrite Hz. rewrite length_take in Hle. rewrite take_ge in Hr by lia. by rewrite take_ge by lia.
  - destruct (n <? length (take (S n) items))%nat eqn:E; [|done]. intros _. rewrite length_take in E.
    assert (length rs = n) as Hfull by (rewrite Hlen, length_take; lia). split; [done|].
    destruct (last rs) as [r|] eqn:El; [|apply last_None in El; subst rs; simpl in Hfull; lia].
    destruct (Hs r) as (_ & _ & Hp & Hf & Ha & Hv); [by apply last_Some_elem_of|].
    exists (rc_Sequence r). split_and!; [change (last (rc_Sequence <$> rs) = Some (rc_Sequence r)); by rewrite fmap_last, El|done|by apply cursor_next|].
    intros id z Hh Hb. assert (∃ e, e ∈ take n items ∧ e.2 = rc_Sequence r) as (e & He & Ee).
    { exists (Some r, rc_Sequence r). split; [|done]. by apply Hin, last_Some_elem_of. }
    assert (take (S n) items = take n items ++ take 1 (drop n items)) as Et by (by rewrite take_take_drop, Nat.add_1_r).
    destruct (items_complete s path n cursor desc Hok id z Hh Hb) as [(x & Hx & Hid)|[_ Hall]].
    + assert (rc_Sequence x = z) as Hz by (apply take_in in Hx; destruct (items_sound _ _ _ _ _ Hok _ _ Hx) as (? & [= <-] & ? & _); done).
      rewrite Et in Hx. apply elem_of_app in Hx as [Hx|Hx]; [left; exists x; split_and!; [apply Hin; by rewrite Hz|done|done]|right].
      pose proof (taken_rising (S n)) as Hr. rewrite Et, map_app in Hr. rewrite <- Ee. eapply rising_split; [exact Hr|..]; apply list_elem_of_fmap; [by exists e|by exists (Some x, z)].
    + right. rewrite <- Ee. apply Hall. rewrite Et. apply elem_of_app. by left.
Qed.
End Answer.

Lemma PathPage_page (at_ : nat → state) name path limit cursor c desc : NormalizePath name = Ok path → history_ok (at_ 3%nat) path →
  cursor_is cursor c →
  ∃ page, PathPage sha1hex at_ name limit cursor desc = Ok page ∧ page_from (at_ 3%nat) path (HistoryQuery.pageLimit limit) desc c page.
Proof.
  intros Hn Hok [_ Hc]. unfold PathPage, onPath. rewrite Hn, Hc. cbn [result_bind]. rewrite page_items_script. set (n := HistoryQuery.pageLimit limit).
  destruct (taken_records _ path n c desc Hok n) as (rs & Hrs & Hseq & Hin).
  assert (take n (map fst (take (S n) (page_items (at_ 3%nat) path n c desc))) = map fst (take n (page_items (at_ 3%nat) path n c desc))) as ->.
  { change (take n (fst <$> take (S n) (page_items (at_ 3%nat) path n c desc)) = fst <$> take n (page_items (at_ 3%nat) path n c desc)).
    rewrite fmap_take, take_take, fmap_take. f_equal. lia. }
  rewrite Hrs. cbn [result_bind]. eexists. split; [done|]. eapply (script_page _ _ n c desc Hok _ rs); [done..|apply queryLimit_pos|].
  by rewrite length_map.
Qed.
(** ** Page after page *)

(** The bound behind which the numbers of at most [top] lie. *)
Definition bound (desc : bool) (top c : Z) : Z := if desc then if c =? 0 then - (top + 1) else - c else c.
Definition far_end (desc : bool) (top : Z) : Z := if desc then - 1 else top.

Lemma behind_bound desc top c z : 0 ≤ c → 0 < z ≤ top → behind desc c z → bound desc top c < rank desc z ≤ far_end desc top.
Proof. unfold behind, bound, far_end, rank. intros. destruct desc; [destruct (c =? 0) eqn:E|]; lia. Qed.

Lemma pages_from path name limit desc visits : NormalizePath name = Ok path →
  (∀ at_, at_ ∈ visits → history_ok (at_ 3%nat) path) → ∀ cursor c, cursor_is cursor c →
  ∃ rs done, pathPages sha1hex visits name limit cursor desc = Ok (rs, done) ∧ rising desc (map rc_Sequence rs) ∧
    (∀ r, r ∈ rs → behind desc c (rc_Sequence r) ∧ ∃ at_, at_ ∈ visits ∧ in_history (at_ 3%nat) path (rc_ID r) (rc_Sequence r)) ∧
    (done = true → ∀ id z, (∀ at_, at_ ∈ visits → in_history (at_ 3%nat) path id z) → behind desc c z →
       ∃ r, r ∈ rs ∧ rc_ID r = id ∧ rc_Sequence r = z) ∧
    (∀ top, (∀ at_ id z, at_ ∈ visits → in_history (at_ 3%nat) path id z → z ≤ top) →
       Z.max 0 (far_end desc top - bound desc top c) / Z.of_nat (HistoryQuery.pageLimit limit) < Z.of_nat (length visits) → done = true).
Proof.
  intros Hn. pose proof (queryLimit_pos limit) as Hpos. set (n := HistoryQuery.pageLimit limit) in *.
  induction visits as [|at_ visits IH]; intros Hok cursor c Hc.
  { exists [], false. simpl. split_and!; [done|constructor|by intros r ?%elem_of_nil|done|]. intros top _ H.
    assert (0 ≤ Z.max 0 (far_end desc top - bound desc top c) / Z.of_nat n) by (apply Z.div_pos; lia). lia. }
  destruct (PathPage_page at_ name path limit cursor c desc Hn (Hok _ ltac:(by left)) Hc) as (page & Hpage & [Hrise Hsound Hlast Hmore]).
  fold n in Hmore. simpl. rewrite Hpage. cbn [result_bind]. case_bool_decide as E.
  - exists (pr_Versions page), true. split_and!; [done|done| | |done].
    + intros r Hr. destruct (Hsound r Hr) as (? & ? & _). split; [done|]. exists at_. split; [by left|done].
    + intros _ id z Hh Hb. apply (Hlast E); [apply Hh; by left|done].
  - destruct (Hmore E) as (Hfull & l & Hl & Hlp & Hcur & Hrest).
    destruct (IH (λ a Ha, Hok a ltac:(by right)) _ l Hcur) as (rs & done & Hrs & Hrise2 & Hsound2 & Hcomp & Hterm).
    rewrite Hrs. cbn [result_bind fst snd]. exists (pr_Versions page ++ rs), done.
    assert (∀ z, z ∈ map rc_Sequence (pr_Versions page) → behind desc c z ∧ 0 < z) as Hz.
    { intros z (r & -> & Hr)%list_elem_of_fmap. by destruct (Hsound r Hr). }
    assert (∀ z, behind desc l z → rank desc l < rank desc z) as Hbl by (unfold behind; intros z; lia).
    assert (∀ z, z ∈ map rc_Sequence (pr_Versions page) → rank desc z ≤ rank desc l) as Hle by (by apply rising_max).
    assert (behind desc c l) as Hcl by (apply Hz; by apply last_Some_elem_of).
    split_and!; [done| | | |].
    + rewrite map_app. apply rising_app; [done..|]. intros x y Hx (r & -> & Hr)%list_elem_of_fmap.
      specialize (Hle x Hx). destruct (Hsound2 r Hr) as [Hb _]. apply Hbl in Hb. lia.
    + intros r [Hr|Hr]%elem_of_app; [destruct (Hsound r Hr) as (? & ? & _); split; [done|]; exists at_; split; [by left|done]|].
      destruct (Hsound2 r Hr) as (Hb & a & Ha & Hh). split; [|exists a; split; [by right|done]]. apply Hbl in Hb. unfold behind in *. lia.
    + intros Hd id z Hh Hb. destruct (Hrest id z (Hh _ ltac:(by left)) Hb) as [(r & Hr & ? & ?)|Hlt].
      * exists r. split_and!; [apply elem_of_app; by left|done|done].
      * destruct (Hcomp Hd id z) as (r & Hr & ? & ?); [intros a Ha; apply Hh; by right|by right|].
        exists r. split_and!; [apply elem_of_app; by right|done|done].
    + intros top Htop Hlen. apply (Hterm top); [intros a id z Ha; apply Htop; by right|].
      assert (∀ z, z ∈ map rc_Sequence (pr_Versions page) → bound desc top c < rank desc z ≤ far_end desc top) as Hbd.
      { intros z Hin. destruct (Hz z Hin) as [Hb Hp]. apply behind_bound; [apply Hc| |done]. split; [done|].
        apply list_elem_of_fmap in Hin as (r & -> & Hr). destruct (Hsound r Hr) as (Hh & _). by eapply Htop; [left|]. }
      destruct (Hbd l) as [_ Hfar]; [by apply last_Some_elem_of|].
      pose proof (rising_last desc _ (bound desc top c) l Hrise (λ z Hin, proj1 (Hbd z Hin)) Hl) as Hstep. rewrite length_map, Hfull in Hstep.
      apply (page_count _ (far_end desc top - bound desc top c) (Z.of_nat n)); [lia| |cbn [length] in Hlen; lia].
      replace (bound desc top l) with (rank desc l); [lia|]. unfold bound, rank. destruct desc; [|done]. by replace (l =? 0) with false by lia.
Qed.
End Pages.

(** * One version *)

Section Versions.
Context {arr : Type} {RA : RedisArray arr} {CC : CursorCodec} (sha1hex : string → string) (sha256hex : bytes → string).
Implicit Types s : history arr.

(** The version a selector names in a lineage of the path. *)
Definition selected s (path fileID selector : string) (r : HistoryRecord) : Prop :=
  ∃ file id, selectLineage sha1hex s path fileID = Some file ∧ selectVersion s file selector = Some id ∧
             hq_records s !! id = Some (Some r) ∧ rc_FileID r = file ∧ rc_ID r = id.

Lemma readPinned_data arrays x c pinned other r data : readPinned sha256hex arrays x c pinned other = Ok (r, Some data) →
  x = r ∧ wantsBody x = true ∧ pinned = true ∧ Load arrays c (rc_ContentRef x) (rc_Size x) = Ok data ∧ len data = rc_Size x ∧
  (rc_ContentHash x ≠ "" → sha256hex data = rc_ContentHash x).
Proof.
  unfold readPinned, wantsBody. destruct (rc_Deleted x), (rc_MetadataOnly x); try done. case_bool_decide; [|done].
  destruct (rc_Size x <? 0); [done|]. destruct pinned; [|by destruct other].
  destruct (Load arrays c (rc_ContentRef x) (rc_Size x)) as [d|]; [|done]. destruct (len d =? rc_Size x) eqn:Esz; [|done]. cbn [negb orb].
  destruct (negb (bool_decide (rc_ContentHash x = "")) && negb (bool_decide (sha256hex d = rc_ContentHash x))) eqn:Eh; [done|].
  intros [= <- <-]. split_and!; try done; [lia|]. intros Hh. rewrite bool_decide_eq_false_2 in Eh by done. cbn in Eh. by bools.
Qed.

(** What [Get] returns of a file is the content of the body the record names, at the
    moment of the script, with the recorded size and hash; the private copy was still
    there when it had been read. *)
Theorem get_returns_recorded s arrays name path fileID selector pinned other r data :
  NormalizePath name = Ok path → (∀ id x, hq_records s !! id = Some (Some x) → rc_ID x = id) →
  Get sha1hex sha256hex arrays s name selector fileID pinned other = Ok (r, Some data) →
  pinned = true ∧ selected s path fileID selector r ∧ wantsBody r = true ∧
  ∃ c, hq_bodies s !! BodyKey r = Some c ∧ Load arrays c (rc_ContentRef r) (rc_Size r) = Ok data ∧
       len data = rc_Size r ∧ (rc_ContentHash r ≠ "" → sha256hex data = rc_ContentHash r).
Proof.
  intros Hn Hid. unfold Get, onPath, pinScript. rewrite Hn.
  destruct (selectLineage sha1hex s path fileID) as [file|] eqn:El; [|done]. destruct (selectVersion s file selector) as [id|] eqn:Ev; [|done].
  destruct (hq_records s !! id) as [[x|]|] eqn:Er; [|done..]. case_bool_decide as Ef; cbn [negb]; [|done].
  pose proof (Hid _ _ Er) as Exid. destruct (wantsBody x) eqn:Ew; cbn [result_bind].
  - destruct (hq_bodies s !! _) as [c|] eqn:Eb; [|done]. intros (-> & _ & -> & ? & ? & ?)%readPinned_data.
    split_and!; [done|by exists file, id|done|]. exists c. split_and!; [|done..]. unfold BodyKey. by rewrite Exid.
  - intros (_ & Hw & _)%readPinned_data. congruence.
Qed.

(** [Get] answers the content a version was recorded with, as long as the private copy
    lives; when it expires there is an error, never other bytes. *)
Theorem get_is_exact s name path fileID selector r c content :
  NormalizePath name = Ok path → selected s path fileID selector r → wantsBody r = true →
  hq_bodies s !! BodyKey r = Some c → knownRef (rc_ContentRef r) = true → rc_Size r ≤ MaxArraySize → cell_repr (rc_ContentRef r) c (rc_Size r) content →
  rc_Size r = len content → (rc_ContentHash r = "" ∨ sha256hex content = rc_ContentHash r) →
  (∀ other, Get sha1hex sha256hex true s name selector fileID true other = Ok (r, Some content)) ∧
  ∀ other, ∃ e, Get sha1hex sha256hex true s name selector fileID false other = Err e.
Proof.
  intros Hn (file & id & El & Ev & Er & Ef & Eid) Hw Hb Hk Hmax Hrep Hsz Hh.
  assert (pinScript sha1hex s path fileID selector = Ok (Some (r, c))) as Hp.
  { unfold pinScript. rewrite El, Ev, Er, (bool_decide_eq_true_2 (rc_FileID r = file)), Hw by done. cbn [negb].
    unfold BodyKey in Hb. rewrite Eid in Hb. by rewrite Hb. }
  unfold wantsBody in Hw. pose proof (len_nonneg content).
  destruct (rc_Deleted r) eqn:Ed; [by rewrite andb_false_r in Hw|]. destruct (rc_MetadataOnly r) eqn:Em; [by rewrite andb_false_r in Hw|].
  destruct (bool_decide (rc_Type r = "file")) eqn:Et; [|done].
  unfold Get, onPath, readPinned. rewrite Hn, Hp. cbn [result_bind]. rewrite Ed, Em, Et. cbn [orb negb]. replace (rc_Size r <? 0) with false by lia.
  split; intros other; [|destruct other; by eexists]. rewrite (Load_repr _ _ _ _ Hk Hmax Hrep). cbn [orb negb].
  replace (len content =? rc_Size r) with true by lia. cbn [negb].
  assert (negb (bool_decide (rc_ContentHash r = "")) && negb (bool_decide (sha256hex content = rc_ContentHash r)) = false) as ->; [|done].
  destruct Hh as [E|E]; [by rewrite (bool_decide_eq_true_2 (rc_ContentHash r = ""))|].
  rewrite (bool_decide_eq_true_2 (sha256hex content = _)) by done. apply andb_false_r.
Qed.

(** * The current path *)

Lemma ancestry_path fuel (d : db arr) : ∀ inode parts seen res, path_loop fuel d inode parts seen = Some res → ancestry fuel d inode parts seen = Ok res.
Proof.
  induction fuel as [|fuel IH]; intros inode parts seen res H; [done|]. cbn [path_loop ancestry] in *.
  case_bool_decide; [case_bool_decide; [done|by injection H as <-]|].
  destruct (bool_decide (inode ∈ seen)); [done|]. cbn [orb] in *.
  destruct (4096 <=? Z.of_nat (length parts)) eqn:E; [done|]. replace (4096 <? Z.of_nat (length parts)) with false by lia.
  destruct (inodes d !! inode) as [h|]; [|done]. case_bool_decide; [by apply IH|done].
Qed.

Lemma liveInode_walk (d : db arr) parts : ∀ inode, liveInode d inode parts = walk_ids d inode parts.
Proof. induction parts as [|p parts IH]; intros inode; simpl; [done|]. destruct (dirent d inode p); [apply IH|done]. Qed.

(** [Split] gives the components of an absolute path behind an empty one. *)
Lemma split_abs parts : valid_names parts → filter (λ part, part ≠ "") (Split (abs parts) "/") = parts.
Proof.
  intros Hv. assert (Forall (λ w, no_char "/" w = true) parts ∧ filter (λ part, part ≠ "") parts = parts) as [Hc Hf].
  { unfold valid_names, valid_name in Hv. induction Hv as [|w ws Hw Hws IH]; [done|]. bools. destruct IH as [IH1 IH2].
    split; [by constructor|]. rewrite filter_cons, decide_True by done. by rewrite IH2. }
  destruct parts as [|w ws]; [reflexivity|]. change (abs (w :: ws)) with (JoinWith "/" ("" :: w :: ws)).
  rewrite Split_Join; [|done|by constructor]. rewrite filter_cons, decide_False by (intros H; by apply H). exact Hf.
Qed.

(** [CurrentPath] of a file that is there: in a sound workspace, for a lineage bound to a
    live inode no more than 4096 levels deep, it answers a path that leads to that inode,
    and the queries by that path find the lineage again. *)
Theorem current_path_leads_back s file inode :
  fs_inv (hq_fs s) → hq_files s !! file ≫= lh_inode_id = Some inode → hq_history_id s !! inode = Some file →
  is_Some (inodes (hq_fs s) !! inode) → (∀ n, depth (hq_fs s) inode n → Z.of_nat n ≤ 4096) →
  ∃ parts, CurrentPath s file = Ok (abs parts) ∧ walk_ids (hq_fs s) "1" parts = Some inode ∧
           (valid_names parts → liveFile s (abs parts) = Some file).
Proof.
  intros Hinv Hf Hh Hi Hdeep. destruct (rooted_depth _ _ Hinv Hi) as [n Hn]. specialize (Hdeep n Hn).
  destruct (path_loop_complete _ Hinv n (Z.to_nat 4098) inode [] [] Hn) as (parts & Hloop & _); [lia|simpl; lia|by intros x m ?%elem_of_nil|].
  rewrite app_nil_r in Hloop. exists parts.
  assert (walk_ids (hq_fs s) "1" parts = Some inode) as Hw by (by eapply path_loop_sound).
  split_and!; [|done|].
  - unfold CurrentPath, currentPathScript. rewrite Hf, (bool_decide_eq_true_2 (_ = Some file)) by done. cbn [negb].
    by rewrite (ancestry_path _ _ _ _ _ _ Hloop).
  - intros Hv. unfold liveFile. by rewrite split_abs, liveInode_walk, Hw.
Qed.
End Versions.

(** C6: paging through the history of a path.  A reader who follows the cursors,
    in either direction, while versions are recorded and pruned between any two
    commands, gets versions in strictly rising order of their numbers, so none
    twice, and each was in the history of the path when its page was read.  When the
    last page names no cursor, every version that was in the history all along has
    been listed.  If no number exceeds [top], the last page comes within
    top / limit + 1 pages. *)
Theorem history_pages_complete {arr} {CC : CursorCodec} (sha1hex : string → string) {SS : ∀ desc, SliceSort (itemLess desc)}
    (visits : list (nat → history arr)) name path limit newestFirst :
  NormalizePath name = Ok path → (∀ at_, at_ ∈ visits → history_ok sha1hex (at_ 3%nat) path) →
  ∃ versions done, pathPages sha1hex visits name limit "" newestFirst = Ok (versions, done) ∧
    rising newestFirst (map rc_Sequence versions) ∧
    (∀ r, r ∈ versions → ∃ at_, at_ ∈ visits ∧ in_history sha1hex (at_ 3%nat) path (rc_ID r) (rc_Sequence r)) ∧
    (done = true → ∀ id z, (∀ at_, at_ ∈ visits → in_history sha1hex (at_ 3%nat) path id z) →
       ∃ r, r ∈ versions ∧ rc_ID r = id ∧ rc_Sequence r = z) ∧
    (∀ top, 0 ≤ top → (∀ at_ id z, at_ ∈ visits → in_history sha1hex (at_ 3%nat) path id z → z ≤ top) →
       top / Z.of_nat (HistoryQuery.pageLimit limit) < Z.of_nat (length visits) → done = true).
Proof.
  intros Hn Hok. destruct (pages_from sha1hex path name limit newestFirst visits Hn Hok "" 0 cursor_start)
    as (versions & done & Hrun & Hrise & Hsound & Hcomp & Hterm).
  exists versions, done. split_and!; [done|done| | |].
  - intros r Hr. by destruct (Hsound r Hr) as [_ ?].
  - intros Hd id z Hh. apply (Hcomp Hd id z Hh). by left.
  - intros top Ht Htop Hlen. apply (Hterm top Htop). unfold far_end, bound. rewrite Z.eqb_refl.
    replace (Z.max 0 _) with top by (destruct newestFirst; lia). done.
Qed.

(** ** A concrete history *)

Fixpoint pos_text (p : positive) : string :=
  match p with xH => "1" | xO p => String "0" (pos_text p) | xI p => String "1" (pos_text p) end.
Fixpoint text_pos (s : string) : option positive :=
  match s with
  | EmptyString => None
  | String c EmptyString => if bool_decide (c = "1"%char) then Some xH else None
  | String c s => match text_pos s with Some p => Some (if bool_decide (c = "0"%char) then xO p else xI p) | None => None end
  end.

Lemma text_pos_text p : text_pos (pos_text p) = Some p.
Proof. induction p as [p IH|p IH|]; [| |done]; simpl; rewrite IH; by destruct p. Qed.

(** Cursors written in binary. *)
#[export] Instance sample_codec : CursorCodec.
Proof.
  refine {| encodeCursor c := pos_text (encode (pc_FileID c, pc_Ordinal c, pc_Sequence c));
            decodeCursor s := text_pos s ≫= λ p, decode p ≫= λ '(f, o, q), Some {| pc_FileID := f; pc_Ordinal := o; pc_Sequence := q |} |}.
  - intros c. by destruct (encode _).
  - intros [f o q] _. simpl. rewrite text_pos_text. simpl. by rewrite decode_encode.
Defined.

#[export] Instance itemLess_order desc : StrictWeak (itemLess desc).
Proof. split; unfold itemLess; destruct desc; lia. Qed.

#[export] Instance itemLess_sort desc : SliceSort (itemLess desc) := insertion_SliceSort (itemLess desc).

Definition sample_record (id : string) (z : Z) : HistoryRecord :=
  {| rc_ID := id; rc_FileID := "op-1"; rc_Version := z; rc_Path := "/f"; rc_PreviousPath := ""; rc_Operation := "write"; rc_Type := "file";
     rc_Mode := 420; rc_Size := 2; rc_Target := ""; rc_Deleted := false; rc_CreatedAt := 5; rc_Origin := ""; rc_ContentRef := "ext";
     rc_ContentHash := ""; rc_PrevHash := ""; rc_BlobID := ""; rc_DeltaBytes := 2; rc_Source := "mount"; rc_SessionID := ""; rc_AgentID := "";
     rc_User := ""; rc_CheckpointIDs := []; rc_MetadataOnly := false; rc_Sequence := z |}.

(** The versions [ids] of one file, which is at the path "/f". *)
Definition sample_history (ids : gmap string Z) : history (gmap Z bytes) :=
  {| hq_fs := Db ∅ {["1" := {["f" := "2"]}]} ∅ ∅ (InfoHash 0 0 0 0) None false None None ∅;
     hq_history_id := {["2" := "op-1"]}; hq_path := {["/f" := {["op-1" := 3]}]}; hq_timeline := {["/f" := ids]};
     hq_fileTimeline := {["op-1" := ids]}; hq_versions := {["op-1" := ids]}; hq_retention := ids;
     hq_records := map_imap (λ id z, Some (Some (sample_record id z))) ids;
     hq_files := {["op-1" := {| lh_head := Some "v3"; lh_recoverable := Some "v3"; lh_inode_id := Some "2" |}]};
     hq_bodies := {["body:v1" := CellStr [x01; x02]]} |}.

Lemma sample_in (ids : gmap string Z) id z : in_history (λ p, p) (sample_history ids) "/f" id z ↔ ids !! id = Some z.
Proof.
  unfold in_history. split; [intros [H|(f & Hf & H)]|left].
  - change ((zset {["/f" := ids]} "/f") !! id = Some z) in H. unfold zset in H. by rewrite lookup_singleton_eq in H.
  - assert (f = "op-1") as -> by (vm_compute in Hf; congruence).
    change ((zset {["op-1" := ids]} "op-1") !! id = Some z) in H. unfold zset in H. by rewrite lookup_singleton_eq in H.
  - change ((zset {["/f" := ids]} "/f") !! id = Some z). unfold zset. by rewrite lookup_singleton_eq.
Qed.

Lemma sample_ascii : ascii_text "op-1".
Proof. unfold ascii_text, ascii_codes. apply Forall_forall. intros c Hc. vm_compute in Hc.
  repeat (apply elem_of_cons in Hc as [->|Hc]; [lia|]). by apply elem_of_nil in Hc. Qed.

Lemma sample_ok (ids : gmap string Z) : (∀ id z, ids !! id = Some z → 0 < z) →
  (∀ id id' z, ids !! id = Some z → ids !! id' = Some z → id = id') → history_ok (λ p, p) (sample_history ids) "/f".
Proof.
  intros Hp Hu. constructor.
  - intros id z H%sample_in. exists (sample_record id z). split_and!; try done; try (by eapply Hp); [|apply sample_ascii].
    unfold sample_history. cbn [hq_records]. rewrite map_lookup_imap, H. done.
  - intros id id' z H%sample_in H'%sample_in. by apply (Hu _ _ z).
Qed.

Definition three_versions : gmap string Z := {["v1" := 1; "v2" := 2; "v3" := 3]}.
Definition two_versions : gmap string Z := {["v1" := 1; "v3" := 3]}.

Lemma three_in id z : three_versions !! id = Some z → (id, z) = ("v1", 1) ∨ (id, z) = ("v2", 2) ∨ (id, z) = ("v3", 3).
Proof.
  unfold three_versions. rewrite !lookup_insert_Some, lookup_singleton_Some. intros [[<- <-]|[_ [[<- <-]|[_ [<- <-]]]]]; auto.
Qed.

Lemma two_in id z : two_versions !! id = Some z → three_versions !! id = Some z.
Proof. unfold two_versions. rewrite lookup_insert_Some, lookup_singleton_Some. intros [[<- <-]|[_ [<- <-]]]; reflexivity. Qed.

Lemma sample_visits_ok at_ : at_ ∈ [(λ _ : nat, sample_history three_versions); (λ _, sample_history two_versions)] →
  history_ok (λ p, p) (at_ 3%nat) "/f" ∧ ∀ id z, in_history (λ p, p) (at_ 3%nat) "/f" id z → three_versions !! id = Some z.
Proof.
  assert (∀ id id' z, three_versions !! id = Some z → three_versions !! id' = Some z → id = id') as Hu.
  { intros id id' z H1%three_in H2%three_in. destruct H1 as [[= -> ->]|[[= -> ->]|[= -> ->]]], H2 as [[= ->]|[[= ->]|[= ->]]]; done. }
  assert (∀ id z, three_versions !! id = Some z → 0 < z) as Hp by (intros id z H%three_in; destruct H as [[= _ ->]|[[= _ ->]|[= _ ->]]]; lia).
  intros [->| ->%list_elem_of_singleton]%elem_of_cons.
  - split; [by apply sample_ok|]. intros id z. by rewrite sample_in.
  - split; [apply sample_ok; [intros id z H%two_in; by eapply Hp|intros id id' z H%two_in H'%two_in; by apply (Hu _ _ z)]|].
    intros id z. rewrite sample_in. apply two_in.
Qed.

(** Pages of two versions, newest first; the second version is pruned after the first
    page, which has listed it. *)
Lemma history_pages_complete_witness :
  ∃ versions, pathPages (λ p, p) [(λ _ : nat, sample_history three_versions); (λ _, sample_history two_versions)] "f" 2 "" true =
                Ok (versions, true) ∧
    (∃ r, r ∈ versions ∧ rc_ID r = "v1" ∧ rc_Sequence r = 1) ∧ ∃ r, r ∈ versions ∧ rc_ID r = "v3" ∧ rc_Sequence r = 3.
Proof.
  destruct (history_pages_complete (λ p, p) [(λ _ : nat, sample_history three_versions); (λ _, sample_history two_versions)] "f" "/f" 2 true)
    as (versions & done & Hrun & _ & _ & Hcomp & Hterm).
  - vm_compute. reflexivity.
  - intros at_ Hin. by apply sample_visits_ok.
  - assert (done = true) as ->.
    { apply (Hterm 3); [lia| |vm_compute; reflexivity]. intros at_ id z Hin Hh. apply sample_visits_ok in Hh; [|done].
      apply three_in in Hh as [[= _ ->]|[[= _ ->]|[= _ ->]]]; lia. }
    exists versions. split; [exact Hrun|].
    assert (∀ id z, two_versions !! id = Some z → ∃ r, r ∈ versions ∧ rc_ID r = id ∧ rc_Sequence r = z) as H.
    { intros id z Hz. apply (Hcomp eq_refl). intros at_ [->| ->%list_elem_of_singleton]%elem_of_cons; apply sample_in; [by apply two_in|done]. }
    split; apply H; reflexivity.
Defined.
