(* ===== verification/MountPlan.v ===== *)
(** The preflight of a mount: cmd/afs/mount_reconcile.go with the part of
    sync_lifecycle.go that acts on its plan, and the guard of the first sync
    (sync_daemon.go).  Both sides are scanned and compared, path by path, with the
    baseline of an earlier mount when there is one; the plan says what a recovery pass
    would do, and the mount goes on or is refused.

    [formatBytes] divides by powers of 1024 and rounds a half to the even digit, as
    [float64] and [%.1f] do for sizes below 2^53. *)
From stdpp Require Import pretty.
From S2P Require Import Prelude Paths SyncState SyncWorld SyncPlan ServerDiff.
#[local] Open Scope string_scope.
#[local] Open Scope list_scope.
#[local] Open Scope Z_scope.

#[local] Notation "x ← y ; z" := (bindE y (λ x, z))
  (at level 20, y at level 100, z at level 200, only parsing) : sync_scope.
#[local] Notation "x ⇐ y ; z" := (bindR y (λ x, z))
  (at level 20, y at level 100, z at level 200, only parsing) : sync_scope.
#[local] Open Scope sync_scope.

(** * Sizes as text *)

Definition roundHalfEven (n d : Z) : Z :=
  let q := n `div` d in
  let r := 2 * (n `mod` d) in
  if r <? d then q else if d <? r then q + 1 else if Z.even q then q else q + 1.

Definition fixed1 (n d : Z) : string :=
  let tenths := roundHalfEven (n * 10) d in
  pretty (tenths `div` 10) +:+ "." +:+ pretty (tenths `mod` 10).

Definition byteUnits : list string := ["KiB"; "MiB"; "GiB"; "TiB"; "PiB"].

(** [d] is the power of 1024 of the first unit of the list. *)
Fixpoint formatUnits (size d : Z) (units : list string) : string :=
  match units with
  | [] => ""
  | [u] => fixed1 size d +:+ " " +:+ u
  | u :: units => if d * 1024 <=? size then formatUnits size (d * 1024) units else fixed1 size d +:+ " " +:+ u
  end.

Definition formatBytes (size : Z) : string :=
  if size <? 1024 then pretty size +:+ " B" else formatUnits size 1024 byteUnits.

(** * The plan *)

Record mountReconcileOperation := { mo_Code : string; mo_Path : string; mo_Kind : string; mo_Details : string }.

Record mountReconcilePlan := {
  mp_LocalCount : Z;
  mp_RemoteCount : Z;
  mp_StateCount : Z;
  mp_StateLiveCount : Z;
  mp_StateDeletedCount : Z;
  mp_SameCount : Z;
  mp_ImportCount : Z;
  mp_UploadCount : Z;
  mp_DownloadCount : Z;
  mp_DeleteLocalCount : Z;
  mp_DeleteRemoteCount : Z;
  mp_ConflictCount : Z;
  mp_SkippedCount : Z;
  mp_Operations : list mountReconcileOperation;
  mp_Baseline : entries
}.

Inductive planCounter := NSame | NImport | NUpload | NDownload | NDeleteLocal | NDeleteRemote | NConflict | NSkipped.

#[export] Instance planCounter_eq_dec : EqDecision planCounter.
Proof. solve_decision. Defined.

(** A counter goes up by one, with an operation or a baseline entry or neither. *)
Definition tally (c : planCounter) (ops : list mountReconcileOperation) (base : entries → entries) (p : mountReconcilePlan) : mountReconcilePlan :=
  let up d n := if bool_decide (c = d) then n + 1 else n in
  {| mp_LocalCount := mp_LocalCount p; mp_RemoteCount := mp_RemoteCount p; mp_StateCount := mp_StateCount p;
     mp_StateLiveCount := mp_StateLiveCount p; mp_StateDeletedCount := mp_StateDeletedCount p;
     mp_SameCount := up NSame (mp_SameCount p); mp_ImportCount := up NImport (mp_ImportCount p);
     mp_UploadCount := up NUpload (mp_UploadCount p); mp_DownloadCount := up NDownload (mp_DownloadCount p);
     mp_DeleteLocalCount := up NDeleteLocal (mp_DeleteLocalCount p); mp_DeleteRemoteCount := up NDeleteRemote (mp_DeleteRemoteCount p);
     mp_ConflictCount := up NConflict (mp_ConflictCount p); mp_SkippedCount := up NSkipped (mp_SkippedCount p);
     mp_Operations := mp_Operations p ++ ops; mp_Baseline := base (mp_Baseline p) |}.

Definition addOperation (c : planCounter) (code path kind details : string) : mountReconcilePlan → mountReconcilePlan :=
  tally c [{| mo_Code := code; mo_Path := path; mo_Kind := kind; mo_Details := details |}] id.
Definition addSame : mountReconcilePlan → mountReconcilePlan := tally NSame [] id.
Definition addBaseline (path : string) (e : SyncEntry) : mountReconcilePlan → mountReconcilePlan := tally NSame [] (insert path e).

Definition hasReportableChanges (p : mountReconcilePlan) : bool :=
  (0 <? mp_ImportCount p) || (0 <? mp_UploadCount p) || (0 <? mp_DownloadCount p) || (0 <? mp_DeleteLocalCount p) ||
  (0 <? mp_DeleteRemoteCount p) || (0 <? mp_ConflictCount p) || (0 <? mp_SkippedCount p).

Definition requiresConfirmation (p : mountReconcilePlan) : bool :=
  if 0 <? mp_StateCount p then hasReportableChanges p
  else if mp_LocalCount p =? 0 then false
  else (0 <? mp_ImportCount p) || (0 <? mp_UploadCount p) || (0 <? mp_DownloadCount p) || (0 <? mp_SkippedCount p).

Record mountLocalSnapshot := { ml_Exists : bool; ml_EntryCount : Z }.

Definition mountPlanDeletesRemoteFromEmptyLocal (plan : mountReconcilePlan) (loc : mountLocalSnapshot) : bool :=
  (ml_EntryCount loc =? 0) && (mp_LocalCount plan =? 0) && (0 <? mp_RemoteCount plan) && (0 <? mp_StateCount plan) &&
  (0 <? mp_DeleteRemoteCount plan).

Definition mountPlanShouldResetEmptyLocalState (plan : mountReconcilePlan) (loc : mountLocalSnapshot) : bool :=
  if negb (mountPlanDeletesRemoteFromEmptyLocal plan loc) then false
  else negb (ml_Exists loc) || (mp_StateLiveCount plan =? 0).

Definition sortedMountReconcilePaths (loc rem : gmap string observedMeta) : list string :=
  insertion_sort stringLess (elements (dom loc ∪ dom rem)).
Definition sortedKnownMountReconcilePaths (loc rem : gmap string observedMeta) (known : entries) : list string :=
  insertion_sort stringLess (elements (dom loc ∪ dom rem ∪ dom known)).

(** * The display *)

Definition mountSyncStateDisplay (p : mountReconcilePlan) : string :=
  if mp_StateDeletedCount p =? 0 then pretty (mp_StateCount p)
  else pretty (mp_StateLiveCount p) +:+ " live, " +:+ pretty (mp_StateDeletedCount p) +:+ " deleted".

Definition mountOperationInlineDetail (op : mountReconcileOperation) : string :=
  if bool_decide (mo_Code op ∈ ["C"; "DC"; "UC"; "S"]) then TrimSpace (mo_Details op) else "".

Definition mountOperationPathDisplay (op : mountReconcileOperation) : string :=
  let path := TrimSpace (mo_Path op) in
  let path := if bool_decide (path = "") then "." else path in
  let path := if bool_decide (mo_Kind op = "dir") && bool_decide (TrimSuffix1 path slash = path) then path +:+ "/" else path in
  let detail := mountOperationInlineDetail op in
  if negb (bool_decide (detail = "")) then path +:+ " (" +:+ detail +:+ ")" else path.

Section mount.
Context {H : Hashing} {R : Type} {RC : RemoteClient R} {cfg : @SyncCfg R}.
#[local] Notation E := (SyncWorld.E R).

(** * Local entries *)

(** [countMountableLocalEntries]: the walk does not enter a control directory. *)
Definition mountable (p : string) : bool :=
  forallb (λ q, negb (bool_decide (Base q = syncControlDirName) || bool_decide (Base q = ".DS_Store"))) (ancestors p ++ [p]).
Definition inspectMountLocalRoot : E mountLocalSnapshot :=
  getE (λ g, match g_root g with
             | None => {| ml_Exists := false; ml_EntryCount := 0 |}
             | Some _ => {| ml_Exists := true; ml_EntryCount := Z.of_nat (length (filter (λ p, mountable p = true) (map fst (map_to_list (g_tree g))))) |}
             end).

(** * Comparing a path *)

Definition oversize (meta : observedMeta) : bool :=
  bool_decide (o_kind meta = "file") && (0 <? maxFileBytes) && (maxFileBytes <? o_size meta).
Definition oversizeDetails (meta : observedMeta) : string :=
  "local file is " +:+ formatBytes (o_size meta) +:+ "; exceeds sync cap " +:+ formatBytes maxFileBytes.

Definition addLocalOnly (path : string) (meta : observedMeta) : mountReconcilePlan → mountReconcilePlan :=
  if readonly then
    addOperation NSkipped "S" path (o_kind meta) "local only; mount is read-only — file stays local and is not uploaded"
  else if oversize meta then addOperation NSkipped "S" path (o_kind meta) (oversizeDetails meta)
  else addOperation NImport "I" path (o_kind meta) "local only; upload to workspace".

Definition addKnownUpload (path : string) (meta : observedMeta) : mountReconcilePlan → mountReconcilePlan :=
  if readonly then
    addOperation NSkipped "S" path (o_kind meta)
      "local changed while unmounted; mount is read-only — local divergence kept, remote unchanged"
  else if oversize meta then addOperation NSkipped "S" path (o_kind meta) (oversizeDetails meta)
  else addOperation NUpload "U" path (o_kind meta) "local changed while unmounted; upload to workspace".

Definition addConflict (path details : string) : mountReconcilePlan → mountReconcilePlan :=
  addOperation NConflict "C" path "" details.

(** The entry when both sides are the same; otherwise what differs. *)
Definition mountBaselineEntry (path : string) (l r : observedMeta) (t : Z) : E (result error (SyncEntry + string)) :=
  if negb (bool_decide (o_kind l = o_kind r)) then
    okE (inr ("type differs: local " +:+ o_kind l +:+ ", remote " +:+ o_kind r))
  else if bool_decide (o_kind l = "dir") then
    okE (inl {| e_Type := "dir"; e_Mode := o_mode r; e_Size := 0; e_LocalHash := ""; e_LocalIdentity := "";
                e_LocalMtimeMs := o_mtimeMs l; e_RemoteHash := ""; e_RemoteMtimeMs := o_mtimeMs r; e_Target := "";
                e_LastSyncedAt := t; e_ChunkSize := 0; e_ChunkHashes := []; e_Version := 0; e_Deleted := false |})
  else if bool_decide (o_kind l = "symlink") then
    if negb (bool_decide (o_target l = o_target r)) then okE (inr "symlink target differs")
    else
      okE (inl {| e_Type := "symlink"; e_Mode := 0; e_Size := 0; e_LocalHash := ""; e_LocalIdentity := "";
                  e_LocalMtimeMs := 0; e_RemoteHash := ""; e_RemoteMtimeMs := 0; e_Target := o_target l;
                  e_LastSyncedAt := t; e_ChunkSize := 0; e_ChunkHashes := []; e_Version := 0; e_Deleted := false |})
  else if bool_decide (o_kind l = "file") then
    if negb (o_size l =? o_size r) then
      okE (inr ("file size differs: local " +:+ formatBytes (o_size l) +:+ ", remote " +:+ formatBytes (o_size r)))
    else
      localData ⇐ orReturn (Errorf ("read local " +:+ path)) (ReadFile path);
      remoteData ⇐ orReturn (Errorf ("read remote " +:+ path)) (remote (rCat baseCtx (absoluteRemotePath path)));
      let localHash := sha256Hex localData in
      let remoteHash := sha256Hex remoteData in
      if negb (bool_decide (localHash = remoteHash)) then okE (inr "file content differs")
      else
        okE (inl {| e_Type := "file"; e_Mode := if o_mode r =? 0 then o_mode l else o_mode r; e_Size := o_size l;
                    e_LocalHash := localHash; e_LocalIdentity := ""; e_LocalMtimeMs := o_mtimeMs l;
                    e_RemoteHash := remoteHash; e_RemoteMtimeMs := o_mtimeMs r; e_Target := "";
                    e_LastSyncedAt := t; e_ChunkSize := 0; e_ChunkHashes := []; e_Version := 0; e_Deleted := false |})
  else okE (inr ("unsupported type " +:+ o_kind l)).

(** * The plan without a baseline *)

Definition firstPath (loc rem : gmap string observedMeta) (t : Z) (path : string) (plan : mountReconcilePlan) :
    E (result error mountReconcilePlan) :=
  match loc !! path, rem !! path with
  | Some l, None => okE (addLocalOnly path l plan)
  | None, Some r => okE (addOperation NDownload "D" path (o_kind r) "remote only; download to local folder" plan)
  | Some l, Some r =>
      b ⇐ mountBaselineEntry path l r t;
      okE (match b with
           | inl entry => addBaseline path entry plan
           | inr detail => addOperation NConflict "C" path (o_kind l) detail plan
           end)
  | None, None => okE plan
  end.

(** * The plan with a baseline *)

Definition knownLocalOnly (path : string) (l : observedMeta) (stored : SyncEntry) (hasStored : bool) : mountReconcilePlan → mountReconcilePlan :=
  if hasStored && negb (e_Deleted stored)
  then addOperation NDeleteLocal "DL" path (o_kind l) "remote deleted while unmounted; remove local copy"
  else addKnownUpload path l.

Definition knownRemoteOnly (path : string) (r : observedMeta) (stored : SyncEntry) (hasStored : bool) (rem : gmap string observedMeta) (known : entries) :
    mountReconcilePlan → mountReconcilePlan :=
  if hasStored && e_Deleted stored then
    if bool_decide (o_kind r = "dir") && mountRemoteDirHasLiveDescendants path rem known
    then addOperation NDownload "D" path (o_kind r) "remote directory has live children; keep local folder for downloads"
    else if readonly
    then addOperation NSkipped "S" path (o_kind r) "local deletion pending; mount is read-only — remote kept and will be redownloaded"
    else addOperation NDeleteRemote "DR" path (o_kind r) "local deletion pending; remove from workspace"
  else if hasStored then
    if readonly
    then addOperation NDownload "D" path (o_kind r) "local deleted while mount is read-only — redownload from workspace"
    else if observedChangedFromStored r stored false then addConflict path "local deleted while remote changed"
    else addOperation NDeleteRemote "DR" path (o_kind r) "local deleted while unmounted; remove from workspace"
  else addOperation NDownload "D" path (o_kind r) "remote created while unmounted; download to local folder".

Definition knownBoth (path : string) (l r : observedMeta) (stored : SyncEntry) (hasStored : bool) (t : Z) (plan : mountReconcilePlan) :
    E (result error mountReconcilePlan) :=
  let redownload := addOperation NDownload "D" path (o_kind r) "mount is read-only — redownload remote, keep local as conflict-copy" in
  if negb hasStored then
    b ⇐ mountBaselineEntry path l r t;
    okE (match b with
         | inl entry => addBaseline path entry plan
         | inr detail => if readonly then redownload plan else addConflict path detail plan
         end)
  else
    match observedChangedFromStored l stored true, observedChangedFromStored r stored false with
    | false, false => okE (addSame plan)
    | true, false => okE (addKnownUpload path l plan)
    | false, true => okE (addOperation NDownload "D" path (o_kind r) "remote changed while unmounted; download to local folder" plan)
    | true, true =>
        if readonly then okE (redownload plan)
        else
          b ⇐ mountBaselineEntry path l r t;
          okE (match b with
               | inl entry => addBaseline path entry plan
               | inr _ => addConflict path "local and remote both changed while unmounted" plan
               end)
    end.

Definition knownPath (loc rem : gmap string observedMeta) (known : entries) (t : Z) (path : string) (plan : mountReconcilePlan) :
    E (result error mountReconcilePlan) :=
  let '(stored, hasStored) := lookupEntry known path in
  match loc !! path, rem !! path with
  | Some l, None => okE (knownLocalOnly path l stored hasStored plan)
  | None, Some r => okE (knownRemoteOnly path r stored hasStored rem known plan)
  | Some l, Some r => knownBoth path l r stored hasStored t plan
  | None, None => okE plan
  end.

Fixpoint overPaths (step : string → mountReconcilePlan → E (result error mountReconcilePlan)) (paths : list string) (plan : mountReconcilePlan) :
    E (result error mountReconcilePlan) :=
  match paths with
  | [] => okE plan
  | p :: paths => plan ⇐ step p plan; overPaths step paths plan
  end.

Definition buildKnownMountReconcilePlan (loc rem : gmap string observedMeta) (known : entries) (plan : mountReconcilePlan) :
    E (result error mountReconcilePlan) :=
  t ← now; overPaths (knownPath loc rem known t) (sortedKnownMountReconcilePaths loc rem known) plan.

(** The plan before the first path. *)
Definition startPlan (loc rem : gmap string observedMeta) (st : SyncState) : mountReconcilePlan :=
  let '(live, deleted) := syncStateEntryCounts st in
  {| mp_LocalCount := Z.of_nat (size loc); mp_RemoteCount := Z.of_nat (size rem); mp_StateCount := Z.of_nat (size (s_Entries st));
     mp_StateLiveCount := live; mp_StateDeletedCount := deleted; mp_SameCount := 0; mp_ImportCount := 0; mp_UploadCount := 0;
     mp_DownloadCount := 0; mp_DeleteLocalCount := 0; mp_DeleteRemoteCount := 0; mp_ConflictCount := 0; mp_SkippedCount := 0;
     mp_Operations := []; mp_Baseline := ∅ |}.

Definition buildMountReconcilePlan (fuel : nat) : E (result error mountReconcilePlan) :=
  loc ⇐ orReturn (Errorf "scan local mount path") scanLocalMeta;
  rem ⇐ orReturn (Errorf "scan remote workspace") (scanRemoteMeta fuel);
  st ← getE (λ g, sw_state (g_sw g));
  let plan := startPlan loc rem st in
  if negb (bool_decide (s_Entries st = ∅)) then buildKnownMountReconcilePlan loc rem (s_Entries st) plan
  else t ← now; overPaths (firstPath loc rem t) (sortedMountReconcilePaths loc rem) plan.

(** * Acting on it *)

Definition resetMountSyncState (workspace localRoot : string) : E () :=
  onSw (λ w, setDirty (onState (λ _, newSyncState workspace localRoot) w)).

(** The entries of the new baseline in the order in which the map is ranged over. *)
Fixpoint approveEntries (base : entries) (order : list string) : E () :=
  match order with
  | [] => retE ()
  | p :: order =>
      _ ← match base !! p with Some e => _ ← putEntry p e; retE () | None => retE () end;
      approveEntries base order
  end.

Definition approveMountReconcilePlan (keys : mapOrder) (plan : mountReconcilePlan) : E () :=
  if bool_decide (mp_Baseline plan = ∅) then retE ()
  else _ ← approveEntries (mp_Baseline plan) (keys _ (mp_Baseline plan)); onSw markDirty.

(** The preflight of the mount process: it is refused, or the plan approved. *)
Definition mountPreflight (keys : mapOrder) (fuel : nat) (workspace localRoot : string) (loc : mountLocalSnapshot) (knownMount : bool) :
    E (result error mountReconcilePlan) :=
  _ ← (if negb (ml_Exists loc) then resetMountSyncState workspace localRoot else retE ());
  plan ⇐ buildMountReconcilePlan fuel;
  plan ⇐ (if mountPlanShouldResetEmptyLocalState plan loc
          then _ ← resetMountSyncState workspace localRoot; buildMountReconcilePlan fuel
          else okE plan);
  if mountPlanDeletesRemoteFromEmptyLocal plan loc then
    errE (plain "empty local directory would delete remote files; preserve this directory and mount into a new directory")
  else if requiresConfirmation plan && negb knownMount then
    errE (plain "mount would merge or upload an existing populated directory; use an empty directory or afs create <new-workspace> --from <directory>")
  else if (0 <? mp_ConflictCount plan) && negb knownMount then
    errE (plain ("mount has " +:+ pretty (mp_ConflictCount plan) +:+ " conflict(s); preserve local edits before mounting"))
  else _ ← approveMountReconcilePlan keys plan; okE plan.

(** * The guard of the first sync *)

Definition ignoredName (name : string) (isDir : bool) : bool :=
  match ignore with None => false | Some _ => shouldIgnore ignore name isDir end.

(** The names directly below the root that are not ignored. *)
Definition hasSyncableLocalEntries : E (result error bool) :=
  getE (λ g, match g_root g with
             | None => Ok false
             | Some _ => Ok (existsb (λ p, bool_decide (ancestors p = []) && negb (ignoredName p (is_dir_at (g_tree g) p))) (map fst (map_to_list (g_tree g))))
             end).

Definition hasSyncableRemoteEntries : E (result error bool) :=
  ls ← remote (rLsLong baseCtx "/");
  retE (match ls with
        | Err e => if isClientNotFound e then Ok false else Err e
        | Ok items => Ok (existsb (λ e, negb (ignoredName (ls_Name e) (bool_decide (ls_Type e = "dir")))) items)
        end).

(** The local tree path by path in the order [order]; [false] ends it. *)
Fixpoint equivalentPaths (loc rem : gmap string observedMeta) (order : list string) : E (result error bool) :=
  match order with
  | [] => okE true
  | p :: order =>
      match loc !! p, rem !! p with
      | Some l, Some r =>
          if negb (bool_decide (o_kind l = o_kind r)) then okE false
          else if bool_decide (o_kind l = "dir") then equivalentPaths loc rem order
          else if bool_decide (o_kind l = "symlink") then
            if negb (bool_decide (o_target l = o_target r)) then okE false else equivalentPaths loc rem order
          else if bool_decide (o_kind l = "file") then
            if negb (o_size l =? o_size r) then okE false
            else
              localData ⇐ ReadFile p;
              remoteData ⇐ remote (rCat baseCtx (absoluteRemotePath p));
              if negb (bool_decide (sha256Hex localData = sha256Hex remoteData)) then okE false
              else equivalentPaths loc rem order
          else okE false
      | Some _, None => okE false
      | None, _ => equivalentPaths loc rem order
      end
  end.

Definition localRemoteTreesEquivalent (keys : mapOrder) (fuel : nat) : E (result error bool) :=
  loc ⇐ scanLocalMeta;
  rem ⇐ scanRemoteMeta fuel;
  if negb (Z.of_nat (size loc) =? Z.of_nat (size rem)) then okE false
  else equivalentPaths loc rem (keys _ loc).

Definition validateInitialSyncSafety (keys : mapOrder) (fuel : nat) (approved : bool) : E (result error ()) :=
  empty ← getE (λ g, bool_decide (s_Entries (sw_state (g_sw g)) = ∅));
  if negb (empty : bool) then okE ()
  else
    populated ⇐ orReturn (Errorf "check local sync root") hasSyncableLocalEntries;
    if negb (populated : bool) then okE ()
    else
      workspace ⇐ orReturn (Errorf "check remote workspace") hasSyncableRemoteEntries;
      if negb (workspace : bool) then okE ()
      else if approved then okE ()
      else
        equivalent ⇐ orReturn (Errorf "compare local and remote workspace") (localRemoteTreesEquivalent keys fuel);
        if (equivalent : bool) then okE () else errE (plain "Mount blocked").
End mount.
