(* ===== verification/MountPlanProps.v ===== *)
(** What an approved preflight promises (MountPlan): a mount into a directory that is
    not known to belong to the workspace finds it empty or finds on both sides the
    same paths with the same kinds, sizes and targets, and the recovery pass that
    follows deletes nothing and touches what is on both sides only where permissions
    differ.  They do get changed, which is a finding. *)
From stdpp Require Import pretty.
From S2P Require Import Prelude Content Paths FsClient SyncState SyncChunks SyncWorld SyncTree SyncPlan ServerDiff SyncDown SyncUp SyncEvent.
From S2P Require Import SyncExec SyncRun SyncSample SyncInv SyncProps SyncPlanProps SyncSaveScan MountPlan.
#[local] Open Scope string_scope.
#[local] Open Scope list_scope.
#[local] Open Scope Z_scope.

(** * Agreement *)

(** Both sides are what the entry says, permissions aside. *)
Definition agreed (l r : observedMeta) (e : SyncEntry) : Prop :=
  e_Deleted e = false ∧ o_kind l = e_Type e ∧ o_kind r = e_Type e ∧
  (e_Type e = "dir" ∨ (e_Type e = "symlink" ∧ o_target l = e_Target e ∧ o_target r = e_Target e) ∨
   (e_Type e = "file" ∧ o_size l = e_Size e ∧ o_size r = e_Size e ∧
    (e_LocalMtimeMs e = 0 ∨ o_mtimeMs l = e_LocalMtimeMs e) ∧ (e_RemoteMtimeMs e = 0 ∨ o_mtimeMs r = e_RemoteMtimeMs e))).

Lemma agreed_version l r e v : agreed l r e → agreed l r (setVersion v e).
Proof. done. Qed.

Lemma unchanged_agreed l r e : observedChangedFromStored l e true = false → observedChangedFromStored r e false = false → agreed l r e.
Proof.
  unfold observedChangedFromStored, agreed. destruct (e_Deleted e); simpl; [done|].
  destruct (bool_decide (o_kind l = e_Type e)) eqn:El; simpl; [|done]. destruct (bool_decide (o_kind r = e_Type e)) eqn:Er; simpl; [|done].
  apply bool_decide_eq_true in El, Er. rewrite El, Er.
  destruct (bool_decide (e_Type e = "dir")) eqn:Ed; [apply bool_decide_eq_true in Ed; auto|].
  destruct (bool_decide (e_Type e = "symlink")) eqn:Es.
  { apply bool_decide_eq_true in Es. intros ?%negb_false_iff%bool_decide_eq_true ?%negb_false_iff%bool_decide_eq_true. auto 10. }
  destruct (bool_decide (e_Type e = "file")) eqn:Ef; [|done]. apply bool_decide_eq_true in Ef.
  destruct (o_size l =? e_Size e) eqn:?, (o_size r =? e_Size e) eqn:?; simpl; try done.
  intros ?%andb_false_iff ?%andb_false_iff. split_and!; try done; right; right; split_and!; try done; lia.
Qed.

Section mount.
Context {H : Hashing} {R : Type} {RC : RemoteClient R} {cfg : @SyncCfg R}.
Implicit Types (g : eng R) (loc rem : gmap string observedMeta).

Lemma baseline_agreed p l r t g e g' :
  mountBaselineEntry p l r t g = (Ok (inl e), g') → agreed l r e ∧ (e_Type e = "file" → e_LocalHash e = e_RemoteHash e).
Proof.
  unfold mountBaselineEntry, okE, retE. case_bool_decide as Ek; [|done]. simpl.
  case_bool_decide as Ed; [intros [= <- <-]; split; [|done]; unfold agreed; simpl; split_and!; auto; congruence|].
  case_bool_decide as Es.
  { case_bool_decide as Et; [|done]. intros [= <- <-]. split; [|done]. unfold agreed. simpl. split_and!; auto; congruence. }
  case_bool_decide as Ef; [|done]. destruct (o_size l =? o_size r) eqn:Esz; [|done]. simpl.
  intros (ld & g1 & _ & H1)%bindR_Ok. apply bindR_Ok in H1 as (rd & g2 & _ & H2).
  case_bool_decide as Eh; [|done]. simpl in H2. injection H2 as <- <-. split; [|done].
  unfold agreed. simpl. split_and!; try congruence. right; right. split_and!; auto; lia.
Qed.

(** What a pass does to a path both sides agree on. *)
Lemma agreed_plan p l r e g a : agreed l r e → a ∈ fst (planBoth p l r e true g) →
  isDeleteAction a = false ∧ a_path a = p ∧ e_Type e ≠ "symlink" ∧ (o_mode l ≠ e_Mode e ∨ o_mode (as_handed_out r) ≠ e_Mode e).
Proof.
  intros (Hd & Hl & Hr & Hcase). unfold planBoth. fold (as_handed_out r). destruct (metaMatch _ _ _ _) eqn:Em.
  { unfold bindE, refreshStateMeta, bindE. simpl. destruct (storedAt p g) as [x g1]. repeat case_match; by intros ?%elem_of_nil. }
  assert (o_kind (as_handed_out r) = e_Type e) as Hr' by (unfold as_handed_out; by case_match).
  assert (e_Type e ≠ "symlink") as Hns.
  { intros Es. destruct Hcase as [?|[(_ & Htl & Htr)|(? & _)]]; [congruence| |congruence].
    unfold metaMatch in Em. rewrite Hl, Hr', Es in Em. simpl in Em. apply bool_decide_eq_false in Em. apply Em.
    unfold as_handed_out. destruct (readonly && _); simpl; congruence. }
  rewrite Hd. simpl. fold (changed l e true) (changed (as_handed_out r) e false).
  assert (changed l e true = true → o_mode l ≠ e_Mode e) as Hcl.
  { unfold changed, observedChangedFromStored. rewrite Hd, Hl, bool_decide_eq_true_2 by done. simpl.
    destruct Hcase as [->|[(? & _)|(-> & -> & _ & Hm & _)]]; [|done|]; simpl; [lia|].
    rewrite Z.eqb_refl. simpl. destruct Hm as [->| ->]; lia. }
  assert (changed (as_handed_out r) e false = true → o_mode (as_handed_out r) ≠ e_Mode e) as Hcr.
  { unfold changed, observedChangedFromStored. rewrite Hd, Hr', bool_decide_eq_true_2 by done. simpl.
    assert (o_size (as_handed_out r) = o_size r ∧ o_mtimeMs (as_handed_out r) = o_mtimeMs r) as [-> ->] by (unfold as_handed_out; by case_match).
    destruct Hcase as [->|[(? & _)|(-> & _ & -> & _ & Hm)]]; [|done|]; simpl; [lia|].
    rewrite Z.eqb_refl. simpl. destruct Hm as [->| ->]; lia. }
  assert (∀ c, isDeleteAction (planDownload p r c) = false ∧ a_path (planDownload p r c) = p) as Hdown
    by (intros c; unfold planDownload, isDeleteAction; repeat case_bool_decide; by split).
  assert (∀ x, x ∈ planUpload p l → isDeleteAction x = false ∧ a_path x = p) as Hup.
  { intros x. unfold planUpload. repeat case_match; intros Hx; try (by apply elem_of_nil in Hx); apply list_elem_of_singleton in Hx as ->; by split. }
  destruct (changed l e true), (changed (as_handed_out r) e false); simpl.
  - intros ->%list_elem_of_singleton. destruct (Hdown true). split_and!; auto.
  - destruct readonly; simpl; [intros ->%list_elem_of_singleton; destruct (Hdown true)|intros Hx; destruct (Hup a Hx)]; split_and!; auto.
  - intros ->%list_elem_of_singleton. destruct (Hdown false). split_and!; auto.
  - unfold bindE. destruct (refreshStateMeta _ _ _ _ _ _) as [? ?]. by intros ?%elem_of_nil.
Qed.
(** * The plan *)

(** What a plan has found to report. *)
Definition found (p : mountReconcilePlan) : Z :=
  mp_ImportCount p + mp_UploadCount p + mp_DownloadCount p + mp_DeleteLocalCount p + mp_DeleteRemoteCount p + mp_ConflictCount p + mp_SkippedCount p.

(** The part a path does not change. *)
Definition frame (p : mountReconcilePlan) := (mp_LocalCount p, mp_RemoteCount p, mp_StateCount p).

(** The counters that are never negative, and never count what is not listed. *)
Record sane (p : mountReconcilePlan) : Prop := {
  sn_nonneg : 0 ≤ mp_ImportCount p ∧ 0 ≤ mp_UploadCount p ∧ 0 ≤ mp_DownloadCount p ∧ 0 ≤ mp_DeleteLocalCount p ∧
              0 ≤ mp_DeleteRemoteCount p ∧ 0 ≤ mp_ConflictCount p ∧ 0 ≤ mp_SkippedCount p;
  sn_listed : found p = Z.of_nat (length (mp_Operations p))
}.

(** One path: it is reported, or it is on neither side, or both sides agree. *)
Inductive visited loc rem (known : entries) (path : string) (p p' : mountReconcilePlan) : Prop :=
| VReported op : mp_Operations p' = mp_Operations p ++ [op] → mo_Path op = path → found p' = found p + 1 →
    mp_Baseline p' = mp_Baseline p → visited loc rem known path p p'
| VNowhere : loc !! path = None → rem !! path = None → p' = p → visited loc rem known path p p'
| VKept l r e : loc !! path = Some l → rem !! path = Some r → known !! path = Some e → agreed l r e →
    p' = addSame p → visited loc rem known path p p'
| VNew l r e : loc !! path = Some l → rem !! path = Some r → agreed l r e → (e_Type e = "file" → e_LocalHash e = e_RemoteHash e) →
    p' = addBaseline path e p → visited loc rem known path p p'.

Definition step_ok loc rem known path p p' : Prop := frame p' = frame p ∧ (sane p → sane p') ∧ visited loc rem known path p p'.

(** A counter of the plan goes up. *)
Ltac counts c := unfold found, addOperation, tally in *; cbn in *; destruct c; repeat (case_bool_decide; try congruence); try done; try lia.

Lemma sane_reported c op p : sane p → c ≠ NSame → sane (tally c [op] id p).
Proof.
  intros [(? & ? & ? & ? & ? & ? & ?) Hl] Hc. split.
  - counts c; split_and!; lia.
  - cbn [tally mp_Operations]. rewrite length_app. cbn [length]. counts c.
Qed.

Lemma step_reported loc rem known c code path kind details p : c ≠ NSame →
  step_ok loc rem known path p (addOperation c code path kind details p).
Proof.
  intros Hc. split; [done|]. split; [intros Hs; by apply sane_reported|]. eapply VReported; [done..| |done].
  counts c.
Qed.

Lemma step_same loc rem known path l r e p : loc !! path = Some l → rem !! path = Some r → known !! path = Some e → agreed l r e →
  step_ok loc rem known path p (addSame p).
Proof.
  intros. split; [done|]. split; [|by eapply VKept]. intros [? Hl]. split; [done|]. cbn. by rewrite app_nil_r.
Qed.

Lemma step_new loc rem known path l r e p : loc !! path = Some l → rem !! path = Some r → agreed l r e →
  (e_Type e = "file" → e_LocalHash e = e_RemoteHash e) → step_ok loc rem known path p (addBaseline path e p).
Proof.
  intros. split; [done|]. split; [|by eapply VNew]. intros [? Hl]. split; [done|]. cbn. by rewrite app_nil_r.
Qed.

Lemma step_nowhere loc rem known path p : loc !! path = None → rem !! path = None → step_ok loc rem known path p p.
Proof. intros. split; [done|]. split; [done|]. by apply VNowhere. Qed.

Lemma step_upload loc rem known path l p : step_ok loc rem known path p (addKnownUpload path l p).
Proof. unfold addKnownUpload. repeat case_match; by apply step_reported. Qed.

Lemma step_compared loc rem known path l r t g p g' (differs : string → mountReconcilePlan) :
  loc !! path = Some l → rem !! path = Some r → (∀ d, step_ok loc rem known path p (differs d)) → ∀ p',
  bindR (mountBaselineEntry path l r t) (λ b, okE match b with inl e => addBaseline path e p | inr d => differs d end) g = (Ok p', g') →
  step_ok loc rem known path p p'.
Proof.
  intros Hl Hr Hd p' (b & g1 & Hb & H1)%bindR_Ok. injection H1 as <- <-. destruct b as [e|d]; [|done].
  destruct (baseline_agreed _ _ _ _ _ _ _ Hb). by eapply step_new.
Qed.

Lemma known_step loc rem known t path p g p' g' : knownPath loc rem known t path p g = (Ok p', g') → step_ok loc rem known path p p'.
Proof.
  unfold knownPath, lookupEntry. destruct (known !! path) as [e|] eqn:Ee; destruct (loc !! path) as [l|] eqn:El, (rem !! path) as [r|] eqn:Er;
    try (intros [= <- <-]; by apply step_nowhere); simpl.
  all: try (intros [= <- <-]; unfold knownLocalOnly, knownRemoteOnly, addConflict; repeat case_match; first [apply step_upload|by apply step_reported]).
  - unfold knownBoth. simpl. destruct (observedChangedFromStored l e true) eqn:Ecl, (observedChangedFromStored r e false) eqn:Ecr.
    + destruct readonly; [intros [= <- <-]; by apply step_reported|]. apply step_compared; [done..|]. intros. by apply step_reported.
    + intros [= <- <-]. apply step_upload.
    + intros [= <- <-]. by apply step_reported.
    + intros [= <- <-]. eapply step_same; try done. by apply unchanged_agreed.
  - unfold knownBoth. simpl. apply step_compared; [done..|]. intros. destruct readonly; by apply step_reported.
Qed.

Lemma first_step loc rem t path p g p' g' : firstPath loc rem t path p g = (Ok p', g') →
  step_ok loc rem ∅ path p p' ∧ mp_DeleteLocalCount p' = mp_DeleteLocalCount p ∧ mp_DeleteRemoteCount p' = mp_DeleteRemoteCount p.
Proof.
  unfold firstPath. destruct (loc !! path) as [l|] eqn:El, (rem !! path) as [r|] eqn:Er; try (intros [= <- <-]).
  - intros H1. split.
    + revert H1. apply step_compared; [done..|]. intros. by apply step_reported.
    + apply bindR_Ok in H1 as ([e|d] & g1 & _ & H1); by injection H1 as <- <-.
  - unfold addLocalOnly. repeat case_match; (split; [by apply step_reported|done]).
  - split; [by apply step_reported|done].
  - split; [by apply step_nowhere|done].
Qed.

(** The entry of a path once the plan is approved. *)
Definition entryAfter (plan : mountReconcilePlan) (known : entries) (q : string) : option SyncEntry :=
  match mp_Baseline plan !! q with Some e => Some e | None => known !! q end.

(** Where nothing is reported both sides agree with the baseline there will be. *)
Definition settledAt loc rem (known : entries) (plan : mountReconcilePlan) (q : string) : Prop :=
  (loc !! q = None ∧ rem !! q = None) ∨
  ∃ l r e, loc !! q = Some l ∧ rem !! q = Some r ∧ entryAfter plan known q = Some e ∧ agreed l r e.

Lemma found_same ops base p : found (tally NSame ops base p) = found p.
Proof. unfold found, tally. cbn. repeat (case_bool_decide; try congruence). Qed.

Lemma visited_found loc rem known path p p' : visited loc rem known path p p' → found p ≤ found p'.
Proof. intros [?? _ -> _|?? -> |??????? ->|??????? ->]; rewrite ?found_same; unfold addSame, addBaseline; rewrite ?found_same; lia. Qed.

Lemma visited_settled loc rem known path p p' : visited loc rem known path p p' → mp_Baseline p !! path = None → found p' = found p →
  settledAt loc rem known p' path.
Proof.
  intros [?? _ Hf _|?? -> |l r e ? ? He ? ->|l r e ? ? ? _ ->] Hn Hq; [lia|by left| |]; right; exists l, r, e; (split; [done|]); (split; [done|]); (split; [|done]).
  - unfold entryAfter. change (mp_Baseline (addSame p)) with (mp_Baseline p). by rewrite Hn.
  - unfold entryAfter. assert (mp_Baseline (addBaseline path e p) !! path = Some e) as -> by apply lookup_insert_eq. done.
Qed.

Lemma visited_elsewhere loc rem known path p p' q : visited loc rem known path p p' → q ≠ path → mp_Baseline p' !! q = mp_Baseline p !! q.
Proof. intros [?? _ _ -> |?? -> |??????? ->|??????? ->] Hq; try done. by apply lookup_insert_ne. Qed.

Lemma over_paths loc rem known step paths p g p' g' :
  (∀ path p g p' g', step path p g = (Ok p', g') → step_ok loc rem known path p p') → NoDup paths →
  (∀ q, q ∈ paths → mp_Baseline p !! q = None) → overPaths step paths p g = (Ok p', g') →
  frame p' = frame p ∧ (sane p → sane p') ∧ found p ≤ found p' ∧ (∀ q, q ∉ paths → mp_Baseline p' !! q = mp_Baseline p !! q) ∧
  (found p' = found p → ∀ q, q ∈ paths → settledAt loc rem known p' q).
Proof.
  intros Hstep. revert p g. induction paths as [|path paths IH]; intros p g Hnd Hb.
  { intros [= <- <-]. split_and!; try done. intros _ q Hq. by apply elem_of_nil in Hq. }
  apply NoDup_cons in Hnd as [Hin Hnd]. intros (p1 & g1 & H1 & H2)%bindR_Ok. destruct (Hstep _ _ _ _ _ H1) as (Hf & Hs & Hv).
  assert (∀ q, q ∈ paths → mp_Baseline p1 !! q = None) as Hb1.
  { intros q Hq. rewrite (visited_elsewhere _ _ _ _ _ _ q Hv) by congruence. apply Hb. by right. }
  destruct (IH p1 g1 Hnd Hb1 H2) as (Hf' & Hs' & Hle & Ho & Hset). pose proof (visited_found _ _ _ _ _ _ Hv). split_and!.
  - congruence.
  - auto.
  - lia.
  - intros q [Hq1 Hq2]%not_elem_of_cons. rewrite Ho by done. by eapply visited_elsewhere.
  - intros Hq q [->|Hin']%elem_of_cons; [|apply Hset; [lia|done]].
    destruct (visited_settled _ _ _ _ _ _ Hv) as [|(l & r & e & ? & ? & He & ?)]; [apply Hb; by left|lia|by left|].
    right. exists l, r, e. split_and!; try done. unfold entryAfter in *. by rewrite Ho.
Qed.

Lemma over_first loc rem t paths p g p' g' : overPaths (firstPath loc rem t) paths p g = (Ok p', g') →
  mp_DeleteLocalCount p' = mp_DeleteLocalCount p ∧ mp_DeleteRemoteCount p' = mp_DeleteRemoteCount p.
Proof.
  revert p g. induction paths as [|path paths IH]; intros p g; [by intros [= <- <-]|].
  intros (p1 & g1 & (_ & <- & <-)%first_step & H2)%bindR_Ok. eauto.
Qed.

(** * The baseline of the engine *)

Section keeps.
Context (Happ : ∀ m g, g_sw (app m g) = g_sw g).

Definition keeps {A} (m : SyncWorld.E R A) : Prop := ∀ g, g_sw (snd (m g)) = g_sw g.

Lemma keeps_get {A} (f : eng R → A) : keeps (getE f).
Proof. done. Qed.
Lemma keeps_ret {A} (a : A) : keeps (retE a).
Proof. done. Qed.
Lemma keeps_bind {A B} (m : SyncWorld.E R A) (f : A → SyncWorld.E R B) : keeps m → (∀ a, keeps (f a)) → keeps (bindE m f).
Proof. intros Hm Hf g. unfold bindE. specialize (Hm g). destruct (m g) as [a g1]. simpl in *. by rewrite Hf. Qed.
Lemma keeps_bindR {Er A B} (m : SyncWorld.E R (result Er A)) (f : A → SyncWorld.E R (result Er B)) : keeps m → (∀ a, keeps (f a)) → keeps (bindR m f).
Proof. intros Hm Hf. apply keeps_bind; [done|]. intros [a|e]; [apply Hf|apply keeps_ret]. Qed.
Lemma keeps_remote {A} (f : R → result error A * R) : keeps (remote f).
Proof. intros g. unfold remote. destruct (f _). apply Happ. Qed.
Lemma keeps_orReturn {A} f (m : SyncWorld.E R (result error A)) : keeps m → keeps (orReturn (Er := error) f m).
Proof. intros Hm. apply keeps_bind; [done|]. intros. apply keeps_ret. Qed.

Lemma keeps_entry p l r t : keeps (mountBaselineEntry p l r t).
Proof.
  unfold mountBaselineEntry. repeat case_match; try apply keeps_ret.
  all: apply keeps_bindR; [apply keeps_orReturn, keeps_get|]; intros; apply keeps_bindR; [apply keeps_orReturn, keeps_remote|]; intros;
    case_match; apply keeps_ret.
Qed.

Lemma keeps_known loc rem known t path p : keeps (knownPath loc rem known t path p).
Proof.
  unfold knownPath, knownBoth. repeat case_match; try apply keeps_ret; (apply keeps_bindR; [apply keeps_entry|]; intros; apply keeps_ret).
Qed.
Lemma keeps_first loc rem t path p : keeps (firstPath loc rem t path p).
Proof. unfold firstPath. repeat case_match; try apply keeps_ret. apply keeps_bindR; [apply keeps_entry|]. intros. apply keeps_ret. Qed.

Lemma keeps_over step paths p : (∀ path p, keeps (step path p)) → keeps (overPaths step paths p).
Proof.
  intros Hs. revert p. induction paths as [|path paths IH]; intros p; [apply keeps_ret|]. apply keeps_bindR; [apply Hs|apply IH].
Qed.

(** * The preflight *)

(** The plan of two scans and a baseline. *)
Record planned loc rem (known : entries) (plan : mountReconcilePlan) : Prop := {
  pn_frame : frame plan = (Z.of_nat (size loc), Z.of_nat (size rem), Z.of_nat (size known));
  pn_sane : sane plan;
  pn_first : known = ∅ → mp_DeleteLocalCount plan = 0 ∧ mp_DeleteRemoteCount plan = 0;
  pn_settled : found plan = 0 → ∀ q, settledAt loc rem known plan q;
  pn_baseline : loc = ∅ → mp_Baseline plan = ∅
}.

Lemma start_sane loc rem st : sane (startPlan loc rem st) ∧ found (startPlan loc rem st) = 0 ∧
  frame (startPlan loc rem st) = (Z.of_nat (size loc), Z.of_nat (size rem), Z.of_nat (size (s_Entries st))) ∧
  mp_Baseline (startPlan loc rem st) = ∅ ∧ mp_DeleteLocalCount (startPlan loc rem st) = 0 ∧ mp_DeleteRemoteCount (startPlan loc rem st) = 0.
Proof. unfold startPlan. destruct (syncStateEntryCounts st). repeat split; done. Qed.

Lemma over_planned loc rem st step paths g p' g' :
  (∀ path p g p' g', step path p g = (Ok p', g') → step_ok loc rem (s_Entries st) path p p') →
  (s_Entries st = ∅ → step = firstPath loc rem (g_now g) ) → NoDup paths → (∀ q, is_Some (loc !! q) ∨ is_Some (rem !! q) → q ∈ paths) →
  overPaths step paths (startPlan loc rem st) g = (Ok p', g') → planned loc rem (s_Entries st) p'.
Proof.
  intros Hstep Hfirst Hnd Hall Hrun. destruct (start_sane loc rem st) as (Hs & Hf & Hfr & Hb & Hdl & Hdr).
  destruct (over_paths loc rem (s_Entries st) step paths _ _ _ _ Hstep Hnd (λ q _, eq_trans (f_equal (lookup q) Hb) (lookup_empty q)) Hrun)
    as (Hf' & Hs' & _ & Ho & Hset). split.
  - congruence.
  - auto.
  - intros He. rewrite (Hfirst He) in Hrun. apply over_first in Hrun as [-> ->]. by split.
  - intros Hq q. destruct (decide (q ∈ paths)) as [Hin|Hn]; [apply Hset; [lia|done]|].
    left. split; apply eq_None_not_Some; intros ?; apply Hn, Hall; auto.
  - intros ->. clear -Hstep Hrun Hb. revert Hb Hrun. generalize (startPlan ∅ rem st). revert g.
    induction paths as [|path paths IH]; intros g p Hb; [by intros [= <- <-]|].
    intros (p1 & g1 & H1 & H2)%bindR_Ok. destruct (Hstep _ _ _ _ _ H1) as (_ & _ & [?? _ _ Hb1|?? ->|????? |?????]).
    + eapply IH; [|done]. congruence.
    + by eapply IH.
    + by rewrite lookup_empty in *.
    + by rewrite lookup_empty in *.
Qed.

Lemma elem_sorted q l : q ∈ l → q ∈ insertion_sort stringLess l.
Proof. by rewrite insertion_sort_perm. Qed.

Lemma build_planned fuel g plan g1 : buildMountReconcilePlan fuel g = (Ok plan, g1) →
  ∃ loc rem gb, scanLocalMeta g = (Ok loc, gb) ∧ fst (scanRemoteMeta fuel gb) = Ok rem ∧ planned loc rem (entries_of g1) plan.
Proof.
  intros (loc & gb & Hl%orReturn_Ok & H1)%bindR_Ok. apply bindR_Ok in H1 as (rem & gc & Hr%orReturn_Ok & H2).
  exists loc, rem, gb. split; [done|]. split; [by rewrite Hr|]. unfold bindE at 1, getE at 1 in H2. cbv zeta in H2.
  case_bool_decide as Ee; simpl in H2; unfold bindE, now, getE in H2.
  - assert (entries_of g1 = s_Entries (sw_state (g_sw gc))) as ->.
    { unfold entries_of. change g1 with (snd (Ok (E := error) plan, g1)). rewrite <- H2. by rewrite (keeps_over _ _ _ (keeps_first loc rem (g_now gc))). }
    eapply (over_planned _ _ _ (firstPath loc rem (g_now gc))); [|done| | |exact H2].
    + intros ????? Hx. rewrite Ee. exact (proj1 (first_step _ _ _ _ _ _ _ _ Hx)).
    + unfold sortedMountReconcilePaths. rewrite insertion_sort_perm. apply NoDup_elements.
    + intros q Hq. apply elem_sorted, elem_of_elements, elem_of_union. by rewrite !elem_of_dom.
  - unfold buildKnownMountReconcilePlan, bindE, now, getE in H2.
    assert (entries_of g1 = s_Entries (sw_state (g_sw gc))) as ->.
    { unfold entries_of. change g1 with (snd (Ok (E := error) plan, g1)). rewrite <- H2. by rewrite (keeps_over _ _ _ (keeps_known loc rem _ (g_now gc))). }
    eapply (over_planned _ _ _ (knownPath loc rem _ (g_now gc))); [| | | |exact H2].
    + intros ?????. apply known_step.
    + done.
    + unfold sortedKnownMountReconcilePaths. rewrite insertion_sort_perm. apply NoDup_elements.
    + intros q Hq. apply elem_sorted, elem_of_elements, elem_of_union. left. apply elem_of_union. by rewrite !elem_of_dom.
Qed.

Lemma preflight_build keys fuel ws root ml g plan g' : mountPreflight keys fuel ws root ml false g = (Ok plan, g') →
  ∃ g0 g1, buildMountReconcilePlan fuel g0 = (Ok plan, g1) ∧ requiresConfirmation plan = false ∧ mp_ConflictCount plan ≤ 0 ∧
    g' = snd (approveMountReconcilePlan keys plan g1).
Proof.
  unfold mountPreflight. unfold bindE at 1. destruct (_ g) as [? ga]. intros (p1 & gb & H1 & H2)%bindR_Ok. apply bindR_Ok in H2 as (p2 & gc & H2 & H3).
  assert (∃ g0, buildMountReconcilePlan fuel g0 = (Ok p2, gc)) as [g0 Hb].
  { destruct (mountPlanShouldResetEmptyLocalState p1 ml); [|injection H2 as <- <-; eauto]. unfold bindE at 1 in H2.
    destruct (resetMountSyncState ws root gb) as [? gb']. eauto. }
  destruct (mountPlanDeletesRemoteFromEmptyLocal p2 ml); [done|]. cbn [negb] in H3. rewrite !andb_true_r in H3.
  destruct (requiresConfirmation p2) eqn:Er; [done|]. destruct (0 <? mp_ConflictCount p2) eqn:Ec; [done|]. unfold bindE in H3. destruct (approveMountReconcilePlan keys p2 gc) as [? g2] eqn:Ea. injection H3 as <- <-.
  exists g0, gc. rewrite Ea. split_and!; try done. lia.
Qed.

Lemma quiet_plan loc rem known plan : planned loc rem known plan → requiresConfirmation plan = false → mp_ConflictCount plan ≤ 0 →
  found plan = 0 ∨ (loc = ∅ ∧ known = ∅).
Proof.
  intros [Hf [Hn _] Hd _ _] Hr Hc. unfold frame in Hf. injection Hf as Hl _ Hk. unfold requiresConfirmation, hasReportableChanges in Hr.
  destruct (0 <? mp_StateCount plan) eqn:Es; cbv iota in Hr; [left; unfold found; lia|].
  assert (known = ∅) as He by (apply map_size_empty_inv, Nat2Z.inj; etrans; [symmetry; exact Hk|lia]). destruct (Hd He) as [Hdl Hdr].
  destruct (mp_LocalCount plan =? 0) eqn:El; cbv iota in Hr; [right; split; [apply map_size_empty_inv, Nat2Z.inj; etrans; [symmetry; exact Hl|lia]|done]|]. left. unfold found. lia.
Qed.

Lemma approve_entries base order g q :
  (base !! q = None ∨ q ∉ order → entries_of (snd (approveEntries base order g)) !! q = entries_of g !! q) ∧
  (∀ e, base !! q = Some e → q ∈ order → ∃ v, entries_of (snd (approveEntries base order g)) !! q = Some (setVersion v e)).
Proof.
  revert g. induction order as [|p order IH]; intros g; [split; [done|]; intros e _ Hq; by apply elem_of_nil in Hq|].
  set (one := match base !! p with Some e => bindE (putEntry p e) (λ _, retE ()) | None => retE () end : SyncWorld.E R ()).
  assert (approveEntries base (p :: order) g = approveEntries base order (snd (one g))) as ->.
  { simpl. fold one. unfold bindE at 1. by destruct (one g). }
  assert (∀ q', entries_of (snd (one g)) !! q' =
      match base !! p with
      | Some ep => if bool_decide (q' = p) then Some (setVersion (s_NextVersion (sw_state (g_sw g))) ep) else entries_of g !! q'
      | None => entries_of g !! q'
      end) as Hput.
  { intros q'. unfold one. destruct (base !! p); [|done]. case_bool_decide as E; [subst q'; apply lookup_insert_eq|by apply lookup_insert_ne]. }
  generalize dependent (snd (one g)). intros g1 Hput. clear one. destruct (IH g1) as [IH1 IH2]. split.
  - intros Hn. rewrite IH1.
    + rewrite Hput. destruct (base !! p) eqn:Ep; [|done]. rewrite bool_decide_eq_false_2; [done|]. intros ->.
      destruct Hn as [?|Hn]; [congruence|]. apply Hn. by left.
    + destruct Hn as [?|Hn]; [by left|right]. by apply not_elem_of_cons in Hn as [? ?].
  - intros e He Hq. destruct (decide (q ∈ order)) as [Hin|Hni]; [eauto|]. apply elem_of_cons in Hq as [->|?]; [|done].
    rewrite IH1 by auto. rewrite Hput, He, bool_decide_eq_true_2 by done. eauto.
Qed.

Lemma approve_lookup keys plan g q : is_order keys →
  match mp_Baseline plan !! q with
  | None => entries_of (snd (approveMountReconcilePlan keys plan g)) !! q = entries_of g !! q
  | Some e => ∃ v, entries_of (snd (approveMountReconcilePlan keys plan g)) !! q = Some (setVersion v e)
  end.
Proof.
  intros Hk. unfold approveMountReconcilePlan. case_bool_decide as Eb.
  { assert (mp_Baseline plan !! q = None) as -> by (rewrite Eb; apply lookup_empty). done. }
  destruct (approve_entries (mp_Baseline plan) (keys _ (mp_Baseline plan)) g q) as [H1 H2]. unfold bindE. destruct (approveEntries _ _ g) as [u g1].
  destruct (mp_Baseline plan !! q) as [e|] eqn:E; [|by apply H1; left]. apply H2; [done|]. apply order_elem; [done|]. exists e. exact E.
Qed.

(** * The pass that follows *)

Lemma detect_one loc p g : snd (detectOfflineDelete loc p g) = g ∨
  ∃ e e', entries_of g !! p = Some e ∧ (e_Deleted e = true ∨ loc !! p = None) ∧ snd (detectOfflineDelete loc p g) = snd (putEntry p e' g).
Proof.
  unfold detectOfflineDelete, bindE, storedAt, getE, lookupEntry, retE, now, getE, Lstat, on_tree, getE. fold (entries_of g).
  destruct (entries_of g !! p) as [e|] eqn:Ee; [|by left]. simpl. destruct readonly.
  - destruct (e_Deleted e) eqn:Ed; [|by left]. right. exists e, (setDeleted false e). split; [done|]. split; [by left|]. by destruct (putEntry p (setDeleted false e) g).
  - destruct (e_Deleted e) eqn:Ed; [by left|]. destruct (loc !! p) eqn:El; [by left|].
    destruct (match g_root g with Some _ => _ | None => _ end) as [i|err]; [by left|]. destruct (IsNotExist err); [|by left]. simpl.
    right. exists e, (setSyncedAt (g_now g) (setDeleted true e)). split; [done|]. split; [by right|]. by destruct (putEntry p (setSyncedAt (g_now g) (setDeleted true e)) g).
Qed.

(** A path both sides have, and one the baseline does not know, get no tombstone. *)
Lemma detect_lookup order loc g q :
  match entries_of g !! q with None => True | Some e => e_Deleted e = false ∧ is_Some (loc !! q) end →
  entries_of (snd (detectOfflineDeletes order loc g)) !! q = entries_of g !! q.
Proof.
  revert g. induction order as [|p order IH]; intros g Hq; [done|].
  assert (detectOfflineDeletes (p :: order) loc g = detectOfflineDeletes order loc (snd (detectOfflineDelete loc p g))) as ->
    by (simpl; unfold bindE at 1; by destruct (detectOfflineDelete loc p g)).
  assert (entries_of (snd (detectOfflineDelete loc p g)) !! q = entries_of g !! q) as E; [|rewrite IH; by rewrite E].
  destruct (detect_one loc p g) as [->|(e & e' & He & Hor & ->)]; [done|].
  destruct (decide (q = p)) as [->|Hne]; [|by apply lookup_insert_ne]. rewrite He in Hq. destruct Hq as [Hd [l Hl]]. destruct Hor; congruence.
Qed.

Lemma planPaths_of baseline loc rem order g a : a ∈ fst (planPaths baseline loc rem order g) → ∃ p g', a ∈ fst (planPath baseline loc rem p g').
Proof.
  revert g. induction order as [|p order IH]; intros g; simpl; [by intros ?%elem_of_nil|]. unfold bindE.
  destruct (planPath baseline loc rem p g) as [x g1] eqn:E. specialize (IH g1). destruct (planPaths baseline loc rem order g1) as [rest g2]. simpl.
  intros [Hin|Hin]%elem_of_app; [|by apply IH]. exists p, g. by rewrite E.
Qed.

(** What a pass plans for a path: nothing where the preflight found nothing to
    report but permissions. *)
Definition modest loc rem (known : entries) (a : syncAction) : Prop :=
  isDeleteAction a = false ∧
  ((loc !! a_path a = None ∧ is_Some (rem !! a_path a) ∧ a_conflict a = false ∧ a_kind a ∈ [ADownload; ASymlinkDownload; AMkdirLocal]) ∨
   ∃ l r e, loc !! a_path a = Some l ∧ rem !! a_path a = Some r ∧ known !! a_path a = Some e ∧ agreed l r e ∧ e_Type e ≠ "symlink" ∧
     (o_mode l ≠ e_Mode e ∨ o_mode (as_handed_out r) ≠ e_Mode e)).

(** Both sides have the same paths, each as the baseline says. *)
Definition same_trees loc rem (known : entries) : Prop :=
  ∀ q, (loc !! q = None ∧ rem !! q = None) ∨ ∃ l r e, loc !! q = Some l ∧ rem !! q = Some r ∧ known !! q = Some e ∧ agreed l r e.

Lemma pass_path loc rem known baseline p g a : (loc = ∅ ∧ known = ∅) ∨ same_trees loc rem known →
  (∀ q, match known !! q with None => True | Some e => e_Deleted e = false ∧ is_Some (loc !! q) end → baseline !! q = known !! q) →
  a ∈ fst (planPath baseline loc rem p g) → a_path a = p ∧ modest loc rem known a.
Proof.
  intros Hcase Hb. unfold planPath, bindE. destruct (deferScanForPendingUpload p g) as [[|] g1]; [by intros ?%elem_of_nil|].
  unfold lookupEntry, modest. destruct Hcase as [[-> ->]|Hs].
  - assert (baseline !! p = None) as -> by (rewrite Hb by (by assert ((∅ : entries) !! p = None) as -> by apply lookup_empty); apply lookup_empty).
    assert ((∅ : gmap string observedMeta) !! p = None) as -> by apply lookup_empty.
    destruct (rem !! p) as [r|] eqn:Er; [|by intros ?%elem_of_nil]. unfold planRemoteOnly. simpl. intros ->%list_elem_of_singleton.
    assert (a_path (planDownload p r false) = p) as Ep by (unfold planDownload; by repeat case_bool_decide).
    split; [done|]. rewrite Ep, Er. split; [unfold planDownload; by repeat case_bool_decide|]. left. rewrite lookup_empty.
    split_and!; try done; unfold planDownload; repeat case_bool_decide; simpl; try done; set_solver.
  - destruct (Hs p) as [[-> ->]|(l & r & e & Hl & Hr & He & Hag)]; [destruct (baseline !! p); by intros ?%elem_of_nil|].
    assert (baseline !! p = Some e) as ->.
    { rewrite Hb; [done|]. rewrite He, Hl. split; [|done]. by destruct Hag. }
    rewrite Hl, Hr. intros (Hd & Hp & Hns & Hm)%(agreed_plan p l r e g1 a Hag). split; [done|]. split; [done|]. right. exists l, r, e.
    rewrite Hp. by split_and!.
Qed.

Lemma pass_plan loc rem known o1 o2 g a : (loc = ∅ ∧ known = ∅) ∨ same_trees loc rem known → entries_of g = known →
  a ∈ fst (bindE (detectOfflineDeletes o1 loc) (λ _, buildPlan o2 loc rem) g) → modest loc rem known a.
Proof.
  intros Hcase Hg. unfold bindE. pose proof (λ q, detect_lookup o1 loc g q) as Hd. rewrite Hg in Hd.
  destruct (detectOfflineDeletes o1 loc g) as [u g3]. simpl in Hd. unfold buildPlan, bindE, getE. fold (entries_of g3).
  pose proof (planPaths_of (entries_of g3) loc rem o2 g3) as Hof. destruct (planPaths (entries_of g3) loc rem o2 g3) as [plan g4].
  intros (b & -> & Hb)%list_elem_of_fmap. destruct (Hof b Hb) as (p & g5 & Hin).
  destruct (pass_path loc rem known (entries_of g3) p g5 b Hcase Hd Hin) as [_ Hm]. unfold finishAction.
  by destruct (lookupEntry (entries_of g3) (a_path b)).
Qed.

(** C7: An approved mount is safe.  When the preflight lets a directory be mounted that
    is not known to belong to the workspace, the directory had nothing to synchronise
    and there is no baseline, or both sides had the same paths, of the same kinds,
    sizes and targets as the new baseline says; and a recovery pass that finds both
    sides so deletes nothing, downloads only what is missing locally, and
    otherwise acts only where permissions differ from the baseline's. *)
Theorem approved_mount_is_safe keys fuel workspace localRoot ml g plan g' : is_order keys →
  mountPreflight keys fuel workspace localRoot ml false g = (Ok plan, g') →
  ∃ loc rem, (∃ g1, fst (scanLocalMeta g1) = Ok loc) ∧ (∃ g1, fst (scanRemoteMeta fuel g1) = Ok rem) ∧
    ((loc = ∅ ∧ entries_of g' = ∅) ∨ same_trees loc rem (entries_of g')) ∧
    ∀ o1 o2 g2 a, entries_of g2 = entries_of g' →
      a ∈ fst (bindE (detectOfflineDeletes o1 loc) (λ _, buildPlan o2 loc rem) g2) → modest loc rem (entries_of g') a.
Proof.
  intros Hk (g0 & g1 & Hb & Hr & Hc & ->)%preflight_build. destruct (build_planned _ _ _ _ Hb) as (loc & rem & gb & Hl & Hrem & Hp).
  set (known' := entries_of (snd (approveMountReconcilePlan keys plan g1))).
  assert ((loc = ∅ ∧ known' = ∅) ∨ same_trees loc rem known') as Hcase.
  { pose proof (λ q, approve_lookup keys plan g1 q Hk) as Ha. fold known' in Ha.
    destruct (quiet_plan _ _ _ _ Hp Hr Hc) as [Hf|[-> He]].
    - right. intros q. destruct (pn_settled _ _ _ _ Hp Hf q) as [|(l & r & e & ? & ? & He & ?)]; [by left|]. right. specialize (Ha q).
      unfold entryAfter in He. destruct (mp_Baseline plan !! q) as [e0|].
      + injection He as ->. destruct Ha as [v Hv]. exists l, r, (setVersion v e). by split_and!.
      + exists l, r, e. rewrite Ha. by split_and!.
    - left. split; [done|]. apply map_empty. intros q. specialize (Ha q). rewrite (pn_baseline _ _ _ _ Hp) in Ha by done.
      assert ((∅ : entries) !! q = None) as Hq by apply lookup_empty. rewrite Hq in Ha. etrans; [exact Ha|]. rewrite He. apply lookup_empty. }
  exists loc, rem. split; [exists g0; by rewrite Hl|]. split; [by exists gb|]. split; [done|]. intros o1 o2 g2 a He Ha.
  by eapply pass_plan.
Qed.
End keeps.

(** * The first sync *)

(** The same kind, and the same target or size. *)
Definition alike (l r : observedMeta) : Prop :=
  o_kind l = o_kind r ∧ (o_kind l = "symlink" → o_target l = o_target r) ∧ (o_kind l = "file" → o_size l = o_size r).

Lemma equivalent_alike loc rem order g g' : equivalentPaths loc rem order g = (Ok true, g') →
  ∀ p l, p ∈ order → loc !! p = Some l → ∃ r, rem !! p = Some r ∧ alike l r.
Proof.
  revert g. induction order as [|q order IH]; intros g Hrun p l Hp Hl; [by apply elem_of_nil in Hp|].
  simpl in Hrun. apply elem_of_cons in Hp as [<-|Hp].
  - rewrite Hl in Hrun. destruct (rem !! p) as [r|]; [|done]. exists r. split; [done|].
    case_bool_decide as Ek; [|done]. simpl in Hrun. split; [done|].
    case_bool_decide as Ed; [by rewrite Ed|]. case_bool_decide as Es; [case_bool_decide; [|done]; by rewrite Es|].
    case_bool_decide as Ef; [|done]. destruct (o_size l =? o_size r) eqn:Ez; [|done]. split; [done|]. intros. lia.
  - assert (∃ g1, equivalentPaths loc rem order g1 = (Ok true, g')) as [g1 H1]; [|by eapply IH].
    repeat (case_match; try done; try (by eexists)); simpl in Hrun.
    apply bindR_Ok in Hrun as (? & ? & _ & Hrun). apply bindR_Ok in Hrun as (? & ? & _ & Hrun). case_match; [done|]. eauto.
Qed.

(** Without a baseline and without approval the daemon starts only when one side has
    nothing to synchronise, or when every local path is alike in the workspace and
    nothing else is there. *)
Lemma first_sync_guard keys fuel g g' : is_order keys → entries_of g = ∅ → validateInitialSyncSafety keys fuel false g = (Ok (), g') →
  (∃ g1, fst (hasSyncableLocalEntries g1) = Ok false) ∨ (∃ g1, fst (hasSyncableRemoteEntries g1) = Ok false) ∨
  ∃ loc rem, (∃ g1, fst (scanLocalMeta g1) = Ok loc) ∧ (∃ g1, fst (scanRemoteMeta fuel g1) = Ok rem) ∧ size loc = size rem ∧
    ∀ p l, loc !! p = Some l → ∃ r, rem !! p = Some r ∧ alike l r.
Proof.
  intros Hk He. unfold validateInitialSyncSafety, bindE at 1, getE at 1. fold (entries_of g). rewrite bool_decide_eq_true_2 by done. simpl.
  intros (b & g1 & H1%orReturn_Ok & H2)%bindR_Ok. destruct b; [|left; exists g; exact (f_equal fst H1)]. simpl in H2.
  apply bindR_Ok in H2 as (b & g2 & H2%orReturn_Ok & H3). destruct b; [|right; left; exists g1; exact (f_equal fst H2)]. simpl in H3.
  apply bindR_Ok in H3 as (b & g3 & H3%orReturn_Ok & H4). destruct b; [|done]. right. right.
  apply bindR_Ok in H3 as (loc & ga & Hl & H3). apply bindR_Ok in H3 as (rem & gb & Hr & H3).
  exists loc, rem. split; [exists g2; by rewrite Hl|]. split; [exists ga; by rewrite Hr|].
  destruct (Z.eqb_spec (Z.of_nat (size loc)) (Z.of_nat (size rem))); [|done]. simpl in H3. split; [lia|].
  intros p l Hp. eapply equivalent_alike; [exact H3| |done]. apply order_elem; [done|by eexists].
Qed.
End mount.

(** * Concrete mounts *)

(** The same file on both sides, readable by all on the one and private on the other. *)
Definition modes_tree : ltree := {[ "a" := Linode (NFile (string_bytes "hello")) 420 5000000 10 ]}.
Definition modes_remote : gmap string node := {[ "/a" := Node "file" 384 2 7 (string_bytes "hello") "" 0 [] ]}.
Definition modes_start : eng flat := sample_eng (newSyncState "w" "/m") modes_tree modes_remote.
Definition modes_pass : passChoices := {|
  pc_entries := ["a"]; pc_paths := ["a"]; pc_depth := 5; pc_late := 0; pc_sortDirs l := l; pc_sortDeletes l := l
|}.
Definition inRange : mapOrder := λ _ m, map fst (map_to_list m).
Definition populated : mountLocalSnapshot := {| ml_Exists := true; ml_EntryCount := 1 |}.
Definition modes_preflight := mountPreflight (cfg := sample_cfg false) inRange 5 "w" "/m" populated false modes_start.

Lemma inRange_order : is_order inRange.
Proof. by intros A m. Qed.

(** A directory with the same content mounts without a word, and the first pass then
    gives the file of the workspace the permissions of the local one. *)
Lemma identical_mount_publishes_modes :
  (∃ plan, fst modes_preflight = Ok plan ∧ mp_Operations plan = [] ∧ mp_SameCount plan = 1) ∧
  n_mode <$> modes_remote !! "/a" = Some 384 ∧
  n_mode <$> fl_nodes (g_remote (snd (warmStart (cfg := sample_cfg false) modes_pass (snd modes_preflight)))) !! "/a" = Some 420.
Proof. split; [eexists; split; [by vm_compute|by split]|by vm_compute]. Qed.

(** A read-only mount whose local file was edited: the plan announces that it stays
    as it is, the pass moves it aside and downloads. *)
Definition edited_entry : SyncEntry := {|
  e_Type := "file"; e_Mode := 292; e_Size := 5; e_LocalHash := "hello"; e_LocalIdentity := ""; e_LocalMtimeMs := 4; e_RemoteHash := "hello";
  e_RemoteMtimeMs := 7; e_Target := ""; e_LastSyncedAt := 0; e_ChunkSize := 0; e_ChunkHashes := []; e_Version := 1; e_Deleted := false |}.
Definition edited_start : eng flat :=
  sample_eng (withEntries (insert "a" edited_entry) (newSyncState "w" "/m")) {[ "a" := Linode (NFile (string_bytes "HELLO")) 292 5000000 10 ]} modes_remote.

Lemma readonly_edit_is_moved_aside :
  let r := mountPreflight (cfg := sample_cfg true) inRange 5 "w" "/m" populated true edited_start in
  let g := snd (warmStart (cfg := sample_cfg true) modes_pass (snd r)) in
  (∃ plan, fst r = Ok plan ∧ map mo_Code (mp_Operations plan) = ["S"]) ∧
  i_node <$> g_tree g !! "a" = Some (NFile (string_bytes "hello")) ∧
  (i_node <$> g_tree g !! "a.conflict-host-20240101-000000-1") = Some (NFile (string_bytes "HELLO")).
Proof. split; [eexists; split; [by vm_compute|done]|by vm_compute]. Qed.

Lemma approved_mount_is_safe_witness :
  ∃ loc rem, (∃ g1, fst (scanLocalMeta (cfg := sample_cfg false) g1) = Ok loc) ∧ (∃ g1, fst (scanRemoteMeta (cfg := sample_cfg false) 5 g1) = Ok rem) ∧
    ((loc = ∅ ∧ entries_of (snd modes_preflight) = ∅) ∨ same_trees loc rem (entries_of (snd modes_preflight))) ∧
    ∀ o1 o2 g2 a, entries_of g2 = entries_of (snd modes_preflight) →
      a ∈ fst (bindE (detectOfflineDeletes (cfg := sample_cfg false) o1 loc) (λ _, buildPlan (cfg := sample_cfg false) o2 loc rem) g2) →
      modest (cfg := sample_cfg false) loc rem (entries_of (snd modes_preflight)) a.
Proof.
  refine (approved_mount_is_safe (cfg := sample_cfg false) _ inRange 5 "w" "/m" populated modes_start
    (match fst modes_preflight with Ok p => p | Err _ => startPlan ∅ ∅ (newSyncState "" "") end) (snd modes_preflight) _ _).
  - done.
  - exact inRange_order.
  - by vm_compute.
Defined.
