(* ===== verification/McpFiles.v ===== *)
(** The MCP file server (internal/mcpfiles/files.go): reading, listing and creating
    files of a mounted folder for an agent, one system call at a time.

    A directory that is opened stays pinned by its inode.  Before every call others may
    change the file system in any way ([env]); a call may fail ([fault]).  What the
    operating system and the AFS command answer otherwise is in the class [Machine]. *)
From S2P Require Import Prelude Paths Glob Json HistoryPolicy.
#[local] Open Scope string_scope.
#[local] Open Scope list_scope.
#[local] Open Scope Z_scope.

Definition MaxFileBytes : Z := 1048576.
Definition MaxListEntries : nat := 1000.

(** * Paths *)

Definition reserved (name : string) : bool :=
  let n := ToLower name in
  HasPrefix n ".afs" || bool_decide (n = ".ds_store") || HasPrefix n "._" || Contains n ".afssync.".

Definition validPart (part : string) : bool :=
  negb (bool_decide (part = "") || bool_decide (part = ".") || bool_decide (part = "..") || reserved part).

Definition validatePath (p : string) (directory : bool) : bool :=
  if directory && bool_decide (p = "" ∨ p = ".") then true
  else negb (bool_decide (p = "")) && (Z.of_nat (String.length p) <=? 4096) && ValidString p
       && no_char "\" p && no_char "000" p && no_char ":" p && negb (HasPrefix p "/")
       && forallb validPart (Split p "/").

(** * The file system *)

Inductive node :=
| NDir (entries : gmap string Z)
| NReg (links : Z) (data : string)
| NLink
| NOther.
Notation fsys := (gmap Z node).

Inductive errno := ENOENT | EEXIST | ENOTDIR | ELOOP | EIO.
Inductive fileError :=
| Errno (e : errno)
| Rule (code message : string)
| Plain (message : string)
| Canceled.

(** What the AFS command prints (internal/mcpfiles/cli.go); [None] in [st_Sync] for a mount
    without folder sync, else whether it is connected and its last error. *)
Record StatusRow := {
  st_Workspace : string; st_Directory : string; st_Backend : string; st_State : string;
  st_ReadOnly : bool; st_Sync : option (bool * string)
}.
Record VerifyReport := { vf_Success : bool; vf_Verified : bool; vf_Workspace : string; vf_Directory : string }.

Class Machine := {
  env : Z → fsys → fsys;                 (* what others do before the call at a time *)
  fault : Z → bool;                      (* the call fails *)
  partial : Z → nat;                     (* the bytes a failing write has written *)
  pieces : Z → list nat;                 (* the sizes of the reads of a file but the last *)
  freshInode : Z → fsys → Z;
  fresh_free t s : s !! freshInode t s = None;
  random16 : Z → string;                 (* 16 random bytes in hexadecimal *)
  random16_hex t : String.length (random16 t) = 32%nat ∧ forallb (λ c, between 48 57 c || between 97 102 c) (codes (random16 t)) = true;
  directoryOrder : Z → gmap string Z → list string;
  directory_order t m : directoryOrder t m ≡ₚ map fst (map_to_list m);
  sameRoot : Z → bool;                   (* the mount directory is still the one opened *)
  accessible : Z → bool;
  directorySize : Z → Z;
  Workspace : string;
  Directory : string;
  syncStatus : Z → result string (list StatusRow);     (* [afs sync status] *)
  syncWait : Z → result string VerifyReport;           (* [afs sync --wait] *)
  locked : Z → bool;                     (* another process holds the lock *)
  polls : nat;                           (* tries for the lock before the caller gives up *)
  sha256hex : string → string;
  root : Z
}.

(** The state, the time, and for the theorems: the inodes this server created, the
    directories it opened under the control name, and its own steps. *)
Record world := {
  w_fs : fsys; w_time : Z; w_own : gset Z; w_control : gset Z; w_steps : list (fsys * fsys)
}.

Definition M (A : Type) : Type := world → result fileError A * world.

Section Monad.
Context {A B : Type}.
Definition retM (a : A) : M A := λ w, (Ok a, w).
Definition failM (e : fileError) : M A := λ w, (Err e, w).
Definition bindM (m : M A) (f : A → M B) : M B := λ w,
  match m w with (Ok a, w') => f a w' | (Err e, w') => (Err e, w') end.
Definition tryM (m : M A) : M (result fileError A) := λ w, let '(r, w') := m w in (Ok r, w').
End Monad.
Definition liftM {A} (r : result fileError A) : M A := λ w, (r, w).

Declare Scope mcp_scope.
Notation "x ← y ; z" := (bindM y (λ x, z)) (at level 20, y at level 100, z at level 200, only parsing) : mcp_scope.
#[local] Open Scope mcp_scope.

Section Server.
Context {MC : Machine}.

(** One call: others act, then it fails or does its work. *)
Definition sys {A} (f : Z → fsys → result errno A * fsys) : M A := λ w,
  let s := env (w_time w) (w_fs w) in
  if fault (w_time w) then
    (Err (Errno EIO), {| w_fs := s; w_time := w_time w + 1; w_own := w_own w; w_control := w_control w; w_steps := w_steps w |})
  else
    let '(r, s') := f (w_time w) s in
    (match r with Ok a => Ok a | Err e => Err (Errno e) end,
     {| w_fs := s'; w_time := w_time w + 1; w_own := w_own w; w_control := w_control w; w_steps := w_steps w ++ [(s, s')] |}).
Definition look {A} (f : Z → fsys → result errno A) : M A := sys (λ t s, (f t s, s)).
Definition atTime {A} (f : Z → A) : M A := λ w, (Ok (f (w_time w)), w).
Definition owning (x : Z) : M () := λ w,
  (Ok (), {| w_fs := w_fs w; w_time := w_time w; w_own := {[x]} ∪ w_own w; w_control := w_control w; w_steps := w_steps w |}).
Definition controlling (x : Z) : M () := λ w,
  (Ok (), {| w_fs := w_fs w; w_time := w_time w; w_own := w_own w; w_control := {[x]} ∪ w_control w; w_steps := w_steps w |}).

Definition entriesOf (s : fsys) (d : Z) : gmap string Z := match s !! d with Some (NDir e) => e | _ => ∅ end.
Definition entryOf (s : fsys) (d : Z) (name : string) : option (Z * node) :=
  match entriesOf s d !! name with Some x => match s !! x with Some n => Some (x, n) | None => None end | None => None end.

(** [openat] of a directory, no link followed. *)
Definition openDirAt (d : Z) (name : string) : M Z := look (λ _ s,
  match entryOf s d name with
  | None => Err ENOENT
  | Some (x, NDir _) => Ok x
  | Some _ => Err ENOTDIR
  end).

(** A new entry of a directory that is there. *)
Definition addEntry (d : Z) (name : string) (x : Z) (n : node) (s : fsys) : option fsys :=
  match s !! d with Some (NDir e) => Some (<[d := NDir (<[name := x]> e)]> (<[x := n]> s)) | _ => None end.

Definition mkdirAt (d : Z) (name : string) : M () := sys (λ t s,
  match entriesOf s d !! name with
  | Some _ => (Err EEXIST, s)
  | None => match addEntry d name (freshInode t s) (NDir ∅) s with Some s' => (Ok (), s') | None => (Err ENOENT, s) end
  end).

(** [O_CREAT | O_EXCL]. *)
Definition createExcl (d : Z) (name : string) : M Z := sys (λ t s,
  match entriesOf s d !! name with
  | Some _ => (Err EEXIST, s)
  | None => match addEntry d name (freshInode t s) (NReg 1 "") s with Some s' => (Ok (freshInode t s), s') | None => (Err ENOENT, s) end
  end).

(** [O_CREAT | O_RDWR | O_NOFOLLOW]. *)
Definition createOrOpen (d : Z) (name : string) : M () := sys (λ t s,
  match entryOf s d name with
  | Some (_, NLink) => (Err ELOOP, s)
  | Some (_, NDir _) => (Err EIO, s)
  | Some _ => (Ok (), s)
  | None => match entriesOf s d !! name with
            | Some _ => (Err ENOENT, s)
            | None => match addEntry d name (freshInode t s) (NReg 1 "") s with Some s' => (Ok (), s') | None => (Err ENOENT, s) end
            end
  end).

Definition addLinks (x : Z) (k : Z) (s : fsys) : fsys :=
  match s !! x with Some (NReg l data) => <[x := NReg (l + k) data]> s | _ => s end.

Definition unlinkAt (d : Z) (name : string) : M () := sys (λ _ s,
  match s !! d, entryOf s d name with
  | _, Some (_, NDir _) => (Err EIO, s)
  | Some (NDir e), Some (x, _) => (Ok (), addLinks x (-1) (<[d := NDir (delete name e)]> s))
  | _, _ => (Err ENOENT, s)
  end).

(** [linkat]: nothing at the destination is replaced. *)
Definition linkAt (d : Z) (name : string) (d' : Z) (name' : string) : M () := sys (λ _ s,
  match entryOf s d name, entriesOf s d' !! name' with
  | None, _ => (Err ENOENT, s)
  | Some _, Some _ => (Err EEXIST, s)
  | Some (_, NDir _), None => (Err EIO, s)
  | Some (x, n), None => match addEntry d' name' x n s with Some s' => (Ok (), addLinks x 1 s') | None => (Err ENOENT, s) end
  end).

Definition appendTo (x : Z) (data : string) (s : fsys) : fsys :=
  match s !! x with Some (NReg l old) => <[x := NReg l (old +:+ data)]> s | _ => s end.

(** A failing write leaves some of the bytes. *)
Definition writeAll (x : Z) (data : string) : M () := λ w,
  let s := env (w_time w) (w_fs w) in
  let failed := fault (w_time w) in
  let s' := appendTo x (if failed then String.substring 0 (partial (w_time w)) data else data) s in
  (if failed then Err (Errno EIO) else Ok (),
   {| w_fs := s'; w_time := w_time w + 1; w_own := w_own w; w_control := w_control w; w_steps := w_steps w ++ [(s, s')] |}).

Definition sync : M () := look (λ _ _, Ok ()).

(** * Directories and files *)

Fixpoint openParts (d : Z) (parts : list string) (create : bool) : M Z :=
  match parts with
  | [] => retM d
  | part :: parts =>
      _ ← (if create then
             r ← tryM (mkdirAt d part);
             match r with Err (Errno EEXIST) | Ok _ => retM () | Err e => failM e end
           else retM ());
      next ← openDirAt d part;
      openParts next parts create
  end.

Definition directoryFD (p : string) (create : bool) : M Z :=
  _ ← look (λ _ _, Ok ());
  if bool_decide (p = "" ∨ p = ".") then retM root else openParts root (Split p "/") create.

Definition controlName : string := ".afs-lite-sync".

(** The control directory, which the theorems tell apart. *)
Definition controlFD : M Z := d ← directoryFD controlName false; _ ← controlling d; retM d.

(** [io.ReadAll] up to a byte more than the limit, piece by piece. *)
Fixpoint readPieces (x : Z) (off : nat) (sizes : list nat) : M string :=
  match sizes with
  | [] => look (λ _ s, Ok match s !! x with
                          | Some (NReg _ data) => String.substring off (Z.to_nat (MaxFileBytes + 1) - off) data
                          | _ => ""
                          end)
  | n :: sizes =>
      piece ← look (λ _ s, Ok match s !! x with Some (NReg _ data) => String.substring off n data | _ => "" end);
      rest ← readPieces x (off + String.length piece) sizes;
      retM (piece +:+ rest)
  end.

Definition readRegular (x : Z) (kind : node) : M string :=
  match kind with
  | NReg _ info =>
      links ← look (λ _ s, Ok match s !! x with Some (NReg l _) => l | _ => 0 end);
      if negb (links =? 1) then failM (Rule "unsafe_path" "hard-linked files are forbidden")
      else if MaxFileBytes <? Z.of_nat (String.length info) then failM (Rule "file_too_large" "file exceeds 1 MiB")
      else
        sizes ← atTime pieces;
        data ← readPieces x 0 sizes;
        if (MaxFileBytes <? Z.of_nat (String.length data)) || negb (ValidString data)
        then failM (Rule "unsupported_file" "file must be UTF-8 and at most 1 MiB")
        else retM data
  | _ => failM (Rule "unsupported_file" "only regular files are supported")
  end.

Definition readAt (d : Z) (name : string) : M string :=
  x ← look (λ _ s, match entryOf s d name with
                   | None => Err ENOENT
                   | Some (_, NLink) => Err ELOOP
                   | Some (x, _) => Ok x
                   end);
  kind ← look (λ _ s, Ok (default NOther (s !! x)));
  readRegular x kind.

Definition digest (data : string) : string := sha256hex data.

Definition invalidPath : fileError := Plain "use a relative slash-separated path".

(** The directory of a relative path and its last name ([filepath.Dir], [filepath.Base]). *)
Definition Read (p : string) : M string :=
  if negb (validatePath p false) then failM invalidPath
  else d ← directoryFD (Dir p) false; readAt d (Base p).

Record Entry := { en_Path : string; en_Type : string; en_Bytes : Z }.

Fixpoint listEntries (d : Z) (p : string) (names : list string) : M (list Entry) :=
  match names with
  | [] => retM []
  | name :: names =>
      if reserved name || negb (validatePath name false) then listEntries d p names
      else
        xn ← look (λ _ s, match entryOf s d name with Some xn => Ok xn | None => Err ENOENT end);
        rest ← listEntries d p names;
        retM match xn.2 with
             | NDir _ => {| en_Path := PathJoin p name; en_Type := "directory"; en_Bytes := directorySize xn.1 |} :: rest
             | NReg links data =>
                 if links =? 1 then {| en_Path := PathJoin p name; en_Type := "file"; en_Bytes := Z.of_nat (String.length data) |} :: rest
                 else rest
             | _ => rest
             end
  end.

Definition pathBefore (a b : Entry) : bool := stringLess (en_Path a) (en_Path b).

Definition List `{!SliceSort pathBefore} (p : string) : M (list Entry) :=
  if negb (validatePath p true) then failM invalidPath
  else
    d ← directoryFD p false;
    names ← look (λ t s, Ok (directoryOrder t (entriesOf s d)));
    if (MaxListEntries <? length names)%nat
    then failM (Rule "directory_too_large" "directory exceeds 1000 entries; list a smaller directory")
    else entries ← listEntries d p names; retM (sort_slice (less := pathBefore) entries).

(** * Creating files *)

Fixpoint pollLock (tries : nat) : M () :=
  match tries with
  | O => failM Canceled
  | S tries =>
      held ← look (λ t _, Ok (locked t));
      if (held : bool) then pollLock tries else retM ()
  end.

Definition lock : M () :=
  d ← controlFD;
  _ ← createOrOpen d "mcp-write.lock";
  pollLock polls.

Definition stageName (name : string) : bool :=
  HasPrefix name "mcp-" && HasSuffix name ".tmp" && (String.length name =? 40)%nat
  && forallb (λ c, between 48 57 c || between 97 102 c || between 65 70 c) (codes (String.substring 4 32 name)).

Fixpoint removeStages (d : Z) (names : list string) : M () :=
  match names with
  | [] => retM ()
  | name :: names =>
      _ ← (if stageName name then
             r ← tryM (unlinkAt d name);
             match r with Ok _ | Err (Errno ENOENT) => retM () | Err e => failM e end
           else retM ());
      removeStages d names
  end.

Definition cleanStages : M () :=
  d ← controlFD;
  names ← look (λ t s, Ok (directoryOrder t (entriesOf s d)));
  removeStages d names.

(** [None] when the mount is healthy. *)
Definition lifecycleCheck (t : Z) : option string :=
  match syncStatus t with
  | Err e => Some e
  | Ok [r] =>
      if bool_decide (st_Workspace r = Workspace) && bool_decide (st_Directory r = Directory) && bool_decide (st_Backend r = "sync")
         && negb (st_ReadOnly r) && bool_decide (st_State r = "running") && bool_decide (st_Sync r = Some (true, ""))
      then None
      else Some "configured workspace is not a healthy writable folder-sync mount"
  | Ok _ => Some "configured mount not found"
  end.
Definition lifecycleVerify (t : Z) : option string :=
  match syncWait t with
  | Err e => Some e
  | Ok r =>
      if vf_Success r && vf_Verified r && bool_decide (vf_Workspace r = Workspace) && bool_decide (vf_Directory r = Directory)
      then None
      else Some "AFS did not verify the configured workspace"
  end.

Definition answer (f : Z → option string) : M () :=
  r ← look (λ t _, Ok (f t));
  match (r : option string) with None => retM () | Some e => failM (Plain e) end.

Definition Check : M () :=
  same ← look (λ t _, Ok (sameRoot t));
  if negb same then failM (Plain "mount directory identity changed")
  else
    access ← look (λ t _, Ok (accessible t));
    if negb access then failM (Plain "mount directory is not readable and writable")
    else
      r ← tryM (look (λ _ s, match entriesOf s root !! ".afsignore" with None => Err ENOENT | Some _ => Ok () end));
      match r with
      | Err (Errno ENOENT) => answer lifecycleCheck
      | _ => failM (Plain "MCP mount must not contain .afsignore")
      end.

Definition Ready : M () :=
  _ ← lock; _ ← cleanStages; _ ← Check; answer lifecycleVerify.

(** A deferred removal: whatever [m] does, the staging name goes when it is over. *)
Definition thenUnlink {A} (d : Z) (name : string) (m : M A) : M A :=
  r ← tryM m; _ ← tryM (unlinkAt d name); liftM r.

(** The file does not exist: stage the bytes, link them, read what is there then, and
    go on with [k].  What [k] gets first is whether the link was made; an error comes with
    it.  The staging name is removed once more when all is over. *)
Definition publish {A} (d : Z) (name data : string) (k : bool * result fileError string → M A) : M A :=
  stage ← tryM controlFD;
  match stage with
  | Err e => k (false, Err e)
  | Ok stage =>
      bytes ← atTime random16;
      let tmp := "mcp-" +:+ bytes +:+ ".tmp" in
      fd ← tryM (x ← createExcl stage tmp; _ ← owning x; retM x);
      match fd with
      | Err e => k (false, Err e)
      | Ok x =>
          thenUnlink stage tmp (
            written ← tryM (_ ← writeAll x data; sync);
            closed ← tryM sync;
            match written, closed with
            | Err e, _ | Ok _, Err e => k (false, Err e)
            | Ok _, Ok _ =>
                linked ← tryM (linkAt stage tmp d name);
                match linked with
                | Ok _ | Err (Errno EEXIST) =>
                    let created := match linked with Ok _ => true | Err _ => false end in
                    existing ← tryM (_ ← unlinkAt stage tmp; _ ← sync; readAt d name);
                    k (created, existing)
                | Err e => k (false, Err e)
                end
            end)
      end
  end.

(** The end of [Write], from what was found at the path. *)
Definition confirm (p sha : string) (found : bool * result fileError string) : M (bool * result fileError ()) :=
  let '(created, found) := found in
  match found with
  | Err e => retM (created, Err e)
  | Ok existing =>
      if negb (bool_decide (digest existing = sha))
      then retM (created, Err (Plain "file exists with different content; choose a new path"))
      else
        verified ← tryM (answer lifecycleVerify);
        match verified with
        | Err e => retM (created, Err e)
        | Ok _ =>
            confirmed ← tryM (Read p);
            match confirmed with
            | Ok data => if bool_decide (digest data = sha) then retM (created, Ok ())
                         else retM (created, Err (Plain "file changed during verification; publication unconfirmed"))
            | Err _ => retM (created, Err (Plain "file changed during verification; publication unconfirmed"))
            end
        end
  end.

(** Whether the file was created, and the error. *)
Definition Write (p data sha : string) : M (bool * result fileError ()) :=
  if negb (validatePath p false) then retM (false, Err invalidPath)
  else if (MaxFileBytes <? Z.of_nat (String.length data)) || negb (ValidString data)
  then retM (false, Err (Plain "content must be UTF-8 and at most 1 MiB"))
  else if negb (String.length sha =? 64)%nat || negb (bool_decide (sha = digest data))
  then retM (false, Err (Plain "sha256 must be the lowercase SHA-256 of the UTF-8 content"))
  else
    opened ← tryM (_ ← lock; _ ← cleanStages; _ ← Check; directoryFD (Dir p) true);
    match opened with
    | Err e => retM (false, Err e)
    | Ok d =>
        existing ← tryM (readAt d (Base p));
        match existing with
        | Err (Errno ENOENT) => publish d (Base p) data (confirm p sha)
        | _ => confirm p sha (false, existing)
        end
    end.

(** * The tools (internal/mcpfiles/server.go) *)

Inductive reply :=
| Failure (code : string) (retryable : bool)
| ReadyReply
| ListReply (files : list Entry)
| ReadReply (content sha : string) (bytes : Z)
| WriteReply (created : bool) (sha : string) (bytes : Z).

Definition fileFailure (e : fileError) : reply :=
  match e with
  | Rule code _ => Failure code false
  | Errno ENOENT => Failure "not_found" false
  | Errno ELOOP | Errno ENOTDIR => Failure "unsafe_path" false
  | _ => Failure "file_error" false
  end.

(** What a tool does behind the check of the mount. *)
Definition whenReady (k : M reply) : M reply :=
  ready ← tryM Check;
  match ready with Err _ => retM (Failure "not_ready" true) | Ok _ => k end.

Definition workspace_status : M reply := whenReady (retM ReadyReply).

Definition list_files `{!SliceSort pathBefore} (p : string) : M reply :=
  if negb (validatePath p true) then retM (Failure "invalid_path" false)
  else whenReady (
    entries ← tryM (List p);
    retM match entries with Ok files => ListReply files | Err e => fileFailure e end).

Definition read_file (p : string) : M reply :=
  if negb (validatePath p false) then retM (Failure "invalid_path" false)
  else whenReady (
    data ← tryM (Read p);
    retM match data with
         | Ok data => ReadReply data (digest data) (Z.of_nat (String.length data))
         | Err e => fileFailure e
         end).

(** The answer to a failed write that has created nothing: what is at the path now tells
    whether the same call may be repeated. *)
Definition writeFailure (p sha : string) (e : fileError) : M reply :=
  data ← tryM (Read p);
  retM match data with
       | Ok data => if bool_decide (digest data = sha) then Failure "publication_unconfirmed" true else Failure "already_exists" false
       | Err _ =>
           match e with
           | Errno ELOOP | Errno ENOTDIR | Rule _ _ => fileFailure e
           | _ => Failure "write_failed" true
           end
       end.

Definition write_file (p content sha : string) : M reply :=
  if negb (validatePath p false) then retM (Failure "invalid_path" false)
  else if (MaxFileBytes <? Z.of_nat (String.length content)) || negb (ValidString content)
  then retM (Failure "invalid_content" false)
  else if negb (bool_decide (sha = digest content)) then retM (Failure "hash_mismatch" false)
  else whenReady (
    written ← Write p content sha;
    match written with
    | (created, Ok _) => retM (WriteReply created sha (Z.of_nat (String.length content)))
    | (true, Err _) => retM (Failure "publication_unconfirmed" true)
    | (false, Err e) => writeFailure p sha e
    end).

(** The four tools the server registers. *)
Inductive tool :=
| WorkspaceStatus
| ListFiles (p : string)
| ReadFile (p : string)
| WriteFile (p content sha : string).

Definition handle `{!SliceSort pathBefore} (t : tool) : M reply :=
  match t with
  | WorkspaceStatus => workspace_status
  | ListFiles p => list_files p
  | ReadFile p => read_file p
  | WriteFile p content sha => write_file p content sha
  end.

(** A server that has done nothing yet. *)
Definition start (s : fsys) (now : Z) : world := {| w_fs := s; w_time := now; w_own := ∅; w_control := ∅; w_steps := [] |}.
End Server.
