(* ===== verification/McpFilesProps.v ===== *)
(** The MCP file server only creates (C14): whatever others do and whatever call
    fails, no step of it changes the bytes of a file it did not create itself, or
    takes an entry away but one of its own staging names from the control directory;
    and a write it confirms was read back with the agreed digest. *)
From S2P Require Import Prelude Paths Glob Json HistoryPolicy McpFiles.
#[local] Open Scope string_scope.
#[local] Open Scope list_scope.
#[local] Open Scope Z_scope.

Section Careful.
Context {MC : Machine}.

(** ** Steps that only create *)

(** [own]: files the server created.  [control]: directories it opened as the control
    directory. *)
Definition kept (own control : gset Z) (x : Z) (n n' : node) : Prop :=
  match n, n' with
  | NDir e, NDir e' => ∀ name y, e !! name = Some y → e' !! name = Some y ∨ x ∈ control ∧ stageName name = true
  | NReg _ data, NReg _ data' => data' = data ∨ x ∈ own
  | NLink, NLink | NOther, NOther => True
  | _, _ => False
  end.

Definition careful (own control : gset Z) (s s' : fsys) : Prop :=
  ∀ x n, s !! x = Some n → ∃ n', s' !! x = Some n' ∧ kept own control x n n'.

Lemma kept_refl own control x n : kept own control x n n.
Proof. destruct n; simpl; auto. Qed.

Lemma kept_trans own control x n1 n2 n3 : kept own control x n1 n2 → kept own control x n2 n3 → kept own control x n1 n3.
Proof.
  destruct n1, n2, n3; simpl; try done.
  - intros H1 H2 name y Hn. destruct (H1 name y Hn) as [?|?]; auto.
  - intros [->|?] [->|?]; auto.
Qed.

Lemma careful_refl own control s : careful own control s s.
Proof. intros x n H. exists n. split; [done|apply kept_refl]. Qed.

Lemma careful_trans own control s1 s2 s3 : careful own control s1 s2 → careful own control s2 s3 → careful own control s1 s3.
Proof.
  intros H1 H2 x n Hx. destruct (H1 x n Hx) as (n' & Hx' & K1). destruct (H2 x n' Hx') as (n'' & Hx'' & K2).
  exists n''. split; [done|by eapply kept_trans].
Qed.

Lemma careful_mono own control own' control' s s' : own ⊆ own' → control ⊆ control' → careful own control s s' → careful own' control' s s'.
Proof.
  intros Ho Hc H x n Hx. destruct (H x n Hx) as (n' & Hx' & K). exists n'. split; [done|].
  destruct n, n'; simpl in *; try done; [|set_solver]. intros name y Hn. destruct (K name y Hn) as [?|[? ?]]; [by left|right; set_solver].
Qed.

Lemma careful_insert own control s x n : (∀ m, s !! x = Some m → kept own control x m n) → careful own control s (<[x := n]> s).
Proof.
  intros H y m Hy. destruct (decide (x = y)) as [->|Hne].
  - exists n. rewrite lookup_insert_eq. split; [done|by apply H].
  - exists m. rewrite lookup_insert_ne by done. split; [done|apply kept_refl].
Qed.

Lemma careful_addLinks own control x k s : careful own control s (addLinks x k s).
Proof.
  unfold addLinks. destruct (s !! x) as [[]|] eqn:E; try apply careful_refl. apply careful_insert.
  intros m Hm. rewrite E in Hm. injection Hm as <-. by left.
Qed.

Lemma careful_appendTo own control x data s : x ∈ own → careful own control s (appendTo x data s).
Proof.
  intros Hx. unfold appendTo. destruct (s !! x) as [[]|] eqn:E; try apply careful_refl. apply careful_insert.
  intros m Hm. rewrite E in Hm. injection Hm as <-. by right.
Qed.

(** A free name is bound to a new inode or to one that stays as it is. *)
Lemma careful_addEntry own control d name x n s s' : entriesOf s d !! name = None → (s !! x = None ∨ s !! x = Some n) →
  addEntry d name x n s = Some s' → careful own control s s'.
Proof.
  unfold addEntry, entriesOf. intros Hn Hx. destruct (s !! d) as [[e| | |]|] eqn:Ed; try done. intros [= <-].
  eapply careful_trans; [apply (careful_insert _ _ s x n)|apply careful_insert].
  - intros m Hm. destruct Hx as [Hx|Hx]; [congruence|]. rewrite Hx in Hm. injection Hm as <-. apply kept_refl.
  - intros m Hm. assert (m = NDir e) as ->.
    { destruct (decide (x = d)) as [->|]; [rewrite lookup_insert_eq in Hm; destruct Hx; congruence|]. rewrite lookup_insert_ne in Hm by done. congruence. }
    intros k y Hk. left. destruct (decide (name = k)) as [->|]; [congruence|by rewrite lookup_insert_ne].
Qed.

(** ** Runs *)

(** A run that only creates: its new steps are careful, the files it owns were created in
    one of them, and its control directories were found under the control name. *)
Record grows (w w' : world) : Prop := {
  gr_own : w_own w ⊆ w_own w';
  gr_control : w_control w ⊆ w_control w';
  gr_steps : ∃ steps, w_steps w' = w_steps w ++ steps ∧
    (∀ s s', (s, s') ∈ steps → careful (w_own w') (w_control w') s s') ∧
    (∀ x, x ∈ w_own w' → x ∈ w_own w ∨ ∃ s s', (s, s') ∈ steps ∧ s !! x = None ∧ s' !! x ≠ None) ∧
    (∀ x, x ∈ w_control w' → x ∈ w_control w ∨ ∃ s s', (s, s') ∈ steps ∧ entriesOf s root !! controlName = Some x)
}.

#[export] Instance grows_preorder : PreOrder grows.
Proof.
  split.
  - intros w. split; [done|done|]. exists []. rewrite app_nil_r. split_and!; [done|by intros ? ? ?%elem_of_nil|by left|by left].
  - intros w1 w2 w3 [O1 C1 (l1 & E1 & S1 & N1 & K1)] [O2 C2 (l2 & E2 & S2 & N2 & K2)]. split; [set_solver|set_solver|].
    exists (l1 ++ l2). rewrite E2, E1, app_assoc. split_and!; [done| | |].
    + intros s s' [H|H]%elem_of_app; [|by apply S2]. by eapply careful_mono; [..|apply S1].
    + intros x Hx. destruct (N2 x Hx) as [H|(s & s' & H & ?)]; [destruct (N1 x H) as [?|(s & s' & ? & ?)]; [by left|]|]; right; exists s, s';
        (split; [apply elem_of_app; auto|done]).
    + intros x Hx. destruct (K2 x Hx) as [H|(s & s' & H & ?)]; [destruct (K1 x H) as [?|(s & s' & ? & ?)]; [by left|]|]; right; exists s, s';
        (split; [apply elem_of_app; auto|done]).
Qed.

(** [m] only creates, from a world where the server owns the files [O] and knows the
    directories [C] as control directories. *)
Definition creates {A} (O C : gset Z) (m : M A) : Prop := ∀ w, O ⊆ w_own w → C ⊆ w_control w → grows w (m w).2.

Lemma creates_ret {A} O C (a : A) : creates O C (retM a).
Proof. intros w _ _. simpl. reflexivity. Qed.
Lemma creates_fail {A} O C e : creates O C (failM (A := A) e).
Proof. intros w _ _. simpl. reflexivity. Qed.
Lemma creates_lift {A} O C (r : result fileError A) : creates O C (liftM r).
Proof. intros w _ _. simpl. reflexivity. Qed.
Lemma creates_atTime {A} O C (f : Z → A) : creates O C (atTime f).
Proof. intros w _ _. simpl. reflexivity. Qed.

Lemma creates_then {A B} O C (m : M A) (f : A → M B) : creates O C m →
  (∀ w a w1, O ⊆ w_own w → C ⊆ w_control w → m w = (Ok a, w1) → ∃ O' C', O' ⊆ w_own w1 ∧ C' ⊆ w_control w1 ∧ creates O' C' (f a)) →
  creates O C (bindM m f).
Proof.
  intros Hm Hf w HO HC. unfold bindM. specialize (Hm w HO HC). destruct (m w) as [[a|e] w1] eqn:E; [|exact Hm]. simpl in Hm.
  etrans; [exact Hm|]. destruct (Hf w a w1 HO HC E) as (O' & C' & ? & ? & H). by apply H.
Qed.

Lemma creates_bind {A B} O C (m : M A) (f : A → M B) : creates O C m → (∀ a, creates O C (f a)) → creates O C (bindM m f).
Proof.
  intros Hm Hf. apply creates_then; [done|]. intros w a w1 HO HC E. exists O, C.
  destruct (Hm w HO HC) as [Ho Hc _]. rewrite E in Ho, Hc. split_and!; [set_solver|set_solver|done].
Qed.

Lemma creates_try {A} O C (m : M A) : creates O C m → creates O C (tryM m).
Proof. intros Hm w HO HC. unfold tryM. specialize (Hm w HO HC). by destruct (m w). Qed.

Lemma creates_mono {A} O C O' C' (m : M A) : O ⊆ O' → C ⊆ C' → creates O C m → creates O' C' m.
Proof. intros ? ? Hm w HO HC. apply Hm; set_solver. Qed.

Lemma creates_sys {A} O C (f : Z → fsys → result errno A * fsys) :
  (∀ t s own control, C ⊆ control → careful own control s (f t s).2) → creates O C (sys f).
Proof.
  intros H w _ Hw. unfold sys. destruct (fault (w_time w)).
  - split; [done|done|]. exists []. simpl. rewrite app_nil_r. split_and!; [done|by intros ? ? ?%elem_of_nil|by left|by left].
  - destruct (f _ _) as [r s'] eqn:E. split; [done|done|]. simpl. eexists. split_and!; [done| |by left|by left].
    intros a b [= -> ->]%list_elem_of_singleton. pose proof (H (w_time w) (env (w_time w) (w_fs w)) (w_own w) (w_control w) Hw) as Hc. by rewrite E in Hc.
Qed.

Lemma creates_look {A} O C (f : Z → fsys → result errno A) : creates O C (look f).
Proof. apply creates_sys. intros. apply careful_refl. Qed.

(** ** The calls *)

Lemma entryOf_entries s d name x n : entryOf s d name = Some (x, n) → entriesOf s d !! name = Some x ∧ s !! x = Some n.
Proof. unfold entryOf. destruct (_ !! name); [|done]. destruct (s !! z) eqn:E; [|done]. by intros [= <- <-]. Qed.

Lemma careful_new own control d name n t s s' : entriesOf s d !! name = None →
  addEntry d name (freshInode t s) n s = Some s' → careful own control s s'.
Proof. intros Hn. apply careful_addEntry; [done|left; apply fresh_free]. Qed.

Lemma creates_mkdirAt O C d name : creates O C (mkdirAt d name).
Proof.
  apply creates_sys. intros t s own control _. destruct (entriesOf s d !! name) eqn:E; [apply careful_refl|].
  destruct (addEntry _ _ _ _ _) eqn:A; [by eapply careful_new|apply careful_refl].
Qed.

Lemma creates_createOrOpen O C d name : creates O C (createOrOpen d name).
Proof.
  apply creates_sys. intros t s own control _. destruct (entryOf s d name) as [[x []]|]; try apply careful_refl.
  destruct (entriesOf s d !! name) eqn:E; [apply careful_refl|]. destruct (addEntry _ _ _ _ _) eqn:A; [by eapply careful_new|apply careful_refl].
Qed.

Lemma creates_unlinkAt O C d name : d ∈ C → stageName name = true → creates O C (unlinkAt d name).
Proof.
  intros Hd Hs. apply creates_sys. intros t s own control HC. destruct (s !! d) as [[e| | |]|] eqn:Ed, (entryOf s d name) as [[x []]|]; try apply careful_refl;
    (eapply careful_trans; [apply careful_insert|apply careful_addLinks]);
    intros m Hm; rewrite Ed in Hm; injection Hm as <-; intros k y Hk;
    (destruct (decide (name = k)) as [<-|]; [right; split; [set_solver|done]|left; by rewrite lookup_delete_ne]).
Qed.

Lemma creates_linkAt O C d name d' name' : creates O C (linkAt d name d' name').
Proof.
  apply creates_sys. intros t s own control _. destruct (entryOf s d name) as [[x n]|] eqn:E; [|apply careful_refl].
  apply entryOf_entries in E as [_ Hx].
  destruct (entriesOf s d' !! name') eqn:E', n; try apply careful_refl;
    (destruct (addEntry _ _ _ _ _) eqn:A; [|apply careful_refl]); (eapply careful_trans; [|apply careful_addLinks]);
    (eapply careful_addEntry; [done|right; done|done]).
Qed.

Lemma creates_writeAll O C x data : x ∈ O → creates O C (writeAll x data).
Proof.
  intros Hx w HO HC. unfold writeAll. split; [done|done|]. simpl. eexists. split_and!; [done| |by left|by left].
  intros a b [= -> ->]%list_elem_of_singleton. apply careful_appendTo. set_solver.
Qed.

Lemma addEntry_lookup d name x n s s' : addEntry d name x n s = Some s' → s' !! x ≠ None.
Proof.
  unfold addEntry. destruct (s !! d) as [[e| | |]|]; try done. intros [= <-]. destruct (decide (x = d)) as [->|].
  - by rewrite lookup_insert_eq.
  - by rewrite lookup_insert_ne, lookup_insert_eq.
Qed.

(** The staging file is the server's from the call that made it. *)
Definition ownNew (d : Z) (name : string) : M Z := bindM (createExcl d name) (λ x, bindM (owning x) (λ _, retM x)).

Lemma creates_ownNew O C d name : creates O C (ownNew d name).
Proof.
  intros w HO HC. unfold ownNew, createExcl, sys, bindM.
  assert (grows w {| w_fs := env (w_time w) (w_fs w); w_time := w_time w + 1; w_own := w_own w; w_control := w_control w; w_steps := w_steps w |}) as Hquiet.
  { split; [done|done|]. exists []. simpl. rewrite app_nil_r. split_and!; [done|by intros ? ? ?%elem_of_nil|by left|by left]. }
  assert (∀ s, grows w {| w_fs := s; w_time := w_time w + 1; w_own := w_own w; w_control := w_control w; w_steps := w_steps w ++ [(s, s)] |}) as Hstill.
  { intros s. split; [done|done|]. simpl. eexists. split_and!; [done| |by left|by left].
    intros a b [= -> ->]%list_elem_of_singleton. apply careful_refl. }
  destruct (fault (w_time w)); [exact Hquiet|]. set (s := env _ _).
  destruct (entriesOf s d !! name) eqn:E; simpl; [apply Hstill|].
  destruct (addEntry _ _ _ _ _) eqn:A; simpl; [|apply Hstill].
  split; simpl; [set_solver|done|]. eexists. split_and!; [done| | |by left].
  - intros a b [= -> ->]%list_elem_of_singleton. by eapply careful_new.
  - intros x [->%elem_of_singleton|Hx]%elem_of_union; [right|by left]. do 2 eexists. split; [by apply list_elem_of_singleton|].
    split; [apply fresh_free|by eapply addEntry_lookup].
Qed.

Lemma ownNew_owned w d name x w1 : ownNew d name w = (Ok x, w1) → x ∈ w_own w1.
Proof.
  unfold ownNew, bindM. destruct (createExcl d name w) as [[y|] w2]; [|done]. simpl. intros [= <- <-]. simpl. set_solver.
Qed.

(** A directory is the server's control directory when it was found under the control name. *)
Lemma openDirAt_found d name w x w1 : openDirAt d name w = (Ok x, w1) →
  w_own w1 = w_own w ∧ w_control w1 = w_control w ∧ ∃ s, w_steps w1 = w_steps w ++ [(s, s)] ∧ entriesOf s d !! name = Some x.
Proof.
  unfold openDirAt, look, sys. destruct (fault _); [done|]. destruct (entryOf _ d name) as [[y n]|] eqn:E; [|done].
  apply entryOf_entries in E as [E _]. destruct n; try done. intros [= <- <-]. simpl. eauto.
Qed.

Definition controlOpened : M Z := bindM (openDirAt root controlName) (λ d, bindM (controlling d) (λ _, retM d)).

Lemma controlFD_opened : ∀ w, controlFD w = bindM (look (λ _ _, Ok ())) (λ _, controlOpened) w.
Proof.
  intros w. change (directoryFD controlName false) with
    (bindM (look (λ _ _, Ok ())) (λ _, bindM (retM ()) (λ _, bindM (openDirAt root controlName) retM))).
  unfold controlFD, controlOpened, directoryFD, bindM, retM. change (Split controlName "/") with [controlName].
  cbn [openParts]. unfold bindM, retM, bool_decide. simpl. destruct (look _ w) as [[?|?] ?]; [|done]. by destruct (openDirAt _ _ _) as [[?|?] ?].
Qed.

Lemma creates_controlOpened O C : creates O C controlOpened.
Proof.
  intros w HO HC. unfold controlOpened, bindM. destruct (openDirAt root controlName w) as [[x|e] w1] eqn:E.
  - destruct (openDirAt_found _ _ _ _ _ E) as (Ho & Hc & s & Hs & Hf). split; simpl; [set_solver|set_solver|]. exists [(s, s)].
    split_and!; [done| | |].
    + intros a b [= -> ->]%list_elem_of_singleton. apply careful_refl.
    + intros y Hy. left. set_solver.
    + intros y [->%elem_of_singleton|Hy]%elem_of_union; [right|left; set_solver]. do 2 eexists. split; [by apply list_elem_of_singleton|done].
  - pose proof (creates_look O C (λ _ s, match entryOf s root controlName with
      None => Err ENOENT | Some (x, NDir _) => Ok x | Some _ => Err ENOTDIR end) w HO HC) as H.
    unfold openDirAt in E. by rewrite E in H.
Qed.

Lemma creates_controlFD O C : creates O C controlFD.
Proof.
  intros w HO HC. rewrite controlFD_opened. revert w HO HC. change (creates O C (bindM (look (λ _ _, Ok ())) (λ _, controlOpened))).
  apply creates_bind; [apply creates_look|intros; apply creates_controlOpened].
Qed.

Lemma controlFD_known w d w1 : controlFD w = (Ok d, w1) → d ∈ w_control w1.
Proof.
  rewrite controlFD_opened. unfold bindM, controlOpened, bindM. destruct (look _ w) as [[?|?] w2]; [|done].
  destruct (openDirAt _ _ w2) as [[x|] w3]; [|done]. simpl. intros [= <- <-]. simpl. set_solver.
Qed.

Lemma tryM_ok {A} (m : M A) w a w1 : tryM m w = (Ok (Ok a), w1) → m w = (Ok a, w1).
Proof. unfold tryM. destruct (m w). by intros [= -> ->]. Qed.

(** What runs behind the control directory knows it as such. *)
Lemma creates_with_control {A} O C (f : Z → M A) : (∀ d, creates O ({[d]} ∪ C) (f d)) → creates O C (bindM controlFD f).
Proof.
  intros Hf. apply creates_then; [apply creates_controlFD|]. intros w d w1 HO HC E. exists O, ({[d]} ∪ C).
  destruct (creates_controlFD O C w HO HC) as [Ho Hc _]. rewrite E in Ho, Hc. apply controlFD_known in E. simpl in *.
  split_and!; [set_solver|set_solver|done].
Qed.

Lemma creates_try_control {A} O C (f : result fileError Z → M A) :
  (∀ d, creates O ({[d]} ∪ C) (f (Ok d))) → (∀ e, creates O C (f (Err e))) → creates O C (bindM (tryM controlFD) f).
Proof.
  intros Hf He. apply creates_then; [apply creates_try, creates_controlFD|]. intros w r w1 HO HC E.
  destruct (creates_try O C _ (creates_controlFD O C) w HO HC) as [Ho Hc _]. rewrite E in Ho, Hc. simpl in *. destruct r as [d|e].
  - apply tryM_ok, controlFD_known in E. exists O, ({[d]} ∪ C). split_and!; [set_solver|set_solver|apply Hf].
  - exists O, C. split_and!; [set_solver|set_solver|apply He].
Qed.

Lemma creates_try_own {A} O C d name (f : result fileError Z → M A) :
  (∀ x, creates ({[x]} ∪ O) C (f (Ok x))) → (∀ e, creates O C (f (Err e))) → creates O C (bindM (tryM (ownNew d name)) f).
Proof.
  intros Hf He. apply creates_then; [apply creates_try, creates_ownNew|]. intros w r w1 HO HC E.
  destruct (creates_try O C _ (creates_ownNew O C d name) w HO HC) as [Ho Hc _]. rewrite E in Ho, Hc. simpl in *. destruct r as [x|e].
  - apply tryM_ok, ownNew_owned in E. exists ({[x]} ∪ O), C. split_and!; [set_solver|set_solver|apply Hf].
  - exists O, C. split_and!; [set_solver|set_solver|apply He].
Qed.

(** ** Staging names *)

Lemma substring_front (a b : string) : String.substring 0 (String.length a) (a +:+ b) = a.
Proof. induction a as [|c a IH]; simpl; [by destruct b|by rewrite IH]. Qed.

Lemma rev_app_app (a b acc : string) : String.rev_app (a +:+ b) acc = String.rev_app b (String.rev_app a acc).
Proof. revert acc. induction a as [|c a IH]; intros acc; simpl; [done|apply IH]. Qed.

Lemma stage_of_hex b : String.length b = 32%nat → forallb (λ c, between 48 57 c || between 97 102 c) (codes b) = true →
  stageName ("mcp-" +:+ b +:+ ".tmp") = true.
Proof.
  intros Hl Hh. unfold stageName, HasSuffix.
  assert (String.length ("mcp-" +:+ b +:+ ".tmp") = 40%nat) as -> by (rewrite !length_sapp, Hl; done).
  unfold HasPrefix, String.rev. rewrite prefix_app, !rev_app_app. change (String.rev_app ".tmp" ?s) with ("pmt." +:+ s).
  rewrite (prefix_app (String.rev_app ".tmp" "")).
  change (String.substring 4 32 ("mcp-" +:+ b +:+ ".tmp")) with (String.substring 0 32 (b +:+ ".tmp")). rewrite <- Hl, substring_front, Hl.
  simpl. apply forallb_forall. intros c Hc. rewrite forallb_forall in Hh. specialize (Hh c Hc).
  apply orb_true_iff in Hh as [->| ->]; [done|by rewrite orb_true_r].
Qed.
End Careful.

Create HintDb mcp.
#[export] Hint Resolve creates_ret creates_fail creates_lift creates_atTime creates_look creates_mkdirAt creates_createOrOpen
  creates_linkAt creates_controlFD : mcp.

(** Run by run: a call by its lemma, an answer by cases. *)
Ltac mcp := repeat first [solve [auto with mcp] | apply creates_bind; intros | apply creates_try | progress intros | case_match].

Section Operations.
Context {MC : Machine}.

Lemma creates_openParts O C d parts create : creates O C (openParts d parts create).
Proof. revert d. induction parts as [|part parts IH]; intros d; cbn [openParts]; [apply creates_ret|]. unfold openDirAt. mcp. Qed.

Lemma creates_directoryFD O C p create : creates O C (directoryFD p create).
Proof. unfold directoryFD. pose proof creates_openParts. mcp. Qed.

Lemma creates_readPieces O C x off sizes : creates O C (readPieces x off sizes).
Proof. revert off. induction sizes as [|n sizes IH]; intros off; cbn [readPieces]; mcp. Qed.

Lemma creates_readAt O C d name : creates O C (readAt d name).
Proof. unfold readAt, readRegular. pose proof creates_readPieces. mcp. Qed.

Lemma creates_Read O C p : creates O C (Read p).
Proof. unfold Read. pose proof creates_directoryFD. pose proof creates_readAt. mcp. Qed.

Lemma creates_listEntries O C d p names : creates O C (listEntries d p names).
Proof. induction names as [|name names IH]; cbn [listEntries]; mcp. Qed.

Lemma creates_List `{!SliceSort pathBefore} O C p : creates O C (List p).
Proof. unfold List. pose proof creates_directoryFD. pose proof creates_listEntries. mcp. Qed.

Lemma creates_lock O C : creates O C lock.
Proof.
  assert (∀ n, creates O C (pollLock n)) by (induction n; cbn [pollLock]; mcp). unfold lock. mcp.
Qed.

Lemma creates_removeStages O C d names : d ∈ C → creates O C (removeStages d names).
Proof.
  intros Hd. induction names as [|name names IH]; cbn [removeStages]; [mcp|]. pose proof creates_unlinkAt. mcp.
Qed.

Lemma creates_cleanStages O C : creates O C cleanStages.
Proof.
  apply creates_with_control. intros d. apply creates_bind; [mcp|]. intros names. apply creates_removeStages. set_solver.
Qed.

Lemma creates_Check O C : creates O C Check.
Proof. unfold Check, answer. mcp. Qed.

Lemma creates_thenUnlink {A} O C d name (m : M A) : d ∈ C → stageName name = true → creates O C m → creates O C (thenUnlink d name m).
Proof. intros Hd Hs Hm. unfold thenUnlink. pose proof creates_unlinkAt. mcp. Qed.

Lemma creates_publish {A} O C d name data (k : bool * result fileError string → M A) :
  (∀ O C c, creates O C (k c)) → creates O C (publish d name data k).
Proof.
  intros Hk. unfold publish. apply creates_try_control; [intros stage|intros; mcp].
  apply creates_then; [mcp|]. intros w b w1 HO HC [= <- <-]. exists O, ({[stage]} ∪ C). split_and!; [done|done|].
  assert (stageName ("mcp-" +:+ random16 (w_time w) +:+ ".tmp") = true) as Hs by (apply stage_of_hex; apply random16_hex).
  cbv zeta. generalize dependent ("mcp-" +:+ random16 (w_time w) +:+ ".tmp"). intros tmp Hs.
  apply (creates_try_own O _ stage tmp); [intros x|intros; mcp].
  assert (stage ∈ {[stage]} ∪ C) as Hin by set_solver. generalize dependent ({[stage]} ∪ C). intros C' _ Hin.
  assert (x ∈ {[x]} ∪ O) as Hx by set_solver. generalize dependent ({[x]} ∪ O). intros O' Hx.
  pose proof creates_unlinkAt. pose proof creates_writeAll. pose proof creates_readAt. unfold sync. apply creates_thenUnlink; [done|done|mcp].
Qed.

Lemma creates_confirm O C p sha c : creates O C (confirm p sha c).
Proof. destruct c as [c found]. unfold confirm, answer. pose proof creates_Read. mcp. Qed.

Lemma creates_Write O C p data sha : creates O C (Write p data sha).
Proof.
  unfold Write. pose proof creates_lock. pose proof creates_cleanStages. pose proof creates_Check. pose proof creates_directoryFD.
  pose proof creates_readAt. pose proof creates_confirm. pose proof @creates_publish. mcp.
Qed.

Lemma creates_write_file O C p content sha : creates O C (write_file p content sha).
Proof.
  unfold write_file, whenReady, writeFailure. pose proof creates_Check. pose proof creates_Write. pose proof creates_Read. mcp.
Qed.

Lemma creates_Ready O C : creates O C Ready.
Proof. unfold Ready, answer. pose proof creates_lock. pose proof creates_cleanStages. pose proof creates_Check. mcp. Qed.

(** ** What a confirmation says *)

Lemma bindM_ok {A B} (m : M A) (f : A → M B) w b w2 : bindM m f w = (Ok b, w2) → ∃ a w1, m w = (Ok a, w1) ∧ f a w1 = (Ok b, w2).
Proof. unfold bindM. destruct (m w) as [[a|e] w1]; [|done]. eauto. Qed.

Lemma tryM_spec {A} (m : M A) w r w1 : tryM m w = (Ok r, w1) → m w = (r, w1).
Proof. unfold tryM. destruct (m w). by intros [= -> ->]. Qed.

Lemma bindM_try {A B} (m : M A) (f : result fileError A → M B) w b w2 : bindM (tryM m) f w = (Ok b, w2) →
  ∃ r w1, m w = (r, w1) ∧ f r w1 = (Ok b, w2).
Proof. intros (r & w1 & H%tryM_spec & ?)%bindM_ok. eauto. Qed.

(** A file reported as created was bound to a name that was free. *)
Definition bound (name : string) (w : world) : Prop := ∃ s s' d x, (s, s') ∈ w_steps w ∧ entriesOf s d !! name = None ∧ entriesOf s' d !! name = Some x.

(** Steps are only added. *)
Definition longer (w w' : world) : Prop := ∃ l, w_steps w' = w_steps w ++ l.

#[export] Instance longer_preorder : PreOrder longer.
Proof.
  split; [intros w; exists []; by rewrite app_nil_r|]. intros w1 w2 w3 [l1 E1] [l2 E2]. exists (l1 ++ l2). by rewrite E2, E1, app_assoc.
Qed.

Lemma bound_longer name w w' : longer w w' → bound name w → bound name w'.
Proof. intros (l & E) (s & s' & d & x & H & ?). exists s, s', d, x. rewrite E. split; [apply elem_of_app; by left|done]. Qed.

Lemma longer_sys {A} (f : Z → fsys → result errno A * fsys) w : longer w (sys f w).2.
Proof.
  unfold sys. destruct (fault _); [exists []; by rewrite app_nil_r|]. destruct (f _ _). by eexists.
Qed.

Lemma longer_bind {A B} (m : M A) (f : A → M B) w : longer w (m w).2 → (∀ a w1, longer w1 (f a w1).2) → longer w (bindM m f w).2.
Proof. intros H Hf. unfold bindM. destruct (m w) as [[a|e] w1]; [|done]. by etrans; [exact H|]. Qed.

Lemma longer_creates {A} (m : M A) w : creates ∅ ∅ m → longer w (m w).2.
Proof. intros H. destruct (H w) as [_ _ (l & E & _)]; [set_solver|set_solver|]. by exists l. Qed.

Lemma longer_at {A} (m : M A) w r w1 : longer w (m w).2 → m w = (r, w1) → longer w w1.
Proof. intros H E. by rewrite E in H. Qed.

Lemma entriesOf_addLinks x k s d : entriesOf (addLinks x k s) d = entriesOf s d.
Proof.
  unfold addLinks. destruct (s !! x) as [[]|] eqn:E; try done. unfold entriesOf. destruct (decide (x = d)) as [->|].
  - by rewrite lookup_insert_eq, E.
  - by rewrite lookup_insert_ne.
Qed.

Lemma linkAt_bound d name d' name' w w' : linkAt d name d' name' w = (Ok (), w') → bound name' w'.
Proof.
  unfold linkAt, sys. destruct (fault _); [done|]. set (s := env _ _).
  destruct (entryOf s d name) as [[x n]|]; [|done]. destruct (entriesOf s d' !! name') eqn:E; [by destruct n|].
  destruct n; try done; (destruct (addEntry _ _ _ _ _) eqn:A; [|done]); intros [= <-]; exists s; eexists; exists d', x; simpl;
    (split_and!; [apply elem_of_app; right; by apply list_elem_of_singleton|done|]); rewrite entriesOf_addLinks;
    unfold addEntry in A; destruct (s !! d') as [[e| | |]|]; try done; injection A as <-; unfold entriesOf; rewrite lookup_insert_eq; by rewrite lookup_insert_eq.
Qed.

(** [w'] is [w], but for the deferred removal of a staging name. *)
Definition swept (w w' : world) : Prop :=
  w' = w ∨ ∃ stage tmp, stageName tmp = true ∧ w' = (unlinkAt stage tmp w).2.

Lemma swept_longer w w' : swept w w' → longer w w'.
Proof. intros [->|(stage & tmp & _ & ->)]; [done|apply longer_sys]. Qed.

Lemma thenUnlink_ok {A} d name (m : M A) w a w' : thenUnlink d name m w = (Ok a, w') →
  ∃ w1, m w = (Ok a, w1) ∧ w' = (unlinkAt d name w1).2.
Proof.
  unfold thenUnlink. intros (r & w1 & Hm & H')%bindM_try. apply bindM_try in H' as (u & w2 & Hu & H').
  injection H' as -> <-. exists w1. by rewrite Hu.
Qed.

(** A publication ends with its continuation and the removal of the staging name; where
    it says that the link was made, it was. *)
Lemma publish_ends {A} d name data (k : bool * result fileError string → M A) w a w' :
  publish d name data k w = (Ok a, w') →
  ∃ c w1 w2, k c w1 = (Ok a, w2) ∧ swept w2 w' ∧ (c.1 = true → bound name w1).
Proof.
  unfold publish. intros (stage & w1 & _ & H')%bindM_try.
  destruct stage as [stage|]; [|do 3 eexists; split_and!; [exact H'|by left|done]].
  apply bindM_ok in H' as (b & w2 & [= <- <-] & H').
  assert (stageName ("mcp-" +:+ random16 (w_time w1) +:+ ".tmp") = true) as Hs by (apply stage_of_hex; apply random16_hex).
  cbv zeta in H'. generalize dependent ("mcp-" +:+ random16 (w_time w1) +:+ ".tmp"). intros tmp H' Hs.
  apply bindM_try in H' as (fd & w3 & _ & H'). destruct fd as [x|]; [|do 3 eexists; split_and!; [exact H'|by left|done]].
  apply thenUnlink_ok in H' as (w4 & Hr & ->). apply bindM_try in Hr as (written & w6 & _ & Hr). apply bindM_try in Hr as (closed & w7 & _ & Hr).
  assert (swept w4 (unlinkAt stage tmp w4).2) as Hsw by (right; eauto).
  destruct written, closed; try (do 3 eexists; split_and!; [exact Hr|exact Hsw|done]).
  apply bindM_try in Hr as (linked & w8 & Hl & Hr).
  destruct linked as [[]|[[]| | |]]; try (do 3 eexists; split_and!; [exact Hr|exact Hsw|done]);
    apply bindM_try in Hr as (existing & w9 & He & Hr); do 3 eexists; (split_and!; [exact Hr|exact Hsw|]); [|done].
  intros _. eapply bound_longer; [|by eapply linkAt_bound]. eapply longer_at, He. apply longer_bind; [apply longer_sys|]. intros _ w10.
  apply longer_creates. apply creates_bind; [apply creates_look|intros; apply creates_readAt].
Qed.

(** The end of a write keeps what it is told; it confirms only what it has just read. *)
Lemma confirm_ends p sha c w b r w' : confirm p sha c w = (Ok (b, r), w') →
  b = c.1 ∧ longer w w' ∧ (r = Ok () → ∃ back w1, Read p w1 = (Ok back, w') ∧ digest back = sha).
Proof.
  intros E. split_and!; [| |intros ->].
  - revert E. destruct c as [c [found|]]; [|by intros [= <- <- <-]]. unfold confirm. case_match; [by intros [= <- <- <-]|].
    intros (verified & w1 & _ & E)%bindM_try. destruct verified; [|by injection E as <- <- <-].
    apply bindM_try in E as (confirmed & w2 & _ & E). unfold retM in E. repeat case_match; by simplify_eq.
  - eapply longer_at, E. apply longer_creates, creates_confirm.
  - revert E. destruct c as [c [found|]]; [|done]. unfold confirm. case_match; [done|].
    intros (verified & w1 & _ & E)%bindM_try. destruct verified; [|done].
    apply bindM_try in E as (confirmed & w2 & Hr & E). destruct confirmed as [back|]; [|done].
    destruct (decide (digest back = sha)); [rewrite bool_decide_eq_true_2 in E by done|by rewrite bool_decide_eq_false_2 in E by done].
    injection E as _ <-. eauto.
Qed.

(** What a write returns was said by [confirm]. *)
Lemma Write_ends p data sha w b r w' : Write p data sha w = (Ok (b, r), w') →
  b = false ∧ r ≠ Ok () ∨
  (validatePath p false = true ∧ Z.of_nat (String.length data) <= MaxFileBytes ∧ ValidString data = true ∧ sha = digest data) ∧
  ∃ c w1 w2, confirm p sha c w1 = (Ok (b, r), w2) ∧ swept w2 w' ∧ (c.1 = true → bound (Base p) w1).
Proof.
  unfold Write. destruct (validatePath p false); [|intros [= <- <- <-]; by left].
  destruct (MaxFileBytes <? _) eqn:Hl; [intros [= <- <- <-]; by left|]. destruct (ValidString data); [|intros [= <- <- <-]; by left].
  destruct (_ =? 64)%nat; [|intros [= <- <- <-]; by left].
  destruct (decide (sha = digest data)) as [Hs|Hs]; [rewrite bool_decide_eq_true_2 by done|rewrite bool_decide_eq_false_2 by done; intros [= <- <- <-]; by left].
  cbn [negb orb]. intros (r1 & w1 & _ & H')%bindM_try. destruct r1 as [d|]; [|injection H' as <- <- <-; by left].
  apply bindM_try in H' as (existing & w2 & _ & H'). right. split; [split_and!; [done|lia|done|done]|].
  destruct existing as [|[[]| | |]]; try (do 3 eexists; split_and!; [exact H'|by left|done]). by apply publish_ends in H'.
Qed.

(** A write the server confirms had valid arguments, and but for the deferred removal of
    its staging name its last act was to read the path again, with the agreed digest; and a
    name it says it made, it made. *)
Lemma Write_confirmed p data sha w created w' : Write p data sha w = (Ok (created, Ok ()), w') →
  validatePath p false = true ∧ Z.of_nat (String.length data) <= MaxFileBytes ∧ ValidString data = true ∧ sha = digest data ∧
  (∃ back w1 w2, Read p w1 = (Ok back, w2) ∧ digest back = sha ∧ swept w2 w') ∧
  (created = true → bound (Base p) w').
Proof.
  intros [[_ ?]|((? & ? & ? & ?) & c & w1 & w2 & Hc & Hsw & Hb)]%Write_ends; [done|].
  apply confirm_ends in Hc as (-> & Hlong & Hread). destruct (Hread eq_refl) as (back & w3 & ? & ?).
  split_and!; [done..|eauto 6|]. intros Hc. eapply bound_longer; [etrans; [exact Hlong|by apply swept_longer]|auto].
Qed.

Lemma creates_handle `{!SliceSort pathBefore} O C t : creates O C (handle t).
Proof.
  destruct t; simpl; [| | |apply creates_write_file]; unfold workspace_status, list_files, read_file, whenReady; pose proof creates_Check;
    pose proof creates_List; pose proof creates_Read; mcp.
Qed.

Lemma write_file_confirmed p content sha w created sha' n w' : write_file p content sha w = (Ok (WriteReply created sha' n), w') →
  sha' = sha ∧ n = Z.of_nat (String.length content) ∧ ∃ w1, Write p content sha w1 = (Ok (created, Ok ()), w').
Proof.
  unfold write_file. do 3 (case_match; [done|]). intros (ready & w1 & _ & H')%bindM_try. destruct ready; [|done].
  apply bindM_ok in H' as ([c [u|e]] & w2 & Hw & H').
  - destruct u, c; injection H' as <- <- <- <-; eauto 6.
  - destruct c; [done|]. unfold writeFailure in H'. apply bindM_ok in H' as (data & w3 & _ & H').
    unfold retM in H'. repeat case_match; simplify_eq; try done; unfold fileFailure in *; repeat case_match; done.
Qed.
End Operations.

(** ** Reading tools *)

Section Reading.
Context {MC : Machine}.

(** A run that changes nothing. *)
Definition looks {A} (m : M A) : Prop := ∀ w, ∃ l, w_steps (m w).2 = w_steps w ++ l ∧ Forall (λ p, p.1 = p.2) l.

Lemma looks_ret {A} (a : A) : looks (retM a).
Proof. intros w. exists []. by rewrite app_nil_r. Qed.
Lemma looks_fail {A} e : looks (failM (A := A) e).
Proof. intros w. exists []. by rewrite app_nil_r. Qed.
Lemma looks_atTime {A} (f : Z → A) : looks (atTime f).
Proof. intros w. exists []. by rewrite app_nil_r. Qed.
Lemma looks_look {A} (f : Z → fsys → result errno A) : looks (look f).
Proof.
  intros w. unfold look, sys. destruct (fault _); [exists []; by rewrite app_nil_r|]. simpl. eexists. split; [done|].
  by apply Forall_singleton.
Qed.
Lemma looks_bind {A B} (m : M A) (f : A → M B) : looks m → (∀ a, looks (f a)) → looks (bindM m f).
Proof.
  intros Hm Hf w. unfold bindM. destruct (Hm w) as (l & E & Hl). destruct (m w) as [[a|e] w1]; [|by exists l]. simpl in *.
  destruct (Hf a w1) as (l' & E' & Hl'). exists (l ++ l'). rewrite E', E, app_assoc. split; [done|by apply Forall_app].
Qed.
Lemma looks_try {A} (m : M A) : looks m → looks (tryM m).
Proof. intros Hm w. unfold tryM. specialize (Hm w). by destruct (m w). Qed.
End Reading.

#[export] Hint Resolve looks_ret looks_fail looks_atTime looks_look : mcp.
Ltac looks := repeat first [solve [auto with mcp] | apply looks_bind; intros | apply looks_try | progress intros | case_match].

Section ReadingTools.
Context {MC : Machine}.

Lemma looks_directoryFD p : looks (directoryFD p false).
Proof.
  assert (∀ parts d, looks (openParts d parts false)) by (induction parts; intros; cbn [openParts]; unfold openDirAt; looks).
  unfold directoryFD. looks.
Qed.

Lemma looks_Read p : looks (Read p).
Proof.
  assert (∀ x sizes off, looks (readPieces x off sizes)) by (induction sizes; intros; cbn [readPieces]; looks).
  pose proof looks_directoryFD. unfold Read, readAt, readRegular. looks.
Qed.

Lemma looks_List `{!SliceSort pathBefore} p : looks (List p).
Proof.
  assert (∀ d p names, looks (listEntries d p names)) by (induction names; cbn [listEntries]; looks).
  pose proof looks_directoryFD. unfold List. looks.
Qed.

Lemma looks_handle `{!SliceSort pathBefore} t : (∀ p content sha, t ≠ WriteFile p content sha) → looks (handle t).
Proof.
  intros Ht. assert (looks Check) by (unfold Check, answer; looks). pose proof looks_Read. pose proof looks_List.
  destruct t; [| | |by edestruct Ht]; simpl; unfold workspace_status, list_files, read_file, whenReady; looks.
Qed.

(** C14: whatever others do meanwhile and whichever call fails, a tool only creates.  No
    step of it changes the bytes of a file that it did not create itself in this
    run, and no step takes an entry out of a directory, except for staging names in a
    directory it found under the control name; the three reading tools change nothing at
    all.  A write it confirms had a valid path and valid content of the agreed
    digest, and its last act, but for the deferred removal of its staging name, was to
    read the path back with that digest; and if it says it created the file, a step of it
    bound the name where it was free. *)
Theorem tools_only_create `{!SliceSort pathBefore} t s now :
  let '(r, w) := handle t (start s now) in
  (∀ s s', (s, s') ∈ w_steps w → careful (w_own w) (w_control w) s s') ∧
  (∀ x, x ∈ w_own w → ∃ s s', (s, s') ∈ w_steps w ∧ s !! x = None ∧ s' !! x ≠ None) ∧
  (∀ d, d ∈ w_control w → ∃ s s', (s, s') ∈ w_steps w ∧ entriesOf s root !! controlName = Some d) ∧
  match t with
  | WriteFile p content sha => ∀ created sha' n, r = Ok (WriteReply created sha' n) →
      validatePath p false = true ∧ ValidString content = true ∧ sha' = digest content ∧
      n = Z.of_nat (String.length content) ∧ n <= MaxFileBytes ∧
      (∃ back w1 w2, Read p w1 = (Ok back, w2) ∧ digest back = digest content ∧ swept w2 w) ∧
      (created = true → bound (Base p) w)
  | _ => ∀ s s', (s, s') ∈ w_steps w → s = s'
  end.
Proof.
  destruct (handle t (start s now)) as [r w] eqn:E. pose proof (creates_handle ∅ ∅ t (start s now)) as G. rewrite E in G.
  destruct G as [_ _ (l & El & Hs & Ho & Hc)]; [done|done|]. simpl in *. rewrite El. split_and!; [done| | |].
  - intros x Hx. destruct (Ho x Hx) as [?|?]; [set_solver|done].
  - intros d Hd. destruct (Hc d Hd) as [?|?]; [set_solver|done].
  - assert ((∀ p content sha, t ≠ WriteFile p content sha) → ∀ s s', (s, s') ∈ l → s = s') as Hl.
    { intros Ht a b Hab. destruct (looks_handle t Ht (start s now)) as (l' & E' & Hl'). rewrite E in E'. simpl in E'.
      rewrite El in E'. subst l'. rewrite Forall_forall in Hl'. exact (Hl' _ Hab). }
    destruct t as [| | |p content sha]; try (by apply Hl). intros created sha' n ->. simpl in E.
    apply write_file_confirmed in E as (-> & -> & w1 & Hw). pose proof (Write_confirmed _ _ _ _ _ _ Hw) as (? & ? & ? & -> & ? & ?).
    by split_and!.
Qed.
End ReadingTools.

#[local] Instance pathBefore_order : StrictWeak pathBefore.
Proof. split; unfold pathBefore; [intros a b; apply sw_asym|intros a b c; apply sw_trans]. Qed.

(** ** Runs of a machine *)

Module Runs.
(** A digest of 64 characters. *)
Definition pad (s : string) : string :=
  String.substring 0 64 (s +:+ "0000000000000000000000000000000000000000000000000000000000000000").

(** A healthy mount; others make [agent.txt] at the time [theirs], and calls fail at the
    times [failures]. *)
Definition row : StatusRow :=
  {| st_Workspace := "w"; st_Directory := "/m"; st_Backend := "sync"; st_State := "running"; st_ReadOnly := false; st_Sync := Some (true, "") |}.
Definition intruder (theirs : option Z) (t : Z) (s : fsys) : fsys :=
  if bool_decide (theirs = Some t) then <[1 := NDir (<["agent.txt" := 50]> (entriesOf s 1))]> (<[50 := NReg 1 "theirs"]> s) else s.

Lemma fresh_id (s : fsys) : s !! fresh (dom s) = None.
Proof. apply not_elem_of_dom, is_fresh. Qed.
Lemma some_hex (t : Z) : String.length "0123456789abcdef0123456789abcdef" = 32%nat ∧
  forallb (λ c, between 48 57 c || between 97 102 c) (codes "0123456789abcdef0123456789abcdef") = true.
Proof. done. Qed.
Lemma map_order (t : Z) (m : gmap string Z) : map fst (map_to_list m) ≡ₚ map fst (map_to_list m).
Proof. done. Qed.

Definition machine (theirs : option Z) (failures : list Z) : Machine := {|
  env := intruder theirs; fault t := bool_decide (t ∈ failures); partial _ := 2%nat; pieces _ := [3%nat];
  freshInode _ s := fresh (dom s); fresh_free _ := fresh_id; random16 _ := "0123456789abcdef0123456789abcdef"; random16_hex := some_hex;
  directoryOrder _ m := map fst (map_to_list m); directory_order := map_order;
  sameRoot _ := true; accessible _ := true; directorySize _ := 4096; Workspace := "w"; Directory := "/m";
  syncStatus _ := Ok [row];
  syncWait _ := Ok {| vf_Success := true; vf_Verified := true; vf_Workspace := "w"; vf_Directory := "/m" |};
  locked _ := false; polls := 3; sha256hex := pad; root := 1
|}.

(** A mount whose last server died between the link and the unlink of a staging file. *)
Definition mount : fsys := {[
  1 := NDir {[controlName := 2; "old.txt" := 3]};
  2 := NDir {["mcp-00112233445566778899AABBccddeeff.tmp" := 3; "keep.tmp" := 4]};
  3 := NReg 2 "old"; 4 := NReg 1 "kept"
]}.

Definition write (m : Machine) (s : fsys) (p content : string) : result fileError reply * fsys :=
  let '(r, w) := write_file p content (digest content) (start s 0) in (r, w_fs w).
Definition read (m : Machine) (s : fsys) (p : string) : option string :=
  match (Read p (start s 0)).1 with Ok data => Some data | Err _ => None end.
Definition quiet : Machine := machine None [].

(** The stale staging name goes first, which makes [old.txt] readable again. *)
Example fresh_write : let '(r, s) := write quiet mount "notes/agent.txt" "hello" in
  r = Ok (WriteReply true (pad "hello") 5) ∧ read quiet s "notes/agent.txt" = Some "hello" ∧
  read quiet mount "old.txt" = None ∧ read quiet s "old.txt" = Some "old" ∧
  map fst (map_to_list (entriesOf s 2)) = ["keep.tmp"; "mcp-write.lock"].
Proof. vm_compute. repeat split. Qed.

(** The same call again is confirmed without creating; other content is refused. *)
Example repeated_write : let s := (write quiet mount "agent.txt" "hello").2 in
  (write quiet s "agent.txt" "hello").1 = Ok (WriteReply false (pad "hello") 5) ∧
  (write quiet s "agent.txt" "other").1 = Ok (Failure "already_exists" false) ∧
  read quiet (write quiet s "agent.txt" "other").2 "agent.txt" = Some "hello".
Proof. vm_compute. repeat split. Qed.

(** Whenever another process puts its file there before the confirming read is over, that
    file keeps its bytes, and the write is not confirmed. *)
Example lost_race : forallb (λ t,
    let '(r, s) := write (machine (Some t) []) mount "agent.txt" "hello" in
    bool_decide (read quiet s "agent.txt" = Some "theirs") && match r with Ok (WriteReply _ _ _) => false | _ => true end) (seqZ 0 35) = true.
Proof. by vm_compute. Qed.

(** Whichever call fails, the file is not there or whole. *)
Example failed_call : forallb (λ t, match read quiet (write (machine None [t]) mount "agent.txt" "hello").2 "agent.txt" with
    Some data => bool_decide (data = "hello") | None => true end) (seqZ 0 40) = true.
Proof. by vm_compute. Qed.

Lemma confirmed_run : (handle (MC := quiet) (WriteFile "notes/agent.txt" "hello" (pad "hello")) (start mount 0)).1 = Ok (WriteReply true (pad "hello") 5).
Proof. by vm_compute. Qed.
End Runs.

Lemma tools_only_create_witness :
  let w := (handle (MC := Runs.quiet) (WriteFile "notes/agent.txt" "hello" (Runs.pad "hello")) (start Runs.mount 0)).2 in
  bound "agent.txt" w ∧ (∃ back w1 w2, Read (MC := Runs.quiet) "notes/agent.txt" w1 = (Ok back, w2) ∧ Runs.pad back = Runs.pad "hello" ∧ swept (MC := Runs.quiet) w2 w) ∧
  ∀ s s', (s, s') ∈ w_steps w → careful (w_own w) (w_control w) s s'.
Proof.
  pose proof (tools_only_create (MC := Runs.quiet) (WriteFile "notes/agent.txt" "hello" (Runs.pad "hello")) Runs.mount 0) as H.
  pose proof Runs.confirmed_run as E. destruct (handle _ _) as [r w]. simpl in E. subst r.
  destruct H as (H1 & _ & _ & H4). destruct (H4 true (Runs.pad "hello") 5 eq_refl) as (_ & _ & _ & _ & _ & Hb & Hc). split; [by apply Hc|]. split; [exact Hb|exact H1].
Defined.
